(* ===== verification/_CoqProject ===== *)
-Q . S2P
Prelude.v
Buf.v
Http.v
Models.v
WriteBuf.v
HeaderWrite.v
Encode.v
EncodeProps.v
Decode.v
Error.v
RefHttparse.v
DecodeFacts.v
DecodeProps.v
Io.v
IoFacts.v
IoProps.v
Role.v
RoleFacts.v
RoleProps.v
Conn.v
ConnFacts.v
ConnOps.v
ConnFlow.v
ConnProps.v
Oneshot.v
Pool.v
PoolFacts.v
PoolWorld.v
PoolProps.v
Incoming.v
Dispatch.v
DispatchProps.v
Dispatcher.v
DispatcherFacts.v
DispatcherProps.v
Net.v
Socks.v
SocksFacts.v
SocksProps.v
Tunnel.v
Proxy.v
ProxyProps.v
Request.v
Pending.v
PendingFacts.v
PendingProps.v
CoreClient.v
CoreClientProps.v
Ping.v
PingProps.v
Multipart.v
MultipartProps.v
ClientError.v
HttpConnect.v
HttpConnectProps.v
ReqBuilder.v
ReqBuilderProps.v
Connector.v
ConnectorProps.v
ResponseBody.v
ResponseProps.v
SessionCache.v
H2.v
H2Client.v
H2Props.v
H2ClientProps.v
IdleTask.v
WebSocket.v
WebSocketProps.v
Upgrade.v
Handles.v
HandlesProps.v
Tls.v
TlsProps.v
Dns.v
ClientBuilder.v
ClientBuilderProps.v
Cookie.v
RtIo.v
Futures.v
