(* ===== verification/Prelude.v ===== *)
(** * Verification of the rquest HTTP client

    rquest is an HTTP client.  Its protocol core (src/src/core) turns requests
    into bytes on a connection and bytes into responses, and keeps idle
    connections for reuse; the client around it (src/src) chooses proxies, follows
    redirects and retries, keeps TLS settings, sessions and cookies, and speaks
    WebSocket.  This library models HTTP/1 in the core, from the bytes up to the
    task that serves a connection and the handles its callers hold; the task of an
    HTTP/2 connection above the http2 crate; the connection pool, the channel that
    brings requests to a connection, upgrades, the connectors and the handshakes
    with proxies; and of the client its builder and updates, the request builder,
    the choice of proxies, the life of a request, the response, the TLS settings,
    cookies and WebSocket.  It proves what they promise to the layers above.

    ** The parts and how they interact

    A request is written and its response read by a connection ([Conn]).  The
    connection owns a buffered transport ([Buffered]: a read buffer with an
    adaptive read size, a write buffer that flattens or queues) and the state of
    its two directions.  Writing a head goes through the client role ([Role]),
    which fixes the framing headers and returns the body encoder ([Encode]) that
    agrees with them; reading one goes through [Role] too, which parses the head,
    decides how the body is delimited and yields the body decoder ([Decode]).
    When both directions are done the connection becomes idle, and the pool
    ([Pool]) may hand it to the next request.  Callers reach a connection's task
    over a queue ([Dispatch]): a request travels with a callback on which its
    response, or the reason why there is none, comes back.  The task itself is the
    dispatcher ([Dispatcher]): it takes requests from the queue, drives the
    connection's reads and writes, and forwards a response's body over a channel
    ([Incoming]) to whoever received the response.

    Above the core, [execute_request] ([Pending]) completes a request with default
    headers, cookies and proxy credentials, chooses its route among the client's
    proxies ([Proxy], [Network]), builds the core's request ([Request]) and polls it
    to its answer, through redirects and retries.  A connection through a proxy
    begins with a handshake: SOCKS 4 or 5 ([Socks]) or a CONNECT tunnel ([Tunnel]).
    What [Pending] polls is the core client ([CoreClient]): it races a checkout from
    the pool against a new connection, fits the request to the connection it gets,
    and sends it again when a pooled connection hands it back unsent.  A request is
    made by the request builder ([ReqBuilder]); its body may be a multipart form
    ([Multipart]).  What the user gets back is a response ([ResponseBody]): the core's
    body within the timeouts of the request, decompressed as its headers say.

    A new connection is made by the connector ([Connector]): directly, through a
    SOCKS proxy or through a tunnel, with TLS where the scheme asks for it, resuming
    a TLS session of the cache ([SessionCache]) where there is one.  At the bottom
    the TCP connector ([HttpConnect]) races the addresses of two families.

    An HTTP/2 connection has a task of its own ([H2Client]).  It takes requests from
    the same queue ([Dispatch]), opens a stream for each, and spawns tasks that pipe
    the request's body ([H2]) and that wait for the response; the connection's task
    drives the http2 crate and is watched by pings ([Ping]), which estimate its
    window and declare it dead.

    What the rest of the program holds of a connection are its handles ([Handles]):
    a handshake makes the sender of requests and the future that is the task.  When
    the peer agrees to an upgrade the task ends, and hands its transport, with the
    bytes that were read too far in front of it ([Rewind]), to the caller that waits
    for it ([Upgrade]).  [WebSocket] is such a caller: it makes the request of the
    handshake, checks the answer and then passes messages to and from tungstenite.

    All of this is set up by the client's builder ([ClientBuilder]): it fills in the
    settings of the core, the TLS connector ([Tls]), the name resolver ([Dns]), the
    proxies and the cookie jar ([Cookie]).  A client that is in use is changed by an
    update, which replaces its settings as a whole.

    ** The files

    - Prelude.v: bytes, machine integers with their wrap-around, the poll monad
      [PM] (a value, [Pending], an error, a panic, or fuel exhausted), the [str]
      and number functions of the standard library the program uses, shared
      lemmas, tactics and hint databases.
    - Buf.v: the [Buf] trait of the bytes crate as a class with laws ([Buf],
      [BufLaws]), the crate's combinators as an interface ([BytesCrate]);
      common/buf.rs ([BufList]) and the [Cursor] of proto/h1/io.rs.
    - Http.v: the http crate's header map as an interface ([HttpCrate],
      [HttpLaws]); headers.rs ([Headers]) and body/length.rs ([DecodedLength]).
    - Models.v and RefHttparse.v: executable instances of the interfaces of the
      crates (bytes, http, httparse), at which the theorems are evaluated.
    - WriteBuf.v: [WriteBuf] of proto/h1/io.rs, an instance of [Buf].
    - HeaderWrite.v: the header writers of proto/h1/role.rs; the length headers.
    - Encode.v, EncodeProps.v: proto/h1/encode.rs.
    - Decode.v, DecodeFacts.v, DecodeProps.v: proto/h1/decode.rs, against the
      [MemRead] interface ([MemReadLaws]: a reader is a byte stream).
    - Error.v: error.rs, the kinds the protocol code makes and tests.
    - Io.v, IoFacts.v, IoProps.v: [Buffered] and [ReadStrategy] of
      proto/h1/io.rs, against the transport interface of rt/io.rs
      ([TransportLaws]); IoFacts.v discharges [MemReadLaws] for [Buffered].
    - Role.v, RoleFacts.v, RoleProps.v: proto/h1/role.rs, with the message types
      of proto/mod.rs and proto/h1/mod.rs.
    - Conn.v, ConnFacts.v, ConnOps.v, ConnFlow.v, ConnProps.v: proto/h1/conn.rs,
      one definition per method of [State] and [Conn]; ConnFlow.v follows the bytes
      through each operation, which bounds the loops above.
    - Oneshot.v: tokio's oneshot channels as an interface ([OneshotLaws]) with a
      store that satisfies it; both the pool and the request channel use it.
    - Pool.v, PoolFacts.v, PoolWorld.v, PoolProps.v: client/pool.rs, with the
      [Poolable] instance of client/mod.rs, against the lru crate's interface
      ([LruLaws]).
    - Dispatch.v, DispatchProps.v: client/dispatch.rs and the [Client] of
      proto/h1/dispatch.rs, against tokio's unbounded queue ([MpscLaws]) and the
      want crate ([WantLaws]); destructors are called where Rust runs them.
    - Incoming.v: body/incoming.rs and common/watch.rs, against futures' mpsc
      channel ([FMpscLaws]).
    - Dispatcher.v, DispatcherFacts.v, DispatcherProps.v: the task of
      proto/h1/dispatch.rs, generic in its [Dispatch] trait ([DispatchLaws]) and in
      the request body ([BodyLaws], http-body); [client_dispatch] is the instance
      the client uses, and DispatcherProps.v discharges the laws for it.

    - Net.v: [read] and [write_all] of rt/io.rs, awaiting a transport that does
      not stall forever ([TransportLive]); addresses and the standard library's
      parser for them.
    - Socks.v, SocksFacts.v, SocksProps.v: client/connect/proxy/socks.  Tunnel.v:
      client/connect/proxy/tunnel.rs.
    - Proxy.v, ProxyProps.v: src/proxy.rs, against the url, ipnet and http crates
      ([UrlCrate], [ProxyCrates]), and client/network.rs.
    - Request.v: client/request.rs, src/client/body.rs and src/config.rs.
    - Pending.v, PendingFacts.v, PendingProps.v: src/redirect.rs and, of
      src/client/client.rs, [execute_request], [ClientRef] and [PendingRequest],
      against the core client, the cookie store and the clock ([World]).

    - CoreClient.v, CoreClientProps.v: client/mod.rs and client/dst.rs, against the
      http crate's URIs ([UriLaws]) and the connections and the pool as a request
      sees them, with a log of what happened ([NetLaws]); [connect_to] runs on [Pool]'s
      own state.
    - Ping.v, PingProps.v: proto/h2/ping.rs, against the clock, the timer and the
      http2 crate's pings ([PeerLaws]); an f64 is a binary64 of the Standard
      Library's [SpecFloat].
    - Multipart.v, MultipartProps.v: src/client/multipart.rs and the random numbers
      of src/util.rs, against the percent-encoding crate ([PercentCrate]).

    - HttpConnect.v, HttpConnectProps.v: client/connect/http.rs and the address
      lists of client/connect/dns.rs, on a Linux target, against the socket calls
      and the clock ([SocketApi], [SocketLaws], with a log of dials and polls and their time).
    - ReqBuilder.v, ReqBuilderProps.v: src/client/request.rs and [replace_headers]
      of src/util.rs, against the url crate ([UrlQuery], [UrlCredLaws]) and serde.
    - Connector.v, ConnectorProps.v: src/connect.rs, src/tls/conn/mod.rs and
      boring.rs, client/connect/mod.rs, against sockets, TLS, the tunnel's handshake
      and tokio-socks ([ConnApi], [ConnLaws], with a log of what was asked of them).
    - SessionCache.v: src/tls/conn/cache.rs, against the linked hash set
      ([LinkedSetLaws]).
    - ClientError.v: src/error.rs, with the chain of sources that its predicates walk.
    - ResponseBody.v, ResponseProps.v: src/client/response.rs, src/client/decoder.rs
      and the timeouts of src/client/body.rs, against the decompressors and the
      streams around them ([Codecs], [CodecsLaws]: one member or, for zstd, one frame
      after the other) and http-body ([HttpBodyLaws]).
    - H2.v, H2Props.v: proto/h2/mod.rs and the HTTP/2 kind of body/incoming.rs,
      against the streams of the http2 crate ([H2Streams], [H2Laws]: the frames a
      stream was given, what it refused and what it received).
    - H2Client.v, H2ClientProps.v: proto/h2/client.rs, against the connection of the
      http2 crate ([H2Crate], [H2CrateLaws]) and on [Dispatch]'s own queue; a spawned
      task is a value in the list of tasks the executor may poll.

    - IdleTask.v: the task of client/pool.rs that evicts idle connections, against
      the clock and the timer.
    - Upgrade.v: upgrade.rs, src/client/upgrade.rs and common/io/rewind.rs, on [Oneshot]'s channels.
    - Handles.v, HandlesProps.v: client/conn/http1.rs and client/conn/http2.rs with
      their settings, on the models of [Dispatch], [Dispatcher] and [H2Client].
    - WebSocket.v, WebSocketProps.v: src/client/websocket, against tungstenite
      ([Tungstenite]) and on [ReqBuilder] and [Pending].
    - Tls.v, TlsProps.v: src/tls (settings, ALPN, versions, certificates, stores,
      identities, the connector and the sessions of a handshake, key logs), against
      BoringSSL as a log of calls, each of which it may refuse ([BoringTypes],
      [Boring]).
    - Dns.v: the overrides and the resolver's wrapper in src/dns.
    - ClientBuilder.v, ClientBuilderProps.v: src/client/client.rs (the builder with
      all of its methods, [ClientRef], [ClientUpdate]), src/client/emulation.rs,
      the [Builder] of client/mod.rs and the settings of config.
    - Cookie.v: src/cookie.rs, against the cookie and cookie_store crates.
    - RtIo.v: [ReadBuf] of rt/io.rs and the readers of rt/tokio.rs,
      common/io/compat.rs and common/io/rewind.rs on memory that may be
      uninitialised, against tokio's buffer ([TokioBuf], [TokioBufLaws]).
    - Futures.v: common/lazy.rs, service/oneshot.rs, ext/h1_reason_phrase.rs and, of
      client/connect, the extras and the poison pill of a connection and capture.rs,
      against tokio's watch channel ([WatchLaws]).

    (Paths are under src/src/core, those with src/ under src/src.)  The names of the definitions are the names in
    the source; a prefix ([buffered_], [conn_], [buflist_], ...) tells apart methods
    of different types.  A [&mut self] method takes and returns the state.

    ** What is proved

    - Encoding (EncodeProps): a body of a declared length comes out as exactly
      that many bytes; the one-call [encode_and_end] writes what [encode] and
      [end] write; trailers are filtered by the [Trailer] header.
    - Decoding (DecodeProps): no panic and progress or a definite outcome on
      every call; length- and close-delimited bodies deliver exactly their bytes;
      the chunked decoder bounds its buffers and counts, gives the same result
      however the bytes are split into reads, and inverts the chunked encoder.
    - Buffered I/O (IoProps): flushing conserves the byte stream under partial
      writes, [Pending] and errors; reads are a stream; a head parse consumes a
      prefix and returns for every input; the read size stays within its limits.
    - Role (RoleProps): the fast end-of-head scan agrees with the specification;
      obsolete folding is undone in place; response framing by the rules of the
      RFC; the request's framing headers and when they agree with the encoder; the bytes of a request head; reading a head
      is total.
    - Connection (ConnProps): [conn_step] is one call of the dispatcher, and
      [conn_invariant] holds after any sequence of them; closed stays closed; idle
      means that a complete exchange is over; every call returns.
    - Pool (PoolProps): [pool_step] (PoolWorld) interleaves the users of the pool;
      idle lists stay within the limit, no waiting checkout is forgotten, HTTP/2
      connecting is exclusive; and what [put], a checkout, the eviction task and
      [pooled] do in each case; and when a checkout's assertion fails, in the window
      between the release of the pool's lock and the first poll of the receiver.
    - Request channel (DispatchProps): [d_step] interleaves callers and connection;
      every accepted request is answered exactly once, also when the connection's
      task ends; a request is handed back for a retry only if it never started;
      nothing is used twice; and the queue is bounded by demand.
    - Task (DispatcherProps): a poll of the task returns, without a panic, and is a
      sequence of legal calls of the connection and the request channel, so the
      invariants of both hold of the running task; an error reaches the caller.

    - Handshakes (SocksProps, Tunnel): over any transport that does not stall
      forever they return, having written exactly the messages of the state they
      ended in; a server reads from the messages what they were made of; which
      replies panic.
    - Proxies (ProxyProps, PendingProps): which hosts a [no_proxy] list excludes,
      which proxies the environment names, which proxy a request goes through, and
      to whom proxy credentials are sent.
    - Requests (Request, PendingProps): what sorting the headers keeps; the
      decision on every response; over the whole [life] of a request, how many
      requests it sends, where they go and that credentials stay on their site.
    - Core client (CoreClientProps): a request is sent at most once however often
      the pool hands out dead connections, and when it is tried again; the target's form and the Host header a
      connection is given; the lock on an HTTP/2 key is given back on every path.
    - Pings (PingProps): [reach] interleaves recorders, the ponger and time; a
      connection is declared dead only after the silence and the unanswered ping
      that the configuration asks for; windows only grow, up to 16 MiB.
    - Forms (MultipartProps): the declared length is the length of the stream; a
      reader that follows RFC 2046 finds the parts again, whatever the file names;
      the random state never becomes zero.
    - Request builder (ReqBuilderProps): the first error wins and is what [send]
      reports; a clone is the same request; the credentials of a URL become its
      [Authorization]; the headers of a multipart body agree with the form.
    - Connectors (HttpConnectProps, ConnectorProps): in every race of two
      address lists, which addresses are dialled, in which order and when, and that a
      failure is reported only when both lists have failed; the steps by which a
      connection is made, and which TLS sessions it has, for every destination and proxy.
    - TLS sessions (SessionCache): if no two authorities issue sessions with the same
      id, a TLS 1.3 session is handed out once per insertion and the two maps of the
      cache stay in agreement and within its capacity; otherwise they do not.
    - Responses (ResponseProps): when the end of a body is reported, what was
      delivered is all of its data, or what its data is the compression of; the
      timeouts of a request hold for its body and are seen as timeouts.
    - HTTP/2 (H2Props, H2ClientProps): which headers are stripped; what the peer
      receives of a body, in order and ended once; the upgraded stream reads and
      writes a byte stream; in every interleaving of callers, spawned tasks and the
      connection, each request taken from the queue is answered, by its response or
      by an error; a poll of the client task returns.

    - Eviction (IdleTask): a poll of the eviction task sweeps the pool once per
      deadline that is over and then waits, ends with the pool, and never waits if
      the idle timeout is zero.
    - Handles (HandlesProps): in every interleaving of callers and task, a refused
      request comes back with an error that carries it and an accepted one is
      answered, on HTTP/1 and on HTTP/2; an upgraded connection hands over its
      transport with no byte lost or repeated.
    - WebSocket (WebSocketProps): what the request of the handshake carries; exactly
      which answers are accepted; messages arrive as they were sent, in order.
    - TLS (TlsProps): a connector is configured as the settings say, or its making
      fails; a session is offered only to the peer it came from, by the connector
      that got it; certificates to pin that do not parse are dropped.
    - Client (ClientBuilderProps): the updates of a client, by any threads in any
      order, keep the connector, resolver, trust and limits of its builder; when
      proxy credentials are added to a request; what a race of updates loses, and how
      an emulation changes the trust anchors.
    - Names and cookies (Dns, Cookie): which addresses a name resolves to with
      overrides; which cookies the jar returns.
    - Memory (RtIo): the readers on memory, and the unsafe adapters between the
      core's traits and tokio's, are the transports the other files assume; no
      uninitialised memory is read; when [Compat] panics.
    - Small futures (Futures): a connector is called at most once for a connection; a
      poisoned connection is poisoned in all its handles; what a capture yields.

    ** Fuel

    Four loops have no structural bound: [chunked_loop], [parse], and the two
    flush loops; [client_parse] skips interim responses.  They take fuel, and
    [RFuel] is a result distinct from every Rust one.  The theorems show that fuel
    above the number of bytes the transport and the buffers still hold is never
    exhausted: each turn of a loop consumes or writes a byte.  The read and write
    loops of the dispatcher take fuel too; [poll_fuel] bounds it by the bytes in
    flight, the requests queued and the frames the request bodies still have.
    The handshakes take fuel for the polls of the transport ([socks_fuel]: bytes to
    write and to read times the longest stall), the redirect loop for the redirects
    and retries that are left ([budget]).  The code sets no bound on how often the
    core client's loop tries again: its fuel is used up only by a request that was handed
    back, or by a connection that was waited for and turned out closed, once per unit
    ([rounds]).  The pipe of an HTTP/2 body and the upgraded stream take fuel for the frames that are left and for the
    times the http2 crate reports capacity without giving any ([max_spurious]); a
    poll of the HTTP/2 client task for the requests in its queue; a response's
    decoder for the frames the body still has.

    ** What is assumed

    Only the interfaces of code outside the repository, as classes with laws that
    state documented behaviour: the bytes, http, httparse, lru and want crates,
    the url, ipnet and base64 crates, tokio's and futures' channels, the body and the
    cookie store the user supplies, the allocator's growth of a [Vec], an I/O
    transport that delivers a byte stream and accepts prefixes of what it is given,
    the http2 crate's streams and connection, the operating system's sockets, the TLS
    handshake, tokio-socks, a linked hash set, the decompressors, BoringSSL's
    settings, tungstenite and the cookie crates.  Each has an instance in the
    library, used by the witnesses.  Targets are 64-bit; arithmetic that can overflow is
    written with its release-mode wrap-around; debug assertions and logging are
    not modelled; wakers are not, except that a task's wake-up by a oneshot channel
    is the channel's state.

    ** What is not modelled

    Executors and timers (rt/timer.rs, rt/bounds.rs, common/exec.rs,
    common/timer.rs) and the writers of the I/O adapters, whose bodies are one call
    into another crate or the transport below; the wrapper that logs a connection's
    traffic; [Debug] and [Display] texts, except the error kinds a caller can test;
    the thread that writes a key log to its file; getaddrinfo and the hickory
    resolver; the readers of the proxy settings of Windows and macOS; the conversions
    of a client body that only rewrap a stream, and the methods of a response that
    only pass on to another ([text], [bytes], [bytes_stream], [cookies]).  The HTTP/2 protocol, TLS,
    the compression formats and WebSocket frames are code outside the repository: the
    http2 crate, BoringSSL, async-compression and tungstenite. *)

From stdpp Require Export base list numbers strings gmap.
From Stdlib Require Export ZArith Lia.

#[global] Open Scope Z_scope.

(** ** Bytes

    An octet is a [Z]; [wf_byte] bounds it.  A Rust byte slice, [Vec<u8>],
    [Bytes] or [BytesMut] value is the list of its octets. *)

Abbreviation byte := Z (only parsing).
Abbreviation bytes := (list Z).

Definition wf_byte (b : Z) : Prop := 0 <= b < 256.
Definition wf_bytes (l : bytes) : Prop := Forall wf_byte l.

(** Byte-string literals, as in [b"chunked"]. *)
Definition bs (s : string) : bytes :=
  (fun a => Z.of_N (Ascii.N_of_ascii a)) <$> String.list_ascii_of_string s.

Definition CR : byte := 13.
Definition LF : byte := 10.
Definition CRLF : bytes := [13; 10].

(** Lengths are compared with machine integers, so they are taken in [Z]. *)
Definition len {A} (l : list A) : Z := Z.of_nat (length l).

(** [&s[..n]] and [&s[n..]] for a machine integer [n] already known to be in
    range; the clamp keeps the conversion to [nat] as small as the list. *)
Definition ztake {A} (n : Z) (l : list A) : list A :=
  take (Z.to_nat (Z.min n (len l))) l.
Definition zdrop {A} (n : Z) (l : list A) : list A :=
  drop (Z.to_nat (Z.min n (len l))) l.

(** ** Machine integers: [u64] and a 64-bit [usize] *)

Definition u64_max : Z := 18446744073709551615.
Definition usize_max : Z := u64_max.

Definition wf_u64 (n : Z) : Prop := 0 <= n <= u64_max.

(** Release-mode [a + b] and [a - b]: wrap around. *)
Definition wadd (a b : Z) : Z := (a + b) mod (u64_max + 1).
Definition wsub (a b : Z) : Z := (a - b) mod (u64_max + 1).

Definition checked_add (a b : Z) : option Z :=
  if a + b <=? u64_max then Some (a + b) else None.
Definition checked_mul (a b : Z) : option Z :=
  if a * b <=? u64_max then Some (a * b) else None.
Definition saturating_sub (a b : Z) : Z := Z.max 0 (a - b).
Definition saturating_mul (a b : Z) : Z := Z.min (a * b) u64_max.

(** ** Errors of [std::io] *)

Inductive ErrorKind :=
| UnexpectedEof | InvalidData | InvalidInput | WriteZero | IoTimedOut | IoNotConnected | IoBrokenPipe | IoConnectionReset | IoNotFound | OtherError.

Record io_error := IoError { io_kind : ErrorKind; io_msg : string }.

Inductive result (T E : Type) : Type :=
| Ok (t : T)
| Err (e : E).
Arguments Ok {T E} _.
Arguments Err {T E} _.

(** ** Polled computations

    [Poll<Result<T, E>>] together with the two ways a Rust call fails to
    return at all: a panic, and a loop that the model cut off ([RFuel]). *)

Inductive poll_res (E T : Type) : Type :=
| RVal (t : T)
| RPending
| RErr (e : E)
| RPanic
| RFuel.
Arguments RVal {E T} _.
Arguments RPending {E T}.
Arguments RErr {E T} _.
Arguments RPanic {E T}.
Arguments RFuel {E T}.

(** A computation on a mutable state [S]; the state survives [Pending] and
    errors, as a [&mut] borrow does. *)
Definition PM (E S T : Type) : Type := S -> poll_res E T * S.

Definition pret {E S T} (t : T) : PM E S T := fun s => (RVal t, s).
Definition pfail {E S T} (e : E) : PM E S T := fun s => (RErr e, s).
Definition ppanic {E S T} : PM E S T := fun s => (RPanic, s).

(** [ready!(m)?] followed by [k]. *)
Definition pbind {E S T U} (m : PM E S T) (k : T -> PM E S U) : PM E S U :=
  fun s =>
    match m s with
    | (RVal t, s') => k t s'
    | (RPending, s') => (RPending, s')
    | (RErr e, s') => (RErr e, s')
    | (RPanic, s') => (RPanic, s')
    | (RFuel, s') => (RFuel, s')
    end.

Definition pget {E S} : PM E S S := fun s => (RVal s, s).
Definition pmodify {E S} (f : S -> S) : PM E S unit := fun s => (RVal tt, f s).

Declare Scope poll_scope.
Delimit Scope poll_scope with poll.
Notation "x <~ m ;; k" := (pbind m (fun x => k))
  (at level 100, m at next level, right associativity) : poll_scope.
Notation "m ;; k" := (pbind m (fun _ => k))
  (at level 100, right associativity) : poll_scope.

(** The bytes an I/O error carries are diagnostics; [io_fail k msg] builds
    [Poll::Ready(Err(io::Error::new(k, msg)))]. *)
Definition io_fail {S T} (k : ErrorKind) (msg : string) : PM io_error S T :=
  pfail (IoError k msg).

(** ** [str] functions of the standard library, on ASCII text *)

Definition is_ascii_ws (b : byte) : bool :=
  (b =? 32) || ((9 <=? b) && (b <=? 13)).

Fixpoint trim_start (s : bytes) : bytes :=
  match s with
  | b :: s' => if is_ascii_ws b then trim_start s' else s
  | [] => []
  end.
Definition trim_end (s : bytes) : bytes := reverse (trim_start (reverse s)).
Definition trim (s : bytes) : bytes := trim_end (trim_start s).

Definition ascii_lower (b : byte) : byte :=
  if (65 <=? b) && (b <=? 90) then b + 32 else b.
Definition ascii_upper (b : byte) : byte :=
  if (97 <=? b) && (b <=? 122) then b - 32 else b.
Definition eq_ignore_ascii_case (a b : bytes) : bool :=
  bool_decide (ascii_lower <$> a = ascii_lower <$> b).

(** [s.split(sep)]: never empty, [split] of the empty string is [[""]]. *)
Fixpoint split (sep : byte) (s : bytes) : list bytes :=
  match s with
  | [] => [[]]
  | b :: s' =>
      if b =? sep then [] :: split sep s'
      else match split sep s' with
           | w :: ws => (b :: w) :: ws
           | [] => [[b]]
           end
  end.

(** ** Number formatting: [{}] and [{:X}] on [u64] *)

Definition digit_char (d : Z) : byte := if d <? 10 then 48 + d else 55 + d.

Fixpoint fmt_radix (radix : Z) (fuel : nat) (n : Z) : bytes :=
  match fuel with
  | O => []
  | S fuel =>
      if n <? radix then [digit_char n]
      else fmt_radix radix fuel (n / radix) ++ [digit_char (n mod radix)]
  end.
Definition fmt_dec (n : Z) : bytes := fmt_radix 10 20 n.
Definition fmt_hex_upper (n : Z) : bytes := fmt_radix 16 16 n.

(** ** Shared automation *)

Create HintDb rq discriminated.
Create Rewrite HintDb rq.

(** Split every conjunction, existential and pair equation in the context. *)
Ltac dest :=
  repeat match goal with
  | H : _ /\ _ |- _ => destruct H
  | H : exists _, _ |- _ => destruct H
  | H : (_, _) = (_, _) |- _ => injection H as ?; subst
  end.

(** Case analysis on the scrutinee of every [match] and [if] of the goal or of
    a hypothesis, remembering the equation. *)
Ltac split_match :=
  match goal with
  | |- context [match ?x with _ => _ end] => destruct x eqn:?
  | H : context [match ?x with _ => _ end] |- _ => destruct x eqn:?
  end.

(** Boolean comparisons on [Z] to propositions. *)
Ltac zbool :=
  repeat match goal with
  | H : (_ <=? _) = true |- _ => apply Z.leb_le in H
  | H : (_ <=? _) = false |- _ => apply Z.leb_gt in H
  | H : (_ <? _) = true |- _ => apply Z.ltb_lt in H
  | H : (_ <? _) = false |- _ => apply Z.ltb_ge in H
  | H : (_ =? _) = true |- _ => apply Z.eqb_eq in H
  | H : (_ =? _) = false |- _ => apply Z.eqb_neq in H
  | H : (_ && _)%bool = true |- _ => apply andb_true_iff in H; destruct H
  | H : (_ || _)%bool = false |- _ => apply orb_false_iff in H; destruct H
  | H : negb _ = true |- _ => apply negb_true_iff in H
  | H : negb _ = false |- _ => apply negb_false_iff in H
  end.

(** ** Lengths, prefixes and suffixes *)

Section lists.
Context {A : Type}.
Implicit Types l k : list A.

Lemma len_nil : len (@nil A) = 0.
Proof. reflexivity. Qed.

Lemma len_cons a l : len (a :: l) = 1 + len l.
Proof. unfold len. cbn [length]. lia. Qed.

Lemma len_app l k : len (l ++ k) = len l + len k.
Proof. unfold len. rewrite length_app. lia. Qed.

Lemma len_nonneg l : 0 <= len l.
Proof. unfold len. lia. Qed.

Lemma len_zero l : len l = 0 -> l = [].
Proof. destruct l; [done | rewrite len_cons]. pose proof (len_nonneg l). lia. Qed.

Lemma len_ztake n l : 0 <= n -> len (ztake n l) = Z.min n (len l).
Proof. unfold ztake, len. intros. rewrite length_take. lia. Qed.

Lemma len_zdrop n l : 0 <= n -> len (zdrop n l) = Z.max 0 (len l - n).
Proof. unfold zdrop, len. intros. rewrite length_drop. lia. Qed.

Lemma ztake_zdrop n l : ztake n l ++ zdrop n l = l.
Proof. apply take_drop. Qed.

Lemma ztake_ge n l : len l <= n -> ztake n l = l.
Proof. unfold ztake, len. intros. apply take_ge. lia. Qed.

Lemma zdrop_ge n l : len l <= n -> zdrop n l = [].
Proof. unfold zdrop, len. intros. apply drop_ge. lia. Qed.

Lemma zdrop_0 l : zdrop 0 l = l.
Proof. unfold zdrop. by rewrite Z.min_l by apply len_nonneg. Qed.

Lemma ztake_0 l : ztake 0 l = [].
Proof. unfold ztake. by rewrite Z.min_l by apply len_nonneg. Qed.

Lemma ztake_app_le n l k : n <= len l -> ztake n (l ++ k) = ztake n l.
Proof.
  intros. unfold ztake. rewrite len_app. pose proof (len_nonneg k).
  rewrite !Z.min_l by lia. apply take_app_le. unfold len in *. lia.
Qed.

Lemma ztake_app_ge n l k : len l <= n -> ztake n (l ++ k) = l ++ ztake (n - len l) k.
Proof.
  intros. unfold ztake. pose proof (len_nonneg l). rewrite len_app, take_app_ge by (unfold len in *; lia).
  do 2 f_equal. unfold len in *. lia.
Qed.

Lemma zdrop_app_le n l k : n <= len l -> zdrop n (l ++ k) = zdrop n l ++ k.
Proof.
  intros. unfold zdrop. rewrite len_app. pose proof (len_nonneg k).
  rewrite !Z.min_l by lia. apply drop_app_le. unfold len in *. lia.
Qed.

Lemma zdrop_app_ge n l k : len l <= n -> zdrop n (l ++ k) = zdrop (n - len l) k.
Proof.
  intros. unfold zdrop. rewrite len_app. pose proof (len_nonneg l).
  rewrite drop_app_ge by (unfold len in *; lia). f_equal. unfold len in *. lia.
Qed.

Lemma zdrop_zdrop a b l : 0 <= a -> 0 <= b -> zdrop a (zdrop b l) = zdrop (b + a) l.
Proof.
  intros. unfold zdrop. rewrite drop_drop. unfold len. rewrite length_drop.
  destruct (decide (b + a <= Z.of_nat (length l))).
  - f_equal. lia.
  - rewrite !drop_ge; [done | lia | lia].
Qed.

Lemma ztake_plus a b l : 0 <= a -> 0 <= b -> ztake a l ++ ztake b (zdrop a l) = ztake (a + b) l.
Proof.
  intros. destruct (Z.le_gt_cases a (len l)).
  - rewrite <- (ztake_zdrop a l) at 3. rewrite ztake_app_ge; rewrite len_ztake by lia; [|lia].
    do 2 f_equal. lia.
  - rewrite zdrop_ge, !(ztake_ge _ l) by lia. unfold ztake. by rewrite take_nil, app_nil_r.
Qed.

Lemma ztake_app_exact l k : ztake (len l) (l ++ k) = l.
Proof. rewrite ztake_app_le, ztake_ge by lia. done. Qed.

Lemma zdrop_app_exact l k : zdrop (len l) (l ++ k) = k.
Proof. rewrite zdrop_app_ge, Z.sub_diag, zdrop_0 by lia. done. Qed.
End lists.

#[export] Hint Rewrite @len_nil @len_cons @len_app : rq.

(** Linear arithmetic on goals that mention lengths. *)
Ltac len_lia :=
  unfold usize_max in *; autorewrite with rq in *;
  repeat match goal with
  | |- context [len (@nil ?A)] => change (len (@nil A)) with 0
  | H : context [len (@nil ?A)] |- _ => change (len (@nil A)) with 0 in H
  | |- context [len ?l] =>
      lazymatch goal with
      | _ : 0 <= len l |- _ => fail
      | _ => pose proof (len_nonneg l)
      end
  | _ : context [len ?l] |- _ =>
      lazymatch goal with
      | _ : 0 <= len l |- _ => fail
      | _ => pose proof (len_nonneg l)
      end
  end; lia.
#[export] Hint Resolve len_nonneg : rq.

(** Machine arithmetic that does not leave the range is plain arithmetic. *)
Lemma wsub_small a b : 0 <= b <= a -> a <= u64_max -> wsub a b = a - b.
Proof. intros. unfold wsub. apply Z.mod_small. lia. Qed.

Lemma wadd_small a b : 0 <= a -> 0 <= b -> a + b <= u64_max -> wadd a b = a + b.
Proof. intros. unfold wadd. apply Z.mod_small. lia. Qed.

(** ** The polled computations, by result *)

Lemma pbind_val {E S T U} (m : PM E S T) (k : T -> PM E S U) s t s' :
  m s = (RVal t, s') -> pbind m k s = k t s'.
Proof. unfold pbind. by intros ->. Qed.

Lemma pbind_inv {E S T U} (m : PM E S T) (k : T -> PM E S U) s u s' :
  pbind m k s = (RVal u, s') ->
  exists t s1, m s = (RVal t, s1) /\ k t s1 = (RVal u, s').
Proof. unfold pbind. destruct (m s) as [[] s1]; naive_solver. Qed.

(** ** Positional numerals

    [acc_digits] is the accumulation loop every number parser of the program
    uses: multiply, add, both checked. *)

Definition dec_digit (b : byte) : option Z :=
  if (48 <=? b) && (b <=? 57) then Some (b - 48) else None.
Definition hex_digit (b : byte) : option Z :=
  if (48 <=? b) && (b <=? 57) then Some (b - 48)
  else if (97 <=? b) && (b <=? 102) then Some (b + 10 - 97)
  else if (65 <=? b) && (b <=? 70) then Some (b + 10 - 65)
  else None.

Definition push_digit (radix acc d : Z) : option Z :=
  m ← checked_mul acc radix; checked_add m d.

Fixpoint acc_digits (radix : Z) (digit : byte -> option Z) (acc : Z) (l : bytes) : option Z :=
  match l with
  | [] => Some acc
  | b :: l' => d ← digit b; acc' ← push_digit radix acc d; acc_digits radix digit acc' l'
  end.

(** The mathematical value, without a width. *)
Definition digits_value (radix : Z) (digit : byte -> option Z) (acc : Z) (l : bytes) : option Z :=
  foldl (fun a b => v ← a; d ← digit b; Some (v * radix + d)) (Some acc) l.

Definition good_digits (radix : Z) (digit : byte -> option Z) : Prop :=
  2 <= radix /\ forall b d, digit b = Some d -> 0 <= d < radix.

Lemma good_dec : good_digits 10 dec_digit.
Proof. split; [lia|]. unfold dec_digit. intros b d. split_match; [|done]. zbool. naive_solver lia. Qed.

Lemma good_hex : good_digits 16 hex_digit.
Proof.
  split; [lia|]. unfold hex_digit. intros b d.
  repeat split_match; zbool; intros; simplify_eq; lia.
Qed.

Lemma acc_digits_app radix dig acc l k :
  acc_digits radix dig acc (l ++ k) =
  (v ← acc_digits radix dig acc l; acc_digits radix dig v k).
Proof.
  revert acc. induction l as [|b l IH]; intros acc; [done|]. cbn.
  destruct (dig b); [|done]. cbn. destruct (push_digit _ _ _); [apply IH | done].
Qed.

Lemma push_digit_small radix acc d :
  0 <= acc -> 0 <= d -> 0 <= radix -> acc * radix + d <= u64_max ->
  push_digit radix acc d = Some (acc * radix + d).
Proof.
  intros. unfold push_digit, checked_mul, checked_add.
  rewrite (proj2 (Z.leb_le (acc * radix) u64_max)) by lia. cbn.
  by rewrite (proj2 (Z.leb_le _ _)).
Qed.

Lemma push_digit_inv radix acc d v :
  push_digit radix acc d = Some v -> v = acc * radix + d /\ v <= u64_max.
Proof.
  unfold push_digit, checked_mul, checked_add. intros H. repeat (split_match; zbool; simplify_eq/=).
  naive_solver.
Qed.

Lemma digits_value_none radix (dig : byte -> option Z) l :
  foldl (fun a b => v ← a; d ← dig b; Some (v * radix + d)) None l = (None : option Z).
Proof. by induction l. Qed.

Lemma digits_value_le radix dig acc l v :
  good_digits radix dig -> 0 <= acc -> digits_value radix dig acc l = Some v -> acc <= v.
Proof.
  intros [Hr Hd]. revert acc. induction l as [|b l IH]; intros acc Ha; [intros [= <-]; lia|].
  unfold digits_value. cbn. destruct (dig b) as [d|] eqn:E; cbn.
  - intros Hv. apply Hd in E. apply IH in Hv; nia.
  - by rewrite digits_value_none.
Qed.

(** Checked accumulation computes the value exactly when it fits. *)
Lemma acc_digits_value radix dig acc l :
  good_digits radix dig -> 0 <= acc <= u64_max ->
  acc_digits radix dig acc l =
  (v ← digits_value radix dig acc l; if v <=? u64_max then Some v else None).
Proof.
  intros Hg. pose proof Hg as [Hr Hd]. revert acc.
  induction l as [|b l IH]; intros acc Ha.
  { cbn. by rewrite (proj2 (Z.leb_le acc u64_max)) by lia. }
  unfold digits_value. cbn [acc_digits foldl mbind option_bind]. cbn.
  destruct (dig b) as [d|] eqn:E; cbn; [|by rewrite digits_value_none].
  apply Hd in E. fold (digits_value radix dig (acc * radix + d) l).
  destruct (decide (acc * radix + d <= u64_max)).
  - rewrite push_digit_small by nia. cbn. apply IH. nia.
  - destruct (push_digit radix acc d) as [v|] eqn:P.
    { apply push_digit_inv in P. lia. }
    cbn. destruct (digits_value radix dig (acc * radix + d) l) as [v|] eqn:V; [|done]. cbn.
    apply digits_value_le in V; [|done|nia]. destruct (Z.leb_spec v u64_max); [lia|done].
Qed.

(** Formatting a number and accumulating its digits gives the number back. *)
Lemma acc_digits_fmt radix dig fuel n :
  2 <= radix -> (forall d, 0 <= d < radix -> dig (digit_char d) = Some d) ->
  0 <= n <= u64_max -> n < radix ^ Z.of_nat fuel ->
  acc_digits radix dig 0 (fmt_radix radix fuel n) = Some n.
Proof.
  intros Hr Hd. revert n. induction fuel as [|fuel IH]; intros n Hn Hlt.
  { change (Z.of_nat 0) with 0 in Hlt. rewrite Z.pow_0_r in Hlt. cbn. f_equal. lia. }
  cbn [fmt_radix]. destruct (Z.ltb_spec n radix).
  { cbn. rewrite Hd by lia. cbn. by rewrite push_digit_small by lia. }
  pose proof (Z.div_mod n radix). pose proof (Z.mod_pos_bound n radix).
  rewrite acc_digits_app, IH; cbn.
  - rewrite Hd by lia. cbn. rewrite push_digit_small by nia. cbn. f_equal. lia.
  - nia.
  - rewrite Nat2Z.inj_succ, Z.pow_succ_r in Hlt by lia. apply Z.div_lt_upper_bound; lia.
Qed.

Lemma fmt_radix_nonempty radix fuel n : fuel <> 0%nat -> fmt_radix radix fuel n <> [].
Proof. destruct fuel; [done|]. intros _. cbn. split_match; [done|]. by intros [_ ?]%app_eq_nil. Qed.

Lemma acc_digits_fmt_dec n :
  wf_u64 n -> acc_digits 10 dec_digit 0 (fmt_dec n) = Some n.
Proof.
  intros Hn. apply acc_digits_fmt; [lia | | done | unfold wf_u64, u64_max in Hn; lia].
  intros d Hd. unfold dec_digit, digit_char. destruct (Z.ltb_spec d 10); [|lia].
  split_match; zbool; [f_equal; lia|]. apply andb_false_iff in Heqb as []; zbool; lia.
Qed.

Lemma acc_digits_fmt_hex n :
  wf_u64 n -> acc_digits 16 hex_digit 0 (fmt_hex_upper n) = Some n.
Proof.
  intros Hn. apply acc_digits_fmt; [lia | | done | unfold wf_u64, u64_max in Hn; lia].
  intros d Hd. assert (d ∈ seqZ 0 16) as Hin by (apply elem_of_seqZ; lia).
  revert d Hd Hin. assert (Forall (fun d => hex_digit (digit_char d) = Some d) (seqZ 0 16)) as F.
  { vm_compute. repeat constructor. }
  intros d _ Hin. by rewrite Forall_forall in F; apply F.
Qed.

(** ** Splitting *)

Lemma split_nonempty c s : split c s <> [].
Proof. destruct s as [|b s]; cbn; [done|]. repeat split_match; done. Qed.

Lemma split_sep_two c a b : exists w w' ws, split c (a ++ c :: b) = w :: w' :: ws.
Proof.
  induction a as [|x a (w & w' & ws & IH)]; cbn.
  - rewrite Z.eqb_refl. destruct (split c b) as [|w ws] eqn:E; [by apply split_nonempty in E|].
    by exists [], w, ws.
  - rewrite IH. destruct (x =? c); [by exists [], w, (w' :: ws) | by exists (x :: w), w', ws].
Qed.

(** Whatever stands before the last separator does not change the last field. *)
Lemma last_split_sep c a b : last (split c (a ++ c :: b)) = last (split c b).
Proof.
  induction a as [|x a IH]; cbn.
  - rewrite Z.eqb_refl. destruct (split c b) eqn:E; [by apply split_nonempty in E | done].
  - destruct (split_sep_two c a b) as (w & w' & ws & E). rewrite E in *.
    by destruct (x =? c).
Qed.

(** A text without the separator is its only field. *)
Lemma split_no_sep c s : c ∉ s -> split c s = [s].
Proof.
  induction s as [|x s IH]; [done|]. intros [Hx Hs]%not_elem_of_cons. cbn.
  destruct (Z.eqb_spec x c); [congruence|]. by rewrite IH.
Qed.

(** ** Trimming *)

Lemma trim_start_id s :
  Forall (fun b => is_ascii_ws b = false) s -> trim_start s = s.
Proof. destruct 1 as [|b s Hb _]; [done|]. cbn. by rewrite Hb. Qed.

Lemma trim_id s : Forall (fun b => is_ascii_ws b = false) s -> trim s = s.
Proof.
  intros Hs. unfold trim, trim_end. rewrite (trim_start_id s) by done.
  rewrite trim_start_id by (by apply Forall_reverse). apply reverse_involutive.
Qed.

(** Decimal numerals consist of decimal digits. *)
Lemma fmt_dec_digits n : 0 <= n -> Forall (fun b => 48 <= b <= 57) (fmt_dec n).
Proof.
  unfold fmt_dec. generalize 20%nat as fuel. intros fuel. revert n.
  assert (forall d, 0 <= d < 10 -> 48 <= digit_char d <= 57) as Hd.
  { intros d Hd. unfold digit_char. rewrite (proj2 (Z.ltb_lt _ _)) by lia. lia. }
  induction fuel as [|fuel IH]; intros n Hn; cbn; [constructor|].
  destruct (Z.ltb_spec n 10); [repeat constructor; apply Hd; lia|].
  apply Forall_app. split; [apply IH, Z.div_pos; lia|].
  repeat constructor; apply Hd, Z.mod_pos_bound; lia.
Qed.

Lemma len_fmt_radix radix fuel n : len (fmt_radix radix fuel n) <= Z.of_nat fuel.
Proof.
  revert n. induction fuel as [|fuel IH]; intros n; cbn [fmt_radix]; [done|].
  destruct (n <? radix); [len_lia|]. specialize (IH (n / radix)). len_lia.
Qed.
