(* ===== verification/Buf.v ===== *)
(** * Byte buffers: the [Buf] interface, [BufList] and [Cursor]

    The interface a component that hands out bytes promises to its readers
    ([Buf], [BufLaws]), the parts of the [bytes] crate the program builds on as
    an interface of their own ([BytesCrate], [BytesCrateLaws]), and the two
    buffers the program implements itself: the queue of buffers of
    src/src/core/common/buf.rs and the cursor of src/src/core/proto/h1/io.rs. *)

From S2P Require Import Prelude.

(** ** The interface

    [advance] answers [None] where the Rust method panics.  [chunks_vectored n]
    is the list of slices written into a destination of [n] slots. *)

Class Buf (B : Type) := {
  remaining : B -> Z;
  chunk : B -> bytes;
  advance : Z -> B -> option B;
  chunks_vectored : Z -> B -> list bytes
}.

(** The contract: a well-formed buffer stands for the bytes [content]. *)
Class BufLaws (B : Type) `{Buf B} := {
  buf_wf : B -> Prop;
  content : B -> bytes;
  remaining_content b : buf_wf b -> remaining b = len (content b);
  chunk_content b : buf_wf b -> exists k, content b = chunk b ++ k;
  chunk_empty b : buf_wf b -> chunk b = [] -> content b = [];
  advance_content b n :
    buf_wf b -> 0 <= n <= len (content b) ->
    exists b', advance n b = Some b' /\ buf_wf b' /\ content b' = zdrop n (content b);
  vectored_count b n : buf_wf b -> 0 <= n -> len (chunks_vectored n b) <= n;
  vectored_content b n :
    buf_wf b -> 0 <= n -> exists k, content b = concat (chunks_vectored n b) ++ k;
  (* a destination that is not filled up holds every remaining slice *)
  vectored_short b n :
    buf_wf b -> 0 <= n -> len (chunks_vectored n b) < n ->
    concat (chunks_vectored n b) = content b;
  vectored_progress b n :
    buf_wf b -> 0 < n -> content b <> [] -> concat (chunks_vectored n b) <> []
}.

Lemma content_bound {B} `{BufLaws B} (b : B) :
  buf_wf b -> len (chunk b) <= len (content b).
Proof.
  intros Hb. destruct (chunk_content b Hb) as [k ->].
  rewrite len_app. pose proof (len_nonneg k). lia.
Qed.

(** ** What the [bytes] crate supplies

    Byte slices as buffers, the adaptors [Chain] and [Take], and the default
    method bodies of its [Buf] trait.  The crate is not part of the program;
    [BytesCrateLaws] states its documented behaviour. *)

Class BytesCrate := {
  slice_buf :: Buf bytes;
  Chain : Type -> Type -> Type;
  mk_chain : forall {A B}, A -> B -> Chain A B;
  chain_buf :: forall {A B} `{Buf A} `{Buf B}, Buf (Chain A B);
  Take : Type -> Type;
  mk_take : forall {A}, A -> Z -> Take A;
  take_buf :: forall {A} `{Buf A}, Buf (Take A);
  (* the provided body of [Buf::chunks_vectored]: slots, remaining, chunk *)
  default_vectored : Z -> Z -> bytes -> list bytes;
  (* [BufMut::put(self.take(n))] into a fresh [BytesMut] *)
  put_take : forall {A} `{Buf A}, Z -> A -> option (bytes * A)
}.

Class BytesCrateLaws `{BytesCrate} := {
  slice_laws :: BufLaws bytes;
  slice_wf (s : bytes) : buf_wf s;
  slice_content (s : bytes) : content s = s;
  chain_laws :: forall {A B} `{BufLaws A} `{BufLaws B}, BufLaws (Chain A B);
  chain_wf {A B} `{BufLaws A} `{BufLaws B} (a : A) (b : B) :
    buf_wf a -> buf_wf b -> len (content a) + len (content b) <= usize_max ->
    buf_wf (mk_chain a b);
  chain_content {A B} `{BufLaws A} `{BufLaws B} (a : A) (b : B) :
    content (mk_chain a b) = content a ++ content b;
  take_laws :: forall {A} `{BufLaws A}, BufLaws (Take A);
  take_wf {A} `{BufLaws A} (a : A) n :
    buf_wf a -> wf_u64 n -> buf_wf (mk_take a n);
  take_content {A} `{BufLaws A} (a : A) n :
    content (mk_take a n) = ztake n (content a);
  default_vectored_nil r s : default_vectored 0 r s = [];
  default_vectored_empty n : default_vectored n 0 [] = [];
  default_vectored_one n r s : 0 < n -> 0 < r -> default_vectored n r s = [s];
  put_take_spec {A} `{BufLaws A} n (a : A) :
    buf_wf a -> 0 <= n <= len (content a) ->
    exists a', put_take n a = Some (ztake n (content a), a') /\
      buf_wf a' /\ content a' = zdrop n (content a)
}.

Lemma default_vectored_laws `{BytesCrateLaws} (s : bytes) n :
  0 <= n ->
  len (default_vectored n (len s) s) <= n /\
  (exists k, s = concat (default_vectored n (len s) s) ++ k) /\
  (len (default_vectored n (len s) s) < n -> concat (default_vectored n (len s) s) = s) /\
  (0 < n -> s <> [] -> concat (default_vectored n (len s) s) <> []).
Proof.
  intros Hn. destruct (decide (n = 0)) as [->|Hn0].
  { rewrite default_vectored_nil, len_nil. split_and!; [done | by exists s | lia | lia]. }
  destruct s as [|b s].
  { rewrite default_vectored_empty. split_and!; [done | by exists [] | done | done]. }
  rewrite default_vectored_one by (rewrite ?len_cons; pose proof (len_nonneg s); lia).
  cbn [concat]. rewrite app_nil_r, len_cons, len_nil.
  split_and!; [lia | exists []; by rewrite app_nil_r | done | done].
Qed.

(** ** [BufList] (src/src/core/common/buf.rs) *)

Record BufList (T : Type) := mkBufList { bufs : list T }.
Arguments mkBufList {T} _.
Arguments bufs {T} _.

Section BufList.
Context {T : Type} `{Buf T}.

Definition buflist_new : BufList T := mkBufList [].

Definition buflist_push (buf : T) (l : BufList T) : BufList T :=
  mkBufList (bufs l ++ [buf]).

Definition bufs_cnt (l : BufList T) : Z := len (bufs l).

(** [self.bufs.iter().map(|buf| buf.remaining()).sum()] *)
Definition buflist_remaining (l : BufList T) : Z :=
  foldl (fun acc b => wadd acc (remaining b)) 0 (bufs l).

Definition buflist_chunk (l : BufList T) : bytes :=
  match bufs l with front :: _ => chunk front | [] => [] end.

Fixpoint bufs_advance (cnt : Z) (l : list T) : option (list T) :=
  if 0 <? cnt then
    match l with
    | [] => None (* [&mut self.bufs[0]] is out of bounds *)
    | front :: rest =>
        let rem := remaining front in
        if cnt <? rem
        then front' ← advance cnt front; Some (front' :: rest)
        else _ ← advance rem front; bufs_advance (cnt - rem) rest
    end
  else Some l.
Definition buflist_advance (cnt : Z) (l : BufList T) : option (BufList T) :=
  mkBufList <$> bufs_advance cnt (bufs l).

(** The [for] loop over the buffers, [n] free slots left in [dst]. *)
Fixpoint bufs_vectored (n : Z) (l : list T) : list bytes :=
  match l with
  | [] => []
  | b :: rest =>
      let v := chunks_vectored n b in
      if len v =? n then v else v ++ bufs_vectored (n - len v) rest
  end.
Definition buflist_chunks_vectored (n : Z) (l : BufList T) : list bytes :=
  if n =? 0 then [] else bufs_vectored n (bufs l).

#[export] Instance BufList_buf : Buf (BufList T) := {
  remaining := buflist_remaining;
  chunk := buflist_chunk;
  advance := buflist_advance;
  chunks_vectored := buflist_chunks_vectored
}.

(** [BufList::copy_to_bytes]; [front_copy] is the front buffer's own
    [copy_to_bytes]. *)
Definition buflist_copy_to_bytes `{BytesCrate}
    (front_copy : Z -> T -> option (bytes * T)) (n : Z) (l : BufList T)
  : option (bytes * BufList T) :=
  let slow :=
    if n <=? remaining l then put_take n l
    else None (* assert!(len <= self.remaining()) *) in
  match bufs l with
  | front :: rest =>
      if remaining front =? n then
        '(b, _) ← front_copy n front; Some (b, mkBufList rest)
      else if n <? remaining front then
        '(b, front') ← front_copy n front; Some (b, mkBufList (front' :: rest))
      else slow
  | [] => slow
  end.
End BufList.

Section BufListLaws.
Context {T : Type} `{BufLaws T}.
Implicit Types l : list T.

Definition bufs_content l : bytes := concat (content <$> l).

(** Every queued buffer is well formed and not exhausted, and the total fits
    in a [usize]. *)
Definition bufs_wf l : Prop :=
  Forall (fun b => buf_wf b /\ content b <> []) l /\ len (bufs_content l) <= usize_max.

Lemma bufs_wf_cons b l :
  bufs_wf (b :: l) ->
  buf_wf b /\ content b <> [] /\ bufs_wf l /\ bufs_content (b :: l) = content b ++ bufs_content l.
Proof.
  intros [[[] ?]%Forall_cons Hlen]. unfold bufs_content in *. cbn in Hlen.
  rewrite len_app in Hlen. pose proof (len_nonneg (content b)).
  split_and!; [done..| | done]. split; [done | unfold bufs_content; lia].
Qed.

Lemma bufs_remaining_acc l acc :
  0 <= acc -> acc + len (bufs_content l) <= u64_max -> bufs_wf l ->
  foldl (fun acc b => wadd acc (remaining b)) acc l = acc + len (bufs_content l).
Proof.
  revert acc. induction l as [|b l IH]; intros acc Hacc Hle Hl.
  { cbn. unfold bufs_content, len. cbn. lia. }
  apply bufs_wf_cons in Hl as (Hb & _ & Hl & E). rewrite E, len_app in *.
  pose proof (len_nonneg (content b)). pose proof (len_nonneg (bufs_content l)). cbn.
  rewrite remaining_content, wadd_small by (done || lia).
  rewrite IH by (done || lia). lia.
Qed.

Lemma bufs_advance_spec l n :
  bufs_wf l -> 0 <= n <= len (bufs_content l) ->
  exists l', bufs_advance n l = Some l' /\ bufs_wf l' /\
    bufs_content l' = zdrop n (bufs_content l).
Proof.
  revert n. induction l as [|b l IH]; intros n Hl Hn.
  { assert (n = 0) as -> by (unfold bufs_content, len in Hn; cbn in Hn; lia).
    exists []. by rewrite zdrop_0. }
  pose proof (bufs_wf_cons _ _ Hl) as (Hb & Hne & Hl' & E).
  rewrite E in *. cbn [bufs_advance]. rewrite len_app in Hn.
  destruct (Z.ltb_spec 0 n); [|exists (b :: l)].
  2: { replace n with 0 by lia. by rewrite zdrop_0, E. }
  rewrite remaining_content by done. destruct (Z.ltb_spec n (len (content b))).
  - destruct (advance_content b n Hb) as (b' & -> & Hb' & Eb'); [lia|].
    exists (b' :: l). cbn. split; [done|].
    assert (bufs_content (b' :: l) = zdrop n (content b ++ bufs_content l)) as EE.
    { rewrite zdrop_app_le by lia. unfold bufs_content. cbn. by rewrite Eb'. }
    split; [|done]. split; [apply Forall_cons; split|].
    + split; [done|]. rewrite Eb'. intros En%(f_equal len).
      rewrite len_zdrop in En by lia. change (len []) with 0 in En. lia.
    + apply Hl'.
    + rewrite EE, len_zdrop, len_app by lia. destruct Hl as [_ Hl].
      rewrite E, len_app in Hl. pose proof (len_nonneg (content b)). lia.
  - destruct (advance_content b (len (content b)) Hb) as (b' & -> & _); [len_lia|]. cbn.
    destruct (IH (n - len (content b)) Hl') as (l' & -> & ? & El'); [lia|].
    exists l'. split_and!; [done..|]. rewrite El', zdrop_app_ge by lia. done.
Qed.

Lemma bufs_vectored_spec l n :
  bufs_wf l -> 0 < n ->
  len (bufs_vectored n l) <= n /\
  (exists k, bufs_content l = concat (bufs_vectored n l) ++ k) /\
  (len (bufs_vectored n l) < n -> concat (bufs_vectored n l) = bufs_content l) /\
  (l <> [] -> concat (bufs_vectored n l) <> []).
Proof.
  revert n. induction l as [|b l IH]; intros n Hl Hn.
  { cbn. unfold len. cbn. split_and!; [lia | by exists [] | done | done]. }
  apply bufs_wf_cons in Hl as (Hb & Hne & Hl & E). rewrite E. cbn [bufs_vectored].
  pose proof (vectored_count b n Hb). pose proof (vectored_progress b n Hb Hn Hne).
  destruct (vectored_content b n Hb) as [k Ek]; [lia|].
  destruct (Z.eqb_spec (len (chunks_vectored n b)) n).
  { split_and!; [lia | | lia | done]. exists (k ++ bufs_content l). by rewrite Ek, <-app_assoc. }
  rewrite len_app, concat_app, vectored_short by (done || lia).
  destruct (IH (n - len (chunks_vectored n b)) Hl) as (? & (k' & Ek') & Hsh & _); [lia|].
  split_and!; [lia | | | by intros _ [? _]%app_eq_nil].
  - exists k'. by rewrite Ek', <-app_assoc.
  - intros. by rewrite Hsh by lia.
Qed.

#[export] Program Instance BufList_laws : BufLaws (BufList T) := {
  buf_wf q := bufs_wf (bufs q);
  content q := bufs_content (bufs q)
}.
Next Obligation.
  intros l Hl. cbn. unfold buflist_remaining. destruct Hl as [? Hl].
  rewrite bufs_remaining_acc; [done | lia | done | done].
Qed.
Next Obligation.
  intros [[|b l]] Hl; [by exists []|]. cbn [bufs] in *.
  apply bufs_wf_cons in Hl as (Hb & _ & _ & ->). change (chunk (mkBufList (b :: l))) with (chunk b).
  destruct (chunk_content b Hb) as [k ->]. exists (k ++ bufs_content l). by rewrite <-app_assoc.
Qed.
Next Obligation.
  intros [[|b l]] Hl; [done|]. cbn [bufs] in *.
  apply bufs_wf_cons in Hl as (Hb & Hne & _ & _).
  change (chunk (mkBufList (b :: l))) with (chunk b). intros Hc. by apply chunk_empty in Hc.
Qed.
Next Obligation.
  intros l n Hl Hn. cbn. unfold buflist_advance.
  destruct (bufs_advance_spec _ _ Hl Hn) as (l' & -> & ? & ?). by exists (mkBufList l').
Qed.
Next Obligation.
  intros l n Hl Hn. cbn. unfold buflist_chunks_vectored.
  destruct (Z.eqb_spec n 0); [by subst|]. apply bufs_vectored_spec; [done | lia].
Qed.
Next Obligation.
  intros l n Hl Hn. cbn. unfold buflist_chunks_vectored.
  destruct (Z.eqb_spec n 0); [by eexists|]. apply bufs_vectored_spec; [done | lia].
Qed.
Next Obligation.
  intros l n Hl Hn. cbn. unfold buflist_chunks_vectored.
  destruct (Z.eqb_spec n 0); [subst; rewrite len_nil; lia|]. apply bufs_vectored_spec; [done | lia].
Qed.
Next Obligation.
  intros l n Hl Hn Hne. cbn. unfold buflist_chunks_vectored.
  destruct (Z.eqb_spec n 0); [lia|]. apply bufs_vectored_spec; [done | lia |].
  intros E. apply Hne. cbn. by rewrite E.
Qed.

Lemma buflist_push_spec (q : BufList T) b :
  buf_wf q -> buf_wf b -> content b <> [] ->
  len (content q) + len (content b) <= usize_max ->
  buf_wf (buflist_push b q) /\ content (buflist_push b q) = content q ++ content b.
Proof.
  cbn. intros [Hq Hlen] Hb Hne Hle. unfold bufs_wf, bufs_content.
  rewrite fmap_app, concat_app. cbn. rewrite app_nil_r. split; [|done].
  split; [by apply Forall_app; split; [|constructor]|].
  rewrite len_app. exact Hle.
Qed.
End BufListLaws.

(** ** [Cursor] (src/src/core/proto/h1/io.rs)

    [Cursor<Vec<u8>>]: the vector's bytes, its capacity, and the read
    position. *)

(** How the allocator grows buffers is not specified by the standard library
    nor by [bytes]; the model is parametric in it.  [vec_grow cap need] is the
    capacity of a [Vec] that had to be reallocated, [bm_reserve len cap add]
    that of a [BytesMut] after [reserve(add)], [bm_chunk_mut len cap] that
    after [chunk_mut()], and [bm_advance len cap n] that after [advance(n)] or
    [split_to(n)]. *)
Class Alloc := {
  vec_grow : Z -> Z -> Z;
  bm_reserve : Z -> Z -> Z -> Z;
  bm_chunk_mut : Z -> Z -> Z;
  bm_advance : Z -> Z -> Z -> Z
}.

Class AllocLaws `{Alloc} := {
  vec_grow_enough cap need : need <= vec_grow cap need;
  bm_reserve_enough l cap add : 0 <= add -> l + add <= bm_reserve l cap add /\ cap <= bm_reserve l cap add;
  bm_chunk_mut_room l cap : l < bm_chunk_mut l cap /\ cap <= bm_chunk_mut l cap;
  bm_advance_room l cap n : 0 <= l <= cap -> Z.max 0 (l - Z.max 0 n) <= bm_advance l cap n
}.

Record Cursor := mkCursor { cur_bytes : bytes; cur_cap : Z; cur_pos : Z }.

Section Cursor.
Context `{BytesCrate} `{Alloc}.

Definition cursor_new (cap : Z) : Cursor := mkCursor [] cap 0.

Definition maybe_unshift (additional : Z) (c : Cursor) : Cursor :=
  if cur_pos c =? 0 then c
  else if additional <=? wsub (cur_cap c) (len (cur_bytes c)) then c
  else mkCursor (zdrop (cur_pos c) (cur_bytes c)) (cur_cap c) 0.

Definition cursor_reset (c : Cursor) : Cursor := mkCursor [] (cur_cap c) 0.

(** [self.bytes.extend_from_slice(s)] *)
Definition cursor_extend (s : bytes) (c : Cursor) : Cursor :=
  let need := len (cur_bytes c) + len s in
  mkCursor (cur_bytes c ++ s)
    (if need <=? cur_cap c then cur_cap c else vec_grow (cur_cap c) need)
    (cur_pos c).

Definition cursor_remaining (c : Cursor) : Z := wsub (len (cur_bytes c)) (cur_pos c).
Definition cursor_chunk (c : Cursor) : bytes := zdrop (cur_pos c) (cur_bytes c).
Definition cursor_advance (cnt : Z) (c : Cursor) : option Cursor :=
  Some (mkCursor (cur_bytes c) (cur_cap c) (wadd (cur_pos c) cnt)).

#[export] Instance Cursor_buf : Buf Cursor := {
  remaining := cursor_remaining;
  chunk := cursor_chunk;
  advance := cursor_advance;
  chunks_vectored n c := default_vectored n (cursor_remaining c) (cursor_chunk c)
}.
End Cursor.

Section CursorLaws.
Context `{BytesCrateLaws} `{AllocLaws}.
Implicit Types c : Cursor.

Definition cursor_wf c : Prop :=
  0 <= cur_pos c <= len (cur_bytes c) /\ len (cur_bytes c) <= usize_max.

Lemma cursor_remaining_len c : cursor_wf c -> cursor_remaining c = len (cursor_chunk c).
Proof.
  intros [Hp Hl]. unfold cursor_remaining, cursor_chunk.
  rewrite wsub_small, len_zdrop by len_lia. lia.
Qed.

#[export] Program Instance Cursor_laws : BufLaws Cursor := {
  buf_wf := cursor_wf;
  content := cursor_chunk
}.
Next Obligation. intros c. apply cursor_remaining_len. Qed.
Next Obligation. intros c _. exists []. by rewrite app_nil_r. Qed.
Next Obligation. done. Qed.
Next Obligation.
  intros c n [Hp Hl] Hn. unfold cursor_chunk in *. rewrite len_zdrop in Hn by lia.
  eexists. split; [done|]. unfold cursor_wf. cbn. rewrite wadd_small by len_lia.
  split; [lia|]. by rewrite zdrop_zdrop by lia.
Qed.
Next Obligation.
  intros c n Hc Hn. cbn. rewrite cursor_remaining_len by done. by apply default_vectored_laws.
Qed.
Next Obligation.
  intros c n Hc Hn. cbn. rewrite cursor_remaining_len by done. by apply default_vectored_laws.
Qed.
Next Obligation.
  intros c n Hc Hn. cbn. rewrite cursor_remaining_len by done. by apply default_vectored_laws.
Qed.
Next Obligation.
  intros c n Hc Hn. cbn. rewrite cursor_remaining_len by done. apply default_vectored_laws; lia.
Qed.

(** Unshifting moves bytes, it does not change what remains to be read. *)
Lemma maybe_unshift_content c n :
  cursor_wf c -> cursor_wf (maybe_unshift n c) /\ cursor_chunk (maybe_unshift n c) = cursor_chunk c.
Proof.
  intros [Hp Hl]. unfold maybe_unshift, cursor_wf, cursor_chunk. repeat split_match; [done..|].
  cbn. rewrite zdrop_0, len_zdrop by lia. split; [len_lia | done].
Qed.

Lemma cursor_extend_content c s :
  cursor_wf c -> len (cur_bytes c) + len s <= usize_max ->
  cursor_wf (cursor_extend s c) /\ cursor_chunk (cursor_extend s c) = cursor_chunk c ++ s.
Proof.
  intros [Hp Hl] Hle. unfold cursor_extend, cursor_wf, cursor_chunk. cbn.
  rewrite zdrop_app_le, len_app by lia. split; [len_lia | done].
Qed.
End CursorLaws.
