(* ===== verification/Http.v ===== *)
(** * HTTP data: header maps, header helpers, decoded lengths

    The interface of the [http] crate that the protocol code relies on
    ([HttpCrate] with its documented laws [HttpLaws]), the functions of
    src/src/core/headers.rs, and the [DecodedLength] newtype of
    src/src/core/body/length.rs. *)

From S2P Require Import Prelude.

(** ** Types of the [http] crate *)

Inductive Version := HTTP_09 | HTTP_10 | HTTP_11 | HTTP_2 | HTTP_3.
#[export] Instance Version_eqdec : EqDecision Version.
Proof. solve_decision. Defined.

Definition version_rank (v : Version) : Z :=
  match v with HTTP_09 => 0 | HTTP_10 => 1 | HTTP_11 => 2 | HTTP_2 => 3 | HTTP_3 => 4 end.

(** A method is its token, a status code its number, a header name its
    lower-case spelling and a header value its bytes. *)
Abbreviation Method := (list Z).
Abbreviation StatusCode := Z (only parsing).
Abbreviation HeaderName := (list Z).
Abbreviation HeaderValue := (list Z).

Definition GET : Method := bs "GET".
Definition HEAD : Method := bs "HEAD".
Definition DELETE : Method := bs "DELETE".
Definition CONNECT : Method := bs "CONNECT".
Definition PUT : Method := bs "PUT".
Definition POST : Method := bs "POST".

Definition CONNECTION : HeaderName := bs "connection".
Definition CONTENT_LENGTH : HeaderName := bs "content-length".
Definition TRANSFER_ENCODING : HeaderName := bs "transfer-encoding".
Definition TRAILER : HeaderName := bs "trailer".
Definition TE : HeaderName := bs "te".
Definition AUTHORIZATION : HeaderName := bs "authorization".
Definition CACHE_CONTROL : HeaderName := bs "cache-control".
Definition CONTENT_ENCODING : HeaderName := bs "content-encoding".
Definition CONTENT_RANGE : HeaderName := bs "content-range".
Definition CONTENT_TYPE : HeaderName := bs "content-type".
Definition HOST : HeaderName := bs "host".
Definition MAX_FORWARDS : HeaderName := bs "max-forwards".
Definition SET_COOKIE : HeaderName := bs "set-cookie".
Definition COOKIE : HeaderName := bs "cookie".
Definition PROXY_AUTHORIZATION : HeaderName := bs "proxy-authorization".
Definition WWW_AUTHENTICATE : HeaderName := bs "www-authenticate".

(** ** The interface of [http::HeaderMap] and its values

    A multimap from header names to value lists in insertion order.
    [hm_into_iter] is the owning iterator, which names a key only with its
    first value; [hm_modify_last] is [entry.iter_mut().next_back()] used to
    overwrite that value. *)

Class HttpCrate := {
  HeaderMap : Type;
  hm_new : HeaderMap;
  hm_get_all : HeaderName -> HeaderMap -> list HeaderValue;
  hm_insert : HeaderName -> HeaderValue -> HeaderMap -> HeaderMap;
  hm_append : HeaderName -> HeaderValue -> HeaderMap -> HeaderMap;
  hm_remove : HeaderName -> HeaderMap -> HeaderMap;
  hm_modify_last : HeaderName -> (HeaderValue -> HeaderValue) -> HeaderMap -> HeaderMap;
  hm_keys : HeaderMap -> list HeaderName;
  hm_iter : HeaderMap -> list (HeaderName * HeaderValue);
  hm_into_iter : HeaderMap -> list (option HeaderName * HeaderValue);
  hv_to_str : HeaderValue -> option bytes;
  hv_from_u64 : Z -> HeaderValue;
  hv_from_bytes : bytes -> option HeaderValue;
  hn_from_bytes : bytes -> option HeaderName;
  status_from_u16 : Z -> option StatusCode;
  canonical_reason : StatusCode -> option bytes
}.

(** Visible ASCII and the horizontal tab. *)
Definition visible_ascii (b : byte) : bool := ((32 <=? b) && (b <? 127)) || (b =? 9).

(** [hm_iter] with every name after the first of its group blanked is what the
    owning iterator yields; [fill_names] restores the names. *)
Fixpoint fill_names (cur : option HeaderName) (l : list (option HeaderName * HeaderValue))
  : option (list (HeaderName * HeaderValue)) :=
  match l with
  | [] => Some []
  | (on, v) :: l' =>
      let cur' := match on with Some n => Some n | None => cur end in
      n ← cur'; rest ← fill_names cur' l'; Some ((n, v) :: rest)
  end.

Class HttpLaws `{HttpCrate} := {
  get_all_new k : hm_get_all k hm_new = [];
  get_all_insert_eq k v h : hm_get_all k (hm_insert k v h) = [v];
  get_all_insert_ne k k' v h : k <> k' -> hm_get_all k (hm_insert k' v h) = hm_get_all k h;
  get_all_append_eq k v h : hm_get_all k (hm_append k v h) = hm_get_all k h ++ [v];
  get_all_append_ne k k' v h : k <> k' -> hm_get_all k (hm_append k' v h) = hm_get_all k h;
  get_all_remove_eq k h : hm_get_all k (hm_remove k h) = [];
  get_all_remove_ne k k' h : k <> k' -> hm_get_all k (hm_remove k' h) = hm_get_all k h;
  get_all_modify_eq k f h vs v :
    hm_get_all k h = vs ++ [v] -> hm_get_all k (hm_modify_last k f h) = vs ++ [f v];
  get_all_modify_ne k k' f h : k <> k' -> hm_get_all k (hm_modify_last k' f h) = hm_get_all k h;
  keys_nodup h : NoDup (hm_keys h);
  keys_get_all k h : k ∈ hm_keys h <-> hm_get_all k h <> [];
  iter_get_all k h : hm_get_all k h = (filter (fun kv => kv.1 = k) (hm_iter h)).*2;
  into_iter_iter h : fill_names None (hm_into_iter h) = Some (hm_iter h);
  into_iter_names h : NoDup (omap fst (hm_into_iter h));
  to_str_some v : forallb visible_ascii v = true -> hv_to_str v = Some v;
  to_str_none v : forallb visible_ascii v = false -> hv_to_str v = None;
  from_u64_decimal n : wf_u64 n -> hv_from_u64 n = fmt_dec n
}.

(** ** Accessors derived from the interface *)
Section Accessors.
Context `{HttpCrate}.
Definition contains_key (k : HeaderName) (h : HeaderMap) : bool :=
  match hm_get_all k h with [] => false | _ => true end.
(** [headers.get(k)]: the first value. *)
Definition hm_get (k : HeaderName) (h : HeaderMap) : option HeaderValue :=
  head (hm_get_all k h).
End Accessors.

(** ** src/src/core/headers.rs *)

Module Headers.
Section Headers.
Context `{HttpCrate}.

Definition COMMA : byte := 44.

Definition connection_has (value : HeaderValue) (needle : bytes) : bool :=
  match hv_to_str value with
  | Some s => existsb (fun val => eq_ignore_ascii_case (trim val) needle) (split COMMA s)
  | None => false
  end.

Definition connection_keep_alive (value : HeaderValue) : bool :=
  connection_has value (bs "keep-alive").
Definition connection_close (value : HeaderValue) : bool :=
  connection_has value (bs "close").

(** The [for &b in bytes] loop with its early returns. *)
Definition from_digits (l : bytes) : option Z :=
  match l with
  | [] => None
  | _ => acc_digits 10 dec_digit 0 l
  end.

(** The loop over [line.split(',')]; the outer [None] is [return None]. *)
Fixpoint parse_line (content_length : option Z) (parts : list bytes) : option (option Z) :=
  match parts with
  | [] => Some content_length
  | v :: parts' =>
      match from_digits (trim v) with
      | Some n =>
          match content_length with
          | None => parse_line (Some n) parts'
          | Some m => if m =? n then parse_line content_length parts' else None
          end
      | None => None
      end
  end.

Fixpoint parse_values (content_length : option Z) (values : list HeaderValue) : option Z :=
  match values with
  | [] => content_length
  | h :: values' =>
      match hv_to_str h with
      | Some line =>
          match parse_line content_length (split COMMA line) with
          | Some cl => parse_values cl values'
          | None => None
          end
      | None => None
      end
  end.
Definition content_length_parse_all_values (values : list HeaderValue) : option Z :=
  parse_values None values.
Definition content_length_parse_all (headers : HeaderMap) : option Z :=
  content_length_parse_all_values (hm_get_all CONTENT_LENGTH headers).

Definition method_has_defined_payload_semantics (method : Method) : bool :=
  negb (bool_decide (method ∈ [GET; HEAD; DELETE; CONNECT])).

Definition set_content_length_if_missing (headers : HeaderMap) (n : Z) : HeaderMap :=
  if contains_key CONTENT_LENGTH headers then headers
  else hm_insert CONTENT_LENGTH (hv_from_u64 n) headers.

Definition is_chunked_ (value : HeaderValue) : bool :=
  match hv_to_str value with
  | Some s =>
      match last (split COMMA s) with
      | Some encoding => eq_ignore_ascii_case (trim encoding) (bs "chunked")
      | None => false
      end
  | None => false
  end.

Definition is_chunked (encodings : list HeaderValue) : bool :=
  match last encodings with Some line => is_chunked_ line | None => false end.

Definition transfer_encoding_is_chunked (headers : HeaderMap) : bool :=
  is_chunked (hm_get_all TRANSFER_ENCODING headers).

(** [add_chunked(entry)] on the occupied entry of [name]. *)
Definition add_chunked (name : HeaderName) (headers : HeaderMap) : HeaderMap :=
  match last (hm_get_all name headers) with
  | Some _ => hm_modify_last name (fun line => line ++ bs ", " ++ bs "chunked") headers
  | None => hm_insert name (bs "chunked") headers
  end.
End Headers.
End Headers.

(** ** src/src/core/body/length.rs *)

Module DecodedLength.
Record DecodedLength := mk { value : Z }.
#[global] Instance eqdec : EqDecision DecodedLength.
Proof. solve_decision. Defined.

Definition MAX_LEN : Z := u64_max - 2.
Definition CLOSE_DELIMITED : DecodedLength := mk u64_max.
Definition CHUNKED : DecodedLength := mk (u64_max - 1).
Definition ZERO : DecodedLength := mk 0.

Definition danger_len (l : DecodedLength) : Z := value l.

Definition into_opt (l : DecodedLength) : option Z :=
  if decide (l = CHUNKED) then None
  else if decide (l = CLOSE_DELIMITED) then None
  else Some (value l).

(** [Err(Parse::TooLarge)] is [None]. *)
Definition checked_new (n : Z) : option DecodedLength :=
  if n <=? MAX_LEN then Some (mk n) else None.

Definition from_opt (n : option Z) : DecodedLength :=
  default CHUNKED (n ≫= checked_new).

Definition sub_if (amt : Z) (l : DecodedLength) : DecodedLength :=
  if decide (l = CHUNKED) then l
  else if decide (l = CLOSE_DELIMITED) then l
  else mk (wsub (value l) amt).

Definition is_exact (l : DecodedLength) : bool := value l <=? MAX_LEN.

(** A length read back from the wire is never one of the two sentinels. *)
Lemma checked_new_exact n l :
  checked_new n = Some l -> l = mk n /\ is_exact l = true /\ into_opt l = Some n.
Proof.
  unfold checked_new, is_exact, into_opt, MAX_LEN. split_match; [|done].
  intros [= <-]. cbn [value]. rewrite Heqb. zbool.
  repeat (rewrite decide_False; [|intros [=]; unfold CHUNKED, CLOSE_DELIMITED in *; lia]).
  done.
Qed.
End DecodedLength.

Module HeadersFacts.
Import Headers.
Section Facts.
Context `{HttpLaws}.

(** [from_digits] accepts exactly the non-empty digit strings whose value
    fits in a [u64], and returns that value. *)
Lemma from_digits_spec l n :
  from_digits l = Some n <->
  l <> [] /\ digits_value 10 dec_digit 0 l = Some n /\ n <= u64_max.
Proof.
  unfold from_digits. destruct l as [|b l]; [split; [done | naive_solver]|].
  rewrite acc_digits_value by (apply good_dec || (unfold u64_max; lia)).
  destruct (digits_value 10 dec_digit 0 (b :: l)) as [v|]; cbn; [|naive_solver].
  destruct (Z.leb_spec v u64_max); naive_solver lia.
Qed.

Lemma from_digits_fmt n : wf_u64 n -> from_digits (fmt_dec n) = Some n.
Proof.
  intros Hn. pose proof (acc_digits_fmt_dec n Hn) as E. unfold from_digits.
  destruct (fmt_dec n) eqn:F; [by apply fmt_radix_nonempty in F | done].
Qed.

(** A field list agrees on [n]. *)
Definition all_parts (n : Z) (parts : list bytes) : Prop :=
  Forall (fun p => from_digits (trim p) = Some n) parts.
Definition value_says (n : Z) (v : HeaderValue) : Prop :=
  exists s, hv_to_str v = Some s /\ all_parts n (split COMMA s).

Lemma parse_line_some n parts r :
  parse_line (Some n) parts = Some r <-> r = Some n /\ all_parts n parts.
Proof.
  unfold all_parts. induction parts as [|p parts IH]; cbn; [naive_solver|].
  rewrite Forall_cons. destruct (from_digits (trim p)) as [m|]; [|naive_solver].
  destruct (Z.eqb_spec n m); naive_solver.
Qed.

Lemma parse_line_none parts r :
  parts <> [] -> parse_line None parts = Some r <-> exists n, r = Some n /\ all_parts n parts.
Proof.
  unfold all_parts. destruct parts as [|p parts]; [done|]. intros _. cbn.
  setoid_rewrite Forall_cons. destruct (from_digits (trim p)) as [m|]; [|naive_solver].
  rewrite parse_line_some. unfold all_parts. naive_solver.
Qed.

Lemma parse_values_some n vs r :
  parse_values (Some n) vs = Some r <-> r = n /\ Forall (value_says n) vs.
Proof.
  induction vs as [|v vs IH]; cbn; [naive_solver|].
  rewrite Forall_cons. unfold value_says at 1.
  destruct (hv_to_str v) as [s|]; [|naive_solver].
  destruct (parse_line (Some n) (split COMMA s)) as [cl|] eqn:E.
  - apply parse_line_some in E as [-> E]. rewrite IH. naive_solver.
  - split; [done|]. intros (-> & (s' & [= <-] & Hs) & _).
    assert (parse_line (Some n) (split COMMA s) = Some (Some n)) by by apply parse_line_some.
    congruence.
Qed.

Lemma parse_values_none vs r :
  parse_values None vs = Some r <-> vs <> [] /\ Forall (value_says r) vs.
Proof.
  destruct vs as [|v vs]; cbn; [naive_solver|]. rewrite Forall_cons. unfold value_says at 1.
  destruct (hv_to_str v) as [s|]; [|naive_solver].
  destruct (parse_line None (split COMMA s)) as [cl|] eqn:E.
  - apply parse_line_none in E as (n & -> & E); [|apply split_nonempty].
    rewrite parse_values_some. split; [naive_solver|].
    intros (_ & (s' & [= <-] & Hs) & Hvs). assert (r = n) as ->; [|done].
    destruct (split COMMA s) eqn:Es; [by apply split_nonempty in Es|].
    unfold all_parts in *. decompose_Forall_hyps. congruence.
  - split; [done|]. intros (_ & (s' & [= <-] & Hs) & _).
    assert (parse_line None (split COMMA s) = Some (Some r))
      by (apply parse_line_none; [apply split_nonempty | eauto]). congruence.
Qed.

(** A [Content-Length] header the program wrote is read back as the same
    number. *)
Lemma parse_values_fmt n :
  wf_u64 n -> content_length_parse_all_values [hv_from_u64 n] = Some n.
Proof.
  intros Hn. rewrite from_u64_decimal by done.
  assert (Forall (fun b => 48 <= b <= 57) (fmt_dec n)) as Hd by apply fmt_dec_digits, Hn.
  apply parse_values_none. split; [done|]. repeat constructor. exists (fmt_dec n). split.
  - apply to_str_some, List.forallb_forall. intros b Hb%list_elem_of_In.
    rewrite Forall_forall in Hd. specialize (Hd _ Hb). unfold visible_ascii.
    apply orb_true_iff. left. apply andb_true_iff.
    split; [apply Z.leb_le | apply Z.ltb_lt]; lia.
  - rewrite split_no_sep.
    + repeat constructor. rewrite trim_id, from_digits_fmt; [done..|].
      eapply Forall_impl; [exact Hd|]. cbn. intros b Hb. unfold is_ascii_ws.
      apply orb_false_iff. split; [apply Z.eqb_neq; lia|].
      apply andb_false_iff. right. apply Z.leb_gt. lia.
    + intros Hin. rewrite Forall_forall in Hd. specialize (Hd _ Hin). unfold COMMA in Hd. lia.
Qed.

(** [add_chunked] repairs the header: [chunked] becomes the final coding. *)
Lemma add_chunked_last name h v vs :
  hm_get_all name h = vs ++ [v] -> forallb visible_ascii v = true ->
  is_chunked (hm_get_all name (add_chunked name h)) = true.
Proof.
  intros E Hv. unfold add_chunked, is_chunked. rewrite E, last_snoc.
  erewrite get_all_modify_eq by done. rewrite last_snoc. unfold is_chunked_.
  rewrite to_str_some by (rewrite forallb_app, Hv; reflexivity).
  change (bs ", " ++ bs "chunked") with (COMMA :: bs " chunked").
  rewrite last_split_sep. reflexivity.
Qed.
End Facts.
End HeadersFacts.
