(* ===== verification/Models.v ===== *)
(** * Concrete instances of the third-party interfaces

    Nothing here models code of the program: these are the simplest functions
    that satisfy the laws of [BytesCrateLaws], [AllocLaws] and [HttpLaws], so
    that theorems stated against the interfaces can be evaluated on concrete
    inputs, and the laws are seen to be satisfiable. *)

From S2P Require Import Prelude Buf Http.

Module RefBytes.

(** ** Slices *)

Definition sl_advance (n : Z) (s : bytes) : option bytes :=
  if n <=? len s then Some (zdrop n s) else None.
Definition one_slice (n r : Z) (s : bytes) : list bytes :=
  if (n <=? 0) || (r <=? 0) then [] else [s].

Definition ref_slice : Buf bytes := {|
  remaining := len; chunk := id; advance := sl_advance;
  chunks_vectored := fun n s => one_slice n (len s) s
|}.

Section Chain.
Context {A B : Type} `{Buf A} `{Buf B}.
Definition ch_remaining (c : A * B) : Z := remaining c.1 + remaining c.2.
Definition ch_chunk (c : A * B) : bytes :=
  match chunk c.1 with [] => chunk c.2 | s => s end.
Definition ch_advance (n : Z) (c : A * B) : option (A * B) :=
  if n <=? remaining c.1 then a ← advance n c.1; Some (a, c.2)
  else a ← advance (remaining c.1) c.1; b ← advance (n - remaining c.1) c.2; Some (a, b).
Definition ch_vectored (n : Z) (c : A * B) : list bytes :=
  match chunk c.1 with
  | [] => chunks_vectored n c.2
  | _ => let v := chunks_vectored n c.1 in v ++ chunks_vectored (n - len v) c.2
  end.
Definition ref_chain : Buf (A * B) := {|
  remaining := ch_remaining; chunk := ch_chunk; advance := ch_advance; chunks_vectored := ch_vectored
|}.
End Chain.

Section Take.
Context {A : Type} `{Buf A}.
Fixpoint trunc (lim : Z) (v : list bytes) : list bytes :=
  match v with
  | [] => []
  | s :: v' =>
      if lim <=? 0 then [] else if lim <=? len s then [ztake lim s] else s :: trunc (lim - len s) v'
  end.
Definition tk_remaining (t : A * Z) : Z := Z.min (remaining t.1) t.2.
Definition tk_chunk (t : A * Z) : bytes := ztake t.2 (chunk t.1).
Definition tk_advance (n : Z) (t : A * Z) : option (A * Z) :=
  if n <=? t.2 then a ← advance n t.1; Some (a, t.2 - n) else None.
Definition tk_vectored (n : Z) (t : A * Z) : list bytes := trunc t.2 (chunks_vectored n t.1).
Definition ref_take : Buf (A * Z) := {|
  remaining := tk_remaining; chunk := tk_chunk; advance := tk_advance; chunks_vectored := tk_vectored
|}.

Fixpoint put_loop (fuel : nat) (n : Z) (a : A) (acc : bytes) : option (bytes * A) :=
  match fuel with
  | O => None
  | S fuel =>
      if n <=? 0 then Some (acc, a)
      else let s := ztake n (chunk a) in
           a' ← advance (len s) a; put_loop fuel (n - len s) a' (acc ++ s)
  end.
End Take.

Definition ref_bytes : BytesCrate := {|
  slice_buf := ref_slice;
  Chain := prod;
  mk_chain := @pair;
  chain_buf := @ref_chain;
  Take := fun A => (A * Z)%type;
  mk_take := fun A a n => (a, n);
  take_buf := @ref_take;
  default_vectored := one_slice;
  put_take := fun A _ n a => put_loop (S (Z.to_nat n)) n a []
|}.
#[export] Existing Instance ref_bytes.

(** ** The laws *)

Lemma ztake_nil_inv {A} n (s : list A) : 0 < n -> ztake n s = [] -> s = [].
Proof. intros ? E%(f_equal len). rewrite len_ztake in E by lia. apply len_zero. len_lia. Qed.

#[export] Program Instance ref_slice_laws : @BufLaws bytes ref_slice := {|
  buf_wf := fun _ => True; content := id
|}.
Next Obligation. done. Qed.
Next Obligation. intros s _. exists []. cbn. by rewrite app_nil_r. Qed.
Next Obligation. done. Qed.
Next Obligation.
  intros s n _ Hn. cbn in *. unfold sl_advance. rewrite (proj2 (Z.leb_le _ _)) by (unfold id in *; lia).
  eauto.
Qed.
Next Obligation. intros s n _ Hn. cbn. unfold one_slice. repeat split_match; zbool; len_lia. Qed.
Next Obligation.
  intros s n _ Hn. cbn. unfold one_slice. split_match; [by exists s|]. cbn.
  exists []. by rewrite !app_nil_r.
Qed.
Next Obligation.
  intros s n _ Hn. cbn. unfold one_slice, id. destruct (n <=? 0) eqn:?; zbool; cbn; [len_lia|].
  destruct (len s <=? 0) eqn:?; zbool; cbn; intros; [|by rewrite app_nil_r].
  symmetry. apply len_zero. len_lia.
Qed.
Next Obligation.
  intros s n _ Hn Hs. cbn. unfold one_slice, id in *.
  destruct (n <=? 0) eqn:?; zbool; [lia|]. destruct (len s <=? 0) eqn:?; zbool; cbn.
  - destruct Hs. apply len_zero. len_lia.
  - by rewrite app_nil_r.
Qed.

Section ChainLaws.
Context {A B : Type} `{BufLaws A} `{BufLaws B}.

Definition ch_wf (c : A * B) : Prop := buf_wf c.1 /\ buf_wf c.2.
Definition ch_content (c : A * B) : bytes := content c.1 ++ content c.2.

Lemma ch_vectored_spec c n :
  ch_wf c -> 0 <= n ->
  len (ch_vectored n c) <= n /\
  (exists k, ch_content c = concat (ch_vectored n c) ++ k) /\
  (len (ch_vectored n c) < n -> concat (ch_vectored n c) = ch_content c) /\
  (0 < n -> ch_content c <> [] -> concat (ch_vectored n c) <> []).
Proof.
  intros [Ha Hb] Hn. unfold ch_vectored, ch_content. destruct c as [a b]. cbn [fst snd] in *.
  destruct (chunk a) as [|x s] eqn:Ec.
  { rewrite (chunk_empty a Ha Ec). cbn [app].
    split_and!; [by apply vectored_count | by apply vectored_content
                | by apply vectored_short | by apply vectored_progress]. }
  assert (content a <> []) as Hne.
  { destruct (chunk_content a Ha) as [k ->]. by rewrite Ec. }
  pose proof (vectored_count a n Ha Hn) as Hc.
  set (va := chunks_vectored n a) in *. rewrite len_app, concat_app.
  pose proof (vectored_count b (n - len va) Hb ltac:(lia)).
  destruct (decide (len va = n)) as [En|En].
  - rewrite (len_zero (chunks_vectored (n - len va) b)) by len_lia. rewrite app_nil_r.
    destruct (vectored_content a n Ha Hn) as [k Ek]. split_and!; [len_lia | | len_lia |].
    + exists (k ++ content b). by rewrite Ek, <-app_assoc.
    + intros. by apply vectored_progress.
  - unfold va. rewrite (vectored_short a n) by (done || (fold va; lia)). fold va.
    destruct (vectored_content b (n - len va) Hb ltac:(lia)) as [k Ek].
    split_and!; [lia | | | by intros _ _ [? _]%app_eq_nil].
    + exists k. by rewrite Ek, <-app_assoc.
    + intros. by rewrite vectored_short by (done || lia).
Qed.

Program Definition ref_chain_laws : @BufLaws (A * B) ref_chain := {|
  buf_wf := ch_wf; content := ch_content
|}.
Next Obligation.
  intros [a b] [Ha Hb]. cbn in *. unfold ch_remaining, ch_content. cbn [fst snd] in *.
  by rewrite len_app, !remaining_content.
Qed.
Next Obligation.
  intros [a b] [Ha Hb]. cbn in *. unfold ch_chunk, ch_content. cbn [fst snd] in *.
  destruct (chunk a) eqn:Ec; [rewrite (chunk_empty a Ha Ec); by apply chunk_content|].
  destruct (chunk_content a Ha) as [k ->]. exists (k ++ content b). by rewrite Ec, <-app_assoc.
Qed.
Next Obligation.
  intros [a b] [Ha Hb]. cbn in *. unfold ch_chunk, ch_content. cbn [fst snd] in *.
  destruct (chunk a) eqn:Ec; [|done]. intros Eb.
  by rewrite (chunk_empty a Ha Ec), (chunk_empty b Hb Eb).
Qed.
Next Obligation.
  intros [a b] n [Ha Hb] Hn. unfold ch_content in *. cbn [fst snd advance ref_chain] in *.
  unfold ch_advance. cbn [fst snd]. rewrite remaining_content by done. rewrite len_app in Hn.
  destruct (Z.leb_spec n (len (content a))).
  - destruct (advance_content a n Ha) as (a' & -> & ? & E); [lia|]. exists (a', b).
    cbn [mbind option_bind fst snd]. rewrite E, zdrop_app_le by lia. done.
  - destruct (advance_content a (len (content a)) Ha) as (a' & -> & ? & E); [len_lia|].
    cbn [mbind option_bind].
    destruct (advance_content b (n - len (content a)) Hb) as (b' & -> & ? & E'); [lia|].
    exists (a', b'). cbn [mbind option_bind fst snd]. rewrite E, E'. split; [done|]. split; [done|].
    rewrite zdrop_app_ge, (zdrop_ge (len (content a)) (content a)) by lia. done.
Qed.
Next Obligation. intros c n Hc Hn. by apply ch_vectored_spec. Qed.
Next Obligation. intros c n Hc Hn. by apply ch_vectored_spec. Qed.
Next Obligation. intros c n Hc Hn. by apply ch_vectored_spec. Qed.
Next Obligation. intros c n Hc Hn. apply ch_vectored_spec; [done | lia | done]. Qed.
End ChainLaws.

Section TakeLaws.
Context {A : Type} `{BufLaws A}.

Definition tk_wf (t : A * Z) : Prop := buf_wf t.1 /\ 0 <= t.2.
Definition tk_content (t : A * Z) : bytes := ztake t.2 (content t.1).

Lemma trunc_concat lim v : 0 <= lim -> concat (trunc lim v) = ztake lim (concat v).
Proof.
  revert lim. induction v as [|s v IH]; intros lim Hl; [by rewrite ztake_ge by len_lia|].
  cbn [trunc]. destruct (Z.leb_spec lim 0).
  { replace lim with 0 by lia. by rewrite ztake_0. }
  destruct (Z.leb_spec lim (len s)); cbn [concat].
  - by rewrite app_nil_r, ztake_app_le.
  - rewrite IH by lia. by rewrite ztake_app_ge by lia.
Qed.

Lemma trunc_len lim v : len (trunc lim v) <= len v.
Proof.
  revert lim. induction v as [|s v IH]; intros lim; cbn [trunc]; [done|].
  specialize (IH (lim - len s)). repeat split_match; len_lia.
Qed.

Lemma trunc_short lim v : 0 <= lim -> len (trunc lim v) < len v -> lim <= len (concat v).
Proof.
  revert lim. induction v as [|s v IH]; intros lim Hl; cbn [trunc concat]; [done|].
  destruct (Z.leb_spec lim 0); [len_lia|]. destruct (Z.leb_spec lim (len s)); [len_lia|].
  specialize (IH (lim - len s)). len_lia.
Qed.

Program Definition ref_take_laws : @BufLaws (A * Z) ref_take := {|
  buf_wf := tk_wf; content := tk_content
|}.
Next Obligation.
  intros [a n] [Ha Hn]. cbn in *. unfold tk_remaining, tk_content. cbn [fst snd] in *.
  rewrite len_ztake, remaining_content by done. lia.
Qed.
Next Obligation.
  intros [a n] [Ha Hn]. cbn in *. unfold tk_chunk, tk_content. cbn [fst snd] in *.
  destruct (chunk_content a Ha) as [k ->]. destruct (decide (n <= len (chunk a))).
  - exists []. by rewrite app_nil_r, ztake_app_le.
  - exists (ztake (n - len (chunk a)) k). rewrite (ztake_ge n (chunk a)) by lia.
    by rewrite ztake_app_ge by lia.
Qed.
Next Obligation.
  intros [a n] [Ha Hn]. cbn in *. unfold tk_chunk, tk_content. cbn [fst snd] in *. intros E.
  destruct (decide (n = 0)) as [->|]; [by rewrite ztake_0|].
  apply ztake_nil_inv in E; [|lia]. rewrite (chunk_empty a Ha E). by rewrite ztake_ge by len_lia.
Qed.
Next Obligation.
  intros [a n] m [Ha Hn] Hm. cbn [advance ref_take]. unfold tk_advance, tk_content in *.
  cbn [fst snd] in *. rewrite len_ztake in Hm by done. rewrite (proj2 (Z.leb_le _ _)) by lia.
  destruct (advance_content a m Ha) as (a' & -> & ? & E); [lia|].
  exists (a', n - m). split; [done|]. split; [split; cbn; [done | lia]|]. cbn [fst snd].
  rewrite E. unfold ztake, zdrop. rewrite take_drop_commute. unfold len. rewrite length_drop, length_take.
  f_equal; [lia|]. f_equal. lia.
Qed.
Next Obligation.
  intros [a n] m [Ha Hn] Hm. cbn in *. unfold tk_vectored. cbn [fst snd].
  pose proof (trunc_len n (chunks_vectored m a)). pose proof (vectored_count a m Ha Hm). lia.
Qed.
Next Obligation.
  intros [a n] m [Ha Hn] Hm. cbn in *. unfold tk_vectored, tk_content. cbn [fst snd].
  rewrite trunc_concat by done. destruct (vectored_content a m Ha Hm) as [k ->].
  set (v := concat _). exists (ztake (n - len v) k). destruct (decide (n <= len v)).
  - rewrite ztake_app_le by done. unfold ztake at 3. rewrite (Z2Nat.nonpos (Z.min _ _)) by len_lia.
    by rewrite app_nil_r.
  - rewrite (ztake_ge n v) by lia. by rewrite ztake_app_ge by lia.
Qed.
Next Obligation.
  intros [a n] m [Ha Hn] Hm. cbn in *. unfold tk_vectored, tk_content. cbn [fst snd]. intros Hlt.
  rewrite trunc_concat by done. pose proof (vectored_count a m Ha Hm).
  destruct (decide (len (chunks_vectored m a) < m)); [by rewrite vectored_short|].
  destruct (vectored_content a m Ha Hm) as [k ->]. rewrite ztake_app_le; [done|].
  apply trunc_short; [done | lia].
Qed.
Next Obligation.
  intros [a n] m [Ha Hn] Hm. cbn in *. unfold tk_vectored, tk_content. cbn [fst snd] in *. intros Hne.
  rewrite trunc_concat by done. intros E. destruct (decide (n = 0)) as [->|]; [by rewrite ztake_0 in Hne|].
  apply ztake_nil_inv in E; [|lia]. apply vectored_progress in E; [done..|].
  intros E'. rewrite E', ztake_ge in Hne by len_lia. done.
Qed.

Lemma put_loop_spec fuel n (a : A) acc :
  buf_wf a -> 0 <= n <= len (content a) -> n < Z.of_nat fuel ->
  exists a', put_loop fuel n a acc = Some (acc ++ ztake n (content a), a') /\
    buf_wf a' /\ content a' = zdrop n (content a).
Proof.
  revert n a acc. induction fuel as [|fuel IH]; intros n a acc Ha Hn Hf; [lia|].
  cbn [put_loop]. destruct (Z.leb_spec n 0).
  { replace n with 0 by lia. exists a. by rewrite ztake_0, zdrop_0, app_nil_r. }
  set (s := ztake n (chunk a)). destruct (chunk_content a Ha) as [k Ek].
  assert (0 < len s <= n) as Hs.
  { unfold s. rewrite len_ztake by lia. destruct (decide (len (chunk a) = 0)) as [E|]; [|len_lia].
    apply len_zero, chunk_empty in E; [|done]. rewrite E in Hn. len_lia. }
  assert (content a = s ++ zdrop (len s) (content a)) as Es.
  { rewrite <-(ztake_zdrop (len s) (content a)) at 1. f_equal. rewrite Ek, ztake_app_le.
    - unfold s. rewrite len_ztake by lia. unfold ztake. f_equal. lia.
    - unfold s. rewrite len_ztake by lia. lia. }
  destruct (advance_content a (len s) Ha) as (a' & -> & Ha' & E'); [len_lia|].
  cbn [mbind option_bind].
  destruct (IH (n - len s) a' (acc ++ s)) as (a'' & -> & ? & E''); [done | | lia |].
  { rewrite E', len_zdrop; lia. }
  exists a''. rewrite E', E'', E', zdrop_zdrop by lia.
  replace (len s + (n - len s)) with n by lia. split_and!; [|done..].
  rewrite <-app_assoc. do 3 f_equal. rewrite Es at 2. by rewrite ztake_app_ge by lia.
Qed.
End TakeLaws.

#[export] Program Instance ref_bytes_laws : BytesCrateLaws := {|
  slice_laws := ref_slice_laws;
  chain_laws := fun A B _ _ _ _ => ref_chain_laws;
  take_laws := fun A _ _ => ref_take_laws
|}.
Next Obligation. done. Qed.
Next Obligation. done. Qed.
Next Obligation. intros. by split. Qed.
Next Obligation. done. Qed.
Next Obligation. intros A HA HAL a n Ha [Hn _]. by split. Qed.
Next Obligation. done. Qed.
Next Obligation. done. Qed.
Next Obligation. intros n. cbn. unfold one_slice. by rewrite orb_true_r. Qed.
Next Obligation.
  intros n r s Hn Hr. cbn. unfold one_slice. by rewrite !(proj2 (Z.leb_gt _ _)).
Qed.
Next Obligation.
  intros A HA HAL n a Ha Hn. cbn [put_take ref_bytes].
  destruct (put_loop_spec (S (Z.to_nat n)) n a [] Ha Hn) as (a' & E & ?); [lia|]. by exists a'.
Qed.
End RefBytes.

Module RefAlloc.
#[export] Instance ref_alloc : Alloc := {|
  vec_grow := fun cap need => Z.max (2 * cap) need;
  bm_reserve := fun l cap add => Z.max cap (l + add);
  bm_chunk_mut := fun l cap => if l <? cap then cap else Z.max cap (l + 64);
  bm_advance := fun l cap n => Z.max 0 (cap - Z.max 0 n)
|}.
#[export] Instance ref_alloc_laws : AllocLaws.
Proof.
  split; cbn; intros; [lia | lia | | lia]. destruct (Z.ltb_spec l cap); lia.
Qed.
End RefAlloc.

Module RefHttp.
Abbreviation entries := (list (list Z * list Z)).
Definition e_get (k : bytes) (h : entries) : list bytes := (filter (fun kv => kv.1 = k) h).*2.
Definition e_remove (k : bytes) (h : entries) : entries := filter (fun kv => kv.1 <> k) h.

Definition e_keys (h : entries) : list bytes := remove_dups h.*1.

(** Iteration is by name: all values of a name, the name only with the first. *)
Definition e_pairs (k : bytes) (vs : list bytes) : entries := (fun v => (k, v)) <$> vs.
Definition e_group (k : bytes) (vs : list bytes) : list (option bytes * bytes) :=
  match vs with [] => [] | v :: vs => (Some k, v) :: ((fun v => (None, v)) <$> vs) end.
Definition e_iter (h : entries) : entries := concat (map (fun k => e_pairs k (e_get k h)) (e_keys h)).
Definition e_into_iter (h : entries) : list (option bytes * bytes) := concat (map (fun k => e_group k (e_get k h)) (e_keys h)).

#[export] Instance ref_http : HttpCrate := {|
  HeaderMap := entries;
  hm_new := [];
  hm_get_all := e_get;
  hm_insert := fun k v h => e_remove k h ++ [(k, v)];
  hm_append := fun k v h => h ++ [(k, v)];
  hm_remove := e_remove;
  hm_modify_last := fun k f h =>
    match reverse (e_get k h) with
    | [] => h
    | v :: vs => e_remove k h ++ ((fun x => (k, x)) <$> (reverse vs ++ [f v]))
    end;
  hm_keys := e_keys;
  hm_iter := e_iter;
  hm_into_iter := e_into_iter;
  hv_to_str := fun v => if forallb visible_ascii v then Some v else None;
  hv_from_u64 := fmt_dec;
  hv_from_bytes := fun v => Some v;
  hn_from_bytes := fun n => Some (ascii_lower <$> n);
  status_from_u16 := fun c => if (100 <=? c) && (c <? 1000) then Some c else None;
  canonical_reason := fun c => if c =? 200 then Some (bs "OK") else None
|}.

Lemma e_get_app k h h' : e_get k (h ++ h') = e_get k h ++ e_get k h'.
Proof. unfold e_get. by rewrite filter_app, fmap_app. Qed.

Lemma e_get_one_eq k v : e_get k [(k, v)] = [v].
Proof. unfold e_get. by rewrite filter_cons_True. Qed.

Lemma e_get_one_ne k k' v : k <> k' -> e_get k [(k', v)] = [].
Proof. intros. unfold e_get. by rewrite filter_cons_False by (cbn; congruence). Qed.

Lemma e_get_remove_eq k h : e_get k (e_remove k h) = [].
Proof.
  unfold e_get, e_remove. rewrite list_filter_filter.
  induction h as [|kv h IH]; [done|]. by rewrite filter_cons_False by tauto.
Qed.

Lemma e_get_remove_ne k k' h : k <> k' -> e_get k (e_remove k' h) = e_get k h.
Proof.
  intros. unfold e_get, e_remove. f_equal. rewrite list_filter_filter.
  apply list_filter_iff. intros [a b]. cbn. naive_solver.
Qed.

Lemma e_get_keyed_eq k l : e_get k ((fun x => (k, x)) <$> l) = l.
Proof.
  unfold e_get. induction l as [|x l IH]; [done|]. cbn [fmap list_fmap].
  rewrite filter_cons_True by done. cbn. by f_equal.
Qed.

Lemma e_get_keyed_ne k k' l : k <> k' -> e_get k ((fun x => (k', x)) <$> l) = [].
Proof.
  intros Hne. unfold e_get. induction l as [|x l IH]; [done|]. cbn [fmap list_fmap].
  by rewrite filter_cons_False by (cbn; congruence).
Qed.

Lemma e_get_iter k (f : bytes -> list bytes) ks :
  NoDup ks -> e_get k (concat (map (fun k => e_pairs k (f k)) ks)) = if decide (k ∈ ks) then f k else [].
Proof.
  induction 1 as [|k' ks Hk Hnd IH]; cbn [map concat]; [done|]. rewrite e_get_app, IH. unfold e_pairs.
  destruct (decide (k = k')) as [->|Hne].
  - rewrite e_get_keyed_eq, decide_False, app_nil_r, decide_True; [done|by left|done].
  - rewrite e_get_keyed_ne by done. cbn. apply decide_ext. rewrite elem_of_cons. naive_solver.
Qed.

Lemma fill_names_group cur k vs l :
  fill_names cur (e_group k vs ++ l) =
  (rest ← fill_names (match vs with [] => cur | _ => Some k end) l; Some (e_pairs k vs ++ rest)).
Proof.
  destruct vs as [|v vs]; cbn; [by destruct (fill_names cur l)|].
  assert (fill_names (Some k) (((fun v => (None, v)) <$> vs) ++ l) = (rest ← fill_names (Some k) l; Some (e_pairs k vs ++ rest))) as ->.
  { induction vs as [|w vs IH]; cbn; [by destruct (fill_names _ l)|]. change (list_fmap ?A ?B ?f vs) with (f <$> vs).
    rewrite IH. by destruct (fill_names (Some k) l). }
  by destruct (fill_names (Some k) l).
Qed.

Lemma e_group_names k vs : omap fst (e_group k vs) = match vs with [] => [] | _ => [k] end.
Proof.
  destruct vs as [|v vs]; [done|]. cbn. f_equal. by induction vs.
Qed.

Lemma e_into_iter_names (f : bytes -> list bytes) ks :
  omap fst (concat (map (fun k => e_group k (f k)) ks)) = filter (fun k => f k <> []) ks.
Proof.
  induction ks as [|k ks IH]; [done|]. cbn [map concat]. rewrite omap_app, e_group_names, IH, filter_cons.
  by destruct (f k); case_decide.
Qed.

Lemma e_keys_get k h : k ∈ e_keys h <-> e_get k h <> [].
Proof.
  unfold e_keys. rewrite elem_of_remove_dups. unfold e_get. rewrite list_elem_of_fmap. split.
  - intros ([k' v] & -> & Hin) E. cbn [fst] in E. apply fmap_nil_inv in E.
    assert ((k', v) ∈ filter (fun kv => kv.1 = k') h) as Hf by (by apply list_elem_of_filter).
    rewrite E in Hf. by apply not_elem_of_nil in Hf.
  - intros Hne. destruct (filter (fun kv => kv.1 = k) h) as [|kv l] eqn:E; [done|].
    exists kv. assert (kv ∈ filter (fun kv => kv.1 = k) h) as Hf by (rewrite E; left).
    apply list_elem_of_filter in Hf. naive_solver.
Qed.

#[export] Instance ref_http_laws : HttpLaws.
Proof.
  split; cbn [ref_http HeaderMap hm_new hm_get_all hm_insert hm_append hm_remove hm_modify_last
              hm_keys hm_iter hm_into_iter hv_to_str hv_from_u64].
  - done.
  - intros. by rewrite e_get_app, e_get_remove_eq, e_get_one_eq.
  - intros. by rewrite e_get_app, e_get_remove_ne, e_get_one_ne, app_nil_r.
  - intros. by rewrite e_get_app, e_get_one_eq.
  - intros. by rewrite e_get_app, e_get_one_ne, app_nil_r.
  - apply e_get_remove_eq.
  - apply e_get_remove_ne.
  - intros k f h vs v ->. rewrite reverse_snoc, reverse_involutive.
    by rewrite e_get_app, e_get_remove_eq, e_get_keyed_eq.
  - intros k k' f h Hne. destruct (reverse (e_get k' h)); [done|].
    by rewrite e_get_app, e_get_remove_ne, e_get_keyed_ne, app_nil_r.
  - intros h. apply NoDup_remove_dups.
  - apply e_keys_get.
  - intros k h. change ((filter (fun kv => kv.1 = k) (e_iter h)).*2) with (e_get k (e_iter h)). unfold e_iter.
    rewrite (e_get_iter k (fun k => e_get k h)) by apply NoDup_remove_dups. case_decide as Hk; [done|].
    destruct (e_get k h) eqn:E; [done|]. destruct Hk. apply e_keys_get. by rewrite E.
  - intros h. unfold e_into_iter, e_iter.
    assert (forall c ks, fill_names c (concat (map (fun k => e_group k (e_get k h)) ks)) =
      Some (concat (map (fun k => e_pairs k (e_get k h)) ks))) as Hf; [|apply Hf].
    intros c ks. revert c. induction ks as [|k ks IH]; intros c; [done|]. cbn [map concat]. by rewrite fill_names_group, IH.
  - intros h. unfold e_into_iter. rewrite (e_into_iter_names (fun k => e_get k h)). apply NoDup_filter, NoDup_remove_dups.
  - intros v ->. done.
  - intros v ->. done.
  - done.
Qed.
End RefHttp.
