(* ===== verification/WriteBuf.v ===== *)
(** * The write buffer (src/src/core/proto/h1/io.rs, [WriteBuf])

    Bytes on their way to the transport: a flat cursor that message heads (and,
    with the [Flatten] strategy, bodies) are appended to, followed by a queue of
    user buffers.  The section of laws shows that whatever the strategy the
    buffer stands for one byte string: [buffer] appends to it, [advance] drops a
    prefix, and the vectored view is a prefix of it. *)

From S2P Require Import Prelude Buf.

Definition INIT_BUFFER_SIZE : Z := 8192.
Definition MINIMUM_MAX_BUFFER_SIZE : Z := INIT_BUFFER_SIZE.
Definition DEFAULT_MAX_BUFFER_SIZE : Z := 8192 + 4096 * 100.
Definition MAX_BUF_LIST_BUFFERS : Z := 16.

Inductive WriteStrategy := Flatten | Queue.

Record WriteBuf (B : Type) := mkWriteBuf {
  headers : Cursor;
  max_buf_size : Z;
  queue : BufList B;
  strategy : WriteStrategy
}.
Arguments mkWriteBuf {B} _ _ _ _.
Arguments headers {B} _.
Arguments max_buf_size {B} _.
Arguments queue {B} _.
Arguments strategy {B} _.

Section WriteBuf.
Context `{BytesCrate} `{Alloc} {B : Type} `{Buf B}.

Definition writebuf_new (s : WriteStrategy) : WriteBuf B :=
  mkWriteBuf (cursor_new INIT_BUFFER_SIZE) DEFAULT_MAX_BUFFER_SIZE buflist_new s.

Definition set_strategy (s : WriteStrategy) (w : WriteBuf B) : WriteBuf B :=
  mkWriteBuf (headers w) (max_buf_size w) (queue w) s.
Definition set_max_buf_size (m : Z) (w : WriteBuf B) : WriteBuf B :=
  mkWriteBuf (headers w) m (queue w) (strategy w).
Definition set_headers (c : Cursor) (w : WriteBuf B) : WriteBuf B :=
  mkWriteBuf c (max_buf_size w) (queue w) (strategy w).

(** The copy loop of the [Flatten] branch; every turn consumes a byte, so
    [remaining + 1] turns are enough. *)
Fixpoint flatten_loop {BB} `{Buf BB} (fuel : nat) (head : Cursor) (buf : BB) : option Cursor :=
  match fuel with
  | O => None
  | S fuel =>
      let slice := chunk buf in
      match slice with
      | [] => Some head
      | _ => buf' ← advance (len slice) buf; flatten_loop fuel (cursor_extend slice head) buf'
      end
  end.

(** [WriteBuf::buffer]; [into] is the [Into<B>] conversion. *)
Definition buffer {BB} `{Buf BB} (into : BB -> B) (buf : BB) (w : WriteBuf B)
  : option (WriteBuf B) :=
  match strategy w with
  | Flatten =>
      let head := maybe_unshift (remaining buf) (headers w) in
      head' ← flatten_loop (S (Z.to_nat (remaining buf))) head buf;
      Some (set_headers head' w)
  | Queue =>
      Some (mkWriteBuf (headers w) (max_buf_size w) (buflist_push (into buf) (queue w)) Queue)
  end.

Definition writebuf_remaining (w : WriteBuf B) : Z :=
  wadd (remaining (headers w)) (remaining (queue w)).

Definition writebuf_can_buffer (w : WriteBuf B) : bool :=
  match strategy w with
  | Flatten => writebuf_remaining w <? max_buf_size w
  | Queue =>
      (bufs_cnt (queue w) <? MAX_BUF_LIST_BUFFERS)
      && (writebuf_remaining w <? max_buf_size w)
  end.

Definition writebuf_chunk (w : WriteBuf B) : bytes :=
  match chunk (headers w) with
  | [] => chunk (queue w)
  | hs => hs
  end.

Definition writebuf_advance (cnt : Z) (w : WriteBuf B) : option (WriteBuf B) :=
  let hrem := remaining (headers w) in
  match hrem ?= cnt with
  | Eq => Some (set_headers (cursor_reset (headers w)) w)
  | Gt => h ← advance cnt (headers w); Some (set_headers h w)
  | Lt =>
      let qcnt := cnt - hrem in
      q ← advance qcnt (queue w);
      Some (mkWriteBuf (cursor_reset (headers w)) (max_buf_size w) q (strategy w))
  end.

Definition writebuf_chunks_vectored (n : Z) (w : WriteBuf B) : list bytes :=
  let v := chunks_vectored n (headers w) in
  v ++ chunks_vectored (n - len v) (queue w).

#[export] Instance WriteBuf_buf : Buf (WriteBuf B) := {
  remaining := writebuf_remaining;
  chunk := writebuf_chunk;
  advance := writebuf_advance;
  chunks_vectored := writebuf_chunks_vectored
}.
End WriteBuf.

Section WriteBufLaws.
Context `{BytesCrateLaws} `{AllocLaws} {B : Type} `{BufLaws B}.
Implicit Types w : WriteBuf B.

(** The bytes still to be written, in order. *)
Definition pending w : bytes := content (headers w) ++ content (queue w).

(** The queue is only used with the [Queue] strategy, and sizes fit. *)
Definition writebuf_wf w : Prop :=
  buf_wf (headers w) /\ buf_wf (queue w) /\ len (pending w) <= usize_max /\
  (strategy w = Flatten -> bufs (queue w) = []).

Lemma cursor_reset_wf c : buf_wf (cursor_reset c) /\ content (cursor_reset c) = [].
Proof. split; [|done]. cbn. unfold cursor_wf. cbn. change (len []) with 0. unfold usize_max, u64_max. lia. Qed.

Lemma queue_empty_wf : buf_wf (mkBufList [] : BufList B) /\ content (mkBufList [] : BufList B) = [].
Proof. split; [|done]. split; [constructor|]. by apply Z.leb_le. Qed.

Lemma content_queue_nil w : bufs (queue w) = [] -> content (queue w) = [].
Proof. cbn. unfold bufs_content. by intros ->. Qed.

Lemma cursor_vectored_empty (c : Cursor) n :
  buf_wf c -> content c = [] -> chunks_vectored n c = [].
Proof.
  intros Hc E. cbn in *. rewrite cursor_remaining_len, E by done. apply default_vectored_empty.
Qed.

Lemma maybe_unshift_shorter n c : len (cur_bytes (maybe_unshift n c)) <= len (cur_bytes c).
Proof.
  unfold maybe_unshift. repeat split_match; cbn [cur_bytes]; [lia..|].
  rewrite <-(ztake_zdrop (cur_pos c) (cur_bytes c)) at 2. len_lia.
Qed.

Lemma flatten_loop_spec {BB} `{BufLaws BB} fuel head (buf : BB) :
  buf_wf head -> buf_wf buf ->
  len (cur_bytes head) + len (content buf) <= usize_max ->
  (length (content buf) < fuel)%nat ->
  exists head', flatten_loop fuel head buf = Some head' /\
    buf_wf head' /\ content head' = content head ++ content buf.
Proof.
  revert head buf. induction fuel as [|fuel IH]; intros head buf Hh Hb Hle Hf; [lia|].
  cbn [flatten_loop]. destruct (chunk_content buf Hb) as [k Ek].
  destruct (chunk buf) as [|b0 s0] eqn:Es.
  { exists head. by rewrite (chunk_empty buf Hb Es), app_nil_r. }
  rewrite <-Es in *. pose proof (content_bound buf Hb).
  destruct (advance_content buf (len (chunk buf)) Hb) as (buf' & -> & Hb' & E'); [len_lia|].
  rewrite Ek, zdrop_app_exact in E'. rewrite Ek, len_app in Hle.
  cbn [mbind option_bind].
  destruct (cursor_extend_content head (chunk buf)) as [Hw Hc]; [done | len_lia|].
  edestruct (IH (cursor_extend (chunk buf) head) buf') as (h' & -> & ? & Hh'); [done..| | |].
  - cbn. rewrite E'. len_lia.
  - rewrite E'. rewrite Ek, length_app in Hf. rewrite Es in Hf. cbn in Hf. lia.
  - exists h'. split_and!; [done..|]. rewrite Hh', E'. cbn. by rewrite Hc, Ek, <-app_assoc.
Qed.

Lemma writebuf_remaining_pending w : writebuf_wf w -> writebuf_remaining w = len (pending w).
Proof.
  intros (Hh & Hq & Hl & _). unfold writebuf_remaining, pending in *. rewrite len_app in *.
  rewrite !remaining_content by done. apply wadd_small; len_lia.
Qed.

#[export] Program Instance WriteBuf_laws : BufLaws (WriteBuf B) := {
  buf_wf := writebuf_wf;
  content := pending
}.
Next Obligation. exact writebuf_remaining_pending. Qed.
Next Obligation.
  intros w (Hh & Hq & _). change (chunk w) with (writebuf_chunk w). unfold writebuf_chunk, pending.
  destruct (chunk_content _ Hh) as [k Ek]. destruct (chunk (headers w)) as [|b s] eqn:Es.
  - rewrite (chunk_empty _ Hh Es). by apply chunk_content.
  - exists (k ++ content (queue w)). by rewrite Ek, <-app_assoc.
Qed.
Next Obligation.
  intros w (Hh & Hq & _). change (chunk w) with (writebuf_chunk w). unfold writebuf_chunk, pending.
  destruct (chunk (headers w)) eqn:Es; [|done]. intros Eq.
  by rewrite (chunk_empty _ Hh Es), (chunk_empty _ Hq Eq).
Qed.
Next Obligation.
  intros w n (Hh & Hq & Hl & Hs) Hn. change (advance n w) with (writebuf_advance n w). unfold writebuf_advance.
  rewrite remaining_content by done. unfold writebuf_wf, pending in *. rewrite len_app in *.
  destruct (cursor_reset_wf (headers w)) as [Hr1 Hr2].
  destruct (Z.compare_spec (len (content (headers w))) n) as [<-|Hlt|Hgt].
  - eexists. split; [done|]. cbn [headers queue set_headers strategy].
    rewrite Hr2, zdrop_app_exact. cbn [app]. split_and!; [done..|len_lia|done|done].
  - destruct (advance_content (queue w) (n - len (content (headers w))) Hq) as (q' & -> & Hq' & Eq);
      [lia|]. cbn [mbind option_bind]. eexists. split; [done|].
    cbn [headers queue set_headers strategy]. rewrite Hr2, Eq, zdrop_app_ge by lia. cbn [app].
    split_and!; [done..| rewrite len_zdrop; len_lia | | done].
    intros E. rewrite content_queue_nil, zdrop_ge in Eq by (auto || len_lia).
    destruct Hq' as [Hq' _]. destruct q' as [[|b l]]; [done|]. cbn in Eq.
    apply Forall_cons in Hq' as [[_ Hne] _]. by apply app_eq_nil in Eq as [? _].
  - destruct (advance_content (headers w) n Hh) as (h' & -> & Hh' & Eh); [lia|].
    eexists. split; [done|]. cbn [headers queue set_headers strategy].
    rewrite Eh, zdrop_app_le by lia. split_and!; [done..| | done | done].
    rewrite len_app, len_zdrop; len_lia.
Qed.
Next Obligation.
  intros w n (Hh & Hq & _) Hn. change (chunks_vectored n w) with (writebuf_chunks_vectored n w).
  unfold writebuf_chunks_vectored.
  pose proof (vectored_count (headers w) n Hh Hn). rewrite len_app.
  pose proof (vectored_count (queue w) (n - len (chunks_vectored n (headers w))) Hq). lia.
Qed.
Next Obligation.
  intros w n (Hh & Hq & _) Hn. change (chunks_vectored n w) with (writebuf_chunks_vectored n w).
  unfold writebuf_chunks_vectored, pending.
  pose proof (vectored_count (headers w) n Hh Hn).
  destruct (vectored_content (headers w) n Hh Hn) as [k Ek].
  destruct (vectored_content (queue w) (n - len (chunks_vectored n (headers w))) Hq) as [k' Ek']; [lia|].
  destruct (decide (len (chunks_vectored n (headers w)) = n)) as [En|En].
  - rewrite En, Z.sub_diag in *. pose proof (vectored_count (queue w) 0 Hq ltac:(lia)).
    rewrite (len_zero (chunks_vectored 0 (queue w))) by len_lia. rewrite app_nil_r.
    exists (k ++ content (queue w)). by rewrite Ek, <-app_assoc.
  - exists k'. rewrite concat_app, <-app_assoc, <-Ek'. by rewrite (vectored_short (headers w)) by (done || lia).
Qed.
Next Obligation.
  intros w n (Hh & Hq & _) Hn. change (chunks_vectored n w) with (writebuf_chunks_vectored n w).
  unfold writebuf_chunks_vectored, pending.
  pose proof (vectored_count (headers w) n Hh Hn). rewrite len_app, concat_app. intros.
  rewrite (vectored_short (headers w)) by (done || len_lia). by rewrite (vectored_short (queue w)) by (done || lia).
Qed.
Next Obligation.
  intros w n (Hh & Hq & _) Hn. change (chunks_vectored n w) with (writebuf_chunks_vectored n w).
  unfold writebuf_chunks_vectored, pending.
  rewrite concat_app. intros Hne [E1 E2]%app_eq_nil.
  destruct (content (headers w)) eqn:Eh.
  - rewrite cursor_vectored_empty in E2 by done. apply vectored_progress in E2; [done..|len_lia|].
    done.
  - apply vectored_progress in E1; [done..|]. by rewrite Eh.
Qed.

(** Buffering appends to the pending bytes, whichever strategy is in use. *)
Lemma buffer_pending {BB} `{BufLaws BB} (into : BB -> B) (buf : BB) w :
  writebuf_wf w -> buf_wf buf -> content buf <> [] ->
  buf_wf (into buf) -> content (into buf) = content buf ->
  len (cur_bytes (headers w)) + len (content (queue w)) + len (content buf) <= usize_max ->
  exists w', buffer into buf w = Some w' /\ writebuf_wf w' /\ pending w' = pending w ++ content buf /\
    strategy w' = strategy w.
Proof.
  intros (Hh & Hq & Hl & Hs) Hb Hne Hi Ei Hle. unfold buffer.
  assert (len (content (headers w)) <= len (cur_bytes (headers w))) as Hbound.
  { destruct Hh. cbn. unfold cursor_chunk. rewrite len_zdrop; len_lia. }
  destruct (strategy w) eqn:Es.
  - destruct (maybe_unshift_content (headers w) (remaining buf) Hh) as [Hu Eu].
    rewrite remaining_content in * by done.
    destruct (flatten_loop_spec (S (Z.to_nat (len (content buf))))
      (maybe_unshift (len (content buf)) (headers w)) buf) as (h' & -> & Hh' & Eh');
      [done | done | | unfold len; lia |].
    { pose proof (maybe_unshift_shorter (len (content buf)) (headers w)). len_lia. }
    eexists. split; [done|]. unfold writebuf_wf, pending. cbn [headers queue strategy set_headers].
    rewrite Eh', Es, (content_queue_nil w) by auto. rewrite !app_nil_r.
    cbn [content Cursor_laws] in *. rewrite Eu. unfold pending in Hl.
    split_and!; [done..| len_lia | auto | done | done].
  - destruct (buflist_push_spec (queue w) (into buf) Hq Hi) as [Hq' Eq']; [by rewrite Ei | rewrite Ei; len_lia|].
    eexists. split; [done|]. unfold writebuf_wf, pending. cbn [headers queue strategy].
    rewrite Eq', Ei, app_assoc. unfold pending in Hl. split_and!; [done..| len_lia | done | done | done].
Qed.

Lemma writebuf_new_wf s : writebuf_wf (writebuf_new s) /\ pending (writebuf_new s) = [].
Proof.
  split; [|done]. destruct queue_empty_wf. split_and!; [| done | by apply Z.leb_le | done].
  cbn. unfold cursor_wf. by repeat split; apply Z.leb_le.
Qed.
End WriteBufLaws.
