(* ===== verification/HeaderWrite.v ===== *)
(** * Writing header lines (the end of src/src/core/proto/h1/role.rs)

    The three ways a header map is serialised: names as they are, in title
    case, or in the spelling the peer used; and the length headers. *)

From S2P Require Import Prelude Buf Http Models.

Section HeaderWrite.
Context `{HttpCrate}.

(** [extend(dst, data)] *)
Definition extend (dst data : bytes) : bytes := dst ++ data.

Definition DASH : byte := 45.

Fixpoint title_case_from (prev : byte) (name : bytes) : bytes :=
  match name with
  | [] => []
  | c :: name' =>
      let c := if prev =? DASH then ascii_upper c else c in
      c :: title_case_from c name'
  end.
Definition title_case (dst name : bytes) : bytes := dst ++ title_case_from DASH name.

Definition write_line (dst value : bytes) : bytes :=
  extend (extend (extend dst (bs ": ")) value) CRLF.

Definition write_headers_title_case (headers : HeaderMap) (dst : bytes) : bytes :=
  foldl (fun dst '(name, value) => write_line (title_case dst name) value) dst (hm_iter headers).

Definition write_headers (headers : HeaderMap) (dst : bytes) : bytes :=
  foldl (fun dst '(name, value) => write_line (extend dst name) value) dst (hm_iter headers).

(** The inner loop of [write_headers_original_case]: pair the values of one
    name with the spellings recorded for it. *)
Fixpoint write_values (title : bool) (name : HeaderName) (names : list bytes)
    (values : list HeaderValue) (dst : bytes) : bytes :=
  match values with
  | [] => dst
  | value :: values' =>
      let dst :=
        match names with
        | orig_name :: _ => extend dst orig_name
        | [] => if title then title_case dst name else extend dst name
        end in
      let dst :=
        match value with
        | [] => extend dst (bs ":" ++ CRLF)
        | _ => write_line dst value
        end in
      write_values title name (tail names) values' dst
  end.

Definition write_headers_original_case (headers orig_case : HeaderMap) (dst : bytes)
    (title_case_headers : bool) : bytes :=
  foldl (fun dst name =>
           write_values title_case_headers name (hm_get_all name orig_case)
             (hm_get_all name headers) dst)
    dst (hm_keys headers).
End HeaderWrite.

Section HeaderWriteFacts.
Context `{HttpLaws}.

(** One serialised header line, the name spelled by [spell]. *)
Definition header_line (spell : bytes -> bytes) (kv : HeaderName * HeaderValue) : bytes :=
  spell kv.1 ++ bs ": " ++ kv.2 ++ CRLF.

Lemma write_headers_lines h dst :
  write_headers h dst = dst ++ concat (header_line id <$> hm_iter h).
Proof.
  unfold write_headers. revert dst. induction (hm_iter h) as [|[n v] l IH]; intros dst.
  - cbn. by rewrite app_nil_r.
  - rewrite fmap_cons. cbn [foldl concat]. rewrite IH. unfold write_line, extend, header_line.
    cbn [fst snd id]. by rewrite <-!app_assoc.
Qed.

Lemma write_headers_title_lines h dst :
  write_headers_title_case h dst =
  dst ++ concat (header_line (title_case_from DASH) <$> hm_iter h).
Proof.
  unfold write_headers_title_case. revert dst.
  induction (hm_iter h) as [|[n v] l IH]; intros dst.
  - cbn. by rewrite app_nil_r.
  - rewrite fmap_cons. cbn [foldl concat]. rewrite IH. unfold write_line, title_case, extend, header_line.
    cbn [fst snd]. by rewrite <-!app_assoc.
Qed.

Lemma ascii_lower_upper c : ascii_lower (ascii_upper c) = ascii_lower c.
Proof.
  unfold ascii_lower, ascii_upper. destruct ((97 <=? c) && (c <=? 122)) eqn:E; [|done]. zbool.
  rewrite (proj2 (andb_true_iff _ _)) by (split; apply Z.leb_le; lia).
  rewrite (proj2 (andb_false_iff _ _)) by (right; apply Z.leb_gt; lia). lia.
Qed.

(** Title-casing a name changes the case of letters and nothing else. *)
Lemma title_case_same_name prev name :
  ascii_lower <$> title_case_from prev name = ascii_lower <$> name.
Proof.
  revert prev. induction name as [|c name IH]; intros prev; [done|]. cbn.
  rewrite IH. destruct (prev =? DASH); by rewrite ?ascii_lower_upper.
Qed.
End HeaderWriteFacts.

(** ** The length headers

    What the reading and writing of [Content-Length] promise to each other. *)
Import Headers HeadersFacts.

Section HttpProps.
Context `{HttpLaws}.

(** A length is taken from the [Content-Length] fields exactly when there
    is one and every one of their comma-separated members is a non-empty string
    of digits that denotes the same number, which fits in 64 bits; signs,
    empty members, other text and disagreement make the fields unusable. *)
Theorem content_length_unanimous (headers : HeaderMap) n :
  content_length_parse_all headers = Some n <->
  hm_get_all CONTENT_LENGTH headers <> [] /\
  forall v, v ∈ hm_get_all CONTENT_LENGTH headers -> exists s, hv_to_str v = Some s /\
    forall part, part ∈ split COMMA s ->
      trim part <> [] /\ digits_value 10 dec_digit 0 (trim part) = Some n /\ n <= u64_max.
Proof.
  unfold content_length_parse_all, content_length_parse_all_values. rewrite parse_values_none, Forall_forall.
  unfold value_says, all_parts. setoid_rewrite Forall_forall. setoid_rewrite from_digits_spec. easy.
Qed.

(** The length the client adds is the one it, or a peer with the same
    rules, reads; a header that is already there is left alone. *)
Theorem set_content_length_roundtrip (headers : HeaderMap) n :
  wf_u64 n ->
  if contains_key CONTENT_LENGTH headers then set_content_length_if_missing headers n = headers
  else content_length_parse_all (set_content_length_if_missing headers n) = Some n.
Proof.
  intros Hn. unfold set_content_length_if_missing. destruct (contains_key CONTENT_LENGTH headers); [easy|].
  unfold content_length_parse_all. rewrite get_all_insert_eq. now apply parse_values_fmt.
Qed.
End HttpProps.

(** ** Witnesses *)

Section HttpWitnesses.
Import RefHttp.

Lemma content_length_unanimous_witness :
  content_length_parse_all (hm_append CONTENT_LENGTH (bs "42, 42") hm_new) = Some 42 <->
  hm_get_all CONTENT_LENGTH (hm_append CONTENT_LENGTH (bs "42, 42") hm_new) <> [] /\
  forall v, v ∈ hm_get_all CONTENT_LENGTH (hm_append CONTENT_LENGTH (bs "42, 42") hm_new) -> exists s, hv_to_str v = Some s /\
    forall part, part ∈ split COMMA s ->
      trim part <> [] /\ digits_value 10 dec_digit 0 (trim part) = Some 42 /\ 42 <= u64_max.
Proof. apply (content_length_unanimous (hm_append CONTENT_LENGTH (bs "42, 42") hm_new) 42). Defined.

Lemma set_content_length_roundtrip_witness :
  if contains_key CONTENT_LENGTH hm_new then set_content_length_if_missing hm_new 1200 = hm_new
  else content_length_parse_all (set_content_length_if_missing hm_new 1200) = Some 1200.
Proof. apply (set_content_length_roundtrip hm_new 1200). split; unfold u64_max; lia. Defined.
End HttpWitnesses.
