(* ===== verification/Encode.v ===== *)
(** * Body encoders (src/src/core/proto/h1/encode.rs)

    [Encoder] frames an outgoing body, either as HTTP chunks or cut to a
    declared length; [ChunkSize] formats a chunk-size line in a fixed buffer;
    [EncodedBuf] is the resulting buffer. *)

From S2P Require Import Prelude Buf Http HeaderWrite WriteBuf.

Module Encode.

Inductive Kind :=
| Chunked (trailers : option (list HeaderValue))
| Length (remaining : Z).

Record Encoder := mkEncoder { kind : Kind; is_last : bool }.

Record NotEof := mkNotEof { not_eof : Z }.

(** ** [ChunkSize] *)

Definition USIZE_BYTES : Z := 8.
Definition CHUNK_SIZE_MAX_BYTES : Z := USIZE_BYTES * 2.

(** [bytes] is the fixed array, [len] and [pos] are [u8] fields. *)
Record ChunkSize := mkChunkSize { cs_bytes : bytes; cs_pos : Z; cs_len : Z }.

(** [fmt::Write::write_str]: overwrite the array from [len] on; writing past
    its end panics. *)
Definition write_str (num : bytes) (cs : ChunkSize) : option ChunkSize :=
  if cs_len cs + len num <=? len (cs_bytes cs) then
    Some (mkChunkSize
      (ztake (cs_len cs) (cs_bytes cs) ++ num ++ zdrop (cs_len cs + len num) (cs_bytes cs))
      (cs_pos cs) ((cs_len cs + len num mod 256) mod 256))
  else None.

(** [write!(&mut size, "{:X}\r\n", len)] writes the numeral, then the line end. *)
Definition chunk_size_new (n : Z) : option ChunkSize :=
  let size := mkChunkSize (replicate (Z.to_nat (CHUNK_SIZE_MAX_BYTES + 2)) 0) 0 0 in
  size ← write_str (fmt_hex_upper n) size;
  write_str CRLF size.

Section ChunkSize.
Context `{BytesCrate}.

(** [(self.len - self.pos).into()], a [u8] subtraction *)
Definition cs_remaining (cs : ChunkSize) : Z := (cs_len cs - cs_pos cs) mod 256.
Definition cs_chunk (cs : ChunkSize) : bytes :=
  zdrop (cs_pos cs) (ztake (cs_len cs) (cs_bytes cs)).
Definition cs_advance (cnt : Z) (cs : ChunkSize) : option ChunkSize :=
  if cnt <=? cs_remaining cs then
    Some (mkChunkSize (cs_bytes cs) ((cs_pos cs + cnt mod 256) mod 256) (cs_len cs))
  else None (* assert!(cnt <= self.remaining()) *).

#[global] Instance ChunkSize_buf : Buf ChunkSize := {
  remaining := cs_remaining;
  chunk := cs_chunk;
  advance := cs_advance;
  chunks_vectored n cs := default_vectored n (cs_remaining cs) (cs_chunk cs)
}.
End ChunkSize.

(** ** [EncodedBuf] *)

Section EncodedBuf.
Context `{BytesCrate}.

Inductive BufKind (B : Type) : Type :=
| Exact (b : B)
| Limited (b : Take B)
| ChunkedBuf (b : Chain (Chain ChunkSize B) bytes)
| ChunkedEnd (b : bytes)
| Trailers (b : Chain (Chain bytes bytes) bytes).

Record EncodedBuf (B : Type) : Type := mkEncodedBuf { buf_kind : BufKind B }.
End EncodedBuf.
Arguments Exact {_ B} _.
Arguments Limited {_ B} _.
Arguments ChunkedBuf {_ B} _.
Arguments ChunkedEnd {_ B} _.
Arguments Trailers {_ B} _.
Arguments mkEncodedBuf {_ B} _.
Arguments buf_kind {_ B} _.

Section EncodedBufBuf.
Context `{BytesCrate} {B : Type} `{Buf B}.

Definition enc_remaining (e : EncodedBuf B) : Z :=
  match buf_kind e with
  | Exact b => remaining b
  | Limited b => remaining b
  | ChunkedBuf b => remaining b
  | ChunkedEnd b => remaining b
  | Trailers b => remaining b
  end.

Definition enc_chunk (e : EncodedBuf B) : bytes :=
  match buf_kind e with
  | Exact b => chunk b
  | Limited b => chunk b
  | ChunkedBuf b => chunk b
  | ChunkedEnd b => chunk b
  | Trailers b => chunk b
  end.

Definition enc_advance (cnt : Z) (e : EncodedBuf B) : option (EncodedBuf B) :=
  match buf_kind e with
  | Exact b => b ← advance cnt b; Some (mkEncodedBuf (Exact b))
  | Limited b => b ← advance cnt b; Some (mkEncodedBuf (Limited b))
  | ChunkedBuf b => b ← advance cnt b; Some (mkEncodedBuf (ChunkedBuf b))
  | ChunkedEnd b => b ← advance cnt b; Some (mkEncodedBuf (ChunkedEnd b))
  | Trailers b => b ← advance cnt b; Some (mkEncodedBuf (Trailers b))
  end.

Definition enc_chunks_vectored (n : Z) (e : EncodedBuf B) : list bytes :=
  match buf_kind e with
  | Exact b => chunks_vectored n b
  | Limited b => chunks_vectored n b
  | ChunkedBuf b => chunks_vectored n b
  | ChunkedEnd b => chunks_vectored n b
  | Trailers b => chunks_vectored n b
  end.

#[global] Instance EncodedBuf_buf : Buf (EncodedBuf B) := {
  remaining := enc_remaining;
  chunk := enc_chunk;
  advance := enc_advance;
  chunks_vectored := enc_chunks_vectored
}.

(** The [From] conversions. *)
Definition from_buf (b : B) : EncodedBuf B := mkEncodedBuf (Exact b).
Definition from_take (b : Take B) : EncodedBuf B := mkEncodedBuf (Limited b).
Definition from_chain (b : Chain (Chain ChunkSize B) bytes) : EncodedBuf B :=
  mkEncodedBuf (ChunkedBuf b).
End EncodedBufBuf.

(** ** [Encoder] *)

Definition encoder_new (k : Kind) : Encoder := mkEncoder k false.
Definition encoder_chunked : Encoder := encoder_new (Chunked None).
Definition encoder_length (n : Z) : Encoder := encoder_new (Length n).

Definition into_chunked_with_trailing_fields (e : Encoder) (trailers : list HeaderValue) : Encoder :=
  match kind e with
  | Chunked _ => mkEncoder (Chunked (Some trailers)) (is_last e)
  | _ => e
  end.

Definition is_eof (e : Encoder) : bool :=
  match kind e with Length 0 => true | _ => false end.
Definition is_close_delimited (e : Encoder) : bool := false.
Definition is_chunked (e : Encoder) : bool :=
  match kind e with Chunked _ => true | _ => false end.

Section Encoder.
Context `{BytesCrate} `{Alloc} `{HttpCrate} {B : Type} `{Buf B}.

Definition encoder_end (e : Encoder) : result (option (EncodedBuf B)) NotEof :=
  match kind e with
  | Length 0 => Ok None
  | Chunked _ => Ok (Some (mkEncodedBuf (ChunkedEnd (bs "0" ++ CRLF ++ CRLF))))
  | Length n => Err (mkNotEof n)
  end.

(** [Encoder::encode]: the framed buffer and the encoder after it. *)
Definition encode (msg : B) (e : Encoder) : option (EncodedBuf B * Encoder) :=
  let n := remaining msg in
  match kind e with
  | Chunked _ =>
      size ← chunk_size_new n;
      Some (mkEncodedBuf (ChunkedBuf (mk_chain (mk_chain size msg) CRLF)), e)
  | Length rem =>
      if rem <? n then
        Some (mkEncodedBuf (Limited (mk_take msg rem)), mkEncoder (Length 0) (is_last e))
      else
        Some (mkEncodedBuf (Exact msg), mkEncoder (Length (rem - n)) (is_last e))
  end.

Definition is_valid_trailer_field (name : HeaderName) : bool :=
  negb (bool_decide (name ∈
    [AUTHORIZATION; CACHE_CONTROL; CONTENT_ENCODING; CONTENT_LENGTH; CONTENT_RANGE;
     CONTENT_TYPE; HOST; MAX_FORWARDS; SET_COOKIE; TRAILER; TRANSFER_ENCODING; TE])).

(** The keys of the map built from the [Trailer] header values. *)
Definition allowed_trailer_field_map (fields : list HeaderValue) : list bytes :=
  concat ((fun v => match hv_to_str v with
                    | Some s => trim <$> split Headers.COMMA s
                    | None => []
                    end) <$> fields).

(** The [for (opt_name, value) in trailers] loop. *)
Fixpoint filter_trailers (allowed : list bytes) (cur_name : option HeaderName)
    (trailers : list (option HeaderName * HeaderValue)) (acc : HeaderMap) : option HeaderMap :=
  match trailers with
  | [] => Some acc
  | (opt_name, value) :: rest =>
      let cur_name := match opt_name with Some n => Some n | None => cur_name end in
      name ← cur_name; (* .expect("current header name") *)
      let acc :=
        if bool_decide (name ∈ allowed) then
          if is_valid_trailer_field name then hm_insert name value acc else acc
        else acc in
      filter_trailers allowed cur_name rest acc
  end.

(** Outer [None]: panic. Inner [None]: nothing to send. *)
Definition encode_trailers (trailers : HeaderMap) (title_case_headers : bool) (e : Encoder)
  : option (option (EncodedBuf B)) :=
  match kind e with
  | Chunked (Some allowed_trailer_fields) =>
      let allowed := allowed_trailer_field_map allowed_trailer_fields in
      allowed_trailers ← filter_trailers allowed None (hm_into_iter trailers) hm_new;
      let buf :=
        if title_case_headers then write_headers_title_case allowed_trailers []
        else write_headers allowed_trailers [] in
      match buf with
      | [] => Some None
      | _ => Some (Some (mkEncodedBuf (Trailers
               (mk_chain (mk_chain (bs "0" ++ CRLF) buf) CRLF))))
      end
  | Chunked None => Some None
  | _ => Some None
  end.

(** [Encoder::encode_and_end]: write straight into the write buffer; the
    boolean says whether the connection can be kept alive. *)
Definition encode_and_end (msg : B) (dst : WriteBuf (EncodedBuf B)) (e : Encoder)
  : option (bool * WriteBuf (EncodedBuf B)) :=
  let n := remaining msg in
  match kind e with
  | Chunked _ =>
      size ← chunk_size_new n;
      let buf := mk_chain (mk_chain size msg) (CRLF ++ bs "0" ++ CRLF ++ CRLF) in
      dst' ← buffer from_chain buf dst;
      Some (negb (is_last e), dst')
  | Length rem =>
      match n ?= rem with
      | Eq => dst' ← buffer from_buf msg dst; Some (negb (is_last e), dst')
      | Gt => dst' ← buffer from_take (mk_take msg rem) dst; Some (negb (is_last e), dst')
      | Lt => dst' ← buffer from_buf msg dst; Some (false, dst')
      end
  end.
End Encoder.
End Encode.

Module EncodeFacts.
Import Encode.

(** ** The buffers satisfy the [Buf] contract *)

Section ChunkSizeLaws.
Context `{BytesCrateLaws}.

Definition cs_wf (cs : ChunkSize) : Prop :=
  0 <= cs_pos cs <= cs_len cs /\ cs_len cs <= len (cs_bytes cs) /\ len (cs_bytes cs) = 18.

Lemma cs_remaining_len cs : cs_wf cs -> cs_remaining cs = len (cs_chunk cs).
Proof.
  intros (? & ? & ?). unfold cs_remaining, cs_chunk.
  rewrite Z.mod_small, len_zdrop, len_ztake by lia. lia.
Qed.

Lemma cs_advance_spec cs n :
  cs_wf cs -> 0 <= n <= len (cs_chunk cs) ->
  exists cs', cs_advance n cs = Some cs' /\ cs_wf cs' /\ cs_chunk cs' = zdrop n (cs_chunk cs).
Proof.
  intros Hcs Hn. unfold cs_advance. rewrite cs_remaining_len by done.
  destruct Hcs as (? & ? & ?). unfold cs_chunk in *.
  rewrite len_zdrop, len_ztake in * by lia.
  rewrite (proj2 (Z.leb_le _ _)) by lia. eexists. split; [done|].
  unfold cs_wf. cbn. rewrite !Z.mod_small by (try rewrite Z.mod_small; lia).
  split; [lia|]. by rewrite zdrop_zdrop by lia.
Qed.

#[global] Program Instance ChunkSize_laws : BufLaws ChunkSize := {
  buf_wf := cs_wf;
  content := cs_chunk
}.
Next Obligation. exact cs_remaining_len. Qed.
Next Obligation. intros cs _. exists []. by rewrite app_nil_r. Qed.
Next Obligation. done. Qed.
Next Obligation. exact cs_advance_spec. Qed.
Next Obligation.
  intros c n Hc Hn. cbn. rewrite cs_remaining_len by done. by apply default_vectored_laws.
Qed.
Next Obligation.
  intros c n Hc Hn. cbn. rewrite cs_remaining_len by done. by apply default_vectored_laws.
Qed.
Next Obligation.
  intros c n Hc Hn. cbn. rewrite cs_remaining_len by done. by apply default_vectored_laws.
Qed.
Next Obligation.
  intros c n Hc Hn. cbn. rewrite cs_remaining_len by done. apply default_vectored_laws; lia.
Qed.

Lemma write_str_spec num cs :
  cs_wf cs -> cs_pos cs = 0 -> cs_len cs + len num <= 18 ->
  exists cs', write_str num cs = Some cs' /\ cs_wf cs' /\ cs_pos cs' = 0 /\
    cs_len cs' = cs_len cs + len num /\ cs_chunk cs' = cs_chunk cs ++ num.
Proof.
  intros (Hp & Hl & Hb) Hz Hle. unfold write_str. pose proof (len_nonneg num).
  rewrite (proj2 (Z.leb_le _ _)) by lia. eexists. split; [done|].
  unfold cs_wf, cs_chunk. cbn [cs_bytes cs_pos cs_len]. rewrite Hz, !zdrop_0.
  assert (len (ztake (cs_len cs) (cs_bytes cs)) = cs_len cs) as El
    by (rewrite len_ztake; lia).
  rewrite !Z.mod_small by (try rewrite Z.mod_small; lia).
  rewrite !len_app, len_zdrop, El by lia. split_and!; [lia..|].
  rewrite app_assoc, ztake_app_le by (rewrite len_app; lia).
  rewrite ztake_ge; [done | rewrite len_app; lia].
Qed.

(** Formatting a chunk size never overruns the 18-byte buffer. *)
Lemma chunk_size_new_spec n :
  wf_u64 n ->
  exists cs, chunk_size_new n = Some cs /\ buf_wf cs /\ content cs = fmt_hex_upper n ++ CRLF.
Proof.
  intros Hn. unfold chunk_size_new. pose proof (len_fmt_radix 16 16 n) as Hlen.
  fold (fmt_hex_upper n) in Hlen. set (cs0 := mkChunkSize _ 0 0).
  assert (cs_wf cs0) as Hcs0 by (repeat split; apply Z.leb_le; reflexivity).
  destruct (write_str_spec (fmt_hex_upper n) cs0 Hcs0) as (cs1 & -> & Hcs1 & Hp & Hl & E1);
    [done | change (cs_len cs0) with 0; lia |].
  cbn [mbind option_bind].
  destruct (write_str_spec CRLF cs1 Hcs1) as (cs2 & -> & Hcs2 & _ & _ & E2);
    [done | rewrite Hl; change (cs_len cs0) with 0; change (len CRLF) with 2; lia |].
  exists cs2. split_and!; [done..|]. cbn [content ChunkSize_laws]. rewrite E2, E1. done.
Qed.
End ChunkSizeLaws.

Section EncodedBufLaws.
Context `{BytesCrateLaws} {B : Type} `{BufLaws B}.

Definition enc_wf (e : EncodedBuf B) : Prop :=
  match buf_kind e with
  | Exact b => buf_wf b
  | Limited b => buf_wf b
  | ChunkedBuf b => buf_wf b
  | ChunkedEnd b => buf_wf b
  | Trailers b => buf_wf b
  end.
Definition enc_content (e : EncodedBuf B) : bytes :=
  match buf_kind e with
  | Exact b => content b
  | Limited b => content b
  | ChunkedBuf b => content b
  | ChunkedEnd b => content b
  | Trailers b => content b
  end.

#[global] Program Instance EncodedBuf_laws : BufLaws (EncodedBuf B) := {
  buf_wf := enc_wf;
  content := enc_content
}.
Next Obligation. intros [[]]; exact (remaining_content _). Qed.
Next Obligation. intros [[]]; exact (chunk_content _). Qed.
Next Obligation. intros [[]]; exact (chunk_empty _). Qed.
Next Obligation.
  intros [[]] n Hb Hn; destruct (advance_content _ n Hb Hn) as (b' & E & ? & ?);
    (eexists; split; [unfold advance at 1; cbn; unfold enc_advance; cbn; rewrite E; reflexivity|]);
    done.
Qed.
Next Obligation. intros [[]]; exact (vectored_count _). Qed.
Next Obligation. intros [[]]; exact (vectored_content _). Qed.
Next Obligation. intros [[]]; exact (vectored_short _). Qed.
Next Obligation. intros [[]]; exact (vectored_progress _). Qed.
End EncodedBufLaws.

(** ** What the encoders put on the wire *)

(** One chunk of the chunked transfer coding, and its terminator. *)
Definition chunk_frame (b : bytes) : bytes := fmt_hex_upper (len b) ++ CRLF ++ b ++ CRLF.
Definition last_chunk : bytes := bs "0" ++ CRLF ++ CRLF.

Section EncoderFacts.
Context {BC : BytesCrate} {AL : Alloc} {BCL : BytesCrateLaws} {ALL : AllocLaws}.
Context {B : Type} {HB : Buf B} {HBL : BufLaws B}.
Implicit Types (msg : B) (e : Encoder).

Lemma crlf_chain_spec {A} `{BufLaws A} (a : A) (s : bytes) :
  buf_wf a -> len (content a) + len s <= usize_max ->
  buf_wf (mk_chain a s) /\ content (mk_chain a s) = content a ++ s.
Proof.
  intros Ha Hle. rewrite chain_content, slice_content. split; [|done].
  apply chain_wf; [done | apply slice_wf | by rewrite slice_content].
Qed.

Lemma chunk_chain_spec msg (s : bytes) :
  buf_wf msg -> len (content msg) + len s + 18 <= usize_max ->
  exists size, chunk_size_new (remaining msg) = Some size /\
    buf_wf (mk_chain (mk_chain size msg) s) /\
    content (mk_chain (mk_chain size msg) s) =
      fmt_hex_upper (len (content msg)) ++ CRLF ++ content msg ++ s.
Proof.
  intros Hm Hle. rewrite remaining_content by done.
  destruct (chunk_size_new_spec (len (content msg))) as (size & -> & Hs & Es);
    [unfold wf_u64; len_lia|].
  pose proof (len_fmt_radix 16 16 (len (content msg))) as Hlen.
  fold (fmt_hex_upper (len (content msg))) in Hlen.
  assert (len (content size) <= 18) as Hsz by (rewrite Es, len_app; change (len CRLF) with 2; lia).
  assert (buf_wf (mk_chain size msg)) as Hc by (apply chain_wf; [done.. | len_lia]).
  destruct (crlf_chain_spec (mk_chain size msg) s Hc) as [Hw Ew].
  { rewrite chain_content. len_lia. }
  exists size. split_and!; [done..|]. rewrite Ew, chain_content, Es, <-!app_assoc. done.
Qed.

Lemma encode_chunked e msg :
  is_chunked e = true -> buf_wf msg -> len (content msg) + 20 <= usize_max ->
  exists eb, encode msg e = Some (eb, e) /\ buf_wf eb /\ content eb = chunk_frame (content msg).
Proof.
  unfold is_chunked, encode. destruct (kind e); [|done]. intros _ Hm Hle.
  destruct (chunk_chain_spec msg CRLF Hm) as (size & -> & Hw & Ew); [change (len CRLF) with 2; lia|].
  eexists. split_and!; [done..|exact Ew].
Qed.

Lemma encode_length n l msg :
  wf_u64 n -> buf_wf msg ->
  exists eb, encode msg (mkEncoder (Length n) l) =
      Some (eb, mkEncoder (Length (n - Z.min n (len (content msg)))) l) /\
    buf_wf eb /\ content eb = ztake n (content msg).
Proof.
  intros Hn Hm. unfold encode. cbn [kind is_last]. rewrite remaining_content by done.
  destruct (Z.ltb_spec n (len (content msg))).
  - eexists. rewrite Z.min_l, Z.sub_diag by lia. split; [done|].
    split; [by apply (take_wf msg) | apply (take_content msg)].
  - eexists. rewrite Z.min_r by lia. split; [done|]. split; [exact Hm|].
    by rewrite ztake_ge.
Qed.

(** The bytes of the buffer that [Encoder::end] hands out. *)
Definition end_bytes (r : result (option (EncodedBuf B)) NotEof) : bytes :=
  match r with Ok (Some b) => content b | _ => [] end.
Definition end_ok (r : result (option (EncodedBuf B)) NotEof) : bool :=
  match r with Ok _ => true | Err _ => false end.

(** A body written message by message. *)
Fixpoint encode_all (msgs : list B) (e : Encoder) : option (bytes * Encoder) :=
  match msgs with
  | [] => Some ([], e)
  | m :: msgs' =>
      '(eb, e') ← encode m e; '(out, e'') ← encode_all msgs' e'; Some (content eb ++ out, e'')
  end.

Lemma encode_all_length n l msgs :
  wf_u64 n -> Forall buf_wf msgs ->
  encode_all msgs (mkEncoder (Length n) l) =
    Some (ztake n (concat (content <$> msgs)),
          mkEncoder (Length (n - Z.min n (len (concat (content <$> msgs))))) l).
Proof.
  intros Hn Hm. revert n Hn. induction Hm as [|m msgs Hm _ IH]; intros n Hn.
  { destruct Hn. cbn. rewrite Z.min_r, Z.sub_0_r by done. by rewrite ztake_ge. }
  rewrite fmap_cons. cbn [encode_all concat].
  destruct (encode_length n l m Hn Hm) as (eb & -> & _ & Eb). cbn [mbind option_bind].
  rewrite IH by (unfold wf_u64 in *; len_lia). cbn [mbind option_bind]. rewrite Eb. do 2 f_equal.
  - set (r := concat (content <$> msgs)). destruct (decide (n <= len (content m))).
    + rewrite ztake_app_le by done. rewrite Z.min_l, Z.sub_diag, ztake_0 by done. apply app_nil_r.
    + rewrite (ztake_ge n (content m)) by lia. by rewrite Z.min_r, ztake_app_ge by lia.
  - do 2 f_equal. len_lia.
Qed.

Lemma encode_all_chunked e msgs :
  is_chunked e = true ->
  Forall (fun m => buf_wf m /\ len (content m) + 20 <= usize_max) msgs ->
  encode_all msgs e = Some (concat (chunk_frame ∘ content <$> msgs), e).
Proof.
  intros He. induction 1 as [|m msgs [Hm Hl] _ IH]; [done|]. rewrite fmap_cons.
  cbn [encode_all concat]. destruct (encode_chunked e m He Hm Hl) as (eb & -> & _ & Eb).
  cbn [mbind option_bind]. rewrite IH. cbn [mbind option_bind]. by rewrite Eb.
Qed.
End EncoderFacts.
End EncodeFacts.
