(* ===== verification/EncodeProps.v ===== *)
(** * What the body encoders guarantee

    The length-delimited encoder never writes more than it declared and its
    [end] tells whether it wrote less; the one-shot [encode_and_end] writes what
    [encode] followed by [end] would; trailers are reduced to the declared,
    permitted fields. *)

From S2P Require Import Prelude Buf Http Models WriteBuf HeaderWrite Encode.
Import Encode EncodeFacts.

Section EncodeProps.
Context {BC : BytesCrate} {AL : Alloc} {BCL : BytesCrateLaws} {ALL : AllocLaws}.
Context {B : Type} {HB : Buf B} {HBL : BufLaws B}.

(** A body of declared length [n], written in any number of messages:
    the wire carries exactly the first [n] bytes of their concatenation,
    excess is dropped, and [end] succeeds if and only if the messages held at
    least [n] bytes, reporting the missing count otherwise. *)
Theorem length_encoder_exact n (msgs : list B) :
  wf_u64 n -> Forall buf_wf msgs ->
  exists wire e, encode_all msgs (encoder_length n) = Some (wire, e) /\
    wire = ztake n (concat (content <$> msgs)) /\ len wire <= n /\
    encoder_end (B:=B) e =
      (if n <=? len (concat (content <$> msgs)) then Ok None
       else Err (mkNotEof (n - len (concat (content <$> msgs))))).
Proof.
  intros Hn Hm. rewrite (encode_all_length n false msgs Hn Hm). eexists _, _. split; [done|].
  split; [done|]. destruct Hn as [Hn _]. rewrite len_ztake by done. split; [lia|].
  set (t := len _). unfold encoder_end. cbn [kind]. destruct (Z.leb_spec n t).
  - rewrite Z.min_l, Z.sub_diag by lia. done.
  - rewrite Z.min_r by lia. by destruct (n - t) eqn:E; [lia|..].
Qed.

(** The one-message view of the encoder: the bytes of [encode] and [end],
    and whether [end] was content. *)
Definition one_shot (msg : B) (dst : WriteBuf (EncodedBuf B)) (e : Encoder) : Prop :=
  exists b dst' eb e',
    encode_and_end msg dst e = Some (b, dst') /\ encode msg e = Some (eb, e') /\
    writebuf_wf dst' /\ strategy dst' = strategy dst /\
    pending dst' = pending dst ++ content eb ++ end_bytes (B:=B) (encoder_end e') /\
    b = negb (is_last e) && end_ok (B:=B) (encoder_end e').

Section OneShot.
Variables (msg : B) (dst : WriteBuf (EncodedBuf B)).
Hypotheses (Hm : buf_wf msg) (Hne : content msg <> []) (Hd : writebuf_wf dst).
Hypothesis Hle :
  len (cur_bytes (headers dst)) + len (content (queue dst)) + len (content msg) + 25 <= usize_max.

Lemma one_shot_chunked tr last : one_shot msg dst (mkEncoder (Chunked tr) last).
Proof.
  unfold one_shot, encode_and_end. cbn [kind Encode.is_last].
  set (s := CRLF ++ bs "0" ++ CRLF ++ CRLF).
  destruct (chunk_chain_spec msg s Hm) as (size & Es & Hw & Ew).
  { change (len s) with 7. len_lia. }
  destruct (encode_chunked (mkEncoder (Chunked tr) last) msg eq_refl Hm) as (eb & -> & _ & Eeb); [len_lia|].
  rewrite Es. cbn [mbind option_bind].
  pose proof (len_fmt_radix 16 16 (len (content msg))) as Hlen.
  fold (fmt_hex_upper (len (content msg))) in Hlen.
  destruct (buffer_pending from_chain (mk_chain (mk_chain size msg) s) dst)
    as (dst' & -> & Hd' & Ep & Es'); [done|done| |done|done| |].
  { rewrite Ew. by intros [E _]%app_eq_nil; apply fmt_radix_nonempty in E. }
  { rewrite Ew. rewrite !len_app in *. change (len CRLF) with 2. change (len s) with 7. len_lia. }
  cbn [mbind option_bind]. eexists _, _, _, _. split_and!; [done..| |by rewrite andb_true_r].
  rewrite Ep, Ew, Eeb. unfold chunk_frame, end_bytes, encoder_end. cbn [kind].
  change (content (mkEncodedBuf _)) with (content (bs "0" ++ CRLF ++ CRLF)).
  rewrite slice_content. by rewrite <-!app_assoc.
Qed.

Lemma one_shot_length n last : 0 < n <= u64_max -> one_shot msg dst (mkEncoder (Length n) last).
Proof.
  intros Hn. unfold one_shot, encode_and_end. cbn [kind Encode.is_last].
  destruct (encode_length n last msg ltac:(unfold wf_u64; lia) Hm) as (eb & -> & _ & Eeb).
  rewrite remaining_content by done. unfold encoder_end. cbn [kind].
  destruct (Z.compare_spec (len (content msg)) n) as [E|Hlt|Hgt].
  - destruct (buffer_pending from_buf msg dst) as (dst' & -> & Hd' & Ep & Es'); [done..|len_lia|].
    cbn [mbind option_bind]. eexists _, _, _, _. rewrite Z.min_l, Z.sub_diag by lia.
    split_and!; [done..| |by rewrite andb_true_r].
    rewrite Ep, Eeb, ztake_ge by lia. cbn. by rewrite app_nil_r.
  - destruct (buffer_pending from_buf msg dst) as (dst' & -> & Hd' & Ep & Es'); [done..|len_lia|].
    cbn [mbind option_bind]. eexists _, _, _, _. rewrite Z.min_r by lia.
    split_and!; [done..| |]; destruct (n - len (content msg)) eqn:E; try lia.
    + rewrite Ep, Eeb, ztake_ge by lia. cbn. by rewrite app_nil_r.
    + by rewrite andb_false_r.
  - assert (buf_wf (mk_take msg n)) as Ht by (apply take_wf; [done|unfold wf_u64; lia]).
    destruct (buffer_pending from_take (mk_take msg n) dst) as (dst' & -> & Hd' & Ep & Es');
      [done..| |done|done| |]; rewrite ?take_content.
    { intros E%(f_equal len). rewrite len_ztake in E by lia. len_lia. }
    { rewrite len_ztake by lia. len_lia. }
    cbn [mbind option_bind]. eexists _, _, _, _. rewrite Z.min_l, Z.sub_diag by lia.
    split_and!; [done..| |by rewrite andb_true_r].
    rewrite Ep, Eeb, take_content. cbn. by rewrite app_nil_r.
Qed.
End OneShot.

(** [encode_and_end] is [encode] followed by [end]: for a non-empty
    message and an encoder that still expects data, the same bytes are
    appended to the write buffer, whatever its strategy, and the connection is
    declared reusable exactly when this was not the last message on it and
    [end] would have succeeded. *)
Theorem encode_and_end_equiv msg (dst : WriteBuf (EncodedBuf B)) e :
  buf_wf msg -> content msg <> [] -> is_eof e = false ->
  (forall n, kind e = Length n -> wf_u64 n) -> writebuf_wf dst ->
  len (cur_bytes (headers dst)) + len (content (queue dst)) + len (content msg) + 25 <= usize_max ->
  exists b dst' eb e',
    encode_and_end msg dst e = Some (b, dst') /\ encode msg e = Some (eb, e') /\
    writebuf_wf dst' /\ strategy dst' = strategy dst /\
    pending dst' = pending dst ++ content eb ++ end_bytes (B:=B) (encoder_end e') /\
    b = negb (is_last e) && end_ok (B:=B) (encoder_end e').
Proof.
  intros Hm Hne He Hn Hd Hle. destruct e as [[tr|n] last]; [by apply one_shot_chunked|].
  apply one_shot_length; [done..|]. specialize (Hn n eq_refl). unfold wf_u64 in Hn.
  unfold is_eof in He. cbn in He. destruct n; [done|lia..].
Qed.
End EncodeProps.

(** ** Trailers *)

Section Trailers.
Context {BC : BytesCrate} {AL : Alloc} {BCL : BytesCrateLaws} {ALL : AllocLaws}.
Context `{HttpLaws} {B : Type} {HB : Buf B} {HBL : BufLaws B}.

Definition permitted (allowed : list bytes) (k : HeaderName) : bool :=
  bool_decide (k ∈ allowed) && is_valid_trailer_field k.

(** The filter loop over named pairs. *)
Definition keep_trailers (allowed : list bytes) (l : list (HeaderName * HeaderValue)) (acc : HeaderMap)
  : HeaderMap :=
  foldl (fun acc kv => if permitted allowed kv.1 then hm_insert kv.1 kv.2 acc else acc) acc l.

Lemma filter_trailers_named allowed cur l named acc :
  fill_names cur l = Some named ->
  filter_trailers allowed cur l acc = Some (keep_trailers allowed named acc).
Proof.
  revert cur named acc. induction l as [|[on v] l IH]; intros cur named acc E; cbn in *.
  { by injection E as <-. }
  destruct (match on with Some n => Some n | None => cur end) as [n|]; [|done]. cbn in *.
  destruct (fill_names (Some n) l) as [rest|] eqn:Er; [|done]. cbn in E. injection E as <-.
  cbn. rewrite (IH _ rest) by done. unfold permitted.
  by destruct (bool_decide (n ∈ allowed)), (is_valid_trailer_field n).
Qed.

Lemma keep_trailers_get allowed l acc k :
  hm_get_all k (keep_trailers allowed l acc) =
  if permitted allowed k then
    match last ((filter (fun kv => kv.1 = k) l).*2) with
    | Some v => [v]
    | None => hm_get_all k acc
    end
  else hm_get_all k acc.
Proof.
  revert acc. induction l as [|[n v] l IH]; intros acc; [by destruct (permitted allowed k)|].
  change (keep_trailers allowed ((n, v) :: l) acc) with
    (keep_trailers allowed l (if permitted allowed n then hm_insert n v acc else acc)).
  rewrite IH.
  rewrite filter_cons. cbn [fst]. destruct (decide (n = k)) as [->|Hne].
  - destruct (permitted allowed k); [|done]. rewrite fmap_cons. cbn [snd].
    destruct ((filter _ l).*2) as [|w ws] eqn:E; cbn [last]; [apply get_all_insert_eq|].
    destruct (last (w :: ws)) eqn:El; [done|]. by apply last_None in El.
  - destruct (permitted allowed n); [|done]. by rewrite get_all_insert_ne by done.
Qed.

(** The fields that survive, and their serialisation. *)
Definition kept_trailers (trailers : HeaderMap) (fields : list HeaderValue) : HeaderMap :=
  keep_trailers (allowed_trailer_field_map fields) (hm_iter trailers) hm_new.
Definition trailer_lines (title : bool) (m : HeaderMap) : bytes :=
  concat (header_line (if title then title_case_from DASH else id) <$> hm_iter m).

Lemma encode_trailers_spec trailers (title : bool) fields lst :
  let lines := trailer_lines title (kept_trailers trailers fields) in
  let sent := encode_trailers (B:=B) trailers title (mkEncoder (Chunked (Some fields)) lst) in
  (lines = [] -> sent = Some None) /\
  (lines <> [] -> exists eb, sent = Some (Some eb) /\
     (len lines + 5 <= usize_max -> buf_wf eb /\ content eb = bs "0" ++ CRLF ++ lines ++ CRLF)).
Proof.
  unfold encode_trailers. cbn [kind].
  rewrite (filter_trailers_named _ _ _ _ _ (into_iter_iter trailers)). cbn [mbind option_bind].
  fold (kept_trailers trailers fields). set (m := kept_trailers trailers fields).
  assert ((if title then write_headers_title_case m [] else write_headers m []) = trailer_lines title m) as ->.
  { unfold trailer_lines. destruct title; [by rewrite write_headers_title_lines | by rewrite write_headers_lines]. }
  set (lines := trailer_lines title m). cbv zeta. split; [by intros ->|]. intros Hne.
  destruct lines as [|x ls] eqn:El; [done|]. rewrite <-El in *. eexists. split; [done|]. intros Hle.
  destruct (crlf_chain_spec (bs "0" ++ CRLF) lines) as [Hw1 Ec1];
    [apply slice_wf | rewrite slice_content; change (len (bs "0" ++ CRLF)) with 3; lia |].
  destruct (crlf_chain_spec (mk_chain (bs "0" ++ CRLF) lines) CRLF Hw1) as [Hw2 Ec2].
  { rewrite Ec1, slice_content, len_app. change (len (bs "0" ++ CRLF)) with 3. change (len CRLF) with 2. lia. }
  split; [exact Hw2|]. etransitivity; [exact Ec2|]. rewrite Ec1, slice_content. by rewrite <-!app_assoc.
Qed.

(** Trailers sent with the chunked coding carry exactly the fields that
    the [Trailer] header announced (compared as written, after trimming) and
    that may appear in a trailer, each with the last of its values; without
    any such field nothing is sent. *)
Theorem encode_trailers_filtered (trailers : HeaderMap) (title : bool) fields lst :
  exists kept : HeaderMap,
    (forall k, hm_get_all k kept =
       if permitted (allowed_trailer_field_map fields) k
       then option_list (last (hm_get_all k trailers)) else []) /\
    let lines := trailer_lines title kept in
    let sent := encode_trailers (B:=B) trailers title (mkEncoder (Chunked (Some fields)) lst) in
    (lines = [] -> sent = Some None) /\
    (lines <> [] -> len lines + 5 <= usize_max ->
     exists eb, sent = Some (Some eb) /\ buf_wf eb /\ content eb = bs "0" ++ CRLF ++ lines ++ CRLF).
Proof.
  exists (kept_trailers trailers fields). split.
  { intros k. unfold kept_trailers. rewrite keep_trailers_get, get_all_new, iter_get_all. case_match; [|done].
    by destruct (last _). }
  destruct (encode_trailers_spec trailers title fields lst) as [H1' H2']. cbv zeta. split; [exact H1'|].
  intros Hne Hle. destruct (H2' Hne) as (eb & E & Hb). exists eb. split; [exact E|]. by apply Hb.
Qed.
End Trailers.

(** ** The properties at concrete inputs *)
Import RefBytes RefAlloc RefHttp.

Lemma length_encoder_exact_witness :
  exists wire e, encode_all (B:=bytes) [bs "foo"; bs "bar"] (encoder_length 4) = Some (wire, e) /\
    wire = bs "foob" /\ encoder_end (B:=bytes) e = Ok None.
Proof.
  destruct (length_encoder_exact (B:=bytes) 4 [bs "foo"; bs "bar"]) as (wire & e & E & Ew & _ & Ee).
  { by split; apply Z.leb_le. }
  { repeat constructor; vm_compute; discriminate. }
  exists wire, e. split; [exact E|]. split; [rewrite Ew; reflexivity | rewrite Ee; reflexivity].
Defined.

Lemma encode_and_end_equiv_witness :
  exists b dst', encode_and_end (bs "foo") (writebuf_new (B:=EncodedBuf bytes) Queue) (encoder_length 3)
      = Some (b, dst') /\ b = true /\ pending dst' = bs "foo".
Proof.
  destruct (encode_and_end_equiv (B:=bytes) (bs "foo") (writebuf_new Queue) (encoder_length 3))
    as (b & dst' & eb & e' & E & E' & _ & _ & Ep & Eb).
  { exact I. }
  { discriminate. }
  { reflexivity. }
  { intros n [= <-]. by split; apply Z.leb_le. }
  { apply writebuf_new_wf. }
  { vm_compute. discriminate. }
  exists b, dst'. split; [exact E|]. cbn in E'. injection E' as <- <-. split; [exact Eb|exact Ep].
Defined.

(** Two fields are announced, one of them cannot be a trailer, a third field is
    not announced. *)
Lemma encode_trailers_filtered_witness :
  exists kept, hm_get_all (bs "expires") kept = [bs "later"] /\ hm_get_all CONTENT_LENGTH kept = [] /\
    hm_get_all (bs "other") kept = [].
Proof.
  destruct (encode_trailers_filtered (B:=bytes)
    (hm_append (bs "expires") (bs "later") (hm_append (bs "expires") (bs "now")
      (hm_append CONTENT_LENGTH (bs "3") (hm_append (bs "other") (bs "x") hm_new))))
    false [bs "expires, content-length"] false) as (kept & Hk & _).
  exists kept. split; [rewrite Hk; vm_compute; reflexivity|].
  split; rewrite Hk; vm_compute; reflexivity.
Defined.
