(* ===== verification/Decode.v ===== *)
(** * Body decoders (src/src/core/proto/h1/decode.rs)

    A [Decoder] turns the bytes that follow a message head into frames: a body
    of known length, the chunked transfer coding with trailers, or everything
    up to the end of the connection.  It reads through the [MemRead] interface,
    whose contract [MemReadLaws] views a reader as a stream of bytes still to be
    delivered; the connection buffer of Io.v is the implementation. *)

From S2P Require Import Prelude Http.

(** ** The reader interface ([trait MemRead]) *)

Class MemRead (R : Type) := {
  read_mem : Z -> R -> poll_res io_error bytes * R
}.

(** [stream r] is what the reader will deliver before the end of input; a
    [Pending] result does not lose or reorder bytes. *)
Class MemReadLaws (R : Type) `{MemRead R} := {
  rd_wf : R -> Prop;
  stream : R -> bytes;
  read_mem_val n r b r' :
    rd_wf r -> 0 < n -> read_mem n r = (RVal b, r') ->
    rd_wf r' /\ stream r = b ++ stream r' /\ len b <= n /\ (b = [] -> stream r = []);
  read_mem_pending n r r' :
    rd_wf r -> 0 < n -> read_mem n r = (RPending, r') -> rd_wf r' /\ stream r' = stream r;
  read_mem_total n r r' :
    rd_wf r -> 0 < n -> read_mem n r <> (RPanic, r') /\ read_mem n r <> (RFuel, r')
}.

(** ** The header parser ([httparse]), as an interface

    A parsed header is a pair of slices of the input: their bytes and their
    offsets in it. *)

Record RawHeader := mkRawHeader {
  rh_name : bytes; rh_name_off : Z; rh_value : bytes; rh_value_off : Z
}.
Inductive HpError :=
| HpHeaderName | HpHeaderValue | HpNewLine | HpStatus | HpToken | HpTooManyHeaders | HpVersion.

Record RawResponse := mkRawResponse {
  rr_len : Z; rr_code : Z; rr_reason : bytes; rr_version : Z; rr_headers : list RawHeader
}.

(** [Ok None] is [Status::Partial]. *)
Class Httparse := {
  hp_config : Type;
  hp_default_config : hp_config;
  hp_obs_fold_allowed : hp_config -> bool;
  hp_parse_headers : bytes -> Z -> result (option (Z * list RawHeader)) HpError;
  hp_parse_response : hp_config -> bytes -> Z -> result (option RawResponse) HpError
}.

Module Decode.

Definition CHUNKED_EXTENSIONS_LIMIT : Z := 1024 * 16.
Definition TRAILER_LIMIT : Z := 1024 * 16.
Definition DEFAULT_MAX_HEADERS : Z := 100.

Inductive ChunkedState :=
| Start | Size | SizeLws | Extension | SizeLf | Body | BodyCr | BodyLf
| Trailer | TrailerLf | EndCr | EndLf | End.
#[global] Instance ChunkedState_eqdec : EqDecision ChunkedState.
Proof. solve_decision. Defined.

(** The fields of [Kind::Chunked]. *)
Record chunked := mkChunked {
  state : ChunkedState;
  chunk_len : Z;
  extensions_cnt : Z;
  trailers_buf : option bytes;
  trailers_cnt : Z;
  h1_max_headers : option Z;
  h1_max_header_size : option Z
}.

Definition set_state (s : ChunkedState) (c : chunked) : chunked :=
  mkChunked s (chunk_len c) (extensions_cnt c) (trailers_buf c) (trailers_cnt c)
    (h1_max_headers c) (h1_max_header_size c).
Definition set_size (n : Z) (c : chunked) : chunked :=
  mkChunked (state c) n (extensions_cnt c) (trailers_buf c) (trailers_cnt c)
    (h1_max_headers c) (h1_max_header_size c).
Definition set_ext (n : Z) (c : chunked) : chunked :=
  mkChunked (state c) (chunk_len c) n (trailers_buf c) (trailers_cnt c)
    (h1_max_headers c) (h1_max_header_size c).
Definition set_tbuf (b : option bytes) (c : chunked) : chunked :=
  mkChunked (state c) (chunk_len c) (extensions_cnt c) b (trailers_cnt c)
    (h1_max_headers c) (h1_max_header_size c).
Definition set_tcnt (n : Z) (c : chunked) : chunked :=
  mkChunked (state c) (chunk_len c) (extensions_cnt c) (trailers_buf c) n
    (h1_max_headers c) (h1_max_header_size c).

Inductive Kind :=
| Length (remaining : Z)
| Chunked (c : chunked)
| Eof (is_eof : bool).

Record Decoder := mkDecoder { kind : Kind }.

Definition decoder_length (x : Z) : Decoder := mkDecoder (Length x).
Definition decoder_chunked (max_headers max_header_size : option Z) : Decoder :=
  mkDecoder (Chunked (mkChunked Start 0 0 None 0 max_headers max_header_size)).
Definition decoder_eof : Decoder := mkDecoder (Eof false).

Definition decoder_new (l : DecodedLength.DecodedLength) (max_headers max_header_size : option Z)
  : Decoder :=
  if decide (l = DecodedLength.CHUNKED) then decoder_chunked max_headers max_header_size
  else if decide (l = DecodedLength.CLOSE_DELIMITED) then decoder_eof
  else decoder_length (DecodedLength.danger_len l).

Definition is_eof (d : Decoder) : bool :=
  match kind d with
  | Length 0 => true
  | Chunked c => bool_decide (state c = End)
  | Eof true => true
  | _ => false
  end.

(** [Frame<Bytes>] *)
Inductive Frame (H : Type) :=
| FData (data : bytes)
| FTrailers (headers : H).
Arguments FData {H} _.
Arguments FTrailers {H} _.

Section Decode.
Context `{HttpCrate} `{Httparse} {R : Type} `{MemRead R}.

(** What a step of the chunked decoder may touch: the decoder's fields, the
    local [buf] of the loop, and the reader. *)
Record regs := mkRegs { ck : chunked; buf : option bytes; rdr : R }.
Abbreviation DM := (PM io_error regs).

Definition with_ck (f : chunked -> chunked) : DM unit :=
  pmodify (fun s => mkRegs (f (ck s)) (buf s) (rdr s)).
Definition set_buf (b : option bytes) : DM unit :=
  pmodify (fun s => mkRegs (ck s) b (rdr s)).
Definition get_ck : DM chunked := fun s => (RVal (ck s), s).
Definition do_read (n : Z) : DM bytes :=
  fun s => let '(r, rdr') := read_mem n (rdr s) in (r, mkRegs (ck s) (buf s) rdr').

Local Open Scope poll_scope.

(** [byte!(rdr, cx)] *)
Definition read_byte : DM byte :=
  b <~ do_read 1 ;;
  match b with
  | x :: _ => pret x
  | [] => io_fail UnexpectedEof "unexpected EOF during chunk size line"
  end.

(** [or_overflow!(e)] *)
Definition or_overflow (e : option Z) : DM Z :=
  match e with
  | Some val => pret val
  | None => io_fail InvalidData "invalid chunk size: overflow"
  end.

(** [put_u8!(trailers_buf, byte, limit)] on a buffer [b]. *)
Definition put_u8 (b : bytes) (x : byte) (limit : Z) : DM unit :=
  with_ck (set_tbuf (Some (b ++ [x]))) ;;
  if limit <=? len (b ++ [x]) then io_fail InvalidData "chunk trailers bytes over limit"
  else pret tt.

(** The two assignments every digit arm makes. *)
Definition push_size (d : Z) : DM unit :=
  c <~ get_ck ;;
  m <~ or_overflow (checked_mul (chunk_len c) 16) ;;
  with_ck (set_size m) ;;
  n <~ or_overflow (checked_add m d) ;;
  with_ck (set_size n).

Definition is_range (lo hi b : byte) : bool := (lo <=? b) && (b <=? hi).

Definition read_start : DM ChunkedState :=
  b <~ read_byte ;;
  if is_range 48 57 b then push_size (b - 48) ;; pret Size
  else if is_range 97 102 b then push_size (b + 10 - 97) ;; pret Size
  else if is_range 65 70 b then push_size (b + 10 - 65) ;; pret Size
  else io_fail InvalidInput "Invalid chunk size line: missing size digit".

Definition read_size : DM ChunkedState :=
  b <~ read_byte ;;
  if is_range 48 57 b then push_size (b - 48) ;; pret Size
  else if is_range 97 102 b then push_size (b + 10 - 97) ;; pret Size
  else if is_range 65 70 b then push_size (b + 10 - 65) ;; pret Size
  else if (b =? 9) || (b =? 32) then pret SizeLws
  else if b =? 59 then pret Extension
  else if b =? CR then pret SizeLf
  else io_fail InvalidInput "Invalid chunk size line: Invalid Size".

Definition read_size_lws : DM ChunkedState :=
  b <~ read_byte ;;
  if (b =? 9) || (b =? 32) then pret SizeLws
  else if b =? 59 then pret Extension
  else if b =? CR then pret SizeLf
  else io_fail InvalidInput "Invalid chunk size linear white space".

Definition read_extension : DM ChunkedState :=
  b <~ read_byte ;;
  if b =? CR then pret SizeLf
  else if b =? LF then io_fail InvalidData "invalid chunk extension contains newline"
  else
    c <~ get_ck ;;
    let cnt := wadd (extensions_cnt c) 1 in
    with_ck (set_ext cnt) ;;
    if CHUNKED_EXTENSIONS_LIMIT <=? cnt then io_fail InvalidData "chunk extensions over limit"
    else pret Extension.

Definition read_size_lf (size : Z) : DM ChunkedState :=
  b <~ read_byte ;;
  if b =? LF then (if size =? 0 then pret EndCr else pret Body)
  else io_fail InvalidInput "Invalid chunk size LF".

Definition read_body : DM ChunkedState :=
  c <~ get_ck ;;
  let rem := chunk_len c in
  let rem_cap := if usize_max <? rem then usize_max else rem in
  slice <~ do_read rem_cap ;;
  let count := len slice in
  if count =? 0 then
    with_ck (set_size 0) ;;
    io_fail UnexpectedEof "end of file before message length reached"
  else
    set_buf (Some slice) ;;
    with_ck (set_size (wsub rem count)) ;;
    if 0 <? wsub rem count then pret Body else pret BodyCr.

Definition read_body_cr : DM ChunkedState :=
  b <~ read_byte ;;
  if b =? CR then pret BodyLf else io_fail InvalidInput "Invalid chunk body CR".

Definition read_body_lf : DM ChunkedState :=
  b <~ read_byte ;;
  if b =? LF then pret Start else io_fail InvalidInput "Invalid chunk body LF".

Definition read_trailer (max_header_size : Z) : DM ChunkedState :=
  b <~ read_byte ;;
  c <~ get_ck ;;
  match trailers_buf c with
  | None => ppanic (* .expect("trailers_buf is None") *)
  | Some tb =>
      put_u8 tb b max_header_size ;;
      if b =? CR then pret TrailerLf else pret Trailer
  end.

Definition read_trailer_lf (max_headers max_header_size : Z) : DM ChunkedState :=
  b <~ read_byte ;;
  if b =? LF then
    c <~ get_ck ;;
    if max_headers <=? trailers_cnt c then io_fail InvalidData "chunk trailers count overflow"
    else
      with_ck (set_tcnt (wadd (trailers_cnt c) 1)) ;;
      match trailers_buf c with
      | None => ppanic (* .expect("trailers_buf is None") *)
      | Some tb => put_u8 tb b max_header_size ;; pret EndCr
      end
  else io_fail InvalidInput "Invalid trailer end LF".

Definition read_end_cr (max_header_size : Z) : DM ChunkedState :=
  b <~ read_byte ;;
  c <~ get_ck ;;
  if b =? CR then
    match trailers_buf c with
    | Some tb => put_u8 tb b max_header_size ;; pret EndLf
    | None => pret EndLf
    end
  else
    match trailers_buf c with
    | None => with_ck (set_tbuf (Some [b])) ;; pret Trailer
    | Some tb => put_u8 tb b max_header_size ;; pret Trailer
    end.

Definition read_end_lf (max_header_size : Z) : DM ChunkedState :=
  b <~ read_byte ;;
  c <~ get_ck ;;
  if b =? LF then
    match trailers_buf c with
    | Some tb => put_u8 tb b max_header_size ;; pret End
    | None => pret End
    end
  else io_fail InvalidInput "Invalid chunk end LF".

Definition step (max_headers max_header_size : Z) : DM ChunkedState :=
  c <~ get_ck ;;
  match state c with
  | Start => read_start
  | Size => read_size
  | SizeLws => read_size_lws
  | Extension => read_extension
  | SizeLf => read_size_lf (chunk_len c)
  | Body => read_body
  | BodyCr => read_body_cr
  | BodyLf => read_body_lf
  | Trailer => read_trailer max_header_size
  | TrailerLf => read_trailer_lf max_headers max_header_size
  | EndCr => read_end_cr max_header_size
  | EndLf => read_end_lf max_header_size
  | End => pret End
  end.

(** [decode_trailers]: collect the parsed headers into a map. *)
Fixpoint collect_trailers (hs : list RawHeader) (trailers : HeaderMap)
  : result HeaderMap io_error :=
  match hs with
  | [] => Ok trailers
  | h :: hs' =>
      match hn_from_bytes (rh_name h) with
      | None => Err (IoError InvalidInput "Invalid header name")
      | Some name =>
          match hv_from_bytes (rh_value h) with
          | None => Err (IoError InvalidInput "Invalid header value")
          | Some value => collect_trailers hs' (hm_insert name value trailers)
          end
      end
  end.
Definition decode_trailers (b : bytes) (count : Z) : result HeaderMap io_error :=
  match hp_parse_headers b count with
  | Ok (Some (_, hs)) => collect_trailers hs hm_new
  | Ok None => Err (IoError InvalidInput "Partial header")
  | Err _ => Err (IoError InvalidInput "httparse error")
  end.

(** The end of the body: hand out the trailers, if any were received. *)
Definition finish_chunked (max_headers : Z) : DM (Frame HeaderMap) :=
  c <~ get_ck ;;
  match trailers_buf c with
  | Some tb =>
      if max_headers <=? trailers_cnt c then io_fail InvalidData "chunk trailers count overflow"
      else
        with_ck (set_tbuf None) ;;
        match decode_trailers tb (trailers_cnt c) with
        | Ok hs => pret (FTrailers hs)
        | Err e => pfail e
        end
  | None => pret (FData [])
  end.

(** The [loop] of the [Chunked] arm. *)
Fixpoint chunked_loop (max_headers max_header_size : Z) (fuel : nat) : DM (Frame HeaderMap) :=
  match fuel with
  | O => fun s => (RFuel, s)
  | S fuel =>
      set_buf None ;;
      st <~ step max_headers max_header_size ;;
      with_ck (set_state st) ;;
      if bool_decide (st = End) then finish_chunked max_headers
      else
        fun s => match buf s with
                 | Some b => (RVal (FData b), s)
                 | None => chunked_loop max_headers max_header_size fuel s
                 end
  end.

(** [Decoder::decode]: the decoder and the reader are updated in place. *)
Definition decode (fuel : nat) (d : Decoder) (r : R)
  : poll_res io_error (Frame HeaderMap) * (Decoder * R) :=
  match kind d with
  | Length remaining =>
      if remaining =? 0 then (RVal (FData []), (d, r))
      else
        match read_mem remaining r with
        | (RVal b, r') =>
            let num := len b in
            if remaining <? num then (RVal (FData b), (mkDecoder (Length 0), r'))
            else if num =? 0 then
              (RErr (IoError UnexpectedEof "end of file before message length reached"), (d, r'))
            else (RVal (FData b), (mkDecoder (Length (remaining - num)), r'))
        | (RPending, r') => (RPending, (d, r'))
        | (RErr e, r') => (RErr e, (d, r'))
        | (RPanic, r') => (RPanic, (d, r'))
        | (RFuel, r') => (RFuel, (d, r'))
        end
  | Chunked c =>
      let max_headers := default DEFAULT_MAX_HEADERS (h1_max_headers c) in
      let max_header_size := default TRAILER_LIMIT (h1_max_header_size c) in
      let '(res, s) := chunked_loop max_headers max_header_size fuel (mkRegs c None r) in
      (res, (mkDecoder (Chunked (ck s)), rdr s))
  | Eof is_eof =>
      if is_eof then (RVal (FData []), (d, r))
      else
        match read_mem 8192 r with
        | (RVal b, r') => (RVal (FData b), (mkDecoder (Eof (len b =? 0)), r'))
        | (RPending, r') => (RPending, (d, r'))
        | (RErr e, r') => (RErr e, (d, r'))
        | (RPanic, r') => (RPanic, (d, r'))
        | (RFuel, r') => (RFuel, (d, r'))
        end
  end.
End Decode.
End Decode.
