(* ===== verification/Error.v ===== *)
(** * Errors of the core (src/src/core/error.rs)

    An error is a kind and, optionally, the error that caused it.  Causes are
    boxed trait objects in the program; the model keeps the ones the protocol
    code attaches. *)

From S2P Require Import Prelude Decode.

Module Error.

Inductive Header := Token | ContentLengthInvalid | TransferEncodingUnexpected.

Inductive Parse :=
| PMethod | PVersion | PVersionH2 | PUri | PHeader (h : Header) | PTooLarge | PStatus | PInternal.

Inductive User :=
| UBody | BodyWriteAborted | InvalidConnectWithBody | Service | NoUpgrade | ManualUpgrade | DispatchGone.

Inductive Kind :=
| KParse (p : Parse) | KUser (u : User) | IncompleteMessage | UnexpectedMessage | Canceled
| ChannelClosed | KIo | KBody | KBodyWrite | KShutdown | KHttp2.

(** An error of the http2 crate: it has a reason code, is the transport's, or neither. *)
Inductive H2Error := H2Reason (reason : Z) | H2User | H2Io (e : io_error).
Definition h2_error_reason (e : H2Error) : option Z := match e with H2Reason r => Some r | _ => None end.

Inductive Cause :=
| CauseIo (e : io_error)
| CauseH2 (e : H2Error)
| CauseKeepAlive
| CauseNotEof (remaining : Z)
| CauseText (msg : string)
| CauseError (k : Kind).  (* another error of this type, by its kind *)

Record Error := mkError { kind : Kind; cause : option Cause }.

#[global] Instance Header_eqdec : EqDecision Header.
Proof. solve_decision. Defined.
#[global] Instance Parse_eqdec : EqDecision Parse.
Proof. solve_decision. Defined.
#[global] Instance User_eqdec : EqDecision User.
Proof. solve_decision. Defined.
#[global] Instance Kind_eqdec : EqDecision Kind.
Proof. solve_decision. Defined.

Definition new (k : Kind) : Error := mkError k None.
Definition with_cause (c : Cause) (e : Error) : Error := mkError (kind e) (Some c).

Definition is_parse (e : Error) : bool := match kind e with KParse _ => true | _ => false end.
Definition is_user (e : Error) : bool := match kind e with KUser _ => true | _ => false end.
Definition is_canceled (e : Error) : bool := bool_decide (kind e = Canceled).
Definition is_closed (e : Error) : bool := bool_decide (kind e = ChannelClosed).
Definition is_incomplete_message (e : Error) : bool := bool_decide (kind e = IncompleteMessage).
Definition is_body_write_aborted (e : Error) : bool := bool_decide (kind e = KUser BodyWriteAborted).

Definition new_canceled : Error := new Canceled.
Definition new_incomplete : Error := new IncompleteMessage.
Definition new_too_large : Error := new (KParse PTooLarge).
Definition new_version_h2 : Error := new (KParse PVersionH2).
Definition new_unexpected_message : Error := new UnexpectedMessage.
Definition new_io (c : io_error) : Error := with_cause (CauseIo c) (new KIo).
Definition new_closed : Error := new ChannelClosed.
Definition new_body (c : Cause) : Error := with_cause c (new KBody).
Definition new_body_write (c : Cause) : Error := with_cause c (new KBodyWrite).
Definition new_body_write_aborted : Error := new (KUser BodyWriteAborted).
Definition new_user_service (c : Cause) : Error := with_cause c (new (KUser Service)).
Definition new_user_body (c : Cause) : Error := with_cause c (new (KUser UBody)).
Definition new_user_dispatch_gone : Error := new (KUser DispatchGone).
Definition new_shutdown (c : io_error) : Error := with_cause (CauseIo c) (new KShutdown).

Definition new_user_invalid_connect : Error := new (KUser InvalidConnectWithBody).

Definition new_h2 (c : H2Error) : Error :=
  match c with H2Io e => new_io e | _ => with_cause (CauseH2 c) (new KHttp2) end.
(** [KeepAliveTimedOut::crate_error] (src/src/core/proto/h2/ping.rs) *)
Definition new_keep_alive_timed_out : Error := with_cause CauseKeepAlive (new KHttp2).

(** Reason codes of HTTP/2. *)
Definition NO_ERROR : Z := 0.
Definition INTERNAL_ERROR : Z := 2.
Definition STREAM_CLOSED : Z := 5.
Definition CANCEL : Z := 8.

(** The reason of the error that is the cause, if it is one of the http2 crate. *)
Definition h2_reason (e : Error) : Z :=
  match cause e with Some (CauseH2 c) => default INTERNAL_ERROR (h2_error_reason c) | _ => INTERNAL_ERROR end.

(** [impl From<Parse> for Error] *)
Definition from_parse (p : Parse) : Error := new (KParse p).

(** [impl From<httparse::Error> for Parse] *)
Definition parse_of_httparse (e : HpError) : Parse :=
  match e with
  | HpHeaderName | HpHeaderValue | HpNewLine | HpToken => PHeader Token
  | HpStatus => PStatus
  | HpTooManyHeaders => PTooLarge
  | HpVersion => PVersion
  end.

End Error.
