(* ===== verification/RefHttparse.v ===== *)
(** * A concrete header parser

    [Httparse] is an interface: the parser crate is not part of the program.
    This file supplies a small executable instance of it (lines ended by CRLF,
    optional white space around values, no folding), at which the theorems that
    assume the interface are evaluated. *)

From S2P Require Import Prelude Http Decode.

Module RefHttparse.

(** The line up to the first CRLF, and what follows it. *)
Fixpoint line (s : bytes) : option (bytes * bytes) :=
  match s with
  | a :: ((b :: s') as t) =>
      if (a =? CR) && (b =? LF) then Some ([], s')
      else '(l, r) ← line t; Some (a :: l, r)
  | _ => None
  end.

Fixpoint until (sep : byte) (s : bytes) : option (bytes * bytes) :=
  match s with
  | [] => None
  | b :: s' => if b =? sep then Some ([], s') else '(l, r) ← until sep s'; Some (b :: l, r)
  end.

Fixpoint headers (fuel : nat) (off : Z) (s : bytes) (max : Z)
  : result (option (Z * list RawHeader)) HpError :=
  match fuel with
  | O => Ok None
  | S fuel =>
      match line s with
      | None => Ok None
      | Some ([], _) => Ok (Some (off + 2, []))
      | Some (l, rest) =>
          if max <=? 0 then Err HpTooManyHeaders
          else
            match until 58 l with
            | None => Err HpHeaderName
            | Some (name, v) =>
                let value := trim_end (trim_start v) in
                let voff := off + len name + 1 + (len v - len (trim_start v)) in
                match headers fuel (off + len l + 2) rest (max - 1) with
                | Ok (Some (n, hs)) => Ok (Some (n, mkRawHeader name off value voff :: hs))
                | r => r
                end
            end
      end
  end.

(** [HTTP/1.x CODE REASON] *)
Definition status_line (l : bytes) : result (Z * Z * bytes) HpError :=
  let minor := nth 7 l 0 in
  if bool_decide (take 7 l = bs "HTTP/1.") then
    if (minor =? 48) || (minor =? 49) then
      match acc_digits 10 dec_digit 0 (take 3 (drop 9 l)) with
      | Some code => Ok (minor - 48, code, drop 13 l)
      | None => Err HpStatus
      end
    else Err HpVersion
  else Err HpVersion.

#[export] Instance ref_httparse : Httparse := {|
  hp_config := bool;
  hp_default_config := false;
  hp_obs_fold_allowed := id;
  hp_parse_headers := fun s max => headers (S (length s)) 0 s max;
  hp_parse_response := fun _ s max =>
    match line s with
    | None => Ok None
    | Some (l, rest) =>
        match status_line l with
        | Err e => Err e
        | Ok (v, code, reason) =>
            match headers (S (length s)) (len l + 2) rest max with
            | Err e => Err e
            | Ok None => Ok None
            | Ok (Some (n, hs)) => Ok (Some (mkRawResponse n code reason v hs))
            end
        end
    end
|}.

End RefHttparse.
