(* ===== verification/DecodeFacts.v ===== *)
(** * The chunked decoder refines a byte-at-a-time automaton

    [feed] runs the decoder's [step] on a single byte.  The refinement lemmas
    show that a call to [decode] on any lawful reader consumes some prefix of
    the reader's stream and does to the decoder's fields exactly what feeding
    that prefix byte by byte does: how the transport cuts the stream into reads,
    and how often it is not ready, makes no difference.  On the way: the
    decoder's invariant, the absence of panics, and termination. *)

From S2P Require Import Prelude Http Decode.
Import Decode.

(** ** Readers over an in-memory slice *)

(** Reading from [&[u8]]: always ready, empty at the end. *)
#[global] Instance slice_read : MemRead bytes := {|
  read_mem := fun n s => (RVal (ztake n s), zdrop n s)
|}.

#[global] Program Instance slice_read_laws : MemReadLaws bytes := {|
  rd_wf := fun _ => True; stream := id
|}.
Next Obligation.
  intros n s b s' _ Hn [= <- <-]. split; [done|]. unfold id. rewrite ztake_zdrop. split; [done|].
  rewrite len_ztake by lia. split; [lia|]. intros E%(f_equal len).
  rewrite len_ztake in E by lia. apply len_zero. len_lia.
Qed.
Next Obligation. done. Qed.
Next Obligation. done. Qed.

Section Refinement.
Context `{HttpCrate} `{Httparse}.
Variables max_headers max_header_size : Z.

(** ** The automaton *)

Definition feed (c : chunked) (b : byte) : option (chunked * bytes) :=
  if bool_decide (state c = End) then None
  else
    match step max_headers max_header_size (mkRegs c None [b]) with
    | (RVal st, s) => Some (set_state st (ck s), default [] (buf s))
    | _ => None
    end.

Fixpoint feed_all (c : chunked) (p : bytes) : option (chunked * bytes) :=
  match p with
  | [] => Some (c, [])
  | b :: p' =>
      '(c1, o1) ← feed c b; '(c2, o2) ← feed_all c1 p'; Some (c2, o1 ++ o2)
  end.

Lemma feed_all_app c p q :
  feed_all c (p ++ q) =
  ('(c1, o1) ← feed_all c p; '(c2, o2) ← feed_all c1 q; Some (c2, o1 ++ o2)).
Proof.
  revert c. induction p as [|b p IH]; intros c; cbn.
  { by destruct (feed_all c q) as [[]|]. }
  destruct (feed c b) as [[c1 o1]|]; [|done]. cbn. rewrite IH.
  destruct (feed_all c1 p) as [[c2 o2]|]; [|done]. cbn.
  destruct (feed_all c2 q) as [[c3 o3]|]; [|done]. cbn. by rewrite app_assoc.
Qed.

(** Nothing is consumed after the end. *)
Lemma feed_all_end c p c' o :
  state c = End -> feed_all c p = Some (c', o) -> p = [].
Proof.
  intros Hs. destruct p; [done|]. cbn. unfold feed. by rewrite bool_decide_eq_true_2.
Qed.

(** ** The invariant *)

Definition in_trailer (s : ChunkedState) : bool :=
  match s with Trailer | TrailerLf => true | _ => false end.
Definition in_size (s : ChunkedState) : bool :=
  match s with Size | SizeLws | Extension | SizeLf | Body => true | _ => false end.

(** The limits the loop runs with are the decoder's own. *)
Definition limits_ok (c : chunked) : Prop :=
  default DEFAULT_MAX_HEADERS (h1_max_headers c) = max_headers /\
  default TRAILER_LIMIT (h1_max_header_size c) = max_header_size.

Definition chunked_wf (c : chunked) : Prop :=
  wf_u64 (chunk_len c) /\
  (in_size (state c) = false -> chunk_len c = 0) /\
  (state c = Body -> 0 < chunk_len c) /\
  0 <= extensions_cnt c < CHUNKED_EXTENSIONS_LIMIT /\
  0 <= trailers_cnt c <= Z.max 0 max_headers /\
  (in_trailer (state c) = true -> is_Some (trailers_buf c)) /\
  (forall tb, trailers_buf c = Some tb -> len tb <= Z.max 1 (max_header_size - 1)) /\
  limits_ok c.

Lemma chunked_new_wf mh ms :
  default DEFAULT_MAX_HEADERS mh = max_headers -> default TRAILER_LIMIT ms = max_header_size ->
  chunked_wf (mkChunked Start 0 0 None 0 mh ms).
Proof.
  intros. unfold chunked_wf, wf_u64, u64_max, CHUNKED_EXTENSIONS_LIMIT. cbn. split_and!; (done || lia).
Qed.

(** ** The automaton keeps the invariant and never panics *)

Lemma push_size_run {R} (s : @regs R) d :
  match push_digit 16 (chunk_len (ck s)) d with
  | Some n => push_size d s = (RVal tt, mkRegs (set_size n (ck s)) (buf s) (rdr s))
  | None => exists e s', push_size d s = (RErr e, s')
  end.
Proof.
  unfold push_size, push_digit, pbind, get_ck.
  destruct (checked_mul (chunk_len (ck s)) 16) as [m|]; cbn; [|by eauto].
  destruct (checked_add m d) as [n|]; cbn; [done | by eauto].
Qed.

Lemma put_u8_run {R} (s : @regs R) b x lim :
  exists r, put_u8 b x lim s = (r, mkRegs (set_tbuf (Some (b ++ [x])) (ck s)) (buf s) (rdr s)) /\
    ((r = RVal tt /\ len (b ++ [x]) < lim) \/ exists e, r = RErr e).
Proof.
  unfold put_u8, pbind, with_ck, pmodify. destruct (Z.leb_spec lim (len (b ++ [x]))); eauto 6.
Qed.

(** What a step may do to the fields. *)
Definition step_ok {R} (out : poll_res io_error ChunkedState * @regs R) : Prop :=
  match out with
  | (RVal st, s) => chunked_wf (set_state st (ck s))
  | (RErr _, _) => True
  | _ => False
  end.

Lemma push_size_ok {R} (s : @regs R) d :
  chunked_wf (ck s) -> 0 <= d < 16 ->
  step_ok (pbind (push_size d) (fun _ => pret Size) s).
Proof.
  intros (Hl & _ & _ & He & Ht & _ & Hb & ?) Hd. pose proof (push_size_run s d) as E. unfold pbind.
  destruct (push_digit 16 (chunk_len (ck s)) d) as [n|] eqn:P; [|by destruct E as (e & s' & ->)].
  rewrite E. apply push_digit_inv in P as [-> P]. unfold wf_u64 in *.
  unfold step_ok, chunked_wf, wf_u64. cbn. split_and!; (done || lia).
Qed.

Lemma put_u8_ok {R} (s : @regs R) tb x st :
  chunked_wf (ck s) -> chunk_len (ck s) = 0 -> st <> Body ->
  step_ok (pbind (put_u8 tb x max_header_size) (fun _ => pret st) s).
Proof.
  intros (Hl & _ & _ & He & Ht & _ & _ & ?) Hz Hst.
  destruct (put_u8_run s tb x max_header_size) as (r & E & [[-> Hlt]|[e ->]]);
    unfold pbind; rewrite E; [|done].
  unfold step_ok, chunked_wf. cbn. split_and!; try (done || lia).
  intros ? [= <-]. lia.
Qed.

(** A state change that leaves every other field alone. *)
Lemma move_ok {R} (s : @regs R) st :
  chunked_wf (ck s) -> (in_size st = true \/ chunk_len (ck s) = 0) ->
  (st = Body -> 0 < chunk_len (ck s)) -> in_trailer st = false ->
  step_ok (pret st s).
Proof.
  intros (? & ? & ? & ? & ? & ? & ? & ?) Hsz Hb Ht. unfold step_ok, pret, chunked_wf. cbn.
  rewrite Ht. split_and!; try (done || lia). intros E. rewrite E in Hsz. by destruct Hsz.
Qed.

Lemma extension_ok {R} (s : @regs R) :
  chunked_wf (ck s) ->
  step_ok ((c <~ get_ck ;;
    let cnt := wadd (extensions_cnt c) 1 in
    with_ck (set_ext cnt) ;;
    if CHUNKED_EXTENSIONS_LIMIT <=? cnt then io_fail InvalidData "chunk extensions over limit"
    else pret Extension)%poll s).
Proof.
  intros (? & ? & ? & ? & ? & ? & ? & ?). unfold pbind, get_ck, with_ck, pmodify. cbv zeta.
  rewrite wadd_small by (unfold CHUNKED_EXTENSIONS_LIMIT, u64_max in *; lia).
  destruct (Z.leb_spec CHUNKED_EXTENSIONS_LIMIT (extensions_cnt (ck s) + 1)); [done|].
  unfold step_ok, pret, chunked_wf. cbn. split_and!; (done || lia).
Qed.

Lemma trailer_lf_ok {R} (s : @regs R) b :
  chunked_wf (ck s) -> state (ck s) = TrailerLf ->
  step_ok ((c <~ get_ck ;;
    if max_headers <=? trailers_cnt c then io_fail InvalidData "chunk trailers count overflow"
    else
      with_ck (set_tcnt (wadd (trailers_cnt c) 1)) ;;
      match trailers_buf c with
      | None => ppanic
      | Some tb => put_u8 tb b max_header_size ;; pret EndCr
      end)%poll s).
Proof.
  intros (? & Hsz & ? & ? & ? & Htb & ? & ?) Hs. rewrite Hs in *.
  unfold pbind at 1, get_ck. destruct (Z.leb_spec max_headers (trailers_cnt (ck s))); [done|].
  unfold pbind at 1, with_ck, pmodify. destruct (Htb eq_refl) as [tb E]. rewrite E.
  apply put_u8_ok; [|by apply Hsz|done]. cbn. unfold wadd.
  unfold chunked_wf. cbn. rewrite Hs.
  assert ((trailers_cnt (ck s) + 1) mod (u64_max + 1) <= trailers_cnt (ck s) + 1)
    by (apply Z.mod_le; unfold u64_max; lia).
  pose proof (Z.mod_pos_bound (trailers_cnt (ck s) + 1) (u64_max + 1) ltac:(unfold u64_max; lia)).
  split_and!; (done || lia).
Qed.

Lemma do_read_one c b n :
  0 < n -> do_read n (mkRegs c None [b]) = (RVal [b], mkRegs c None ([] : bytes)).
Proof.
  intros. unfold do_read. cbn [read_mem slice_read rdr].
  rewrite ztake_ge, zdrop_ge by (change (len [b]) with 1; lia). done.
Qed.

Ltac after_byte := rewrite (pbind_val _ _ _ _ (mkRegs _ None [])) by reflexivity.

Lemma step_slice_ok c b :
  chunked_wf c -> state c <> End ->
  step_ok (step max_headers max_header_size (mkRegs c None [b])).
Proof.
  intros Hc He. pose proof Hc as (Hl & Hsz & Hbd & _ & _ & Htb & Hlim & _).
  unfold step, get_ck. rewrite (pbind_val _ _ _ c (mkRegs c None [b])) by done.
  destruct (state c) eqn:Es; try done; cbn [in_size in_trailer] in *.
  - unfold read_start, is_range. after_byte.
    repeat case_match; zbool; first [by apply push_size_ok; [|lia] | done].
  - unfold read_size, is_range. after_byte.
    repeat case_match; zbool; first [by apply push_size_ok; [|lia] | by apply move_ok; auto | done].
  - unfold read_size_lws. after_byte. repeat case_match; first [by apply move_ok; auto | done].
  - unfold read_extension. after_byte.
    repeat case_match; first [by apply move_ok; auto | done | by apply extension_ok].
  - unfold read_size_lf. after_byte. unfold wf_u64 in Hl.
    repeat case_match; zbool; [by apply move_ok; auto | apply move_ok; [done | by left | cbn; lia | done] | done].
  - specialize (Hbd eq_refl). destruct Hl as [Hl Hl2].
    unfold read_body, get_ck. rewrite (pbind_val _ _ _ c (mkRegs c None [b])) by done.
    unfold usize_max. rewrite (proj2 (Z.ltb_ge _ _)) by lia.
    rewrite (pbind_val _ _ _ [b] (mkRegs c None [])) by (by apply do_read_one).
    cbv zeta. change (len [b]) with 1. rewrite wsub_small by lia.
    unfold pbind, set_buf, with_ck, pmodify. cbn -[Z.ltb Z.sub].
    destruct (Z.ltb_spec 0 (chunk_len c - 1)); unfold step_ok, chunked_wf, wf_u64; cbn -[Z.sub];
      destruct Hc as (_ & _ & _ & ? & ? & ? & ? & ?); split_and!; (done || lia).
  - unfold read_body_cr. after_byte. case_match; [apply move_ok; auto; done | done].
  - unfold read_body_lf. after_byte. case_match; [apply move_ok; auto; done | done].
  - unfold read_trailer, get_ck. after_byte. rewrite (pbind_val _ _ _ c (mkRegs c None [])) by done.
    destruct (Htb eq_refl) as [tb ->]. case_match; apply put_u8_ok; auto; done.
  - unfold read_trailer_lf. after_byte. case_match; [by apply trailer_lf_ok | done].
  - unfold read_end_cr, get_ck. after_byte. rewrite (pbind_val _ _ _ c (mkRegs c None [])) by done.
    repeat case_match; first [apply put_u8_ok; auto; done | apply move_ok; auto; done | idtac].
    destruct Hc as (? & ? & ? & ? & ? & ? & ? & ?). unfold step_ok, pbind, with_ck, pmodify, pret, chunked_wf.
    cbn. split_and!; try (done || lia || auto). intros ? [= <-]. change (len [b]) with 1. lia.
  - unfold read_end_lf, get_ck. after_byte. rewrite (pbind_val _ _ _ c (mkRegs c None [])) by done.
    repeat case_match; first [apply put_u8_ok; auto; done | apply move_ok; auto; done | done].
Qed.

Lemma feed_wf c b c' o : chunked_wf c -> feed c b = Some (c', o) -> chunked_wf c'.
Proof.
  unfold feed. intros Hc. case_bool_decide; [done|]. pose proof (step_slice_ok c b Hc H1) as Hs.
  destruct (step _ _ _) as [[st| | | |] s]; naive_solver.
Qed.

Lemma feed_all_wf c p c' o : chunked_wf c -> feed_all c p = Some (c', o) -> chunked_wf c'.
Proof.
  revert c o. induction p as [|b p IH]; cbn; intros c o Hc E; [naive_solver|].
  destruct (feed c b) as [[c1 o1]|] eqn:E1; [|done]. cbn in E. apply feed_wf in E1; [|done].
  destruct (feed_all c1 p) as [[c2 o2]|] eqn:E2; [|done]. naive_solver.
Qed.

(** Feeding the bytes of a chunk hands them out one by one. *)
Lemma feed_body c b :
  state c = Body -> 0 < chunk_len c <= u64_max ->
  feed c b = Some (set_state (if 0 <? chunk_len c - 1 then Body else BodyCr)
                     (set_size (chunk_len c - 1) c), [b]).
Proof.
  intros Es Hl. unfold feed. rewrite bool_decide_eq_false_2 by (by rewrite Es).
  unfold step, get_ck. rewrite (pbind_val _ _ _ c (mkRegs c None [b])) by done. rewrite Es.
  unfold read_body, get_ck. rewrite (pbind_val _ _ _ c (mkRegs c None [b])) by done.
  unfold usize_max. rewrite (proj2 (Z.ltb_ge _ _)) by lia.
  rewrite (pbind_val _ _ _ [b] (mkRegs c None [])) by (apply do_read_one; lia).
  cbv zeta. change (len [b]) with 1. rewrite wsub_small by lia.
  unfold pbind, set_buf, with_ck, pmodify. cbn -[Z.ltb Z.sub].
  by destruct (0 <? chunk_len c - 1).
Qed.

Lemma feed_all_body c p :
  state c = Body -> chunk_len c <= u64_max -> p <> [] -> len p <= chunk_len c ->
  feed_all c p = Some (set_state (if 0 <? chunk_len c - len p then Body else BodyCr)
                         (set_size (chunk_len c - len p) c), p).
Proof.
  revert c. induction p as [|b p IH]; intros c Es Hl Hne Hle; [done|]. cbn [feed_all].
  rewrite len_cons in Hle. pose proof (len_nonneg p). rewrite feed_body by (done || lia).
  cbn [mbind option_bind]. destruct p as [|b' p'] eqn:Ep; [done|]. rewrite <-Ep in *.
  assert (0 < len p) by (subst p; len_lia).
  rewrite (proj2 (Z.ltb_lt 0 (chunk_len c - 1))) by lia.
  rewrite IH; cbn [state chunk_len set_state set_size]; [|done|lia|by subst p|lia].
  cbn [mbind option_bind app]. rewrite len_cons.
  replace (chunk_len c - 1 - len p) with (chunk_len c - (1 + len p)) by lia. done.
Qed.

(** ** One byte through the reader, one byte through the automaton *)

Section Reader.
Context {R : Type} `{MemReadLaws R}.

Lemma read_byte_val (s : regs) b s' :
  rd_wf (rdr s) -> read_byte s = (RVal b, s') ->
  ck s' = ck s /\ buf s' = buf s /\ rd_wf (rdr s') /\ stream (rdr s) = b :: stream (rdr s').
Proof.
  intros Hw E. apply pbind_inv in E as (l & s1 & E1 & E2). unfold do_read in E1.
  destruct (read_mem 1 (rdr s)) as [res r1] eqn:Er. simplify_eq/=.
  apply read_mem_val in Er as (Hw1 & Est & Hlen & _); [|done|lia].
  destruct l as [|x l]; [done|]. cbn in E2. injection E2 as <- <-. cbn.
  rewrite len_cons in Hlen. assert (l = []) as -> by (apply len_zero; len_lia).
  done.
Qed.

Lemma read_byte_other (s : regs) :
  rd_wf (rdr s) ->
  match read_byte s with
  | (RVal _, _) => True
  | (RPending, s') => ck s' = ck s /\ buf s' = buf s /\ rd_wf (rdr s') /\ stream (rdr s') = stream (rdr s)
  | (RErr _, s') => ck s' = ck s
  | (RPanic, _) => False
  | (RFuel, _) => False
  end.
Proof.
  intros Hw. unfold read_byte, pbind, do_read.
  pose proof (fun r' => read_mem_total 1 (rdr s) r' Hw ltac:(lia)) as Ht.
  destruct (read_mem 1 (rdr s)) as [[l| | | |] r1] eqn:Er; cbn.
  - by destruct l.
  - apply read_mem_pending in Er; [naive_solver | done | lia].
  - done.
  - by destruct (Ht r1).
  - by destruct (Ht r1).
Qed.

Lemma read_body_refines (s : @regs R) :
  rd_wf (rdr s) -> chunked_wf (ck s) -> buf s = None -> state (ck s) = Body ->
  match read_body s with
  | (RVal st, s') =>
      rd_wf (rdr s') /\ exists p, p <> [] /\ stream (rdr s) = p ++ stream (rdr s') /\
        feed_all (ck s) p = Some (set_state st (ck s'), default [] (buf s')) /\
        (forall b, buf s' = Some b -> b <> [] /\ st <> End)
  | (RPending, s') =>
      ck s' = ck s /\ buf s' = None /\ rd_wf (rdr s') /\ stream (rdr s') = stream (rdr s)
  | (RErr _, _) => True
  | _ => False
  end.
Proof.
  intros Hw Hc Hb Es. pose proof Hc as (Hl & _ & Hpos & _). specialize (Hpos Es).
  destruct Hl as [Hl0 Hl].
  unfold read_body, get_ck, pbind at 1. unfold usize_max. rewrite (proj2 (Z.ltb_ge _ _)) by lia.
  cbv zeta. unfold pbind at 1, do_read.
  pose proof (fun r' => read_mem_total (chunk_len (ck s)) (rdr s) r' Hw Hpos) as Ht.
  destruct (read_mem (chunk_len (ck s)) (rdr s)) as [[p| | | |] r1] eqn:Er;
    [| |done|by destruct (Ht r1)..].
  - apply read_mem_val in Er as (Hw1 & Est & Hle & _); [|done..].
    destruct (Z.eqb_spec (len p) 0); [done|]. rewrite wsub_small by len_lia.
    assert (p <> []) as Hp by (intros ->; done).
    unfold pbind, set_buf, with_ck, pmodify. cbn [ck buf rdr].
    pose proof (feed_all_body (ck s) p Es Hl Hp Hle) as Ef.
    destruct (0 <? chunk_len (ck s) - len p); cbn; (split; [done|]);
      exists p; (split_and!; [done..|]); by intros ? [= <-].
  - apply read_mem_pending in Er; [naive_solver | done..].
Qed.

(** Computations that do the same to the decoder's fields and leave their
    readers alone. *)
Definition sim {T} (m1 : PM io_error (@regs R) T) (m2 : PM io_error (@regs bytes) T) : Prop :=
  forall c b r1 r2, exists x c',
    m1 (mkRegs c b r1) = (x, mkRegs c' b r1) /\ m2 (mkRegs c b r2) = (x, mkRegs c' b r2).

Lemma sim_ret {T} (t : T) : sim (pret t) (pret t).
Proof. by intros c b r1 r2; exists (RVal t), c. Qed.
Lemma sim_fail {T} k msg : sim (T:=T) (io_fail k msg) (io_fail k msg).
Proof. by intros c b r1 r2; exists (RErr (IoError k msg)), c. Qed.
Lemma sim_panic {T} : sim (T:=T) ppanic ppanic.
Proof. by intros c b r1 r2; exists RPanic, c. Qed.
Lemma sim_with_ck f : sim (with_ck f) (with_ck f).
Proof. by intros c b r1 r2; exists (RVal tt), (f c). Qed.
Lemma sim_get_ck : sim get_ck get_ck.
Proof. by intros c b r1 r2; exists (RVal c), c. Qed.
Lemma sim_bind {T U} m1 m2 (k1 : T -> PM _ _ U) k2 :
  sim m1 m2 -> (forall t, sim (k1 t) (k2 t)) -> sim (pbind m1 k1) (pbind m2 k2).
Proof.
  intros Hm Hk c b r1 r2. destruct (Hm c b r1 r2) as (x & c' & E1 & E2).
  unfold pbind. rewrite E1, E2. destruct x as [t| | | |]; [apply Hk|by eexists _, _..].
Qed.

Ltac sim_solve :=
  repeat first
    [ apply sim_ret | apply sim_fail | apply sim_panic | apply sim_with_ck | apply sim_get_ck
    | apply sim_bind; [|intros ?]
    | progress unfold push_size | progress unfold put_u8 | progress unfold or_overflow
    | case_match ].

(** Outside [Body] and [End] a step reads one byte and goes on from there. *)
Lemma step_byte (s : @regs R) :
  state (ck s) <> Body -> state (ck s) <> End ->
  exists (K1 : byte -> PM io_error (@regs R) ChunkedState) (K2 : byte -> PM io_error (@regs bytes) ChunkedState),
    step max_headers max_header_size s = pbind read_byte K1 s /\
    (forall b, step max_headers max_header_size (mkRegs (ck s) None [b]) =
               K2 b (mkRegs (ck s) None [])) /\
    forall b, sim (K1 b) (K2 b).
Proof.
  intros Hb He. unfold step at 1, get_ck at 1, pbind at 1.
  assert (forall b, step max_headers max_header_size (mkRegs (ck s) None [b]) =
    match state (ck s) with
    | Start => read_start | Size => read_size | SizeLws => read_size_lws
    | Extension => read_extension | SizeLf => read_size_lf (chunk_len (ck s))
    | Body => read_body | BodyCr => read_body_cr | BodyLf => read_body_lf
    | Trailer => read_trailer max_header_size
    | TrailerLf => read_trailer_lf max_headers max_header_size
    | EndCr => read_end_cr max_header_size | EndLf => read_end_lf max_header_size
    | End => pret End
    end (mkRegs (ck s) None [b])) as Est by done.
  setoid_rewrite Est. clear Est.
  destruct (state (ck s)); try done;
    (eexists _, _; split; [reflexivity|]; split;
     [intros b; apply (pbind_val read_byte); reflexivity|]);
    intros b; cbv beta; sim_solve.
Qed.

(** A step of the decoder is a run of the automaton over what it read. *)
Lemma step_refines (s : @regs R) :
  rd_wf (rdr s) -> chunked_wf (ck s) -> buf s = None -> state (ck s) <> End ->
  match step max_headers max_header_size s with
  | (RVal st, s') =>
      rd_wf (rdr s') /\ exists p, p <> [] /\ stream (rdr s) = p ++ stream (rdr s') /\
        feed_all (ck s) p = Some (set_state st (ck s'), default [] (buf s')) /\
        (forall b, buf s' = Some b -> b <> [] /\ st <> End)
  | (RPending, s') =>
      ck s' = ck s /\ buf s' = None /\ rd_wf (rdr s') /\ stream (rdr s') = stream (rdr s)
  | (RErr _, _) => True
  | _ => False
  end.
Proof.
  intros Hw Hc Hb He. destruct (decide (state (ck s) = Body)) as [Es|Es].
  - unfold step, get_ck, pbind at 1. rewrite Es. by apply read_body_refines.
  - destruct (step_byte s Es He) as (K1 & K2 & -> & E2 & Hsim). unfold pbind.
    pose proof (read_byte_other s Hw) as Ho.
    destruct (read_byte s) as [[b| | | |] s1] eqn:Er;
      [|by destruct Ho as (-> & -> & ? & ->)|done..].
    apply read_byte_val in Er as (Ek & Eb & Hw1 & Est); [|done]. clear Ho.
    pose proof (step_slice_ok (ck s) b Hc He) as Hok. rewrite E2 in Hok.
    destruct s1 as [c1 b1 r1]. cbn in Ek, Eb, Hw1, Est. subst c1 b1. rewrite Hb in *.
    destruct (Hsim b (ck s) None r1 []) as (x & c' & F1 & F2). rewrite F1. rewrite F2 in Hok.
    destruct x as [st| | | |]; cbn in Hok; try done. split; [done|].
    exists [b]. split; [done|]. split; [done|]. cbn [feed_all]. unfold feed.
    rewrite bool_decide_eq_false_2, E2, F2 by done. done.
Qed.

(** What a call to the loop leaves behind. *)
Definition loop_ok (s : @regs R) (out : poll_res io_error (Frame HeaderMap) * @regs R) : Prop :=
  match out with
  | (RVal (FData d), s') =>
      rd_wf (rdr s') /\ exists p, stream (rdr s) = p ++ stream (rdr s') /\
        feed_all (ck s) p = Some (ck s', d) /\
        (d <> [] /\ state (ck s') <> End \/
         d = [] /\ state (ck s') = End /\ trailers_buf (ck s') = None)
  | (RVal (FTrailers h), s') =>
      rd_wf (rdr s') /\ exists p c' tb, stream (rdr s) = p ++ stream (rdr s') /\
        feed_all (ck s) p = Some (c', []) /\ state c' = End /\ ck s' = set_tbuf None c' /\
        trailers_buf c' = Some tb /\ decode_trailers tb (trailers_cnt c') = Ok h
  | (RPending, s') =>
      rd_wf (rdr s') /\ exists p, stream (rdr s) = p ++ stream (rdr s') /\
        feed_all (ck s) p = Some (ck s', []) /\ state (ck s') <> End
  | (RErr _, _) => True
  | (RPanic, _) => False
  | (RFuel, _) => True
  end.

Lemma loop_ok_prefix s s' p out :
  rd_wf (rdr s') -> stream (rdr s) = p ++ stream (rdr s') ->
  feed_all (ck s) p = Some (ck s', []) -> loop_ok s' out -> loop_ok s out.
Proof.
  intros Hw Es Ef. unfold loop_ok. destruct out as [[f| | | |] s2]; try done.
  - destruct f as [d|h].
    + intros (Hw2 & q & Eq & Fq & Hd). split; [done|]. exists (p ++ q).
      rewrite Es, Eq, app_assoc, feed_all_app, Ef. cbn. rewrite Fq. done.
    + intros (Hw2 & q & c' & tb & Eq & Fq & Hrest). split; [done|]. exists (p ++ q), c', tb.
      rewrite Es, Eq, app_assoc, feed_all_app, Ef. cbn. rewrite Fq. done.
  - intros (Hw2 & q & Eq & Fq & Hd). split; [done|]. exists (p ++ q).
    rewrite Es, Eq, app_assoc, feed_all_app, Ef. cbn. rewrite Fq. done.
Qed.

Lemma finish_ok (s : @regs R) :
  rd_wf (rdr s) -> state (ck s) = End -> loop_ok s (finish_chunked max_headers s).
Proof.
  intros Hw He. unfold finish_chunked, pbind at 1, get_ck.
  destruct (trailers_buf (ck s)) as [tb|] eqn:Et.
  - destruct (max_headers <=? trailers_cnt (ck s)); [done|].
    unfold pbind, with_ck, pmodify. destruct (decode_trailers _ _) as [h|e] eqn:Ed; [|done].
    cbn. split; [done|]. exists [], (ck s), tb. done.
  - cbn. split; [done|]. exists []. split_and!; [done..|]. by right.
Qed.

Lemma loop_refines fuel (s : @regs R) :
  rd_wf (rdr s) -> chunked_wf (ck s) -> state (ck s) <> End ->
  loop_ok s (chunked_loop max_headers max_header_size fuel s).
Proof.
  revert s. induction fuel as [|fuel IH]; intros s Hw Hc He; [done|].
  cbn [chunked_loop]. unfold pbind at 1, set_buf, pmodify.
  pose proof (step_refines (mkRegs (ck s) None (rdr s)) Hw Hc eq_refl He) as Hstep.
  unfold pbind at 1. destruct (step _ _ _) as [[st| | | |] s1]; cbn [ck rdr] in Hstep; try done.
  - destruct Hstep as (Hw1 & p & Hp & Es & Ef & Hbuf). unfold pbind at 1, with_ck, pmodify.
    set (s2 := mkRegs (set_state st (ck s1)) (buf s1) (rdr s1)).
    assert (chunked_wf (ck s2)) as Hc2 by (eapply feed_all_wf; [exact Hc | exact Ef]).
    destruct (buf s1) as [b|] eqn:Eb; cbn [default from_option id] in Ef.
    + destruct (bool_decide_reflect (st = End)) as [->|Hst].
      { by destruct (Hbuf b). }
      cbn [buf s2]. split; [done|]. exists p. split; [done|]. split; [exact Ef|].
      left. by destruct (Hbuf b).
    + eapply (loop_ok_prefix s s2 p); [done..|].
      destruct (bool_decide_reflect (st = End)) as [->|Hst]; [by apply finish_ok|].
      cbn [buf s2]. by apply IH.
  - destruct Hstep as (Ek & _ & ? & Est). unfold loop_ok. rewrite Ek, Est. split; [done|]. by exists [].
Qed.

(** Every turn of the loop consumes at least a byte of the stream. *)
Lemma loop_terminates fuel (s : @regs R) :
  rd_wf (rdr s) -> chunked_wf (ck s) -> state (ck s) <> End ->
  (length (stream (rdr s)) < fuel)%nat ->
  (chunked_loop max_headers max_header_size fuel s).1 <> RFuel.
Proof.
  revert s. induction fuel as [|fuel IH]; intros s Hw Hc He Hf; [lia|].
  cbn [chunked_loop]. unfold pbind at 1, set_buf, pmodify.
  pose proof (step_refines (mkRegs (ck s) None (rdr s)) Hw Hc eq_refl He) as Hstep.
  unfold pbind at 1. destruct (step _ _ _) as [[st| | | |] s1]; cbn [ck rdr] in Hstep; try done.
  destruct Hstep as (Hw1 & p & Hp & Es & Ef & Hbuf). unfold pbind at 1, with_ck, pmodify.
  destruct (bool_decide_reflect (st = End)) as [->|Hst].
  { unfold finish_chunked, pbind, get_ck, with_ck, pmodify, io_fail, pfail, pret.
    repeat case_match; done. }
  cbn [buf]. destruct (buf s1) as [b|]; [done|]. apply IH; cbn [rdr ck]; [done| |done|].
  - eapply feed_all_wf; [exact Hc | exact Ef].
  - rewrite Es, length_app in Hf. destruct p; [done|]. cbn in Hf. lia.
Qed.
End Reader.
End Refinement.

(** ** What reading leaves alone, decoding leaves alone *)

Section ReaderInvariant.
Context `{HttpCrate} `{Httparse} {R : Type} `{MemRead R}.
Variable I : R -> Prop.
Hypothesis read_keeps : forall n r, I r -> I (read_mem n r).2.

Definition keeps {A} (m : PM io_error (@regs R) A) : Prop := forall s, I (rdr s) -> I (rdr (m s).2).

Lemma keeps_bind {A C} (m : PM io_error (@regs R) A) (k : A -> PM io_error (@regs R) C) :
  keeps m -> (forall a, keeps (k a)) -> keeps (pbind m k).
Proof.
  intros Hm Hk s Hs. unfold pbind. specialize (Hm s Hs).
  destruct (m s) as [[a| | | |] s']; try done. by apply Hk.
Qed.
Lemma keeps_ret {A} (a : A) : keeps (pret a).
Proof. by intros s. Qed.
Lemma keeps_fail {A} k msg : keeps (A:=A) (io_fail k msg).
Proof. by intros s. Qed.
Lemma keeps_pfail {A} e : keeps (A:=A) (pfail e).
Proof. by intros s. Qed.
Lemma keeps_panic {A} : keeps (A:=A) ppanic.
Proof. by intros s. Qed.
Lemma keeps_with_ck f : keeps (with_ck f).
Proof. by intros s. Qed.
Lemma keeps_set_buf b : keeps (set_buf b).
Proof. by intros s. Qed.
Lemma keeps_get_ck : keeps get_ck.
Proof. by intros s. Qed.
Lemma keeps_do_read n : keeps (do_read n).
Proof.
  intros s Hs. unfold do_read. specialize (read_keeps n (rdr s) Hs).
  by destruct (read_mem n (rdr s)).
Qed.

Ltac keeps_solve :=
  repeat first
    [ apply keeps_ret | apply keeps_fail | apply keeps_pfail | apply keeps_panic | apply keeps_with_ck
    | apply keeps_set_buf | apply keeps_get_ck | apply keeps_do_read
    | apply keeps_bind; [|intros ?]
    | progress unfold read_byte, push_size, put_u8, or_overflow
    | case_match ].

Lemma keeps_step mh ms : keeps (step mh ms).
Proof.
  unfold step. apply keeps_bind; [apply keeps_get_ck|]. intros c. destruct (state c);
    unfold read_start, read_size, read_size_lws, read_extension, read_size_lf, read_body, read_body_cr,
      read_body_lf, read_trailer, read_trailer_lf, read_end_cr, read_end_lf; cbv zeta; keeps_solve.
Qed.

Lemma keeps_loop mh ms fuel : keeps (chunked_loop mh ms fuel).
Proof.
  induction fuel as [|fuel IH]; [by intros s|]. cbn [chunked_loop].
  apply keeps_bind; [apply keeps_set_buf|intros _]. apply keeps_bind; [apply keeps_step|intros st].
  apply keeps_bind; [apply keeps_with_ck|intros _]. case_bool_decide.
  - unfold finish_chunked. keeps_solve.
  - intros s Hs. destruct (buf s); [done|]. by apply IH.
Qed.

Lemma decode_keeps fuel d r : I r -> I (decode fuel d r).2.2.
Proof.
  intros Hr. unfold decode. destruct (kind d) as [n|c|e].
  - pose proof (read_keeps n r Hr). repeat case_match; simplify_eq/=; done.
  - pose proof (keeps_loop (default DEFAULT_MAX_HEADERS (h1_max_headers c))
      (default TRAILER_LIMIT (h1_max_header_size c)) fuel (mkRegs c None r) Hr) as Hl.
    by destruct (chunked_loop _ _ _ _).
  - pose proof (read_keeps 8192 r Hr). repeat case_match; simplify_eq/=; done.
Qed.
End ReaderInvariant.
