(* ===== verification/DecodeProps.v ===== *)
(** * What the body decoders guarantee

    Theorems about [Decoder::decode] on any reader that keeps the [MemRead]
    contract: safety and termination of a call, exact consumption of
    length-delimited and close-delimited bodies, independence of the chunked
    decoder from the fragmentation of its input, its resource bounds, and the
    round trip with the chunked encoder of Encode.v. *)

From S2P Require Import Prelude Buf Http Models Encode Decode RefHttparse DecodeFacts.
Import Decode EncodeFacts.

Definition max_headers_of (c : chunked) : Z := default DEFAULT_MAX_HEADERS (h1_max_headers c).
Definition max_header_size_of (c : chunked) : Z := default TRAILER_LIMIT (h1_max_header_size c).

Section Runs.
Context `{HttpCrate} `{Httparse} {R : Type} `{MemReadLaws R}.

Definition decoder_wf (d : Decoder) : Prop :=
  match kind d with
  | Length n => wf_u64 n
  | Chunked c => chunked_wf (max_headers_of c) (max_header_size_of c) c
  | Eof _ => True
  end.

(** A body read to its end by repeated calls, as the connection does
    (src/src/core/proto/h1/conn.rs, [poll_read_body]): data frames until the
    decoder reports the end, or a trailers frame; a pending call is repeated
    once the reader has been woken up. *)
Inductive decode_run (fuel : nat) :
  Decoder -> R -> bytes -> option HeaderMap -> Decoder -> R -> Prop :=
| run_pending d r d1 r1 r2 out tr d' r' :
    decode fuel d r = (RPending, (d1, r1)) ->
    rd_wf r2 -> stream r2 = stream r1 ->
    decode_run fuel d1 r2 out tr d' r' -> decode_run fuel d r out tr d' r'
| run_data d r b d1 r1 out tr d' r' :
    decode fuel d r = (RVal (FData b), (d1, r1)) -> is_eof d1 = false ->
    decode_run fuel d1 r1 out tr d' r' -> decode_run fuel d r (b ++ out) tr d' r'
| run_end d r b d' r' :
    decode fuel d r = (RVal (FData b), (d', r')) -> is_eof d' = true ->
    decode_run fuel d r b None d' r'
| run_trailers d r h d' r' :
    decode fuel d r = (RVal (FTrailers h), (d', r')) ->
    decode_run fuel d r [] (Some h) d' r'.

Lemma limits_of c mh ms : limits_ok mh ms c -> mh = max_headers_of c /\ ms = max_header_size_of c.
Proof. unfold limits_ok, max_headers_of, max_header_size_of. intuition congruence. Qed.

Lemma chunked_wf_limits mh ms c : chunked_wf mh ms c -> mh = max_headers_of c /\ ms = max_header_size_of c.
Proof. intros (_ & _ & _ & _ & _ & _ & _ & Hl). by apply limits_of. Qed.

Lemma drop_trailers_wf mh ms c :
  chunked_wf mh ms c -> state c = End -> chunked_wf mh ms (set_tbuf None c).
Proof.
  intros (? & Hz & Hb & ? & ? & ? & ? & Hl) He. unfold chunked_wf. cbn. rewrite He.
  assert (chunk_len c = 0) as Ez by (apply Hz; by rewrite He).
  split_and!; first [done | lia | by intros | apply Hl].
Qed.

Lemma decode_chunked_ok fuel c r :
  rd_wf r -> chunked_wf (max_headers_of c) (max_header_size_of c) c -> state c <> End ->
  exists res s, decode fuel (mkDecoder (Chunked c)) r = (res, (mkDecoder (Chunked (ck s)), rdr s)) /\
    loop_ok (max_headers_of c) (max_header_size_of c) (mkRegs c None r) (res, s) /\
    ((length (stream r) < fuel)%nat -> res <> RFuel).
Proof.
  intros Hw Hc He. unfold decode. cbn [kind]. fold (max_headers_of c) (max_header_size_of c).
  pose proof (loop_refines _ _ fuel (mkRegs c None r) Hw Hc He) as Hok.
  pose proof (loop_terminates _ _ fuel (mkRegs c None r) Hw Hc He) as Ht.
  destruct (chunked_loop _ _ fuel (mkRegs c None r)) as [res s]. exists res, s.
  split; [done|]. split; [exact Hok|]. exact Ht.
Qed.

Lemma feed_all_wf' c p c' o :
  chunked_wf (max_headers_of c) (max_header_size_of c) c ->
  feed_all (max_headers_of c) (max_header_size_of c) c p = Some (c', o) ->
  chunked_wf (max_headers_of c') (max_header_size_of c') c' /\
  max_headers_of c' = max_headers_of c /\ max_header_size_of c' = max_header_size_of c.
Proof.
  intros Hc E. apply feed_all_wf in E; [|done]. pose proof (chunked_wf_limits _ _ _ E) as [Em Es].
  rewrite <-Em, <-Es. done.
Qed.

Lemma loop_ok_data c r b s :
  loop_ok (max_headers_of c) (max_header_size_of c) (mkRegs c None r) (RVal (FData b), s) ->
  chunked_wf (max_headers_of c) (max_header_size_of c) c ->
  rd_wf (rdr s) /\ chunked_wf (max_headers_of (ck s)) (max_header_size_of (ck s)) (ck s) /\
  max_headers_of (ck s) = max_headers_of c /\ max_header_size_of (ck s) = max_header_size_of c.
Proof. intros (Hw & p & _ & Ef & _) Hc. split; [done|]. by eapply feed_all_wf'. Qed.

(** ** One call *)

(** What any call to [decode] leaves behind: the decoder and the reader stay
    well formed, and what left the stream is a prefix of it. *)
Definition call_ok (r : R) (out : poll_res io_error (Frame HeaderMap) * (Decoder * R)) : Prop :=
  match out with
  | (RVal _, (d', r')) | (RPending, (d', r')) =>
      decoder_wf d' /\ rd_wf r' /\ exists p, stream r = p ++ stream r'
  | (RErr _, _) => True
  | (RPanic, _) | (RFuel, _) => False
  end.

Lemma decode_chunked_call fuel c r :
  rd_wf r -> chunked_wf (max_headers_of c) (max_header_size_of c) c -> state c <> End ->
  (length (stream r) < fuel)%nat -> call_ok r (decode fuel (mkDecoder (Chunked c)) r).
Proof.
  intros Hw Hc He Hf. destruct (decode_chunked_ok fuel c r Hw Hc He) as (res & s & -> & Hok & Ht).
  specialize (Ht Hf). destruct res as [[b|h]| | | |]; try done.
  - destruct Hok as (Hw1 & p & Es & Ef & _). apply feed_all_wf' in Ef as [Ef _]; [|done].
    split; [done|]. split; [done|]. by exists p.
  - destruct Hok as (Hw1 & p & c' & tb & Es & Ef & He' & Ek & _).
    apply feed_all_wf in Ef; [|done]. pose proof (drop_trailers_wf _ _ _ Ef He') as Hd.
    rewrite <-Ek in Hd. destruct (chunked_wf_limits _ _ _ Hd) as [Em Es'].
    split; [cbn; by rewrite <-Em, <-Es'|]. split; [done|]. by exists p.
  - destruct Hok as (Hw1 & p & Es & Ef & _). apply feed_all_wf' in Ef as [Ef _]; [|done].
    split; [done|]. split; [done|]. by exists p.
Qed.

Lemma decode_call fuel d r :
  rd_wf r -> decoder_wf d -> is_eof d = false -> (length (stream r) < fuel)%nat ->
  call_ok r (decode fuel d r).
Proof.
  destruct d as [[n|c|e]]; intros Hw Hd He Hf.
  - unfold decode, is_eof, decoder_wf, wf_u64 in *. cbn [kind] in *.
    destruct (Z.eqb_spec n 0) as [->|Hn]; [done|].
    pose proof (fun r' => read_mem_total n r r' Hw ltac:(lia)) as Ht.
    destruct (read_mem n r) as [[b| | | |] r1] eqn:Er; [| |done|by destruct (Ht r1)..].
    + apply read_mem_val in Er as (Hw1 & Es & Hl & _); [|done|lia].
      rewrite (proj2 (Z.ltb_ge _ _)) by lia. destruct (Z.eqb_spec (len b) 0); [done|].
      split; [unfold decoder_wf, wf_u64; cbn; len_lia|]. split; [done|]. by exists b.
    + apply read_mem_pending in Er as [Hw1 Es]; [|done|lia].
      split; [done|]. split; [done|]. by exists [].
  - apply decode_chunked_call; [done..| |done]. cbn in He. by case_bool_decide.
  - unfold decode. cbn [kind]. destruct e; [done|].
    pose proof (fun r' => read_mem_total 8192 r r' Hw ltac:(lia)) as Ht.
    destruct (read_mem 8192 r) as [[b| | | |] r1] eqn:Er; [| |done|by destruct (Ht r1)..].
    + apply read_mem_val in Er as (Hw1 & Es & Hl & _); [|done|lia].
      split; [done|]. split; [done|]. by exists b.
    + apply read_mem_pending in Er as [Hw1 Es]; [|done|lia].
      split; [done|]. split; [done|]. by exists [].
Qed.

(** A pending call is not at the end of the body. *)
Lemma decode_pending fuel d r d' r' :
  rd_wf r -> decoder_wf d -> is_eof d = false -> decode fuel d r = (RPending, (d', r')) -> is_eof d' = false.
Proof.
  destruct d as [[n|c|e]]; intros Hw Hd He E.
  - unfold decode in E. cbn [kind] in E. by repeat case_match; simplify_eq.
  - cbn in He. apply bool_decide_eq_false in He.
    destruct (decode_chunked_ok fuel c r Hw Hd He) as (res & s & E' & Hok & _).
    rewrite E' in E. injection E as -> <- <-. destruct Hok as (_ & p & _ & _ & Hn).
    unfold is_eof. cbn. by apply bool_decide_eq_false.
  - unfold decode in E. cbn [kind] in E. by repeat case_match; simplify_eq.
Qed.

(** ** Whole bodies *)

Lemma length_run fuel d r out tr d' r' :
  decode_run fuel d r out tr d' r' ->
  forall n, kind d = Length n -> rd_wf r -> 0 < n ->
  stream r = out ++ stream r' /\ len out = n /\ tr = None /\ d' = decoder_length 0.
Proof.
  induction 1 as [d r d1 r1 r2 out tr d' r' E Hw2 Es _ IH|d r b d1 r1 out tr d' r' E Ed _ IH
    |d r b d' r' E Ed|d r h d' r' E]; intros n Hk Hw Hn; unfold decode in E; rewrite Hk in E;
    rewrite (proj2 (Z.eqb_neq _ _)) in E by lia;
    destruct (read_mem n r) as [[b'| | | |] r1'] eqn:Er; try done.
  1: by repeat case_match.
  - injection E as <- <-. apply read_mem_pending in Er as [Hw1 Es1]; [|done..].
    destruct (IH n) as (E' & ?); [done..|]. by rewrite <-Es1, <-Es, E'.
  - apply read_mem_val in Er as (Hw1 & Es1 & Hl & _); [|done..].
    rewrite (proj2 (Z.ltb_ge _ _)) in E by lia.
    destruct (Z.eqb_spec (len b') 0); [done|]. injection E as <- <- <-.
    cbn in Ed. assert (n - len b' <> 0) by (intros Eq; by rewrite Eq in Ed).
    destruct (IH (n - len b')) as (E' & Hlen & ?); [done..|len_lia|].
    rewrite Es1, E', app_assoc. split; [done|]. split; [len_lia|done].
  - apply read_mem_val in Er as (Hw1 & Es1 & Hl & _); [|done..].
    rewrite (proj2 (Z.ltb_ge _ _)) in E by lia.
    destruct (Z.eqb_spec (len b') 0); [done|]. injection E as <- <- <-.
    unfold is_eof in Ed. cbn in Ed. destruct (n - len b') eqn:Eq; try done.
    split; [done|]. split; [lia|]. done.
  - by repeat case_match.
Qed.

Lemma eof_run fuel d r out tr d' r' :
  decode_run fuel d r out tr d' r' ->
  kind d = Eof false -> rd_wf r -> out = stream r /\ stream r' = [] /\ tr = None.
Proof.
  induction 1 as [d r d1 r1 r2 out tr d' r' E Hw2 Es _ IH|d r b d1 r1 out tr d' r' E Ed _ IH
    |d r b d' r' E Ed|d r h d' r' E]; intros Hk Hw; unfold decode in E; rewrite Hk in E;
    destruct (read_mem 8192 r) as [[b'| | | |] r1'] eqn:Er; try done; injection E; intros; subst.
  - apply read_mem_pending in Er as [Hw1 Es1]; [|done|lia].
    destruct IH as (-> & ?); [done..|]. by rewrite Es, Es1.
  - apply read_mem_val in Er as (Hw1 & Es1 & Hl & _); [|done|lia].
    unfold is_eof in Ed. cbn in Ed. destruct (len b =? 0); [done|].
    destruct IH as (-> & ?); done.
  - apply read_mem_val in Er as (Hw1 & Es1 & Hl & He); [|done|lia].
    unfold is_eof in Ed. cbn in Ed. destruct (Z.eqb_spec (len b) 0) as [Eb|]; [|done].
    apply len_zero in Eb as ->. rewrite He in * by done. done.
Qed.

(** What the automaton's final state says about the trailers. *)
Definition trailers_ok (c : chunked) (tr : option HeaderMap) : Prop :=
  match tr with
  | None => trailers_buf c = None
  | Some h => exists tb, trailers_buf c = Some tb /\ decode_trailers tb (trailers_cnt c) = Ok h
  end.

Lemma chunked_run fuel d r out tr d' r' :
  decode_run fuel d r out tr d' r' ->
  forall c, d = mkDecoder (Chunked c) -> rd_wf r ->
  chunked_wf (max_headers_of c) (max_header_size_of c) c -> state c <> End ->
  exists p c', stream r = p ++ stream r' /\
    feed_all (max_headers_of c) (max_header_size_of c) c p = Some (c', out) /\
    state c' = End /\ trailers_ok c' tr.
Proof.
  induction 1 as [d r d1 r1 r2 out tr d' r' E Hw2 Es _ IH|d r b d1 r1 out tr d' r' E Ed _ IH
    |d r b d' r' E Ed|d r h d' r' E]; intros c -> Hw Hc He;
    destruct (decode_chunked_ok fuel c r Hw Hc He) as (res & s & E1 & Hok & _);
    rewrite E1 in E; injection E as -> <- <-.
  - destruct Hok as (Hw1 & p & Es1 & Ef & Hend). cbn in Es1, Ef.
    destruct (feed_all_wf' _ _ _ _ Hc Ef) as (Hc1 & Em & Esz).
    destruct (IH (ck s)) as (q & c' & Eq & Fq & Hr); [done..|].
    rewrite Em, Esz in Fq. exists (p ++ q), c'. rewrite Es1, <-Es, Eq, app_assoc.
    split; [done|]. rewrite feed_all_app, Ef. cbn [mbind option_bind]. by rewrite Fq.
  - destruct Hok as (Hw1 & p & Es1 & Ef & Hd). cbn in Es1, Ef.
    destruct (feed_all_wf' _ _ _ _ Hc Ef) as (Hc1 & Em & Esz).
    unfold is_eof in Ed. cbn in Ed. apply bool_decide_eq_false in Ed.
    destruct (IH (ck s)) as (q & c' & Eq & Fq & Hr); [done..|].
    rewrite Em, Esz in Fq. exists (p ++ q), c'. rewrite Es1, Eq, app_assoc.
    split; [done|]. rewrite feed_all_app, Ef. cbn [mbind option_bind]. by rewrite Fq.
  - destruct Hok as (Hw1 & p & Es1 & Ef & Hd). cbn in Es1, Ef.
    unfold is_eof in Ed. cbn in Ed. apply bool_decide_eq_true in Ed.
    exists p, (ck s). destruct Hd as [[_ ?]|(-> & _ & Ht)]; done.
  - destruct Hok as (Hw1 & p & c' & tb & Es1 & Ef & Hs & _ & Ht & Hdt). cbn in Es1, Ef.
    exists p, c'. split_and!; [done..|]. by exists tb.
Qed.

Lemma feed_end_stop mh ms c p q c1 o1 c2 o2 :
  feed_all mh ms c p = Some (c1, o1) -> state c1 = End ->
  feed_all mh ms c (p ++ q) = Some (c2, o2) -> q = [].
Proof.
  intros Fa Ea Fb. rewrite feed_all_app, Fa in Fb. cbn [mbind option_bind] in Fb.
  destruct (feed_all mh ms c1 q) as [[cc oc]|] eqn:Fq; [|done]. by eapply feed_all_end.
Qed.

(** The end of a body is where the automaton ends, whatever follows. *)
Lemma feed_end_unique mh ms c p1 p2 s1 s2 c1 c2 o1 o2 :
  p1 ++ s1 = p2 ++ s2 -> feed_all mh ms c p1 = Some (c1, o1) -> feed_all mh ms c p2 = Some (c2, o2) ->
  state c1 = End -> state c2 = End -> p1 = p2 /\ s1 = s2 /\ c1 = c2 /\ o1 = o2.
Proof.
  intros E F1 F2 H1' H2'.
  assert (p1 = p2) as ->.
  { apply app_eq_app in E as (k & [[-> _]|[-> _]]).
    - by rewrite (feed_end_stop _ _ _ p2 k _ _ _ _ F2 H2' F1), app_nil_r.
    - by rewrite (feed_end_stop _ _ _ p1 k _ _ _ _ F1 H1' F2), app_nil_r. }
  apply app_inv_head in E. rewrite F1 in F2. by injection F2 as -> ->.
Qed.

(** ** Progress: what the automaton accepts is decoded *)

(** A reader that always has an answer, such as a slice or a connection whose
    peer has already sent everything. *)
Definition ready : Prop :=
  forall n r, rd_wf r -> 0 < n -> exists b r', read_mem n r = (RVal b, r').

Lemma read_ready n r :
  ready -> rd_wf r -> 0 < n -> stream r <> [] ->
  exists b r', read_mem n r = (RVal b, r') /\ rd_wf r' /\ stream r = b ++ stream r' /\
    b <> [] /\ len b <= n.
Proof.
  intros Hr Hw Hn Hs. destruct (Hr n r Hw Hn) as (b & r' & E). exists b, r'.
  destruct (read_mem_val n r b r' Hw Hn E) as (? & ? & ? & Hb). split_and!; try done.
  intros ->. by apply Hs, Hb.
Qed.

Lemma step_progress mh ms (s : @regs R) p c' o rest :
  ready -> rd_wf (rdr s) -> chunked_wf mh ms (ck s) -> buf s = None -> state (ck s) <> End ->
  stream (rdr s) = p ++ rest -> p <> [] -> feed_all mh ms (ck s) p = Some (c', o) ->
  exists st s', step mh ms s = (RVal st, s').
Proof.
  intros Hr Hw Hc Hb He Es Hp Ef. destruct p as [|b p]; [done|]. cbn in Ef.
  destruct (feed mh ms (ck s) b) as [[c1 o1]|] eqn:F1; [|done].
  destruct (decide (state (ck s) = Body)) as [Hbody|Hbody].
  - unfold step, get_ck, pbind at 1. rewrite Hbody. unfold read_body, get_ck, pbind at 1.
    destruct Hc as ([? Hu] & _ & Hpos & _). specialize (Hpos Hbody).
    unfold usize_max. rewrite (proj2 (Z.ltb_ge _ _)) by lia. cbv zeta. unfold pbind at 1, do_read.
    destruct (read_ready (chunk_len (ck s)) (rdr s)) as (l & r' & -> & _ & _ & Hl & _);
      [done..|by rewrite Es|].
    destruct (Z.eqb_spec (len l) 0) as [E0|]; [by apply len_zero in E0|].
    unfold pbind, set_buf, with_ck, pmodify, pret. case_match; by eexists _, _.
  - destruct (step_byte mh ms s Hbody He) as (K1 & K2 & -> & E2 & Hsim).
    unfold feed in F1. rewrite bool_decide_eq_false_2, E2 in F1 by done.
    unfold pbind, read_byte, pbind, do_read.
    destruct (read_ready 1 (rdr s)) as (l & r' & -> & _ & El & Hl & _); [done..|lia|by rewrite Es|].
    rewrite Es in El. destruct l as [|x l]; [done|]. injection El as -> _. cbn [pret].
    unfold pret. rewrite Hb.
    destruct (Hsim x (ck s) None r' []) as (y & c2 & G1 & G2). rewrite G2 in F1. rewrite G1.
    destruct y as [st| | | |]; try done. by eexists _, _.
Qed.

(** Runs over prefixes of one stream are prefixes of the one that ends. *)
Lemma feed_prefix mh ms c p rest c' o q s1 c1 o1 :
  feed_all mh ms c p = Some (c', o) -> state c' = End -> p ++ rest = q ++ s1 ->
  feed_all mh ms c q = Some (c1, o1) ->
  exists k o', p = q ++ k /\ s1 = k ++ rest /\ feed_all mh ms c1 k = Some (c', o') /\ o = o1 ++ o'.
Proof.
  intros Fp He Eq Fq.
  assert (exists k, p = q ++ k /\ s1 = k ++ rest) as (k & -> & ->).
  { apply app_eq_app in Eq as (k & [[-> ->]|[-> ->]]); [by exists k|].
    rewrite (feed_end_stop _ _ _ _ _ _ _ _ _ Fp He Fq) in *. exists []. by rewrite !app_nil_r. }
  rewrite feed_all_app, Fq in Fp. cbn [mbind option_bind] in Fp.
  destruct (feed_all mh ms c1 k) as [[c2 o2]|] eqn:Fk; [|done]. injection Fp as -> <-.
  by exists k, o2.
Qed.

(** What a final state still needs to be handed out as a frame. *)
Definition finishable (mh : Z) (c : chunked) (tr : option HeaderMap) : Prop :=
  trailers_ok c tr /\ (is_Some tr -> trailers_cnt c < mh).

Lemma finish_progress mh (s : @regs R) tr :
  finishable mh (ck s) tr ->
  exists f s', finish_chunked mh s = (RVal f, s') /\
    (f = FData [] /\ tr = None /\ ck s' = ck s /\ stream (rdr s') = stream (rdr s)
     \/ exists h, f = FTrailers h /\ tr = Some h /\ stream (rdr s') = stream (rdr s)).
Proof.
  intros [Ht Hcnt]. unfold finish_chunked, get_ck, pbind, with_ck, pmodify. destruct tr as [h|].
  - destruct Ht as (tb & -> & Hd). specialize (Hcnt ltac:(by eexists)).
    rewrite (proj2 (Z.leb_gt _ _)) by lia. rewrite Hd. eexists _, _. split; [done|]. right. by exists h.
  - cbn in Ht. rewrite Ht. eexists _, _. split; [done|]. by left.
Qed.

(** One call makes progress towards the end the automaton reaches. *)
Lemma loop_progress mh ms fuel (s : @regs R) p c' o rest tr :
  ready -> rd_wf (rdr s) -> chunked_wf mh ms (ck s) -> state (ck s) <> End ->
  stream (rdr s) = p ++ rest -> feed_all mh ms (ck s) p = Some (c', o) -> state c' = End ->
  finishable mh c' tr -> (length p < fuel)%nat ->
  exists f s', chunked_loop mh ms fuel s = (RVal f, s') /\
    (f = FData [] /\ tr = None /\ o = [] /\ ck s' = c' /\ stream (rdr s') = rest
     \/ (exists h, f = FTrailers h /\ tr = Some h /\ o = [] /\ stream (rdr s') = rest)
     \/ exists b o' p', f = FData b /\ b <> [] /\ o = b ++ o' /\ state (ck s') <> End /\
         stream (rdr s') = p' ++ rest /\ feed_all mh ms (ck s') p' = Some (c', o') /\
         (length p' < length p)%nat).
Proof.
  intros Hr. revert s p o. induction fuel as [|fuel IH]; intros s p o Hw Hc He Es Ef Hend Hfin Hlen; [lia|].
  assert (p <> []) as Hp by (intros ->; cbn in Ef; congruence).
  cbn [chunked_loop]. unfold pbind at 1, set_buf, pmodify.
  set (s0 := mkRegs (ck s) None (rdr s)).
  destruct (step_progress mh ms s0 p c' o rest) as (st & s1 & Estep); [done..|].
  pose proof (step_refines mh ms s0 Hw Hc eq_refl He) as Hstep. rewrite Estep in Hstep.
  destruct Hstep as (Hw1 & q & Hq & Eq & Fq & Hbuf). cbn [ck rdr s0] in Eq, Fq.
  unfold pbind at 1. rewrite Estep. unfold pbind at 1, with_ck, pmodify.
  set (c1 := set_state st (ck s1)) in *.
  destruct (feed_prefix mh ms (ck s) p rest c' o q (stream (rdr s1)) c1 (default [] (buf s1)) Ef Hend)
    as (k & o' & -> & Ek & Fk & ->); [by rewrite <-Es|done|].
  assert (chunked_wf mh ms c1) as Hc1 by (eapply feed_all_wf; [exact Hc | exact Fq]).
  assert (length k < length (q ++ k))%nat as Hk by (rewrite length_app; destruct q; [done|cbn; lia]).
  destruct (bool_decide_reflect (st = End)) as [->|Hst].
  - apply feed_all_end in Fk as Hk0; [|done]. subst k. injection Fk as <- <-. rewrite app_nil_r in *.
    destruct (buf s1) as [b|] eqn:Eb; [by destruct (Hbuf b)|].
    destruct (finish_progress mh (mkRegs c1 None (rdr s1)) tr Hfin) as (f & s2 & E & Hcase).
    exists f, s2. split; [exact E|]. destruct Hcase as [(-> & -> & -> & ->)|(h & -> & -> & ->)];
      [by left|]. right; left. by exists h.
  - cbn [buf]. destruct (buf s1) as [b|] eqn:Eb; cbn [default from_option id app] in *.
    + exists (FData b), (mkRegs c1 (Some b) (rdr s1)). split; [done|]. right; right.
      exists b, o', k. destruct (Hbuf b eq_refl). done.
    + destruct (IH (mkRegs c1 None (rdr s1)) k o') as (f & s2 & E2 & Hcase); [done..|lia|].
      exists f, s2. split; [done|]. destruct Hcase as [?|[?|(b & o2 & p' & ? & ? & ? & ? & ? & ? & ?)]];
        [by left|by right; left|]. right; right. exists b, o2, p'. split_and!; try done. lia.
Qed.

Lemma run_progress fuel c r p c' o rest tr :
  ready -> rd_wf r -> chunked_wf (max_headers_of c) (max_header_size_of c) c -> state c <> End ->
  stream r = p ++ rest ->
  feed_all (max_headers_of c) (max_header_size_of c) c p = Some (c', o) -> state c' = End ->
  finishable (max_headers_of c) c' tr -> (length p < fuel)%nat ->
  exists d' r', decode_run fuel (mkDecoder (Chunked c)) r o tr d' r' /\ stream r' = rest.
Proof.
  intros Hr. remember (length p) as m eqn:Em.
  revert p Em c r o. induction (lt_wf m) as [m _ IH]; intros p -> c r o Hw Hc He Es Ef Hend Hfin Hlen.
  destruct (loop_progress _ _ fuel (mkRegs c None r) p c' o rest tr Hr Hw Hc He Es Ef Hend Hfin Hlen)
    as (f & s' & E & Hcase).
  assert (decode fuel (mkDecoder (Chunked c)) r = (RVal f, (mkDecoder (Chunked (ck s')), rdr s'))) as Ed.
  { unfold decode. cbn [kind]. fold (max_headers_of c) (max_header_size_of c). by rewrite E. }
  destruct Hcase as [(-> & -> & -> & Ek & Er)|[(h & -> & -> & -> & Er)|
    (b & o' & p' & -> & Hb & -> & Hs & Er & Fp & Hlt)]].
  - eexists _, _. split; [|exact Er]. apply (run_end _ _ _ _ _ _ Ed).
    unfold is_eof. cbn. rewrite Ek. by apply bool_decide_eq_true.
  - eexists _, _. split; [|exact Er]. by apply run_trailers.
  - pose proof (loop_refines _ _ fuel (mkRegs c None r) Hw Hc He) as Hok. rewrite E in Hok.
    destruct (loop_ok_data c r b s' Hok Hc) as (Hw1 & Hc1 & Emh & Ems).
    destruct (IH (length p') Hlt p' eq_refl (ck s') (rdr s') o') as (d' & r' & Hrun & Er');
      [done..|by rewrite Emh, Ems|done|by rewrite Emh|lia|].
    exists d', r'. split; [|done]. eapply run_data; [exact Ed| |exact Hrun].
    unfold is_eof. cbn. by apply bool_decide_eq_false.
Qed.

(** The other two kinds of body are read to their end too. *)
Lemma length_progress fuel n r :
  ready -> rd_wf r -> 0 < n <= len (stream r) ->
  exists out d' r', decode_run fuel (decoder_length n) r out None d' r'.
Proof.
  intros Hr. remember (Z.to_nat n) as m eqn:Em. revert n Em r.
  induction (lt_wf m) as [m _ IH]; intros n -> r Hw Hn.
  destruct (read_ready n r Hr Hw) as (b & r1 & E & Hw1 & Es & Hb & Hl); [lia|intros Eq; rewrite Eq in Hn; unfold len in Hn; cbn [length] in Hn; lia|].
  assert (0 < len b) by (destruct b; [done|len_lia]).
  assert (decode fuel (decoder_length n) r = (RVal (FData b), (decoder_length (n - len b), r1))) as Ed.
  { unfold decode. cbn [kind decoder_length]. rewrite (proj2 (Z.eqb_neq _ _)), E by lia.
    by rewrite (proj2 (Z.ltb_ge _ _)), (proj2 (Z.eqb_neq _ _)) by lia. }
  destruct (Z.eq_dec (n - len b) 0) as [Ez|Ez].
  - eexists _, _, _. eapply run_end; [exact Ed|]. by rewrite Ez.
  - rewrite Es in Hn. destruct (IH (Z.to_nat (n - len b)) ltac:(lia) (n - len b) eq_refl r1 Hw1) as (o & d' & r' & Hrun);
      [len_lia|].
    exists (b ++ o), d', r'. eapply run_data; [exact Ed| |exact Hrun]. unfold is_eof. cbn. by destruct (n - len b).
Qed.

Lemma eof_progress fuel r :
  ready -> rd_wf r -> exists out d' r', decode_run fuel decoder_eof r out None d' r'.
Proof.
  intros Hr. remember (length (stream r)) as m eqn:Em. revert r Em.
  induction (lt_wf m) as [m _ IH]; intros r -> Hw.
  destruct (Hr 8192 r Hw ltac:(lia)) as (b & r1 & E).
  destruct (read_mem_val 8192 r b r1 Hw ltac:(lia) E) as (Hw1 & Es & _).
  assert (decode fuel decoder_eof r = (RVal (FData b), (mkDecoder (Eof (len b =? 0)), r1))) as Ed
    by (unfold decode; cbn [kind decoder_eof]; by rewrite E).
  destruct b as [|x b].
  - eexists _, _, _. by eapply run_end.
  - destruct (IH (length (stream r1))) with (r := r1) as (o & d' & r' & Hrun); [rewrite Es; cbn; rewrite length_app; lia|done..|].
    assert ((len (x :: b) =? 0) = false) as El by (apply Z.eqb_neq; len_lia). rewrite El in Ed.
    exists ((x :: b) ++ o), d', r'. by eapply run_data.
Qed.
End Runs.

(** ** The chunked coding, byte by byte *)

Section Chunks.
Context `{HttpCrate} `{Httparse}.
Variables mh ms : Z.

Lemma feed_digit c b d n :
  state c = Start \/ state c = Size -> hex_digit b = Some d -> push_digit 16 (chunk_len c) d = Some n ->
  feed mh ms c b = Some (set_state Size (set_size n c), []).
Proof.
  intros Hs Hd Hp. unfold feed. rewrite bool_decide_eq_false_2 by (by destruct Hs as [-> | ->]).
  unfold step, get_ck. rewrite (pbind_val _ _ _ c (mkRegs c None [b])) by done.
  pose proof (push_size_run (mkRegs c None ([] : bytes)) d) as E. cbn [ck] in E. rewrite Hp in E.
  unfold hex_digit in Hd.
  destruct Hs as [-> | ->]; unfold read_start, read_size, is_range;
    (rewrite (pbind_val _ _ _ b (mkRegs c None [])) by reflexivity);
    repeat match type of Hd with context [if ?x then _ else _] => destruct x end;
    simplify_eq; by rewrite (pbind_val _ _ _ tt _ E).
Qed.

Lemma feed_digits c l n :
  state c = Start \/ state c = Size -> l <> [] ->
  acc_digits 16 hex_digit (chunk_len c) l = Some n ->
  feed_all mh ms c l = Some (set_state Size (set_size n c), []).
Proof.
  revert c. induction l as [|b l IH]; intros c Hs Hne Ha; [done|]. cbn in Ha.
  destruct (hex_digit b) as [d|] eqn:Hd; [|done]. cbn in Ha.
  destruct (push_digit 16 (chunk_len c) d) as [m|] eqn:Hp; [|done]. cbn in Ha.
  cbn [feed_all]. rewrite (feed_digit c b d m) by done. cbn [mbind option_bind].
  destruct l as [|b' l'] eqn:El; [cbn in *; by simplify_eq|]. rewrite <-El in *.
  rewrite IH; [done | by right | by subst | done].
Qed.

Lemma feed_crlf c :
  state c = Size -> feed_all mh ms c CRLF =
    Some (set_state (if chunk_len c =? 0 then EndCr else Body) c, []).
Proof.
  intros Hs. destruct c as [st n e tb tc a b]; cbn in Hs; subst. cbn [chunk_len].
  assert (feed mh ms (mkChunked Size n e tb tc a b) CR = Some (mkChunked SizeLf n e tb tc a b, []))
    as E1 by reflexivity.
  assert (feed mh ms (mkChunked SizeLf n e tb tc a b) LF =
          Some (mkChunked (if n =? 0 then EndCr else Body) n e tb tc a b, [])) as E2.
  { unfold feed, step, read_size_lf, pbind, get_ck. cbn -[Z.eqb].
    change (LF =? LF) with true. by destruct (n =? 0). }
  cbn [feed_all CRLF]. change 13 with CR. change 10 with LF. rewrite E1. cbn [mbind option_bind].
  by rewrite E2.
Qed.

Lemma feed_body_crlf c :
  state c = BodyCr -> feed_all mh ms c CRLF = Some (set_state Start c, []).
Proof. intros Hs. destruct c; cbn in Hs; subst. reflexivity. Qed.

Lemma feed_chunk c b :
  state c = Start -> chunk_len c = 0 -> b <> [] -> len b <= u64_max ->
  feed_all mh ms c (chunk_frame b) = Some (c, b).
Proof.
  intros Hs Hz Hb Hl. unfold chunk_frame. rewrite feed_all_app.
  rewrite (feed_digits c _ (len b)); [|by left|by apply fmt_radix_nonempty|].
  2: { rewrite Hz. apply acc_digits_fmt_hex. unfold wf_u64. len_lia. }
  assert (0 < len b) by (destruct b; [done|len_lia]).
  cbn [mbind option_bind]. rewrite feed_all_app, feed_crlf by done. cbn [mbind option_bind chunk_len set_size set_state].
  rewrite (proj2 (Z.eqb_neq _ _)) by lia. rewrite feed_all_app.
  rewrite feed_all_body by (done || (cbn; lia)). cbn [mbind option_bind chunk_len set_size set_state].
  rewrite Z.sub_diag. cbn [Z.ltb Z.compare]. rewrite feed_body_crlf by done.
  cbn. rewrite app_nil_r. destruct c; cbn in *; by subst.
Qed.

Lemma feed_chunks c l :
  state c = Start -> chunk_len c = 0 -> Forall (fun b => b <> [] /\ len b <= u64_max) l ->
  feed_all mh ms c (concat (chunk_frame <$> l)) = Some (c, concat l).
Proof.
  intros Hs Hz. induction 1 as [|b l [Hb Hl] _ IH]; [done|]. rewrite fmap_cons. cbn [concat].
  rewrite feed_all_app, feed_chunk by done. cbn [mbind option_bind]. by rewrite IH.
Qed.

Lemma feed_last_chunk c :
  state c = Start -> chunk_len c = 0 -> trailers_buf c = None ->
  feed_all mh ms c last_chunk = Some (set_state End c, []).
Proof. intros Hs Hz Ht. destruct c; cbn in *; subst. reflexivity. Qed.
End Chunks.

(** ** Properties *)

Section Properties.
Context `{HttpCrate} `{Httparse}.

Section OneReader.
Context {R : Type} `{MemReadLaws R}.

(** A call to [Decoder::decode] on a decoder that is not at its end
    never panics and always returns: as many turns of the loop as the stream
    has bytes, plus one, are enough.  When it returns a frame or is pending,
    decoder and reader are well formed again and what was consumed is a
    prefix of the stream. *)
Theorem decode_safe fuel (d : Decoder) (r : R) :
  rd_wf r -> decoder_wf d -> is_eof d = false -> (length (stream r) < fuel)%nat ->
  match decode fuel d r with
  | (RVal _, (d', r')) | (RPending, (d', r')) =>
      decoder_wf d' /\ rd_wf r' /\ exists p, stream r = p ++ stream r'
  | (RErr _, _) => True
  | (RPanic, _) | (RFuel, _) => False
  end.
Proof. exact (decode_call fuel d r). Qed.

(** A body of declared length [n] consists of exactly the next [n]
    bytes of the connection, however they arrive; nothing behind them is
    consumed and no trailers are reported.  A reader that has them available
    does get to the end. *)
Theorem length_body_exact fuel n (r : R) :
  rd_wf r -> 0 < n ->
  (forall out tr d' r', decode_run fuel (decoder_length n) r out tr d' r' ->
     stream r = out ++ stream r' /\ len out = n /\ tr = None /\ is_eof d' = true) /\
  (ready (R:=R) -> n <= len (stream r) ->
     exists out d' r', decode_run fuel (decoder_length n) r out None d' r').
Proof.
  intros Hw Hn. split; [|intros; by apply length_progress].
  intros out tr d' r' Hrun. destruct (length_run _ _ _ _ _ _ _ Hrun n eq_refl Hw Hn) as (? & ? & ? & ->).
  done.
Qed.

(** A close-delimited body is everything up to the end of the
    connection, and a reader that has it available does get to the end. *)
Theorem eof_body_whole fuel (r : R) :
  rd_wf r ->
  (forall out tr d' r', decode_run fuel decoder_eof r out tr d' r' ->
     out = stream r /\ stream r' = [] /\ tr = None) /\
  (ready (R:=R) -> exists out d' r', decode_run fuel decoder_eof r out None d' r').
Proof.
  intros Hw. split; [|intros; by apply eof_progress]. intros out tr d' r' Hrun. by eapply eof_run.
Qed.

(** Decoders a chunked body can be in, after any number of calls. *)
Inductive chunked_reach (mh ms : option Z) : Decoder -> Prop :=
| reach_new : chunked_reach mh ms (decoder_chunked mh ms)
| reach_call fuel d (r : R) f d' r' :
    chunked_reach mh ms d -> rd_wf r -> is_eof d = false ->
    decode fuel d r = (f, (d', r')) -> (f = RPending \/ exists x, f = RVal x) ->
    chunked_reach mh ms d'.

Lemma reach_wf mh ms d :
  chunked_reach mh ms d ->
  exists c, d = mkDecoder (Chunked c) /\
    chunked_wf (default DEFAULT_MAX_HEADERS mh) (default TRAILER_LIMIT ms) c.
Proof.
  induction 1 as [|fuel d r f d' r' _ (c & -> & Hc) Hw He E Hf].
  { eexists. split; [done|]. by apply chunked_new_wf. }
  destruct (chunked_wf_limits _ _ _ Hc) as [Em Es].
  unfold is_eof in He. cbn in He. apply bool_decide_eq_false in He. rewrite Em, Es in Hc.
  destruct (decode_chunked_ok fuel c r Hw Hc He) as (res & s & E' & Hok & _).
  rewrite E' in E. injection E as <- <- <-. exists (ck s). split; [done|]. rewrite Em, Es.
  destruct Hf as [-> | [[b|h] ->]].
  - destruct Hok as (_ & p & _ & Ef & _). by eapply feed_all_wf.
  - destruct Hok as (_ & p & _ & Ef & _). by eapply feed_all_wf.
  - destruct Hok as (_ & p & c' & tb & _ & Ef & He' & -> & _).
    apply drop_trailers_wf; [by eapply feed_all_wf | done].
Qed.

(** C40. Resource bounds of the chunked decoder, over any sequence of calls
    with any input: fewer than 16384 bytes of chunk extensions are skipped
    over the whole body, at most [max_headers] trailer lines are counted, and
    the trailer buffer stays below the configured header size (or holds the
    single byte it starts with). *)
Theorem chunked_bounds mh ms d :
  chunked_reach mh ms d ->
  exists c, kind d = Chunked c /\ wf_u64 (chunk_len c) /\
    0 <= extensions_cnt c < 16384 /\
    0 <= trailers_cnt c <= Z.max 0 (default 100 mh) /\
    forall tb, trailers_buf c = Some tb -> len tb <= Z.max 1 (default 16384 ms - 1).
Proof.
  intros (c & -> & Hwf)%reach_wf. destruct Hwf as (Hu & _ & _ & He & Hc & _ & Ht & _).
  exists c. split; [done|]. split; [done|]. split; [exact He|]. split; [exact Hc|exact Ht].
Qed.
End OneReader.

Section TwoReaders.
Context {R1 R2 : Type} `{MemReadLaws R1} `{MemReadLaws R2}.

(** C38. Decoding a chunked body depends only on the bytes: two readers that
    deliver the same stream, cut into reads differently and pending at
    different times, give the same data, the same trailers and the same
    remaining input. *)
Theorem chunked_fragmentation fuel1 fuel2 mh ms (r1 : R1) (r2 : R2) out1 out2 tr1 tr2 d1 d2 r1' r2' :
  rd_wf r1 -> rd_wf r2 -> stream r1 = stream r2 ->
  decode_run fuel1 (decoder_chunked mh ms) r1 out1 tr1 d1 r1' ->
  decode_run fuel2 (decoder_chunked mh ms) r2 out2 tr2 d2 r2' ->
  out1 = out2 /\ tr1 = tr2 /\ stream r1' = stream r2'.
Proof.
  intros Hw1 Hw2 Es Hr1 Hr2.
  eapply chunked_run in Hr1 as (p1 & c1 & E1 & F1 & N1 & T1); [|done..|by apply chunked_new_wf|done].
  eapply chunked_run in Hr2 as (p2 & c2 & E2 & F2 & N2 & T2); [|done..|by apply chunked_new_wf|done].
  rewrite E1, E2 in Es. destruct (feed_end_unique _ _ _ _ _ _ _ _ _ _ _ Es F1 F2 N1 N2)
    as (_ & Est & <- & ->). split; [done|]. split; [|done].
  destruct tr1, tr2; cbn in T1, T2; destruct_and?; dest; congruence.
Qed.
End TwoReaders.

Section RoundTrip.
Context {BC : BytesCrate} {AL : Alloc} {BCL : BytesCrateLaws} {ALL : AllocLaws}.
Context {B : Type} {HB : Buf B} {HBL : BufLaws B} {R : Type} `{MemReadLaws R}.

(** C3. What the chunked encoder writes, the chunked decoder reads: for
    non-empty messages, the encoded body followed by the encoder's end is
    decoded by any reader that has it available into the concatenation of
    the messages, without trailers, leaving what follows untouched. *)
Theorem chunked_roundtrip (msgs : list B) :
  Forall (fun m => buf_wf m /\ content m <> [] /\ len (content m) + 20 <= usize_max) msgs ->
  exists wire e,
    encode_all msgs Encode.encoder_chunked = Some (wire, e) /\
    end_ok (B:=B) (Encode.encoder_end e) = true /\
    forall (r : R) rest fuel mh ms,
      ready (R:=R) -> rd_wf r ->
      stream r = (wire ++ end_bytes (B:=B) (Encode.encoder_end e)) ++ rest ->
      (length (stream r) < fuel)%nat ->
      exists d' r', decode_run fuel (decoder_chunked mh ms) r (concat (content <$> msgs)) None d' r'
        /\ stream r' = rest.
Proof.
  intros Hm. eexists _, _. split.
  { apply encode_all_chunked; [done|]. eapply Forall_impl; [exact Hm|]. naive_solver. }
  split; [done|]. intros r rest fuel mh ms Hr Hw Es Hf.
  rewrite list_fmap_compose in Es. set (l := content <$> msgs) in *.
  assert (Forall (fun b => b <> [] /\ len b <= u64_max) l) as Hl.
  { apply Forall_fmap. eapply Forall_impl; [exact Hm|]. unfold usize_max. cbn. intros m (? & ? & ?).
    split; [done|lia]. }
  unfold decoder_chunked. set (c := mkChunked Start 0 0 None 0 mh ms).
  eapply run_progress with (c' := set_state End c); [done..| |done|exact Es| |done| |].
  - by apply chunked_new_wf.
  - change (end_bytes _) with (content (last_chunk : bytes)). rewrite slice_content.
    rewrite feed_all_app, feed_chunks by done. cbn [mbind option_bind].
    rewrite feed_last_chunk by done. cbn. by rewrite app_nil_r.
  - split; [done|]. by intros [? ?].
  - rewrite Es, !length_app in Hf. rewrite !length_app. lia.
Qed.
End RoundTrip.
End Properties.

(** ** The properties at concrete inputs *)

(** A transport that is ready every other time and then delivers one byte. *)
Record drip := mkDrip { drip_idle : bool; drip_rest : bytes }.
#[export] Instance drip_read : MemRead drip := {|
  read_mem := fun _ s =>
    if drip_idle s then (RPending, mkDrip false (drip_rest s))
    else (RVal (ztake 1 (drip_rest s)), mkDrip true (zdrop 1 (drip_rest s)))
|}.
#[export] Program Instance drip_laws : MemReadLaws drip := {|
  rd_wf := fun _ => True; stream := drip_rest
|}.
Next Obligation.
  intros n [[] s] b s' _ Hn E; cbn in E; [done|]. injection E as <- <-. cbn [drip_rest].
  split; [done|]. rewrite ztake_zdrop, len_ztake by lia. split; [done|]. split; [lia|].
  intros E%(f_equal len). rewrite len_ztake in E by lia. apply len_zero. len_lia.
Qed.
Next Obligation. intros n [[] s] s' _ Hn E; cbn in E; [by injection E as <-|done]. Qed.
Next Obligation. by intros n [[] s] s' _ Hn. Qed.

Import RefHttp RefHttparse.

Definition ex_chunked : bytes := bs "3;x=y" ++ CRLF ++ bs "foo" ++ CRLF ++ bs "0" ++ CRLF ++ CRLF ++ bs "HTTP".

Definition ex_mid : Decoder := mkDecoder (Chunked (mkChunked BodyCr 0 3 None 0 None None)).
Definition ex_left : bytes := CRLF ++ bs "0" ++ CRLF ++ CRLF ++ bs "HTTP".

Lemma ex_call : decode (R:=bytes) 30 (decoder_chunked None None) ex_chunked = (RVal (FData (bs "foo")), (ex_mid, ex_left)).
Proof. vm_compute. reflexivity. Qed.

Lemma decode_safe_witness :
  decode (R:=bytes) 30 (decoder_chunked None None) ex_chunked = (RVal (FData (bs "foo")), (ex_mid, ex_left)) /\
  decoder_wf ex_mid /\ exists p, ex_chunked = p ++ ex_left.
Proof.
  split; [exact ex_call|].
  pose proof (decode_safe (R:=bytes) 30 (decoder_chunked None None) ex_chunked I
    (chunked_new_wf 100 16384 None None eq_refl eq_refl) eq_refl ltac:(vm_compute; lia)) as Hs.
  rewrite ex_call in Hs. destruct Hs as (Hw & _ & Hp). split; [exact Hw | exact Hp].
Defined.

(** Take the steps of a run on a concrete reader until the body ends. *)
Ltac run_body :=
  repeat first
    [ eapply run_end; [vm_compute; reflexivity | vm_compute; reflexivity]
    | eapply run_trailers; vm_compute; reflexivity
    | eapply run_data; [vm_compute; reflexivity | vm_compute; reflexivity |]
    | eapply run_pending; [vm_compute; reflexivity | exact I | reflexivity |] ].

Lemma length_body_exact_witness :
  exists out d' r', decode_run (R:=drip) 1 (decoder_length 3) (mkDrip false (bs "fooHTTP")) out None d' r' /\
    len out = 3 /\ is_eof d' = true.
Proof.
  assert (exists out d' r',
    decode_run (R:=drip) 1 (decoder_length 3) (mkDrip false (bs "fooHTTP")) out None d' r')
    as (out & d' & r' & Hr) by (eexists _, _, _; run_body).
  exists out, d', r'. split; [exact Hr|].
  pose proof (length_body_exact (R:=drip) 1 3 (mkDrip false (bs "fooHTTP"))) as Hx.
  destruct (proj1 (Hx I ltac:(lia)) _ _ _ _ Hr) as (_ & Hl & _ & He). split; [exact Hl | exact He].
Defined.

Lemma eof_body_whole_witness :
  exists out d' r', decode_run (R:=drip) 1 decoder_eof (mkDrip false (bs "foo")) out None d' r' /\ out = bs "foo".
Proof.
  assert (exists out d' r', decode_run (R:=drip) 1 decoder_eof (mkDrip false (bs "foo")) out None d' r')
    as (out & d' & r' & Hr) by (eexists _, _, _; run_body).
  exists out, d', r'. split; [exact Hr|].
  pose proof (eof_body_whole (R:=drip) 1 (mkDrip false (bs "foo"))) as Hx.
  exact (proj1 (proj1 (Hx I) _ _ _ _ Hr)).
Defined.

Lemma chunked_bounds_witness :
  exists d', chunked_reach (R:=bytes) None None d' /\ exists c, kind d' = Chunked c /\ extensions_cnt c = 3 /\
    0 <= extensions_cnt c < 16384.
Proof.
  assert (chunked_reach (R:=bytes) None None ex_mid) as Hr.
  { apply (reach_call None None 30 (decoder_chunked None None) ex_chunked (RVal (FData (bs "foo"))) ex_mid ex_left);
      [apply reach_new | exact I | reflexivity | exact ex_call | right; eexists; reflexivity]. }
  exists ex_mid. split; [exact Hr|].
  destruct (chunked_bounds (R:=bytes) None None _ Hr) as (c & Ek & _ & He & _).
  exists c. split; [exact Ek|]. split; [|exact He]. injection Ek as <-. reflexivity.
Defined.

Lemma chunked_fragmentation_witness :
  exists out d1 d2 r1 r2,
    decode_run (R:=bytes) 30 (decoder_chunked None None) ex_chunked out None d1 r1 /\
    decode_run (R:=drip) 30 (decoder_chunked None None) (mkDrip true ex_chunked) out None d2 r2 /\
    stream r1 = stream r2.
Proof.
  assert (exists d1 r1, decode_run (R:=bytes) 30 (decoder_chunked None None) ex_chunked (bs "foo") None d1 r1)
    as (d1 & r1 & H1) by (eexists _, _; change (bs "foo") with (bs "foo" ++ []); run_body).
  assert (exists out d2 r2,
    decode_run (R:=drip) 30 (decoder_chunked None None) (mkDrip true ex_chunked) out None d2 r2)
    as (out & d2 & r2 & H2) by (eexists _, _, _; run_body).
  pose proof (chunked_fragmentation (R1:=bytes) (R2:=drip) 30 30 None None ex_chunked (mkDrip true ex_chunked)
    (bs "foo") out None None d1 d2 r1 r2) as Hx. destruct (Hx I I eq_refl H1 H2) as (<- & _ & Es).
  exists (bs "foo"), d1, d2, r1, r2. split; [exact H1|]. split; [exact H2 | exact Es].
Defined.

Import RefBytes RefAlloc.

Lemma chunked_roundtrip_witness :
  exists d' r', decode_run (R:=bytes) 40 (decoder_chunked None None)
    (bs "3" ++ CRLF ++ bs "foo" ++ CRLF ++ bs "2" ++ CRLF ++ bs "ok" ++ CRLF ++ bs "0" ++ CRLF ++ CRLF ++ bs "H")
    (bs "foook") None d' r' /\ r' = bs "H".
Proof.
  destruct (chunked_roundtrip (B:=bytes) (R:=bytes) [bs "foo"; bs "ok"]) as (wire & e & E & _ & Hd).
  { repeat constructor; vm_compute; discriminate. }
  vm_compute in E. injection E as <- <-.
  apply (Hd _ (bs "H") 40%nat None None); [|exact I|vm_compute; reflexivity|vm_compute; lia].
  intros n r _ _. eexists _, _. reflexivity.
Defined.
