(* ===== verification/Io.v ===== *)
(** * Buffered I/O (src/src/core/proto/h1/io.rs, [Buffered] and [ReadStrategy])

    The transport is an interface ([Transport], [TransportLaws]: the traits of
    src/src/core/rt/io.rs and their documented contract).  [Buffered] puts a read
    buffer with an adaptive read size and the write buffer of WriteBuf.v on top
    of it, and is the reader the decoders are used with. *)

From S2P Require Import Prelude Buf WriteBuf Decode Error.
Import Error.

(** ** The transport *)

(** [poll_read room] is [Read::poll_read] on a destination with [room] bytes of
    unfilled space and yields what was filled in. *)
Class Transport (T : Type) := {
  poll_read : Z -> T -> poll_res io_error bytes * T;
  poll_write : bytes -> T -> poll_res io_error Z * T;
  io_poll_flush : T -> poll_res io_error unit * T;
  io_poll_shutdown : T -> poll_res io_error unit * T;
  is_write_vectored : T -> bool;
  poll_write_vectored : list bytes -> T -> poll_res io_error Z * T
}.

(** [input] is what the peer's bytes still to be read are, [output] what has
    been handed to the peer. *)
Class TransportLaws (T : Type) `{Transport T} := {
  tr_wf : T -> Prop;
  input : T -> bytes;
  output : T -> bytes;
  poll_read_ok n t :
    tr_wf t -> 0 < n ->
    match poll_read n t with
    | (RVal b, t') => tr_wf t' /\ input t = b ++ input t' /\ output t' = output t /\ len b <= n /\
        (b = [] -> input t = [])
    | (RPending, t') | (RErr _, t') => tr_wf t' /\ input t' = input t /\ output t' = output t
    | _ => False
    end;
  poll_write_ok b t :
    tr_wf t ->
    match poll_write b t with
    | (RVal n, t') => tr_wf t' /\ input t' = input t /\ 0 <= n <= len b /\ output t' = output t ++ ztake n b
    | (RPending, t') | (RErr _, t') => tr_wf t' /\ input t' = input t /\ output t' = output t
    | _ => False
    end;
  poll_write_vectored_ok l t :
    tr_wf t ->
    match poll_write_vectored l t with
    | (RVal n, t') =>
        tr_wf t' /\ input t' = input t /\ 0 <= n <= len (concat l) /\ output t' = output t ++ ztake n (concat l)
    | (RPending, t') | (RErr _, t') => tr_wf t' /\ input t' = input t /\ output t' = output t
    | _ => False
    end;
  poll_flush_ok t :
    tr_wf t ->
    match io_poll_flush t with
    | (RVal _, t') | (RPending, t') | (RErr _, t') => tr_wf t' /\ input t' = input t /\ output t' = output t
    | _ => False
    end;
  poll_shutdown_ok t :
    tr_wf t ->
    match io_poll_shutdown t with
    | (RVal _, t') | (RPending, t') | (RErr _, t') => tr_wf t' /\ input t' = input t /\ output t' = output t
    | _ => False
    end
}.

(** The provided body of [Write::poll_write_vectored]: write the first slice
    that is not empty. *)
Definition default_poll_write_vectored {T} (write : bytes -> T -> poll_res io_error Z * T)
    (bufs : list bytes) : T -> poll_res io_error Z * T :=
  write (default [] (List.find (fun b => match b with [] => false | _ => true end) bufs)).

(** ** [ReadStrategy] *)

Inductive ReadStrategy :=
| Adaptive (decrease_now : bool) (next max : Z)
| ExactSize (exact : Z).

Definition with_max (max : Z) : ReadStrategy := Adaptive false INIT_BUFFER_SIZE max.
Definition strategy_default : ReadStrategy := with_max DEFAULT_MAX_BUFFER_SIZE.

Definition strategy_next (s : ReadStrategy) : Z :=
  match s with Adaptive _ next _ => next | ExactSize exact => exact end.
Definition strategy_max (s : ReadStrategy) : Z :=
  match s with Adaptive _ _ max => max | ExactSize exact => exact end.

Definition incr_power_of_two (n : Z) : Z := saturating_mul n 2.

Definition leading_zeros (n : Z) : Z := if n =? 0 then 64 else 63 - Z.log2 n.

(** A shift amount is taken modulo the width in release mode. *)
Definition prev_power_of_two (n : Z) : Z :=
  wadd (Z.shiftr usize_max ((leading_zeros n + 2) mod 64)) 1.

Definition record (bytes_read : Z) (s : ReadStrategy) : ReadStrategy :=
  match s with
  | Adaptive decrease_now next max =>
      if next <=? bytes_read then Adaptive false (Z.min (incr_power_of_two next) max) max
      else
        let decr_to := prev_power_of_two next in
        if bytes_read <? decr_to then
          if decrease_now then Adaptive false (Z.max decr_to INIT_BUFFER_SIZE) max
          else Adaptive true next max
        else Adaptive false next max
  | ExactSize _ => s
  end.

(** ** [Buffered] *)

Record Buffered (T B : Type) := mkBuffered {
  flush_pipeline : bool;
  io : T;
  partial_len : option Z;
  read_blocked : bool;
  read_buf : bytes;
  read_cap : Z;
  read_buf_strategy : ReadStrategy;
  write_buf : WriteBuf B
}.
Arguments mkBuffered {T B} _ _ _ _ _ _ _ _.
Arguments flush_pipeline {T B} _.
Arguments io {T B} _.
Arguments partial_len {T B} _.
Arguments read_blocked {T B} _.
Arguments read_buf {T B} _.
Arguments read_cap {T B} _.
Arguments read_buf_strategy {T B} _.
Arguments write_buf {T B} _.

Section Buffered.
Context `{BytesCrate} `{Alloc} {T : Type} `{Transport T} {B : Type} `{Buf B}.
Implicit Types b : Buffered T B.

Definition set_io (t : T) b : Buffered T B :=
  mkBuffered (flush_pipeline b) t (partial_len b) (read_blocked b) (read_buf b) (read_cap b)
    (read_buf_strategy b) (write_buf b).
Definition set_partial_len (p : option Z) b : Buffered T B :=
  mkBuffered (flush_pipeline b) (io b) p (read_blocked b) (read_buf b) (read_cap b)
    (read_buf_strategy b) (write_buf b).
Definition set_read_blocked (x : bool) b : Buffered T B :=
  mkBuffered (flush_pipeline b) (io b) (partial_len b) x (read_buf b) (read_cap b)
    (read_buf_strategy b) (write_buf b).
Definition set_read_buf (s : bytes) (cap : Z) b : Buffered T B :=
  mkBuffered (flush_pipeline b) (io b) (partial_len b) (read_blocked b) s cap
    (read_buf_strategy b) (write_buf b).
Definition set_read_strategy (s : ReadStrategy) b : Buffered T B :=
  mkBuffered (flush_pipeline b) (io b) (partial_len b) (read_blocked b) (read_buf b) (read_cap b)
    s (write_buf b).
Definition set_write_buf (w : WriteBuf B) b : Buffered T B :=
  mkBuffered (flush_pipeline b) (io b) (partial_len b) (read_blocked b) (read_buf b) (read_cap b)
    (read_buf_strategy b) w.

Definition buffered_new (t : T) : Buffered T B :=
  let strategy := if is_write_vectored t then Queue else Flatten in
  mkBuffered false t None false [] 0 strategy_default (writebuf_new strategy).

(** [None]: the [assert!] fails. *)
Definition buffered_set_max_buf_size (max : Z) b : option (Buffered T B) :=
  if MINIMUM_MAX_BUFFER_SIZE <=? max then
    Some (set_write_buf (set_max_buf_size max (write_buf b)) (set_read_strategy (with_max max) b))
  else None.
Definition set_read_buf_exact_size (sz : Z) b : Buffered T B :=
  set_read_strategy (ExactSize sz) b.
Definition set_write_strategy_flatten b : Buffered T B :=
  set_write_buf (set_strategy Flatten (write_buf b)) b.
Definition set_write_strategy_queue b : Buffered T B :=
  set_write_buf (set_strategy Queue (write_buf b)) b.

Definition read_buf_remaining_mut b : Z := wsub (read_cap b) (len (read_buf b)).

Definition can_headers_buf b : bool := negb (0 <? remaining (queue (write_buf b))).

(** Appending to [headers_buf()]. *)
Definition headers_buf_extend (s : bytes) b : Buffered T B :=
  set_write_buf (set_headers (cursor_extend s (headers (write_buf b))) (write_buf b)) b.

Definition buffered_buffer {BB} `{Buf BB} (into : BB -> B) (buf : BB) b : option (Buffered T B) :=
  w ← buffer into buf (write_buf b); Some (set_write_buf w b).
Definition buffered_can_buffer b : bool := flush_pipeline b || writebuf_can_buffer (write_buf b).

(** [self.read_buf.advance(n)] and [split_to(n)] *)
Definition read_buf_advance (n : Z) b : Buffered T B :=
  set_read_buf (zdrop n (read_buf b)) (bm_advance (len (read_buf b)) (read_cap b) n) b.

Fixpoint leading_lines (s : bytes) : Z :=
  match s with
  | c :: s' => if (c =? CR) || (c =? LF) then 1 + leading_lines s' else 0
  | [] => 0
  end.
Definition consume_leading_lines b : Buffered T B :=
  match read_buf b with
  | [] => b
  | s => read_buf_advance (leading_lines s) b
  end.

Definition poll_read_from_io : PM io_error (Buffered T B) Z :=
  fun b =>
    let b := set_read_blocked false b in
    let next := strategy_next (read_buf_strategy b) in
    let cap :=
      if read_buf_remaining_mut b <? next then bm_reserve (len (read_buf b)) (read_cap b) next
      else read_cap b in
    let cap := bm_chunk_mut (len (read_buf b)) cap in
    let b := set_read_buf (read_buf b) cap b in
    match poll_read (cap - len (read_buf b)) (io b) with
    | (RVal filled, t) =>
        let n := len filled in
        let b := set_read_buf (read_buf b ++ filled) cap (set_io t b) in
        (RVal n, set_read_strategy (record n (read_buf_strategy b)) b)
    | (RPending, t) => (RPending, set_read_blocked true (set_io t b))
    | (RErr e, t) => (RErr e, set_io t b)
    | (RPanic, t) => (RPanic, set_io t b)
    | (RFuel, t) => (RFuel, set_io t b)
    end.

(** [impl MemRead for Buffered] *)
Definition buffered_read_mem (n : Z) : PM io_error (Buffered T B) bytes :=
  fun b =>
    match read_buf b with
    | [] =>
        match poll_read_from_io b with
        | (RVal got, b') =>
            let n := Z.min n got in (RVal (ztake n (read_buf b')), read_buf_advance n b')
        | (RPending, b') => (RPending, b')
        | (RErr e, b') => (RErr e, b')
        | (RPanic, b') => (RPanic, b')
        | (RFuel, b') => (RFuel, b')
        end
    | s => let n := Z.min n (len s) in (RVal (ztake n s), read_buf_advance n b)
    end.
#[export] Instance buffered_mem_read : MemRead (Buffered T B) := {| read_mem := buffered_read_mem |}.

(** [Buffered::parse], for a head parser that may consume from the buffer
    and change its context [C]; a parser that panics yields [None]. *)
Section Parse.
Context {C M : Type}
  (parse_headers : bytes -> option Z -> C -> option (result (option M) Parse) * bytes * C).

Fixpoint parse (fuel : nat) (ctx : C) : Buffered T B -> poll_res Error M * (Buffered T B * C) :=
  fun b =>
    match fuel with
    | O => (RFuel, (b, ctx))
    | S fuel =>
        let '(res, rest, ctx) := parse_headers (read_buf b) (partial_len b) ctx in
        let b := read_buf_advance (len (read_buf b) - len rest) b in
        match res with
        | None => (RPanic, (b, ctx))
        | Some (Err e) => (RErr (from_parse e), (b, ctx))
        | Some (Ok (Some msg)) => (RVal msg, (set_partial_len None b, ctx))
        | Some (Ok None) =>
            let curr_len := len (read_buf b) in
            if strategy_max (read_buf_strategy b) <=? curr_len then (RErr new_too_large, (b, ctx))
            else
              let b := set_partial_len (if 0 <? curr_len then Some curr_len else None) b in
              match poll_read_from_io b with
              | (RVal n, b) => if n =? 0 then (RErr new_incomplete, (b, ctx)) else parse fuel ctx b
              | (RPending, b) => (RPending, (b, ctx))
              | (RErr e, b) => (RErr (new_io e), (b, ctx))
              | (RPanic, b) => (RPanic, (b, ctx))
              | (RFuel, b) => (RFuel, (b, ctx))
              end
        end
    end.
End Parse.

(** ** Flushing *)

Definition on_io {A} (m : T -> poll_res io_error A * T) : PM io_error (Buffered T B) A :=
  fun b => let '(r, t) := m (io b) in (r, set_io t b).

Local Open Scope poll_scope.

Fixpoint flush_flattened_loop (fuel : nat) : PM io_error (Buffered T B) unit :=
  match fuel with
  | O => fun b => (RFuel, b)
  | S fuel =>
      n <~ (fun b => on_io (poll_write (chunk (headers (write_buf b)))) b) ;;
      fun b =>
        match advance n (headers (write_buf b)) with
        | None => (RPanic, b)
        | Some h =>
            let b := set_write_buf (set_headers h (write_buf b)) b in
            if remaining h =? 0 then
              (RVal tt, set_write_buf (set_headers (cursor_reset h) (write_buf b)) b)
            else if n =? 0 then (RErr (IoError WriteZero ""), b)
            else flush_flattened_loop fuel b
        end
  end.
Definition poll_flush_flattened (fuel : nat) : PM io_error (Buffered T B) unit :=
  flush_flattened_loop fuel ;; on_io io_poll_flush.

Definition MAX_WRITEV_BUFS : Z := 64.
Fixpoint flush_queue_loop (fuel : nat) : PM io_error (Buffered T B) unit :=
  match fuel with
  | O => fun b => (RFuel, b)
  | S fuel =>
      n <~ (fun b => on_io (poll_write_vectored (chunks_vectored MAX_WRITEV_BUFS (write_buf b))) b) ;;
      fun b =>
        match advance n (write_buf b) with
        | None => (RPanic, b)
        | Some w =>
            let b := set_write_buf w b in
            if remaining w =? 0 then (RVal tt, b)
            else if n =? 0 then (RErr (IoError WriteZero ""), b)
            else flush_queue_loop fuel b
        end
  end.

Definition buffered_poll_flush (fuel : nat) : PM io_error (Buffered T B) unit :=
  fun b =>
    if flush_pipeline b && negb (match read_buf b with [] => true | _ => false end) then (RVal tt, b)
    else if remaining (write_buf b) =? 0 then on_io io_poll_flush b
    else
      match strategy (write_buf b) with
      | Flatten => poll_flush_flattened fuel b
      | Queue => (flush_queue_loop fuel ;; on_io io_poll_flush) b
      end.

Definition into_inner b : T * bytes := (io b, read_buf b).
End Buffered.
