(* ===== verification/IoFacts.v ===== *)
(** * What the buffered I/O layer guarantees

    The read size stays within its bounds; the buffer is a lawful reader, so
    that every theorem about the decoders applies to a connection; flushing
    hands the pending bytes to the transport in order, losing none, whatever
    the transport does. *)

From S2P Require Import Prelude Buf WriteBuf Decode Error Io.
Import Error.

(** ** The adaptive read size *)

Definition strategy_wf (s : ReadStrategy) : Prop :=
  match s with
  | Adaptive _ next max => INIT_BUFFER_SIZE <= next <= max /\ max <= usize_max
  | ExactSize _ => True
  end.

Lemma prev_power_of_two_spec n :
  4 <= n <= usize_max -> prev_power_of_two n = 2 ^ (Z.log2 n - 1).
Proof.
  intros Hn. unfold prev_power_of_two, leading_zeros. rewrite (proj2 (Z.eqb_neq _ _)) by lia.
  assert (2 <= Z.log2 n <= 63) as Hl.
  { split; [apply Z.log2_le_pow2; lia|]. apply Z.lt_succ_r, Z.log2_lt_pow2; [lia|].
    unfold usize_max, u64_max in Hn. lia. }
  rewrite Z.mod_small by lia. rewrite Z.shiftr_div_pow2 by lia.
  replace (63 - Z.log2 n + 2) with (64 - (Z.log2 n - 1)) by lia.
  set (k := Z.log2 n - 1) in *. assert (1 <= k <= 62) by lia.
  assert (usize_max / 2 ^ (64 - k) = 2 ^ k - 1) as ->.
  { change usize_max with (2 ^ 64 - 1). symmetry. apply (Z.div_unique _ _ _ (2 ^ (64 - k) - 1)).
    - left. pose proof (Z.pow_pos_nonneg 2 (64 - k)). lia.
    - assert (2 ^ 64 = 2 ^ (64 - k) * 2 ^ k) as -> by (rewrite <-Z.pow_add_r by lia; f_equal; lia). ring. }
  assert (2 ^ k <= 2 ^ 62) by (apply Z.pow_le_mono_r; lia). pose proof (Z.pow_pos_nonneg 2 k).
  rewrite wadd_small; [lia | lia | lia |]. unfold u64_max. lia.
Qed.

Lemma prev_power_of_two_lt n : 4 <= n <= usize_max -> 0 < prev_power_of_two n < n.
Proof.
  intros Hn. rewrite prev_power_of_two_spec by done.
  assert (2 <= Z.log2 n) by (apply Z.log2_le_pow2; lia).
  split; [apply Z.pow_pos_nonneg; lia|]. eapply Z.lt_le_trans; [|apply Z.log2_spec; lia].
  apply Z.pow_lt_mono_r; lia.
Qed.

Lemma record_wf n s : strategy_wf s -> strategy_wf (record n s).
Proof.
  destruct s as [d next max|e]; [|done]. cbn. unfold INIT_BUFFER_SIZE. intros [Hn Hm].
  pose proof (prev_power_of_two_lt next ltac:(lia)). unfold incr_power_of_two, saturating_mul.
  unfold usize_max, u64_max in *. repeat case_match; cbn; unfold usize_max, u64_max, INIT_BUFFER_SIZE; lia.
Qed.

(** ** The buffer as a reader *)

Section Reader.
Context `{BytesCrateLaws} {AL : Alloc} {ALL : AllocLaws} {T : Type} `{TransportLaws T} {B : Type} `{Buf B}.
Implicit Types b : Buffered T B.

Definition read_wf b : Prop := tr_wf (io b) /\ len (read_buf b) <= read_cap b.
Definition incoming b : bytes := read_buf b ++ input (io b).

(** What a read from the transport may change. *)
Definition same_write b b' : Prop :=
  write_buf b' = write_buf b /\ output (io b') = output (io b) /\
  flush_pipeline b' = flush_pipeline b /\ partial_len b' = partial_len b.

Lemma poll_read_from_io_ok b :
  read_wf b ->
  match poll_read_from_io b with
  | (RVal n, b') =>
      read_wf b' /\ incoming b' = incoming b /\ same_write b b' /\
      len (read_buf b') = len (read_buf b) + n /\ 0 <= n /\ len (input (io b')) = len (input (io b)) - n /\
      (n = 0 -> input (io b) = [])
  | (RPending, b') => read_wf b' /\ incoming b' = incoming b /\ same_write b b' /\ read_blocked b' = true /\
      read_buf b' = read_buf b /\ read_buf_strategy b' = read_buf_strategy b
  | (RErr _, b') => read_wf b' /\ incoming b' = incoming b /\ same_write b b'
  | _ => False
  end.
Proof.
  intros [Ht Hc]. unfold poll_read_from_io. cbv zeta.
  set (cap := bm_chunk_mut _ _). cbn [set_read_blocked set_read_buf io read_buf read_buf_strategy].
  assert (len (read_buf b) < cap) as Hcap by apply bm_chunk_mut_room.
  pose proof (poll_read_ok (cap - len (read_buf b)) (io b) Ht ltac:(lia)) as Hr.
  destruct (poll_read (cap - len (read_buf b)) (io b)) as [[f| |e| |] t]; try done.
  - destruct Hr as (Ht' & Hi & Ho & Hl & He). unfold read_wf, incoming, same_write. cbn.
    rewrite Hi, len_app, <-app_assoc. split_and!; try done; try len_lia.
    intros E%len_zero. subst f. rewrite <-Hi. by apply He.
  - destruct Hr as (Ht' & Hi & Ho). unfold read_wf, incoming, same_write. cbn. rewrite Hi.
    split_and!; (done || lia).
  - destruct Hr as (Ht' & Hi & Ho). unfold read_wf, incoming, same_write. cbn. rewrite Hi.
    split_and!; (done || lia).
Qed.

Lemma poll_read_error_buf b b' e :
  poll_read_from_io b = (RErr e, b') -> read_buf b' = read_buf b.
Proof.
  unfold poll_read_from_io. cbv zeta. destruct (poll_read _ _) as [[f| |e'| |] t]; try done.
  by intros [= <- <-].
Qed.

Lemma read_buf_advance_ok n b :
  read_wf b -> 0 <= n <= len (read_buf b) ->
  read_wf (read_buf_advance n b) /\ read_buf b = ztake n (read_buf b) ++ read_buf (read_buf_advance n b) /\
  io (read_buf_advance n b) = io b.
Proof.
  intros [Ht Hc] Hn. unfold read_wf, read_buf_advance. cbn. rewrite ztake_zdrop. split_and!; [done| |done..].
  rewrite len_zdrop by lia. pose proof (bm_advance_room (len (read_buf b)) (read_cap b) n ltac:(lia)). lia.
Qed.

(** Dropping input keeps the buffer well formed, whatever the count. *)
Lemma read_buf_advance_wf n b : read_wf b -> read_wf (read_buf_advance n b).
Proof.
  intros [Ht Hc]. split; [done|]. unfold read_buf_advance. cbn.
  pose proof (bm_advance_room (len (read_buf b)) (read_cap b) n ltac:(len_lia)).
  unfold zdrop, len in *. rewrite length_drop. lia.
Qed.

(** Reading leaves the write side and the partial length alone. *)
Definition read_only w (p : option Z) out b : Prop :=
  read_wf b /\ write_buf b = w /\ partial_len b = p /\ output (io b) = out.

Lemma read_mem_read_only w p out n b : read_only w p out b -> read_only w p out (read_mem n b).2.
Proof.
  intros (Hw & Eb & Ep & Eo). cbn. unfold buffered_read_mem.
  pose proof (poll_read_from_io_ok b Hw) as Hr.
  destruct (read_buf b); [|by split; [apply read_buf_advance_wf|]].
  destruct (poll_read_from_io b) as [[got| |e| |] b1]; try done; cbn [snd].
  - destruct Hr as (Hw1 & _ & (? & ? & _ & ?) & _).
    split; [by apply read_buf_advance_wf|]. cbn. split_and!; congruence.
  - destruct Hr as (Hw1 & _ & (? & ? & _ & ?) & _). split; [done|]. split_and!; congruence.
  - destruct Hr as (Hw1 & _ & (? & ? & _ & ?)). split; [done|]. split_and!; congruence.
Qed.

#[export] Program Instance buffered_mem_read_laws : MemReadLaws (Buffered T B) := {|
  rd_wf := read_wf; stream := incoming
|}.
Next Obligation.
  intros n b s b' Hw Hn E. cbn in E. unfold buffered_read_mem in E.
  destruct (read_buf b) as [|x rb] eqn:Erb.
  - pose proof (poll_read_from_io_ok b Hw) as Hr.
    destruct (poll_read_from_io b) as [[got| |e| |] b1]; try done. injection E as <- <-.
    destruct Hr as (Hw1 & Ei & _ & Hl & Hg & _ & He). rewrite Erb in Hl. change (len []) with 0 in Hl.
    destruct (read_buf_advance_ok (Z.min n got) b1 Hw1 ltac:(lia)) as (Hw2 & Er & Eio).
    split; [done|]. rewrite <-Ei. unfold incoming at 1 2. rewrite Eio.
    split; [rewrite app_assoc; congruence|]. rewrite len_ztake by lia. split; [lia|].
    intros Hz%(f_equal len). rewrite len_ztake in Hz by lia. change (len []) with 0 in Hz.
    rewrite Ei. unfold incoming. rewrite Erb. cbn. apply He. lia.
  - rewrite <-Erb in E. injection E as <- <-.
    destruct (read_buf_advance_ok (Z.min n (len (read_buf b))) b Hw ltac:(len_lia)) as (Hw2 & Er & Eio).
    split; [done|]. unfold incoming at 1 2. rewrite Eio.
    split; [rewrite app_assoc; congruence|]. rewrite len_ztake by len_lia. split; [lia|].
    intros Hz%(f_equal len). rewrite len_ztake in Hz by len_lia. rewrite Erb in Hz. len_lia.
Qed.
Next Obligation.
  intros n b b' Hw Hn E. cbn in E. unfold buffered_read_mem in E.
  destruct (read_buf b) as [|x rb] eqn:Erb; [|done].
  pose proof (poll_read_from_io_ok b Hw) as Hr.
  destruct (poll_read_from_io b) as [[got| |e| |] b1]; try done. injection E as <-. naive_solver.
Qed.
Next Obligation.
  intros n b b' Hw Hn. cbn. unfold buffered_read_mem. destruct (read_buf b); [|done].
  pose proof (poll_read_from_io_ok b Hw) as Hr. by destruct (poll_read_from_io b) as [[]].
Qed.
End Reader.

(** ** Flushing *)

Section Flush.
Context {BC : BytesCrate} {BCL : BytesCrateLaws} {AL : Alloc} {ALL : AllocLaws}.
Context {T : Type} `{TransportLaws T} {B : Type} {HB : Buf B} {HBL : BufLaws B}.
Implicit Types b : Buffered T B.

Ltac fields := cbn [set_write_buf set_io io write_buf read_buf read_cap flush_pipeline].

Definition write_wf b : Prop := tr_wf (io b) /\ writebuf_wf (write_buf b).

(** Everything that was ever buffered: what the transport took, then what is
    still waiting. *)
Definition sent b : bytes := output (io b) ++ pending (write_buf b).

Definition same_read b b' : Prop :=
  read_buf b' = read_buf b /\ read_cap b' = read_cap b /\ input (io b') = input (io b) /\
  flush_pipeline b' = flush_pipeline b /\ strategy (write_buf b') = strategy (write_buf b) /\
  partial_len b' = partial_len b.

(** The outcome of any flushing computation. *)
Definition flush_ok b (out : poll_res io_error unit * Buffered T B) : Prop :=
  match out with
  | (RVal _, b') => write_wf b' /\ sent b' = sent b /\ same_read b b' /\ pending (write_buf b') = []
  | (RPending, b') | (RErr _, b') => write_wf b' /\ sent b' = sent b /\ same_read b b'
  | (RPanic, _) => False
  | (RFuel, _) => False
  end.

Lemma flush_ok_trans b b1 out :
  sent b1 = sent b -> same_read b b1 -> flush_ok b1 out -> flush_ok b out.
Proof.
  intros Es (E1 & E2 & E3 & E4 & E5 & E6). unfold flush_ok, same_read.
  destruct out as [[u| |e| |] b2]; try done; rewrite Es, E1, E2, E3, E4, E5, E6; done.
Qed.

Lemma io_flush_ok b :
  write_wf b -> pending (write_buf b) = [] -> flush_ok b (on_io io_poll_flush b).
Proof.
  intros [Ht Hw] Hp. unfold on_io. pose proof (poll_flush_ok (io b) Ht) as Hf.
  destruct (io_poll_flush (io b)) as [[u| |e| |] t]; try done;
    destruct Hf as (Ht' & Hi & Ho); unfold flush_ok, write_wf, sent, same_read;
    fields; rewrite Ho, Hi; done.
Qed.

(** One write: [n] bytes move from the write buffer to the transport. *)
Lemma write_step b t w n :
  write_wf b -> tr_wf t -> input t = input (io b) -> 0 <= n <= len (pending (write_buf b)) ->
  output t = output (io b) ++ ztake n (pending (write_buf b)) ->
  writebuf_wf w -> pending w = zdrop n (pending (write_buf b)) -> strategy w = strategy (write_buf b) ->
  write_wf (set_write_buf w (set_io t b)) /\ sent (set_write_buf w (set_io t b)) = sent b /\
  same_read b (set_write_buf w (set_io t b)).
Proof.
  intros [_ Hw] Ht Hi Hn Ho Hw' Hp Hs. unfold write_wf, sent, same_read. fields.
  rewrite Ho, Hp, <-app_assoc, ztake_zdrop. done.
Qed.

Lemma flush_queue_ok fuel b :
  write_wf b -> pending (write_buf b) <> [] -> (length (pending (write_buf b)) < fuel)%nat ->
  flush_ok b ((flush_queue_loop fuel ;; on_io io_poll_flush)%poll b).
Proof.
  revert b. induction fuel as [|fuel IH]; intros b Hb Hne Hf; [lia|].
  unfold pbind. cbn [flush_queue_loop]. unfold pbind at 1, on_io at 1. pose proof Hb as [Ht Hw].
  set (l := chunks_vectored MAX_WRITEV_BUFS (write_buf b)).
  destruct (vectored_content (write_buf b) MAX_WRITEV_BUFS) as [k Ek]; [exact Hw|done|]. fold l in Ek.
  change (content (write_buf b)) with (pending (write_buf b)) in Ek.
  pose proof (poll_write_vectored_ok l (io b) Ht) as Hpw.
  destruct (poll_write_vectored l (io b)) as [[n| |e| |] t]; try done.
  2,3: destruct Hpw as (Ht' & Hi & Ho); unfold flush_ok, write_wf, sent, same_read; fields; by rewrite Ho, Hi.
  destruct Hpw as (Ht' & Hi & Hn & Ho).
  assert (n <= len (pending (write_buf b))) as Hn2 by (rewrite Ek, len_app; len_lia).
  destruct (advance_content (write_buf b) n) as (w & Ew & Hw' & Ep); [exact Hw|exact (conj (proj1 Hn) Hn2)|].
  change (write_buf (set_io t b)) with (write_buf b).
  assert (strategy w = strategy (write_buf b)) as Estr.
  { cbn in Ew. unfold writebuf_advance in Ew.
    repeat case_match; simplify_option_eq; done. }
  rewrite Ew. change (content w) with (pending w) in Ep.
  change (content (write_buf b)) with (pending (write_buf b)) in Ep.
  change (buf_wf w) with (writebuf_wf w) in Hw'.
  destruct (write_step b t w n) as (Hb' & Es & Hr); try done; [lia|by rewrite Ho, Ek, ztake_app_le by lia|].
  rewrite (remaining_content w) by exact Hw'. change (content w) with (pending w).
  destruct (Z.eqb_spec (len (pending w)) 0) as [E0|E0].
  - eapply flush_ok_trans; [done..|]. apply io_flush_ok; [done|]. by apply len_zero.
  - destruct (Z.eqb_spec n 0) as [->|Hn0]; [done|].
    eapply flush_ok_trans; [done..|]. apply IH; [done| |].
    + fields. intros E. by rewrite E in E0.
    + fields. rewrite Ep. unfold zdrop. rewrite length_drop. unfold len in *. lia.
Qed.

Lemma flush_flattened_ok fuel b :
  write_wf b -> strategy (write_buf b) = Flatten -> pending (write_buf b) <> [] ->
  (length (pending (write_buf b)) < fuel)%nat -> flush_ok b (poll_flush_flattened fuel b).
Proof.
  unfold poll_flush_flattened.
  revert b. induction fuel as [|fuel IH]; intros b Hb Hs Hne Hf; [lia|].
  unfold pbind. cbn [flush_flattened_loop]. unfold pbind at 1, on_io at 1.
  pose proof Hb as [Ht (Hh & Hq & Hl & Hst)]. specialize (Hst Hs).
  assert (pending (write_buf b) = content (headers (write_buf b))) as Epend.
  { unfold pending. by rewrite (content_queue_nil _ Hst), app_nil_r. }
  change (chunk (headers (write_buf b))) with (content (headers (write_buf b))). rewrite <-Epend.
  pose proof (poll_write_ok (pending (write_buf b)) (io b) Ht) as Hpw.
  destruct (poll_write (pending (write_buf b)) (io b)) as [[n| |e| |] t]; try done.
  2,3: destruct Hpw as (Ht' & Hi & Ho); unfold flush_ok, write_wf, sent, same_read; fields; by rewrite Ho, Hi.
  destruct Hpw as (Ht' & Hi & Hn & Ho). change (write_buf (set_io t b)) with (write_buf b).
  destruct (advance_content (headers (write_buf b)) n Hh) as (h & -> & Hh' & Eh); [by rewrite <-Epend|].
  rewrite <-Epend in Eh.
  assert (forall h', buf_wf h' -> content h' = zdrop n (pending (write_buf b)) ->
    writebuf_wf (set_headers h' (write_buf b)) /\
    pending (set_headers h' (write_buf b)) = zdrop n (pending (write_buf b))) as Hset.
  { intros h' Hw' Eh'. unfold writebuf_wf, pending. cbn [set_headers headers queue strategy].
    rewrite (content_queue_nil _ Hst), app_nil_r, Eh'. rewrite app_nil_r, <-Epend. split_and!; try done.
    rewrite len_zdrop by lia. len_lia. }
  rewrite remaining_content by done. destruct (Z.eqb_spec (len (content h)) 0) as [E0|E0].
  - destruct (cursor_reset_wf h) as [Hr1 Hr2]. apply len_zero in E0. rewrite E0 in Eh.
    destruct (Hset (cursor_reset h) Hr1) as [Hw2 Ep2]; [by rewrite Hr2|].
    destruct (write_step b t (set_headers (cursor_reset h) (write_buf b)) n) as (Hb' & Es & Hr); try done.
    eapply flush_ok_trans; [exact Es | exact Hr |]. apply io_flush_ok; [done|].
    exact (eq_trans Ep2 (eq_sym Eh)).
  - destruct (Hset h Hh' Eh) as [Hw2 Ep2].
    destruct (write_step b t (set_headers h (write_buf b)) n) as (Hb' & Es & Hr); try done.
    destruct (Z.eqb_spec n 0) as [->|Hn0]; [done|].
    eapply flush_ok_trans; [exact Es | exact Hr |]. apply IH; [done|done| |].
    + cbn [write_buf set_write_buf]. rewrite Ep2, <-Eh. intros E. by rewrite E in E0.
    + cbn [write_buf set_write_buf]. rewrite Ep2. unfold zdrop. rewrite length_drop. unfold len in *. lia.
Qed.

Lemma buffered_poll_flush_ok fuel (b : Buffered T B) :
  write_wf b -> (length (pending (write_buf b)) < fuel)%nat ->
  match buffered_poll_flush fuel b with
  | (RVal _, b') => write_wf b' /\ sent b' = sent b /\ same_read b b' /\
      (pending (write_buf b') = [] \/ flush_pipeline b = true /\ read_buf b <> [])
  | (RPending, b') | (RErr _, b') => write_wf b' /\ sent b' = sent b /\ same_read b b'
  | (RPanic, _) | (RFuel, _) => False
  end.
Proof.
  intros Hb Hf. unfold buffered_poll_flush.
  destruct (flush_pipeline b && _) eqn:Ep.
  { apply andb_true_iff in Ep as [Ep Er]. split; [done|]. split; [done|]. split; [done|]. right.
    by destruct (read_buf b). }
  assert (flush_ok b ((if remaining (write_buf b) =? 0 then on_io io_poll_flush b
    else match strategy (write_buf b) with
         | Flatten => poll_flush_flattened fuel b
         | Queue => (flush_queue_loop fuel ;; on_io io_poll_flush)%poll b end))) as Hok.
  { rewrite remaining_content by apply Hb. change (content (write_buf b)) with (pending (write_buf b)).
    destruct (Z.eqb_spec (len (pending (write_buf b))) 0) as [E|E].
    - apply io_flush_ok; [done|]. by apply len_zero.
    - assert (pending (write_buf b) <> []) by (by intros Ez; rewrite Ez in E).
      destruct (strategy (write_buf b)) eqn:Es; [by apply flush_flattened_ok | by apply flush_queue_ok]. }
  destruct (if remaining (write_buf b) =? 0 then _ else _) as [[u| |e| |] b']; try done.
  destruct Hok as (? & ? & ? & ?). split; [done|]. split; [done|]. split; [done|]. by left.
Qed.
End Flush.

(** ** The parse loop *)

Section ParseLoop.
Context {BC : BytesCrate} {BCL : BytesCrateLaws} {AL : Alloc} {ALL : AllocLaws}.
Context {T : Type} `{TransportLaws T} {B : Type} {HB : Buf B}.
Context {C M : Type}
  (parse_headers : bytes -> option Z -> C -> option (result (option M) Parse) * bytes * C).
Implicit Types b : Buffered T B.

(** What was scanned before is still there. *)
Definition scanned (s : bytes) (p : option Z) : Prop := forall n, p = Some n -> 0 <= n <= len s.

(** A head parser takes a prefix of the buffer, and does not panic on a buffer
    whose scanned part is still there. *)
Definition parser_ok : Prop :=
  forall s p c, (exists used, s = used ++ (parse_headers s p c).1.2) /\
    (scanned s p -> (parse_headers s p c).1.1 <> None).
Hypothesis parser_prefix : parser_ok.

Definition same_out b b' : Prop :=
  write_buf b' = write_buf b /\ output (io b') = output (io b) /\ flush_pipeline b' = flush_pipeline b.

(** The read side moved forward, the write side did not move. *)
Definition consumed b b' : Prop :=
  read_wf b' /\ same_out b b' /\ exists used, incoming b = used ++ incoming b'.

Lemma consumed_trans b1 b2 b3 : consumed b1 b2 -> consumed b2 b3 -> consumed b1 b3.
Proof.
  intros (_ & (E1 & E2 & E3) & u & Eu) (Hw & (F1 & F2 & F3) & v & Ev). split; [done|].
  split; [split_and!; congruence|]. exists (u ++ v). by rewrite Eu, Ev, app_assoc.
Qed.

Definition parse_ok b (out : poll_res Error M * (Buffered T B * C)) : Prop :=
  match out with
  | (RVal _, (b', _)) => consumed b b' /\ partial_len b' = None
  | (RPending, (b', _)) => consumed b b' /\
      partial_len b' = (if 0 <? len (read_buf b') then Some (len (read_buf b')) else None) /\
      len (read_buf b') < strategy_max (read_buf_strategy b') /\ read_blocked b' = true
  | (RErr _, (b', _)) => consumed b b'
  | (RPanic, _) | (RFuel, _) => False
  end.

Lemma parse_ok_trans b b1 out : consumed b b1 -> parse_ok b1 out -> parse_ok b out.
Proof.
  intros Hc. unfold parse_ok. destruct out as [[m| |e| |] [b2 c2]]; try done.
  - intros [? ?]. split; [by eapply consumed_trans | done].
  - intros [? ?]. split; [by eapply consumed_trans | done].
  - intros ?. by eapply consumed_trans.
Qed.

(** Dropping what the parser used. *)
Lemma parser_consumes b p c :
  read_wf b ->
  consumed b (read_buf_advance (len (read_buf b) - len (parse_headers (read_buf b) p c).1.2) b).
Proof.
  intros Hw. destruct (parser_prefix (read_buf b) p c) as [[used Eu] _].
  set (rest := (parse_headers (read_buf b) p c).1.2) in *.
  assert (len (read_buf b) = len used + len rest) as El by (rewrite Eu at 1; apply len_app).
  destruct (read_buf_advance_ok (len (read_buf b) - len rest) b Hw) as (Hw' & Er & Eio); [len_lia|].
  split; [done|]. split; [by unfold same_out; rewrite Eio|].
  exists (ztake (len (read_buf b) - len rest) (read_buf b)). unfold incoming. rewrite Eio, app_assoc. congruence.
Qed.

Lemma parse_loop_ok fuel ctx b :
  read_wf b -> scanned (read_buf b) (partial_len b) ->
  (length (input (io b)) < fuel)%nat -> parse_ok b (parse parse_headers fuel ctx b).
Proof.
  revert ctx b. induction fuel as [|fuel IH]; intros ctx b Hw Hsc Hf; [lia|].
  cbn [parse]. pose proof (parser_consumes b (partial_len b) ctx Hw) as Hc.
  destruct (parser_prefix (read_buf b) (partial_len b) ctx) as [_ Hnp]. specialize (Hnp Hsc).
  destruct (parse_headers (read_buf b) (partial_len b) ctx) as [[res rest] ctx'].
  cbn [fst snd] in Hc, Hnp. destruct res as [res|]; [|done]. set (b1 := read_buf_advance _ b) in *.
  eapply parse_ok_trans; [exact Hc|]. destruct Hc as (Hw1 & _ & _).
  assert (forall p, consumed b1 (set_partial_len p b1)) as Hset by (intros p; split; [done|]; split; [done|by exists []]).
  destruct res as [[m|]|e].
  - split; [apply Hset | done].
  - cbv zeta. destruct (Z.leb_spec (strategy_max (read_buf_strategy b1)) (len (read_buf b1))); [apply (Hset (partial_len b1))|].
    set (pl := if 0 <? len (read_buf b1) then _ else _). eapply parse_ok_trans; [apply (Hset pl)|].
    set (b2 := set_partial_len pl b1). pose proof (poll_read_from_io_ok b2 Hw1) as Hr.
    destruct (poll_read_from_io b2) as [[n| |e| |] b3] eqn:Er; try done.
    + destruct Hr as (Hw3 & Ei & (W1 & W2 & W3 & W4) & Hl & Hn & Hin & _).
      assert (consumed b2 b3) as Hc3 by (split; [done|]; split; [done|]; exists []; by rewrite Ei).
      destruct (Z.eqb_spec n 0) as [->|Hn0]; [done|]. eapply parse_ok_trans; [exact Hc3|].
      apply IH; [done| |].
      { rewrite W4. intros m. change (partial_len b2) with pl. change (read_buf b2) with (read_buf b1) in Hl.
        subst pl. destruct (0 <? len (read_buf b1)); [|done]. intros E%(inj Some). subst m.
        rewrite Hl. pose proof (len_nonneg (read_buf b1)). lia. }
      change (io b2) with (io b) in Hin. unfold len in Hin. lia.
    + destruct Hr as (Hw3 & Ei & (W1 & W2 & W3 & W4) & Hbl & Erb & Est).
      split; [|rewrite W4, Erb, Est; done].
      split; [done|]. split; [done|]. exists []. by rewrite Ei.
    + destruct Hr as (Hw3 & Ei & (W1 & W2 & W3 & W4)). split; [done|]. split; [done|]. exists []. by rewrite Ei.
  - apply (Hset (partial_len b1)).
Qed.

(** What holds of the context after every call of the parser holds at the end,
    and a message comes out of such a call. *)
Lemma parse_ctx_inv (I : C -> Prop) fuel ctx b :
  (forall s p c, I c -> I (parse_headers s p c).2) -> I ctx -> I (parse parse_headers fuel ctx b).2.2.
Proof using Type.
  intros Hi. revert ctx b. induction fuel as [|fuel IH]; intros ctx b Hc; [done|]. cbn [parse].
  specialize (Hi (read_buf b) (partial_len b) ctx Hc) as Hc'.
  destruct (parse_headers (read_buf b) (partial_len b) ctx) as [[res rest] ctx'].
  cbn in Hc'. repeat case_match; simplify_eq/=; first [done | by apply IH].
Qed.

Lemma parse_val_inv fuel ctx b m b' c' :
  parse parse_headers fuel ctx b = (RVal m, (b', c')) ->
  exists s p c0 rest, parse_headers s p c0 = (Some (Ok (Some m)), rest, c').
Proof using Type.
  revert ctx b. induction fuel as [|fuel IH]; intros ctx b E; [done|]. cbn [parse] in E.
  destruct (parse_headers (read_buf b) (partial_len b) ctx) as [[res rest] ctx'] eqn:Ep.
  destruct res as [[[m'|]|e]|]; try done.
  - injection E as <- <- <-. by eexists _, _, _, _.
  - cbv zeta in E. repeat (case_match; try done). all: by eapply IH.
Qed.
End ParseLoop.
