(* ===== verification/IoProps.v ===== *)
(** * Properties of the buffered I/O layer *)

From S2P Require Import Prelude Buf Models WriteBuf Decode Error Io IoFacts.
Import Error.

Section Properties.
Context {BC : BytesCrate} {BCL : BytesCrateLaws} {AL : Alloc} {ALL : AllocLaws}.
Context {T : Type} `{TransportLaws T} {B : Type} {HB : Buf B} {HBL : BufLaws B}.

(** C10. Flushing never loses, repeats or reorders a byte: after any call to
    [poll_flush], whether it completes, is pending or fails, the bytes the
    transport has accepted followed by the bytes still buffered are the same as
    before, and the read side is untouched.  When it completes, nothing is left
    in the buffer unless the pipeline shortcut applied.  The loops terminate:
    one turn per pending byte is enough. *)
Theorem poll_flush_conserves fuel (b : Buffered T B) :
  write_wf b -> (length (pending (write_buf b)) < fuel)%nat ->
  match buffered_poll_flush fuel b with
  | (RVal _, b') => write_wf b' /\ sent b' = sent b /\ same_read b b' /\
      (pending (write_buf b') = [] \/ flush_pipeline b = true /\ read_buf b <> [])
  | (RPending, b') | (RErr _, b') => write_wf b' /\ sent b' = sent b /\ same_read b b'
  | (RPanic, _) | (RFuel, _) => False
  end.
Proof. exact (buffered_poll_flush_ok fuel b). Qed.

(** The connection buffer is a faithful byte stream: a read of at most
    [n] bytes returns the next bytes of what was buffered or is still to come
    from the peer, an empty read means the end of the input, and a pending
    read loses nothing. *)
Theorem read_mem_stream n (b : Buffered T B) :
  read_wf b -> 0 < n ->
  match buffered_read_mem n b with
  | (RVal s, b') => read_wf b' /\ incoming b = s ++ incoming b' /\ len s <= n /\ (s = [] -> incoming b = [])
  | (RPending, b') => read_wf b' /\ incoming b' = incoming b
  | (RErr _, _) => True
  | (RPanic, _) | (RFuel, _) => False
  end.
Proof.
  intros Hw Hn. pose proof (fun b' => read_mem_total n b b' Hw Hn) as Ht.
  destruct (buffered_read_mem n b) as [[s| |e| |] b'] eqn:E.
  - exact (read_mem_val n b s b' Hw Hn E).
  - exact (read_mem_pending n b b' Hw Hn E).
  - done.
  - by destruct (Ht b').
  - by destruct (Ht b').
Qed.

Section Head.
Context {C M : Type}
  (parse_headers : bytes -> option Z -> C -> option (result (option M) Parse) * bytes * C).

(** [Buffered::parse] always returns, however the head arrives: for
    any head parser that only removes a prefix of the buffer and does not
    panic when the part already scanned is still there, it consumes a prefix of the incoming bytes and leaves the write side alone.  A pending
    call has left less than the maximum in the buffer and recorded how much of
    it was already scanned. *)
Theorem parse_consumes_prefix fuel ctx (b : Buffered T B) :
  parser_ok parse_headers -> read_wf b -> scanned (read_buf b) (partial_len b) ->
  (length (input (io b)) < fuel)%nat ->
  match parse parse_headers fuel ctx b with
  | (RVal _, (b', _)) => consumed b b' /\ partial_len b' = None
  | (RPending, (b', _)) => consumed b b' /\
      partial_len b' = (if 0 <? len (read_buf b') then Some (len (read_buf b')) else None) /\
      len (read_buf b') < strategy_max (read_buf_strategy b') /\ read_blocked b' = true
  | (RErr _, (b', _)) => consumed b b'
  | (RPanic, _) | (RFuel, _) => False
  end.
Proof. intros Hp. exact (parse_loop_ok parse_headers Hp fuel ctx b). Qed.
End Head.
End Properties.

(** Over any history of reads the adaptive read size stays between 8192
    and the configured maximum, at most doubles at a time, and shrinks only when
    the previous short read had already announced it (two short reads in a row). *)
Theorem read_size_bounded max reads n :
  INIT_BUFFER_SIZE <= max <= usize_max ->
  let s := foldl (fun s r => record r s) (with_max max) reads in
  let s' := record n s in
  INIT_BUFFER_SIZE <= strategy_next s <= max /\ strategy_max s = max /\
  strategy_next s' <= 2 * strategy_next s /\
  (strategy_next s' < strategy_next s ->
   s = Adaptive true (strategy_next s) max /\ n < prev_power_of_two (strategy_next s)).
Proof.
  intros Hm. cbv zeta. set (s := foldl _ _ _).
  assert (strategy_wf s /\ exists d x, s = Adaptive d x max) as (Hs & d & next & Es).
  { subst s. assert (strategy_wf (with_max max)) as Hw by (cbn; lia).
    assert (exists d x, with_max max = Adaptive d x max) as He by by eexists _, _.
    revert Hw He. generalize (with_max max) as s0.
    induction reads as [|r reads IH]; intros s0 Hw He; [done|]. cbn. apply IH; [by apply record_wf|].
    destruct He as (d & x & ->). cbn. repeat case_match; by eexists _, _. }
  rewrite Es in *. cbn in Hs. destruct Hs as [Hs Hm']. cbn [strategy_next strategy_max].
  split; [lia|]. split; [done|]. unfold INIT_BUFFER_SIZE in Hs.
  pose proof (prev_power_of_two_lt next ltac:(lia)) as Hp.
  cbn. unfold incr_power_of_two, saturating_mul, INIT_BUFFER_SIZE, usize_max, u64_max in *.
  repeat case_match; zbool; cbn; subst; (split; [lia|]); intros; (lia || by split).
Qed.

(** ** The properties at concrete inputs *)

(** A transport over two byte strings that accepts at most two bytes per write
    and is not ready every third operation. *)
Module Pipe.
Record pipe := mkPipe { p_in : bytes; p_out : bytes; p_turn : Z }.

Definition tick (p : pipe) : pipe := mkPipe (p_in p) (p_out p) ((p_turn p + 1) mod 3).
Definition p_write (s : bytes) (p : pipe) : poll_res io_error Z * pipe :=
  if p_turn p =? 2 then (RPending, tick p)
  else (RVal (Z.min 2 (len s)), tick (mkPipe (p_in p) (p_out p ++ ztake (Z.min 2 (len s)) s) (p_turn p))).

#[export] Instance pipe_transport : Transport pipe := {|
  poll_read := fun n p =>
    if p_turn p =? 2 then (RPending, tick p)
    else (RVal (ztake n (p_in p)), tick (mkPipe (zdrop n (p_in p)) (p_out p) (p_turn p)));
  poll_write := p_write;
  io_poll_flush := fun p => (RVal tt, p);
  io_poll_shutdown := fun p => (RVal tt, p);
  is_write_vectored := fun _ => true;
  poll_write_vectored := fun l => p_write (concat l)
|}.

Lemma p_write_ok s p :
  match p_write s p with
  | (RVal n, p') => True /\ p_in p' = p_in p /\ 0 <= n <= len s /\ p_out p' = p_out p ++ ztake n s
  | (RPending, p') | (RErr _, p') => True /\ p_in p' = p_in p /\ p_out p' = p_out p
  | _ => False
  end.
Proof. unfold p_write. destruct (p_turn p =? 2); [done|]. split; [done|]. split; [done|]. split; [len_lia|done]. Qed.

#[export] Program Instance pipe_laws : TransportLaws pipe := {|
  tr_wf := fun _ => True; input := p_in; output := p_out
|}.
Next Obligation.
  intros n p _ Hn. cbn. destruct (p_turn p =? 2); [done|]. cbn. rewrite ztake_zdrop, len_ztake by lia.
  split_and!; try done; [lia|]. intros E%(f_equal len). rewrite len_ztake in E by lia. apply len_zero. len_lia.
Qed.
Next Obligation. intros s p _. apply p_write_ok. Qed.
Next Obligation. intros l p _. apply p_write_ok. Qed.
Next Obligation. done. Qed.
Next Obligation. done. Qed.
End Pipe.
Import Pipe RefBytes RefAlloc.

Definition ex_pipe : pipe := mkPipe (bs "HTTP/1.1 200 OK") [] 0.
Definition ex_buffered : Buffered pipe bytes :=
  headers_buf_extend (bs "GET / HTTP/1.1") (buffered_new ex_pipe).

Lemma ex_buffered_wf : write_wf ex_buffered /\ read_wf ex_buffered.
Proof.
  split; split; try (exact I); try (vm_compute; discriminate).
  split; [vm_compute; repeat split; discriminate|]. split; [split; [constructor|vm_compute; discriminate]|].
  split; [vm_compute; discriminate | reflexivity].
Qed.

(** The first call is cut off by the transport after four bytes. *)
Lemma poll_flush_conserves_witness :
  exists b', buffered_poll_flush 20 ex_buffered = (RPending, b') /\
    output (io b') = bs "GET " /\ pending (write_buf b') = bs "/ HTTP/1.1" /\ sent b' = sent ex_buffered.
Proof.
  pose proof (poll_flush_conserves (B:=bytes) 20 ex_buffered (proj1 ex_buffered_wf)
    ltac:(vm_compute; lia)) as Hc.
  eexists. split; [vm_compute; reflexivity|]. split; [reflexivity|]. split; [reflexivity|].
  match type of Hc with context [buffered_poll_flush ?f ?x] =>
    let r := eval vm_compute in (buffered_poll_flush f x) in
    assert (buffered_poll_flush f x = r) as E by (vm_compute; reflexivity) end.
  rewrite E in Hc. exact (proj1 (proj2 Hc)).
Defined.

Lemma read_mem_stream_witness :
  exists s b', buffered_read_mem 4 ex_buffered = (RVal s, b') /\ s = bs "HTTP" /\ incoming ex_buffered = s ++ incoming b'.
Proof.
  pose proof (read_mem_stream (B:=bytes) 4 ex_buffered (proj2 ex_buffered_wf) ltac:(lia)) as Hc.
  destruct (buffered_read_mem 4 ex_buffered) as [r b'] eqn:E.
  assert (r = RVal (bs "HTTP")) as -> by (apply (f_equal fst) in E; vm_compute in E; exact (eq_sym E)).
  exists (bs "HTTP"), b'. split; [reflexivity|]. split; [reflexivity | exact (proj1 (proj2 Hc))].
Defined.

(** A parser that waits for a whole line. *)
Definition line_parser (s : bytes) (_ : option Z) (c : unit)
  : option (result (option Z) Parse) * bytes * unit :=
  if bool_decide (LF ∈ s) then (Some (Ok (Some (len s))), [], c) else (Some (Ok None), s, c).

Lemma parse_consumes_prefix_witness :
  exists b', parse line_parser 20 tt ex_buffered = (RErr new_incomplete, (b', tt)) /\ consumed ex_buffered b'.
Proof.
  pose proof (parse_consumes_prefix line_parser 20 tt ex_buffered) as Hc.
  assert (parser_ok line_parser) as Hp.
  { intros s p c. unfold line_parser. destruct (bool_decide (LF ∈ s)); (split; [|discriminate]);
      [exists s; symmetry; apply app_nil_r | exists []; reflexivity]. }
  specialize (Hc Hp (proj2 ex_buffered_wf) ltac:(discriminate) ltac:(vm_compute; lia)).
  destruct (parse line_parser 20 tt ex_buffered) as [r [b' []]] eqn:E.
  assert (r = RErr new_incomplete) as -> by (apply (f_equal fst) in E; vm_compute in E; exact (eq_sym E)).
  exists b'. split; [reflexivity | exact Hc].
Defined.

Lemma read_size_bounded_witness :
  let s := foldl (fun s r => record r s) (with_max 100000) [9000; 20000; 100] in
  s = Adaptive true 32768 100000 /\ strategy_next (record 100 s) = 16384.
Proof.
  pose proof (read_size_bounded 100000 [9000; 20000; 100] 100 ltac:(vm_compute; split; discriminate)) as Hc.
  cbv zeta in Hc. destruct Hc as (_ & _ & _ & Hc). split; [|reflexivity].
  exact (proj1 (Hc ltac:(vm_compute; reflexivity))).
Defined.
