(* ===== verification/Role.v ===== *)
(** * The client role (src/src/core/proto/h1/role.rs, types of h1/mod.rs and proto/mod.rs)

    Parsing a response head out of the read buffer, deciding how its body is
    delimited, and writing a request head with headers that agree with the body
    encoder it returns. *)

From S2P Require Import Prelude Buf Http HeaderWrite WriteBuf Encode Decode Error.

Module Role.
Import Error.

(** ** Message types (src/src/core/proto/mod.rs, src/src/core/proto/h1/mod.rs) *)

(** The two extensions the protocol code stores. *)
Record Extensions `{HttpCrate} := mkExtensions {
  ext_case_map : option HeaderMap;
  ext_reason : option bytes
}.

Arguments mkExtensions {_} _ _.
Arguments ext_case_map {_} _.
Arguments ext_reason {_} _.

Record MessageHead `{HttpCrate} (S : Type) := mkHead {
  head_version : Version;
  head_subject : S;
  head_headers : HeaderMap;
  head_extensions : Extensions
}.
Arguments mkHead {_ S} _ _ _ _.
Arguments head_version {_ S} _.
Arguments head_subject {_ S} _.
Arguments head_headers {_ S} _.
Arguments head_extensions {_ S} _.

Inductive BodyLength := Known (n : Z) | Unknown.

Record ParsedMessage `{HttpCrate} := mkParsed {
  pm_head : MessageHead StatusCode;
  pm_decode : DecodedLength.DecodedLength;
  pm_expect_continue : bool;
  pm_keep_alive : bool;
  pm_wants_upgrade : bool
}.

Arguments mkParsed {_} _ _ _ _ _.
Arguments pm_head {_} _.
Arguments pm_decode {_} _.
Arguments pm_expect_continue {_} _.
Arguments pm_keep_alive {_} _.
Arguments pm_wants_upgrade {_} _.

(** The part of [ParseContext] that parsing changes, and the part it reads. *)
Record ParseState `{HttpCrate} := mkParseState {
  ctx_cached_headers : option HeaderMap;
  ctx_req_method : option Method
}.
Record ParseConfig `{Httparse} := mkParseConfig {
  ctx_parser_config : hp_config;
  ctx_max_headers : option Z;
  ctx_preserve_header_case : bool;
  ctx_h09_responses : bool
}.

Arguments mkParseState {_} _ _.
Arguments ctx_cached_headers {_} _.
Arguments ctx_req_method {_} _.
Arguments mkParseConfig {_} _ _ _ _.
Arguments ctx_parser_config {_} _.
Arguments ctx_max_headers {_} _.
Arguments ctx_preserve_header_case {_} _.
Arguments ctx_h09_responses {_} _.

Definition DEFAULT_MAX_HEADERS : Z := 100.

(** [s[a..b]]; [None] where the index expression panics. *)
Definition slice (a b : Z) (s : bytes) : option bytes :=
  if (0 <=? a) && (a <=? b) && (b <=? len s) then Some (ztake (b - a) (zdrop a s)) else None.

(** ** The fast scan *)

Definition starts_terminator (s : bytes) : bool :=
  match s with
  | b :: rest =>
      if b =? CR then bool_decide (ztake 3 rest = [10; 13; 10])
      else (b =? LF) && bool_decide (head rest = Some 10)
  | [] => false
  end.

(** The [for] loop over [bytes[start..]]. *)
Fixpoint scan (s : bytes) : bool :=
  match s with
  | [] => false
  | _ :: rest => if starts_terminator s then true else scan rest
  end.

Definition is_complete_fast (s : bytes) (prev_len : Z) : option bool :=
  let start := saturating_sub prev_len 3 in
  if start <=? len s then Some (scan (zdrop start s)) else None.

(** ** Header indices *)

Record HeaderIndices := mkIndices { hi_name : Z * Z; hi_value : Z * Z }.

(** [record_header_indices]: the two iterators are zipped, [n] is the length of
    the index array. *)
Fixpoint record_header_indices (hs : list RawHeader) (n : Z) : result (list HeaderIndices) Parse :=
  match hs with
  | [] => Ok []
  | h :: hs' =>
      if n <=? 0 then Ok []
      else if 65536 <=? len (rh_name h) then Err PTooLarge
      else
        match record_header_indices hs' (n - 1) with
        | Ok l => Ok (mkIndices (rh_name_off h, rh_name_off h + len (rh_name h))
                        (rh_value_off h, rh_value_off h + len (rh_value h)) :: l)
        | Err e => Err e
        end
  end.

(** ** Folded header lines *)

(** [u8::is_ascii_whitespace] *)
Definition is_ascii_whitespace (b : byte) : bool :=
  (b =? 32) || (b =? 9) || (b =? 10) || (b =? 12) || (b =? 13).

Fixpoint ob_trim_start (s : bytes) : bytes :=
  match s with
  | b :: rest => if is_ascii_whitespace b then ob_trim_start rest else s
  | [] => []
  end.
Definition ob_trim_end (s : bytes) : bytes := reverse (ob_trim_start (reverse s)).
Definition ob_trim (s : bytes) : bytes := ob_trim_start (ob_trim_end s).

(** The value with every line folded into the previous one. *)
Definition unfolded (first_nl : Z) (buf : bytes) : bytes :=
  foldl (fun acc line => acc ++ [32] ++ ob_trim line)
    (ob_trim_end (ztake first_nl buf)) (split LF (zdrop (first_nl + 1) buf)).

Fixpoint position (x : byte) (s : bytes) : option Z :=
  match s with
  | [] => None
  | b :: s' => if b =? x then Some 0 else Z.succ <$> position x s'
  end.

(** [Client::obs_fold_line]: the message bytes and the indices after it. *)
Definition obs_fold_line (all : bytes) (idx : HeaderIndices) : option (bytes * HeaderIndices) :=
  let '(v0, v1) := hi_value idx in
  buf ← slice v0 v1 all;
  match position LF buf with
  | None => Some (all, idx)
  | Some first_nl =>
      let u := unfolded first_nl buf in
      if len u <=? len buf then
        Some (ztake v0 all ++ (u ++ zdrop (len u) buf) ++ zdrop v1 all,
              mkIndices (hi_name idx) (v0, v0 + len u))
      else None
  end.

Fixpoint obs_fold_lines (all : bytes) (l : list HeaderIndices) : option (bytes * list HeaderIndices) :=
  match l with
  | [] => Some (all, [])
  | idx :: l' =>
      '(all, idx) ← obs_fold_line all idx;
      '(all, l') ← obs_fold_lines all l';
      Some (all, idx :: l')
  end.

Section Client.
Context `{HttpCrate} `{Httparse}.

(** ** [Client::decoder] *)

Definition decoder (inc : MessageHead StatusCode) (method : option Method)
  : result (option (DecodedLength.DecodedLength * bool)) Parse :=
  let status := head_subject inc in
  if status =? 101 then Ok (Some (DecodedLength.ZERO, true))
  else if (status =? 100) || ((102 <=? status) && (status <=? 199)) then Ok None
  else if (status =? 204) || (status =? 304) then Ok (Some (DecodedLength.ZERO, false))
  else if bool_decide (method = Some HEAD) then Ok (Some (DecodedLength.ZERO, false))
  else if bool_decide (method = Some CONNECT) && ((200 <=? status) && (status <=? 299)) then
    Ok (Some (DecodedLength.ZERO, true))
  else if contains_key TRANSFER_ENCODING (head_headers inc) then
    if decide (head_version inc = HTTP_10) then Err (PHeader TransferEncodingUnexpected)
    else if Headers.transfer_encoding_is_chunked (head_headers inc) then
      Ok (Some (DecodedLength.CHUNKED, false))
    else Ok (Some (DecodedLength.CLOSE_DELIMITED, false))
  else
    match Headers.content_length_parse_all (head_headers inc) with
    | Some n =>
        match DecodedLength.checked_new n with
        | Some l => Ok (Some (l, false))
        | None => Err PTooLarge
        end
    | None =>
        if contains_key CONTENT_LENGTH (head_headers inc) then Err (PHeader ContentLengthInvalid)
        else Ok (Some (DecodedLength.CLOSE_DELIMITED, false))
    end.

(** ** [Client::parse] *)

(** The [for header in &headers_indices] loop: headers, keep-alive flag and
    case map so far. *)
Fixpoint collect_headers (s : bytes) (l : list HeaderIndices)
    (acc : HeaderMap * bool * option HeaderMap)
  : option (result (HeaderMap * bool * option HeaderMap) Parse) :=
  match l with
  | [] => Some (Ok acc)
  | idx :: l' =>
      let '(headers, keep_alive, case_map) := acc in
      raw_name ← slice (hi_name idx).1 (hi_name idx).2 s;
      match hn_from_bytes raw_name with
      | None => Some (Err PInternal)
      | Some name =>
          value ← slice (hi_value idx).1 (hi_value idx).2 s;
          let keep_alive :=
            if decide (name = CONNECTION) then
              if keep_alive then negb (Headers.connection_close value)
              else Headers.connection_keep_alive value
            else keep_alive in
          let case_map := hm_append name raw_name <$> case_map in
          collect_headers s l' (hm_append name value headers, keep_alive, case_map)
      end
  end.

(** What the status line and header block of one message yield. *)
Definition read_response (cfg : ParseConfig) (buf : bytes)
  : result (option (Z * StatusCode * option bytes * Version * list HeaderIndices)) Parse :=
  let cap := default DEFAULT_MAX_HEADERS (ctx_max_headers cfg) in
  match hp_parse_response (ctx_parser_config cfg) buf cap with
  | Ok (Some res) =>
      match status_from_u16 (rr_code res) with
      | None => Err PStatus
      | Some status =>
          let reason :=
            if bool_decide (Some (rr_reason res) = canonical_reason status) then None
            else Some (rr_reason res) in
          let version := if rr_version res =? 1 then HTTP_11 else HTTP_10 in
          match record_header_indices (rr_headers res) cap with
          | Err e => Err e
          | Ok indices => Ok (Some (rr_len res, status, reason, version, indices))
          end
      end
  | Ok None => Ok None
  | Err HpVersion =>
      if ctx_h09_responses cfg then Ok (Some (0, 200, None, HTTP_09, []))
      else Err (parse_of_httparse HpVersion)
  | Err e => Err (parse_of_httparse e)
  end.

Fixpoint client_parse (fuel : nat) (cfg : ParseConfig) (buf : bytes) (ctx : ParseState)
  : option (result (option ParsedMessage) Parse) * bytes * ParseState :=
  match fuel with
  | O => (None, buf, ctx)
  | S fuel =>
      match read_response cfg buf with
      | Err e => (Some (Err e), buf, ctx)
      | Ok None => (Some (Ok None), buf, ctx)
      | Ok (Some (n, status, reason, version, indices)) =>
          let s := ztake n buf in
          let rest := zdrop n buf in
          match
            (if hp_obs_fold_allowed (ctx_parser_config cfg) then obs_fold_lines s indices
             else Some (s, indices))
          with
          | None => (None, rest, ctx)
          | Some (s, indices) =>
              let headers := default hm_new (ctx_cached_headers ctx) in
              let ctx := mkParseState None (ctx_req_method ctx) in
              let keep_alive := bool_decide (version = HTTP_11) in
              let case_map := if ctx_preserve_header_case cfg then Some hm_new else None in
              match collect_headers s indices (headers, keep_alive, case_map) with
              | None => (None, rest, ctx)
              | Some (Err e) => (Some (Err e), rest, ctx)
              | Some (Ok (headers, keep_alive, case_map)) =>
                  let head := mkHead version status headers (mkExtensions case_map reason) in
                  match decoder head (ctx_req_method ctx) with
                  | Err e => (Some (Err e), rest, ctx)
                  | Ok (Some (decode, is_upgrade)) =>
                      (Some (Ok (Some (mkParsed head decode false
                         (keep_alive && negb is_upgrade) is_upgrade))), rest, ctx)
                  | Ok None =>
                      match rest with
                      | [] => (Some (Ok None), rest, ctx)
                      | _ => client_parse fuel cfg rest ctx
                      end
                  end
              end
          end
      end
  end.

(** [parse_headers::<Client>]; every turn of the loop takes at least a byte. *)
Definition parse_headers (cfg : ParseConfig) (buf : bytes) (prev_len : option Z) (ctx : ParseState)
  : option (result (option ParsedMessage) Parse) * bytes * ParseState :=
  match buf with
  | [] => (Some (Ok None), buf, ctx)
  | _ =>
      match (match prev_len with Some p => is_complete_fast buf p | None => Some true end) with
      | None => (None, buf, ctx)
      | Some false => (Some (Ok None), buf, ctx)
      | Some true => client_parse (S (length buf)) cfg buf ctx
      end
  end.

(** ** Writing a request head *)

Definition set_content_length (headers : HeaderMap) (n : Z) : HeaderMap * Encode.Encoder :=
  (hm_insert CONTENT_LENGTH (hv_from_u64 n) headers, Encode.encoder_length n).

(** [Client::set_length]: the headers and the encoder for the body; [None] is
    the [unreachable!()] arm. *)
Definition set_length (version : Version) (method : Method) (headers : HeaderMap)
    (body : option BodyLength) : option (HeaderMap * Encode.Encoder) :=
  match body with
  | None => Some (hm_remove TRANSFER_ENCODING headers, Encode.encoder_length 0)
  | Some body =>
      let can_chunked := bool_decide (version = HTTP_11) in
      let existing_con_len := Headers.content_length_parse_all headers in
      if negb can_chunked then
        let headers := hm_remove TRANSFER_ENCODING headers in
        match existing_con_len, body with
        | Some n, _ => Some (headers, Encode.encoder_length n)
        | None, Known n => Some (set_content_length headers n)
        | None, Unknown => Some (headers, Encode.encoder_length 0)
        end
      else
        let '(headers, encoder, should_remove_con_len) :=
          if contains_key TRANSFER_ENCODING headers then
            if Headers.is_chunked (hm_get_all TRANSFER_ENCODING headers) then
              (headers, Some Encode.encoder_chunked, true)
            else (Headers.add_chunked TRANSFER_ENCODING headers, Some Encode.encoder_chunked, true)
          else
            match existing_con_len, body with
            | Some n, _ => (headers, Some (Encode.encoder_length n), false)
            | None, Unknown =>
                if bool_decide (method ∈ [GET; HEAD; CONNECT]) then
                  (headers, Some (Encode.encoder_length 0), false)
                else
                  (hm_insert TRANSFER_ENCODING (bs "chunked") headers, Some Encode.encoder_chunked, false)
            | None, Known _ => (headers, None, false)
            end in
        let encoder :=
          (fun enc =>
             if Encode.is_chunked enc then
               match hm_get_all TRAILER headers with
               | [] => enc
               | fields => Encode.into_chunked_with_trailing_fields enc fields
               end
             else enc) <$> encoder in
        match encoder with
        | Some encoder =>
            Some (if should_remove_con_len && bool_decide (is_Some existing_con_len)
                  then hm_remove CONTENT_LENGTH headers else headers, encoder)
        | None =>
            match body with
            | Known n => Some (set_content_length headers n)
            | Unknown => None
            end
        end
  end.

(** The status of the request line: the URI is written by its [Display]. *)
Definition version_bytes (v : Version) : option bytes :=
  match v with
  | HTTP_10 => Some (bs "HTTP/1.0")
  | HTTP_11 | HTTP_2 => Some (bs "HTTP/1.1")
  | _ => None (* panic!("unexpected request version") *)
  end.

Context {Uri : Type} (uri_display : Uri -> bytes).

Record RequestLine := mkRequestLine { rl_method : Method; rl_uri : Uri }.

(** [Client::encode]: the bytes appended to [dst], the encoder, and the
    headers left in the head (cleared).  [req_method] is set to the method. *)
Definition client_encode (head : MessageHead RequestLine) (body : option BodyLength)
    (title_case_headers : bool) (dst : bytes)
  : option (bytes * Encode.Encoder * option Method) :=
  let method := rl_method (head_subject head) in
  '(headers, encoder) ← set_length (head_version head) method (head_headers head) body;
  let dst := extend (extend dst method) (bs " ") in
  let dst := extend dst (uri_display (rl_uri (head_subject head)) ++ bs " ") in
  v ← version_bytes (head_version head);
  let dst := extend (extend dst v) CRLF in
  let dst :=
    match ext_case_map (head_extensions head) with
    | Some orig => write_headers_original_case headers orig dst title_case_headers
    | None => if title_case_headers then write_headers_title_case headers dst else write_headers headers dst
    end in
  Some (extend dst CRLF, encoder, Some method).
End Client.
End Role.
