(* ===== verification/RoleFacts.v ===== *)
(** * Facts about the client role

    The fast scan against a plain search for the end of a head, folded lines,
    totality of the head parser for a lawful [httparse], and the agreement
    between a request's framing headers and its body encoder. *)

From S2P Require Import Prelude Buf Http HeaderWrite WriteBuf Encode Decode Error Role Io IoFacts.
Import Role Error.

(** ** What the parser crate promises *)

Definition header_in (n : Z) (h : RawHeader) : Prop :=
  0 <= rh_name_off h /\ rh_name_off h + len (rh_name h) <= n /\
  0 <= rh_value_off h /\ rh_value_off h + len (rh_value h) <= n.

(** A complete parse reports a non-empty prefix of its input, with slices that
    lie in it, and never more headers than it had room for. *)
Class HttparseLaws `{Httparse} := {
  hp_response_ok cfg s max r :
    hp_parse_response cfg s max = Ok (Some r) ->
    0 < rr_len r <= len s /\ Forall (header_in (rr_len r)) (rr_headers r) /\ len (rr_headers r) <= Z.max 0 max
}.

(** ** The fast scan *)

(** The two ways a head can end. *)
Definition terminator (s : bytes) : Prop :=
  (exists k, s = [13; 10; 13; 10] ++ k) \/ (exists k, s = [10; 10] ++ k).
(** Some terminator starts in [s]. *)
Definition complete (s : bytes) : Prop := exists a b, s = a ++ b /\ terminator b.

Lemma starts_terminator_spec s : starts_terminator s = true <-> terminator s.
Proof.
  unfold terminator, starts_terminator. destruct s as [|b rest]; [naive_solver|].
  destruct (Z.eqb_spec b CR) as [->|Hb].
  - rewrite bool_decide_eq_true. split.
    + intros E. left. exists (zdrop 3 rest). rewrite <-(ztake_zdrop 3 rest) at 1. by rewrite E.
    + intros [[k [= ->]]|[k [=]]]. exact (ztake_app_exact [10; 13; 10] k).
  - rewrite andb_true_iff, Z.eqb_eq, bool_decide_eq_true. split.
    + intros [-> E]. right. destruct rest as [|c rest]; [done|]. injection E as ->. by exists rest.
    + intros [[k [= ->]]|[k [= -> ->]]]; [done|]. done.
Qed.

Lemma scan_spec s : scan s = true <-> complete s.
Proof.
  induction s as [|b s IH].
  { split; [done|]. intros (a & b & E & Ht). apply eq_sym, app_eq_nil in E as [-> ->].
    destruct Ht as [[k [=]]|[k [=]]]. }
  change (scan (b :: s)) with (if starts_terminator (b :: s) then true else scan s).
  destruct (starts_terminator (b :: s)) eqn:Es.
  - split; [|done]. intros _. exists [], (b :: s). split; [done|]. by apply starts_terminator_spec.
  - rewrite IH. split.
    + intros (x & y & -> & Ht). by exists (b :: x), y.
    + intros ([|c x] & y & E & Ht).
      * cbn in E. subst y. apply starts_terminator_spec in Ht. congruence.
      * injection E as -> ->. by exists x, y.
Qed.

Lemma complete_app s t : complete t -> complete (s ++ t).
Proof. intros (a & b & -> & Ht). exists (s ++ a), b. by rewrite app_assoc. Qed.

(** A terminator is at most four bytes long: past the first [n] bytes only the
    last three of them can belong to a new one. *)
Lemma complete_late s n :
  0 <= n <= len s -> ~ complete (ztake n s) -> complete s -> complete (zdrop (Z.max 0 (n - 3)) s).
Proof.
  intros Hn Hno (a & b & -> & Ht).
  destruct (decide (Z.max 0 (n - 3) <= len a)) as [Hle|Hgt].
  { rewrite zdrop_app_le by done. by exists (zdrop (Z.max 0 (n - 3)) a), b. }
  exfalso. apply Hno. rewrite len_app in Hn. pose proof (len_nonneg a). rewrite ztake_app_ge by lia.
  assert (4 <= n - len a) as Hroom by lia.
  exists a, (ztake (n - len a) b). split; [done|].
  destruct Ht as [[k ->]|[k ->]]; [left|right]; (rewrite ztake_app_ge;
    [by eexists | unfold len in *; cbn [length]; lia]).
Qed.

Lemma is_complete_fast_complete s n :
  0 <= n <= len s -> ~ complete (ztake n s) ->
  exists r, is_complete_fast s n = Some r /\ (r = true <-> complete s).
Proof.
  intros Hn Hno. unfold is_complete_fast, saturating_sub.
  rewrite (proj2 (Z.leb_le _ _)) by lia. eexists. split; [done|]. rewrite scan_spec. split.
  - intros Hc. rewrite <-(ztake_zdrop (Z.max 0 (n - 3)) s). by apply complete_app.
  - by apply complete_late.
Qed.

(** ** Slices and folded lines *)

Lemma slice_some a b s : 0 <= a <= b -> b <= len s -> exists x, slice a b s = Some x /\ len x = b - a.
Proof.
  intros Ha Hb. unfold slice. rewrite !(proj2 (Z.leb_le _ _)) by lia. cbn. eexists. split; [done|].
  rewrite len_ztake, len_zdrop; lia.
Qed.

Lemma ob_trim_start_suffix s : exists k, s = k ++ ob_trim_start s.
Proof.
  induction s as [|b s [k IH]]; [by exists []|]. cbn. destruct (is_ascii_whitespace b); [|by exists []].
  exists (b :: k). cbn. by rewrite <-IH.
Qed.
Lemma ob_trim_end_prefix s : exists k, s = ob_trim_end s ++ k.
Proof.
  unfold ob_trim_end. destruct (ob_trim_start_suffix (reverse s)) as [k E]. exists (reverse k).
  rewrite <-reverse_app, <-E. by rewrite reverse_involutive.
Qed.
Lemma ob_trim_infix s : exists a b, s = a ++ ob_trim s ++ b.
Proof.
  unfold ob_trim. destruct (ob_trim_end_prefix s) as [b Eb].
  destruct (ob_trim_start_suffix (ob_trim_end s)) as [a Ea]. exists a, b.
  rewrite app_assoc, <-Ea. done.
Qed.

Lemma len_split sep s : len (concat (split sep s)) + len (split sep s) = len s + 1.
Proof.
  induction s as [|b s IH]; [done|]. cbn [split]. destruct (b =? sep).
  - cbn [concat app]. rewrite !len_cons. lia.
  - destruct (split sep s) as [|w ws] eqn:E; [by apply split_nonempty in E|].
    cbn [concat app] in *. rewrite !len_cons, !len_app in *. lia.
Qed.

Lemma split_no_sep_in sep s : Forall (fun w => sep ∉ w) (split sep s).
Proof.
  induction s as [|b s IH]; [constructor; [set_solver|constructor]|]. cbn.
  destruct (Z.eqb_spec b sep) as [->|Hne]; [by constructor; [set_solver|]|].
  destruct (split sep s) as [|w ws]; [constructor; [set_solver|constructor]|].
  apply Forall_cons in IH as [Hw Hws]. constructor; [set_solver|done].
Qed.

Lemma foldl_fold_lines acc lines :
  foldl (fun acc line => acc ++ [32] ++ ob_trim line) acc lines =
  acc ++ concat ((fun l => 32 :: ob_trim l) <$> lines).
Proof.
  revert acc. induction lines as [|l lines IH]; intros acc; cbn; [by rewrite app_nil_r|].
  rewrite IH. by rewrite <-!app_assoc.
Qed.

Lemma position_spec x s n :
  position x s = Some n -> 0 <= n < len s /\ x ∉ ztake n s.
Proof.
  revert n. induction s as [|b s IH]; intros n E; cbn in E; [done|].
  destruct (Z.eqb_spec b x) as [->|Hne].
  - injection E as <-. rewrite ztake_0, len_cons. split; [len_lia|set_solver].
  - destruct (position x s) as [m|]; [|done]. cbn in E. injection E as <-.
    destruct (IH m eq_refl) as [Hm Hnot]. rewrite len_cons. split; [lia|].
    change (b :: s) with ([b] ++ s). rewrite ztake_app_ge by (change (len [b]) with 1; lia).
    change (len [b]) with 1. replace (Z.succ m - 1) with m by lia. set_solver.
Qed.

(** Unfolding removes the line feeds and does not lengthen the value. *)
Lemma unfolded_ok buf n :
  position LF buf = Some n -> len (unfolded n buf) <= len buf /\ LF ∉ unfolded n buf.
Proof.
  intros E. apply position_spec in E as [Hn Hnot]. unfold unfolded. rewrite foldl_fold_lines.
  destruct (ob_trim_end_prefix (ztake n buf)) as [k Ek].
  assert (len (ob_trim_end (ztake n buf)) <= n) as H1.
  { assert (len (ztake n buf) = n) as Et by (rewrite len_ztake; lia).
    rewrite Ek in Et. rewrite len_app in Et. len_lia. }
  set (lines := split LF (zdrop (n + 1) buf)).
  assert (len (concat ((fun l => 32 :: ob_trim l) <$> lines)) <= len (concat lines) + len lines) as H2.
  { clearbody lines. induction lines as [|l lines IH]; [done|]. rewrite fmap_cons. cbn [concat].
    destruct (ob_trim_infix l) as (a & b & El). rewrite !len_app, !len_cons.
    assert (len (ob_trim l) <= len l) by (rewrite El at 2; len_lia). lia. }
  split.
  - rewrite len_app. pose proof (len_split LF (zdrop (n + 1) buf)) as Hs. fold lines in Hs.
    rewrite len_zdrop in Hs by lia. lia.
  - rewrite not_elem_of_app. split; [rewrite Ek in Hnot; set_solver|].
    pose proof (split_no_sep_in LF (zdrop (n + 1) buf)) as Hf. fold lines in Hf. clearbody lines.
    clear H2. induction Hf as [|l ls Hl _ IH]; [apply not_elem_of_nil|]. rewrite fmap_cons. cbn [concat].
    destruct (ob_trim_infix l) as (a & b & El). rewrite not_elem_of_app. split; [|done].
    rewrite El in Hl. unfold LF in *. set_solver.
Qed.

(** ** The head parser *)

(** Indices inside a message of [n] bytes. *)
Definition index_in (n : Z) (i : HeaderIndices) : Prop :=
  0 <= (hi_name i).1 <= (hi_name i).2 /\ (hi_name i).2 <= n /\
  0 <= (hi_value i).1 <= (hi_value i).2 /\ (hi_value i).2 <= n.

Lemma record_header_indices_in n hs cap l :
  Forall (header_in n) hs -> record_header_indices hs cap = Ok l -> Forall (index_in n) l.
Proof.
  intros Hh. revert cap l. induction Hh as [|h hs (? & ? & ? & ?) _ IH]; intros cap l E; cbn in E.
  { injection E as <-. constructor. }
  destruct (cap <=? 0); [injection E as <-; constructor|]. destruct (65536 <=? _); [done|].
  destruct (record_header_indices hs (cap - 1)) as [l'|e] eqn:El; [|done]. injection E as <-.
  constructor; [|by eapply IH]. unfold index_in. cbn. len_lia.
Qed.

(** Folding rewrites the value in place: the message keeps its length, the
    bytes outside the value do not change, and the value shrinks. *)
Lemma obs_fold_line_ok all idx :
  index_in (len all) idx ->
  exists all' idx', obs_fold_line all idx = Some (all', idx') /\ len all' = len all /\
    hi_name idx' = hi_name idx /\ (hi_value idx').1 = (hi_value idx).1 /\
    (hi_value idx').1 <= (hi_value idx').2 <= (hi_value idx).2 /\
    ztake (hi_value idx).1 all' = ztake (hi_value idx).1 all /\
    zdrop (hi_value idx).2 all' = zdrop (hi_value idx).2 all /\
    exists v, slice (hi_value idx').1 (hi_value idx').2 all' = Some v /\ LF ∉ v.
Proof.
  destruct idx as [nm [v0 v1]]. intros (_ & _ & Hv & Hv1). unfold obs_fold_line. cbn in *.
  destruct (slice_some v0 v1 all) as (buf & Eb & Hlb); [done..|]. rewrite Eb. cbn [mbind option_bind].
  destruct (position LF buf) as [n|] eqn:Ep.
  - destruct (unfolded_ok buf n Ep) as [Hlu Hnl]. rewrite (proj2 (Z.leb_le _ _)) by done.
    set (u := unfolded n buf) in *.
    assert (len (ztake v0 all) = v0) as L0 by (rewrite len_ztake; lia).
    assert (len (u ++ zdrop (len u) buf) = v1 - v0) as L1.
    { rewrite len_app, len_zdrop by len_lia. lia. }
    assert (len (ztake v0 all ++ (u ++ zdrop (len u) buf) ++ zdrop v1 all) = len all) as L2.
    { rewrite (len_app (ztake v0 all)), (len_app (u ++ _)), L0, L1, len_zdrop by lia. lia. }
    eexists _, _. split; [done|]. cbn. split_and!; try done.
    + len_lia.
    + len_lia.
    + rewrite ztake_app_le by lia. apply ztake_ge. lia.
    + rewrite zdrop_app_ge by lia. rewrite L0. rewrite zdrop_app_ge by lia.
      replace (v1 - v0 - len (u ++ zdrop (len u) buf)) with 0 by lia. apply zdrop_0.
    + exists u. split; [|done]. unfold slice.
      rewrite L2, !(proj2 (Z.leb_le _ _)) by len_lia.
      cbn. f_equal. replace (v0 + len u - v0) with (len u) by lia.
      rewrite zdrop_app_ge by lia. rewrite L0, Z.sub_diag, zdrop_0, <-app_assoc. apply ztake_app_exact.
  - eexists _, _. split; [done|]. cbn. split_and!; try (done || lia). exists buf. split; [done|].
    intros Hin. clear -Ep Hin. induction buf as [|b buf IH]; [by apply not_elem_of_nil in Hin|].
    cbn in Ep. destruct (Z.eqb_spec b LF); [done|]. apply elem_of_cons in Hin as [E|Hin]; [congruence|].
    destruct (position LF buf); [done|]. by apply IH.
Qed.

Lemma obs_fold_lines_ok all l :
  Forall (index_in (len all)) l ->
  exists all' l', obs_fold_lines all l = Some (all', l') /\ len all' = len all /\ Forall (index_in (len all)) l'.
Proof.
  revert all. induction l as [|idx l IH]; intros all Hl; [by exists all, []|].
  apply Forall_cons in Hl as [Hi Hl]. cbn.
  destruct (obs_fold_line_ok all idx Hi) as (all1 & idx' & -> & El & En & Ev & Hv & _). cbn.
  destruct (IH all1) as (all2 & l' & -> & El2 & Hl'); [by rewrite El|]. cbn.
  exists all2, (idx' :: l'). rewrite El2, El in *. split; [done|]. split; [done|]. constructor; [|done].
  destruct Hi as (? & ? & ? & ?). unfold index_in. rewrite En, Ev. lia.
Qed.

Section Parser.
Context `{HttpCrate} `{HttparseLaws}.

Lemma collect_headers_total s l acc :
  Forall (index_in (len s)) l -> collect_headers s l acc <> None.
Proof.
  revert acc. induction l as [|idx l IH]; intros [[hs ka] cm] Hl; [done|].
  apply Forall_cons in Hl as [(? & ? & ? & ?) Hl]. cbn.
  destruct (slice_some (hi_name idx).1 (hi_name idx).2 s) as (nm & -> & _); [done..|]. cbn.
  destruct (hn_from_bytes nm); [|done].
  destruct (slice_some (hi_value idx).1 (hi_value idx).2 s) as (v & -> & _); [done..|]. cbn. by apply IH.
Qed.

(** The head of one message: it lies in the buffer and, HTTP/0.9 apart, is
    not empty. *)
Lemma read_response_ok cfg buf n st rs v l :
  read_response cfg buf = Ok (Some (n, st, rs, v, l)) ->
  0 <= n <= len buf /\ Forall (index_in n) l /\ (n = 0 -> st = 200).
Proof.
  unfold read_response. destruct (hp_parse_response _ _ _) as [[r|]|e] eqn:E; [|done|].
  - apply hp_response_ok in E as (Hl & Hh & _). destruct (status_from_u16 _); [|done].
    destruct (record_header_indices _ _) as [l'|] eqn:Er; [|done]. intros [= <- <- <- <- <-].
    split; [lia|]. split; [by eapply record_header_indices_in | lia].
  - destruct e; try done. destruct (ctx_h09_responses cfg); [|done]. intros [= <- <- <- <- <-].
    split; [len_lia|]. split; [constructor|done].
Qed.

Lemma decoder_skip_status inc m : decoder inc m = Ok None -> head_subject inc <> 200.
Proof. intros E Hs. unfold decoder in E. rewrite Hs in E. cbn in E. repeat case_match; done. Qed.

Lemma client_parse_ok fuel cfg buf ctx :
  (length buf < fuel)%nat ->
  (client_parse fuel cfg buf ctx).1.1 <> None /\
  exists used, buf = used ++ (client_parse fuel cfg buf ctx).1.2.
Proof.
  revert buf ctx. induction fuel as [|fuel IH]; intros buf ctx Hf; [lia|]. cbn [client_parse].
  destruct (read_response cfg buf) as [[[[[[n st] rs] v] l]|]|e] eqn:Er; [|by split; [|exists []]..].
  apply read_response_ok in Er as (Hn & Hl & Hz).
  assert (exists used, buf = used ++ zdrop n buf) as Hu by (exists (ztake n buf); by rewrite ztake_zdrop).
  assert (len (ztake n buf) = n) as Hlen by (rewrite len_ztake; lia). rewrite <-Hlen in Hl.
  assert (exists s' l', (if hp_obs_fold_allowed (ctx_parser_config cfg) then obs_fold_lines (ztake n buf) l
    else Some (ztake n buf, l)) = Some (s', l') /\ Forall (index_in (len s')) l') as (s' & l' & -> & Hl').
  { destruct (hp_obs_fold_allowed _); [|by eexists _, _].
    destruct (obs_fold_lines_ok _ _ Hl) as (a' & l' & -> & Ea & ?). exists a', l'. by rewrite Ea. }
  cbv zeta. pose proof (collect_headers_total s' l' (default hm_new (ctx_cached_headers ctx),
    bool_decide (v = HTTP_11), if ctx_preserve_header_case cfg then Some hm_new else None) Hl') as Hc.
  destruct (collect_headers s' l' _) as [[[[hs ka] cm]|e]|]; [|done|done].
  destruct (decoder _ _) as [[[d u]|]|e] eqn:Ed; [done| |done].
  destruct (zdrop n buf) as [|x rest] eqn:Erest; [done|]. rewrite <-Erest in *.
  assert (n <> 0) as Hn0.
  { intros ->. apply decoder_skip_status in Ed. cbn in Ed. auto. }
  destruct (IH (zdrop n buf) (mkParseState None (ctx_req_method ctx))) as [Hp [used Eu]].
  { assert (len (zdrop n buf) = len buf - n) as Ez by (rewrite len_zdrop; lia). unfold len in *. lia. }
  split; [done|]. exists (ztake n buf ++ used). rewrite <-app_assoc, <-Eu. by rewrite ztake_zdrop.
Qed.

(** The client's head parser meets the requirement of the parse loop. *)
Lemma parse_headers_ok cfg : parser_ok (parse_headers cfg).
Proof.
  intros s p c. unfold parse_headers. destruct s as [|x s]; [by split; [exists []|]|].
  destruct (client_parse_ok (S (length (x :: s))) cfg (x :: s) c) as [Hn Hu]; [lia|].
  destruct p as [p|]; [|done].
  destruct (is_complete_fast (x :: s) p) as [[]|] eqn:Ef; [done|by split; [exists []|]|].
  split; [by exists []|]. intros Hs. specialize (Hs p eq_refl). exfalso. clear Hn Hu.
  unfold is_complete_fast, saturating_sub in Ef. rewrite (proj2 (Z.leb_le _ _)) in Ef by lia. done.
Qed.

(** The context after parsing, and where a message comes from. *)
Lemma client_parse_ctx fuel cfg buf ctx :
  ctx_req_method (client_parse fuel cfg buf ctx).2 = ctx_req_method ctx /\
  (ctx_cached_headers (client_parse fuel cfg buf ctx).2 = None \/
   ctx_cached_headers (client_parse fuel cfg buf ctx).2 = ctx_cached_headers ctx).
Proof.
  revert buf ctx. induction fuel as [|fuel IH]; intros buf ctx; [by split; [|right]|]. cbn [client_parse].
  destruct (read_response cfg buf) as [[[[[[n st] rs] v] l]|]|e]; [|by split; [|right]..].
  cbv zeta. destruct (if hp_obs_fold_allowed _ then _ else _) as [[s' l']|]; [|by split; [|right]].
  destruct (collect_headers _ _ _) as [[[[hs ka] cm]|e]|]; [|by split; [|left]..].
  destruct (decoder _ _) as [[[d u]|]|e]; [by split; [|left]| |by split; [|left]].
  destruct (zdrop n buf) as [|x rest] eqn:E; [by split; [|left]|]. rewrite <-E.
  destruct (IH (zdrop n buf) (mkParseState None (ctx_req_method ctx))) as [-> Hc]. split; [done|].
  left. by destruct Hc.
Qed.

Lemma client_parse_msg fuel cfg buf ctx msg rest ctx' :
  client_parse fuel cfg buf ctx = (Some (Ok (Some msg)), rest, ctx') ->
  ctx_cached_headers ctx' = None /\ pm_expect_continue msg = false /\
  exists m, decoder (pm_head msg) m = Ok (Some (pm_decode msg, pm_wants_upgrade msg)).
Proof.
  revert buf ctx. induction fuel as [|fuel IH]; intros buf ctx E; [done|]. cbn [client_parse] in E.
  destruct (read_response cfg buf) as [[[[[[n st] rs] v] l]|]|e]; [|done..].
  cbv zeta in E. destruct (if hp_obs_fold_allowed _ then _ else _) as [[s' l']|]; [|done].
  destruct (collect_headers _ _ _) as [[[[hs ka] cm]|e]|]; [|done..].
  destruct (decoder _ _) as [[[d u]|]|e] eqn:Ed; [| |done].
  - injection E as <- <- <-. split; [done|]. split; [done|]. by eexists.
  - destruct (zdrop n buf) as [|x r] eqn:Er; [done|]. rewrite <-Er in E. by eapply IH.
Qed.

Lemma parse_headers_ctx cfg buf p ctx :
  ctx_req_method (parse_headers cfg buf p ctx).2 = ctx_req_method ctx /\
  (ctx_cached_headers (parse_headers cfg buf p ctx).2 = None \/
   ctx_cached_headers (parse_headers cfg buf p ctx).2 = ctx_cached_headers ctx).
Proof.
  unfold parse_headers. repeat case_match; try (by split; [|right]). all: apply client_parse_ctx.
Qed.

Lemma parse_headers_msg cfg buf p ctx msg rest ctx' :
  parse_headers cfg buf p ctx = (Some (Ok (Some msg)), rest, ctx') ->
  ctx_cached_headers ctx' = None /\ pm_expect_continue msg = false /\
  exists m, decoder (pm_head msg) m = Ok (Some (pm_decode msg, pm_wants_upgrade msg)).
Proof. unfold parse_headers. repeat case_match; try done. all: apply client_parse_msg. Qed.
End Parser.
