(* ===== verification/RoleProps.v ===== *)
(** * Properties of the client role *)

From S2P Require Import Prelude Buf Http Models HeaderWrite WriteBuf Encode Decode Error RefHttparse Role Io IoFacts IoProps RoleFacts.
Import Role Error HeadersFacts.

(** The fast scan answers the right question: if the bytes scanned before
    held no end of head, it finds one exactly when the whole buffer has one, and
    it does not panic; resuming three bytes early is enough. *)
Theorem is_complete_fast_equiv s prev_len :
  0 <= prev_len <= len s -> ~ complete (ztake prev_len s) ->
  exists r, is_complete_fast s prev_len = Some r /\ (r = true <-> complete s).
Proof. exact (is_complete_fast_complete s prev_len). Qed.

(** Unfolding an obsolete folded header value happens in place and without
    a panic: message length, header name and all bytes outside the value are
    kept, the value does not grow, and it contains no line feed afterwards. *)
Theorem obs_fold_line_in_place all idx :
  index_in (len all) idx ->
  exists all' idx', obs_fold_line all idx = Some (all', idx') /\ len all' = len all /\
    hi_name idx' = hi_name idx /\ (hi_value idx').1 = (hi_value idx).1 /\
    (hi_value idx').2 <= (hi_value idx).2 /\
    ztake (hi_value idx).1 all' = ztake (hi_value idx).1 all /\
    zdrop (hi_value idx).2 all' = zdrop (hi_value idx).2 all /\
    exists v, slice (hi_value idx').1 (hi_value idx').2 all' = Some v /\ LF ∉ v.
Proof.
  intros Hi. destruct (obs_fold_line_ok all idx Hi) as (a & i & E & El & En & Ev & Hv & Et & Ed & Hs).
  exists a, i. split_and!; (done || lia).
Qed.

Section Framing.
Context `{HttpLaws} `{Httparse}.

(** The value names the chunked coding last. *)
Definition ends_chunked (line : HeaderValue) : Prop :=
  exists codings coding, split Headers.COMMA line = codings ++ [coding] /\ eq_ignore_ascii_case (trim coding) (bs "chunked") = true.
(** Chunked is the last coding of all the values; a value with other than visible
    ASCII characters is not readable. *)
Definition chunked_final (vs : list HeaderValue) : Prop :=
  exists before line, vs = before ++ [line] /\ forallb visible_ascii line = true /\ ends_chunked line.
(** All members of all the values are the same number, in digits only. *)
Definition length_agreed (vs : list HeaderValue) (n : Z) : Prop :=
  vs <> [] /\ n <= u64_max /\
  forall v part, v ∈ vs -> part ∈ split Headers.COMMA v ->
    forallb visible_ascii v = true /\ trim part <> [] /\ digits_value 10 dec_digit 0 (trim part) = Some n.

Lemma is_chunked_spec vs : Headers.is_chunked vs = true <-> chunked_final vs.
Proof.
  unfold Headers.is_chunked, chunked_final, ends_chunked. destruct vs as [|v vs _] using rev_ind; [split; [done|by intros ([|] & ? & ? & _)]|].
  rewrite last_snoc. unfold Headers.is_chunked_. destruct (forallb visible_ascii v) eqn:Ev.
  - rewrite to_str_some by done. destruct (split Headers.COMMA v) as [|c cs _] eqn:Ec using rev_ind; [by apply split_nonempty in Ec|].
    rewrite last_snoc. split; [naive_solver|]. intros (b & l & E & _ & cs' & c' & Ec' & Hc).
    apply app_inj_2 in E as [_ [= <-]]; [|done]. rewrite Ec in Ec'. by apply app_inj_2 in Ec' as [_ [= <-]].
  - rewrite to_str_none by done. split; [done|]. intros (b & l & E & ? & _). apply app_inj_2 in E as [_ [= <-]]; [|done]. congruence.
Qed.

Lemma length_agreed_spec hs n : Headers.content_length_parse_all hs = Some n <-> length_agreed (hm_get_all CONTENT_LENGTH hs) n.
Proof.
  unfold Headers.content_length_parse_all, Headers.content_length_parse_all_values, length_agreed. rewrite parse_values_none.
  generalize (hm_get_all CONTENT_LENGTH hs) as vs. intros vs. rewrite Forall_forall. unfold value_says, all_parts.
  setoid_rewrite Forall_forall. setoid_rewrite from_digits_spec. split.
  - intros (Hne & Hv). split; [done|]. assert (A : forall v, v ∈ vs -> forallb visible_ascii v = true /\
      forall p, p ∈ split Headers.COMMA v -> trim p <> [] /\ digits_value 10 dec_digit 0 (trim p) = Some n /\ n <= u64_max).
    { intros v Hin. destruct (Hv v Hin) as (s & Hs & Hp). destruct (forallb visible_ascii v) eqn:Ev; [|by rewrite to_str_none in Hs].
      rewrite to_str_some in Hs by done. by injection Hs as <-. }
    destruct vs as [|v vs']; [done|]. split; [|intros; naive_solver].
    destruct (A v) as (_ & Hp); [by left|]. destruct (split Headers.COMMA v) as [|p ps] eqn:Es; [by apply split_nonempty in Es|].
    apply (Hp p). by left.
  - intros (Hne & Hn & Hv). split; [done|]. intros v Hin. exists v.
    assert (forallb visible_ascii v = true) as Ev.
    { destruct (split Headers.COMMA v) as [|p ps] eqn:Es; [by apply split_nonempty in Es|]. apply (Hv v p Hin). rewrite Es. by left. }
    split; [by apply to_str_some|]. intros p Hp. destruct (Hv v p Hin Hp) as (_ & ? & ?). done.
Qed.

Lemma parse_all_says hs n :
  Headers.content_length_parse_all hs = Some n ->
  hm_get_all CONTENT_LENGTH hs <> [] /\ Forall (value_says n) (hm_get_all CONTENT_LENGTH hs).
Proof. apply parse_values_none. Qed.

(** RFC 9112, section 6.3, for a client: what delimits the body of a response to a
    request with method [m], or why the head is refused. *)
Definition interim (st : Z) : Prop := 100 <= st <= 199 /\ st <> 101.
Definition bodyless (st : Z) (m : option Method) : Prop := st = 204 \/ st = 304 \/ m = Some HEAD.
Definition tunnel (st : Z) (m : option Method) : Prop := m = Some CONNECT /\ 200 <= st <= 299.
Definition may_have_body (st : Z) (m : option Method) : Prop :=
  ~ (100 <= st <= 199) /\ ~ bodyless st m /\ ~ tunnel st m.

Inductive framing (inc : MessageHead StatusCode) (m : option Method)
  : result (option (DecodedLength.DecodedLength * bool)) Parse -> Prop :=
| framing_interim : interim (head_subject inc) -> framing inc m (Ok None)
| framing_upgrade : head_subject inc = 101 -> framing inc m (Ok (Some (DecodedLength.ZERO, true)))
| framing_bodyless :
    ~ (100 <= head_subject inc <= 199) -> bodyless (head_subject inc) m ->
    framing inc m (Ok (Some (DecodedLength.ZERO, false)))
| framing_tunnel :
    ~ bodyless (head_subject inc) m -> tunnel (head_subject inc) m ->
    framing inc m (Ok (Some (DecodedLength.ZERO, true)))
| framing_coded_http10 :
    may_have_body (head_subject inc) m -> hm_get_all TRANSFER_ENCODING (head_headers inc) <> [] -> head_version inc = HTTP_10 ->
    framing inc m (Err (PHeader TransferEncodingUnexpected))
| framing_chunked :
    may_have_body (head_subject inc) m -> head_version inc <> HTTP_10 ->
    chunked_final (hm_get_all TRANSFER_ENCODING (head_headers inc)) ->
    framing inc m (Ok (Some (DecodedLength.CHUNKED, false)))
| framing_coded :
    may_have_body (head_subject inc) m -> head_version inc <> HTTP_10 ->
    hm_get_all TRANSFER_ENCODING (head_headers inc) <> [] -> ~ chunked_final (hm_get_all TRANSFER_ENCODING (head_headers inc)) ->
    framing inc m (Ok (Some (DecodedLength.CLOSE_DELIMITED, false)))
| framing_length n :
    may_have_body (head_subject inc) m -> hm_get_all TRANSFER_ENCODING (head_headers inc) = [] ->
    length_agreed (hm_get_all CONTENT_LENGTH (head_headers inc)) n -> n <= DecodedLength.MAX_LEN ->
    framing inc m (Ok (Some (DecodedLength.mk n, false)))
| framing_too_large n :
    may_have_body (head_subject inc) m -> hm_get_all TRANSFER_ENCODING (head_headers inc) = [] ->
    length_agreed (hm_get_all CONTENT_LENGTH (head_headers inc)) n -> DecodedLength.MAX_LEN < n ->
    framing inc m (Err PTooLarge)
| framing_bad_length :
    may_have_body (head_subject inc) m -> hm_get_all TRANSFER_ENCODING (head_headers inc) = [] ->
    hm_get_all CONTENT_LENGTH (head_headers inc) <> [] ->
    (forall n, ~ length_agreed (hm_get_all CONTENT_LENGTH (head_headers inc)) n) ->
    framing inc m (Err (PHeader ContentLengthInvalid))
| framing_eof :
    may_have_body (head_subject inc) m -> hm_get_all TRANSFER_ENCODING (head_headers inc) = [] ->
    hm_get_all CONTENT_LENGTH (head_headers inc) = [] ->
    framing inc m (Ok (Some (DecodedLength.CLOSE_DELIMITED, false))).

Lemma contains_key_spec k hs : contains_key k hs = false <-> hm_get_all k hs = [].
Proof. unfold contains_key. by destruct (hm_get_all k hs). Qed.

Lemma decoder_follows inc m : framing inc m (decoder inc m).
Proof.
  unfold decoder. cbv zeta. destruct (Z.eqb_spec (head_subject inc) 101) as [E1|E1]; [by constructor|].
  destruct ((head_subject inc =? 100) || _) eqn:E0; [apply framing_interim; unfold interim; lia|].
  destruct ((head_subject inc =? 204) || (head_subject inc =? 304)) eqn:E2; [apply framing_bodyless; unfold bodyless; lia|].
  case_bool_decide as E3; [apply framing_bodyless; [lia|by right; right]|].
  assert (~ bodyless (head_subject inc) m) as Hb by (unfold bodyless; intros [?|[?|?]]; (lia || done)).
  destruct (bool_decide (m = Some CONNECT) && _) eqn:E4.
  { apply andb_true_iff in E4 as [Em Est]. apply bool_decide_eq_true in Em. apply framing_tunnel; [done|]. split; [done|lia]. }
  assert (may_have_body (head_subject inc) m) as Hm.
  { split; [lia|]. split; [done|]. intros [-> ?]. rewrite bool_decide_true in E4 by done. lia. }
  destruct (contains_key TRANSFER_ENCODING _) eqn:E5.
  - assert (hm_get_all TRANSFER_ENCODING (head_headers inc) <> []) as Hte by (rewrite <- contains_key_spec; congruence).
    destruct (decide (head_version inc = HTTP_10)); [by apply framing_coded_http10|]. unfold Headers.transfer_encoding_is_chunked.
    destruct (Headers.is_chunked _) eqn:E6; [apply framing_chunked; try done; by apply is_chunked_spec|].
    apply framing_coded; try done. rewrite <- is_chunked_spec. congruence.
  - apply contains_key_spec in E5. destruct (Headers.content_length_parse_all _) as [n|] eqn:E6.
    + apply length_agreed_spec in E6. destruct (DecodedLength.checked_new n) as [l|] eqn:E7.
      * pose proof (DecodedLength.checked_new_exact _ _ E7) as (-> & _). apply framing_length; try done.
        unfold DecodedLength.checked_new in E7. destruct (Z.leb_spec n DecodedLength.MAX_LEN); [lia|done].
      * apply (framing_too_large _ _ n); try done. unfold DecodedLength.checked_new in E7.
        by destruct (Z.leb_spec n DecodedLength.MAX_LEN).
    + destruct (contains_key CONTENT_LENGTH _) eqn:E7.
      * apply framing_bad_length; try done; [rewrite <- contains_key_spec; congruence|]. intros n Hn. apply length_agreed_spec in Hn. congruence.
      * apply contains_key_spec in E7. by apply framing_eof.
Qed.

Lemma decoder_lengths inc m l u :
  decoder inc m = Ok (Some (l, u)) ->
  l = DecodedLength.ZERO \/ l = DecodedLength.CHUNKED \/ l = DecodedLength.CLOSE_DELIMITED \/
  exists n, l = DecodedLength.mk n /\ Headers.content_length_parse_all (head_headers inc) = Some n.
Proof.
  pose proof (decoder_follows inc m) as F. intros E. rewrite E in F. remember (Ok (Some (l, u))) as r eqn:Er. clear E.
  destruct F as [| | | | | | |n Hm Ht Hl Hn| | |]; try discriminate Er; injection Er as <- _; auto.
  do 3 right. exists n. split; [done|]. by apply length_agreed_spec.
Qed.

(** The tests of the code on a head that may have a body. *)
Lemma decoder_by_headers inc m :
  may_have_body (head_subject inc) m ->
  decoder inc m =
    if contains_key TRANSFER_ENCODING (head_headers inc) then
      if decide (head_version inc = HTTP_10) then Err (PHeader TransferEncodingUnexpected)
      else if Headers.transfer_encoding_is_chunked (head_headers inc) then Ok (Some (DecodedLength.CHUNKED, false))
      else Ok (Some (DecodedLength.CLOSE_DELIMITED, false))
    else
      match Headers.content_length_parse_all (head_headers inc) with
      | Some n => match DecodedLength.checked_new n with Some l => Ok (Some (l, false)) | None => Err PTooLarge end
      | None =>
          if contains_key CONTENT_LENGTH (head_headers inc) then Err (PHeader ContentLengthInvalid)
          else Ok (Some (DecodedLength.CLOSE_DELIMITED, false))
      end.
Proof.
  unfold may_have_body, bodyless, tunnel. intros (Hi & Hb & Ht). unfold decoder. cbv zeta.
  rewrite (proj2 (Z.eqb_neq _ _)) by lia. destruct ((head_subject inc =? 100) || _) eqn:?; [exfalso; lia|].
  assert (head_subject inc <> 204 /\ head_subject inc <> 304 /\ m <> Some HEAD) as (? & ? & ?) by tauto.
  destruct ((head_subject inc =? 204) || _) eqn:?; [exfalso; lia|]. rewrite bool_decide_false by done.
  case_bool_decide; [|done]. destruct ((200 <=? head_subject inc) && _) eqn:?; [destruct Ht; split; [done|lia]|done].
Qed.

Lemma framing_decoder inc m r : framing inc m r -> decoder inc m = r.
Proof.
  assert (Hk : forall k, hm_get_all k (head_headers inc) <> [] -> contains_key k (head_headers inc) = true).
  { intros k Hn. destruct (contains_key k (head_headers inc)) eqn:E; [done|]. by apply contains_key_spec in E. }
  intros [Hi|Hi|Hi Hb|Hb [-> Ht]|Hm Ht Hv|Hm Hv Hc|Hm Hv Ht Hc|n Hm Ht Hl Hn|n Hm Ht Hl Hn|Hm Ht Hl Hn|Hm Ht Hl];
    try rewrite (decoder_by_headers _ _ Hm).
  - unfold decoder, interim in *. cbv zeta. rewrite (proj2 (Z.eqb_neq _ _)) by lia. destruct ((head_subject inc =? 100) || _) eqn:?; [|exfalso; lia]; done.
  - unfold decoder. cbv zeta. by rewrite Hi.
  - unfold decoder. cbv zeta. rewrite (proj2 (Z.eqb_neq _ _)) by lia. destruct ((head_subject inc =? 100) || _) eqn:?; [exfalso; lia|].
    destruct ((head_subject inc =? 204) || _) eqn:E; [done|]. destruct Hb as [?|[?| -> ]]; [lia..|]. by rewrite bool_decide_true.
  - unfold decoder. cbv zeta. rewrite (proj2 (Z.eqb_neq _ _)) by lia. destruct ((head_subject inc =? 100) || _) eqn:?; [exfalso; lia|].
    unfold bodyless in Hb. assert (head_subject inc <> 204) by tauto. destruct ((head_subject inc =? 204) || _) eqn:?; [exfalso; lia|]. rewrite bool_decide_false by done.
    rewrite bool_decide_true by done. destruct ((200 <=? head_subject inc) && _) eqn:?; [|exfalso; lia]; done.
  - by rewrite Hk, decide_True.
  - rewrite Hk by (intros E; rewrite E in Hc; by destruct Hc as ([|] & ? & ? & _)). rewrite decide_False by done.
    unfold Headers.transfer_encoding_is_chunked. apply is_chunked_spec in Hc. by rewrite Hc.
  - rewrite Hk, decide_False by done. unfold Headers.transfer_encoding_is_chunked. rewrite <- is_chunked_spec in Hc.
    by destruct (Headers.is_chunked _).
  - apply contains_key_spec in Ht. apply length_agreed_spec in Hl. rewrite Ht, Hl. unfold DecodedLength.checked_new, DecodedLength.MAX_LEN in *.
    by rewrite (proj2 (Z.leb_le _ _)) by lia.
  - apply contains_key_spec in Ht. apply length_agreed_spec in Hl. rewrite Ht, Hl. unfold DecodedLength.checked_new, DecodedLength.MAX_LEN in *.
    by rewrite (proj2 (Z.leb_gt _ _)) by lia.
  - apply contains_key_spec in Ht. rewrite Ht. destruct (Headers.content_length_parse_all _) as [n|] eqn:E; [by apply length_agreed_spec, Hn in E|].
    by rewrite Hk.
  - apply contains_key_spec in Ht. rewrite Ht. destruct (Headers.content_length_parse_all _) as [n|] eqn:E.
    + apply length_agreed_spec in E as (E & _). done.
    + apply contains_key_spec in Hl. by rewrite Hl.
Qed.

(** C4. How a response body is delimited is exactly what the rules of [framing] say,
    in both directions and for every head and method: interim responses are skipped;
    a response to HEAD, or with status 204 or 304, has no body; an upgrade or an
    accepted CONNECT ends HTTP; of the others, a head with Transfer-Encoding is
    refused in HTTP/1.0, is chunked if chunked is its last coding and extends to the
    end of the connection if not; without Transfer-Encoding the length is the number
    on which all members of all the Content-Length headers agree, and the head is
    refused if they do not agree or the number is out of range; with neither header
    the body extends to the end of the connection. *)
Theorem decoder_framing inc m r : decoder inc m = r <-> framing inc m r.
Proof. split; [intros <-; apply decoder_follows|apply framing_decoder]. Qed.
End Framing.

Section Length.
Context `{HttpLaws}.

Abbreviation te hs := (hm_get_all TRANSFER_ENCODING hs).
Abbreviation cl hs := (hm_get_all CONTENT_LENGTH hs).
Definition trailers (hs : HeaderMap) : option (list HeaderValue) := match hm_get_all TRAILER hs with [] => None | l => Some l end.

(** The user gave no length that can be read. *)
Definition no_length (hs : HeaderMap) : Prop := forall n, ~ length_agreed (cl hs) n.
(** A body of unknown length has no framing: before HTTP/1.1, and with the methods
    that almost never have one. *)
Definition unframed (v : Version) (m : Method) (hs : HeaderMap) (body : BodyLength) : Prop :=
  body = Unknown /\ no_length hs /\ (v <> HTTP_11 \/ te hs = [] /\ m ∈ [GET; HEAD; CONNECT]).

(** What becomes of the framing headers, and the encoder that goes with them. *)
Inductive request_framing (v : Version) (m : Method) (hs : HeaderMap) (body : BodyLength) (hs' : HeaderMap) : Encode.Kind -> Prop :=
| rf_coded before line :
    v = HTTP_11 -> te hs = before ++ [line] ->
    (chunked_final (te hs) /\ te hs' = te hs \/ ~ chunked_final (te hs) /\ te hs' = before ++ [line ++ bs ", chunked"]) ->
    (no_length hs /\ cl hs' = cl hs \/ (exists n, length_agreed (cl hs) n) /\ cl hs' = []) ->
    request_framing v m hs body hs' (Encode.Chunked (trailers hs))
| rf_user_length n :
    (v = HTTP_11 -> te hs = []) -> length_agreed (cl hs) n ->
    te hs' = [] -> cl hs' = cl hs -> request_framing v m hs body hs' (Encode.Length n)
| rf_body_length n :
    (v = HTTP_11 -> te hs = []) -> no_length hs -> body = Known n ->
    te hs' = [] -> cl hs' = [fmt_dec n] -> request_framing v m hs body hs' (Encode.Length n)
| rf_chunked :
    v = HTTP_11 -> te hs = [] -> no_length hs -> body = Unknown -> m ∉ [GET; HEAD; CONNECT] ->
    te hs' = [bs "chunked"] -> cl hs' = cl hs -> request_framing v m hs body hs' (Encode.Chunked (trailers hs))
| rf_unframed :
    unframed v m hs body -> te hs' = [] -> cl hs' = cl hs -> request_framing v m hs body hs' (Encode.Length 0).

Lemma no_length_spec hs : Headers.content_length_parse_all hs = None <-> no_length hs.
Proof.
  split.
  - intros E n Hn. apply length_agreed_spec in Hn. congruence.
  - intros Hn. destruct (Headers.content_length_parse_all hs) as [n|] eqn:E; [|done]. by apply length_agreed_spec, Hn in E.
Qed.

(** The recipient of the headers, who follows the rules of [framing], finds the body
    that the encoder writes: the chunked coding is the last and no length can be read;
    or there is no coding and the length is the encoder's. *)
Definition announces (hs' : HeaderMap) (k : Encode.Kind) : Prop :=
  match k with
  | Encode.Chunked _ => (exists before line, te hs' = before ++ [line] /\ ends_chunked line) /\ no_length hs'
  | Encode.Length n => te hs' = [] /\ length_agreed (cl hs') n
  end.

Lemma ends_chunked_added line : ends_chunked (line ++ bs ", chunked").
Proof.
  unfold ends_chunked. change (bs ", chunked") with (Headers.COMMA :: bs " chunked"). pose proof (last_split_sep Headers.COMMA line (bs " chunked")) as H'.
  destruct (split Headers.COMMA (line ++ _)) as [|c cs _] eqn:E using rev_ind; [by apply split_nonempty in E|].
  rewrite last_snoc in H'. exists cs, c. split; [done|]. injection H' as ->. reflexivity.
Qed.

Lemma length_agreed_fmt n : wf_u64 n -> length_agreed [fmt_dec n] n.
Proof.
  intros Hn. pose proof (parse_values_fmt n Hn) as E. rewrite from_u64_decimal in E by done.
  pose proof (length_agreed_spec (hm_insert CONTENT_LENGTH (fmt_dec n) hm_new) n) as S.
  unfold Headers.content_length_parse_all in S. rewrite get_all_insert_eq in S. by apply S.
Qed.

Lemma framing_announced v m hs body hs' k :
  (forall n, body = Known n -> wf_u64 n) -> request_framing v m hs body hs' k -> announces hs' k \/ k = Encode.Length 0 /\ unframed v m hs body.
Proof.
  intros Hb [before line Hv Ht Hc Hl|n Ht Hl Et Ec|n Ht Hl -> Et Ec|Hv Ht Hl Hk Hm Et Ec|Hu Et Ec]; [left..|by right]; cbn [announces]; unfold no_length in *.
  - split.
    + destruct Hc as [[(b & l & El & _ & He) ->]|[_ ->]]; [by exists b, l|]. exists before, (line ++ bs ", chunked"). split; [done|]. apply ends_chunked_added.
    + destruct Hl as [[Hl ->]|[_ ->]]; [done|]. by intros n [? _].
  - by rewrite Et, Ec.
  - rewrite Et, Ec. split; [done|]. by apply length_agreed_fmt, Hb.
  - rewrite Ec. split; [|done]. exists [], (bs "chunked"). split; [done|]. by exists [], (bs "chunked").
Qed.

Lemma trailer_kind hs' e : Encode.kind e = Encode.Chunked None ->
  Encode.kind (match hm_get_all TRAILER hs' with [] => e | fields => Encode.into_chunked_with_trailing_fields e fields end) = Encode.Chunked (trailers hs').
Proof. intros E. unfold trailers. destruct (hm_get_all TRAILER hs'); [done|]. unfold Encode.into_chunked_with_trailing_fields. by rewrite E. Qed.

(** C5. For a request with a body, [set_length] always succeeds, leaves all headers but
    Content-Length and Transfer-Encoding alone, and treats these exactly as the rules
    of [request_framing] say: a Transfer-Encoding of the user is kept in HTTP/1.1, with
    chunked added if it is not the last coding, and a readable length beside it is removed; else
    a length of the user is respected; else a known length is announced; else the body
    is chunked in HTTP/1.1; but without framing by the user a body of unknown length is
    not sent with GET, HEAD and CONNECT, and before HTTP/1.1.  In all but this last
    case a recipient finds in the headers just the body that the encoder writes. *)
Theorem set_length_agrees v m hs body :
  (forall n, body = Known n -> wf_u64 n) ->
  exists hs' e, set_length v m hs (Some body) = Some (hs', e) /\ Encode.is_last e = false /\
    (forall k, k <> CONTENT_LENGTH -> k <> TRANSFER_ENCODING -> hm_get_all k hs' = hm_get_all k hs) /\
    request_framing v m hs body hs' (Encode.kind e) /\
    (announces hs' (Encode.kind e) \/ Encode.kind e = Encode.Length 0 /\ unframed v m hs body).
Proof.
  intros Hb. cut (exists hs' e, set_length v m hs (Some body) = Some (hs', e) /\ Encode.is_last e = false /\
    (forall k, k <> CONTENT_LENGTH -> k <> TRANSFER_ENCODING -> hm_get_all k hs' = hm_get_all k hs) /\
    request_framing v m hs body hs' (Encode.kind e)).
  { intros (hs' & e & E & El & Eo & F). exists hs', e. split_and!; try done. by apply framing_announced. }
  assert (Ho : CONTENT_LENGTH <> TRANSFER_ENCODING /\ TRAILER <> TRANSFER_ENCODING /\ TRAILER <> CONTENT_LENGTH) by done.
  destruct Ho as (Ho & Ho2 & Ho3). unfold set_length, set_content_length.
  assert (Hk : forall hs n, Headers.content_length_parse_all hs = Some n <-> length_agreed (cl hs) n) by apply length_agreed_spec.
  destruct (bool_decide_reflect (v = HTTP_11)) as [Hv|Hv]; cbn [negb].
  2: { destruct (Headers.content_length_parse_all hs) as [n|] eqn:Ec; [|apply no_length_spec in Ec; destruct body as [n|]];
      (eexists _, _; split; [reflexivity|]; split; [done|]; split; [intros; by rewrite ?get_all_insert_ne, get_all_remove_ne by done|]).
    - apply rf_user_length; [done|by apply Hk|by rewrite get_all_remove_eq|by rewrite get_all_remove_ne].
    - apply rf_body_length; try done; [by rewrite get_all_insert_ne, get_all_remove_eq by done|].
      rewrite get_all_insert_eq, from_u64_decimal by (by apply Hb). done.
    - apply rf_unframed; [split_and!; try done; by left|by rewrite get_all_remove_eq|by rewrite get_all_remove_ne]. }
  destruct (contains_key TRANSFER_ENCODING hs) eqn:Et.
  - assert (exists before line, te hs = before ++ [line]) as (before & line & El).
    { destruct (te hs) as [|l b _] eqn:E using rev_ind; [|by eauto]. apply contains_key_spec in E. congruence. }
    assert (exists hs1, (if Headers.is_chunked (te hs) then (hs, Some Encode.encoder_chunked, true)
        else (Headers.add_chunked TRANSFER_ENCODING hs, Some Encode.encoder_chunked, true)) = (hs1, Some Encode.encoder_chunked, true) /\
        (chunked_final (te hs) /\ te hs1 = te hs \/ ~ chunked_final (te hs) /\ te hs1 = before ++ [line ++ bs ", chunked"]) /\
        (forall k, k <> TRANSFER_ENCODING -> hm_get_all k hs1 = hm_get_all k hs)) as (hs1 & -> & Hte & Hot).
    { destruct (Headers.is_chunked (te hs)) eqn:Ei; (eexists; split; [reflexivity|]).
      - apply is_chunked_spec in Ei. split; [by left|done].
      - rewrite <- is_chunked_spec, Ei. unfold Headers.add_chunked. rewrite El, last_snoc. split; [right; split; [done|]|].
        + by erewrite get_all_modify_eq by done.
        + intros k Hne. by rewrite get_all_modify_ne by done. }
    cbn [fmap option_fmap option_map andb]. change (Encode.is_chunked Encode.encoder_chunked) with true. cbv iota.
    eexists _, _. split; [reflexivity|]. split; [by destruct (hm_get_all TRAILER hs1)|].
    split. { intros k K1 K2. case_bool_decide; rewrite ?get_all_remove_ne by done; by apply Hot. }
    rewrite trailer_kind by done. unfold trailers. rewrite (Hot TRAILER) by done. fold (trailers hs).
    apply (rf_coded _ _ _ _ _ before line); [done|done| |].
    + case_bool_decide; [by rewrite get_all_remove_ne by done|done].
    + case_bool_decide as Hs; [right|left].
      * destruct Hs as (n & Hn). split; [exists n; by apply Hk|by rewrite get_all_remove_eq].
      * split; [apply no_length_spec; by apply eq_None_not_Some|]. by apply Hot.
  - apply contains_key_spec in Et. destruct (Headers.content_length_parse_all hs) as [n|] eqn:Ec.
    + eexists _, _. split; [reflexivity|]. split; [done|]. split; [done|]. apply rf_user_length; try done. by apply Hk.
    + apply no_length_spec in Ec. destruct body as [n|].
      * eexists _, _. split; [reflexivity|]. split; [done|]. split; [intros; by rewrite get_all_insert_ne by done|].
        apply rf_body_length; try done; [by rewrite get_all_insert_ne by done|]. by rewrite get_all_insert_eq, from_u64_decimal by (by apply Hb).
      * case_bool_decide as Hm.
        { eexists _, _. split; [reflexivity|]. split; [done|]. split; [done|]. apply rf_unframed; try done. split_and!; try done. by right. }
        eexists _, _. split; [reflexivity|]. cbn [andb]. split; [by destruct (hm_get_all TRAILER _)|].
        split; [intros; by rewrite get_all_insert_ne by done|].
        change (Encode.is_chunked Encode.encoder_chunked) with true. cbv iota. rewrite trailer_kind by done. unfold trailers. rewrite get_all_insert_ne by done.
        fold (trailers hs). apply rf_chunked; try done; [by rewrite get_all_insert_eq|by rewrite get_all_insert_ne by done].
Qed.

Lemma remove_te hs :
  contains_key TRANSFER_ENCODING (hm_remove TRANSFER_ENCODING hs) = false /\
  Headers.content_length_parse_all (hm_remove TRANSFER_ENCODING hs) = Headers.content_length_parse_all hs.
Proof.
  unfold contains_key, Headers.content_length_parse_all.
  by rewrite get_all_remove_eq, get_all_remove_ne by done.
Qed.

(** Without a body ([body = None]) a Content-Length the user set stays, while
    the encoder sends nothing. *)
Lemma set_length_no_body_keeps_length v m hs n :
  Headers.content_length_parse_all hs = Some n ->
  exists hs', set_length v m hs None = Some (hs', Encode.encoder_length 0) /\
    Headers.content_length_parse_all hs' = Some n.
Proof. intros E. eexists. split; [done|]. by rewrite (proj2 (remove_te hs)). Qed.
End Length.

Section Heads.
Context `{HttpLaws}.

(** A request head on the wire is the request line, the header lines of
    the map [set_length] produced in their order and spelled as configured, and
    an empty line; nothing already in the buffer changes. *)
Theorem client_encode_bytes {Uri} (uri_display : Uri -> bytes) head body title dst hs e v :
  set_length (head_version head) (rl_method (head_subject head)) (head_headers head) body = Some (hs, e) ->
  version_bytes (head_version head) = Some v -> ext_case_map (head_extensions head) = None ->
  client_encode uri_display head body title dst =
    Some (dst ++ rl_method (head_subject head) ++ bs " " ++ uri_display (rl_uri (head_subject head)) ++ bs " "
            ++ v ++ CRLF
            ++ concat (header_line (if title then title_case_from DASH else id) <$> hm_iter hs) ++ CRLF,
          e, Some (rl_method (head_subject head))).
Proof.
  intros Es Ev Ec. unfold client_encode. rewrite Es. cbn [mbind option_bind]. rewrite Ev, Ec.
  cbn [mbind option_bind]. unfold extend.
  destruct title; [rewrite write_headers_title_lines | rewrite write_headers_lines];
    by rewrite <-!app_assoc.
Qed.
End Heads.

Section ReadHead.
Context {BC : BytesCrate} {BCL : BytesCrateLaws} {AL : Alloc} {ALL : AllocLaws} `{HttpCrate} `{HttparseLaws}.
Context {T : Type} `{TransportLaws T} {B : Type} {HB : Buf B} {HBL : BufLaws B}.

(** Reading a response head from a connection is total for every input
    and every way it arrives: [Buffered::parse] with the client's parser never
    panics (no slice index is out of range, folded lines and skipped 1xx
    responses included), always terminates, and consumes a prefix of the input
    without touching the write side. *)
Theorem read_head_total cfg fuel ctx (b : Buffered T B) :
  read_wf b -> scanned (read_buf b) (partial_len b) -> (length (input (io b)) < fuel)%nat ->
  match parse (parse_headers cfg) fuel ctx b with
  | (RVal _, (b', _)) => consumed b b' /\ partial_len b' = None
  | (RPending, (b', _)) => consumed b b' /\ scanned (read_buf b') (partial_len b') /\ read_blocked b' = true
  | (RErr _, (b', _)) => consumed b b'
  | (RPanic, _) | (RFuel, _) => False
  end.
Proof.
  intros Hw Hs Hf. pose proof (parse_loop_ok _ (parse_headers_ok cfg) fuel ctx b Hw Hs Hf) as Hp.
  destruct (parse _ _ _ _) as [[m| |e| |] [b' c']]; try done. destruct Hp as (? & E & _ & ?).
  split; [done|]. split; [|done]. rewrite E. intros n. destruct (0 <? _); [|done]. intros [= <-]. len_lia.
Qed.
End ReadHead.

(** ** The properties at concrete inputs *)

Import RefBytes RefAlloc RefHttp RefHttparse Pipe.

Lemma line_cons a b s :
  line (a :: b :: s) =
  if (a =? CR) && (b =? LF) then Some ([], s) else '(l, r) ← line (b :: s); Some (a :: l, r).
Proof. reflexivity. Qed.

Lemma line_length s l r : line s = Some (l, r) -> len s = len l + 2 + len r.
Proof.
  revert l r. induction s as [|a [|b s] IH]; intros l r E; [done..|]. rewrite line_cons in E.
  destruct ((a =? CR) && (b =? LF)).
  - injection E as <- <-. rewrite !len_cons. change (len []) with 0. lia.
  - destruct (line (b :: s)) as [[l' r']|]; [|done]. cbn [mbind option_bind] in E. injection E as <- <-.
    rewrite len_cons, (IH l' r' eq_refl). rewrite len_cons. lia.
Qed.

Lemma until_length sep s l r : until sep s = Some (l, r) -> len s = len l + 1 + len r.
Proof.
  revert l r. induction s as [|a s IH]; intros l r E; [done|]. cbn in E. destruct (a =? sep).
  - injection E as <- <-. rewrite len_cons. change (len []) with 0. lia.
  - destruct (until sep s) as [[l' r']|]; [|done]. cbn in E. injection E as <- <-.
    rewrite !len_cons, (IH l' r' eq_refl). lia.
Qed.

Lemma trim_start_le s : len (trim_start s) <= len s.
Proof. induction s as [|b s IH]; [done|]. cbn. destruct (is_ascii_ws b); len_lia. Qed.
Lemma trim_end_le s : len (trim_end s) <= len s.
Proof.
  unfold trim_end. pose proof (trim_start_le (reverse s)). unfold len in *. by rewrite !length_reverse in *.
Qed.

Lemma ref_headers_ok fuel off s max n hs :
  0 <= off -> headers fuel off s max = Ok (Some (n, hs)) ->
  off + 2 <= n <= off + len s /\ Forall (header_in n) hs /\ len hs <= Z.max 0 max.
Proof.
  revert off s max n hs. induction fuel as [|fuel IH]; intros off s max n hs Ho E; [done|]. cbn in E.
  destruct (line s) as [[l rest]|] eqn:El; [|done]. apply line_length in El.
  destruct l as [|c l'] eqn:Ec.
  { injection E as <- <-. change (len []) with 0 in *. split; [len_lia|]. split; [constructor|]. change (len []) with 0. lia. }
  rewrite <-Ec in *. destruct (Z.leb_spec max 0); [done|].
  destruct (until 58 l) as [[name v]|] eqn:Eu; [|done]. apply until_length in Eu.
  destruct (headers fuel (off + len l + 2) rest (max - 1)) as [[[n' hs']|]|] eqn:Eh; [|done|done].
  injection E as <- <-. apply IH in Eh as (Hn & Hf & Hm); [|len_lia].
  pose proof (trim_start_le v). pose proof (trim_end_le (trim_start v)).
  split; [len_lia|]. split; [|rewrite len_cons; lia].
  constructor; [|done]. unfold header_in. cbn. len_lia.
Qed.

#[export] Instance ref_httparse_laws : HttparseLaws.
Proof.
  split. intros cfg s max r E. cbn [hp_parse_response ref_httparse] in E. destruct (line s) as [[l rest]|] eqn:El; [|done].
  apply line_length in El. destruct (status_line l) as [[[v code] reason]|]; [|done].
  destruct (headers (S (length s)) (len l + 2) rest max) as [[[n hs]|]|] eqn:Eh; [|done|done].
  injection E as <-. apply ref_headers_ok in Eh as (Hn & Hf & Hm); [|len_lia]. cbn.
  split; [len_lia|]. split; [exact Hf | exact Hm].
Qed.

Lemma is_complete_fast_equiv_witness :
  exists r, is_complete_fast (bs "HTTP/1.1 200 OK" ++ CRLF ++ CRLF) 17 = Some r /\ r = true.
Proof.
  destruct (is_complete_fast_equiv (bs "HTTP/1.1 200 OK" ++ CRLF ++ CRLF) 17) as (r & E & _).
  { vm_compute. split; discriminate. }
  { intros Hc. apply scan_spec in Hc. vm_compute in Hc. discriminate. }
  exists r. split; [exact E|]. vm_compute in E. injection E as <-. reflexivity.
Defined.

Definition ex_folded : bytes := bs "A: one" ++ CRLF ++ bs "  two" ++ CRLF ++ CRLF.
Definition ex_index : HeaderIndices := mkIndices (0, 1) (3, 13).

Lemma obs_fold_line_in_place_witness :
  exists all' idx', obs_fold_line ex_folded ex_index = Some (all', idx') /\ len all' = len ex_folded /\
    slice (hi_value idx').1 (hi_value idx').2 all' = Some (bs "one two").
Proof.
  destruct (obs_fold_line_in_place ex_folded ex_index) as (a & i & E & El & _).
  { vm_compute. repeat split; discriminate. }
  exists a, i. split; [exact E|]. split; [exact El|]. vm_compute in E. injection E as <- <-. reflexivity.
Defined.

Definition ex_headers : HeaderMap := hm_append CONTENT_LENGTH (bs "5") (hm_append CONTENT_LENGTH (bs "5, 5") hm_new).
Definition ex_response (hs : HeaderMap) : MessageHead StatusCode := mkHead HTTP_11 200 hs (mkExtensions None None).

Lemma decoder_framing_witness :
  decoder (ex_response ex_headers) (Some GET) = Ok (Some (DecodedLength.mk 5, false)) /\
  ~ framing (ex_response ex_headers) (Some GET) (Ok (Some (DecodedLength.ZERO, false))).
Proof.
  split; [reflexivity|]. intros F. apply decoder_framing in F. vm_compute in F. discriminate.
Defined.

Lemma set_length_agrees_witness :
  exists hs' e, set_length HTTP_11 POST (hm_append TRANSFER_ENCODING (bs "gzip") ex_headers) (Some Unknown) = Some (hs', e) /\
    hm_get_all TRANSFER_ENCODING hs' = [bs "gzip, chunked"] /\ announces hs' (Encode.kind e).
Proof.
  destruct (set_length_agrees HTTP_11 POST (hm_append TRANSFER_ENCODING (bs "gzip") ex_headers) Unknown)
    as (hs' & e & E & _ & _ & _ & Ha).
  { discriminate. }
  exists hs', e. split; [exact E|]. vm_compute in E. injection E as <- <-. split; [reflexivity|].
  destruct Ha as [Ha|[Ha _]]; [exact Ha|discriminate].
Defined.

Definition ex_request : MessageHead (RequestLine (Uri:=bytes)) :=
  mkHead HTTP_11 (mkRequestLine POST (bs "/x")) hm_new (mkExtensions None None).

Lemma client_encode_bytes_witness :
  client_encode id ex_request (Some (Known 3)) true [] =
    Some (bs "POST /x HTTP/1.1" ++ CRLF ++ bs "Content-Length: 3" ++ CRLF ++ CRLF, Encode.encoder_length 3, Some POST).
Proof.
  exact (client_encode_bytes id ex_request (Some (Known 3)) true []
    (hm_insert CONTENT_LENGTH (hv_from_u64 3) hm_new) (Encode.encoder_length 3) (bs "HTTP/1.1")
    eq_refl eq_refl eq_refl).
Defined.

Definition ex_wire : bytes :=
  bs "HTTP/1.1 100 Continue" ++ CRLF ++ CRLF ++ bs "HTTP/1.1 200 OK" ++ CRLF ++ bs "Content-Length: 2" ++ CRLF ++ CRLF ++ bs "hi".
Definition ex_conn : Buffered pipe bytes := buffered_new (mkPipe ex_wire [] 0).
Definition ex_cfg : ParseConfig := mkParseConfig (false : hp_config) None false false.

Lemma read_head_total_witness :
  exists msg b' c', parse (parse_headers ex_cfg) 100 (mkParseState None (Some GET)) ex_conn = (RVal msg, (b', c')) /\
    head_subject (pm_head msg) = 200 /\ pm_decode msg = DecodedLength.mk 2 /\ read_buf b' = bs "hi" /\ consumed ex_conn b'.
Proof.
  pose proof (read_head_total ex_cfg 100 (mkParseState None (Some GET)) ex_conn) as Hr.
  assert (read_wf ex_conn) as Hw by (split; [exact I | vm_compute; discriminate]).
  specialize (Hr Hw ltac:(discriminate) ltac:(vm_compute; lia)).
  set (out := parse _ _ _ _) in *.
  assert (match out.1 with RVal m => Some (head_subject (pm_head m), pm_decode m) | _ => None end
          = Some (200, DecodedLength.mk 2)) as Em by (vm_compute; reflexivity).
  assert (read_buf out.2.1 = bs "hi") as Eb by (vm_compute; reflexivity).
  clearbody out. destruct out as [r [b' c']]. destruct r as [m| | | |]; try discriminate. injection Em as E1 E2.
  exists m, b', c'. split; [reflexivity|]. split; [exact E1|]. split; [exact E2|]. split; [exact Eb | exact (proj1 Hr)].
Defined.
