(* ===== verification/Conn.v ===== *)
(** * The connection state machine (src/src/core/proto/h1/conn.rs)

    [Conn] joins the buffered transport with the state of the two directions,
    [Reading] and [Writing], and the keep-alive status, and offers the operations
    the dispatcher drives it with.  The transaction type is the client, the only
    one the program has. *)

From S2P Require Import Prelude Buf Http HeaderWrite WriteBuf Encode Decode Error Io Role.

Module Conn.
Import Error Role.

(** [Http1Transaction] for the client. *)
Definition is_client : bool := true.
Definition is_server : bool := negb is_client.
Definition should_error_on_parse_eof : bool := is_client.
Definition should_read_first : bool := is_server.

(** ** [Wants], a set of flags in a byte *)

Record Wants := mkWants { wants_bits : Z }.
Definition W_EMPTY : Wants := mkWants 0.
Definition W_EXPECT : Wants := mkWants 1.
Definition W_UPGRADE : Wants := mkWants 2.
Definition wants_add (a b : Wants) : Wants := mkWants (Z.lor (wants_bits a) (wants_bits b)).
Definition wants_contains (a b : Wants) : bool := Z.land (wants_bits a) (wants_bits b) =? wants_bits b.

Inductive Reading :=
| RInit | RContinue (d : Decode.Decoder) | RBody (d : Decode.Decoder) | RKeepAlive | RClosed.
Inductive Writing :=
| WInit | WBody (e : Encode.Encoder) | WKeepAlive | WClosed.
Inductive KA := Idle | Busy | Disabled.

(** [KA &= enabled] *)
Definition ka_and (k : KA) (enabled : bool) : KA := if enabled then k else Disabled.

Definition H2_PREFACE : bytes :=
  bs "PRI * HTTP/2.0" ++ CRLF ++ CRLF ++ bs "SM" ++ CRLF ++ CRLF.

Section State.
Context `{HttpCrate} `{Httparse}.

Record State := mkState {
  allow_half_close : bool;
  cached_headers : option HeaderMap;
  error : option Error;
  keep_alive : KA;
  method : option Method;
  h1_parser_config : hp_config;
  h1_max_headers : option Z;
  preserve_header_case : bool;
  title_case_headers : bool;
  h09_responses : bool;
  notify_read : bool;
  reading : Reading;
  writing : Writing;
  upgrade : option Z;
  version : Version;
  allow_trailer_fields : bool
}.

Definition set_cached_headers (x : option HeaderMap) (s : State) : State :=
  mkState (allow_half_close s) x (error s) (keep_alive s) (method s) (h1_parser_config s) (h1_max_headers s) (preserve_header_case s) (title_case_headers s) (h09_responses s) (notify_read s) (reading s) (writing s) (upgrade s) (version s) (allow_trailer_fields s).
Definition set_error (x : option Error) (s : State) : State :=
  mkState (allow_half_close s) (cached_headers s) x (keep_alive s) (method s) (h1_parser_config s) (h1_max_headers s) (preserve_header_case s) (title_case_headers s) (h09_responses s) (notify_read s) (reading s) (writing s) (upgrade s) (version s) (allow_trailer_fields s).
Definition set_keep_alive (x : KA) (s : State) : State :=
  mkState (allow_half_close s) (cached_headers s) (error s) x (method s) (h1_parser_config s) (h1_max_headers s) (preserve_header_case s) (title_case_headers s) (h09_responses s) (notify_read s) (reading s) (writing s) (upgrade s) (version s) (allow_trailer_fields s).
Definition set_method (x : option Method) (s : State) : State :=
  mkState (allow_half_close s) (cached_headers s) (error s) (keep_alive s) x (h1_parser_config s) (h1_max_headers s) (preserve_header_case s) (title_case_headers s) (h09_responses s) (notify_read s) (reading s) (writing s) (upgrade s) (version s) (allow_trailer_fields s).
Definition set_h1_parser_config (x : hp_config) (s : State) : State :=
  mkState (allow_half_close s) (cached_headers s) (error s) (keep_alive s) (method s) x (h1_max_headers s) (preserve_header_case s) (title_case_headers s) (h09_responses s) (notify_read s) (reading s) (writing s) (upgrade s) (version s) (allow_trailer_fields s).
Definition set_h1_max_headers (x : option Z) (s : State) : State :=
  mkState (allow_half_close s) (cached_headers s) (error s) (keep_alive s) (method s) (h1_parser_config s) x (preserve_header_case s) (title_case_headers s) (h09_responses s) (notify_read s) (reading s) (writing s) (upgrade s) (version s) (allow_trailer_fields s).
Definition set_preserve_header_case (x : bool) (s : State) : State :=
  mkState (allow_half_close s) (cached_headers s) (error s) (keep_alive s) (method s) (h1_parser_config s) (h1_max_headers s) x (title_case_headers s) (h09_responses s) (notify_read s) (reading s) (writing s) (upgrade s) (version s) (allow_trailer_fields s).
Definition set_title_case_headers (x : bool) (s : State) : State :=
  mkState (allow_half_close s) (cached_headers s) (error s) (keep_alive s) (method s) (h1_parser_config s) (h1_max_headers s) (preserve_header_case s) x (h09_responses s) (notify_read s) (reading s) (writing s) (upgrade s) (version s) (allow_trailer_fields s).
Definition set_h09_responses (x : bool) (s : State) : State :=
  mkState (allow_half_close s) (cached_headers s) (error s) (keep_alive s) (method s) (h1_parser_config s) (h1_max_headers s) (preserve_header_case s) (title_case_headers s) x (notify_read s) (reading s) (writing s) (upgrade s) (version s) (allow_trailer_fields s).
Definition set_notify_read (x : bool) (s : State) : State :=
  mkState (allow_half_close s) (cached_headers s) (error s) (keep_alive s) (method s) (h1_parser_config s) (h1_max_headers s) (preserve_header_case s) (title_case_headers s) (h09_responses s) x (reading s) (writing s) (upgrade s) (version s) (allow_trailer_fields s).
Definition set_reading (x : Reading) (s : State) : State :=
  mkState (allow_half_close s) (cached_headers s) (error s) (keep_alive s) (method s) (h1_parser_config s) (h1_max_headers s) (preserve_header_case s) (title_case_headers s) (h09_responses s) (notify_read s) x (writing s) (upgrade s) (version s) (allow_trailer_fields s).
Definition set_writing (x : Writing) (s : State) : State :=
  mkState (allow_half_close s) (cached_headers s) (error s) (keep_alive s) (method s) (h1_parser_config s) (h1_max_headers s) (preserve_header_case s) (title_case_headers s) (h09_responses s) (notify_read s) (reading s) x (upgrade s) (version s) (allow_trailer_fields s).
Definition set_upgrade (x : option Z) (s : State) : State :=
  mkState (allow_half_close s) (cached_headers s) (error s) (keep_alive s) (method s) (h1_parser_config s) (h1_max_headers s) (preserve_header_case s) (title_case_headers s) (h09_responses s) (notify_read s) (reading s) (writing s) x (version s) (allow_trailer_fields s).
Definition set_version (x : Version) (s : State) : State :=
  mkState (allow_half_close s) (cached_headers s) (error s) (keep_alive s) (method s) (h1_parser_config s) (h1_max_headers s) (preserve_header_case s) (title_case_headers s) (h09_responses s) (notify_read s) (reading s) (writing s) (upgrade s) x (allow_trailer_fields s).
Definition set_allow_trailer_fields (x : bool) (s : State) : State :=
  mkState (allow_half_close s) (cached_headers s) (error s) (keep_alive s) (method s) (h1_parser_config s) (h1_max_headers s) (preserve_header_case s) (title_case_headers s) (h09_responses s) (notify_read s) (reading s) (writing s) (upgrade s) (version s) x.

Definition state_new : State :=
  mkState false None None Busy None hp_default_config None false false false false
    RInit WInit None HTTP_11 false.

Definition close (s : State) : State :=
  set_keep_alive Disabled (set_writing WClosed (set_reading RClosed s)).
Definition state_close_read (s : State) : State := set_keep_alive Disabled (set_reading RClosed s).
Definition state_close_write (s : State) : State := set_keep_alive Disabled (set_writing WClosed s).

Definition wants_keep_alive (s : State) : bool :=
  match keep_alive s with Disabled => false | _ => true end.
Definition disable_keep_alive (s : State) : State := set_keep_alive Disabled s.
Definition busy (s : State) : State :=
  match keep_alive s with Disabled => s | _ => set_keep_alive Busy s end.
Definition is_idle (s : State) : bool := match keep_alive s with Idle => true | _ => false end.

Definition idle (s : State) : State :=
  let s := set_keep_alive Idle (set_method None s) in
  if negb (is_idle s) then close s
  else
    let s := set_writing WInit (set_reading RInit s) in
    if negb should_read_first then set_notify_read true s else s.

Definition state_try_keep_alive (s : State) : State :=
  match reading s, writing s with
  | RKeepAlive, WKeepAlive => match keep_alive s with Busy => idle s | _ => close s end
  | RClosed, WKeepAlive | RKeepAlive, WClosed => close s
  | _, _ => s
  end.

Definition state_is_read_closed (s : State) : bool :=
  match reading s with RClosed => true | _ => false end.
Definition state_is_write_closed (s : State) : bool :=
  match writing s with WClosed => true | _ => false end.

(** [prepare_upgrade]: [tx] identifies the sender of a fresh channel. *)
Definition prepare_upgrade (tx : Z) (s : State) : State := set_upgrade (Some tx) s.
End State.

Section Conn.
Context `{BytesCrate} `{Alloc} `{HttpCrate} `{Httparse}.
Context {T : Type} `{Transport T} {B : Type} `{Buf B} {Uri : Type} (uri_display : Uri -> bytes).

Record Conn := mkConn { conn_io : Buffered T (Encode.EncodedBuf B); state : State }.

Definition with_state (f : State -> State) (c : Conn) : Conn := mkConn (conn_io c) (f (state c)).
Definition with_io (f : Buffered T (Encode.EncodedBuf B) -> Buffered T (Encode.EncodedBuf B)) (c : Conn) : Conn :=
  mkConn (f (conn_io c)) (state c).

Definition conn_new (t : T) : Conn := mkConn (buffered_new t) state_new.

Definition conn_set_write_strategy_queue : Conn -> Conn := with_io set_write_strategy_queue.
Definition conn_set_write_strategy_flatten : Conn -> Conn := with_io set_write_strategy_flatten.
Definition conn_set_max_buf_size (max : Z) (c : Conn) : option Conn :=
  b ← buffered_set_max_buf_size max (conn_io c); Some (mkConn b (state c)).
Definition conn_set_read_buf_exact_size (sz : Z) : Conn -> Conn := with_io (set_read_buf_exact_size sz).
Definition conn_set_h1_parser_config (cfg : hp_config) : Conn -> Conn := with_state (set_h1_parser_config cfg).
Definition conn_set_title_case_headers : Conn -> Conn := with_state (set_title_case_headers true).
Definition conn_set_preserve_header_case : Conn -> Conn := with_state (set_preserve_header_case true).
Definition conn_set_h09_responses : Conn -> Conn := with_state (set_h09_responses true).
Definition conn_set_http1_max_headers (n : Z) : Conn -> Conn := with_state (set_h1_max_headers (Some n)).
Definition conn_into_inner (c : Conn) : T * bytes := into_inner (conn_io c).
Definition pending_upgrade (c : Conn) : option Z * Conn :=
  (upgrade (state c), with_state (set_upgrade None) c).

Definition is_read_closed (c : Conn) : bool := state_is_read_closed (state c).
Definition is_write_closed (c : Conn) : bool := state_is_write_closed (state c).

Definition can_read_head (c : Conn) : bool :=
  match reading (state c) with
  | RInit =>
      if should_read_first then true
      else match writing (state c) with WInit => false | _ => true end
  | _ => false
  end.
Definition can_read_body (c : Conn) : bool :=
  match reading (state c) with RBody _ | RContinue _ => true | _ => false end.
Definition should_error_on_eof (c : Conn) : bool :=
  should_error_on_parse_eof && negb (is_idle (state c)).
Definition has_h2_prefix (c : Conn) : bool :=
  (24 <=? len (read_buf (conn_io c))) && bool_decide (ztake 24 (read_buf (conn_io c)) = H2_PREFACE).
Definition is_mid_message (c : Conn) : bool :=
  match reading (state c), writing (state c) with RInit, WInit => false | _, _ => true end.

Definition close_read : Conn -> Conn := with_state state_close_read.
Definition close_write : Conn -> Conn := with_state state_close_write.

(** ** Keeping the connection alive *)

(** The second half of [maybe_notify]: look for input that is already there. *)
Definition notify_io (c : Conn) : Conn :=
  if read_blocked (conn_io c) then c
  else
    match read_buf (conn_io c) with
    | [] =>
        match poll_read_from_io (conn_io c) with
        | (RVal n, b) =>
            let c := mkConn b (state c) in
            if n =? 0 then
              (if is_idle (state c) then with_state close c else close_read c)
            else with_state (set_notify_read true) c
        | (RErr e, b) =>
            with_state (fun s => set_notify_read true (set_error (Some (new_io e)) (close s)))
              (mkConn b (state c))
        | (_, b) => mkConn b (state c)
        end
    | _ => with_state (set_notify_read true) c
    end.

Definition maybe_notify (c : Conn) : Conn :=
  match reading (state c), writing (state c) with
  | RInit, (WInit | WKeepAlive | WClosed) => notify_io c
  | _, _ => c
  end.

Definition try_keep_alive (c : Conn) : Conn := maybe_notify (with_state state_try_keep_alive c).

Definition wants_read_again (c : Conn) : bool * Conn :=
  (notify_read (state c), with_state (set_notify_read false) c).

(** ** Writing *)

Definition can_write_head (c : Conn) : bool :=
  if negb should_read_first && is_read_closed c then false
  else match writing (state c) with WInit => can_headers_buf (conn_io c) | _ => false end.
Definition can_write_body (c : Conn) : bool :=
  match writing (state c) with WBody _ => true | _ => false end.
Definition can_buffer_body (c : Conn) : bool := buffered_can_buffer (conn_io c).

Abbreviation ReqHead := (MessageHead (RequestLine (Uri:=Uri))).

Definition set_head (v : Version) (hs : HeaderMap) (h : ReqHead) : ReqHead :=
  mkHead v (head_subject h) hs (head_extensions h).

(** [fix_keep_alive] and [enforce_version] adjust the head and the state. *)
Definition fix_keep_alive (head : ReqHead) (s : State) : ReqHead * State :=
  let outgoing_is_keep_alive :=
    match hm_get CONNECTION (head_headers head) with
    | Some v => Headers.connection_keep_alive v
    | None => false
    end in
  if outgoing_is_keep_alive then (head, s)
  else
    match head_version head with
    | HTTP_10 => (head, disable_keep_alive s)
    | HTTP_11 =>
        if wants_keep_alive s then
          (set_head HTTP_11 (hm_insert CONNECTION (bs "keep-alive") (head_headers head)) head, s)
        else (head, s)
    | _ => (head, s)
    end.

Definition enforce_version (head : ReqHead) (s : State) : ReqHead * State :=
  match version s with
  | HTTP_10 =>
      let '(head, s) := fix_keep_alive head s in
      (set_head HTTP_10 (head_headers head) head, s)
  | HTTP_11 =>
      match keep_alive s with
      | Disabled =>
          (set_head (head_version head) (hm_insert CONNECTION (bs "close") (head_headers head)) head, s)
      | _ => (head, s)
      end
  | _ => (head, s)
  end.

(** The head is written behind what the headers buffer holds; [None] is the
    panic on an unsupported version.  The client's [encode] has no error of its
    own, so the [Err] arm of [encode_head] does not arise. *)
Definition encode_head (head : ReqHead) (body : option BodyLength) (c : Conn)
  : option (Encode.Encoder * Conn) :=
  let s := if negb should_read_first then busy (state c) else state c in
  let '(head, s) := enforce_version head s in
  '(out, encoder, m) ← client_encode uri_display head body (title_case_headers s) [];
  let b := headers_buf_extend out (conn_io c) in
  Some (encoder, mkConn b (set_cached_headers (Some hm_new) (set_method m s))).

(** The writing state after a complete message. *)
Definition finished (e : Encode.Encoder) : Writing :=
  if Encode.is_last e then WClosed else WKeepAlive.

Definition write_head (head : ReqHead) (body : option BodyLength) (c : Conn) : option Conn :=
  '(encoder, c) ← encode_head head body c;
  Some (with_state (set_writing
    (if negb (Encode.is_eof encoder) then WBody encoder else finished encoder)) c).

Definition write_body (chunk : B) (c : Conn) : option Conn :=
  match writing (state c) with
  | WBody encoder =>
      '(eb, encoder) ← Encode.encode chunk encoder;
      b ← buffered_buffer id eb (conn_io c);
      let w := if negb (Encode.is_eof encoder) then WBody encoder else finished encoder in
      Some (mkConn b (set_writing w (state c)))
  | _ => None (* unreachable! *)
  end.

Definition write_trailers (trailers : HeaderMap) (c : Conn) : option Conn :=
  if is_server && negb (allow_trailer_fields (state c)) then Some c
  else
    match writing (state c) with
    | WBody encoder =>
        sent ← Encode.encode_trailers trailers (title_case_headers (state c)) encoder;
        match sent with
        | Some eb =>
            b ← buffered_buffer id eb (conn_io c);
            let w := if Encode.is_last encoder || Encode.is_close_delimited encoder
                     then WClosed else WKeepAlive in
            Some (mkConn b (set_writing w (state c)))
        | None => Some c
        end
    | _ => None (* unreachable! *)
    end.

Definition write_body_and_end (chunk : B) (c : Conn) : option Conn :=
  match writing (state c) with
  | WBody encoder =>
      '(can_keep_alive, w) ← Encode.encode_and_end chunk (write_buf (conn_io c)) encoder;
      Some (mkConn (set_write_buf w (conn_io c))
              (set_writing (if can_keep_alive : bool then WKeepAlive else WClosed) (state c)))
  | _ => None (* unreachable! *)
  end.

Definition end_body (c : Conn) : option (result unit Error * Conn) :=
  match writing (state c) with
  | WBody encoder =>
      match Encode.encoder_end (B:=B) encoder with
      | Ok fin =>
          b ← match fin with
              | Some eb => buffered_buffer id eb (conn_io c)
              | None => Some (conn_io c)
              end;
          let w := if Encode.is_last encoder || Encode.is_close_delimited encoder
                   then WClosed else WKeepAlive in
          Some (Ok tt, mkConn b (set_writing w (state c)))
      | Err not_eof =>
          Some (Err (with_cause (CauseNotEof (Encode.not_eof not_eof)) new_body_write_aborted),
                with_state (set_writing WClosed) c)
      end
  | _ => Some (Ok tt, c)
  end.

(** ** Reading *)

(** The client cannot answer a parse error ([T::on_error] is [None]). *)
Definition on_parse_error (e : Error) (c : Conn) : Error :=
  match writing (state c) with
  | WInit => if has_h2_prefix c then new_version_h2 else e
  | _ => e
  end.

(** [RVal None] is [Poll::Ready(None)], [RErr e] is [Poll::Ready(Some(Err(e)))]. *)
Definition on_read_head_error {Z} (e : Error) (c : Conn) : poll_res Error (option Z) * Conn :=
  let must_error := should_error_on_eof c in
  let c := close_read c in
  let c := with_io consume_leading_lines c in
  let was_mid_parse := is_parse e || negb (match read_buf (conn_io c) with [] => true | _ => false end) in
  if was_mid_parse || must_error then (RErr (on_parse_error e c), c)
  else (RVal None, close_write c).

Definition parse_config (s : State) : ParseConfig :=
  mkParseConfig (h1_parser_config s) (h1_max_headers s) (preserve_header_case s) (h09_responses s).

Definition poll_read_head (fuel : nat) (c : Conn)
  : poll_res Error (option (MessageHead StatusCode * DecodedLength.DecodedLength * Wants)) * Conn :=
  let s := state c in
  let '(res, (b, ctx)) :=
    parse (parse_headers (parse_config s)) fuel (mkParseState (cached_headers s) (method s)) (conn_io c) in
  let s := set_method (ctx_req_method ctx) (set_cached_headers (ctx_cached_headers ctx) s) in
  let c := mkConn b s in
  match res with
  | RErr e => on_read_head_error e c
  | RPending => (RPending, c)
  | RPanic => (RPanic, c)
  | RFuel => (RFuel, c)
  | RVal msg =>
      let s := busy (set_h09_responses false s) in
      let s := set_keep_alive (ka_and (keep_alive s) (pm_keep_alive msg)) s in
      let s := set_version (head_version (pm_head msg)) s in
      let wants := if pm_wants_upgrade msg then W_UPGRADE else W_EMPTY in
      let dec := Decode.decoder_new (pm_decode msg) (h1_max_headers s) None in
      let '(c, wants) :=
        if decide (pm_decode msg = DecodedLength.ZERO) then
          let c := mkConn b (set_reading RKeepAlive s) in
          (if negb should_read_first then try_keep_alive c else c, wants)
        else if pm_expect_continue msg && (version_rank HTTP_10 <? version_rank (head_version (pm_head msg))) then
          (mkConn b (set_reading (RContinue dec) s), wants_add wants W_EXPECT)
        else (mkConn b (set_reading (RBody dec) s), wants) in
      let te := match hm_get TE (head_headers (pm_head msg)) with
                | Some v => bool_decide (v = bs "trailers") | None => false end in
      (RVal (Some (pm_head msg, pm_decode msg, wants)), with_state (set_allow_trailer_fields te) c)
  end.

(** The [Reading::Body] arm of [poll_read_body]. *)
Definition read_body (fuel : nat) (d : Decode.Decoder) (c : Conn)
  : poll_res io_error (option (Decode.Frame HeaderMap)) * Conn :=
  let '(res, (d, b)) := Decode.decode fuel d (conn_io c) in
  let c := mkConn b (set_reading (RBody d) (state c)) in
  let fin (r : Reading) := try_keep_alive (with_state (set_reading r) c) in
  match res with
  | RPending => (RPending, c)
  | RPanic => (RPanic, c)
  | RFuel => (RFuel, c)
  | RErr e => (RErr e, fin RClosed)
  | RVal (Decode.FTrailers h) => (RVal (Some (Decode.FTrailers h)), fin RClosed)
  | RVal (Decode.FData s) =>
      if Decode.is_eof d then
        (RVal (match s with [] => None | _ => Some (Decode.FData s) end), fin RKeepAlive)
      else
        match s with
        | [] => (RVal None, fin RClosed)
        | _ => (RVal (Some (Decode.FData s)), c)
        end
  end.

Definition poll_read_body (fuel : nat) (c : Conn)
  : poll_res io_error (option (Decode.Frame HeaderMap)) * Conn :=
  match reading (state c) with
  | RBody d => read_body fuel d c
  | RContinue d =>
      let c :=
        match writing (state c) with
        | WInit => with_io (headers_buf_extend (bs "HTTP/1.1 100 Continue" ++ CRLF ++ CRLF)) c
        | _ => c
        end in
      read_body fuel d (with_state (set_reading (RBody d)) c)
  | _ => (RPanic, c) (* unreachable! *)
  end.

(** ** Detecting the end of the connection *)

Definition force_io_read (c : Conn) : poll_res io_error Z * Conn :=
  match poll_read_from_io (conn_io c) with
  | (RErr e, b) => (RErr e, mkConn b (close (state c)))
  | (res, b) => (res, mkConn b (state c))
  end.

Definition require_empty_read (c : Conn) : poll_res Error unit * Conn :=
  match read_buf (conn_io c) with
  | [] =>
      match force_io_read c with
      | (RVal n, c) =>
          if n =? 0 then
            (if should_error_on_eof c then RErr new_incomplete else RVal tt, close_read c)
          else (RErr new_unexpected_message, c)
      | (RPending, c) => (RPending, c)
      | (RErr e, c) => (RErr (new_io e), c)
      | (RPanic, c) => (RPanic, c)
      | (RFuel, c) => (RFuel, c)
      end
  | _ => (RErr new_unexpected_message, c)
  end.

Definition mid_message_detect_eof (c : Conn) : poll_res Error unit * Conn :=
  if allow_half_close (state c) || negb (match read_buf (conn_io c) with [] => true | _ => false end)
  then (RPending, c)
  else
    match force_io_read c with
    | (RVal n, c) => if n =? 0 then (RErr new_incomplete, close_read c) else (RVal tt, c)
    | (RPending, c) => (RPending, c)
    | (RErr e, c) => (RErr (new_io e), c)
    | (RPanic, c) => (RPanic, c)
    | (RFuel, c) => (RFuel, c)
    end.

Definition poll_read_keep_alive (c : Conn) : poll_res Error unit * Conn :=
  if is_read_closed c then (RPending, c)
  else if is_mid_message c then mid_message_detect_eof c
  else require_empty_read c.

(** ** Flushing, shutting down, draining *)

Definition poll_flush (fuel : nat) (c : Conn) : poll_res io_error unit * Conn :=
  match buffered_poll_flush fuel (conn_io c) with
  | (RVal _, b) => (RVal tt, try_keep_alive (mkConn b (state c)))
  | (res, b) => (res, mkConn b (state c))
  end.

Definition poll_shutdown (c : Conn) : poll_res io_error unit * Conn :=
  let '(r, t) := io_poll_shutdown (io (conn_io c)) in (r, with_io (set_io t) c).

(** The result of the read is discarded; a panic is not. *)
Definition poll_drain_or_close_read (fuel : nat) (c : Conn) : option Conn :=
  let c := match reading (state c) with
           | RContinue d => with_state (set_reading (RBody d)) c
           | _ => c
           end in
  match poll_read_body fuel c with
  | (RPanic, _) | (RFuel, _) => None
  | (_, c) =>
      match reading (state c) with
      | RInit | RKeepAlive => Some c
      | _ => Some (close_read c)
      end
  end.

Definition take_error (c : Conn) : result unit Error * Conn :=
  match error (state c) with
  | Some e => (Err e, with_state (set_error None) c)
  | None => (Ok tt, c)
  end.

Definition on_upgrade (tx : Z) : Conn -> Conn := with_state (prepare_upgrade tx).
End Conn.
End Conn.
