(* ===== verification/ConnFacts.v ===== *)
(** * Invariants of the connection state machine

    The well-formedness of a connection and its preservation by every operation
    the dispatcher may call, together with the absence of panics. *)

From S2P Require Import Prelude Buf Http HeaderWrite WriteBuf Encode EncodeProps Decode DecodeFacts DecodeProps Error Io IoFacts Role RoleFacts RoleProps Conn.
Import Error Role Conn EncodeFacts HeadersFacts.

(** ** The state alone *)

Section StateFacts.
Context `{HttpCrate} `{Httparse}.
Implicit Types s : State.

(** A body being read is not at its end, and the spare header map has been
    used for its head. *)
Definition reading_ok s : Prop :=
  match reading s with
  | RBody d | RContinue d => decoder_wf d /\ Decode.is_eof d = false /\ cached_headers s = None
  | RKeepAlive => cached_headers s = None
  | RInit | RClosed => True
  end.

(** A body being written is not complete, and its request is remembered. *)
Definition writing_ok s : Prop :=
  match writing s with
  | WInit => (reading s = RInit \/ reading s = RClosed) /\ cached_headers s = None
  | WBody e => Encode.is_eof e = false /\ (forall n, Encode.kind e = Encode.Length n -> wf_u64 n) /\
      is_Some (method s)
  | WKeepAlive => is_Some (method s)
  | WClosed => True
  end.

Definition state_inv s : Prop :=
  (keep_alive s = Idle -> reading s = RInit /\ writing s = WInit) /\ reading_ok s /\ writing_ok s.

Lemma state_new_inv : state_inv state_new.
Proof. split; [done|]. split; [done|]. split; [by left | done]. Qed.

Lemma close_inv s : state_inv (close s).
Proof. split; [done|]. by split. Qed.
Lemma close_read_inv s : state_inv s -> state_inv (state_close_read s).
Proof.
  intros (_ & _ & Hw). split; [done|]. split; [done|]. unfold writing_ok in *. cbn in *.
  destruct (writing s); try done. split; [by right | apply Hw].
Qed.
Lemma close_write_inv s : state_inv s -> state_inv (state_close_write s).
Proof. intros (_ & Hr & _). split; [done|]. split; [exact Hr|done]. Qed.

(** The only way to become idle. *)
Lemma try_keep_alive_idle s :
  is_idle s = false -> is_idle (state_try_keep_alive s) = true ->
  reading s = RKeepAlive /\ writing s = WKeepAlive /\ keep_alive s = Busy /\
  state_try_keep_alive s =
    set_notify_read true (set_writing WInit (set_reading RInit (set_keep_alive Idle (set_method None s)))).
Proof.
  unfold state_try_keep_alive. intros Hn. destruct (reading s), (writing s); try congruence; try done.
  destruct (keep_alive s) eqn:Ek; try done.
Qed.

Lemma state_try_keep_alive_inv s : state_inv s -> state_inv (state_try_keep_alive s).
Proof.
  intros Hs. pose proof Hs as (_ & Hr & _). unfold state_try_keep_alive.
  destruct (reading s) eqn:Er, (writing s) eqn:Ew; try exact Hs; try apply close_inv.
  destruct (keep_alive s) eqn:Ek; try apply close_inv.
  unfold reading_ok in Hr. rewrite Er in Hr.
  split; [done|]. split; [done|]. split; [by left|exact Hr].
Qed.

Lemma set_notify_inv x s : state_inv s -> state_inv (set_notify_read x s).
Proof. done. Qed.
Lemma set_error_inv x s : state_inv s -> state_inv (set_error x s).
Proof. done. Qed.
Lemma set_allow_inv x s : state_inv s -> state_inv (set_allow_trailer_fields x s).
Proof. done. Qed.

(** ** What never comes back *)

(** A closed side stays closed and disabled keep-alive stays disabled. *)
Definition mono s s' : Prop :=
  (keep_alive s = Disabled -> keep_alive s' = Disabled) /\
  (reading s = RClosed -> reading s' = RClosed) /\
  (writing s = WClosed -> writing s' = WClosed).

#[global] Instance mono_preorder : PreOrder mono.
Proof. split; [done|]. intros s1 s2 s3 (? & ? & ?) (? & ? & ?). split_and!; auto. Qed.

Lemma mono_close s : mono s (close s).
Proof. done. Qed.
Lemma mono_close_read s : mono s (state_close_read s).
Proof. done. Qed.
Lemma mono_close_write s : mono s (state_close_write s).
Proof. done. Qed.
Lemma mono_try_keep_alive s : mono s (state_try_keep_alive s).
Proof.
  unfold state_try_keep_alive. destruct (reading s) eqn:Er, (writing s) eqn:Ew; try done.
  destruct (keep_alive s) eqn:Ek; try done. split_and!; cbn; congruence.
Qed.
Lemma mono_busy s : mono s (busy s).
Proof. unfold busy. destruct (keep_alive s) eqn:E; (split_and!; cbn; congruence). Qed.
End StateFacts.

(** ** The connection *)

Section ConnFacts.
Context {BC : BytesCrate} {BCL : BytesCrateLaws} {AL : Alloc} {ALL : AllocLaws} `{HttpLaws} `{HttparseLaws}.
Context {T : Type} `{TransportLaws T} {B : Type} {HB : Buf B} {HBL : BufLaws B}.
Context {Uri : Type} (uri_display : Uri -> bytes).
Implicit Types c : Conn (T:=T) (B:=B).

(** What was scanned of a partial head is still in the buffer, and nothing
    counts as scanned while a body is read. *)
Definition scan_ok c : Prop :=
  match reading (state c) with
  | RInit => scanned (read_buf (conn_io c)) (partial_len (conn_io c))
  | RBody _ | RContinue _ | RKeepAlive => partial_len (conn_io c) = None
  | RClosed => True
  end.

Definition conn_wf c : Prop :=
  state_inv (state c) /\ read_wf (conn_io c) /\ writebuf_wf (write_buf (conn_io c)) /\ scan_ok c.

Lemma scanned_none s : scanned s None.
Proof. done. Qed.

Lemma conn_new_wf t : tr_wf t -> conn_wf (conn_new t).
Proof.
  intros Ht. split; [apply state_new_inv|]. split; [split; [done|apply Z.le_refl]|].
  split; [|apply scanned_none]. unfold conn_new, buffered_new. cbn [conn_io write_buf].
  apply writebuf_new_wf.
Qed.

(** Reading more input into the buffer. *)
Lemma scanned_more s s' p : scanned s p -> len s <= len s' -> scanned s' p.
Proof. intros Hs Hl n E. specialize (Hs n E). lia. Qed.

(** [c'] differs from [c] by input that arrived. *)
Definition io_more c c' : Prop :=
  read_wf (conn_io c') /\ write_buf (conn_io c') = write_buf (conn_io c) /\
  partial_len (conn_io c') = partial_len (conn_io c) /\
  len (read_buf (conn_io c)) <= len (read_buf (conn_io c')).

Lemma poll_read_io_more c :
  read_wf (conn_io c) ->
  match poll_read_from_io (conn_io c) with
  | (RVal _, b) | (RPending, b) | (RErr _, b) => forall s, io_more c (mkConn b s)
  | _ => False
  end.
Proof.
  intros Hw. pose proof (poll_read_from_io_ok (conn_io c) Hw) as Hr.
  pose proof (fun b' e => poll_read_error_buf (conn_io c) b' e) as He.
  destruct (poll_read_from_io (conn_io c)) as [[n| |e| |] b]; try done.
  - destruct Hr as (Hw' & _ & (? & ? & ? & ?) & Hl & Hn & _). intros s. unfold io_more. cbn. split_and!; (done || lia).
  - destruct Hr as (Hw' & _ & (? & ? & ? & ?) & _ & Hb & _). intros s. unfold io_more. cbn. rewrite Hb. split_and!; (done || lia).
  - destruct Hr as (Hw' & _ & (? & ? & ? & ?)). intros s. unfold io_more. cbn.
    rewrite (He b e eq_refl). split_and!; (done || lia).
Qed.

(** ** One operation *)

(** A connection that becomes idle had sent its whole request. *)
Definition idle_after c c' : Prop :=
  is_idle (state c) = false -> is_idle (state c') = true ->
  writing (state c) = WKeepAlive /\ method (state c') = None.

Definition op_ok c c' : Prop :=
  conn_wf c' /\ mono (state c) (state c') /\ idle_after c c'.

Lemma idle_same c c' : is_idle (state c') = is_idle (state c) -> idle_after c c'.
Proof. unfold idle_after. congruence. Qed.
Lemma idle_not c c' : is_idle (state c') = false -> idle_after c c'.
Proof. unfold idle_after. congruence. Qed.

(** Operations that only receive input and do not open a side. *)
Lemma more_op_ok c c' :
  conn_wf c -> io_more c c' -> state_inv (state c') -> mono (state c) (state c') ->
  reading (state c') = reading (state c) \/ reading (state c') = RClosed ->
  idle_after c c' -> op_ok c c'.
Proof.
  intros (_ & _ & Hb & Hs) (Hw & Eb & Ep & Hl) Hi Hm Hr Hid. split; [|done]. split; [done|].
  split; [done|]. split; [by rewrite Eb|]. unfold scan_ok in *.
  destruct Hr as [-> | ->]; [|done]. destruct (reading (state c)); try congruence; try done.
  rewrite Ep. by eapply scanned_more.
Qed.

Lemma same_io_more c s : read_wf (conn_io c) -> io_more c (mkConn (conn_io c) s).
Proof. intros Hw. unfold io_more. cbn. split_and!; (done || lia). Qed.

(** What [maybe_notify] can do to the state. *)
Inductive notified (s : State) : State -> Prop :=
| notified_none : notified s s
| notified_flag : notified s (set_notify_read true s)
| notified_closed : notified s (close s)
| notified_read_closed : notified s (state_close_read s)
| notified_error e : notified s (set_notify_read true (set_error e (close s))).

Lemma notify_io_cases c :
  read_wf (conn_io c) -> io_more c (notify_io c) /\ notified (state c) (state (notify_io c)).
Proof.
  intros Hw. unfold notify_io. pose proof (poll_read_io_more c Hw) as Hr.
  pose proof (same_io_more c (state c) Hw) as Hsame.
  destruct (read_blocked (conn_io c)); [split; [exact Hsame|constructor]|].
  destruct (read_buf (conn_io c)); [|split; [exact Hsame|constructor]].
  destruct (poll_read_from_io (conn_io c)) as [[n| |e| |] b]; try done.
  - cbv zeta. destruct (n =? 0); [destruct (is_idle _)|]; (split; [apply Hr|constructor]).
  - split; [apply Hr|constructor].
  - split; [apply Hr|constructor].
Qed.

Lemma maybe_notify_cases c :
  read_wf (conn_io c) -> io_more c (maybe_notify c) /\ notified (state c) (state (maybe_notify c)).
Proof.
  intros Hw. pose proof (notify_io_cases c Hw) as Hn. unfold maybe_notify.
  assert (io_more c c /\ notified (state c) (state c)) as Hs
    by (split; [exact (same_io_more c (state c) Hw)|constructor]).
  destruct (reading (state c)); [|exact Hs..]. by destruct (writing (state c)).
Qed.

Lemma notified_facts s s' :
  notified s s' ->
  (state_inv s -> state_inv s') /\ mono s s' /\ (reading s' = reading s \/ reading s' = RClosed) /\
  (is_idle s' = true -> is_idle s = true /\ method s' = method s).
Proof.
  intros Hn. destruct Hn; (split; [|split; [done|split; [by auto|done]]]);
    [done|done|intros _; apply close_inv|apply close_read_inv|intros _; apply close_inv].
Qed.

Lemma try_keep_alive_ok c : conn_wf c -> op_ok c (try_keep_alive c).
Proof.
  intros (Hi & Hw & Hb & Hs). unfold try_keep_alive. set (c1 := with_state state_try_keep_alive c).
  assert (conn_wf c1) as Hc1.
  { split; [by apply state_try_keep_alive_inv|]. split; [done|]. split; [done|].
    unfold scan_ok in *. cbn. unfold state_try_keep_alive.
    destruct (reading (state c)) eqn:Er, (writing (state c)) eqn:Ew; try (by rewrite Er); try done.
    destruct (keep_alive (state c)); try done. cbn. by rewrite Hs. }
  destruct (maybe_notify_cases c1 Hw) as [Hmore Hn]. apply notified_facts in Hn as (Hi' & Hm & Hr & Hid).
  destruct (more_op_ok c1 (maybe_notify c1)) as (Hc2 & Hm2 & _);
    [done|done|apply Hi', Hc1|done|done|intros ? ?; naive_solver congruence|].
  split; [done|]. split; [etransitivity; [apply mono_try_keep_alive|exact Hm]|].
  intros Hn Hy. destruct (Hid Hy) as [E1 Em].
  destruct (try_keep_alive_idle (state c) Hn E1) as (_ & Ew & _ & Es). split; [done|].
  rewrite Em. change (state c1) with (state_try_keep_alive (state c)). by rewrite Es.
Qed.

(** Forget the reading state of a message that is over. *)
Lemma finish_reading_wf c r :
  conn_wf c -> writing (state c) <> WInit -> partial_len (conn_io c) = None ->
  is_idle (state c) = false -> cached_headers (state c) = None ->
  (r = RKeepAlive \/ r = RClosed) -> conn_wf (with_state (set_reading r) c).
Proof.
  intros ((_ & _ & Hwr) & Hw & Hb & _) Hnw Hp Hid Hca Hr. split; [|split; [done|split; [done|]]].
  - split; [|split].
    + cbn. intros E. unfold is_idle in Hid. by rewrite E in Hid.
    + unfold reading_ok. cbn. by destruct Hr as [-> | ->].
    + unfold writing_ok in *. cbn. by destruct (writing (state c)).
  - unfold scan_ok. cbn. by destruct Hr as [-> | ->].
Qed.

(** ** Reading a body *)

Lemma set_body_wf c d b :
  conn_wf c -> read_wf b -> write_buf b = write_buf (conn_io c) -> partial_len b = None ->
  writing (state c) <> WInit -> is_idle (state c) = false -> cached_headers (state c) = None ->
  decoder_wf d -> Decode.is_eof d = false -> conn_wf (mkConn b (set_reading (RBody d) (state c))).
Proof.
  intros ((_ & _ & Hwr) & _ & Hb & _) Hw Eb Ep Hnw Hid Hca Hd He. split; [|split; [done|split; [by rewrite <-Eb in Hb|done]]].
  split; [|split].
  - cbn. intros E. unfold is_idle in Hid. by rewrite E in Hid.
  - done.
  - unfold writing_ok in *. cbn. by destruct (writing (state c)).
Qed.

(** The end of a body. *)
Lemma fin_ok c c1 r :
  conn_wf (with_state (set_reading r) c1) ->
  (keep_alive (state c) = Disabled -> keep_alive (state c1) = Disabled) -> is_idle (state c1) = false ->
  writing (state c1) = writing (state c) -> reading (state c) <> RClosed ->
  op_ok c (try_keep_alive (with_state (set_reading r) c1)).
Proof.
  intros Hwf Ek Hni Ew Hr. destruct (try_keep_alive_ok _ Hwf) as (Hc & (M1 & M2 & M3) & Hid). split; [done|].
  cbn in M1, M2, M3. rewrite Ew in M3. split; [by split_and!; auto|].
  intros Hn Hy. unfold idle_after in Hid. change (is_idle (state (with_state (set_reading r) c1))) with
    (is_idle (state c1)) in Hid. cbn in Hid. rewrite Ew in Hid. by apply Hid.
Qed.

(** A polled operation that returned. *)
Definition poll_ok {E A} c (out : poll_res E A * Conn) : Prop :=
  out.1 <> RPanic /\ out.1 <> RFuel /\ op_ok c out.2.

(** What a connection in the middle of a body looks like. *)
Lemma mid_body_facts c d :
  conn_wf c -> reading (state c) = RBody d \/ reading (state c) = RContinue d ->
  writing (state c) <> WInit /\ is_idle (state c) = false /\ cached_headers (state c) = None /\
  decoder_wf d /\ Decode.is_eof d = false /\ partial_len (conn_io c) = None.
Proof.
  intros ((Hi & Hr & Hw) & _ & _ & Hs) E.
  assert (decoder_wf d /\ Decode.is_eof d = false /\ cached_headers (state c) = None) as (? & ? & ?).
  { unfold reading_ok in Hr. by destruct E as [E|E]; rewrite E in Hr. }
  split_and!; try done.
  - intros Ew. unfold writing_ok in Hw. rewrite Ew in Hw. destruct Hw as [[Hw|Hw] _], E; congruence.
  - unfold is_idle. destruct (keep_alive (state c)) eqn:Ek; try done.
    destruct (Hi eq_refl). destruct E; congruence.
  - unfold scan_ok in Hs. by destruct E as [E|E]; rewrite E in Hs.
Qed.

Lemma read_body_ok fuel d c :
  conn_wf c -> reading (state c) = RBody d -> (length (incoming (conn_io c)) < fuel)%nat ->
  poll_ok c (read_body fuel d c).
Proof.
  intros Hc Er Hf. pose proof Hc as (Hi & Hw & Hb & _).
  destruct (mid_body_facts c d Hc (or_introl Er)) as (Hnw & Hid & Hca & Hd & He & Hp).
  pose proof (decode_call fuel d (conn_io c) Hw Hd He Hf) as Hcall.
  pose proof (fun d' b => decode_pending fuel d (conn_io c) d' b Hw Hd He) as Hpend.
  pose proof (decode_keeps (read_only (write_buf (conn_io c)) None (output (io (conn_io c))))
    (fun n b => read_mem_read_only _ _ _ n b) fuel d (conn_io c) ltac:(done)) as Hk.
  unfold read_body. destruct (Decode.decode fuel d (conn_io c)) as [res [d' b]].
  cbn [snd] in Hk. destruct Hk as (Hwb & Eb & Epl & _).
  set (c1 := mkConn b (set_reading (RBody d') (state c))). cbv zeta.
  assert (forall r, (r = RKeepAlive \/ r = RClosed) -> conn_wf (with_state (set_reading r) c1)) as Hfinwf.
  { intros r Hr. assert (conn_wf (mkConn b (set_reading (RBody d) (state c)))) as Hset by (by apply set_body_wf).
    apply (finish_reading_wf _ r) in Hset; try done. }
  assert (forall r, (r = RKeepAlive \/ r = RClosed) ->
    op_ok c (try_keep_alive (with_state (set_reading r) c1))) as Hfin.
  { intros r Hr. apply fin_ok; [by apply Hfinwf|done|done|done|by rewrite Er]. }
  assert (decoder_wf d' -> Decode.is_eof d' = false -> op_ok c c1) as Hstay.
  { intros Hd' He'. split; [by apply set_body_wf|]. split; [|by apply idle_same].
    split_and!; cbn; [done|by rewrite Er|done]. }
  destruct res as [[x|h]| |e| |]; try done; unfold poll_ok.
  - destruct Hcall as (Hd' & _). destruct (Decode.is_eof d') eqn:Ee.
    { split; [done|]. split; [done|]. apply Hfin. by left. }
    destruct x; (split; [done|]; split; [done|]); [apply Hfin; by right|by apply Hstay].
  - split; [done|]. split; [done|]. apply Hfin. by right.
  - destruct Hcall as (Hd' & _). split; [done|]. split; [done|]. apply Hstay; [done|by eapply Hpend].
  - split; [done|]. split; [done|]. apply Hfin. by right.
Qed.

Lemma poll_read_body_ok fuel c :
  conn_wf c -> can_read_body c = true -> (length (incoming (conn_io c)) < fuel)%nat ->
  poll_ok c (poll_read_body fuel c).
Proof.
  intros Hc Hg Hf. unfold poll_read_body, can_read_body in *.
  destruct (reading (state c)) as [|d|d| |] eqn:Er; try done; [|by apply read_body_ok].
  destruct (mid_body_facts c d Hc (or_intror Er)) as (Hnw & Hid & Hca & Hd & He & Hp).
  set (c0 := match writing (state c) with WInit => _ | _ => c end).
  assert (c0 = c) as -> by (subst c0; by destruct (writing (state c))).
  pose proof Hc as (_ & Hw & _).
  assert (conn_wf (with_state (set_reading (RBody d)) c)) as Hc1 by (by apply set_body_wf).
  destruct (read_body_ok fuel d (with_state (set_reading (RBody d)) c) Hc1 eq_refl Hf) as (H1' & H2' & H3' & (M1 & M2 & M3) & Hid').
  split; [done|]. split; [done|]. split; [done|]. split; [|exact Hid']. split_and!; [exact M1|by rewrite Er|exact M3].
Qed.

(** ** Reading a head *)

Lemma value_says_u64 n v : value_says n v -> wf_u64 n.
Proof.
  intros (x & _ & Hp). destruct (split Headers.COMMA x) as [|w ws] eqn:E; [by apply split_nonempty in E|].
  apply Forall_cons in Hp as [Hp _]. apply from_digits_spec in Hp as (_ & Hv & Hm).
  apply digits_value_le in Hv; [by split|apply good_dec|lia].
Qed.
Lemma parse_all_u64 hs n : Headers.content_length_parse_all hs = Some n -> wf_u64 n.
Proof.
  intros E. apply parse_all_says in E as [Hne Hf]. destruct (hm_get_all CONTENT_LENGTH hs) as [|v vs]; [done|].
  apply Forall_cons in Hf as [Hf _]. by eapply value_says_u64.
Qed.

(** The decoder of a response that has a body is fresh and well formed. *)
Lemma decoder_new_ok inc m l u mh :
  decoder inc m = Ok (Some (l, u)) -> l <> DecodedLength.ZERO ->
  decoder_wf (Decode.decoder_new l mh None) /\ Decode.is_eof (Decode.decoder_new l mh None) = false.
Proof.
  intros E Hz. unfold Decode.decoder_new. case_decide as E1.
  { split; [|done]. by apply chunked_new_wf. }
  case_decide as E2; [done|]. destruct (decoder_lengths _ _ _ _ E) as [?|[?|[?|(n & -> & Hp)]]]; [done..|].
  apply parse_all_u64 in Hp.
  split; [exact Hp|]. unfold Decode.is_eof. cbn. destruct n; [|done..]. by destruct Hz.
Qed.

Lemma consume_leading_lines_ok (b : Buffered T (Encode.EncodedBuf B)) :
  read_wf b -> read_wf (consume_leading_lines b) /\ write_buf (consume_leading_lines b) = write_buf b.
Proof.
  intros Hw. unfold consume_leading_lines. destruct (read_buf b) eqn:E; [done|]. rewrite <-E.
  split; [by apply read_buf_advance_wf|done].
Qed.

Lemma on_read_head_error_ok {Z} e c0 c :
  state_inv (state c) -> read_wf (conn_io c) -> writebuf_wf (write_buf (conn_io c)) ->
  mono (state c0) (state c) -> poll_ok c0 (on_read_head_error (Z:=Z) e c).
Proof.
  intros Hi Hw Hb Hm. unfold on_read_head_error. cbv zeta.
  set (c1 := with_io consume_leading_lines (close_read c)).
  assert (op_ok c0 c1 /\ op_ok c0 (close_write c1)) as [Hop1 Hop2].
  { destruct (consume_leading_lines_ok (conn_io c) Hw) as [Hw' Eb].
    split; (split; [|split; [by etransitivity; [exact Hm|]|by apply idle_not]]).
    - split; [by apply close_read_inv|]. split; [done|]. split; [cbn; by rewrite Eb|done].
    - split; [by apply close_write_inv, close_read_inv|]. split; [done|]. split; [cbn; by rewrite Eb|done]. }
  destruct (_ || _); done.
Qed.

Lemma head_state_inv s r :
  state_inv s -> writing s <> WInit -> (forall d, r = RBody d -> decoder_wf d /\ Decode.is_eof d = false) ->
  r = RKeepAlive \/ (exists d, r = RBody d) -> cached_headers s = None -> is_idle s = false ->
  state_inv (set_reading r s).
Proof.
  intros (_ & _ & Hw) Hnw Hd Hr Hca Hid. split; [|split].
  - intros E. unfold is_idle in Hid. cbn in E. by rewrite E in Hid.
  - unfold reading_ok. cbn. destruct Hr as [->|[d ->]]; [done|]. by destruct (Hd d eq_refl).
  - unfold writing_ok in *. cbn. by destruct (writing s).
Qed.

(** The state after a head was accepted, before its body is dealt with. *)
Definition after_head (msg : ParsedMessage) (s : State) : State :=
  set_version (head_version (pm_head msg))
    (set_keep_alive (ka_and (keep_alive (busy (set_h09_responses false s))) (pm_keep_alive msg))
       (busy (set_h09_responses false s))).

Lemma after_head_ok msg s :
  state_inv s -> reading s = RInit -> writing s <> WInit -> cached_headers s = None ->
  state_inv (after_head msg s) /\ mono s (after_head msg s) /\ reading (after_head msg s) = RInit /\
  writing (after_head msg s) = writing s /\ cached_headers (after_head msg s) = None /\
  is_idle (after_head msg s) = false.
Proof.
  intros (Hi & Hr & Hw) Er Hnw Hca.
  assert (exists k, k <> Idle /\ (keep_alive s = Disabled -> k = Disabled) /\
    after_head msg s = set_version (head_version (pm_head msg)) (set_keep_alive k (set_h09_responses false s)))
    as (k & Hk & Hd & ->).
  { unfold after_head, busy, ka_and. cbn [keep_alive set_h09_responses].
    destruct (keep_alive s) eqn:Ek, (pm_keep_alive msg); eexists; (split; [|split; [|reflexivity]]);
      cbn [keep_alive set_keep_alive set_h09_responses]; congruence. }
  split; [split; [|split]|].
  - cbn. congruence.
  - unfold reading_ok. cbn. by rewrite Er.
  - unfold writing_ok in *. cbn. by destruct (writing s).
  - split_and!; try done. unfold is_idle. cbn. by destruct k.
Qed.

Lemma can_read_head_facts c :
  can_read_head c = true -> reading (state c) = RInit /\ writing (state c) <> WInit.
Proof.
  unfold can_read_head. destruct (reading (state c)); try done. cbn.
  destruct (writing (state c)); try done.
Qed.

Lemma ctx_state_inv s ca :
  state_inv s -> reading s = RInit -> writing s <> WInit ->
  state_inv (set_method (method s) (set_cached_headers ca s)) /\
  mono s (set_method (method s) (set_cached_headers ca s)).
Proof.
  intros (Hi & Hr & Hw) Er Hnw. split; [|done]. split; [exact Hi|]. split.
  - unfold reading_ok. cbn. by rewrite Er.
  - unfold writing_ok in *. cbn. by destruct (writing s).
Qed.

Lemma poll_read_head_ok fuel c :
  conn_wf c -> can_read_head c = true -> (length (input (io (conn_io c))) < fuel)%nat ->
  poll_ok c (poll_read_head fuel c).
Proof.
  intros Hc Hg Hf. pose proof Hc as (Hi & Hw & Hb & Hs).
  destruct (can_read_head_facts c Hg) as [Er Hnw]. unfold scan_ok in Hs. rewrite Er in Hs.
  unfold poll_read_head. set (ph := parse_headers (parse_config (state c))).
  set (ctx := mkParseState (cached_headers (state c)) (method (state c))).
  pose proof (parse_loop_ok ph (parse_headers_ok _) fuel ctx (conn_io c) Hw Hs Hf) as Hp.
  pose proof (parse_ctx_inv ph (fun x => ctx_req_method x = method (state c)) fuel ctx (conn_io c)
    ltac:(intros ? ? ? <-; apply parse_headers_ctx) eq_refl) as Hm.
  pose proof (parse_val_inv ph fuel ctx (conn_io c)) as Hval.
  destruct (parse ph fuel ctx (conn_io c)) as [res [b x]]. cbn [snd] in Hm. cbv zeta. rewrite Hm.
  destruct (ctx_state_inv (state c) (ctx_cached_headers x) Hi Er Hnw) as [Hi1 Hm1].
  set (s1 := set_method (method (state c)) (set_cached_headers (ctx_cached_headers x) (state c))) in *.
  destruct res as [msg| |e| |]; try done.
  - destruct (Hval msg b x eq_refl) as (? & ? & ? & ? & Hmsg).
    apply parse_headers_msg in Hmsg as (Hca & Hexp & m & Hdec). destruct Hp as ((Hwb & (Eb & _) & _) & Epl).
    destruct (after_head_ok msg s1 Hi1 Er Hnw Hca) as (Hi2 & Hm2 & Er2 & Ew2 & Eca2 & Hid2).
    fold (after_head msg s1). set (s2 := after_head msg s1) in *.
    rewrite Hexp, andb_false_l.
    assert (mono (state c) s2) as Hm3 by (by etransitivity).
    assert (forall r, state_inv (set_reading r s2) -> r <> RClosed -> r <> RInit ->
      conn_wf (mkConn b (set_reading r s2))) as Hset.
    { intros r Hr Hnc Hni. split; [done|]. split; [done|]. split; [cbn; by rewrite Eb|]. by destruct r. }
    assert (forall c', op_ok c c' -> forall te, op_ok c (with_state (set_allow_trailer_fields te) c')) as Hte.
    { intros c' (Hwf & Hmo & Hia) te. split; [exact Hwf|]. split; [exact Hmo|exact Hia]. }
    case_decide as Ez; (split; [done|]; split; [done|]; cbn [snd]; apply Hte).
    + apply (fin_ok c (mkConn b s2) RKeepAlive); [|apply Hm3|done|done|by rewrite Er].
      apply Hset; [|done..]. apply head_state_inv; [done|by rewrite Ew2|done|by left|done..].
    + destruct (decoder_new_ok _ _ _ _ (h1_max_headers s2) Hdec Ez) as [Hd He].
      split; [|split; [|by apply idle_not]].
      * apply Hset; [|done..]. apply head_state_inv; [done|by rewrite Ew2| |right; by eexists|done..].
        by intros ? [= <-].
      * destruct Hm3 as (M1 & _ & M3). split; [exact M1|]. split; [by rewrite Er|exact M3].
  - destruct Hp as ((Hwb & (Eb & _) & _) & Epl & _ & _). split; [done|]. split; [done|].
    split; [|split; [exact Hm1|by apply idle_same]]. split; [exact Hi1|]. split; [exact Hwb|].
    split; [cbn; by rewrite Eb|]. unfold scan_ok. cbn. rewrite Er, Epl.
    intros n. destruct (0 <? _); [|done]. intros [= <-]. len_lia.
  - destruct Hp as (Hwb & (Eb & _) & _). apply on_read_head_error_ok; [done|done|by rewrite <-Eb in Hb|done].
Qed.
End ConnFacts.
