(* ===== verification/ConnOps.v ===== *)
(** * Connection operations: end-of-connection checks, flushing and writing

    The remaining operations of [Conn] keep the invariant of ConnFacts.v and do
    not panic; then the step relation over all of them and its invariants. *)

From S2P Require Import Prelude Buf Http HeaderWrite WriteBuf Encode EncodeProps Decode DecodeFacts DecodeProps Error Io IoFacts Role RoleFacts RoleProps Conn ConnFacts.
Import Error Role Conn EncodeFacts HeadersFacts.

Section ConnOps.
Context {BC : BytesCrate} {BCL : BytesCrateLaws} {AL : Alloc} {ALL : AllocLaws} `{HttpLaws} `{HttparseLaws}.
Context {T : Type} `{TransportLaws T} {B : Type} {HB : Buf B} {HBL : BufLaws B}.
Context {Uri : Type} (uri_display : Uri -> bytes).
Implicit Types c : Conn (T:=T) (B:=B).

(** ** Watching an idle or half-finished connection *)

Lemma op_ok_refl c : conn_wf c -> op_ok c c.
Proof. intros Hc. split; [done|]. split; [done|]. by apply idle_same. Qed.

Lemma force_io_read_ok c :
  conn_wf c ->
  match force_io_read c with
  | (RVal _, c') | (RPending, c') => op_ok c c' /\ op_ok c (close_read c')
  | (RErr _, c') => op_ok c c'
  | _ => False
  end.
Proof.
  intros Hc. pose proof Hc as (Hi & Hw & _). unfold force_io_read. pose proof (poll_read_io_more c Hw) as Hr.
  assert (forall b, io_more c (mkConn b (state c)) ->
    op_ok c (mkConn b (state c)) /\ op_ok c (close_read (mkConn b (state c)))) as Hk.
  { intros b Hm. split.
    - apply more_op_ok; [done|exact Hm|done|done|by left|by apply idle_same].
    - apply more_op_ok; [done|exact Hm|by apply close_read_inv|done|by right|by apply idle_not]. }
  destruct (poll_read_from_io (conn_io c)) as [[n| |e| |] b]; try done; [apply Hk, Hr|apply Hk, Hr|].
  apply more_op_ok; [done|apply Hr|apply close_inv|done|by right|by apply idle_not].
Qed.

Lemma poll_read_keep_alive_ok c : conn_wf c -> poll_ok c (poll_read_keep_alive c).
Proof.
  intros Hc. pose proof (op_ok_refl c Hc) as Hs. pose proof (force_io_read_ok c Hc) as Hf.
  unfold poll_read_keep_alive, mid_message_detect_eof, require_empty_read.
  destruct (is_read_closed c); [done|]. destruct (is_mid_message c).
  - destruct (_ || _); [done|]. destruct (force_io_read c) as [[n| |e| |] c']; try done.
    + destruct (n =? 0); (split; [done|]; split; [done|]; apply Hf).
    + split; [done|]; split; [done|]; apply Hf.
  - destruct (read_buf (conn_io c)); [|done]. destruct (force_io_read c) as [[n| |e| |] c']; try done.
    + destruct (n =? 0); [destruct (should_error_on_eof c')|]; (split; [done|]; split; [done|]; apply Hf).
    + split; [done|]; split; [done|]; apply Hf.
Qed.

(** ** Flushing *)

Lemma flushed_wf c b :
  conn_wf c -> write_wf b -> same_read (conn_io c) b -> conn_wf (mkConn b (state c)).
Proof.
  intros (Hi & (_ & Hcap) & _ & Hs) [Ht Hb] (E1 & E2 & _ & _ & _ & E6). split; [done|].
  split; [split; [done|cbn; by rewrite E1, E2]|]. split; [done|]. unfold scan_ok in *. cbn. by rewrite E1, E6.
Qed.

Lemma conn_poll_flush_ok fuel c :
  conn_wf c -> (length (pending (write_buf (conn_io c))) < fuel)%nat -> poll_ok c (poll_flush fuel c).
Proof.
  intros Hc Hf. pose proof Hc as (_ & (Ht & _) & Hb & _).
  pose proof (buffered_poll_flush_ok fuel (conn_io c) (conj Ht Hb) Hf) as Hok.
  unfold poll_flush. destruct (buffered_poll_flush fuel (conn_io c)) as [[u| |e| |] b]; try done.
  - destruct Hok as (Hw & _ & Hr & _). pose proof (flushed_wf c b Hc Hw Hr) as Hc'.
    destruct (try_keep_alive_ok _ Hc') as (Hc2 & Hm & Hid). split; [done|]. split; [done|]. by split.
  - destruct Hok as (Hw & _ & Hr). pose proof (flushed_wf c b Hc Hw Hr) as Hc'.
    split; [done|]. split; [done|]. split; [done|]. split; [done|by apply idle_same].
  - destruct Hok as (Hw & _ & Hr). pose proof (flushed_wf c b Hc Hw Hr) as Hc'.
    split; [done|]. split; [done|]. split; [done|]. split; [done|by apply idle_same].
Qed.

Lemma poll_shutdown_wf c : conn_wf c -> poll_ok c (poll_shutdown c).
Proof.
  intros (Hi & (Ht & Hcap) & Hb & Hs). unfold poll_shutdown. pose proof (poll_shutdown_ok _ Ht) as Hok.
  destruct (io_poll_shutdown (io (conn_io c))) as [[u| |e| |] t]; try done;
    destruct Hok as (Ht' & _); (split; [done|]; split; [done|]; split; [by split|]; split; [done|by apply idle_same]).
Qed.

Lemma close_read_ok c : conn_wf c -> op_ok c (close_read c).
Proof.
  intros (Hi & Hw & Hb & Hs). split; [|split; [done|by apply idle_not]].
  split; [by apply close_read_inv|done].
Qed.
Lemma close_write_ok c : conn_wf c -> op_ok c (close_write c).
Proof.
  intros (Hi & Hw & Hb & Hs). split; [|split; [done|by apply idle_not]].
  split; [by apply close_write_inv|done].
Qed.

Lemma poll_drain_ok fuel c :
  conn_wf c -> can_read_body c = true -> (length (incoming (conn_io c)) < fuel)%nat ->
  exists c', poll_drain_or_close_read fuel c = Some c' /\ op_ok c c'.
Proof.
  intros Hc Hg Hf. unfold poll_drain_or_close_read. cbv zeta.
  set (c0 := match reading (state c) with RContinue d => _ | _ => c end).
  assert (conn_wf c0 /\ can_read_body c0 = true /\ conn_io c0 = conn_io c /\
    keep_alive (state c0) = keep_alive (state c) /\ writing (state c0) = writing (state c) /\
    (reading (state c) = RClosed -> reading (state c0) = RClosed)) as (Hc0 & Hg0 & Eio & Ek & Ew & Er).
  { subst c0. destruct (reading (state c)) as [|d| | |] eqn:E; try (rewrite E; done).
    destruct (mid_body_facts c d Hc (or_intror E)) as (Hnw & Hid & Hca & Hd & He & Hp).
    split; [|done]. apply set_body_wf; try done. apply Hc. }
  rewrite <-Eio in Hf. destruct (poll_read_body_ok fuel c0 Hc0 Hg0 Hf) as (Hp1 & Hp2 & Hop).
  assert (forall c', op_ok c0 c' -> op_ok c c') as Hlift.
  { intros c' (Hwf & (M1 & M2 & M3) & Hid). rewrite Ek in M1. rewrite Ew in M3. split; [done|].
    split; [by split_and!; auto|]. intros Hn Hy. unfold idle_after, is_idle in *. rewrite Ek, Ew in Hid. by apply Hid. }
  destruct (poll_read_body fuel c0) as [res c1]. cbn [fst snd] in *.
  assert (op_ok c (close_read c1)) as Hcl.
  { apply Hlift. destruct Hop as (Hwf & Hm & _). destruct (close_read_ok c1 Hwf) as (? & ? & _).
    split; [done|]. split; [by etransitivity|by apply idle_not]. }
  assert (exists c', match reading (state c1) with RInit | RKeepAlive => Some c1 | _ => Some (close_read c1) end
    = Some c' /\ op_ok c c') as Hfin.
  { destruct (reading (state c1)); eexists; (split; [reflexivity|]); first [by apply Hlift | exact Hcl]. }
  by destruct res.
Qed.

(** ** Writing *)

(** The headers vector and the queue can take [n] more bytes. *)
Definition room c (n : Z) : Prop :=
  len (cur_bytes (headers (write_buf (conn_io c)))) + len (content (queue (write_buf (conn_io c)))) + n <= usize_max.

Lemma buffered_ok {BB} `{BufLaws BB} c (into : BB -> Encode.EncodedBuf B) (x : BB) :
  conn_wf c -> buf_wf x -> content x <> [] -> buf_wf (into x) -> content (into x) = content x ->
  room c (len (content x)) ->
  exists b, buffered_buffer into x (conn_io c) = Some b /\ read_wf b /\ writebuf_wf (write_buf b) /\
    pending (write_buf b) = pending (write_buf (conn_io c)) ++ content x /\
    read_buf b = read_buf (conn_io c) /\ partial_len b = partial_len (conn_io c).
Proof.
  intros (_ & Hw & Hb & _) Hx Hne Hi Ei Hroom. unfold buffered_buffer.
  destruct (buffer_pending into x (write_buf (conn_io c))) as (w & -> & Hw' & Ep & _); try done.
  cbn [mbind option_bind]. by eexists.
Qed.

(** Operations of the write side: the reading state is kept. *)
Lemma write_op_ok c b w :
  conn_wf c -> is_idle (state c) = false -> read_wf b -> writebuf_wf (write_buf b) ->
  read_buf b = read_buf (conn_io c) -> partial_len b = partial_len (conn_io c) ->
  writing (state c) <> WInit -> writing (state c) <> WClosed ->
  match w with
  | WInit => False
  | WBody e => Encode.is_eof e = false /\ (forall n, Encode.kind e = Encode.Length n -> wf_u64 n)
  | _ => True
  end ->
  op_ok c (mkConn b (set_writing w (state c))).
Proof.
  intros ((Hi & Hr & Hwr) & _ & _ & Hs) Hid Hw Hb Erb Ep Hnw Hnc Hok. split; [|split].
  - split; [|split; [done|split; [done|]]].
    + split; [|split; [exact Hr|]].
      * cbn. intros E. unfold is_idle in Hid. by rewrite E in Hid.
      * unfold writing_ok in *. cbn. destruct (writing (state c)) as [|e| |], w; try done; naive_solver.
    + unfold scan_ok in *. cbn. by rewrite Erb, Ep.
  - split_and!; cbn; [done|done|congruence].
  - by apply idle_same.
Qed.

Lemma writing_not_idle c : conn_wf c -> writing (state c) <> WInit -> is_idle (state c) = false.
Proof.
  intros ((Hi & _) & _) Hw. unfold is_idle. destruct (keep_alive (state c)); try done.
  by destruct (Hi eq_refl).
Qed.

(** What the encoder needs of a body in progress, and gives back. *)
Lemma encode_ok e (msg : B) :
  buf_wf msg -> content msg <> [] -> len (content msg) + 20 <= usize_max -> Encode.is_eof e = false ->
  (forall n, Encode.kind e = Encode.Length n -> wf_u64 n) ->
  exists eb e', Encode.encode msg e = Some (eb, e') /\ buf_wf eb /\ content eb <> [] /\
    len (content eb) <= len (content msg) + 20 /\ (forall n, Encode.kind e' = Encode.Length n -> wf_u64 n).
Proof.
  intros Hm Hne Hle He Hn. destruct e as [[tr|n] l].
  - destruct (encode_chunked (Encode.mkEncoder (Encode.Chunked tr) l) msg eq_refl Hm Hle) as (eb & -> & Hw & Ec).
    pose proof (len_fmt_radix 16 16 (len (content msg))) as Hlen. fold (fmt_hex_upper (len (content msg))) in Hlen.
    eexists _, _. split; [done|]. split; [done|]. rewrite Ec. unfold chunk_frame. split; [|split; [|done]].
    + by intros [E _]%app_eq_nil; apply fmt_radix_nonempty in E.
    + rewrite !len_app. change (len CRLF) with 2. lia.
  - specialize (Hn n eq_refl). destruct (encode_length n l msg Hn Hm) as (eb & -> & Hw & Ec).
    assert (0 < n) as Hpos by (unfold Encode.is_eof in He; cbn in He; destruct Hn; destruct n; [done|lia..]).
    assert (0 < len (content msg)) as Hlm by (destruct (content msg); [done|len_lia]).
    eexists _, _. split; [done|]. split; [done|]. rewrite Ec. split; [|split].
    + intros E%(f_equal len). rewrite len_ztake in E by lia. change (len []) with 0 in E. lia.
    + rewrite len_ztake by lia. lia.
    + intros m [= <-]. unfold wf_u64 in *. lia.
Qed.

Lemma wbody_facts c e :
  conn_wf c -> writing (state c) = WBody e ->
  Encode.is_eof e = false /\ (forall n, Encode.kind e = Encode.Length n -> wf_u64 n) /\
  is_idle (state c) = false /\ writing (state c) <> WInit /\ writing (state c) <> WClosed.
Proof.
  intros Hc Ew. pose proof Hc as ((_ & _ & Hw) & _). unfold writing_ok in Hw. rewrite Ew in Hw.
  destruct Hw as (? & ? & _). split_and!; try done; try congruence.
  apply writing_not_idle; [done|congruence].
Qed.

Lemma finished_fine e : match finished e with WBody _ | WInit => False | _ => True end.
Proof. unfold finished. by destruct (Encode.is_last e). Qed.

Lemma write_body_ok (chunk : B) c :
  conn_wf c -> can_write_body c = true -> buf_wf chunk -> content chunk <> [] ->
  room c (len (content chunk) + 25) ->
  exists c', write_body chunk c = Some c' /\ op_ok c c'.
Proof.
  intros Hc Hg Hm Hne Hroom. unfold can_write_body, write_body in *.
  destruct (writing (state c)) as [|e| |] eqn:Ew; try done.
  destruct (wbody_facts c e Hc Ew) as (He & Hn & Hid & Hw1 & Hw2). unfold room in Hroom.
  destruct (encode_ok e chunk Hm Hne) as (eb & e' & -> & Hwe & Hce & Hle & Hn'); [len_lia|done|done|].
  cbn [mbind option_bind].
  destruct (buffered_ok c id eb) as (b & -> & Hrw & Hb & _ & Erb & Ep); try done; [unfold room; len_lia|].
  cbn [mbind option_bind]. eexists. split; [done|].
  apply write_op_ok; try done. destruct (Encode.is_eof e') eqn:Ee; cbn [negb]; [|done].
  pose proof (finished_fine e'). by destruct (finished e').
Qed.

Lemma end_body_ok c :
  conn_wf c -> can_write_body c = true -> room c 5 ->
  exists r c', end_body c = Some (r, c') /\ op_ok c c'.
Proof.
  intros Hc Hg Hroom. unfold can_write_body, end_body in *.
  destruct (writing (state c)) as [|e| |] eqn:Ew; try done.
  destruct (wbody_facts c e Hc Ew) as (He & Hn & Hid & Hw1 & Hw2). pose proof Hc as (_ & Hrw & Hb & _).
  destruct e as [[tr|n] l]; cbn [Encode.encoder_end Encode.kind].
  - assert (@content _ _ EncodedBuf_laws (Encode.mkEncodedBuf (B:=B) (Encode.ChunkedEnd (bs "0" ++ CRLF ++ CRLF))) = last_chunk) as Ec.
    { change (content (last_chunk : bytes) = last_chunk). apply slice_content. }
    destruct (buffered_ok c id (Encode.mkEncodedBuf (B:=B) (Encode.ChunkedEnd (bs "0" ++ CRLF ++ CRLF))))
      as (b & -> & Hrw' & Hb' & _ & Erb & Ep); try done.
    { change (buf_wf (bs "0" ++ CRLF ++ CRLF)). apply slice_wf. }
    { by rewrite Ec. }
    { change (buf_wf (bs "0" ++ CRLF ++ CRLF)). apply slice_wf. }
    { unfold room in *. rewrite Ec. change (len last_chunk) with 5. lia. }
    cbn [mbind option_bind]. eexists _, _. split; [done|]. apply write_op_ok; try done. cbn. by destruct l.
  - destruct n as [|n|n]; [done|..]; eexists _, _; (split; [reflexivity|]);
      apply (write_op_ok c (conn_io c) WClosed); done.
Qed.

Lemma write_body_and_end_ok (chunk : B) c :
  conn_wf c -> can_write_body c = true -> buf_wf chunk -> content chunk <> [] ->
  room c (len (content chunk) + 25) ->
  exists c', write_body_and_end chunk c = Some c' /\ op_ok c c'.
Proof.
  intros Hc Hg Hm Hne Hroom. unfold can_write_body, write_body_and_end in *.
  destruct (writing (state c)) as [|e| |] eqn:Ew; try done.
  destruct (wbody_facts c e Hc Ew) as (He & Hn & Hid & Hw1 & Hw2). pose proof Hc as (_ & Hrw & Hb & _).
  unfold room in Hroom. rewrite Z.add_assoc in Hroom.
  assert (one_shot chunk (write_buf (conn_io c)) e) as (k & w & eb & e' & -> & _ & Hw' & _).
  { destruct e as [[tr|n] l]; [by apply one_shot_chunked|]. apply one_shot_length; try done.
    specialize (Hn n eq_refl). unfold wf_u64 in Hn. unfold Encode.is_eof in He. cbn in He. destruct n; [done|lia..]. }
  cbn [mbind option_bind]. eexists. split; [done|]. apply write_op_ok; try done. by destruct k.
Qed.

(** The size of the trailer block an encoder would send. *)
Definition trailer_size (trailers : HeaderMap) (title : bool) (e : Encode.Encoder) : Z :=
  match Encode.kind e with
  | Encode.Chunked (Some fields) => len (trailer_lines title (kept_trailers trailers fields)) + 5
  | _ => 0
  end.

Lemma write_trailers_ok trailers c e :
  conn_wf c -> writing (state c) = WBody e ->
  room c (trailer_size trailers (title_case_headers (state c)) e) ->
  exists c', write_trailers trailers c = Some c' /\ op_ok c c'.
Proof.
  intros Hc Ew Hroom. destruct (wbody_facts c e Hc Ew) as (He & Hn & Hid & Hw1 & Hw2).
  pose proof (op_ok_refl c Hc) as Hsame. unfold write_trailers. cbn [is_server is_client negb andb]. rewrite Ew.
  destruct e as [[[fields|]|n] l]; [|by eexists..].
  destruct (encode_trailers_spec (B:=B) trailers (title_case_headers (state c)) fields l) as [Hnil Hcons].
  unfold trailer_size in Hroom. cbn [Encode.kind] in Hroom.
  set (lines := trailer_lines _ _) in *. destruct (decide (lines = [])) as [E|E].
  { rewrite (Hnil E). by eexists. }
  destruct (Hcons E) as (eb & -> & Hb). cbn [mbind option_bind].
  unfold room in Hroom. destruct Hb as [Hwe Ece]; [len_lia|].
  destruct (buffered_ok c id eb) as (b & -> & Hrw' & Hb' & _ & Erb & Ep); try done.
  { by rewrite Ece. }
  { unfold room. rewrite Ece, !len_app. change (len (bs "0")) with 1. change (len CRLF) with 2. len_lia. }
  cbn [mbind option_bind]. eexists. split; [done|]. apply write_op_ok; try done. cbn. by destruct l.
Qed.

(** *** The head of a request *)

Lemma set_length_total v m hs body :
  (forall n, body = Some (Known n) -> wf_u64 n) ->
  exists hs' e, set_length v m hs body = Some (hs', e) /\
    (forall n, Encode.kind e = Encode.Length n -> wf_u64 n).
Proof.
  intros Hb. assert (wf_u64 0) as Hz by by split.
  unfold set_length, set_content_length. destruct body as [body|].
  2: { eexists _, _. split; [done|]. by intros n [= <-]. }
  destruct (negb _).
  - destruct (Headers.content_length_parse_all hs) as [k|] eqn:Ec.
    { eexists _, _. split; [done|]. intros n [= <-]. by eapply parse_all_u64. }
    destruct body as [k|]; (eexists _, _; split; [done|]; intros n [= <-]; auto).
  - destruct (contains_key TRANSFER_ENCODING hs).
    { destruct (Headers.is_chunked _); eexists _, _; (split; [reflexivity|]); intros n; cbn; by case_match. }
    destruct (Headers.content_length_parse_all hs) as [k|] eqn:Ec.
    { eexists _, _. split; [reflexivity|]. intros n [= <-]. by eapply parse_all_u64. }
    destruct body as [k|].
    { eexists _, _. split; [reflexivity|]. intros n [= <-]. auto. }
    case_bool_decide; eexists _, _; (split; [reflexivity|]); [by intros n [= <-]|].
    intros n. cbn. by case_match.
Qed.

Definition supported (v : Version) : Prop := is_Some (version_bytes v).

Abbreviation ReqHead := (MessageHead (RequestLine (Uri:=Uri))).

Lemma enforce_version_cases (head : ReqHead) s :
  (snd (enforce_version head s) = s \/ snd (enforce_version head s) = disable_keep_alive s) /\
  (supported (head_version head) -> supported (head_version (fst (enforce_version head s)))).
Proof.
  assert (supported HTTP_10) as H10 by by eexists.
  unfold enforce_version, fix_keep_alive. destruct (version s); try (by split; [left|]).
  - destruct (match hm_get CONNECTION _ with Some _ => _ | None => _ end); [by split; [left|]|].
    destruct (head_version head); try (by split; [left|]); try (by split; [right|]).
    destruct (wants_keep_alive s); by split; [left|].
  - destruct (keep_alive s); by split; [left|].
Qed.

(** The head as it is encoded. *)
Definition final_head (head : ReqHead) c : ReqHead := (enforce_version head (busy (state c))).1.

Lemma headers_buf_extend_ok c out :
  conn_wf c -> room c (len out) ->
  read_wf (headers_buf_extend out (conn_io c)) /\ writebuf_wf (write_buf (headers_buf_extend out (conn_io c))).
Proof.
  intros (_ & Hrw & Hwb & _) Hroom. unfold room in Hroom. split; [done|]. destruct Hwb as (Hh & Hq & Hl & Hst).
  unfold headers_buf_extend, writebuf_wf. cbn [write_buf set_write_buf].
  destruct (cursor_extend_content (headers (write_buf (conn_io c))) out Hh) as [Hx Ex]; [len_lia|].
  split; [exact Hx|]. split; [done|]. split; [|done]. unfold pending. cbn [headers queue set_headers].
  change (content (cursor_extend out (headers (write_buf (conn_io c))))) with
    (cursor_chunk (cursor_extend out (headers (write_buf (conn_io c))))). rewrite Ex, !len_app.
  assert (len (cursor_chunk (headers (write_buf (conn_io c)))) <= len (cur_bytes (headers (write_buf (conn_io c))))).
  { destruct Hh. unfold cursor_chunk. rewrite len_zdrop; len_lia. }
  len_lia.
Qed.

Lemma write_head_ok (head : ReqHead) body c :
  conn_wf c -> can_write_head c = true -> supported (head_version head) ->
  (forall n, body = Some (Known n) -> wf_u64 n) ->
  (forall out e m, client_encode uri_display (final_head head c) body (title_case_headers (state c)) [] = Some (out, e, m) ->
     room c (len out)) ->
  exists c', write_head uri_display head body c = Some c' /\ op_ok c c'.
Proof.
  intros Hc Hg Hv Hb Hroom. pose proof Hc as ((Hi & Hr & Hwr) & Hrw & Hwb & Hs).
  unfold can_write_head in Hg. cbn [should_read_first is_server is_client negb andb] in Hg.
  destruct (is_read_closed c) eqn:Erc; [done|]. destruct (writing (state c)) eqn:Ew; try done.
  unfold is_read_closed, state_is_read_closed in Erc. unfold writing_ok in Hwr. rewrite Ew in Hwr.
  destruct Hwr as [[Er|Er] _]; [|by rewrite Er in Erc].
  unfold write_head, encode_head. cbn [should_read_first is_server is_client negb].
  unfold final_head in Hroom. destruct (enforce_version_cases head (busy (state c))) as [Hs2 Hv2].
  destruct (enforce_version head (busy (state c))) as [head' s2] eqn:Een. cbn [fst snd] in *.
  specialize (Hv2 Hv). destruct Hv2 as [vb Evb].
  assert (exists k, k <> Idle /\ (keep_alive (state c) = Disabled -> k = Disabled) /\ s2 = set_keep_alive k (state c))
    as (k & Hk & Hkd & Es2).
  { assert (forall s, keep_alive s = Disabled -> set_keep_alive Disabled s = s) as Hset
      by (intros [] E; cbn in E; by subst).
    unfold busy in Hs2. destruct (keep_alive (state c)) eqn:Ek, Hs2 as [-> | ->];
      first [exists Busy; by split_and! | exists Disabled; split_and!; try done].
    by rewrite (Hset _ Ek). }
  assert (title_case_headers s2 = title_case_headers (state c)) as Et by (by rewrite Es2).
  unfold client_encode in *. rewrite Et.
  destruct (set_length_total (head_version head') (rl_method (head_subject head')) (head_headers head') body Hb)
    as (hs' & e & Esl & Hlen). rewrite Esl in *. cbn [mbind option_bind] in *. rewrite Evb in *.
  cbn [mbind option_bind] in *. eexists. split; [reflexivity|].
  set (out := extend _ CRLF) in *. specialize (Hroom out e _ eq_refl).
  set (w := if negb (Encode.is_eof e) then WBody e else finished e).
  destruct (headers_buf_extend_ok c out Hc Hroom) as [Hrw' Hwb'].
  rewrite Es2. cbn [with_state state conn_io].
  split; [|split].
  - split; [|split; [done|split; [done|]]].
    + split; [|split].
      * cbn. congruence.
      * unfold reading_ok. cbn. by rewrite Er.
      * unfold writing_ok. cbn. subst w. destruct (Encode.is_eof e) eqn:Ee; cbn; [|by eauto].
        pose proof (finished_fine e). by destruct (finished e).
    + unfold scan_ok in *. cbn. rewrite Er in *. done.
  - split_and!; cbn; [exact Hkd|done|congruence].
  - apply idle_not. unfold is_idle. cbn. by destruct k.
Qed.
End ConnOps.
