(* ===== verification/ConnFlow.v ===== *)
(** * What one call takes from the input and adds to the write buffer

    Every operation of the connection leaves at most as much input, and grows
    the write buffer at most by what it was asked to write; with the operations'
    own preconditions this is what bounds the dispatcher's loops. *)

From S2P Require Import Prelude Buf Http HeaderWrite WriteBuf Encode EncodeProps Decode DecodeFacts DecodeProps Error Io IoFacts Role RoleFacts RoleProps Conn ConnFacts ConnOps.
Import Error Role Conn EncodeFacts HeadersFacts.

Section Flow.
Context {BC : BytesCrate} {BCL : BytesCrateLaws} {AL : Alloc} {ALL : AllocLaws} `{HttpLaws} `{HttparseLaws}.
Context {T : Type} `{TransportLaws T} {B : Type} {HB : Buf B} {HBL : BufLaws B}.
Context {Uri : Type} (uri_display : Uri -> bytes).
Implicit Types c : Conn (T:=T) (B:=B).
Implicit Types b : Buffered T (Encode.EncodedBuf B).

(** The memory the write buffer uses, consumed bytes of the head vector included. *)
Definition foot (w : WriteBuf (Encode.EncodedBuf B)) : Z :=
  len (cur_bytes (headers w)) + len (content (queue w)).

Definition bflow (n : Z) b b' : Prop :=
  (length (incoming b') <= length (incoming b))%nat /\ foot (write_buf b') <= foot (write_buf b) + n /\
  flush_pipeline b' = flush_pipeline b /\ max_buf_size (write_buf b') = max_buf_size (write_buf b) /\
  incoming b' `suffix_of` incoming b.

Definition flow (n : Z) c c' : Prop := bflow n (conn_io c) (conn_io c').

Lemma bflow_refl n b : 0 <= n -> bflow n b b.
Proof. intros. unfold bflow. split_and!; (done || lia). Qed.

Lemma bflow_trans n m b b1 b2 : bflow n b b1 -> bflow m b1 b2 -> bflow (n + m) b b2.
Proof.
  intros (? & ? & ? & ? & ?) (? & ? & ? & ? & ?). unfold bflow. split_and!; try (lia || congruence). by transitivity (incoming b1).
Qed.

Lemma bflow_le n m b b' : n <= m -> bflow n b b' -> bflow m b b'.
Proof. intros ? (? & ? & ? & ? & ?). unfold bflow. split_and!; (done || lia). Qed.

Lemma flow_trans0 c c1 c2 : flow 0 c c1 -> flow 0 c1 c2 -> flow 0 c c2.
Proof. exact (bflow_trans 0 0 _ _ _). Qed.

(** ** Reading *)

(** Operations that only read. *)
Lemma bflow_read b b' :
  incoming b' `suffix_of` incoming b -> write_buf b' = write_buf b ->
  flush_pipeline b' = flush_pipeline b -> bflow 0 b b'.
Proof. intros Hi Hw Hf. pose proof (suffix_length _ _ Hi). unfold bflow. rewrite Hw. split_and!; (done || lia). Qed.

Lemma consumed_flow b b' : consumed b b' -> bflow 0 b b'.
Proof.
  intros (_ & (Ew & _ & Ef) & used & Eu). apply bflow_read; [|done|done]. by exists used.
Qed.

Lemma read_io_flow b : read_wf b -> bflow 0 b (poll_read_from_io b).2.
Proof.
  intros Hw. pose proof (poll_read_from_io_ok b Hw) as Hr.
  destruct (poll_read_from_io b) as [[n| |e| |] b']; try done; cbn [snd].
  - destruct Hr as (_ & Ei & (? & _ & ? & _) & _). apply bflow_read; [by rewrite Ei|done|done].
  - destruct Hr as (_ & Ei & (? & _ & ? & _) & _). apply bflow_read; [by rewrite Ei|done|done].
  - destruct Hr as (_ & Ei & (? & _ & ? & _)). apply bflow_read; [by rewrite Ei|done|done].
Qed.

Lemma advance_flow n b : bflow 0 b (read_buf_advance n b).
Proof.
  apply bflow_read; [|done|done]. unfold incoming, read_buf_advance. cbn. exists (ztake n (read_buf b)).
  by rewrite app_assoc, ztake_zdrop.
Qed.

Lemma notify_io_flow c : read_wf (conn_io c) -> flow 0 c (notify_io c).
Proof.
  intros Hw. pose proof (read_io_flow (conn_io c) Hw) as Hr. unfold notify_io.
  destruct (read_blocked (conn_io c)); [by apply bflow_refl|].
  destruct (read_buf (conn_io c)); [|by apply bflow_refl].
  destruct (poll_read_from_io (conn_io c)) as [[n| |e| |] b]; try exact Hr. cbv zeta.
  destruct (n =? 0); [destruct (is_idle _)|]; exact Hr.
Qed.

Lemma try_keep_alive_flow c : read_wf (conn_io c) -> flow 0 c (try_keep_alive c).
Proof.
  intros Hw. unfold try_keep_alive, maybe_notify. set (c1 := with_state state_try_keep_alive c).
  assert (flow 0 c c1) as Hfl1 by by apply bflow_refl.
  destruct (reading (state c1)); [|exact Hfl1..].
  destruct (writing (state c1)); first [exact Hfl1 | by eapply flow_trans0; [exact Hfl1|apply notify_io_flow]].
Qed.

Lemma force_io_read_flow c : read_wf (conn_io c) -> flow 0 c (force_io_read c).2.
Proof.
  intros Hw. pose proof (read_io_flow (conn_io c) Hw) as Hr. unfold force_io_read.
  by destruct (poll_read_from_io (conn_io c)) as [[n| |e| |] b].
Qed.

Lemma poll_read_keep_alive_flow c : read_wf (conn_io c) -> flow 0 c (poll_read_keep_alive c).2.
Proof.
  intros Hw. pose proof (force_io_read_flow c Hw) as Hf. assert (flow 0 c c) as Hs by by apply bflow_refl.
  unfold poll_read_keep_alive, mid_message_detect_eof, require_empty_read.
  destruct (is_read_closed c); [done|]. destruct (is_mid_message c).
  - destruct (_ || _); [done|]. destruct (force_io_read c) as [[n| |e| |] c']; try exact Hf.
    by destruct (n =? 0).
  - destruct (read_buf (conn_io c)); [|done]. destruct (force_io_read c) as [[n| |e| |] c']; try exact Hf.
    by destruct (n =? 0).
Qed.

(** What the decoder does to the connection's buffer. *)
Definition fed b0 b : Prop := read_wf b /\ bflow 0 b0 b.

Lemma read_mem_fed b0 n b : fed b0 b -> fed b0 (read_mem n b).2.
Proof.
  intros [Hw Hf]. cbn. unfold buffered_read_mem. pose proof (poll_read_from_io_ok b Hw) as Hr.
  pose proof (read_io_flow b Hw) as Hi.
  assert (forall k b', read_wf b' -> bflow 0 b b' -> fed b0 (read_buf_advance k b')) as Hadv.
  { intros k b' Hb' Hf'. split; [by apply read_buf_advance_wf|].
    eapply (bflow_trans 0 0); [exact Hf|]. eapply (bflow_trans 0 0); [exact Hf'|apply advance_flow]. }
  destruct (read_buf b); [|apply Hadv; [done|by apply bflow_refl]].
  destruct (poll_read_from_io b) as [[got| |e| |] b1]; try done; cbn [snd] in *.
  - apply Hadv; [apply Hr|done].
  - split; [apply Hr|]. by eapply (bflow_trans 0 0).
  - split; [apply Hr|]. by eapply (bflow_trans 0 0).
Qed.

Lemma decode_fed fuel d b : read_wf b -> fed b (Decode.decode fuel d b).2.2.
Proof.
  intros Hw. apply (decode_keeps (fed b) (fun n b' => read_mem_fed b n b')). split; [done|by apply bflow_refl].
Qed.

Lemma read_body_flow fuel d c : read_wf (conn_io c) -> flow 0 c (read_body fuel d c).2.
Proof.
  intros Hw. unfold read_body. destruct (decode_fed fuel d (conn_io c) Hw) as [Hb Hf].
  destruct (Decode.decode fuel d (conn_io c)) as [res [d' b]]. cbn [snd] in *. cbv zeta.
  assert (forall s, flow 0 c (try_keep_alive (mkConn b s))) as Hk.
  { intros s. eapply flow_trans0; [|by apply try_keep_alive_flow]. exact Hf. }
  destruct res as [[x|h]| |e| |]; try exact Hf; try apply Hk.
  destruct (Decode.is_eof d'); [apply Hk|]. destruct x; [apply Hk|exact Hf].
Qed.

Lemma poll_read_body_flow fuel c :
  conn_wf c -> can_read_body c = true -> flow 0 c (poll_read_body fuel c).2.
Proof.
  intros Hc Hg. pose proof Hc as (_ & Hw & _). unfold poll_read_body, can_read_body in *.
  destruct (reading (state c)) as [|d|d| |] eqn:Er; try done; [|by apply read_body_flow].
  destruct (mid_body_facts c d Hc (or_intror Er)) as (Hnw & _).
  destruct (writing (state c)); [done|..]; exact (read_body_flow fuel d (with_state _ c) Hw).
Qed.

Lemma poll_drain_flow fuel c c' :
  conn_wf c -> can_read_body c = true -> poll_drain_or_close_read fuel c = Some c' -> flow 0 c c'.
Proof.
  intros Hc Hg. unfold poll_drain_or_close_read. cbv zeta.
  set (c0 := match reading (state c) with RContinue d => _ | _ => c end).
  assert (conn_wf c0 /\ can_read_body c0 = true /\ conn_io c0 = conn_io c) as (Hc0 & Hg0 & Eio).
  { subst c0. destruct (reading (state c)) as [|d| | |] eqn:E; try done.
    destruct (mid_body_facts c d Hc (or_intror E)) as (Hnw & Hid & Hca & Hd & He & Hp).
    split; [|done]. apply set_body_wf; try done. apply Hc. }
  pose proof (poll_read_body_flow fuel c0 Hc0 Hg0) as Hf. unfold flow in *. rewrite Eio in Hf.
  destruct (poll_read_body fuel c0) as [[x| |e| |] c1]; try done; cbn [snd] in Hf;
    destruct (reading (state c1)); intros [= <-]; exact Hf.
Qed.

(** The end of a response without a body. *)
Lemma kept_flow b s te :
  read_wf b -> bflow 0 b (conn_io (with_state (set_allow_trailer_fields te) (try_keep_alive (mkConn b s)))).
Proof. exact (try_keep_alive_flow (mkConn b s)). Qed.

Lemma poll_read_head_flow fuel c :
  conn_wf c -> can_read_head c = true -> (length (input (io (conn_io c))) < fuel)%nat ->
  flow 0 c (poll_read_head fuel c).2.
Proof.
  intros Hc Hg Hf. pose proof Hc as (Hi & Hw & Hb & Hs).
  destruct (can_read_head_facts c Hg) as [Er Hnw]. unfold scan_ok in Hs. rewrite Er in Hs.
  unfold poll_read_head. set (ph := parse_headers (parse_config (state c))).
  set (ctx := mkParseState (cached_headers (state c)) (method (state c))).
  pose proof (parse_loop_ok ph (parse_headers_ok _) fuel ctx (conn_io c) Hw Hs Hf) as Hp.
  pose proof (parse_val_inv ph fuel ctx (conn_io c)) as Hval.
  destruct (parse ph fuel ctx (conn_io c)) as [res [b x]]. cbv zeta.
  destruct res as [msg| |e| |]; try done.
  - destruct (Hval msg b x eq_refl) as (? & ? & ? & ? & Hmsg).
    apply parse_headers_msg in Hmsg as (_ & Hexp & _). destruct Hp as [Hcons _].
    rewrite Hexp, andb_false_l. pose proof (consumed_flow _ _ Hcons) as Hfl.
    case_decide; cbn [snd fst]; [|exact Hfl]. eapply (bflow_trans 0 0); [exact Hfl|].
    apply kept_flow, Hcons.
  - destruct Hp as [Hcons _]. exact (consumed_flow _ _ Hcons).
  - pose proof (consumed_flow _ _ Hp) as Hfl. unfold on_read_head_error. cbv zeta.
    set (c1 := with_io consume_leading_lines _). assert (flow 0 c c1) as Hfl1.
    { eapply (bflow_trans 0 0); [exact Hfl|]. unfold c1, with_io. cbn [conn_io close_read with_state].
      unfold consume_leading_lines. destruct (read_buf b) eqn:E; [by apply bflow_refl|]. apply advance_flow. }
    by destruct (_ || _).
Qed.

(** ** Flushing *)

Definition light (w w' : WriteBuf (Encode.EncodedBuf B)) : Prop :=
  foot w' <= foot w /\ max_buf_size w' = max_buf_size w.

Lemma light_refl w : light w w.
Proof. split; [lia|done]. Qed.

Lemma light_trans w w1 w2 : light w w1 -> light w1 w2 -> light w w2.
Proof. intros [? ?] [? ?]. split; [lia|congruence]. Qed.

Lemma light_headers w h : len (cur_bytes h) <= len (cur_bytes (headers w)) -> light w (set_headers h w).
Proof. intros Hl. split; [|done]. unfold foot. cbn. lia. Qed.

Lemma flush_flattened_light fuel b : light (write_buf b) (write_buf (flush_flattened_loop fuel b).2).
Proof.
  revert b. induction fuel as [|fuel IH]; intros b; [apply light_refl|].
  cbn [flush_flattened_loop]. unfold pbind, on_io.
  destruct (poll_write _ _) as [[n| |e| |] t]; try apply light_refl.
  cbn [advance Cursor_buf cursor_advance write_buf set_io]. set (h := mkCursor _ _ _).
  assert (light (write_buf b) (set_headers h (write_buf b))) as Hh by (apply light_headers; cbn; lia).
  destruct (remaining h =? 0).
  { eapply light_trans; [exact Hh|]. apply light_headers. cbn. len_lia. }
  destruct (n =? 0); [exact Hh|].
  eapply light_trans; [exact Hh|]. apply (IH (set_write_buf _ _)).
Qed.

Lemma writebuf_advance_light n w w' :
  writebuf_wf w -> 0 <= n <= len (pending w) -> writebuf_advance n w = Some w' -> light w w'.
Proof.
  intros (Hh & Hq & _) Hn. unfold pending in Hn. rewrite len_app in Hn. unfold writebuf_advance.
  rewrite remaining_content by done. destruct (Z.compare_spec (len (content (headers w))) n) as [E|E|E].
  - intros [= <-]. apply light_headers. cbn. len_lia.
  - destruct (advance_content (queue w) (n - len (content (headers w))) Hq) as (q & -> & _ & Eq); [lia|].
    cbn [mbind option_bind]. intros [= <-]. split; [|done]. unfold foot. cbn [headers queue cursor_reset cur_bytes].
    rewrite Eq, len_zdrop by lia. change (len (@nil byte)) with 0. pose proof (len_nonneg (cur_bytes (headers w))). lia.
  - cbn. intros [= <-]. apply light_headers. cbn. lia.
Qed.

Lemma flush_queue_light fuel b : write_wf b -> light (write_buf b) (write_buf (flush_queue_loop fuel b).2).
Proof.
  revert b. induction fuel as [|fuel IH]; intros b Hb; [apply light_refl|].
  cbn [flush_queue_loop]. unfold pbind, on_io. pose proof Hb as [Ht Hw].
  set (l := chunks_vectored MAX_WRITEV_BUFS (write_buf b)).
  destruct (vectored_content (write_buf b) MAX_WRITEV_BUFS) as [k Ek]; [exact Hw|done|]. fold l in Ek.
  change (content (write_buf b)) with (pending (write_buf b)) in Ek.
  pose proof (poll_write_vectored_ok l (io b) Ht) as Hpw.
  destruct (poll_write_vectored l (io b)) as [[n| |e| |] t]; try apply light_refl.
  destruct Hpw as (Ht' & Hi & Hn & Ho).
  assert (0 <= n <= len (pending (write_buf b))) as Hn2 by (rewrite Ek, len_app; len_lia).
  destruct (advance_content (write_buf b) n) as (w & Ew & Hw' & Ep); [exact Hw|exact Hn2|].
  pose proof (writebuf_advance_light n _ w Hw Hn2 Ew) as Hl.
  change (write_buf (set_io t b)) with (write_buf b). rewrite Ew.
  destruct (remaining w =? 0); [exact Hl|]. destruct (n =? 0); [exact Hl|].
  eapply light_trans; [exact Hl|]. apply (IH (set_write_buf w (set_io t b))). by split.
Qed.

Lemma poll_flush_flow fuel c :
  conn_wf c -> (length (pending (write_buf (conn_io c))) < fuel)%nat ->
  flow 0 c (poll_flush fuel c).2.
Proof.
  intros Hc Hf. pose proof Hc as (_ & (Ht & Hcap) & Hb & _).
  pose proof (buffered_poll_flush_ok fuel (conn_io c) (conj Ht Hb) Hf) as Hok.
  assert (light (write_buf (conn_io c)) (write_buf (buffered_poll_flush fuel (conn_io c)).2)) as Hl.
  { unfold buffered_poll_flush, poll_flush_flattened, pbind. destruct (_ && _); [apply light_refl|].
    assert (forall b, light (write_buf (conn_io c)) (write_buf b) ->
      light (write_buf (conn_io c)) (write_buf (on_io io_poll_flush b).2)) as Hio.
    { intros b Hb'. unfold on_io. by destruct (io_poll_flush (io b)). }
    destruct (remaining _ =? 0); [apply Hio, light_refl|].
    destruct (strategy (write_buf (conn_io c))).
    - pose proof (flush_flattened_light fuel (conn_io c)) as Hfl.
      destruct (flush_flattened_loop fuel (conn_io c)) as [[x| |e| |] b]; [by apply Hio|exact Hfl..].
    - pose proof (flush_queue_light fuel (conn_io c) (conj Ht Hb)) as Hfl.
      destruct (flush_queue_loop fuel (conn_io c)) as [[x| |e| |] b]; [by apply Hio|exact Hfl..]. }
  assert (forall b, same_read (conn_io c) b -> light (write_buf (conn_io c)) (write_buf b) ->
    bflow 0 (conn_io c) b) as Hbf.
  { intros b (E1 & _ & E3 & E4 & _) [? ?]. unfold bflow, incoming. rewrite E1, E3. split_and!; (done || lia). }
  unfold poll_flush. destruct (buffered_poll_flush fuel (conn_io c)) as [[x| |e| |] b]; try done; cbn [snd] in *.
  - destruct Hok as (Hw & _ & Hr & _). eapply (bflow_trans 0 0); [by apply Hbf|].
    apply (try_keep_alive_flow (mkConn b (state c))). by apply (flushed_wf c b Hc Hw Hr).
  - apply Hbf; [apply Hok|done].
  - apply Hbf; [apply Hok|done].
Qed.

(** ** Writing *)

Lemma foot_pos w : writebuf_wf w -> foot w = cur_pos (headers w) + len (pending w).
Proof.
  intros (Hh & _). unfold foot, pending. rewrite len_app. cbn. unfold cursor_chunk. destruct Hh as [Hp _].
  rewrite len_zdrop by lia. lia.
Qed.

Lemma flatten_loop_pos {BB} `{Buf BB} fuel h (x : BB) h' :
  flatten_loop fuel h x = Some h' -> cur_pos h' = cur_pos h.
Proof.
  revert h x. induction fuel as [|fuel IH]; intros h x; cbn [flatten_loop]; [done|].
  destruct (chunk x) as [|y l]; [by intros [= <-]|]. destruct (advance _ x) as [x'|]; [|done].
  cbn [mbind option_bind]. intros E%IH. exact E.
Qed.

(** Buffering grows the footprint by what is added to the pending bytes. *)
Lemma buffer_foot {BB} `{Buf BB} (into : BB -> Encode.EncodedBuf B) (x : BB) w w' :
  writebuf_wf w -> writebuf_wf w' -> buffer into x w = Some w' ->
  foot w' - len (pending w') <= foot w - len (pending w) /\ max_buf_size w' = max_buf_size w.
Proof.
  intros Hw Hw'. rewrite !foot_pos by done. destruct Hw as [[Hp _] _]. unfold buffer. destruct (strategy w).
  - destruct (flatten_loop _ _ x) as [h'|] eqn:E; [|done]. cbn [mbind option_bind]. intros [= <-].
    apply flatten_loop_pos in E. split; [|done]. cbn [set_headers headers] in *. rewrite E. unfold maybe_unshift.
    destruct (cur_pos (headers w) =? 0); [lia|]. destruct (_ <=? _); cbn; lia.
  - intros [= <-]. cbn. split; [lia|done].
Qed.

Lemma buffered_flow {BB} `{Buf BB} n c (into : BB -> Encode.EncodedBuf B) (x : BB) b :
  conn_wf c -> writebuf_wf (write_buf b) -> buffered_buffer into x (conn_io c) = Some b ->
  len (pending (write_buf b)) <= len (pending (write_buf (conn_io c))) + n ->
  bflow n (conn_io c) b.
Proof.
  intros (_ & _ & Hb & _) Hb' E Hp. unfold buffered_buffer in E.
  destruct (buffer into x (write_buf (conn_io c))) as [w|] eqn:Ew; [|done]. cbn in E. injection E as <-.
  destruct (buffer_foot into x _ w Hb Hb' Ew) as [Hf Hm]. cbn in *. unfold bflow. cbn. split_and!; (done || lia).
Qed.

Lemma write_body_flow (x : B) c c' :
  conn_wf c -> can_write_body c = true -> buf_wf x -> content x <> [] -> room c (len (content x) + 25) ->
  write_body x c = Some c' -> flow (len (content x) + 20) c c'.
Proof.
  intros Hc Hg Hm Hne Hroom. unfold can_write_body, write_body in *.
  destruct (writing (state c)) as [|e| |] eqn:Ew; try done.
  destruct (wbody_facts c e Hc Ew) as (He & Hn & _). unfold room in Hroom.
  destruct (encode_ok e x Hm Hne) as (eb & e' & -> & Hwe & Hce & Hle & _); [len_lia|done|done|].
  cbn [mbind option_bind].
  destruct (buffered_ok c id eb) as (b & Eb & _ & Hb & Ep & _); try done; [unfold room; len_lia|].
  rewrite Eb. cbn [mbind option_bind]. intros [= <-].
  apply (buffered_flow _ c id eb b Hc Hb Eb). rewrite Ep, len_app. lia.
Qed.

Lemma encode_and_end_foot (x : B) w e k w' :
  writebuf_wf w -> writebuf_wf w' -> Encode.encode_and_end x w e = Some (k, w') ->
  foot w' - len (pending w') <= foot w - len (pending w) /\ max_buf_size w' = max_buf_size w.
Proof.
  intros Hw Hw'. unfold Encode.encode_and_end. destruct (Encode.kind e).
  - destruct (Encode.chunk_size_new _); [|done]. cbn [mbind option_bind].
    destruct (buffer _ _ w) as [w2|] eqn:E; [|done]. intros [= <- <-]. exact (buffer_foot _ _ _ _ Hw Hw' E).
  - destruct (_ ?= _); (destruct (buffer _ _ w) as [w2|] eqn:E; [|done]); intros [= <- <-]; exact (buffer_foot _ _ _ _ Hw Hw' E).
Qed.

Lemma write_body_and_end_flow (x : B) c c' :
  conn_wf c -> can_write_body c = true -> buf_wf x -> content x <> [] -> room c (len (content x) + 25) ->
  write_body_and_end x c = Some c' -> flow (len (content x) + 25) c c'.
Proof.
  intros Hc Hg Hm Hne Hroom. unfold can_write_body, write_body_and_end in *.
  destruct (writing (state c)) as [|e| |] eqn:Ew; try done.
  destruct (wbody_facts c e Hc Ew) as (He & Hn & _). pose proof Hc as (_ & _ & Hb & _).
  unfold room in Hroom. rewrite Z.add_assoc in Hroom.
  assert (one_shot x (write_buf (conn_io c)) e) as (k & w & eb & e' & E1 & E2 & Hw' & _ & Ep & _).
  { destruct e as [[tr|n] l]; [by apply one_shot_chunked|]. apply one_shot_length; try done.
    specialize (Hn n eq_refl). unfold wf_u64 in Hn. unfold Encode.is_eof in He. cbn in He. destruct n; [done|lia..]. }
  rewrite E1. cbn [mbind option_bind]. intros [= <-].
  destruct (encode_ok e x Hm Hne) as (eb2 & e2 & E3 & _ & _ & Hle & _); [len_lia|done|done|].
  rewrite E2 in E3. injection E3 as <- <-.
  assert (len (end_bytes (B:=B) (Encode.encoder_end e')) <= 5) as Hend.
  { unfold end_bytes, Encode.encoder_end. destruct (Encode.kind e') as [tr|[|n|n]]; try by apply Z.leb_le.
    change (content (Encode.mkEncodedBuf _)) with (content (bs "0" ++ CRLF ++ CRLF)). rewrite slice_content.
    by apply Z.leb_le. }
  destruct (encode_and_end_foot x _ e k w Hb Hw' E1) as [Hf Hmx]. rewrite Ep, !len_app in Hf.
  unfold flow, bflow. cbn. split_and!; (done || lia).
Qed.

Lemma end_body_flow c r c' :
  conn_wf c -> can_write_body c = true -> room c 5 -> end_body c = Some (r, c') -> flow 5 c c'.
Proof.
  intros Hc Hg Hroom. unfold can_write_body, end_body in *.
  destruct (writing (state c)) as [|e| |] eqn:Ew; try done.
  destruct e as [[tr|n] l]; cbn [Encode.encoder_end Encode.kind].
  - set (eb := Encode.mkEncodedBuf (Encode.ChunkedEnd (bs "0" ++ CRLF ++ CRLF))).
    assert (@content _ _ EncodedBuf_laws eb = last_chunk) as Ec.
    { change (content (last_chunk : bytes) = last_chunk). apply slice_content. }
    destruct (buffered_ok c id eb) as (b & Eb & _ & Hb' & Ep & _); try done.
    { change (buf_wf (bs "0" ++ CRLF ++ CRLF)). apply slice_wf. }
    { by rewrite Ec. }
    { change (buf_wf (bs "0" ++ CRLF ++ CRLF)). apply slice_wf. }
    { unfold room in *. rewrite Ec. change (len last_chunk) with 5. lia. }
    rewrite Eb. cbn [mbind option_bind]. intros [= <- <-].
    apply (buffered_flow _ c id eb b Hc Hb' Eb). rewrite Ep, Ec, len_app. change (len last_chunk) with 5. lia.
  - destruct n; intros [= <- <-]; by apply bflow_refl.
Qed.

Lemma write_trailers_flow trailers c c' e :
  conn_wf c -> writing (state c) = WBody e ->
  room c (trailer_size trailers (title_case_headers (state c)) e) -> write_trailers trailers c = Some c' ->
  flow (trailer_size trailers (title_case_headers (state c)) e) c c'.
Proof.
  intros Hc Ew Hroom. unfold write_trailers. cbn [is_server is_client negb andb]. rewrite Ew.
  destruct e as [[[fields|]|n] l]; [|intros [= <-]; by apply bflow_refl..].
  destruct (encode_trailers_spec (B:=B) trailers (title_case_headers (state c)) fields l) as [Hnil Hcons].
  unfold trailer_size in *. cbn [Encode.kind] in *.
  set (lines := trailer_lines _ _) in *. destruct (decide (lines = [])) as [E|E].
  { rewrite (Hnil E). intros [= <-]. apply bflow_refl. len_lia. }
  destruct (Hcons E) as (eb & -> & Hb). cbn [mbind option_bind].
  unfold room in Hroom. destruct Hb as [Hwe Ece]; [len_lia|].
  assert (len (content eb) = len lines + 5) as Hl.
  { rewrite Ece, !len_app. change (len (bs "0")) with 1. change (len CRLF) with 2. lia. }
  destruct (buffered_ok c id eb) as (b & Eb & _ & Hb' & Ep & _); try done.
  { by rewrite Ece. }
  { unfold room. lia. }
  rewrite Eb. cbn [mbind option_bind]. intros [= <-].
  apply (buffered_flow _ c id eb b Hc Hb' Eb). rewrite Ep, len_app. lia.
Qed.

(** A head of at most [n] bytes. *)
Lemma write_head_flow (head : MessageHead (RequestLine (Uri:=Uri))) body n c c' :
  0 <= n ->
  (forall out e m, client_encode uri_display (final_head head c) body (title_case_headers (state c)) [] =
     Some (out, e, m) -> len out <= n) ->
  write_head uri_display head body c = Some c' -> flow n c c'.
Proof.
  intros Hn Hout. unfold write_head, encode_head, final_head in *. cbn [should_read_first is_server is_client negb] in *.
  destruct (enforce_version_cases head (busy (state c))) as [Hs _].
  destruct (enforce_version head (busy (state c))) as [head' s2]. cbn [fst snd] in *.
  assert (title_case_headers s2 = title_case_headers (state c)) as Et.
  { unfold busy in Hs. by destruct Hs as [-> | ->], (keep_alive (state c)). }
  rewrite Et. destruct (client_encode uri_display head' body (title_case_headers (state c)) []) as [[[out e] m]|] eqn:E; [|done].
  specialize (Hout out e m eq_refl). cbn [mbind option_bind]. intros [= <-].
  unfold flow, bflow, foot. cbn. rewrite len_app. split_and!; (done || lia).
Qed.

(** ** Progress *)

Lemma decode_progress fuel d b x d' b' :
  read_wf b -> decoder_wf d -> Decode.is_eof d = false -> (length (incoming b) < fuel)%nat ->
  Decode.decode fuel d b = (RVal x, (d', b')) -> x <> Decode.FData [] ->
  (length (incoming b') < length (incoming b))%nat.
Proof.
  intros Hw Hd He Hf E Hx.
  assert (exists p, incoming b = p ++ incoming b' /\ p <> []) as (p & -> & Hp).
  2: { rewrite length_app. destruct p; [done|cbn; lia]. }
  assert (forall n y, 0 < n -> y <> [] -> read_mem n b = (RVal y, b') -> exists p, incoming b = p ++ incoming b' /\ p <> []) as Hmem.
  { intros n y Hn Hy Er. apply read_mem_val in Er as (_ & Es & _); [|exact Hw|exact Hn]. by exists y. }
  destruct d as [[n|ch|e]].
  - unfold Decode.decode, decoder_wf, wf_u64, Decode.is_eof in *. cbn [Decode.kind] in *.
    destruct (Z.eqb_spec n 0) as [->|Hn]; [done|].
    destruct (read_mem n b) as [[y| |e| |] r1] eqn:Er; try done.
    assert (x = Decode.FData y /\ b' = r1) as [-> ->] by (destruct (n <? len y), (len y =? 0); by simplify_eq).
    apply (Hmem n y); [lia|congruence|done].
  - cbn in Hd, He. apply bool_decide_eq_false in He.
    destruct (decode_chunked_ok fuel ch b) as (res & s & E2 & Hok & _); [exact Hw|exact Hd|exact He|]. rewrite E in E2.
    injection E2 as <- _ ->. destruct x as [y|h].
    + destruct Hok as (_ & p & Es & Ef & _). exists p. split; [exact Es|].
      intros ->. cbn in Ef. injection Ef as _ <-. done.
    + destruct Hok as (_ & p & c' & tb & Es & Ef & Hend & _). exists p. split; [exact Es|].
      intros ->. cbn in Ef. injection Ef as <-. done.
  - unfold Decode.decode in E. cbn [Decode.kind] in E. destruct e; [done|].
    destruct (read_mem 8192 b) as [[y| |e| |] r1] eqn:Er; try done. injection E as <- <- <-.
    apply (Hmem 8192 y); [lia|congruence|done].
Qed.

Lemma read_body_frame fuel d c x c' :
  conn_wf c -> reading (state c) = RBody d -> (length (incoming (conn_io c)) < fuel)%nat ->
  read_body fuel d c = (RVal (Some x), c') ->
  (length (incoming (conn_io c')) < length (incoming (conn_io c)))%nat.
Proof.
  intros Hc Er Hf. pose proof Hc as (_ & Hw & _).
  destruct (mid_body_facts c d Hc (or_introl Er)) as (_ & _ & _ & Hd & He & _).
  pose proof (fun y d' b => decode_progress fuel d (conn_io c) y d' b Hw Hd He Hf) as Hp.
  destruct (decode_fed fuel d (conn_io c) Hw) as [Hb _].
  unfold read_body. destruct (Decode.decode fuel d (conn_io c)) as [res [d' b]]. cbn [snd] in Hb. cbv zeta.
  assert (forall y r, res = RVal y -> y <> Decode.FData [] ->
    (length (incoming (conn_io (try_keep_alive (with_state (set_reading r) (mkConn b (set_reading (RBody d') (state c)))))))
      < length (incoming (conn_io c)))%nat) as Hk.
  { intros y r -> Hy. specialize (Hp y d' b eq_refl Hy).
    destruct (try_keep_alive_flow (with_state (set_reading r) (mkConn b (set_reading (RBody d') (state c)))) Hb) as [Hi _].
    cbn [with_state conn_io] in Hi. lia. }
  destruct res as [[y|h]| |e| |]; try done.
  - destruct (Decode.is_eof d'); destruct y as [|z y]; try done; intros E; injection E as _ <-; [by eapply Hk|by eapply Hp].
  - intros E. injection E as _ <-. by eapply Hk.
Qed.

Lemma poll_read_body_frame fuel c x c' :
  conn_wf c -> can_read_body c = true -> (length (incoming (conn_io c)) < fuel)%nat ->
  poll_read_body fuel c = (RVal (Some x), c') ->
  (length (incoming (conn_io c')) < length (incoming (conn_io c)))%nat.
Proof.
  intros Hc Hg Hf. unfold poll_read_body, can_read_body in *.
  destruct (reading (state c)) as [|d|d| |] eqn:Er; try done; [|by apply read_body_frame].
  destruct (mid_body_facts c d Hc (or_intror Er)) as (Hnw & Hid & Hca & Hd & He & Hp).
  set (c0 := match writing (state c) with WInit => _ | _ => c end).
  assert (c0 = c) as -> by (subst c0; by destruct (writing (state c))). pose proof Hc as (_ & Hw & _).
  apply (read_body_frame fuel d (with_state (set_reading (RBody d)) c)); [by apply set_body_wf|done|exact Hf].
Qed.

(** A response is read once per request. *)

Lemma notified_sides s s' :
  notified s s' -> (reading s' = reading s /\ writing s' = writing s \/ reading s' = RClosed) /\
    (writing s' = writing s \/ writing s' = WClosed).
Proof. intros []; cbn; auto. Qed.

Lemma try_keep_alive_sides c :
  read_wf (conn_io c) ->
  (reading (state c) = RKeepAlive \/ reading (state c) = RClosed -> can_read_head (try_keep_alive c) = false) /\
  (forall e, writing (state (try_keep_alive c)) = WBody e -> writing (state c) = WBody e).
Proof.
  intros Hw. unfold try_keep_alive. set (c1 := with_state state_try_keep_alive c).
  destruct (maybe_notify_cases c1 Hw) as [_ Hn]. apply notified_sides in Hn as [Hr Hwr].
  change (state c1) with (state_try_keep_alive (state c)) in *. split.
  - intros Hc. unfold can_read_head. destruct Hr as [[-> ->] | ->]; [|done].
    unfold state_try_keep_alive. destruct Hc as [E|E].
    + destruct (writing (state c)) eqn:Ew; rewrite ?E, ?Ew; try done. by destruct (keep_alive (state c)); rewrite ?E, ?Ew.
    + destruct (writing (state c)) eqn:Ew; by rewrite ?E, ?Ew.
  - intros e E. assert (writing (state_try_keep_alive (state c)) = WBody e) as E2 by (destruct Hwr; congruence).
    revert E2. unfold state_try_keep_alive.
    destruct (reading (state c)), (writing (state c)) eqn:Ew; rewrite ?Ew; try done. by destruct (keep_alive (state c)).
Qed.

Lemma read_body_no_head fuel d c : read_wf (conn_io c) -> can_read_head (read_body fuel d c).2 = false.
Proof.
  intros Hw. unfold read_body. destruct (decode_fed fuel d (conn_io c) Hw) as [Hb _].
  destruct (Decode.decode fuel d (conn_io c)) as [res [d' b]]. cbn [snd] in *. cbv zeta.
  assert (forall r s, r = RKeepAlive \/ r = RClosed -> can_read_head (try_keep_alive (mkConn b (set_reading r s))) = false) as Hk.
  { intros r s Hr. apply try_keep_alive_sides; done. }
  destruct res as [[x|h]| |e| |]; try done; try (apply Hk; by right).
  destruct (Decode.is_eof d'); [apply Hk; by left|]. destruct x; [apply Hk; by right|done].
Qed.

Lemma poll_read_body_no_head fuel c :
  conn_wf c -> can_read_body c = true -> can_read_head (poll_read_body fuel c).2 = false.
Proof.
  intros Hc Hg. pose proof Hc as (_ & Hw & _). unfold poll_read_body, can_read_body in *.
  destruct (reading (state c)) as [|d|d| |] eqn:Er; try done; [|by apply read_body_no_head].
  destruct (mid_body_facts c d Hc (or_intror Er)) as (Hnw & _).
  destruct (writing (state c)); [done|..]; exact (read_body_no_head fuel d (with_state _ c) Hw).
Qed.

Lemma kept_no_head b s te :
  read_wf b ->
  can_read_head (with_state (set_allow_trailer_fields te) (try_keep_alive (mkConn b (set_reading RKeepAlive s)))) = false.
Proof.
  intros Hb. exact (proj1 (try_keep_alive_sides (mkConn b (set_reading RKeepAlive s)) Hb) (or_introl eq_refl)).
Qed.

Lemma poll_read_head_once fuel c x c' :
  conn_wf c -> can_read_head c = true -> (length (input (io (conn_io c))) < fuel)%nat ->
  poll_read_head fuel c = (RVal x, c') -> can_read_head c' = false.
Proof.
  intros Hc Hg Hf. pose proof Hc as (Hi & Hw & Hb & Hs).
  destruct (can_read_head_facts c Hg) as [Er Hnw]. unfold scan_ok in Hs. rewrite Er in Hs.
  unfold poll_read_head. set (ph := parse_headers (parse_config (state c))).
  set (ctx := mkParseState (cached_headers (state c)) (method (state c))).
  pose proof (parse_loop_ok ph (parse_headers_ok _) fuel ctx (conn_io c) Hw Hs Hf) as Hp.
  pose proof (parse_val_inv ph fuel ctx (conn_io c)) as Hval.
  destruct (parse ph fuel ctx (conn_io c)) as [res [b y]]. cbv zeta.
  destruct res as [msg| |e| |]; try done.
  - destruct (Hval msg b y eq_refl) as (? & ? & ? & ? & Hmsg).
    apply parse_headers_msg in Hmsg as (_ & Hexp & _). destruct Hp as [[Hb' _] _].
    rewrite Hexp, andb_false_l. intros E%(f_equal snd). revert E.
    case_decide; cbn [snd fst]; intros <-; [by apply kept_no_head|reflexivity].
  - unfold on_read_head_error. cbv zeta. destruct (_ || _); [done|]. by intros [= <- <-].
Qed.

(** ** Room after a flush *)

Lemma empty_can_buffer (w : WriteBuf (Encode.EncodedBuf B)) :
  writebuf_wf w -> pending w = [] -> 0 < max_buf_size w -> writebuf_can_buffer w = true.
Proof.
  intros Hw Hp Hm. pose proof Hw as (_ & [Hq _] & _). change (writebuf_wf w) with (buf_wf w) in Hw.
  assert (writebuf_remaining w = 0) as Er.
  { change (writebuf_remaining w) with (remaining w). rewrite remaining_content by done.
    change (content w) with (pending w). by rewrite Hp. }
  assert (bufs (queue w) = []) as Eq.
  { unfold pending in Hp. apply app_eq_nil in Hp as [_ Hp]. destruct (bufs (queue w)) as [|x l] eqn:E; [done|].
    apply Forall_cons in Hq as [[_ Hne] _]. cbn in Hp. unfold bufs_content in Hp. rewrite E in Hp.
    cbn in Hp. by apply app_eq_nil in Hp as [? _]. }
  unfold writebuf_can_buffer, bufs_cnt. rewrite Er, Eq. apply Z.ltb_lt in Hm. rewrite Hm. by destruct (strategy w).
Qed.

Lemma poll_flush_frees fuel c c' :
  conn_wf c -> (length (pending (write_buf (conn_io c))) < fuel)%nat ->
  flush_pipeline (conn_io c) = false -> 0 < max_buf_size (write_buf (conn_io c)) ->
  poll_flush fuel c = (RVal tt, c') ->
  can_buffer_body c' = true /\ (can_write_body c' = true -> can_write_body c = true).
Proof.
  intros Hc Hf Hfp Hm E. pose proof (poll_flush_flow fuel c Hc Hf) as (_ & _ & _ & Em & _). rewrite E in Em. cbn [snd] in Em.
  pose proof Hc as (_ & (Ht & Hcap) & Hb & _).
  pose proof (buffered_poll_flush_ok fuel (conn_io c) (conj Ht Hb) Hf) as Hok.
  unfold poll_flush in E. destruct (buffered_poll_flush fuel (conn_io c)) as [[x| |e| |] b]; try done.
  injection E as <-. destruct Hok as (Hw & _ & Hr & Hp). destruct Hp as [Hp|[? _]]; [|congruence].
  pose proof (flushed_wf c b Hc Hw Hr) as (_ & Hrw & _).
  destruct (try_keep_alive_sides (mkConn b (state c)) Hrw) as [_ Hside].
  destruct (maybe_notify_cases (with_state state_try_keep_alive (mkConn b (state c))) Hrw) as [(_ & Ewb & _) _].
  fold (try_keep_alive (mkConn b (state c))) in Ewb. split.
  - unfold can_buffer_body, buffered_can_buffer. 
    change (write_buf (conn_io (with_state state_try_keep_alive (mkConn b (state c))))) with (write_buf b) in Ewb.
    rewrite Ewb in Em |- *. apply orb_true_iff. right. apply empty_can_buffer; [apply Hw|done|by rewrite Em].
  - unfold can_write_body. destruct (writing (state (try_keep_alive _))) as [|e| |] eqn:Ew; try done.
    specialize (Hside e eq_refl). cbn in Hside. by rewrite Hside.
Qed.

(** ** Only writing starts a request body *)

Definition wkeep c c' : Prop := forall e, writing (state c') = WBody e -> writing (state c) = WBody e.

Lemma try_keep_alive_wkeep c : read_wf (conn_io c) -> wkeep c (try_keep_alive c).
Proof. intros Hw. exact (proj2 (try_keep_alive_sides c Hw)). Qed.

Lemma read_body_wkeep fuel d c : read_wf (conn_io c) -> wkeep c (read_body fuel d c).2.
Proof.
  intros Hw. unfold read_body. destruct (decode_fed fuel d (conn_io c) Hw) as [Hb _].
  destruct (Decode.decode fuel d (conn_io c)) as [res [d' b]]. cbn [snd] in *. cbv zeta.
  assert (forall r, wkeep c (try_keep_alive (with_state (set_reading r) (mkConn b (set_reading (RBody d') (state c)))))) as Hk.
  { intros r. exact (try_keep_alive_wkeep (with_state (set_reading r) (mkConn b (set_reading (RBody d') (state c)))) Hb). }
  destruct res as [[x|h]| |e| |]; try apply Hk; try by intros ?.
  destruct (Decode.is_eof d'); [apply Hk|]. destruct x; [apply Hk|by intros ?].
Qed.

Lemma poll_read_body_wkeep fuel c :
  conn_wf c -> can_read_body c = true -> wkeep c (poll_read_body fuel c).2.
Proof.
  intros Hc Hg. pose proof Hc as (_ & Hw & _). unfold poll_read_body, can_read_body in *.
  destruct (reading (state c)) as [|d|d| |] eqn:Er; try done; [|by apply read_body_wkeep].
  destruct (mid_body_facts c d Hc (or_intror Er)) as (Hnw & _).
  set (c0 := match writing (state c) with WInit => _ | _ => c end).
  assert (c0 = c) as -> by (subst c0; by destruct (writing (state c))).
  exact (read_body_wkeep fuel d (with_state (set_reading (RBody d)) c) Hw).
Qed.

Lemma poll_drain_wkeep fuel c c' :
  conn_wf c -> can_read_body c = true -> poll_drain_or_close_read fuel c = Some c' ->
  wkeep c c' /\ can_read_head c' = false.
Proof.
  intros Hc Hg. unfold poll_drain_or_close_read. cbv zeta.
  set (c0 := match reading (state c) with RContinue d => _ | _ => c end).
  assert (conn_wf c0 /\ can_read_body c0 = true /\ writing (state c0) = writing (state c)) as (Hc0 & Hg0 & Ew).
  { subst c0. destruct (reading (state c)) as [|d| | |] eqn:E; try done.
    destruct (mid_body_facts c d Hc (or_intror E)) as (Hnw & Hid & Hca & Hd & He & Hp).
    split; [|done]. apply set_body_wf; try done. apply Hc. }
  pose proof (poll_read_body_wkeep fuel c0 Hc0 Hg0) as Hk. pose proof (poll_read_body_no_head fuel c0 Hc0 Hg0) as Hn.
  unfold wkeep in Hk. rewrite Ew in Hk.
  destruct (poll_read_body fuel c0) as [[x| |e| |] c1]; try done; cbn [snd] in *;
    destruct (reading (state c1)) eqn:Er; intros [= <-]; (split; [exact Hk|]); first [exact Hn|reflexivity].
Qed.

Lemma kept_wkeep b s te :
  read_wf b -> wkeep (mkConn b s) (with_state (set_allow_trailer_fields te) (try_keep_alive (mkConn b s))).
Proof. exact (try_keep_alive_wkeep (mkConn b s)). Qed.

Lemma after_head_writing msg s : writing (after_head msg s) = writing s.
Proof. unfold after_head, busy. by destruct (keep_alive (set_h09_responses false s)). Qed.

Lemma poll_read_head_wkeep fuel c :
  conn_wf c -> can_read_head c = true -> (length (input (io (conn_io c))) < fuel)%nat ->
  wkeep c (poll_read_head fuel c).2.
Proof.
  intros Hc Hg Hf. pose proof Hc as (Hi & Hw & Hb & Hs).
  destruct (can_read_head_facts c Hg) as [Er Hnw]. unfold scan_ok in Hs. rewrite Er in Hs.
  unfold poll_read_head. set (ph := parse_headers (parse_config (state c))).
  set (ctx := mkParseState (cached_headers (state c)) (method (state c))).
  pose proof (parse_loop_ok ph (parse_headers_ok _) fuel ctx (conn_io c) Hw Hs Hf) as Hp.
  pose proof (parse_val_inv ph fuel ctx (conn_io c)) as Hval.
  destruct (parse ph fuel ctx (conn_io c)) as [res [b y]]. cbv zeta.
  set (s1 := set_method _ _). assert (writing s1 = writing (state c)) as Es by reflexivity. clearbody s1.
  destruct res as [msg| |e| |]; try done.
  - destruct (Hval msg b y eq_refl) as (? & ? & ? & ? & Hmsg).
    apply parse_headers_msg in Hmsg as (_ & Hexp & _). destruct Hp as [[Hb' _] _].
    rewrite Hexp, andb_false_l. fold (after_head msg s1). pose proof (after_head_writing msg s1) as Ea.
    set (s2 := after_head msg s1) in *. clearbody s2. rewrite Es in Ea.
    case_decide; cbn [snd fst].
    + intros e He. apply (kept_wkeep b (set_reading RKeepAlive s2) _ Hb') in He. cbn in He. congruence.
    + intros e He. cbn in He. congruence.
  - intros e He. cbn in He. congruence.
  - intros x Hx. unfold on_read_head_error in Hx. cbv zeta in Hx. destruct (_ || _); cbn in Hx; congruence.
Qed.

Lemma poll_read_keep_alive_wkeep c : wkeep c (poll_read_keep_alive c).2.
Proof.
  unfold poll_read_keep_alive, mid_message_detect_eof, require_empty_read, force_io_read.
  destruct (is_read_closed c); [by intros ?|]. destruct (is_mid_message c).
  - destruct (_ || _); [by intros ?|]. destruct (poll_read_from_io (conn_io c)) as [[n| |e| |] b]; try by intros ?.
    by destruct (n =? 0); intros ?.
  - destruct (read_buf (conn_io c)); [|by intros ?].
    destruct (poll_read_from_io (conn_io c)) as [[n| |e| |] b]; try by intros ?. by destruct (n =? 0); intros ?.
Qed.

Lemma poll_flush_wkeep fuel c :
  conn_wf c -> (length (pending (write_buf (conn_io c))) < fuel)%nat -> wkeep c (poll_flush fuel c).2.
Proof.
  intros Hc Hf. pose proof Hc as (_ & (Ht & _) & Hb & _).
  pose proof (buffered_poll_flush_ok fuel (conn_io c) (conj Ht Hb) Hf) as Hok.
  unfold poll_flush. destruct (buffered_poll_flush fuel (conn_io c)) as [[u| |e| |] b]; try done; try by intros ?.
  destruct Hok as (Hw & _ & Hr & _). apply (try_keep_alive_wkeep (mkConn b (state c))).
  by apply (flushed_wf c b Hc Hw Hr).
Qed.
End Flow.
