(* ===== verification/ConnProps.v ===== *)
(** * Properties of the connection state machine *)

From S2P Require Import Prelude Buf Http Models HeaderWrite WriteBuf Encode EncodeProps Decode DecodeFacts DecodeProps Error RefHttparse Io IoFacts IoProps Role RoleFacts RoleProps Conn ConnFacts ConnOps.
Import Error Role Conn EncodeFacts.

Section Steps.
Context {BC : BytesCrate} {BCL : BytesCrateLaws} {AL : Alloc} {ALL : AllocLaws} `{HttpLaws} `{HttparseLaws}.
Context {T : Type} `{TransportLaws T} {B : Type} {HB : Buf B} {HBL : BufLaws B}.
Context {Uri : Type} (uri_display : Uri -> bytes).
Implicit Types c : Conn (T:=T) (B:=B).

(** Enough fuel for any loop of one call. *)
Definition enough c (fuel : nat) : Prop :=
  (length (incoming (conn_io c)) + length (pending (write_buf (conn_io c))) < fuel)%nat.

(** One call of the dispatcher, under the conditions it checks before. *)
Inductive conn_step c : Conn -> Prop :=
| step_read_head fuel r c' :
    can_read_head c = true -> enough c fuel -> poll_read_head fuel c = (r, c') -> conn_step c c'
| step_read_body fuel r c' :
    can_read_body c = true -> enough c fuel -> poll_read_body fuel c = (r, c') -> conn_step c c'
| step_read_keep_alive r c' :
    can_read_head c = false -> poll_read_keep_alive c = (r, c') -> conn_step c c'
| step_drain fuel c' :
    can_read_body c = true -> enough c fuel -> poll_drain_or_close_read fuel c = Some c' -> conn_step c c'
| step_write_head head body c' :
    can_write_head c = true -> supported (head_version head) ->
    (forall n, body = Some (Known n) -> wf_u64 n) ->
    (forall out e m, client_encode uri_display (final_head head c) body (title_case_headers (state c)) [] =
       Some (out, e, m) -> room c (len out)) ->
    write_head uri_display head body c = Some c' -> conn_step c c'
| step_write_body chunk c' :
    can_write_body c = true -> can_buffer_body c = true -> buf_wf chunk -> content chunk <> [] ->
    room c (len (content chunk) + 25) -> write_body chunk c = Some c' -> conn_step c c'
| step_write_body_and_end chunk c' :
    can_write_body c = true -> can_buffer_body c = true -> buf_wf chunk -> content chunk <> [] ->
    room c (len (content chunk) + 25) -> write_body_and_end chunk c = Some c' -> conn_step c c'
| step_write_trailers trailers e c' :
    writing (state c) = WBody e -> can_buffer_body c = true ->
    room c (trailer_size trailers (title_case_headers (state c)) e) ->
    write_trailers trailers c = Some c' -> conn_step c c'
| step_end_body r c' :
    can_write_body c = true -> room c 5 -> end_body c = Some (r, c') -> conn_step c c'
| step_flush fuel r c' : enough c fuel -> poll_flush fuel c = (r, c') -> conn_step c c'
| step_shutdown r c' : poll_shutdown c = (r, c') -> conn_step c c'
| step_close_read : conn_step c (close_read c)
| step_close_write : conn_step c (close_write c)
| step_take_error r c' : take_error c = (r, c') -> conn_step c c'
| step_wants_read_again r c' : wants_read_again c = (r, c') -> conn_step c c'
| step_upgrade tx : conn_step c (on_upgrade tx c)
| step_pending_upgrade r c' : pending_upgrade c = (r, c') -> conn_step c c'.

Lemma enough_read c fuel :
  enough c fuel ->
  (length (incoming (conn_io c)) < fuel)%nat /\ (length (input (io (conn_io c))) < fuel)%nat /\
  (length (pending (write_buf (conn_io c))) < fuel)%nat.
Proof. unfold enough, incoming. rewrite length_app. lia. Qed.

(** Operations that change flags only. *)
Lemma flag_ok c (f : State -> State) :
  conn_wf c -> (state_inv (state c) -> state_inv (f (state c))) -> mono (state c) (f (state c)) ->
  reading (f (state c)) = reading (state c) -> is_idle (f (state c)) = is_idle (state c) ->
  op_ok c (with_state f c).
Proof.
  intros (Hi & Hw & Hb & Hs) Hf Hm Hr Hid. split; [|split; [done|by apply idle_same]].
  split; [by apply Hf|]. split; [done|]. split; [done|]. unfold scan_ok in *. cbn. by rewrite Hr.
Qed.

Lemma conn_step_ok c c' : conn_wf c -> conn_step c c' -> op_ok c c'.
Proof.
  intros Hc Hstep. destruct Hstep as
    [fuel r c' Hg Hf E|fuel r c' Hg Hf E|r c' _ E|fuel c' Hg Hf E|head body c' Hg Hv Hb Hr E
    |x c' Hg _ Hx Hne Hr E|x c' Hg _ Hx Hne Hr E|tr e c' Ew _ Hr E|r c' Hg Hr E|fuel r c' Hf E|r c' E
    | | |r c' E|r c' E|tx|r c' E];
    try (apply enough_read in Hf as (Hf1 & Hf2 & Hf3)).
  - destruct (poll_read_head_ok fuel c Hc Hg Hf2) as (_ & _ & Ho). by rewrite E in Ho.
  - destruct (poll_read_body_ok fuel c Hc Hg Hf1) as (_ & _ & Ho). by rewrite E in Ho.
  - destruct (poll_read_keep_alive_ok c Hc) as (_ & _ & Ho). by rewrite E in Ho.
  - destruct (poll_drain_ok fuel c Hc Hg Hf1) as (c2 & E2 & Ho). congruence.
  - destruct (write_head_ok uri_display head body c Hc Hg Hv Hb Hr) as (c2 & E2 & Ho). congruence.
  - destruct (write_body_ok x c Hc Hg Hx Hne Hr) as (c2 & E2 & Ho). congruence.
  - destruct (write_body_and_end_ok x c Hc Hg Hx Hne Hr) as (c2 & E2 & Ho). congruence.
  - destruct (write_trailers_ok tr c e Hc Ew Hr) as (c2 & E2 & Ho). congruence.
  - destruct (end_body_ok c Hc Hg Hr) as (r2 & c2 & E2 & Ho). congruence.
  - destruct (conn_poll_flush_ok fuel c Hc Hf3) as (_ & _ & Ho). by rewrite E in Ho.
  - destruct (poll_shutdown_wf c Hc) as (_ & _ & Ho). by rewrite E in Ho.
  - by apply close_read_ok.
  - by apply close_write_ok.
  - unfold take_error in E. destruct (error (state c)); injection E as <- <-; [by apply flag_ok|by apply op_ok_refl].
  - injection E as <- <-. by apply flag_ok.
  - by apply flag_ok.
  - injection E as <- <-. by apply flag_ok.
Qed.

Lemma conn_reach_wf c0 c : conn_wf c0 -> rtc conn_step c0 c -> conn_wf c.
Proof. intros Hw Hr. induction Hr as [|c1 c2 c3 Hs _ IH]; [done|]. apply IH. by apply (conn_step_ok c1). Qed.

(** C1. Invariant of the connection over every sequence of calls the
    dispatcher can make, on any transport: an idle connection has both sides in
    their initial state; a request can only start (the write side is initial)
    while no response is being read and with no stale header map; a body being
    read is never at its end and its decoder is well formed; a body being
    written is never complete and its method is remembered. *)
Theorem conn_invariant t c :
  tr_wf t -> rtc conn_step (conn_new t) c ->
  (keep_alive (state c) = Idle -> reading (state c) = RInit /\ writing (state c) = WInit) /\
  (writing (state c) = WInit ->
     (reading (state c) = RInit \/ reading (state c) = RClosed) /\ cached_headers (state c) = None) /\
  (forall d, reading (state c) = RBody d ->
     decoder_wf d /\ Decode.is_eof d = false /\ partial_len (conn_io c) = None) /\
  (forall e, writing (state c) = WBody e -> Encode.is_eof e = false /\ is_Some (method (state c))) /\
  writebuf_wf (write_buf (conn_io c)).
Proof.
  intros Ht Hr. pose proof (conn_reach_wf _ _ (conn_new_wf t Ht) Hr) as Hc.
  pose proof Hc as ((Hi & _ & Hw) & _ & Hb & _). split; [exact Hi|]. split; [|split; [|split; [|done]]].
  - intros Ew. unfold writing_ok in Hw. by rewrite Ew in Hw.
  - intros d Er. destruct (mid_body_facts c d Hc (or_introl Er)) as (_ & _ & _ & ? & ? & ?). done.
  - intros e Ew. unfold writing_ok in Hw. rewrite Ew in Hw. naive_solver.
Qed.

(** Nothing that was given up comes back: once keep-alive is disabled
    the connection never becomes idle again, a closed read side stays closed,
    and so does a closed write side, whatever is called afterwards. *)
Theorem conn_closed_forever c c' :
  conn_wf c -> rtc conn_step c c' ->
  (keep_alive (state c) = Disabled -> keep_alive (state c') = Disabled) /\
  (reading (state c) = RClosed -> reading (state c') = RClosed) /\
  (writing (state c) = WClosed -> writing (state c') = WClosed).
Proof.
  intros Hw Hr. change (mono (state c) (state c')). induction Hr as [|c1 c2 c3 Hs _ IH]; [done|].
  destruct (conn_step_ok c1 c2 Hw Hs) as (Hw2 & Hm & _). etransitivity; [exact Hm|by apply IH].
Qed.

(** C2. A connection is offered for reuse only after a complete exchange: the
    step that makes it idle starts with the request fully written (the write
    side waiting for keep-alive), with keep-alive not disabled, and leaves both
    sides initial and the method forgotten. *)
Theorem conn_idle_complete c c' :
  conn_wf c -> conn_step c c' -> is_idle (state c) = false -> is_idle (state c') = true ->
  writing (state c) = WKeepAlive /\ keep_alive (state c) = Busy /\
  reading (state c') = RInit /\ writing (state c') = WInit /\ method (state c') = None.
Proof.
  intros Hw Hs Hn Hy. destruct (conn_step_ok c c' Hw Hs) as (((Hi & _) & _) & (Hk & _) & Hid).
  destruct (Hid Hn Hy) as [Ew Em]. unfold is_idle in *. destruct (keep_alive (state c')) eqn:Ek; try done.
  destruct (Hi eq_refl) as [Er' Ew']. split; [done|]. split; [|done].
  destruct (keep_alive (state c)); try done. by specialize (Hk eq_refl).
Qed.

(** No operation panics, loops forever or runs into an [unreachable!]
    arm: on a well-formed connection, each one returns when called under the
    condition the dispatcher checks, and keeps the connection well formed. *)
Theorem conn_ops_total c fuel :
  conn_wf c -> enough c fuel ->
  (can_read_head c = true -> poll_ok c (poll_read_head fuel c)) /\
  (can_read_body c = true -> poll_ok c (poll_read_body fuel c)) /\
  poll_ok c (poll_read_keep_alive c) /\ poll_ok c (poll_flush fuel c) /\
  (can_read_body c = true -> exists c', poll_drain_or_close_read fuel c = Some c' /\ op_ok c c') /\
  (can_write_body c = true -> room c 5 -> exists r c', end_body c = Some (r, c') /\ op_ok c c') /\
  (forall chunk, can_write_body c = true -> buf_wf chunk -> content chunk <> [] ->
     room c (len (content chunk) + 25) ->
     (exists c', write_body chunk c = Some c' /\ op_ok c c') /\
     (exists c', write_body_and_end chunk c = Some c' /\ op_ok c c')).
Proof.
  intros Hc Hf. apply enough_read in Hf as (Hf1 & Hf2 & Hf3).
  split; [intros; by apply poll_read_head_ok|]. split; [intros; by apply poll_read_body_ok|].
  split; [by apply poll_read_keep_alive_ok|]. split; [by apply conn_poll_flush_ok|].
  split; [intros; by apply poll_drain_ok|]. split; [intros; by apply end_body_ok|].
  intros x Hg Hx Hne Hr. split; [by apply write_body_ok|by apply write_body_and_end_ok].
Qed.
End Steps.

(** ** The properties at concrete inputs *)

Import RefBytes RefAlloc RefHttp RefHttparse Pipe.

(** A bodyless exchange: a GET request answered by a 204. *)
Definition ex_t : pipe := mkPipe (bs "HTTP/1.1 204 No Content" ++ CRLF ++ CRLF) [] 1.
Definition ex_get : MessageHead (RequestLine (Uri:=bytes)) :=
  mkHead HTTP_11 (mkRequestLine GET (bs "/")) hm_new (mkExtensions None None).
Definition ex_c0 : Conn (T:=pipe) (B:=bytes) := conn_new ex_t.
Definition ex_c1 : Conn (T:=pipe) (B:=bytes) := default ex_c0 (write_head id ex_get None ex_c0).
Definition ex_c2 : Conn (T:=pipe) (B:=bytes) := (poll_read_head 100 ex_c1).2.

Lemma ex_c0_wf : conn_wf ex_c0.
Proof. apply conn_new_wf. exact I. Qed.

Lemma ex_step1 : conn_step id ex_c0 ex_c1.
Proof.
  eapply (step_write_head _ _ ex_get None).
  - reflexivity.
  - by eexists.
  - discriminate.
  - intros out e m E. vm_compute in E. injection E as <- _ _. vm_compute. discriminate.
  - reflexivity.
Qed.

Lemma ex_step2 : conn_step id ex_c1 ex_c2.
Proof.
  eapply (step_read_head _ _ 100).
  - reflexivity.
  - unfold enough. vm_compute. lia.
  - apply surjective_pairing.
Qed.

Lemma ex_c1_wf : conn_wf ex_c1.
Proof. exact (proj1 (conn_step_ok id ex_c0 ex_c1 ex_c0_wf ex_step1)). Qed.

Lemma conn_invariant_witness :
  rtc (conn_step (B:=bytes) id) (conn_new ex_t) ex_c2 /\ keep_alive (state ex_c2) = Idle /\
  reading (state ex_c2) = RInit /\ writing (state ex_c2) = WInit.
Proof.
  assert (rtc (conn_step (B:=bytes) id) (conn_new ex_t) ex_c2) as Hr.
  { eapply rtc_l; [exact ex_step1|]. eapply rtc_l; [exact ex_step2|]. apply rtc_refl. }
  assert (keep_alive (state ex_c2) = Idle) as Hk by (vm_compute; reflexivity).
  split; [exact Hr|]. split; [exact Hk|].
  exact (proj1 (conn_invariant (B:=bytes) id ex_t ex_c2 I Hr) Hk).
Defined.

Lemma conn_closed_forever_witness :
  keep_alive (state (close_read ex_c1)) = Disabled /\
  rtc (conn_step id) (close_read ex_c1) (close_write (close_read ex_c1)) /\
  keep_alive (state (close_write (close_read ex_c1))) = Disabled.
Proof.
  assert (rtc (conn_step id) (close_read ex_c1) (close_write (close_read ex_c1))) as Hr.
  { eapply rtc_l; [apply step_close_write|]. apply rtc_refl. }
  split; [reflexivity|]. split; [exact Hr|].
  exact (proj1 (conn_closed_forever id _ _ (proj1 (close_read_ok ex_c1 ex_c1_wf)) Hr) eq_refl).
Defined.

Lemma conn_idle_complete_witness :
  is_idle (state ex_c1) = false /\ is_idle (state ex_c2) = true /\ writing (state ex_c1) = WKeepAlive /\
  method (state ex_c2) = None.
Proof.
  assert (is_idle (state ex_c1) = false) as Hn by (vm_compute; reflexivity).
  assert (is_idle (state ex_c2) = true) as Hy by (vm_compute; reflexivity).
  destruct (conn_idle_complete id ex_c1 ex_c2 ex_c1_wf ex_step2 Hn Hy) as (Hw & _ & _ & _ & Hm).
  split; [exact Hn|]. split; [exact Hy|]. split; [exact Hw | exact Hm].
Defined.

Lemma conn_ops_total_witness :
  can_read_head ex_c1 = true /\ poll_ok ex_c1 (poll_read_head 100 ex_c1).
Proof.
  assert (can_read_head ex_c1 = true) as Hg by (vm_compute; reflexivity).
  split; [exact Hg|].
  exact (proj1 (conn_ops_total ex_c1 100 ex_c1_wf ltac:(unfold enough; vm_compute; lia)) Hg).
Defined.
