(* ===== verification/Oneshot.v ===== *)
(** * Oneshot channels, as an interface

    tokio's [oneshot] channels join the pool with waiting checkouts and a
    connection with the callers that wait for a response.  A store holds all
    channels; a channel is known to its two ends by a number.  The documented
    state of a channel is [Channel]: the receiver may have been dropped, the
    sender dropped or used up, and a value sent. *)

From S2P Require Import Prelude.

Record Channel (T : Type) := mkChannel { rx_alive : bool; tx_alive : bool; sent : option T }.
Arguments mkChannel {T} _ _ _.
Arguments rx_alive {T} _.
Arguments tx_alive {T} _.
Arguments sent {T} _.

Class Oneshot (T CS : Type) := {
  chan : CS -> nat -> option (Channel T);
  chans_none : CS;
  (* [oneshot::channel()] *)
  chan_new : CS -> nat * CS;
  (* [tx.send(v)]: the value comes back when the receiver is gone, which may
     have happened since it was last looked at (the boolean) *)
  tx_send : nat -> T -> bool -> CS -> option T * CS;
  tx_drop : nat -> CS -> CS;
  rx_drop : nat -> CS -> CS;
  (* a receiver that completed: its value is taken and it is dropped *)
  rx_take : nat -> CS -> CS
}.

Class OneshotLaws (T CS : Type) {os : Oneshot T CS} := {
  chan_none ch : chan chans_none ch = None;
  new_fresh cs : chan cs (chan_new cs).1 = None;
  new_eq cs : chan (chan_new cs).2 (chan_new cs).1 = Some (mkChannel true true None);
  new_ne cs ch : ch <> (chan_new cs).1 -> chan (chan_new cs).2 ch = chan cs ch;
  send_res cs ch v gone c :
    chan cs ch = Some c ->
    (tx_send ch v gone cs).1 = (if rx_alive c && negb gone then None else Some v) /\
    chan (tx_send ch v gone cs).2 ch =
      Some (if rx_alive c && negb gone then mkChannel true false (Some v) else mkChannel false false (sent c));
  send_back cs ch v gone e cs' : tx_send ch v gone cs = (Some e, cs') -> e = v;
  send_ne cs ch ch' v gone : ch' <> ch -> chan (tx_send ch v gone cs).2 ch' = chan cs ch';
  drop_tx_eq cs ch c : chan cs ch = Some c -> chan (tx_drop ch cs) ch = Some (mkChannel (rx_alive c) false (sent c));
  drop_tx_ne cs ch ch' : ch' <> ch -> chan (tx_drop ch cs) ch' = chan cs ch';
  drop_rx_eq cs ch c : chan cs ch = Some c -> chan (rx_drop ch cs) ch = Some (mkChannel false (tx_alive c) (sent c));
  drop_rx_ne cs ch ch' : ch' <> ch -> chan (rx_drop ch cs) ch' = chan cs ch';
  take_rx_eq cs ch c : chan cs ch = Some c -> chan (rx_take ch cs) ch = Some (mkChannel false (tx_alive c) None);
  take_rx_ne cs ch ch' : ch' <> ch -> chan (rx_take ch cs) ch' = chan cs ch'
}.

Section Observe.
Context {T CS : Type} {os : Oneshot T CS}.

(** [tx.is_closed()] *)
Definition tx_is_closed (ch : nat) (cs : CS) : bool :=
  match chan cs ch with Some c => negb (rx_alive c) | None => true end.

(** Polling the receiver. *)
Inductive RxPoll := RxReady (v : T) | RxCanceled | RxPending.
Definition rx_poll (ch : nat) (cs : CS) : RxPoll :=
  match chan cs ch with
  | Some c => match sent c with
              | Some v => RxReady v
              | None => if tx_alive c then RxPending else RxCanceled
              end
  | None => RxCanceled
  end.

Definition tx_drop_all (l : list nat) (cs : CS) : CS := foldr tx_drop cs l.
End Observe.
Arguments RxPoll : clear implicits.
Arguments RxReady {T} _.
Arguments RxCanceled {T}.
Arguments RxPending {T}.

(** ** A store *)

Module RefOneshot.
Section RefOneshot.
Context {T : Type}.
Abbreviation Store := (gmap nat (Channel T)).

Definition update (ch : nat) (f : Channel T -> Channel T) (cs : Store) : Store :=
  match cs !! ch with Some c => <[ch := f c]> cs | None => cs end.

#[global] Instance ref_oneshot : Oneshot T Store := {
  chan cs ch := cs !! ch;
  chans_none := ∅;
  chan_new cs := let ch := fresh (dom cs) in (ch, <[ch := mkChannel true true None]> cs);
  tx_send ch v gone cs :=
    match cs !! ch with
    | Some c =>
        if rx_alive c && negb gone then (None, <[ch := mkChannel true false (Some v)]> cs)
        else (Some v, <[ch := mkChannel false false (sent c)]> cs)
    | None => (Some v, cs)
    end;
  tx_drop ch := update ch (fun c => mkChannel (rx_alive c) false (sent c));
  rx_drop ch := update ch (fun c => mkChannel false (tx_alive c) (sent c));
  rx_take ch := update ch (fun c => mkChannel false (tx_alive c) None)
}.

Lemma update_eq ch f (cs : Store) c : cs !! ch = Some c -> update ch f cs !! ch = Some (f c).
Proof. intros Hc. unfold update. now rewrite Hc, lookup_insert_eq. Qed.

Lemma update_ne ch ch' f (cs : Store) : ch' <> ch -> update ch f cs !! ch' = cs !! ch'.
Proof. intros Hne. unfold update. destruct (cs !! ch); [|easy]. now rewrite lookup_insert_ne by auto. Qed.

#[global] Instance ref_oneshot_laws : OneshotLaws T Store.
Proof.
  split; cbn; intros; rewrite ?lookup_empty, ?lookup_insert_eq; auto using update_ne.
  - apply not_elem_of_dom, is_fresh.
  - now rewrite lookup_insert_ne by auto.
  - match goal with E : cs !! ch = _ |- _ => rewrite E end.
    destruct (rx_alive c && negb gone); cbn; now rewrite lookup_insert_eq.
  - match goal with E : _ = (Some e, cs') |- _ => revert E end.
    destruct (cs !! ch) as [c|]; [destruct (rx_alive c && negb gone)|]; congruence.
  - destruct (cs !! ch) as [c|]; [|easy]. destruct (rx_alive c && negb gone); cbn; now rewrite lookup_insert_ne by auto.
  - now erewrite update_eq.
  - now erewrite update_eq.
  - now erewrite update_eq.
Qed.
End RefOneshot.
End RefOneshot.
