(* ===== verification/Pool.v ===== *)
(** * The connection pool (src/src/core/client/pool.rs)

    Idle connections by key, checkouts waiting for one, and the marker that
    keeps HTTP/2 connecting tasks unique.  The pool is shared: every operation
    takes the pool's inner state and the store of oneshot channels (Oneshot.v) that
    connect it with the waiting checkouts, and returns both.  Time, the openness of
    connections and the moment a receiver goes away are inputs of an operation. *)

From S2P Require Import Prelude Oneshot.
Local Open Scope Z_scope.

(** ** The [lru] crate, as an interface

    A bounded map in order of use.  [lru_set] writes through a mutable
    reference to an entry that is present, [lru_map] through [iter_mut]. *)

Class Lru (K V L : Type) := {
  lru_new : option Z -> L;
  lru_peek : K -> L -> option V;
  lru_get : K -> L -> L;
  lru_set : K -> V -> L -> L;
  lru_get_or_insert : K -> V -> L -> L;
  lru_pop : K -> L -> L;
  lru_iter : L -> list (K * V);
  lru_map : (K -> V -> V) -> L -> L
}.

Class LruLaws (K V L : Type) {lru : Lru K V L} := {
  peek_new cap k : lru_peek k (lru_new cap) = None;
  peek_get k k' l : lru_peek k (lru_get k' l) = lru_peek k l;
  peek_set_eq k v l : is_Some (lru_peek k l) -> lru_peek k (lru_set k v l) = Some v;
  peek_set_ne k k' v l : k <> k' -> lru_peek k (lru_set k' v l) = lru_peek k l;
  peek_insert_eq k v l : lru_peek k (lru_get_or_insert k v l) = Some (default v (lru_peek k l));
  (* another key can only be evicted *)
  peek_insert_ne k k' v l :
    k <> k' -> lru_peek k (lru_get_or_insert k' v l) = lru_peek k l \/ lru_peek k (lru_get_or_insert k' v l) = None;
  peek_pop_eq k l : lru_peek k (lru_pop k l) = None;
  peek_pop_ne k k' l : k <> k' -> lru_peek k (lru_pop k' l) = lru_peek k l;
  peek_map k f l : lru_peek k (lru_map f l) = f k <$> lru_peek k l;
  iter_peek k v l : (k, v) ∈ lru_iter l <-> lru_peek k l = Some v
}.

Module Pool.

Inductive Ver := Auto | Http2.
#[global] Instance Ver_eqdec : EqDecision Ver.
Proof. solve_decision. Defined.

Inductive Reservation (T : Type) :=
| Shared (to_keep to_send : T)
| Unique (value : T).
Arguments Shared {T} _ _.
Arguments Unique {T} _.

(** [trait Poolable]; whether a connection is open changes with time and is an
    input of the operations. *)
Class Poolable (T : Type) := {
  reserve : T -> Reservation T;
  can_share : T -> bool
}.

Record Idle (T : Type) := mkIdle { idle_at : Z; idle_value : T }.
Arguments mkIdle {T} _ _.
Arguments idle_at {T} _.
Arguments idle_value {T} _.

(** ** [Expiration] *)

Definition saturating_duration_since (now at_ : Z) : Z := Z.max 0 (now - at_).
Definition expires (timeout : option Z) (now : Z) (instant : Z) : bool :=
  match timeout with
  | Some t => t <? saturating_duration_since now instant
  | None => false
  end.

(** ** [IdlePopper::pop]

    The list is a stack with its top at the end; the model keeps it reversed in
    the recursion.  The rest of the list is returned with the entry. *)

Section Popper.
Context {T : Type} `{Poolable T} (is_open : T -> bool).

Fixpoint pop_from (timeout : option Z) (now : Z) (rev_list : list (Idle T))
  : option (Idle T) * list (Idle T) :=
  match rev_list with
  | [] => (None, [])
  | entry :: rest =>
      if negb (is_open (idle_value entry)) then pop_from timeout now rest
      else if expires timeout now (idle_at entry) then pop_from timeout now rest
      else
        match reserve (idle_value entry) with
        | Shared to_reinsert to_checkout =>
            (Some (mkIdle (idle_at entry) to_checkout), mkIdle now to_reinsert :: rest)
        | Unique unique => (Some (mkIdle (idle_at entry) unique), rest)
        end
  end.
Definition pop (timeout : option Z) (now : Z) (l : list (Idle T)) : option (Idle T) * list (Idle T) :=
  let '(e, r) := pop_from timeout now (reverse l) in (e, reverse r).
End Popper.

(** ** [PoolInner] *)

Record PoolInner (K L : Type) `{Countable K} := mkInner {
  connecting : gset K;
  idle : L;
  max_idle_per_host : Z;
  waiters : gmap K (list nat);
  idle_interval_ref : bool;
  has_timer : bool;
  timeout : option Z
}.
Arguments mkInner {K L _ _} _ _ _ _ _ _ _.
Arguments connecting {K L _ _} _.
Arguments idle {K L _ _} _.
Arguments max_idle_per_host {K L _ _} _.
Arguments waiters {K L _ _} _.
Arguments idle_interval_ref {K L _ _} _.
Arguments has_timer {K L _ _} _.
Arguments timeout {K L _ _} _.

Section Pool.
Context {K : Type} `{Countable K} {T : Type} `{Poolable T} {L : Type} {lru : Lru K (list (Idle T)) L}
  {CS : Type} {os : Oneshot T CS}.
Implicit Types p : PoolInner K L.

Definition set_connecting (x : gset K) p : PoolInner K L :=
  mkInner x (idle p) (max_idle_per_host p) (waiters p) (idle_interval_ref p) (has_timer p) (timeout p).
Definition set_idle (x : L) p : PoolInner K L :=
  mkInner (connecting p) x (max_idle_per_host p) (waiters p) (idle_interval_ref p) (has_timer p) (timeout p).
Definition set_waiters (x : gmap K (list nat)) p : PoolInner K L :=
  mkInner (connecting p) (idle p) (max_idle_per_host p) x (idle_interval_ref p) (has_timer p) (timeout p).
Definition set_interval (x : bool) p : PoolInner K L :=
  mkInner (connecting p) (idle p) (max_idle_per_host p) (waiters p) x (has_timer p) (timeout p).

(** The queue of a key after some of it was taken: an empty one is removed. *)
Definition store_waiters (key : K) (ws : list nat) (m : gmap K (list nat)) : gmap K (list nat) :=
  match ws with [] => delete key m | _ => <[key := ws]> m end.

Record Config := mkConfig {
  cfg_idle_timeout : option Z; cfg_max_idle_per_host : Z; cfg_max_pool_size : option Z
}.
Definition config_is_enabled (c : Config) : bool := 0 <? cfg_max_idle_per_host c.

(** [Pool::new]: [None] when the pool is disabled. *)
Definition pool_new (c : Config) (timer : bool) : option (PoolInner K L) :=
  if config_is_enabled c then
    Some (mkInner ∅ (lru_new (cfg_max_pool_size c)) (cfg_max_idle_per_host c) ∅ false timer (cfg_idle_timeout c))
  else None.

(** ** [PoolInner::put] *)

(** The [while let Some(tx) = waiters.pop_front()] loop: the value if it was
    not given away for good, the waiters left, the channels.  [gone ch] says
    that the receiver of [ch] goes away between the check and the send. *)
Fixpoint offer (gone : nat -> bool) (value : T) (ws : list nat) (cs : CS)
  : option T * list nat * CS :=
  match ws with
  | [] => (Some value, [], cs)
  | tx :: ws' =>
      if tx_is_closed tx cs then offer gone value ws' (tx_drop tx cs)
      else
        match reserve value with
        | Shared to_keep to_send =>
            match tx_send tx to_send (gone tx) cs with
            | (None, cs) => offer gone to_keep ws' cs
            | (Some e, cs) => offer gone e ws' cs
            end
        | Unique uniq =>
            match tx_send tx uniq (gone tx) cs with
            | (None, cs) => (None, ws', cs)
            | (Some e, cs) => offer gone e ws' cs
            end
        end
  end.

(** Starting the interval that evicts expired connections. *)
Definition spawn_idle_interval p : PoolInner K L :=
  if idle_interval_ref p then p
  else match timeout p with
       | None => p
       | Some _ => if has_timer p then set_interval true p else p
       end.

Definition put (gone : nat -> bool) (now : Z) (key : K) (value : T) p (cs : CS)
  : PoolInner K L * CS :=
  if can_share value && bool_decide (is_Some (lru_peek key (idle p))) then (p, cs)
  else
    let '(value, p, cs) :=
      match waiters p !! key with
      | Some ws =>
          let '(v, ws, cs) := offer gone value ws cs in
          (v, set_waiters (store_waiters key ws (waiters p)) p, cs)
      | None => (Some value, p, cs)
      end in
    match value with
    | Some value =>
        let l := lru_get_or_insert key [] (idle p) in
        let list_ := default [] (lru_peek key l) in
        if max_idle_per_host p <=? len list_ then (set_idle l p, cs)
        else (spawn_idle_interval (set_idle (lru_set key (list_ ++ [mkIdle now value]) l) p), cs)
    | None => (p, cs)
    end.

(** [PoolInner::connected] *)
Definition connected (key : K) p (cs : CS) : PoolInner K L * CS :=
  let p := set_connecting (connecting p ∖ {[key]}) p in
  (set_waiters (delete key (waiters p)) p, tx_drop_all (default [] (waiters p !! key)) cs).

Definition clean_waiters (key : K) p (cs : CS) : PoolInner K L * CS :=
  match waiters p !! key with
  | Some ws =>
      let keep := filter (fun tx => tx_is_closed tx cs = false) ws in
      let gone := filter (fun tx => tx_is_closed tx cs = true) ws in
      (set_waiters (store_waiters key keep (waiters p)) p,
       tx_drop_all gone cs)
  | None => (p, cs)
  end.

(** [clear_expired]; [None]: the [expect] on the timeout fails. *)
Definition clear_expired (is_open : T -> bool) (now : Z) p : option (PoolInner K L) :=
  dur ← timeout p;
  let keep (e : Idle T) : bool := is_open (idle_value e) && negb (dur <? saturating_duration_since now (idle_at e)) in
  let l := lru_map (fun _ => List.filter keep) (idle p) in
  let dead := fst <$> filter (fun kv => kv.2 = []) (lru_iter l) in
  Some (set_idle (foldl (fun l k => lru_pop k l) l dead) p).

(** ** [Pool]: the shared handle; [None] when pooling is disabled *)

Record Connecting := mkConnecting { con_key : K; con_pool : bool }.
Record Pooled := mkPooled { pl_value : option T; pl_is_reused : bool; pl_key : K; pl_pool : bool }.
Record Checkout := mkCheckout { co_key : K; co_waiter : option nat }.

Definition pool_connecting (key : K) (ver : Ver) (inner : option (PoolInner K L))
  : option Connecting * option (PoolInner K L) :=
  match ver, inner with
  | Http2, Some p =>
      if bool_decide (key ∈ connecting p) then (None, inner)
      else (Some (mkConnecting key true), Some (set_connecting ({[key]} ∪ connecting p) p))
  | _, _ => (Some (mkConnecting key false), inner)
  end.

(** [Pool::pooled]: the connection handed to the caller, and the [Connecting]
    as it is dropped at the end. *)
Definition pooled (gone : nat -> bool) (now : Z) (c : Connecting) (value : T)
    (inner : option (PoolInner K L)) (cs : CS)
  : Pooled * Connecting * option (PoolInner K L) * CS :=
  match inner with
  | Some p =>
      match reserve value with
      | Shared to_insert to_return =>
          let '(p, cs) := put gone now (con_key c) to_insert p cs in
          let '(p, cs) := connected (con_key c) p cs in
          (mkPooled (Some to_return) false (con_key c) false, mkConnecting (con_key c) false, Some p, cs)
      | Unique value => (mkPooled (Some value) false (con_key c) true, c, inner, cs)
      end
  | None => (mkPooled (Some value) false (con_key c) false, c, inner, cs)
  end.

Definition reuse (key : K) (value : T) (enabled : bool) : Pooled :=
  mkPooled (Some value) true key (negb (can_share value) && enabled).

(** [Drop for Connecting] *)
Definition connecting_drop (c : Connecting) p (cs : CS) : PoolInner K L * CS :=
  if con_pool c then connected (con_key c) p cs else (p, cs).

Definition alpn_h2 (c : Connecting) (inner : option (PoolInner K L))
  : option Connecting * option (PoolInner K L) := pool_connecting (con_key c) Http2 inner.

(** [Drop for Pooled] *)
Definition pooled_drop (is_open : T -> bool) (gone : nat -> bool) (now : Z) (x : Pooled) p (cs : CS)
  : PoolInner K L * CS :=
  match pl_value x with
  | Some v =>
      if negb (is_open v) then (p, cs)
      else if pl_pool x then put gone now (pl_key x) v p cs
      else (p, cs)
  | None => (p, cs)
  end.

(** ** [Checkout] *)

Inductive PoolError := PoolDisabled | CheckoutNoLongerWanted | CheckedOutClosedValue.

(** [poll_waiter]: [RVal None] when there is no waiter. *)
Definition poll_waiter (is_open : T -> bool) (enabled : bool) (c : Checkout) (cs : CS)
  : poll_res PoolError (option Pooled) * Checkout * CS :=
  match co_waiter c with
  | Some rx =>
      let c' := mkCheckout (co_key c) None in
      match rx_poll rx cs with
      | RxReady v =>
          if is_open v then (RVal (Some (reuse (co_key c) v enabled)), c', rx_take rx cs)
          else (RErr CheckedOutClosedValue, c', rx_take rx cs)
      | RxPending => (RPending, c, cs)
      | RxCanceled => (RErr CheckoutNoLongerWanted, c', rx_take rx cs)
      end
  | None => (RVal None, c, cs)
  end.

(** The first half of [Checkout::checkout]: the newest usable idle connection,
    and the map without what was thrown away. *)
Definition take_idle (is_open : T -> bool) (now : Z) (key : K) p : option (Idle T) * L :=
  match lru_peek key (idle p) with
  | Some list_ =>
      let '(e, rest) := pop is_open (timeout p) now list_ in
      let l := lru_set key rest (lru_get key (idle p)) in
      match e, rest with
      | Some _, _ :: _ => (e, l)
      | _, _ => (e, lru_pop key l)
      end
  | None => (None, lru_pop key (idle p))
  end.

(** [Checkout::checkout]: take an idle connection or register a waiter.  The
    lock is released before the new receiver is polled for the first time:
    [others] is what the rest of the program does to the pool and the channels in
    between.  The receiver is asserted to be pending; the outer [None] is the
    panic, which drops the receiver. *)
Definition checkout (is_open : T -> bool) (now : Z) (others : PoolInner K L -> CS -> PoolInner K L * CS)
    (c : Checkout) p (cs : CS)
  : option (option Pooled) * Checkout * PoolInner K L * CS :=
  let '(entry, l) := take_idle is_open now (co_key c) p in
  let p := set_idle l p in
  match entry with
  | Some e => (Some (Some (reuse (co_key c) (idle_value e) true)), c, p, cs)
  | None =>
      match co_waiter c with
      | Some _ => (Some None, c, p, cs)
      | None =>
          let '(ch, cs) := chan_new cs in
          let ws := default [] (waiters p !! co_key c) ++ [ch] in
          let '(p, cs) := others (set_waiters (<[co_key c := ws]> (waiters p)) p) cs in
          match rx_poll ch cs with
          | RxPending => (Some None, mkCheckout (co_key c) (Some ch), p, cs)
          | _ => (None, c, p, rx_drop ch cs)
          end
      end
  end.

(** Nothing happens in between. *)
Definition alone : PoolInner K L -> CS -> PoolInner K L * CS := pair.

(** [Future for Checkout] *)
Definition checkout_poll (is_open : T -> bool) (now : Z) (others : PoolInner K L -> CS -> PoolInner K L * CS)
    (c : Checkout) (inner : option (PoolInner K L)) (cs : CS)
  : poll_res PoolError Pooled * Checkout * option (PoolInner K L) * CS :=
  let enabled := match inner with Some _ => true | None => false end in
  match poll_waiter is_open enabled c cs with
  | (RVal (Some x), c, cs) => (RVal x, c, inner, cs)
  | (RErr e, c, cs) => (RErr e, c, inner, cs)
  | (RVal None, c, cs) =>
      match inner with
      | None => (RErr PoolDisabled, c, inner, cs)
      | Some p =>
          match checkout is_open now others c p cs with
          | (Some (Some x), c, p, cs) => (RVal x, c, Some p, cs)
          | (Some None, c, p, cs) => (RPending, c, Some p, cs)
          | (None, c, p, cs) => (RPanic, c, Some p, cs)
          end
      end
  | (_, c, cs) => (RPending, c, inner, cs)
  end.

(** [Drop for Checkout] *)
Definition checkout_drop (c : Checkout) p (cs : CS) : PoolInner K L * CS :=
  match co_waiter c with
  | Some rx => clean_waiters (co_key c) p (rx_drop rx cs)
  | None => (p, cs)
  end.
End Pool.
End Pool.

(** ** The pool's values: [PoolClient] (src/src/core/client/mod.rs)

    A connection's sender, with what was learnt when it was connected.  The
    HTTP/2 sender can be cloned, the HTTP/1 one cannot. *)
Module PoolClient.
Import Pool.

Inductive PoolTx (S1 S2 : Type) := Http1 (tx : S1) | Http2Tx (tx : S2).
Arguments Http1 {S1 S2} _.
Arguments Http2Tx {S1 S2} _.

Record PoolClient (C S1 S2 : Type) := mkPoolClient { conn_info : C; tx : PoolTx S1 S2 }.
Arguments mkPoolClient {C S1 S2} _ _.
Arguments conn_info {C S1 S2} _.
Arguments tx {C S1 S2} _.

Section PoolClient.
Context {C S1 S2 : Type} (poisoned : C -> bool) (ready1 : S1 -> bool) (ready2 : S2 -> bool).

Definition is_http2 (c : PoolClient C S1 S2) : bool :=
  match tx c with Http1 _ => false | Http2Tx _ => true end.
Definition is_ready (c : PoolClient C S1 S2) : bool :=
  match tx c with Http1 t => ready1 t | Http2Tx t => ready2 t end.
Definition is_poisoned (c : PoolClient C S1 S2) : bool := poisoned (conn_info c).
Definition pc_is_open (c : PoolClient C S1 S2) : bool := negb (is_poisoned c) && is_ready c.
Definition pc_reserve (c : PoolClient C S1 S2) : Reservation (PoolClient C S1 S2) :=
  match tx c with
  | Http1 t => Unique (mkPoolClient (conn_info c) (Http1 t))
  | Http2Tx t => Shared (mkPoolClient (conn_info c) (Http2Tx t)) (mkPoolClient (conn_info c) (Http2Tx t))
  end.
#[global] Instance pool_client_poolable : Poolable (PoolClient C S1 S2) := {
  reserve := pc_reserve; can_share := is_http2
}.
End PoolClient.
End PoolClient.
