(* ===== verification/PoolFacts.v ===== *)
(** * The pool's operations, one by one

    What each operation of [Pool] does to the idle lists, to the waiting
    checkouts and to the channels that connect them. *)

From S2P Require Import Prelude Oneshot Pool.
Import Pool.

Section Facts.
Context {K : Type} `{Countable K} {T : Type} `{Poolable T} {L : Type} {lru : Lru K (list (Idle T)) L}
  {laws : LruLaws K (list (Idle T)) L} {CS : Type} {os : Oneshot T CS} {osl : OneshotLaws T CS}.
Implicit Types p : PoolInner K L.
Implicit Types cs : CS.

(** ** Idle lists *)

Definition usable (is_open : T -> bool) (timeout : option Z) (now : Z) (e : Idle T) : bool :=
  is_open (idle_value e) && negb (expires timeout now (idle_at e)).

(** The bound every idle list keeps. *)
Definition idle_ok p : Prop :=
  0 < max_idle_per_host p /\
  forall k l, lru_peek k (idle p) = Some l -> l <> [] /\ len l <= max_idle_per_host p.

Lemma pop_from_spec is_open tmo now (l : list (Idle T)) :
  match pop_from is_open tmo now l with
  | (Some e, rest) =>
      exists dead e0 tl, l = dead ++ e0 :: tl /\ Forall (fun x => usable is_open tmo now x = false) dead /\
        usable is_open tmo now e0 = true /\ idle_at e = idle_at e0 /\
        match reserve (idle_value e0) with
        | Shared keep out => idle_value e = out /\ rest = mkIdle now keep :: tl
        | Unique out => idle_value e = out /\ rest = tl
        end
  | (None, rest) => rest = [] /\ Forall (fun x => usable is_open tmo now x = false) l
  end.
Proof.
  induction l as [|e0 l IH]; cbn [pop_from]; [easy|].
  assert (Hskip : usable is_open tmo now e0 = false ->
    match pop_from is_open tmo now l with
    | (Some e, rest) =>
      exists dead e1 tl, e0 :: l = dead ++ e1 :: tl /\ Forall (fun x => usable is_open tmo now x = false) dead /\
        usable is_open tmo now e1 = true /\ idle_at e = idle_at e1 /\
        match reserve (idle_value e1) with
        | Shared keep out => idle_value e = out /\ rest = mkIdle now keep :: tl
        | Unique out => idle_value e = out /\ rest = tl
        end
    | (None, rest) => rest = [] /\ Forall (fun x => usable is_open tmo now x = false) (e0 :: l)
    end).
  { intros Hu. destruct (pop_from is_open tmo now l) as [[e|] rest].
    - destruct IH as (dead & e1 & tl & -> & Hd & Hrest). exists (e0 :: dead), e1, tl. auto.
    - destruct IH as [-> Hf]. auto. }
  unfold usable in Hskip at 1.
  destruct (is_open (idle_value e0)) eqn:Ho; cbn [negb andb] in *; [|exact (Hskip eq_refl)].
  destruct (expires tmo now (idle_at e0)) eqn:Hx; cbn [negb] in *; [exact (Hskip eq_refl)|].
  assert (Hu : usable is_open tmo now e0 = true) by (unfold usable; now rewrite Ho, Hx).
  destruct (reserve (idle_value e0)) as [keep out|out] eqn:Hr;
    exists [], e0, l; rewrite Hr; repeat split; auto.
Qed.

Lemma pop_from_length is_open tmo now (l : list (Idle T)) :
  len (pop_from is_open tmo now l).2 <= len l.
Proof.
  pose proof (pop_from_spec is_open tmo now l) as Hp.
  destruct (pop_from is_open tmo now l) as [[e|] rest]; cbn [snd].
  - destruct Hp as (dead & e0 & tl & -> & _ & _ & _ & Hr).
    destruct (reserve (idle_value e0)); destruct Hr as [_ ->]; unfold len; rewrite length_app; cbn [length]; lia.
  - destruct Hp as [-> _]. unfold len. cbn [length]. lia.
Qed.

(** ** Channels *)

(** The channel's sender is gone; the receiver is as before unless it went
    away meanwhile. *)
Definition released (gone : nat -> bool) cs cs' (ch : nat) : Prop :=
  exists c c', chan cs ch = Some c /\ chan cs' ch = Some c' /\ tx_alive c' = false /\
    (gone ch = false -> rx_alive c' = rx_alive c).

Lemma tx_drop_all_out l ch cs : ch ∉ l -> chan (tx_drop_all l cs) ch = chan cs ch.
Proof.
  induction l as [|x l IH]; [easy|]. intros Hn%not_elem_of_cons.
  change (tx_drop_all (x :: l) cs) with (tx_drop x (tx_drop_all l cs)).
  rewrite drop_tx_ne by apply Hn. now apply IH.
Qed.

Lemma tx_drop_all_in gone l ch cs :
  NoDup l -> ch ∈ l -> is_Some (chan cs ch) -> released gone cs (tx_drop_all l cs) ch.
Proof.
  intros Hnd Hin [c Hc]. induction Hnd as [|x l Hx Hnd IH]; [easy|].
  change (tx_drop_all (x :: l) cs) with (tx_drop x (tx_drop_all l cs)).
  apply elem_of_cons in Hin as [->|Hin].
  - exists c, (mkChannel (rx_alive c) false (sent c)). repeat split; auto.
    apply drop_tx_eq. now rewrite tx_drop_all_out.
  - destruct (IH Hin) as (c0 & c' & ? & ? & ? & ?). exists c0, c'. repeat split; auto.
    rewrite drop_tx_ne; [easy|]. congruence.
Qed.

Definition live cs (ch : nat) : Prop := exists c, chan cs ch = Some c /\ tx_alive c = true /\ sent c = None.

Lemma live_some cs ch : live cs ch -> is_Some (chan cs ch).
Proof. intros (c & -> & _). eauto. Qed.

(** What the loop of [put] does: it takes a prefix of the waiters off the
    queue and releases each of them; the others are untouched. *)
Lemma offer_spec gone (v : T) ws cs :
  NoDup ws -> Forall (live cs) ws ->
  let '(_, ws', cs') := offer gone v ws cs in
  exists taken, ws = taken ++ ws' /\ Forall (released gone cs cs') taken /\
    (forall ch, ch ∉ taken -> chan cs' ch = chan cs ch).
Proof.
  intros Hnd. revert v cs. induction Hnd as [|x ws Hx Hnd IH]; intros v cs Hl; cbn [offer].
  { exists []. auto. }
  apply Forall_cons in Hl as [Hlx Hl].
  (* one waiter taken, then the rest *)
  assert (Hgo : forall v cs1, released gone cs cs1 x -> (forall ch, ch <> x -> chan cs1 ch = chan cs ch) ->
    let '(_, ws', cs') := offer gone v ws cs1 in
    exists taken, x :: ws = taken ++ ws' /\ Forall (released gone cs cs') taken /\
      (forall ch, ch ∉ taken -> chan cs' ch = chan cs ch)).
  { intros v1 cs1 Hrel Hoth.
    assert (Hl1 : Forall (live cs1) ws).
    { rewrite Forall_forall in Hl |- *. intros ch Hch. destruct (Hl ch Hch) as (c & Hc).
      exists c. now rewrite Hoth by congruence. }
    specialize (IH v1 cs1 Hl1). destruct (offer gone v1 ws cs1) as [[o ws'] cs'].
    destruct IH as (tk & -> & Htk & Hout). exists (x :: tk).
    assert (Hxt : x ∉ tk) by (intros Hin; apply Hx; apply elem_of_app; auto).
    split; [easy|]. split.
    - constructor.
      + destruct Hrel as (c & c' & ? & ? & ? & ?). exists c, c'. now rewrite Hout.
      + rewrite Forall_forall in Htk |- *. intros ch Hch.
        destruct (Htk ch Hch) as (c & c' & Hc & ? & ? & ?). exists c, c'.
        rewrite Hoth in Hc by congruence. auto.
    - intros ch [Hne Hn]%not_elem_of_cons. rewrite Hout by easy. now apply Hoth. }
  assert (Hsend : forall u, released gone cs (tx_send x u (gone x) cs).2 x /\
    (forall ch, ch <> x -> chan (tx_send x u (gone x) cs).2 ch = chan cs ch)).
  { intros u. destruct Hlx as (c & Hc & _ & _). split; [|intros; now apply send_ne].
    exists c. eexists. split; [exact Hc|]. split; [exact (proj2 (send_res cs x u (gone x) c Hc))|].
    destruct (rx_alive c) eqn:Hr, (gone x) eqn:Hg; cbn; rewrite ?Hr; auto. }
  destruct (tx_is_closed x cs).
  - apply Hgo.
    + destruct Hlx as (c & Hc & _). exists c. eexists. rewrite (drop_tx_eq cs x c Hc). eauto.
    + intros ch Hne. now apply drop_tx_ne.
  - destruct (reserve v) as [k s|u].
    + destruct (Hsend s) as [Hr Ho]. destruct (tx_send x s (gone x) cs) as [[e|] cs1]; now apply Hgo.
    + destruct (Hsend u) as [Hr Ho]. destruct (tx_send x u (gone x) cs) as [[e|] cs1]; [now apply Hgo|].
      exists [x]. repeat split; auto.
      intros ch Hn. apply Ho. intros ->. apply Hn. now left.
Qed.

(** ** Waiting checkouts *)

Definition waiters_ok p cs : Prop :=
  (forall k ws, waiters p !! k = Some ws -> ws <> [] /\ NoDup ws /\ Forall (live cs) ws) /\
  (forall k1 k2 ws1 ws2 ch, waiters p !! k1 = Some ws1 -> waiters p !! k2 = Some ws2 ->
     ch ∈ ws1 -> ch ∈ ws2 -> k1 = k2).

(** A checkout that waits has a receiver, and as long as the sender exists it
    is in the queue of the checkout's key. *)
Definition waits p cs (c : Checkout (K := K)) : Prop :=
  match co_waiter c with
  | None => True
  | Some ch => exists x, chan cs ch = Some x /\ rx_alive x = true /\
      (tx_alive x = true -> exists ws, waiters p !! co_key c = Some ws /\ ch ∈ ws)
  end.

Definition untouched (gone : nat -> bool) (c : Checkout (K := K)) : Prop :=
  match co_waiter c with Some ch => gone ch = false | None => True end.

Lemma store_waiters_lookup k (ws : list nat) (m : gmap K (list nat)) k1 l :
  store_waiters k ws m !! k1 = Some l <-> (k1 = k /\ l = ws /\ ws <> []) \/ (k1 <> k /\ m !! k1 = Some l).
Proof.
  unfold store_waiters. destruct (decide (k1 = k)) as [->|Hne].
  - destruct ws as [|w ws].
    + rewrite lookup_delete_eq. naive_solver.
    + rewrite lookup_insert_eq. naive_solver.
  - destruct ws as [|w ws].
    + rewrite lookup_delete_ne by auto. naive_solver.
    + rewrite lookup_insert_ne by auto. naive_solver.
Qed.

(** Taking some waiters of one key off their queue and releasing them keeps
    the invariant, and no checkout is left waiting for nothing. *)
Lemma release_ok gone p p' cs cs' k ws ws' taken :
  waiters_ok p cs -> waiters p !! k = Some ws -> ws ≡ₚ taken ++ ws' ->
  Forall (released gone cs cs') taken -> (forall ch, ch ∉ taken -> chan cs' ch = chan cs ch) ->
  waiters p' = store_waiters k ws' (waiters p) ->
  waiters_ok p' cs' /\ forall c, waits p cs c -> untouched gone c -> waits p' cs' c.
Proof.
  intros [Hq Hdis] Hk Hperm Hrel Hout Hp'.
  destruct (Hq _ _ Hk) as (_ & Hnd & Hlv). rewrite Hperm in Hnd, Hlv.
  apply NoDup_app in Hnd as (Hnt & Hsep & Hnd'). apply Forall_app in Hlv as [_ Hlv'].
  assert (Hin : forall ch, ch ∈ taken -> ch ∈ ws) by (intros; rewrite Hperm; apply elem_of_app; auto).
  assert (Hin' : forall ch, ch ∈ ws' -> ch ∈ ws) by (intros; rewrite Hperm; apply elem_of_app; auto).
  assert (Hkeep : forall l, (forall ch, ch ∈ l -> ch ∉ taken) -> Forall (live cs) l -> Forall (live cs') l).
  { intros l Hd Hl. rewrite Forall_forall in Hl |- *. intros ch Hch.
    destruct (Hl ch Hch) as (c & Hc). exists c. rewrite Hout; auto. }
  split; [split|].
  - intros k1 l. rewrite Hp', store_waiters_lookup. intros [(-> & -> & Hne)|[Hne Hl]].
    + repeat split; auto. apply Hkeep; [|easy]. intros ch Hc Ht. now apply (Hsep ch).
    + destruct (Hq _ _ Hl) as (? & ? & ?). repeat split; auto. apply Hkeep; [|easy].
      intros ch Hc Ht. apply Hne. eapply Hdis; eauto.
  - intros k1 k2 l1 l2 ch. rewrite Hp', !store_waiters_lookup.
    intros [(-> & -> & _)|[Hne Hl]] [(-> & -> & _)|[Hne2 Hl2]] H1 H2; eauto.
  - intros c Hw Hg. unfold waits, untouched in *. destruct (co_waiter c) as [ch|]; [|easy].
    destruct Hw as (x & Hx & Hr & Htx). destruct (decide (ch ∈ taken)) as [Ht|Ht].
    + rewrite Forall_forall in Hrel. destruct (Hrel ch Ht) as (x0 & x' & Hx0 & Hx' & Hd & Hrx).
      exists x'. split; [easy|]. split; [|congruence]. rewrite Hrx by easy. congruence.
    + exists x. rewrite Hout by easy. split; [easy|]. split; [easy|]. intros Ha.
      destruct (Htx Ha) as (l & Hl & Hc). rewrite Hp'. destruct (decide (co_key c = k)) as [E|Hne].
      * exists ws'. rewrite store_waiters_lookup. rewrite E, Hk in Hl. injection Hl as <-.
        assert (ch ∈ ws') by (rewrite Hperm in Hc; apply elem_of_app in Hc as [?|?]; easy).
        split; [left; repeat split; auto; now intros ->|easy].
      * exists l. rewrite store_waiters_lookup. auto.
Qed.

(** Nothing changes for the waiters when queues and channels are the same. *)
Lemma same_waiters_ok p p' cs :
  waiters p' = waiters p -> waiters_ok p cs -> waiters_ok p' cs /\ forall c, waits p cs c -> waits p' cs c.
Proof. unfold waiters_ok, waits. intros ->. auto. Qed.

(** ** The operations keep the bound and the queues *)

(** The eviction task only exists when there is a timeout to evict by. *)
Definition timer_ok p : Prop := idle_interval_ref p = true -> is_Some (timeout p).

(** What an operation that takes no connecting token and adds no waiter
    leaves alone, and what it maintains. *)
Record keeps (gone : nat -> bool) p cs p' cs' : Prop := {
  keeps_idle : idle_ok p -> idle_ok p';
  keeps_waiters : waiters_ok p cs -> waiters_ok p' cs';
  keeps_waits : waiters_ok p cs -> forall c, waits p cs c -> untouched gone c -> waits p' cs' c;
  keeps_timer : timer_ok p -> timer_ok p';
  keeps_config : max_idle_per_host p' = max_idle_per_host p /\ timeout p' = timeout p
}.

Lemma keeps_refl gone p cs : keeps gone p cs p cs.
Proof. split; auto. Qed.

Lemma keeps_trans gone p1 cs1 p2 cs2 p3 cs3 :
  keeps gone p1 cs1 p2 cs2 -> keeps gone p2 cs2 p3 cs3 -> keeps gone p1 cs1 p3 cs3.
Proof. intros [? ? ? ? []] [? ? ? ? []]. split; auto. split; congruence. Qed.

Lemma idle_ok_set p l :
  (idle_ok p -> forall k v, lru_peek k l = Some v -> v <> [] /\ len v <= max_idle_per_host p) ->
  idle_ok p -> idle_ok (set_idle l p).
Proof. intros Hl Hp. split; [apply Hp|]. intros k v Hk. now apply (Hl Hp k v). Qed.

Lemma keeps_set_idle gone p cs l :
  (idle_ok p -> forall k v, lru_peek k l = Some v -> v <> [] /\ len v <= max_idle_per_host p) ->
  keeps gone p cs (set_idle l p) cs.
Proof.
  intros Hl. split; [now apply idle_ok_set| | |easy|easy].
  - intros Hw. now apply (same_waiters_ok p (set_idle l p) cs).
  - intros Hw c Hc _. now apply (same_waiters_ok p (set_idle l p) cs).
Qed.

(** Appending to one list of a map that another key can only be evicted from. *)
Lemma insert_list_ok p k (e : Idle T) :
  let l := lru_get_or_insert k [] (idle p) in
  let list_ := default [] (lru_peek k l) in
  (max_idle_per_host p <=? len list_) = false -> idle_ok p ->
  forall k' v, lru_peek k' (lru_set k (list_ ++ [e]) l) = Some v -> v <> [] /\ len v <= max_idle_per_host p.
Proof.
  intros l list_ Hroom [Hmax Hok] k' v. destruct (decide (k' = k)) as [->|Hne].
  - rewrite peek_set_eq by (subst l; rewrite peek_insert_eq; eauto). intros [= <-].
    split; [now destruct list_|]. unfold len in *. rewrite length_app. cbn [length]. lia.
  - rewrite peek_set_ne by easy. unfold l. intros Hv.
    destruct (peek_insert_ne k' k [] (idle p) Hne) as [E|E]; rewrite E in Hv; [eauto|easy].
Qed.

Lemma full_list_ok p k :
  let l := lru_get_or_insert k [] (idle p) in
  let list_ := default [] (lru_peek k l) in
  (max_idle_per_host p <=? len list_) = true -> idle_ok p ->
  forall k' v, lru_peek k' l = Some v -> v <> [] /\ len v <= max_idle_per_host p.
Proof.
  intros l list_ Hfull [Hmax Hok] k' v. unfold list_, l in *. destruct (decide (k' = k)) as [->|Hne].
  - rewrite peek_insert_eq in *. intros [= <-].
    destruct (lru_peek k (idle p)) as [v|] eqn:Hv; cbn [default from_option id] in *; [eauto|].
    apply Z.leb_le in Hfull. change (len _) with 0 in Hfull. lia.
  - intros Hv. destruct (peek_insert_ne k' k [] (idle p) Hne) as [E|E]; rewrite E in Hv; [eauto|easy].
Qed.

Lemma spawn_idle_interval_fields p :
  idle (spawn_idle_interval p) = idle p /\ waiters (spawn_idle_interval p) = waiters p /\
  connecting (spawn_idle_interval p) = connecting p /\ timeout (spawn_idle_interval p) = timeout p /\
  max_idle_per_host (spawn_idle_interval p) = max_idle_per_host p.
Proof.
  unfold spawn_idle_interval. destruct (idle_interval_ref p); [easy|].
  destruct (timeout p) eqn:E; [|auto]. destruct (has_timer p); cbn; auto.
Qed.

Lemma keeps_spawn gone p cs : keeps gone p cs (spawn_idle_interval p) cs.
Proof.
  destruct (spawn_idle_interval_fields p) as (Hi & Hw & _ & Ht & Hm). split.
  - unfold idle_ok. now rewrite Hi, Hm.
  - intros Hq. now apply (same_waiters_ok p (spawn_idle_interval p) cs Hw).
  - intros Hq c Hc _. now apply (same_waiters_ok p (spawn_idle_interval p) cs Hw).
  - unfold timer_ok. rewrite Ht. unfold spawn_idle_interval. destruct (idle_interval_ref p) eqn:E; [now rewrite E|].
    destruct (timeout p); [eauto|]. now rewrite E.
  - easy.
Qed.

(** The end of [put]: a value nobody waited for. *)
Lemma store_idle_keeps gone now k (v : T) p cs :
  let l := lru_get_or_insert k [] (idle p) in
  let list_ := default [] (lru_peek k l) in
  let '(p', cs') :=
    if max_idle_per_host p <=? len list_ then (set_idle l p, cs)
    else (spawn_idle_interval (set_idle (lru_set k (list_ ++ [mkIdle now v]) l) p), cs) in
  keeps gone p cs p' cs'.
Proof.
  cbn zeta. destruct (_ <=? _) eqn:E.
  - apply keeps_set_idle. intros Hok. now apply full_list_ok.
  - eapply keeps_trans; [|apply keeps_spawn]. apply keeps_set_idle. intros Hok. now apply insert_list_ok.
Qed.

Lemma keeps_release gone p cs cs' k ws ws' taken :
  waiters p !! k = Some ws -> (waiters_ok p cs -> ws ≡ₚ taken ++ ws' /\
    Forall (released gone cs cs') taken /\ (forall ch, ch ∉ taken -> chan cs' ch = chan cs ch)) ->
  keeps gone p cs (set_waiters (store_waiters k ws' (waiters p)) p) cs'.
Proof.
  intros Hk Hw. split; [easy| | |easy|easy]; intros Hq; destruct (Hw Hq) as (Hp & Hr & Ho);
    now apply (release_ok gone p (set_waiters (store_waiters k ws' (waiters p)) p) cs cs' k ws ws' taken Hq).
Qed.

Lemma offer_keeps gone (v : T) k ws p cs :
  waiters p !! k = Some ws ->
  let '(_, ws', cs') := offer gone v ws cs in
  keeps gone p cs (set_waiters (store_waiters k ws' (waiters p)) p) cs'.
Proof.
  intros Hk. pose proof (offer_spec gone v ws cs) as Ho.
  destruct (offer gone v ws cs) as [[o ws'] cs'].
  split; [easy| | |easy|easy]; intros Hq; destruct (proj1 Hq _ _ Hk) as (_ & Hnd & Hl);
    destruct (Ho Hnd Hl) as (taken & -> & Hr & Hout);
    now apply (release_ok gone p (set_waiters (store_waiters k ws' (waiters p)) p) cs cs' k (taken ++ ws') ws' taken Hq).
Qed.

Lemma put_keeps gone now k (v : T) p cs :
  keeps gone p cs (put gone now k v p cs).1 (put gone now k v p cs).2.
Proof.
  unfold put. destruct (can_share v && _); [apply keeps_refl|].
  destruct (waiters p !! k) as [ws|] eqn:Hk.
  - pose proof (offer_keeps gone v k ws p cs Hk) as Ho.
    destruct (offer gone v ws cs) as [[[u|] ws'] cs']; [|exact Ho].
    set (p1 := set_waiters _ p) in *.
    pose proof (store_idle_keeps gone now k u p1 cs') as Hs. cbn zeta in Hs.
    destruct (max_idle_per_host p1 <=? _); eapply keeps_trans; eauto.
  - pose proof (store_idle_keeps gone now k v p cs) as Hs. cbn zeta in Hs.
    destruct (max_idle_per_host p <=? _); exact Hs.
Qed.

Lemma put_connecting gone now k (v : T) p cs : connecting (put gone now k v p cs).1 = connecting p.
Proof.
  unfold put. destruct (can_share v && _); [easy|].
  assert (Hst : forall p0 cs0 (u : T),
    let l := lru_get_or_insert k [] (idle p0) in
    let list_ := default [] (lru_peek k l) in
    connecting (if max_idle_per_host p0 <=? len list_ then (set_idle l p0, cs0)
      else (spawn_idle_interval (set_idle (lru_set k (list_ ++ [mkIdle now u]) l) p0), cs0)).1 = connecting p0).
  { intros p0 cs0 u. cbn zeta. destruct (_ <=? _); [easy|]. cbn [fst].
    now rewrite (proj1 (proj2 (proj2 (spawn_idle_interval_fields _)))). }
  destruct (waiters p !! k) as [ws|]; [|apply (Hst p cs v)].
  destruct (offer gone v ws cs) as [[[u|] ws'] cs']; [|easy]. exact (Hst (set_waiters (store_waiters k ws' (waiters p)) p) cs' u).
Qed.

Lemma connected_keeps gone k p cs :
  keeps gone p cs (connected k p cs).1 (connected k p cs).2.
Proof.
  unfold connected. cbn [fst snd waiters set_connecting].
  set (p0 := set_connecting _ p).
  assert (Hp0 : forall cs, keeps gone p cs p0 cs).
  { intros cs0. split; [easy| | |easy|easy]; intros Hq; [|intros c Hc _]; now apply (same_waiters_ok p p0 cs0 eq_refl). }
  eapply keeps_trans; [apply Hp0|]. destruct (waiters p !! k) as [ws|] eqn:Hk; cbn [default from_option id].
  - apply (keeps_release gone p0 cs _ k ws [] ws Hk). intros Hq.
    destruct (proj1 Hq k ws Hk) as (_ & Hnd & Hl). rewrite app_nil_r. split; [easy|]. split.
    + rewrite Forall_forall in Hl |- *. intros ch Hin. apply tx_drop_all_in; auto. apply live_some. auto.
    + intros ch. apply tx_drop_all_out.
  - cbn [tx_drop_all foldr]. rewrite delete_id by exact Hk. unfold p0. apply keeps_refl.
Qed.

Lemma closed_split (f : nat -> bool) (ws : list nat) :
  ws ≡ₚ filter (fun x => f x = true) ws ++ filter (fun x => f x = false) ws.
Proof.
  induction ws as [|x ws IH]; [easy|]. rewrite !filter_cons.
  destruct (f x) eqn:E; case_decide; case_decide; try congruence; cbn [app].
  - now rewrite IH at 1.
  - rewrite IH at 1. apply Permutation_middle.
Qed.

Lemma clean_waiters_keeps gone k p cs :
  keeps gone p cs (clean_waiters k p cs).1 (clean_waiters k p cs).2.
Proof.
  unfold clean_waiters. destruct (waiters p !! k) as [ws|] eqn:Hk; [|apply keeps_refl]. cbn [fst snd].
  apply (keeps_release gone p cs _ k ws _ (filter (fun tx => tx_is_closed tx cs = true) ws) Hk).
  intros Hq. destruct (proj1 Hq k ws Hk) as (_ & Hnd & Hl).
  split; [apply (closed_split (fun tx => tx_is_closed tx cs))|]. split.
  - apply Forall_forall. intros ch Hin. apply tx_drop_all_in; [now apply NoDup_filter|easy|].
    rewrite Forall_forall in Hl. apply live_some, Hl. now apply list_elem_of_filter in Hin as [_ ?].
  - intros ch. apply tx_drop_all_out.
Qed.

(** Touching only the receiver of one channel. *)
Lemma touch_keeps (gone : nat -> bool) p cs cs' ch :
  gone ch = true -> (forall ch', ch' <> ch -> chan cs' ch' = chan cs ch') -> (live cs ch -> live cs' ch) ->
  keeps gone p cs p cs'.
Proof.
  intros Hg Ho Hlv. split; [easy| | |easy|easy].
  - intros [Hq Hd]. split; [|easy]. intros k ws Hk. destruct (Hq k ws Hk) as (? & ? & Hl). repeat split; auto.
    rewrite Forall_forall in Hl |- *. intros x Hx. destruct (decide (x = ch)) as [->|Hne]; [auto|].
    destruct (Hl x Hx) as (c & Hc). exists c. now rewrite Ho.
  - intros Hq c Hc Hu. unfold waits, untouched in *. destruct (co_waiter c) as [x|]; [|easy].
    destruct (decide (x = ch)) as [->|Hne]; [congruence|]. rewrite Ho; auto.
Qed.

Lemma rx_drop_keeps (gone : nat -> bool) p cs ch : gone ch = true -> keeps gone p cs p (rx_drop ch cs).
Proof.
  intros Hg. apply (touch_keeps gone p cs _ ch Hg).
  - intros x Hne. now apply drop_rx_ne.
  - intros (c0 & Hc0 & ? & ?). eexists. rewrite (drop_rx_eq cs ch c0 Hc0). auto.
Qed.

Lemma rx_take_keeps (gone : nat -> bool) p cs ch :
  gone ch = true -> rx_poll ch cs <> RxPending -> keeps gone p cs p (rx_take ch cs).
Proof.
  intros Hg Hp. apply (touch_keeps gone p cs _ ch Hg).
  - intros x Hne. now apply take_rx_ne.
  - intros (c0 & Hc0 & Ht & Hs). exfalso. apply Hp. unfold rx_poll. now rewrite Hc0, Hs, Ht.
Qed.

(** A new channel at the end of a key's queue. *)
Lemma new_waiter_keeps gone p cs k :
  let ch := (chan_new cs).1 in
  let p' := set_waiters (<[k := default [] (waiters p !! k) ++ [ch]]> (waiters p)) p in
  chan cs ch = None /\ keeps gone p cs p' (chan_new cs).2 /\ waits p' (chan_new cs).2 (mkCheckout k (Some ch)).
Proof.
  cbn zeta. pose proof (new_fresh cs) as Hf. pose proof (new_eq cs) as Hnew. pose proof (new_ne cs) as Hold'.
  destruct (chan_new cs) as [ch cs']. cbn [fst snd] in *.
  assert (Hlv : forall x, live cs x -> x <> ch /\ live cs' x).
  { intros x (c & Hc & Hr). split; [congruence|]. exists c. rewrite Hold' by congruence. auto. }
  split; [easy|]. split; [split; [easy| | |easy|easy]|].
  - intros [Hq Hd].
    assert (Hold : Forall (live cs) (default [] (waiters p !! k)) /\ NoDup (default [] (waiters p !! k))).
    { destruct (waiters p !! k) as [ws|] eqn:Hk; [|split; constructor]. now destruct (Hq k ws Hk) as (_ & ? & ?). }
    split.
    + intros k1 ws. cbn [waiters set_waiters]. destruct (decide (k1 = k)) as [->|Hne].
      * rewrite lookup_insert_eq. intros [= <-]. split; [now destruct (default [] _)|]. destruct Hold as [Hl Hn]. split.
        { apply NoDup_app. split; [easy|]. split; [|apply NoDup_singleton].
          intros x Hx ->%list_elem_of_singleton. rewrite Forall_forall in Hl. now destruct (Hlv _ (Hl _ Hx)). }
        { apply Forall_app. split; [eapply Forall_impl; [exact Hl|]; intros x Hx; now apply Hlv|].
          constructor; [|constructor]. eexists. split; [exact Hnew|]. auto. }
      * rewrite lookup_insert_ne by auto. intros Hk1. destruct (Hq k1 ws Hk1) as (? & ? & Hl). repeat split; auto.
        eapply Forall_impl; [exact Hl|]. intros x Hx. now apply Hlv.
    + assert (Hch : forall k1 ws, waiters p !! k1 = Some ws -> ch ∉ ws).
      { intros k1 ws Hk1 Hin. destruct (Hq k1 ws Hk1) as (_ & _ & Hl). rewrite Forall_forall in Hl.
        now destruct (Hlv ch (Hl ch Hin)). }
      assert (Hsplit : forall k1 ws x, <[k := default [] (waiters p !! k) ++ [ch]]> (waiters p) !! k1 = Some ws -> x ∈ ws ->
        (x = ch /\ k1 = k) \/ exists ws0, waiters p !! k1 = Some ws0 /\ x ∈ ws0).
      { intros k1 ws x. destruct (decide (k1 = k)) as [->|Hne].
        - rewrite lookup_insert_eq. intros [= <-] [Hx|Hx]%elem_of_app; [|apply list_elem_of_singleton in Hx; auto].
          right. destruct (waiters p !! k) as [w|]; [eauto|]. now apply not_elem_of_nil in Hx.
        - rewrite lookup_insert_ne by auto. eauto. }
      intros k1 k2 ws1 ws2 x H1 H2 Hx1 Hx2.
      destruct (Hsplit _ _ _ H1 Hx1) as [[-> ->]|(w1 & Hw1 & ?)], (Hsplit _ _ _ H2 Hx2) as [[E ->]|(w2 & Hw2 & ?)]; subst; eauto.
      all: exfalso; eapply Hch; eauto.
  - intros Hq c Hw _. unfold waits in *. destruct (co_waiter c) as [x|]; [|easy].
    destruct Hw as (y & Hy & Hr & Ht). exists y. rewrite Hold' by congruence. split; [easy|]. split; [easy|].
    intros Ha. destruct (Ht Ha) as (ws & Hws & Hin). cbn [waiters set_waiters]. destruct (decide (co_key c = k)) as [<-|Hne].
    + exists (ws ++ [ch]). rewrite lookup_insert_eq, Hws. split; [easy|]. apply elem_of_app. auto.
    + exists ws. now rewrite lookup_insert_ne by auto.
  - unfold waits. cbn [co_waiter co_key waiters set_waiters]. eexists. split; [exact Hnew|]. split; [easy|].
    intros _. eexists. rewrite lookup_insert_eq. split; [easy|]. apply elem_of_app. right. now left.
Qed.

(** ** Checking out *)

Lemma pop_length is_open tmo now (l : list (Idle T)) : len (pop is_open tmo now l).2 <= len l.
Proof.
  unfold pop. pose proof (pop_from_length is_open tmo now (reverse l)) as Hp.
  destruct (pop_from is_open tmo now (reverse l)) as [e r]. cbn [snd] in *.
  unfold len in *. rewrite length_reverse in *. lia.
Qed.

Lemma pop_none is_open tmo now (l rest : list (Idle T)) : pop is_open tmo now l = (None, rest) -> rest = [].
Proof.
  unfold pop. pose proof (pop_from_spec is_open tmo now (reverse l)) as Hp.
  destruct (pop_from is_open tmo now (reverse l)) as [[e|] r]; [easy|]. intros [= <-]. now destruct Hp as [-> _].
Qed.

Lemma take_idle_other is_open now k p k' :
  k' <> k -> lru_peek k' (take_idle is_open now k p).2 = lru_peek k' (idle p).
Proof.
  intros Hne. unfold take_idle. destruct (lru_peek k (idle p)); [|cbn [snd]; now apply peek_pop_ne].
  destruct (pop _ _ _ _) as [[e|] [|r0 rest]]; cbn [snd];
    rewrite ?peek_pop_ne, peek_set_ne, peek_get by easy; easy.
Qed.

Lemma take_idle_same is_open now k p :
  lru_peek k (take_idle is_open now k p).2 =
    match lru_peek k (idle p) with
    | Some l => match (pop is_open (timeout p) now l).2 with [] => None | rest => Some rest end
    | None => None
    end.
Proof.
  unfold take_idle. destruct (lru_peek k (idle p)) as [l|] eqn:Hk; [|apply peek_pop_eq].
  destruct (pop is_open (timeout p) now l) as [[e|] [|r0 rest]] eqn:E; cbn [snd];
    rewrite ?peek_pop_eq; try easy.
  - apply peek_set_eq. rewrite peek_get, Hk. eauto.
  - apply pop_none in E. easy.
Qed.

(** The entry taken is the newest usable one, and the rest of the list. *)
Lemma take_idle_entry is_open now k p :
  let old := default [] (lru_peek k (idle p)) in
  match (take_idle is_open now k p).1 with
  | Some e =>
      exists older e0 newer, old = older ++ e0 :: newer /\
        Forall (fun y => usable is_open (timeout p) now y = false) newer /\ usable is_open (timeout p) now e0 = true /\
        match reserve (idle_value e0) with
        | Shared keep out => idle_value e = out /\
            lru_peek k (take_idle is_open now k p).2 = Some (older ++ [mkIdle now keep])
        | Unique out => idle_value e = out /\
            lru_peek k (take_idle is_open now k p).2 = match older with [] => None | _ => Some older end
        end
  | None => Forall (fun y => usable is_open (timeout p) now y = false) old /\
            lru_peek k (take_idle is_open now k p).2 = None
  end.
Proof.
  cbn zeta. rewrite take_idle_same.
  pose proof (pop_from_spec is_open (timeout p) now (reverse (default [] (lru_peek k (idle p))))) as Hp.
  unfold take_idle, pop. destruct (lru_peek k (idle p)) as [l|]; cbn [default from_option id] in *; [|easy].
  destruct (pop_from is_open (timeout p) now (reverse l)) as [[e|] rest]; cbn [snd].
  - destruct Hp as (newer & e0 & older & El & Hn & Hu & _ & Hr).
    apply (f_equal reverse) in El. rewrite reverse_involutive, reverse_app, reverse_cons, <- app_assoc in El.
    replace (match reverse rest with [] => _ | _ => _ end).1 with (Some e) by now destruct (reverse rest).
    exists (reverse older), e0, (reverse newer). split; [exact El|]. split; [now apply Forall_reverse|]. split; [easy|].
    destruct (reserve (idle_value e0)) as [a b|u]; destruct Hr as [<- ->]; (split; [easy|]); rewrite ?reverse_cons; now destruct (reverse older).
  - destruct Hp as [-> Hf]. cbn. apply Forall_reverse in Hf. rewrite reverse_involutive in Hf. easy.
Qed.

Lemma take_idle_ok is_open now k p :
  idle_ok p -> forall k' v, lru_peek k' (take_idle is_open now k p).2 = Some v ->
    v <> [] /\ len v <= max_idle_per_host p.
Proof.
  intros [_ Hok] k' v. destruct (decide (k' = k)) as [->|Hne].
  - rewrite take_idle_same. destruct (lru_peek k (idle p)) as [l|] eqn:Hk; [|easy].
    pose proof (pop_length is_open (timeout p) now l) as Hl. destruct (Hok k l Hk) as [_ Hb].
    destruct (pop is_open (timeout p) now l).2 as [|r rest]; [easy|]. intros [= <-]. split; [easy|lia].
  - rewrite take_idle_other by easy. apply Hok.
Qed.

Lemma checkout_keeps gone is_open now (c : Checkout) p cs :
  let '(o, c', p', cs') := checkout is_open now alone c p cs in
  keeps gone p cs p' cs' /\ connecting p' = connecting p /\ co_key c' = co_key c /\
  o <> None /\ (o = Some None -> is_Some (co_waiter c')) /\
  (c' = c \/ co_waiter c = None /\ waits p' cs' c' /\ exists ch, co_waiter c' = Some ch /\ chan cs ch = None).
Proof.
  unfold checkout. pose proof (keeps_set_idle gone p cs _ (take_idle_ok is_open now (co_key c) p)) as Ht.
  destruct (take_idle is_open now (co_key c) p) as [[e|] l]; cbn [snd] in Ht;
    [split; [exact Ht|]; repeat split; auto; easy|].
  destruct (co_waiter c) as [ch|] eqn:Hw; [split; [exact Ht|]; rewrite Hw; repeat split; eauto; easy|].
  pose proof (new_waiter_keeps gone (set_idle l p) cs (co_key c)) as (Hf & Hk & Hwt).
  pose proof (new_eq cs) as Hn. destruct (chan_new cs) as [ch cs']. cbn [fst snd alone] in *.
  unfold rx_poll. rewrite Hn. cbn. split; [eapply keeps_trans; eauto|].
  repeat split; eauto 10; easy.
Qed.

Definition waits_on (c : Checkout (K := K)) (ch : nat) : bool := bool_decide (co_waiter c = Some ch).

Lemma waits_on_self (c : Checkout (K := K)) ch : co_waiter c = Some ch -> waits_on c ch = true.
Proof. intros Hc. now apply bool_decide_eq_true. Qed.

Lemma checkout_poll_keeps is_open now (c : Checkout) p cs :
  waits p cs c ->
  let '(r, c', inner, cs') := checkout_poll is_open now alone c (Some p) cs in
  exists p', inner = Some p' /\ r <> RPanic /\ keeps (waits_on c) p cs p' cs' /\ connecting p' = connecting p /\ co_key c' = co_key c /\
    waits p' cs' c' /\ (r = RPending -> is_Some (co_waiter c')) /\
    (forall ch, co_waiter c' = Some ch -> co_waiter c = Some ch \/ chan cs ch = None).
Proof.
  intros Hw. unfold checkout_poll, poll_waiter. destruct (co_waiter c) as [ch|] eqn:Hc.
  - pose proof (rx_take_keeps (waits_on c) p cs ch (waits_on_self c ch Hc)) as Ht.
    destruct (rx_poll ch cs) as [v| |] eqn:Hp.
    + destruct (is_open v); exists p; (split; [easy|]); (split; [easy|]); (split; [now apply Ht|]); now repeat split.
    + exists p. split; [easy|]. split; [easy|]. split; [now apply Ht|]. now repeat split.
    + exists p. split; [easy|]. split; [easy|]. split; [apply keeps_refl|]. rewrite Hc. repeat split; eauto.
  - pose proof (checkout_keeps (waits_on c) is_open now c p cs) as Hk.
    destruct (checkout is_open now alone c p cs) as [[[o c'] p'] cs'].
    destruct Hk as (Hk & Hcn & Hkey & Hpan & Hnone & Hcase).
    assert (Hcw : waits p' cs' c' /\ forall x, co_waiter c' = Some x -> Some x = co_waiter c \/ chan cs x = None).
    { destruct Hcase as [->|(_ & Hwt & x & Hx & Hf)].
      - split; [unfold waits; now rewrite Hc|]. intros x Hx. auto.
      - split; [easy|]. intros y Hy. right. congruence. }
    destruct Hcw as [Hcw Hch].
    destruct o as [[x|]|]; [| |easy]; exists p'; (split; [easy|]); (split; [easy|]); (split; [exact Hk|]); repeat split; auto; try easy.
    all: intros y Hy; destruct (Hch y Hy) as [E|E]; [rewrite Hc in E; easy|auto].
Qed.

(** ** Evicting *)

Lemma pop_all_peek (dead : list K) (l : L) k :
  lru_peek k (foldl (fun l k => lru_pop k l) l dead) = if bool_decide (k ∈ dead) then None else lru_peek k l.
Proof.
  revert l. induction dead as [|d dead IH]; intros l; cbn [foldl].
  { now rewrite bool_decide_eq_false_2 by apply not_elem_of_nil. }
  rewrite IH. destruct (decide (k = d)) as [->|Hne].
  - rewrite peek_pop_eq, (bool_decide_eq_true_2 (d ∈ d :: dead)) by now left. now destruct (bool_decide _).
  - rewrite peek_pop_ne by easy.
    rewrite (bool_decide_ext (k ∈ d :: dead) (k ∈ dead)); [easy|]. rewrite elem_of_cons. naive_solver.
Qed.

(** The lists [clear_expired] leaves: the usable entries, in order; no list
    where there are none. *)
Lemma clear_expired_lookup is_open now p p' dur :
  timeout p = Some dur -> clear_expired is_open now p = Some p' -> forall k,
  lru_peek k (idle p') =
    match lru_peek k (idle p) with
    | Some l => match List.filter (usable is_open (Some dur) now) l with [] => None | l' => Some l' end
    | None => None
    end.
Proof.
  intros Ht. unfold clear_expired. rewrite Ht. intros [= <-] k. cbn [idle set_idle].
  rewrite pop_all_peek, peek_map.
  set (keep := fun e : Idle T => _ && _). change keep with (usable is_open (Some dur) now). clear keep.
  destruct (lru_peek k (idle p)) as [l|] eqn:Hk; cbn [fmap option_fmap option_map]; [|now destruct (bool_decide _)].
  set (m := lru_map _ (idle p)).
  assert (Hm : lru_peek k m = Some (List.filter (usable is_open (Some dur) now) l))
    by (unfold m; now rewrite peek_map, Hk).
  destruct (List.filter (usable is_open (Some dur) now) l) as [|e l'].
  - rewrite bool_decide_eq_true_2; [easy|]. apply list_elem_of_fmap. exists (k, []). split; [easy|].
    apply list_elem_of_filter. split; [easy|]. now apply iter_peek.
  - rewrite bool_decide_eq_false_2; [easy|]. intros ([k' v] & E & Hin)%list_elem_of_fmap.
    cbn [fst] in E. subst k'. apply list_elem_of_filter in Hin as [Hv Hin]. cbn [snd] in Hv. subst v.
    apply iter_peek in Hin. congruence.
Qed.

Lemma clear_expired_keeps gone is_open now p p' cs :
  clear_expired is_open now p = Some p' -> keeps gone p cs p' cs /\ connecting p' = connecting p.
Proof.
  intros Hc. destruct (timeout p) as [dur|] eqn:Ht; [|unfold clear_expired in Hc; now rewrite Ht in Hc].
  pose proof (clear_expired_lookup is_open now p p' dur Ht Hc) as Hl.
  unfold clear_expired in Hc. rewrite Ht in Hc. injection Hc as <-. cbn [idle set_idle] in Hl.
  split; [|easy]. apply keeps_set_idle. intros [_ Hok] k v. rewrite Hl.
  destruct (lru_peek k (idle p)) as [l|] eqn:Hk; [|easy]. destruct (Hok k l Hk) as [_ Hb].
  pose proof (List.filter_length_le (usable is_open (Some dur) now) l) as Hf.
  destruct (List.filter _ l) as [|e l']; [easy|]. intros [= <-]. split; [easy|].
  unfold len in *. cbn [length] in *. lia.
Qed.

(** ** Who gets a connection that is put back *)

Lemma tx_drop_closed ch ch' cs :
  is_Some (chan cs ch') -> tx_is_closed ch (tx_drop ch' cs) = tx_is_closed ch cs.
Proof.
  intros [c Hc]. unfold tx_is_closed. destruct (decide (ch = ch')) as [->|Hne].
  - now rewrite (drop_tx_eq cs ch' c Hc), Hc.
  - now rewrite drop_tx_ne by auto.
Qed.

Lemma tx_drop_some ch ch' cs : is_Some (chan cs ch) -> is_Some (chan (tx_drop ch' cs) ch).
Proof.
  intros [c Hc]. destruct (decide (ch = ch')) as [->|Hne]; [rewrite (drop_tx_eq cs ch' c Hc)|rewrite drop_tx_ne by auto]; eauto.
Qed.

(** The loop of [put] with a connection that cannot be shared. *)
Lemma offer_unique (v : T) ws cs :
  reserve v = Unique v -> Forall (fun ch => is_Some (chan cs ch)) ws ->
  (exists dead ch rest cs', ws = dead ++ ch :: rest /\ Forall (fun x => tx_is_closed x cs = true) dead /\
     tx_is_closed ch cs = false /\ offer (fun _ => false) v ws cs = (None, rest, cs') /\ rx_poll ch cs' = RxReady v) \/
  (Forall (fun x => tx_is_closed x cs = true) ws /\
   exists cs', offer (fun _ => false) v ws cs = (Some v, [], cs')).
Proof.
  intros Hv. revert cs. induction ws as [|x ws IH]; intros cs Hs; [right; cbn; eauto|].
  apply Forall_cons in Hs as [Hx Hs]. cbn [offer]. destruct (tx_is_closed x cs) eqn:Hc.
  - destruct (IH (tx_drop x cs)) as [(dead & ch & rest & cs' & -> & Hd & Ho & Hof & Hp)|(Hd & cs' & Hof)].
    + eapply Forall_impl; [exact Hs|]. intros y Hy. now apply tx_drop_some.
    + left. exists (x :: dead), ch, rest, cs'. rewrite tx_drop_closed in Ho by easy. repeat split; auto. constructor; [easy|].
      eapply Forall_impl; [exact Hd|]. intros y. cbn beta. now rewrite tx_drop_closed by easy.
    + right. split; [|eauto]. constructor; [easy|].
      eapply Forall_impl; [exact Hd|]. intros y. cbn beta. now rewrite tx_drop_closed by easy.
  - left. destruct Hx as [c Hcx]. unfold tx_is_closed in Hc. rewrite Hcx in Hc. apply negb_false_iff in Hc.
    rewrite Hv. destruct (send_res cs x v false c Hcx) as [Hr Hs'].
    destruct (tx_send x v false cs) as [o cs']. cbn [fst snd] in *. rewrite Hc in Hr, Hs'. cbn in Hr, Hs'. subst o.
    exists [], x, ws, cs'. unfold tx_is_closed, rx_poll. rewrite Hcx, Hs', Hc. auto.
Qed.

Lemma store_idle_peek now k (v : T) p (cs : CS) :
  let l := lru_get_or_insert k [] (idle p) in
  let list_ := default [] (lru_peek k l) in
  lru_peek k (idle (if max_idle_per_host p <=? len list_ then (set_idle l p, cs)
    else (spawn_idle_interval (set_idle (lru_set k (list_ ++ [mkIdle now v]) l) p), cs)).1) =
  let old := default [] (lru_peek k (idle p)) in
  Some (if max_idle_per_host p <=? len old then old else old ++ [mkIdle now v]).
Proof.
  cbn zeta. rewrite peek_insert_eq. cbn [default from_option id].
  destruct (_ <=? _); cbn [fst]; [apply peek_insert_eq|].
  rewrite (proj1 (spawn_idle_interval_fields _)). cbn [idle set_idle]. apply peek_set_eq. rewrite peek_insert_eq. eauto.
Qed.

(** The connection [v] and what reserving it, again and again, gives. *)
Inductive shares (v : T) : T -> Prop :=
| sh_self : shares v v
| sh_keep x a b : shares v x -> reserve x = Shared a b -> shares v a
| sh_send x a b : shares v x -> reserve x = Shared a b -> shares v b.

(** Reserving a shared connection gives shared ones. *)
Definition stays_shared : Prop := forall x a b : T, reserve x = Shared a b ->
  (exists c d, reserve a = Shared c d) /\ exists c d, reserve b = Shared c d.

(** A connection that can be shared goes to every waiter that is still there, and
    stays with the pool. *)
Lemma offer_shared (v0 v : T) ws cs :
  stays_shared -> (exists a b, reserve v = Shared a b) -> shares v0 v -> NoDup ws -> Forall (live cs) ws ->
  exists u cs', offer (fun _ => false) v ws cs = (Some u, [], cs') /\ shares v0 u /\
    (forall ch, ch ∉ ws -> chan cs' ch = chan cs ch) /\
    (forall ch c, ch ∈ ws -> chan cs ch = Some c -> rx_alive c = true -> exists s, shares v0 s /\ rx_poll ch cs' = RxReady s).
Proof.
  intros Hsh Hv Hv0 Hnd. revert v cs Hv Hv0. induction Hnd as [|x ws Hx Hnd IH]; intros v cs (a & b & Hv) Hv0 Hl.
  { exists v, cs. repeat split; auto. intros ch c Hch. now apply elem_of_nil in Hch. }
  apply Forall_cons in Hl as [(c & Hc & Ht & Hs) Hl]. cbn [offer]. destruct (Hsh v a b Hv) as [Ha Hb].
  (* the rest, when the channel of [x] alone has changed *)
  assert (Hgo : forall u cs1, (exists a b, reserve u = Shared a b) -> shares v0 u -> (forall ch, ch <> x -> chan cs1 ch = chan cs ch) ->
    (rx_alive c = true -> exists s, shares v0 s /\ rx_poll x cs1 = RxReady s) ->
    exists u' cs', offer (fun _ => false) u ws cs1 = (Some u', [], cs') /\ shares v0 u' /\
      (forall ch, ch ∉ x :: ws -> chan cs' ch = chan cs ch) /\
      (forall ch c, ch ∈ x :: ws -> chan cs ch = Some c -> rx_alive c = true -> exists s, shares v0 s /\ rx_poll ch cs' = RxReady s)).
  { intros u cs1 Hu Hsu Hoth Hgot. destruct (IH u cs1 Hu Hsu) as (u' & cs' & He & Hs' & Hout & Hin).
    - rewrite Forall_forall in Hl |- *. intros ch Hch. destruct (Hl ch Hch) as (c1 & Hc1). exists c1. now rewrite Hoth by congruence.
    - exists u', cs'. split; [easy|]. split; [easy|]. split.
      + intros ch [Hne Hn]%not_elem_of_cons. now rewrite Hout, Hoth.
      + intros ch c1 [->|Hch]%elem_of_cons Hc1 Hr.
        * rewrite Hc in Hc1. injection Hc1 as <-. destruct (Hgot Hr) as (s & Hss & Hp). exists s. split; [easy|].
          unfold rx_poll in *. now rewrite Hout.
        * apply (Hin ch c1 Hch); [|easy]. now rewrite Hoth by congruence. }
  unfold tx_is_closed. rewrite Hc. destruct (rx_alive c) eqn:Er; cbn [negb].
  - rewrite Hv. destruct (send_res cs x b false c Hc) as [Hres Hch]. pose proof (send_ne cs x) as Hne. specialize (fun ch => Hne ch b false).
    destruct (tx_send x b false cs) as [o cs1]. cbn [fst snd] in *. rewrite Er in Hres, Hch. cbn in Hres, Hch. subst o.
    apply Hgo; [easy|eauto using shares|easy|]. intros _. exists b. split; [eauto using shares|]. unfold rx_poll. now rewrite Hch.
  - apply Hgo; [eauto|easy| |easy]. intros ch Hne. now apply drop_tx_ne.
Qed.

(** Dropping the sender of a channel. *)
Lemma tx_drop_all_chan l ch cs c :
  NoDup l -> ch ∈ l -> chan cs ch = Some c -> chan (tx_drop_all l cs) ch = Some (mkChannel (rx_alive c) false (sent c)).
Proof.
  intros Hnd Hin Hc. induction Hnd as [|x l Hx Hnd IH]; [easy|]. change (tx_drop_all (x :: l) cs) with (tx_drop x (tx_drop_all l cs)).
  apply elem_of_cons in Hin as [->|Hin]; [apply drop_tx_eq; now rewrite tx_drop_all_out|].
  rewrite drop_tx_ne; [now apply IH|]. congruence.
Qed.

(** What [put] does with a connection that can be shared. *)
Lemma put_shared now k (v : T) p cs :
  stays_shared -> (exists a b, reserve v = Shared a b) -> waiters_ok p cs ->
  let '(p', cs') := put (fun _ => false) now k v p cs in
  if can_share v && bool_decide (is_Some (lru_peek k (idle p))) then p' = p /\ cs' = cs
  else
    let old := default [] (lru_peek k (idle p)) in
    exists u, shares v u /\ waiters p' !! k = None /\
      lru_peek k (idle p') = Some (if max_idle_per_host p <=? len old then old else old ++ [mkIdle now u]) /\
      forall ws ch c, waiters p !! k = Some ws -> ch ∈ ws -> chan cs ch = Some c -> rx_alive c = true ->
        exists s, shares v s /\ rx_poll ch cs' = RxReady s.
Proof.
  intros Hsh Hv [Hw _]. unfold put. destruct (can_share v && _); [easy|]. cbv zeta.
  assert (Hst : forall u p1 cs1, waiters p1 !! k = None -> idle p1 = idle p -> max_idle_per_host p1 = max_idle_per_host p ->
    let '(p', cs') := (let l := lru_get_or_insert k [] (idle p1) in let list_ := default [] (lru_peek k l) in
      if max_idle_per_host p1 <=? len list_ then (set_idle l p1, cs1)
      else (spawn_idle_interval (set_idle (lru_set k (list_ ++ [mkIdle now u]) l) p1), cs1)) in
    cs' = cs1 /\ waiters p' !! k = None /\
    lru_peek k (idle p') = Some (let old := default [] (lru_peek k (idle p)) in if max_idle_per_host p <=? len old then old else old ++ [mkIdle now u])).
  { intros u p1 cs1 Hk Hi Hm. pose proof (store_idle_peek now k u p1 cs1) as Hp. cbv zeta in *. rewrite Hi, Hm in *.
    destruct (_ <=? _); cbn [fst] in Hp; (split; [easy|]); (split; [|exact Hp]); [easy|].
    match goal with |- context [spawn_idle_interval ?q] => destruct (spawn_idle_interval_fields q) as (_ & Hws & _) end. now rewrite Hws. }
  destruct (waiters p !! k) as [ws|] eqn:Ek.
  - destruct (Hw k ws Ek) as (_ & Hnd & Hl). destruct (offer_shared v v ws cs Hsh Hv (sh_self v) Hnd Hl) as (u & cs' & -> & Hu & _ & Hin).
    specialize (Hst u (set_waiters (store_waiters k [] (waiters p)) p) cs' (lookup_delete_eq _ _) eq_refl eq_refl). cbv zeta in Hst.
    destruct (if _ <=? _ then _ else _) as [p' cs2]. destruct Hst as (-> & Hn & Hp). exists u. repeat split; try easy.
    intros ws' ch c [= <-]. apply Hin.
  - specialize (Hst v p cs Ek eq_refl eq_refl). cbv zeta in Hst. destruct (if _ <=? _ then _ else _) as [p' cs2]. destruct Hst as (-> & Hn & Hp).
    exists v. repeat split; try easy. constructor.
Qed.
End Facts.
