(* ===== verification/PoolWorld.v ===== *)
(** * The pool and its users

    The pool's lock makes each of its operations atomic.  A [World] is the pool
    with everything that refers to it: the connecting tokens, the checkouts in
    flight, and the checkouts whose drop has let go of the receiver but has not
    yet taken the lock.  [pool_step] interleaves their operations. *)

From S2P Require Import Prelude Oneshot Pool PoolFacts.
Import Pool.

Section World.
Context {K : Type} `{Countable K} {T : Type} `{Poolable T} {L : Type} {lru : Lru K (list (Idle T)) L}
  {laws : LruLaws K (list (Idle T)) L} {CS : Type} {os : Oneshot T CS} {osl : OneshotLaws T CS}.

Record World := mkWorld {
  w_pool : PoolInner K L;
  w_chans : CS;
  w_tokens : list (Connecting (K := K));
  w_checkouts : list (Checkout (K := K));
  w_dropping : list K
}.

Definition lost (gl : list nat) (ch : nat) : bool := bool_decide (ch ∈ gl).

#[global] Instance untouched_dec (gone : nat -> bool) (c : Checkout (K := K)) : Decision (untouched gone c).
Proof. unfold untouched. destruct (co_waiter c); apply _. Defined.

(** The receivers [gl] go away during an operation that holds the lock. *)
Definition lose (gl : list nat) (w : World) : World :=
  mkWorld (w_pool w) (foldr rx_drop (w_chans w) gl) (w_tokens w)
    (filter (untouched (lost gl)) (w_checkouts w))
    ((co_key <$> filter (fun c => ~ untouched (lost gl) c) (w_checkouts w)) ++ w_dropping w).

Definition is_shared (r : Reservation T) : bool := match r with Shared _ _ => true | Unique _ => false end.

(** The only users of the pool's operations are the client's connect and
    send tasks (src/src/core/client/mod.rs).  They hand an HTTP/2 connection to
    [pooled] only with a token that holds the key's lock, and call [alpn_h2]
    only on a token that does not.

    A checkout that registers its waiter polls the receiver after it has released
    the lock.  A step of another user in between either does not touch the new
    channel, and can as well be taken after it, or answers it, and then the
    assertion on the poll fails and the checkout is gone ([step_register_panic]). *)
Inductive pool_step : World -> World -> Prop :=
| step_checkout w k :
    pool_step w (mkWorld (w_pool w) (w_chans w) (w_tokens w) (mkCheckout k None :: w_checkouts w) (w_dropping w))
| step_poll w l1 c l2 is_open now r c' p' cs' :
    w_checkouts w = l1 ++ c :: l2 ->
    checkout_poll is_open now alone c (Some (w_pool w)) (w_chans w) = (r, c', Some p', cs') ->
    pool_step w (mkWorld p' cs' (w_tokens w) (l1 ++ c' :: l2) (w_dropping w))
| step_connecting w k ver t p' :
    pool_connecting k ver (Some (w_pool w)) = (Some t, Some p') ->
    pool_step w (mkWorld p' (w_chans w) (t :: w_tokens w) (w_checkouts w) (w_dropping w))
| step_alpn_h2 w l1 t l2 o p' :
    w_tokens w = l1 ++ t :: l2 -> con_pool t = false ->
    alpn_h2 t (Some (w_pool w)) = (o, Some p') ->
    pool_step w (mkWorld p' (w_chans w) (option_list o ++ l1 ++ l2) (w_checkouts w) (w_dropping w))
| step_pooled w l1 t l2 v now gl x t' p1 cs1 p2 cs2 :
    w_tokens w = l1 ++ t :: l2 -> (is_shared (reserve v) = true -> con_pool t = true) ->
    pooled (lost gl) now t v (Some (w_pool w)) (w_chans w) = (x, t', Some p1, cs1) ->
    connecting_drop t' p1 cs1 = (p2, cs2) ->
    pool_step w (lose gl (mkWorld p2 cs2 (l1 ++ l2) (w_checkouts w) (w_dropping w)))
| step_connecting_drop w l1 t l2 p' cs' :
    w_tokens w = l1 ++ t :: l2 -> connecting_drop t (w_pool w) (w_chans w) = (p', cs') ->
    pool_step w (mkWorld p' cs' (l1 ++ l2) (w_checkouts w) (w_dropping w))
| step_pooled_drop w is_open gl now x p' cs' :
    pooled_drop is_open (lost gl) now x (w_pool w) (w_chans w) = (p', cs') ->
    pool_step w (lose gl (mkWorld p' cs' (w_tokens w) (w_checkouts w) (w_dropping w)))
| step_checkout_done w l1 c l2 :
    w_checkouts w = l1 ++ c :: l2 -> co_waiter c = None ->
    pool_step w (mkWorld (w_pool w) (w_chans w) (w_tokens w) (l1 ++ l2) (w_dropping w))
| step_register_panic w l1 c l2 ch :
    w_checkouts w = l1 ++ c :: l2 -> co_waiter c = Some ch -> rx_poll ch (w_chans w) <> RxPending ->
    pool_step w (mkWorld (w_pool w) (rx_drop ch (w_chans w)) (w_tokens w) (l1 ++ l2) (w_dropping w))
| step_drop_rx w l1 c l2 ch :
    w_checkouts w = l1 ++ c :: l2 -> co_waiter c = Some ch ->
    pool_step w (mkWorld (w_pool w) (rx_drop ch (w_chans w)) (w_tokens w) (l1 ++ l2) (co_key c :: w_dropping w))
| step_clean w l1 k l2 p' cs' :
    w_dropping w = l1 ++ k :: l2 -> clean_waiters k (w_pool w) (w_chans w) = (p', cs') ->
    pool_step w (mkWorld p' cs' (w_tokens w) (w_checkouts w) (l1 ++ l2))
| step_tick w is_open now p' :
    idle_interval_ref (w_pool w) = true -> clear_expired is_open now (w_pool w) = Some p' ->
    pool_step w (mkWorld p' (w_chans w) (w_tokens w) (w_checkouts w) (w_dropping w)).

Definition pool_init (cfg : Config) (timer : bool) (w : World) : Prop :=
  exists p, pool_new cfg timer = Some p /\ w = mkWorld p chans_none [] [] [].

Inductive pool_reach (cfg : Config) (timer : bool) : World -> Prop :=
| reach_init w : pool_init cfg timer w -> pool_reach cfg timer w
| reach_step w w' : pool_reach cfg timer w -> pool_step w w' -> pool_reach cfg timer w'.

(** ** The invariant *)

Definition locks (ts : list (Connecting (K := K))) : list K :=
  con_key <$> filter (fun t => con_pool t = true) ts.

Definition tokens_ok (p : PoolInner K L) (ts : list (Connecting (K := K))) : Prop :=
  NoDup (locks ts) /\ forall k, k ∈ connecting p <-> k ∈ locks ts.

Variable cfg : Config.

Record inv (w : World) : Prop := {
  inv_config : max_idle_per_host (w_pool w) = cfg_max_idle_per_host cfg /\ timeout (w_pool w) = cfg_idle_timeout cfg;
  inv_idle : idle_ok (w_pool w);
  inv_timer : timer_ok (w_pool w);
  inv_waiters : waiters_ok (w_pool w) (w_chans w);
  inv_waits : Forall (waits (w_pool w) (w_chans w)) (w_checkouts w);
  inv_distinct : NoDup (omap co_waiter (w_checkouts w));
  inv_tokens : tokens_ok (w_pool w) (w_tokens w)
}.

Lemma locks_app l1 l2 : locks (l1 ++ l2) = locks l1 ++ locks l2.
Proof. unfold locks. now rewrite filter_app, fmap_app. Qed.
Lemma locks_cons t l : locks (t :: l) = (if con_pool t then [con_key t] else []) ++ locks l.
Proof. unfold locks. rewrite filter_cons. destruct (con_pool t); now case_decide. Qed.

(** A token without the lock comes and goes. *)
Lemma tokens_plain p l1 t l2 : con_pool t = false -> tokens_ok p (l1 ++ t :: l2) <-> tokens_ok p (l1 ++ l2).
Proof. intros Ht. unfold tokens_ok. rewrite (locks_app l1 (t :: l2)), (locks_app l1 l2), (locks_cons t l2), Ht. easy. Qed.

(** A token with the lock gives it back. *)
Lemma tokens_release p p' l1 t l2 :
  con_pool t = true -> connecting p' = connecting p ∖ {[con_key t]} ->
  tokens_ok p (l1 ++ t :: l2) -> tokens_ok p' (l1 ++ l2).
Proof.
  intros Ht Hc [Hnd Hin]. unfold tokens_ok. rewrite locks_app, locks_cons, Ht in Hnd, Hin. rewrite locks_app.
  change ([con_key t] ++ locks l2) with (con_key t :: locks l2) in *.
  assert (Hnd' : NoDup (con_key t :: locks l1 ++ locks l2)) by now rewrite Permutation_middle.
  apply NoDup_cons in Hnd' as [Hni Hnd']. split; [easy|]. intros k. rewrite Hc, elem_of_difference, elem_of_singleton, Hin.
  rewrite !elem_of_app, elem_of_cons. rewrite elem_of_app in Hni. naive_solver.
Qed.

Lemma tokens_same p p' ts : connecting p' = connecting p -> tokens_ok p ts -> tokens_ok p' ts.
Proof. unfold tokens_ok. now intros ->. Qed.

(** Taking the lock of a key. *)
Lemma tokens_connecting k ver p o p' ts :
  pool_connecting k ver (Some p) = (o, Some p') -> tokens_ok p ts -> tokens_ok p' (option_list o ++ ts).
Proof.
  unfold pool_connecting. intros Hp Ht. destruct ver.
  - injection Hp as <- <-. cbn [option_list app]. now apply (tokens_plain p []).
  - case_bool_decide as Hk; injection Hp as <- <-; cbn [option_list app]; [easy|].
    change (option_list _ ++ ts) with (mkConnecting k true :: ts).
    destruct Ht as [Hnd Hin]. unfold tokens_ok. rewrite (locks_cons (mkConnecting k true) ts). cbn [con_pool con_key connecting set_connecting app].
    split; [constructor; [now rewrite <- Hin|easy]|]. intros k'. rewrite elem_of_union, elem_of_singleton, elem_of_cons, Hin. easy.
Qed.

(** ** Every step keeps it *)

Lemma inv_update gone w p' cs' ts cos dr :
  inv w -> keeps gone (w_pool w) (w_chans w) p' cs' -> tokens_ok p' ts ->
  (forall c, c ∈ cos -> (c ∈ w_checkouts w /\ untouched gone c) \/ waits p' cs' c) ->
  NoDup (omap co_waiter cos) -> inv (mkWorld p' cs' ts cos dr).
Proof.
  intros [[Hm1 Hm2] Hi Htm Hw Hws Hd Ht] [Hk1 Hk2 Hk3 Hk4 [Hk5 Hk6]] Hts Hcos Hnd.
  split; cbn; auto; [split; congruence|].
  rewrite Forall_forall in Hws |- *. intros c Hc. destruct (Hcos c Hc) as [[Hin Hu]|Hc']; auto.
Qed.

Lemma untouched_none (c : Checkout (K := K)) : untouched (fun _ => false) c.
Proof. unfold untouched. now destruct (co_waiter c). Qed.

(** A step that leaves the checkouts alone. *)
Lemma inv_pool w p' cs' ts dr :
  inv w -> keeps (fun _ => false) (w_pool w) (w_chans w) p' cs' -> tokens_ok p' ts ->
  inv (mkWorld p' cs' ts (w_checkouts w) dr).
Proof.
  intros Hi Hk Ht. eapply inv_update; eauto; [|apply Hi]. intros c Hc. left. split; [easy|apply untouched_none].
Qed.

Lemma omap_filter_distinct (P : Checkout (K := K) -> Prop) `{!forall c, Decision (P c)} cos :
  NoDup (omap co_waiter cos) -> NoDup (omap co_waiter (filter P cos)).
Proof.
  assert (Hin : forall (ch : nat) (l : list (Checkout (K := K))), ch ∈ omap co_waiter (filter P l) -> ch ∈ omap co_waiter l).
  { intros ch l (c & Hc & E)%list_elem_of_omap. apply list_elem_of_filter in Hc as [_ Hc]. apply list_elem_of_omap. eauto. }
  induction cos as [|c cos IH]; [easy|]. rewrite filter_cons. cbn [omap list_omap].
  destruct (co_waiter c) as [ch|] eqn:Hc.
  - intros [Hn Hnd]%NoDup_cons. case_decide; [|auto]. cbn [omap list_omap]. rewrite Hc. constructor; [|auto].
    intros Hx. apply Hn. now apply Hin.
  - intros Hnd. case_decide; [|auto]. cbn [omap list_omap]. rewrite Hc. auto.
Qed.

Lemma rx_drops_keeps gl (p : PoolInner K L) (cs : CS) (l : list nat) :
  (forall ch, ch ∈ l -> ch ∈ gl) -> keeps (lost gl) p cs p (foldr rx_drop cs l).
Proof.
  induction l as [|ch l IH]; intros Hl; [apply keeps_refl|]. cbn [foldr]. eapply keeps_trans.
  - apply IH. intros x Hx. apply Hl. now right.
  - apply rx_drop_keeps. apply bool_decide_eq_true. apply Hl. now left.
Qed.

(** The receivers that go away during an operation take their checkouts with
    them. *)
Lemma inv_lose gl w p' cs' ts :
  inv w -> keeps (lost gl) (w_pool w) (w_chans w) p' cs' -> tokens_ok p' ts ->
  inv (lose gl (mkWorld p' cs' ts (w_checkouts w) (w_dropping w))).
Proof.
  intros Hi Hk Ht. unfold lose. cbn. eapply inv_update; [exact Hi| |exact Ht| |].
  - eapply keeps_trans; [exact Hk|]. now apply rx_drops_keeps.
  - intros c [Hu Hc]%list_elem_of_filter. auto.
  - apply omap_filter_distinct, Hi.
Qed.

Lemma pooled_drop_keeps is_open gone now (x : Pooled) p cs :
  keeps gone p cs (pooled_drop is_open gone now x p cs).1 (pooled_drop is_open gone now x p cs).2 /\
  connecting (pooled_drop is_open gone now x p cs).1 = connecting p.
Proof.
  unfold pooled_drop. destruct (pl_value x) as [v|]; [|split; [apply keeps_refl|easy]].
  destruct (negb (is_open v)); [split; [apply keeps_refl|easy]|].
  destruct (pl_pool x); [split; [apply put_keeps|apply put_connecting]|split; [apply keeps_refl|easy]].
Qed.

Lemma connecting_drop_ok gone l1 t l2 p cs :
  tokens_ok p (l1 ++ t :: l2) ->
  keeps gone p cs (connecting_drop t p cs).1 (connecting_drop t p cs).2 /\
  tokens_ok (connecting_drop t p cs).1 (l1 ++ l2).
Proof.
  intros Ht. unfold connecting_drop. destruct (con_pool t) eqn:E.
  - split; [apply connected_keeps|]. now apply (tokens_release p _ l1 t l2 E).
  - split; [apply keeps_refl|]. now apply (tokens_plain p l1 t l2 E).
Qed.

(** [pooled], and the drop of the token it was given. *)
Lemma pooled_ok gone now l1 t l2 v p cs x t' p1 cs1 :
  (is_shared (reserve v) = true -> con_pool t = true) -> tokens_ok p (l1 ++ t :: l2) ->
  pooled gone now t v (Some p) cs = (x, t', Some p1, cs1) ->
  keeps gone p cs (connecting_drop t' p1 cs1).1 (connecting_drop t' p1 cs1).2 /\
  tokens_ok (connecting_drop t' p1 cs1).1 (l1 ++ l2).
Proof.
  intros Hsh Ht. unfold pooled. destruct (reserve v) as [a b|u].
  - pose proof (put_keeps gone now (con_key t) a p cs) as Hk.
    pose proof (put_connecting gone now (con_key t) a p cs) as Hc.
    destruct (put gone now (con_key t) a p cs) as [p2 cs2]. cbn [fst snd] in *.
    pose proof (connected_keeps gone (con_key t) p2 cs2) as Hk2.
    destruct (connected (con_key t) p2 cs2) as [p3 cs3] eqn:E. cbn [fst snd] in *.
    intros [= <- <- <- <-]. cbn. split; [eapply keeps_trans; eauto|].
    apply (tokens_release p p3 l1 t l2 (Hsh eq_refl)); [|easy].
    unfold connected in E. injection E as <- _. cbn. now rewrite Hc.
  - intros [= <- <- <- <-]. now apply connecting_drop_ok.
Qed.

Lemma distinct_poll (l1 l2 : list (Checkout (K := K))) c c' (p : PoolInner K L) (cs : CS) :
  Forall (waits p cs) (l1 ++ c :: l2) -> NoDup (omap co_waiter (l1 ++ c :: l2)) ->
  (forall ch, co_waiter c' = Some ch -> co_waiter c = Some ch \/ chan cs ch = None) ->
  NoDup (omap co_waiter (l1 ++ c' :: l2)) /\ (forall x, x ∈ l1 ++ l2 -> untouched (waits_on c) x).
Proof.
  intros Hws Hnd Hch. rewrite omap_app in *. change (c :: l2) with ([c] ++ l2) in *. change (c' :: l2) with ([c'] ++ l2).
  rewrite omap_app in *. rewrite !Forall_app in Hws. destruct Hws as (Hw1 & Hwc & Hw2).
  rewrite Permutation_app_comm, <- app_assoc in Hnd. rewrite Permutation_app_comm, <- app_assoc.
  rewrite (Permutation_app_comm (omap co_waiter l2)) in Hnd |- *.
  rewrite <- omap_app in Hnd |- *.
  assert (Hw : Forall (waits p cs) (l1 ++ l2)) by (apply Forall_app; auto).
  assert (Hl : forall ch, ch ∈ omap co_waiter (l1 ++ l2) -> is_Some (chan cs ch)).
  { intros ch (x & Hx & E)%list_elem_of_omap. rewrite Forall_forall in Hw. specialize (Hw x Hx).
    unfold waits in Hw. rewrite E in Hw. destruct Hw as (y & -> & _). eauto. }
  apply NoDup_app in Hnd as (Hnc & Hsep & Hnl). cbn [omap list_omap] in *. split.
  - destruct (co_waiter c') as [ch|] eqn:E; [|easy]. apply NoDup_app. split; [apply NoDup_singleton|]. split; [|easy].
    intros x ->%list_elem_of_singleton Hin. destruct (Hch ch eq_refl) as [Ec|Ef].
    + rewrite Ec in Hsep. apply (Hsep ch); [now left|easy].
    + destruct (Hl ch Hin) as [y Hy]. congruence.
  - intros x Hx. unfold untouched. destruct (co_waiter x) as [ch|] eqn:E; [|easy]. unfold waits_on.
    apply bool_decide_eq_false. intros Ec. rewrite Ec in Hsep. apply (Hsep ch); [now left|].
    apply list_elem_of_omap. eauto.
Qed.

Lemma inv_poll w l1 c l2 is_open now r c' p' cs' :
  inv w -> w_checkouts w = l1 ++ c :: l2 ->
  checkout_poll is_open now alone c (Some (w_pool w)) (w_chans w) = (r, c', Some p', cs') ->
  inv (mkWorld p' cs' (w_tokens w) (l1 ++ c' :: l2) (w_dropping w)).
Proof.
  intros Hi Hc Hp. pose proof (inv_waits w Hi) as Hws. pose proof (inv_distinct w Hi) as Hd. rewrite Hc in Hws, Hd.
  assert (Hwc : waits (w_pool w) (w_chans w) c) by (rewrite Forall_forall in Hws; apply Hws, elem_of_app; right; now left).
  pose proof (checkout_poll_keeps is_open now c (w_pool w) (w_chans w) Hwc) as Hk. rewrite Hp in Hk.
  destruct Hk as (p0 & [= <-] & _ & Hk & Hcn & _ & Hw' & _ & Hch).
  destruct (distinct_poll l1 l2 c c' _ _ Hws Hd Hch) as [Hd' Hu].
  eapply inv_update; [exact Hi|exact Hk|apply (tokens_same _ _ _ Hcn), Hi| |exact Hd'].
  intros x Hx. rewrite elem_of_app, elem_of_cons in Hx. destruct Hx as [Hx|[->|Hx]]; [left|now right|left].
  - split; [rewrite Hc; apply elem_of_app; auto|apply Hu, elem_of_app; auto].
  - split; [rewrite Hc; apply elem_of_app; right; now right|apply Hu, elem_of_app; auto].
Qed.

Lemma inv_drop_checkout w l1 c l2 cs' dr :
  inv w -> w_checkouts w = l1 ++ c :: l2 -> keeps (waits_on c) (w_pool w) (w_chans w) (w_pool w) cs' ->
  inv (mkWorld (w_pool w) cs' (w_tokens w) (l1 ++ l2) dr).
Proof.
  intros Hi Hc Hk. pose proof (inv_waits w Hi) as Hws. pose proof (inv_distinct w Hi) as Hd. rewrite Hc in Hws, Hd.
  destruct (distinct_poll l1 l2 c (mkCheckout (co_key c) None) _ _ Hws Hd) as [Hd' Hu]; [easy|].
  eapply inv_update; [exact Hi|exact Hk|apply Hi| |].
  - intros x Hx. left. split; [|auto]. rewrite Hc. apply elem_of_app in Hx as [?|?]; apply elem_of_app; [auto|right; now right].
  - now rewrite omap_app in *.
Qed.

Lemma connecting_keeps gone k ver p o p' (cs : CS) :
  pool_connecting k ver (Some p) = (o, Some p') -> keeps gone p cs p' cs.
Proof.
  unfold pool_connecting. destruct ver; [|case_bool_decide]; intros [= <- <-]; try apply keeps_refl.
  set (p0 := set_connecting _ p).
  split; [easy| | |easy|easy]; intros Hq; [|intros c Hc _]; now apply (same_waiters_ok p p0 cs eq_refl).
Qed.

Lemma pool_step_inv w w' : pool_step w w' -> inv w -> inv w'.
Proof.
  intros Hs Hi. pose proof (inv_tokens w Hi) as Ht. destruct Hs.
  - eapply (inv_update (fun _ => false)); [exact Hi|apply keeps_refl|exact Ht| |exact (inv_distinct w Hi)].
    intros c [->|Hc]%elem_of_cons; [now right|]. left. split; [easy|apply untouched_none].
  - eapply inv_poll; eauto.
  - apply inv_pool; [exact Hi|eapply connecting_keeps; eauto|].
    now apply (tokens_connecting k ver (w_pool w) (Some t)).
  - unfold alpn_h2 in *. apply inv_pool; [exact Hi|eapply connecting_keeps; eauto|].
    eapply tokens_connecting; [eassumption|]. match goal with E : w_tokens w = _ |- _ => rewrite E in Ht end.
    eapply tokens_plain; eauto.
  - match goal with E : w_tokens w = _ |- _ => rewrite E in Ht end.
    edestruct pooled_ok as [Hk Hts]; [eassumption|exact Ht|eassumption|].
    match goal with E : connecting_drop _ _ _ = _ |- _ => rewrite E in Hk, Hts end. now apply inv_lose.
  - match goal with E : w_tokens w = _ |- _ => rewrite E in Ht end.
    destruct (connecting_drop_ok (fun _ => false) l1 t l2 _ (w_chans w) Ht) as [Hk Hts].
    match goal with E : connecting_drop _ _ _ = _ |- _ => rewrite E in Hk, Hts end. now apply inv_pool.
  - destruct (pooled_drop_keeps is_open (lost gl) now x (w_pool w) (w_chans w)) as [Hk Hc].
    match goal with E : pooled_drop _ _ _ _ _ _ = _ |- _ => rewrite E in Hk, Hc end.
    apply inv_lose; [easy|easy|]. now apply (tokens_same (w_pool w)).
  - eapply inv_drop_checkout; [exact Hi|eassumption|apply keeps_refl].
  - eapply inv_drop_checkout; [exact Hi|eassumption|]. now apply rx_drop_keeps, waits_on_self.
  - eapply inv_drop_checkout; [exact Hi|eassumption|]. now apply rx_drop_keeps, waits_on_self.
  - pose proof (clean_waiters_keeps (fun _ => false) k (w_pool w) (w_chans w)) as Hk.
    match goal with E : clean_waiters _ _ _ = _ |- _ => rename E into Ec end. rewrite Ec in Hk.
    apply inv_pool; [easy|easy|]. apply (tokens_same (w_pool w)); [|easy].
    unfold clean_waiters in Ec. destruct (waiters (w_pool w) !! k); now injection Ec as <- <-.
  - match goal with E : clear_expired _ _ _ = _ |- _ =>
      destruct (clear_expired_keeps (fun _ => false) is_open now _ _ (w_chans w) E) as [Hk Hc] end.
    apply inv_pool; [easy|easy|]. now apply (tokens_same (w_pool w)).
Qed.

Lemma pool_reach_inv timer w : pool_reach cfg timer w -> inv w.
Proof.
  induction 1 as [w (p & Hp & ->)|w w' _ IH Hs]; [|eapply pool_step_inv; eauto].
  unfold pool_new, config_is_enabled in Hp. destruct (0 <? _) eqn:E; [|easy]. injection Hp as <-.
  split; cbn.
  - easy.
  - split; [cbn; lia|]. intros k l. cbn. now rewrite peek_new.
  - easy.
  - split; intros k; intros; cbn in *; rewrite lookup_empty in *; easy.
  - constructor.
  - constructor.
  - split; [constructor|]. intros k. cbn. rewrite elem_of_empty, elem_of_nil. easy.
Qed.

End World.
