(* ===== verification/PoolProps.v ===== *)
(** * What the pool promises

    Invariants of every interleaving of the pool's users, and what each
    operation does: who gets a connection that is returned, which connection a
    checkout gets, what the eviction task leaves, and what becomes of the waiters
    when an HTTP/2 connection is established. *)

From S2P Require Import Prelude Oneshot Pool PoolFacts PoolWorld.
Import Pool.

(** ** A bounded map with an order of use *)

Module RefLru.
Record LruCache (K V : Type) `{Countable K} := mkLru {
  cap : option Z; entries : gmap K V; order : list K
}.
Arguments mkLru {K V _ _} _ _ _.
Arguments cap {K V _ _} _.
Arguments entries {K V _ _} _.
Arguments order {K V _ _} _.

Section RefLru.
Context {K V : Type} `{Countable K}.
Implicit Types l : LruCache K V.

Definition touch (k : K) (o : list K) : list K := k :: filter (fun x => x <> k) o.

(** Room for one more entry: the least recently used one goes. *)
Definition evict l : LruCache K V :=
  match cap l, last (order l) with
  | Some c, Some k =>
      if c <=? Z.of_nat (size (entries l)) then
        mkLru (cap l) (delete k (entries l)) (filter (fun x => x <> k) (order l))
      else l
  | _, _ => l
  end.

Definition get_or_insert (k : K) (v : V) l : LruCache K V :=
  match entries l !! k with
  | Some _ => mkLru (cap l) (entries l) (touch k (order l))
  | None => let l := evict l in mkLru (cap l) (<[k := v]> (entries l)) (touch k (order l))
  end.

#[global] Instance ref_lru : Lru K V (LruCache K V) := {
  lru_new c := mkLru c ∅ [];
  lru_peek k l := entries l !! k;
  lru_get k l := mkLru (cap l) (entries l) (touch k (order l));
  lru_set k v l := mkLru (cap l) (match entries l !! k with Some _ => <[k := v]> (entries l) | None => entries l end) (order l);
  lru_get_or_insert := get_or_insert;
  lru_pop k l := mkLru (cap l) (delete k (entries l)) (filter (fun x => x <> k) (order l));
  lru_iter l := map_to_list (entries l);
  lru_map f l := mkLru (cap l) (map_imap (fun k v => Some (f k v)) (entries l)) (order l)
}.

#[global] Instance ref_lru_laws : LruLaws K V (LruCache K V).
Proof.
  split; cbn.
  - intros. apply lookup_empty.
  - easy.
  - intros k v l [x ->]. apply lookup_insert_eq.
  - intros k k' v l Hne. destruct (entries l !! k'); [|easy]. now rewrite lookup_insert_ne by auto.
  - intros k v l. unfold get_or_insert. destruct (entries l !! k) eqn:E; cbn; [now rewrite E|apply lookup_insert_eq].
  - intros k k' v l Hne. unfold get_or_insert. destruct (entries l !! k'); cbn; [auto|].
    rewrite lookup_insert_ne by auto. unfold evict.
    destruct (cap l) as [c|]; [|auto]. destruct (last (order l)) as [x|]; [|auto]. destruct (c <=? _); [|auto].
    cbn. destruct (decide (k = x)) as [->|]; [right; apply lookup_delete_eq|left; now rewrite lookup_delete_ne by auto].
  - intros. apply lookup_delete_eq.
  - intros. now rewrite lookup_delete_ne by auto.
  - intros k f l. rewrite map_lookup_imap. now destruct (entries l !! k).
  - intros. apply elem_of_map_to_list.
Qed.
End RefLru.
End RefLru.

(** ** Concrete pools for the witnesses: keys are numbers *)

Module Example.
Import RefLru RefOneshot PoolClient.
Abbreviation Conn := (PoolClient unit nat nat).
Abbreviation P := (PoolInner nat (LruCache nat (list (Idle Conn)))).

Definition h1 (n : nat) : Conn := mkPoolClient tt (Http1 n).
Definition h2 (n : nat) : Conn := mkPoolClient tt (Http2Tx n).
Definition up (c : Conn) : bool := pc_is_open (fun _ => false) (fun n => negb (Nat.eqb n 13)) (fun _ => true) c.
Definition cfg : Config := mkConfig (Some 90) 2 (Some 8).
Definition empty : P := mkInner ∅ (lru_new (Some 8)) 2 ∅ false true (Some 90).
Abbreviation S := (gmap nat (Channel Conn)).
Abbreviation W := (World (K := nat) (L := LruCache nat (list (Idle Conn))) (CS := S)).

Definition w_empty : W := mkWorld empty ∅ [] [] [].
(** Connection 1 was put back under key 7 at time 5. *)
Definition idle_pool : P * S := pooled_drop up (lost []) 5 (mkPooled (Some (h1 1)) false 7%nat true) empty ∅.
Definition w_idle : W := lose [] (mkWorld idle_pool.1 idle_pool.2 [] [] []).
(** A checkout for key 7 waits on channel 0, and key 7's lock is taken. *)
Definition waiting_poll := checkout_poll up 1 alone (mkCheckout 7%nat None) (Some empty) (∅ : S).
Definition waiting_pool : P := default empty waiting_poll.1.2.
Definition w_waiting : W := mkWorld waiting_pool waiting_poll.2 [] [waiting_poll.1.1.2] [].
Definition locked_pool : P := set_connecting ({[7%nat]} ∪ ∅) waiting_pool.
Definition w_locked : W := mkWorld locked_pool waiting_poll.2 [mkConnecting 7%nat true] [waiting_poll.1.1.2] [].

Lemma reach_empty : pool_reach cfg true w_empty.
Proof. apply reach_init. exists empty. split; reflexivity. Qed.

Lemma reach_idle : pool_reach cfg true w_idle.
Proof.
  eapply reach_step; [exact reach_empty|].
  exact (step_pooled_drop w_empty up [] 5 (mkPooled (Some (h1 1)) false 7%nat true) idle_pool.1 idle_pool.2 eq_refl).
Qed.

Lemma reach_waiting : pool_reach cfg true w_waiting.
Proof.
  eapply reach_step; [eapply reach_step; [exact reach_empty|exact (step_checkout w_empty 7%nat)]|].
  exact (step_poll (mkWorld empty ∅ [] [mkCheckout 7%nat None] []) [] (mkCheckout 7%nat None) [] up 1
           waiting_poll.1.1.1 waiting_poll.1.1.2 waiting_pool waiting_poll.2 eq_refl eq_refl).
Qed.

Lemma reach_locked : pool_reach cfg true w_locked.
Proof.
  eapply reach_step; [exact reach_waiting|].
  exact (step_connecting w_waiting 7%nat Http2 (mkConnecting 7%nat true) locked_pool eq_refl).
Qed.
End Example.

Section Props.
Context {K : Type} `{Countable K} {T : Type} `{Poolable T} {L : Type} {lru : Lru K (list (Idle T)) L}
  {laws : LruLaws K (list (Idle T)) L} {CS : Type} {os : Oneshot T CS} {osl : OneshotLaws T CS}.

(** In every state the pool can get into, a key with idle connections has
    at least one and at most [max_idle_per_host] of them. *)
Theorem pool_idle_bounded (cfg : Config) (timer : bool) (w : World (K := K) (L := L) (CS := CS)) k l :
  pool_reach cfg timer w -> lru_peek k (idle (w_pool w)) = Some l ->
  l <> [] /\ len l <= cfg_max_idle_per_host cfg.
Proof.
  intros Hr Hk. pose proof (pool_reach_inv cfg timer w Hr) as Hi.
  destruct (inv_config cfg w Hi) as [<- _]. now apply (proj2 (inv_idle cfg w Hi) k l).
Qed.

(** C9. No checkout is forgotten: in every reachable state, a checkout waits
    (its channel has neither a value nor lost its sender) exactly if its sender
    is in the queue of its key, where [put] and [connected] will find it. *)
Theorem pool_no_lost_waiter (cfg : Config) (timer : bool) (w : World (K := K) (L := L) (CS := CS)) c ch :
  pool_reach cfg timer w -> c ∈ w_checkouts w -> co_waiter c = Some ch ->
  rx_poll ch (w_chans w) = RxPending <->
    exists ws, waiters (w_pool w) !! co_key c = Some ws /\ ch ∈ ws.
Proof.
  intros Hr Hc Hch. pose proof (pool_reach_inv cfg timer w Hr) as Hi.
  pose proof (inv_waits cfg w Hi) as Hw. rewrite Forall_forall in Hw. specialize (Hw c Hc).
  unfold waits in Hw. rewrite Hch in Hw. destruct Hw as (x & Hx & _ & Hq). unfold rx_poll. rewrite Hx. split.
  - destruct (sent x); [easy|]. destruct (tx_alive x); [auto|easy].
  - intros (ws & Hws & Hin). destruct (proj1 (inv_waiters cfg w Hi) _ _ Hws) as (_ & _ & Hl).
    rewrite Forall_forall in Hl. destruct (Hl ch Hin) as (y & Hy & Ht & Hs). rewrite Hx in Hy. injection Hy as <-.
    now rewrite Hs, Ht.
Qed.

(** HTTP/2 connecting is exclusive: in every reachable state two tokens
    that hold a key's lock have different keys, and [connecting] refuses a
    third party exactly while such a token exists. *)
Theorem pool_connecting_exclusive (cfg : Config) (timer : bool) (w : World (K := K) (L := L) (CS := CS)) :
  pool_reach cfg timer w ->
  NoDup (locks (w_tokens w)) /\
  forall k, (pool_connecting k Http2 (Some (w_pool w))).1 = None <->
    exists t, t ∈ w_tokens w /\ con_pool t = true /\ con_key t = k.
Proof.
  intros Hr. destruct (inv_tokens cfg w (pool_reach_inv cfg timer w Hr)) as [Hnd Hin]. split; [easy|].
  intros k. cbn. transitivity (k ∈ connecting (w_pool w)); [case_bool_decide; naive_solver|].
  rewrite Hin. unfold locks. rewrite list_elem_of_fmap. setoid_rewrite list_elem_of_filter. naive_solver.
Qed.

(** The eviction task: its [expect] cannot fail, and after a tick the pool
    holds exactly the idle connections that were open and not expired, in the
    same order, and no empty list. *)
Theorem clear_expired_exact (cfg : Config) (timer : bool) (w : World (K := K) (L := L) (CS := CS)) is_open now :
  pool_reach cfg timer w -> idle_interval_ref (w_pool w) = true ->
  exists p', clear_expired is_open now (w_pool w) = Some p' /\ forall k,
    lru_peek k (idle p') =
      match lru_peek k (idle (w_pool w)) with
      | Some l => match List.filter (usable is_open (cfg_idle_timeout cfg) now) l with [] => None | l' => Some l' end
      | None => None
      end.
Proof.
  intros Hr Href. pose proof (pool_reach_inv cfg timer w Hr) as Hi.
  destruct (inv_timer cfg w Hi Href) as [d Hd]. destruct (inv_config cfg w Hi) as [_ Ht].
  assert (exists p', clear_expired is_open now (w_pool w) = Some p') as [p' Hp]
    by (unfold clear_expired; rewrite Hd; cbn; eauto).
  exists p'. split; [easy|]. rewrite <- Ht, Hd. now apply clear_expired_lookup.
Qed.

(** Where a connection that cannot be shared goes when it is put back: to
    the first checkout in the queue whose receiver still exists, and the idle
    lists are left alone; or, if there is none, onto the end of its idle list,
    unless that is full.  The queue keeps the waiters behind the one served. *)
Theorem put_unique_destination now k (v : T) (p : PoolInner K L) (cs : CS) :
  waiters_ok p cs -> can_share v = false -> reserve v = Unique v ->
  let p' := (put (fun _ => false) now k v p cs).1 in
  let cs' := (put (fun _ => false) now k v p cs).2 in
  let ws := default [] (waiters p !! k) in
  (exists dead ch rest, ws = dead ++ ch :: rest /\ Forall (fun x => tx_is_closed x cs = true) dead /\
     tx_is_closed ch cs = false /\ rx_poll ch cs' = RxReady v /\ idle p' = idle p /\
     waiters p' = store_waiters k rest (waiters p)) \/
  (Forall (fun x => tx_is_closed x cs = true) ws /\ waiters p' !! k = None /\
   let old := default [] (lru_peek k (idle p)) in
   lru_peek k (idle p') = Some (if max_idle_per_host p <=? len old then old else old ++ [mkIdle now v])).
Proof.
  intros Hq Hs Hv. cbn zeta. unfold put. rewrite Hs. cbn [andb].
  destruct (waiters p !! k) as [ws|] eqn:Hk; cbn [default from_option id].
  - destruct (proj1 Hq k ws Hk) as (_ & _ & Hl).
    destruct (offer_unique v ws cs Hv) as [(dead & ch & rest & cs' & -> & Hd & Ho & Hof & Hp)|(Hd & cs' & Hof)].
    { eapply Forall_impl; [exact Hl|]. apply live_some. }
    + left. exists dead, ch, rest. rewrite Hof. auto 10.
    + right. rewrite Hof. split; [easy|]. split; [|apply (store_idle_peek now k v (set_waiters (store_waiters k [] (waiters p)) p) cs')].
      destruct (_ <=? _); cbn [fst]; [|rewrite (proj1 (proj2 (spawn_idle_interval_fields _)))]; apply lookup_delete_eq.
  - right. split; [constructor|]. split; [|apply (store_idle_peek now k v p cs)].
    destruct (_ <=? _); cbn [fst]; [|rewrite (proj1 (proj2 (spawn_idle_interval_fields _)))]; exact Hk.
Qed.

(** What polling a checkout that does not wait yet gives: the newest idle
    connection of its key that is open and has not expired, with the newer
    ones thrown away and the older ones left; or, when there is none, the key's
    list is removed and the checkout is the last in the key's queue. *)
Theorem checkout_newest_usable is_open now k (p : PoolInner K L) (cs : CS) :
  let old := default [] (lru_peek k (idle p)) in
  match checkout_poll is_open now alone (mkCheckout k None) (Some p) cs with
  | (RVal x, _, Some p', _) =>
      exists older e newer, old = older ++ e :: newer /\ usable is_open (timeout p) now e = true /\
        Forall (fun y => usable is_open (timeout p) now y = false) newer /\ pl_is_reused x = true /\
        match reserve (idle_value e) with
        | Shared keep out => pl_value x = Some out /\ lru_peek k (idle p') = Some (older ++ [mkIdle now keep])
        | Unique out => pl_value x = Some out /\
            lru_peek k (idle p') = match older with [] => None | _ => Some older end
        end
  | (RPending, c', Some p', cs') =>
      Forall (fun y => usable is_open (timeout p) now y = false) old /\ lru_peek k (idle p') = None /\
      exists ch, co_waiter c' = Some ch /\ chan cs ch = None /\ rx_poll ch cs' = RxPending /\
        waiters p' !! k = Some (default [] (waiters p !! k) ++ [ch])
  | _ => False
  end.
Proof.
  cbn zeta. unfold checkout_poll, poll_waiter, checkout. cbn [co_waiter co_key].
  pose proof (take_idle_entry is_open now k p) as He.
  destruct (take_idle is_open now k p) as [[e|] l]; cbn [fst snd] in *.
  - destruct He as (older & e0 & newer & El & Hn & Hu & Hr). exists older, e0, newer.
    cbn [idle set_idle]. destruct (reserve (idle_value e0)) as [a b|u]; destruct Hr as [<- Hl]; repeat split; auto.
  - pose proof (new_fresh cs) as Hf. pose proof (new_eq cs) as Hnew. destruct (chan_new cs) as [ch cs'].
    cbn [fst snd alone] in *. unfold rx_poll at 1. rewrite Hnew. cbn.
    destruct He as [Hd Hs]. split; [exact Hd|]. split; [exact Hs|].
    exists ch. unfold rx_poll. rewrite Hnew, lookup_insert_eq. auto.
Qed.

(** The first poll of a waiter's receiver is asserted to be pending, but it
    happens after the pool's lock was released.  Whenever a checkout finds no
    usable idle connection and no other checkout waits for its key, and another
    task puts a connection back for that key in between, the assertion fails:
    the checkout panics and the connection it was given is lost. *)
Theorem checkout_race_panics is_open now now' k (v : T) (p : PoolInner K L) (cs : CS) :
  can_share v = false -> reserve v = Unique v -> waiters p !! k = None ->
  Forall (fun y => usable is_open (timeout p) now y = false) (default [] (lru_peek k (idle p))) ->
  (checkout_poll is_open now (put (fun _ => false) now' k v) (mkCheckout k None) (Some p) cs).1.1.1 = RPanic.
Proof.
  intros Hsh Hv Hw Hd. unfold checkout_poll, poll_waiter, checkout. cbn [co_waiter co_key].
  pose proof (take_idle_entry is_open now k p) as He.
  destruct (take_idle is_open now k p) as [[e|] l]; cbn [fst snd] in *.
  { destruct He as (older & e0 & newer & El & _ & Hu & _). rewrite El in Hd.
    apply Forall_app in Hd as [_ Hd]. apply Forall_cons in Hd as [Hd _]. congruence. }
  pose proof (new_eq cs) as Hnew. destruct (chan_new cs) as [ch cs']. cbn [fst snd] in Hnew.
  unfold put. rewrite Hsh. cbn [andb waiters set_waiters set_idle]. rewrite lookup_insert_eq, Hw. cbn [default from_option id app].
  destruct (offer_unique v [ch] cs' Hv) as [(dead & x & rest & cs2 & El & _ & _ & -> & Hp)|(Hc & _)].
  - constructor; [eauto|constructor].
  - destruct dead as [|y [|? ?]]; [|discriminate El|discriminate El]. injection El as <- <-. now rewrite Hp.
  - exfalso. inversion Hc as [|? ? Hx]. unfold tx_is_closed in Hx. now rewrite Hnew in Hx.
Qed.

(** C39. When an HTTP/2 connection is established (and reserving a shared
    connection gives shared ones) the caller gets it, the key's lock is free and every
    checkout that waited for the key has its answer.  If the pool has connections for
    the key already, it keeps those and the checkouts that waited are told to give up.
    Otherwise, each of them gets a share of the new connection and the pool keeps
    one, behind the others of the key, unless the key has as many as it may.  In
    either case the pool then has a connection for the key. *)
Theorem pooled_shared_resolves (cfg : Config) (timer : bool) (w : World (K := K) (L := L) (CS := CS)) now t (v a b : T) :
  (forall x a b : T, reserve x = Shared a b ->
     (exists c d, reserve a = Shared c d) /\ exists c d, reserve b = Shared c d) ->
  pool_reach cfg timer w -> reserve v = Shared a b ->
  let key := con_key t in
  let pending c ch := c ∈ w_checkouts w /\ co_key c = key /\ co_waiter c = Some ch /\ rx_poll ch (w_chans w) = RxPending in
  match pooled (fun _ => false) now t v (Some (w_pool w)) (w_chans w) with
  | (x, t', Some p', cs') =>
      pl_value x = Some b /\ con_pool t' = false /\ (key ∉ connecting p') /\ waiters p' !! key = None /\
      (forall c ch, c ∈ w_checkouts w -> co_key c = key -> co_waiter c = Some ch -> rx_poll ch cs' <> RxPending) /\
      (exists e l, lru_peek key (idle p') = Some (e :: l)) /\
      if can_share a && bool_decide (is_Some (lru_peek key (idle (w_pool w)))) then
        idle p' = idle (w_pool w) /\ forall c ch, pending c ch -> rx_poll ch cs' = RxCanceled
      else
        let old := default [] (lru_peek key (idle (w_pool w))) in
        (exists u, shares a u /\
           lru_peek key (idle p') = Some (if cfg_max_idle_per_host cfg <=? len old then old else old ++ [mkIdle now u])) /\
        forall c ch, pending c ch -> exists u, shares a u /\ rx_poll ch cs' = RxReady u
  | _ => False
  end.
Proof.
  intros Hsh Hr Hv key pending. pose proof (pool_reach_inv cfg timer w Hr) as Hi. unfold pooled. rewrite Hv. fold key.
  pose proof (put_keeps (fun _ => false) now key a (w_pool w) (w_chans w)) as Hk.
  pose proof (put_shared now key a (w_pool w) (w_chans w) Hsh (proj1 (Hsh v a b Hv)) (inv_waiters cfg w Hi)) as Hid.
  destruct (put _ now key a (w_pool w) (w_chans w)) as [p1 cs1]. cbn [fst snd] in *.
  pose proof (connected_keeps (fun _ => false) key p1 cs1) as Hk2.
  pose proof (keeps_trans _ _ _ _ _ _ _ Hk Hk2) as Hk3. clear Hk Hk2. unfold connected in *. cbn [fst snd] in Hk3.
  rewrite (proj1 (inv_config cfg w Hi)) in Hid. destruct (inv_idle cfg w Hi) as [Hmax Hio]. rewrite (proj1 (inv_config cfg w Hi)) in Hmax, Hio.
  assert (Hpend : forall c ch, pending c ch -> exists ws x, waiters (w_pool w) !! key = Some ws /\ NoDup ws /\ ch ∈ ws /\
    chan (w_chans w) ch = Some x /\ rx_alive x = true /\ sent x = None).
  { intros c ch (Hc & Hkey & Hch & Hp). pose proof (inv_waits cfg w Hi) as Hws. rewrite Forall_forall in Hws. specialize (Hws c Hc).
    unfold waits in Hws. rewrite Hch in Hws. destruct Hws as (x & Hx & Hal & Hq). unfold rx_poll in Hp. rewrite Hx in Hp.
    destruct (sent x) eqn:Es; [easy|]. destruct (tx_alive x); [|easy]. destruct (Hq eq_refl) as (ws & Hws & Hin). rewrite Hkey in Hws.
    exists ws, x. repeat split; auto. apply (proj1 (inv_waiters cfg w Hi) key ws Hws). }
  cbn [con_pool pl_value connecting waiters set_waiters set_connecting idle] in Hk3 |- *.
  split; [easy|]. split; [easy|]. split; [set_solver|]. split; [apply lookup_delete_eq|]. split.
  { intros c ch Hc Hkey Hch Hp. pose proof (inv_waits cfg w Hi) as Hws. rewrite Forall_forall in Hws.
    pose proof (keeps_waits _ _ _ _ _ Hk3 (inv_waiters cfg w Hi) c (Hws c Hc) (untouched_none c)) as Hw.
    unfold waits in Hw. rewrite Hch in Hw. destruct Hw as (x & Hx & _ & Hq). unfold rx_poll in Hp. rewrite Hx in Hp.
    destruct (sent x); [easy|]. destruct (tx_alive x); [|easy]. destruct (Hq eq_refl) as (ws & Hws' & _).
    cbn in Hws'. now rewrite Hkey, lookup_delete_eq in Hws'. }
  destruct (can_share a && _) eqn:Eb.
  - destruct Hid as [-> ->]. apply andb_true_iff in Eb as [_ Eb]. apply bool_decide_eq_true in Eb as [l El]. split.
    + destruct (Hio key l El) as [Hne _]. rewrite El. destruct l as [|e l]; [easy|eauto].
    + split; [easy|]. intros c ch Hp. destruct (Hpend c ch Hp) as (ws & x & Hws & Hnd & Hin & Hx & _ & Hs). rewrite Hws. cbn [default from_option id].
      unfold rx_poll. now rewrite (tx_drop_all_chan ws ch (w_chans w) x Hnd Hin Hx), Hs.
  - destruct Hid as (u & Hu & Hnone & Hpk & Hgot). rewrite Hnone. cbn [default from_option id tx_drop_all foldr]. split.
    + rewrite Hpk. destruct (Z.leb_spec (cfg_max_idle_per_host cfg) (len (default [] (lru_peek key (idle (w_pool w)))))) as [Hle|].
      * destruct (default [] (lru_peek key (idle (w_pool w)))) as [|e l]; [unfold len in Hle; cbn [length Z.of_nat] in Hle; lia|eauto].
      * destruct (default [] (lru_peek key (idle (w_pool w)))) as [|e l]; cbn; eauto.
    + split; [eauto|]. intros c ch Hp. destruct (Hpend c ch Hp) as (ws & x & Hws & _ & Hin & Hx & Hal & _). now apply (Hgot ws ch x).
Qed.
End Props.

(** ** Witnesses *)

Section Witnesses.
Import RefLru RefOneshot PoolClient Example.

Lemma pool_idle_bounded_witness :
  [mkIdle 5 (h1 1)] <> [] /\ len [mkIdle 5 (h1 1)] <= cfg_max_idle_per_host cfg.
Proof. apply (pool_idle_bounded cfg true w_idle 7%nat); [exact reach_idle|reflexivity]. Defined.

Lemma pool_no_lost_waiter_witness :
  rx_poll 0%nat (w_chans w_waiting) = RxPending <->
    exists ws, waiters (w_pool w_waiting) !! 7%nat = Some ws /\ 0%nat ∈ ws.
Proof.
  apply (pool_no_lost_waiter cfg true w_waiting (mkCheckout 7%nat (Some 0%nat)) 0%nat); [exact reach_waiting| |reflexivity].
  apply list_elem_of_here.
Defined.

Lemma pool_connecting_exclusive_witness :
  NoDup (locks (w_tokens w_locked)) /\
  forall k, (pool_connecting k Http2 (Some (w_pool w_locked))).1 = None <->
    exists t, t ∈ w_tokens w_locked /\ con_pool t = true /\ con_key t = k.
Proof. apply (pool_connecting_exclusive cfg true w_locked). exact reach_locked. Defined.

(** The connection idle since 5 is gone at 100, with a timeout of 90. *)
Lemma clear_expired_exact_witness :
  exists p', clear_expired up 100 (w_pool w_idle) = Some p' /\ forall k,
    lru_peek k (idle p') =
      match lru_peek k (idle (w_pool w_idle)) with
      | Some l => match List.filter (usable up (cfg_idle_timeout cfg) 100) l with [] => None | l' => Some l' end
      | None => None
      end.
Proof. apply (clear_expired_exact cfg true w_idle up 100); [exact reach_idle|reflexivity]. Defined.

Lemma put_unique_destination_witness :
  waiters (put (fun _ => false) 9 7%nat (h1 2) (w_pool w_waiting) (w_chans w_waiting)).1 = ∅ /\
  (exists dead ch rest, [0%nat] = dead ++ ch :: rest /\
     Forall (fun x => tx_is_closed x (w_chans w_waiting) = true) dead /\
     tx_is_closed ch (w_chans w_waiting) = false /\
     rx_poll ch (put (fun _ => false) 9 7%nat (h1 2) (w_pool w_waiting) (w_chans w_waiting)).2 = RxReady (h1 2) /\
     idle (put (fun _ => false) 9 7%nat (h1 2) (w_pool w_waiting) (w_chans w_waiting)).1 = idle (w_pool w_waiting) /\
     waiters (put (fun _ => false) 9 7%nat (h1 2) (w_pool w_waiting) (w_chans w_waiting)).1 =
       store_waiters 7%nat rest (waiters (w_pool w_waiting))).
Proof.
  split; [reflexivity|].
  destruct (put_unique_destination 9 7%nat (h1 2) (w_pool w_waiting) (w_chans w_waiting)) as [Hd|[Hd _]].
  - exact (inv_waiters cfg w_waiting (pool_reach_inv cfg true w_waiting reach_waiting)).
  - reflexivity.
  - reflexivity.
  - exact Hd.
  - exfalso. inversion Hd as [|? ? E]. discriminate E.
Defined.

Lemma checkout_newest_usable_witness :
  (checkout_poll up 20 alone (mkCheckout 7%nat None) (Some idle_pool.1) idle_pool.2).1.1.1 = RVal (reuse 7%nat (h1 1) true) /\
  exists older e newer, [mkIdle 5 (h1 1)] = older ++ e :: newer /\ usable up (Some 90) 20 e = true /\
    Forall (fun y => usable up (Some 90) 20 y = false) newer.
Proof.
  split; [reflexivity|].
  destruct (checkout_newest_usable up 20 7%nat idle_pool.1 idle_pool.2) as (older & e & newer & El & Hu & Hn & _).
  exists older, e, newer. split; [exact El|]. split; [exact Hu|exact Hn].
Defined.

Lemma checkout_race_panics_witness :
  (checkout_poll up 1 (put (fun _ => false) 2 7%nat (h1 2)) (mkCheckout 7%nat None) (Some empty) (∅ : S)).1.1.1 = RPanic.
Proof.
  apply (checkout_race_panics up 1 2 7%nat (h1 2) empty (∅ : S)); [reflexivity|reflexivity|reflexivity|constructor].
Defined.

(** The one checkout that waits gets the connection, the pool keeps it. *)
Lemma pooled_shared_resolves_witness :
  match pooled (fun _ => false) 9 (mkConnecting 7%nat true) (h2 3) (Some (w_pool w_locked)) (w_chans w_locked) with
  | (x, t', Some p', cs') =>
      pl_value x = Some (h2 3) /\ (7%nat ∉ connecting p') /\ waiters p' !! 7%nat = None /\
      (exists u, shares (h2 3) u /\ lru_peek 7%nat (idle p') = Some [mkIdle 9 u]) /\ exists u, shares (h2 3) u /\ rx_poll 0%nat cs' = RxReady u
  | _ => False
  end.
Proof.
  pose proof (pooled_shared_resolves cfg true w_locked 9 (mkConnecting 7%nat true) (h2 3) (h2 3) (h2 3)) as Hp.
  assert (Hs : forall x a b : Conn, reserve x = Shared a b -> (exists c d, reserve a = Shared c d) /\ exists c d, reserve b = Shared c d).
  { intros [i [n|n]] a b E; [discriminate E|]. injection E as <- <-. split; eexists; eexists; reflexivity. }
  specialize (Hp Hs reach_locked eq_refl). cbv zeta in Hp.
  destruct (pooled _ 9 (mkConnecting 7%nat true) (h2 3) (Some (w_pool w_locked)) (w_chans w_locked)) as [[[x t'] [p'|]] cs']; [|exact Hp].
  destruct Hp as (Hx & _ & Hc & Hw & _ & _ & Hrest). split; [exact Hx|]. split; [exact Hc|]. split; [exact Hw|].
  change (can_share (h2 3) && bool_decide (is_Some (lru_peek 7%nat (idle (w_pool w_locked))))) with false in Hrest. cbv iota in Hrest.
  destruct Hrest as [(u & Hu & Hpk) Hall]. split; [exists u; split; [exact Hu|exact Hpk]|].
  apply (Hall (mkCheckout 7%nat (Some 0%nat)) 0%nat). split; [left|]. split; [reflexivity|]. split; reflexivity.
Defined.
End Witnesses.
