(* ===== verification/Incoming.v ===== *)
(** * Bodies of responses (src/src/core/body/incoming.rs, src/src/core/common/watch.rs)

    A response body is read by the user from an [Incoming] and filled by the
    connection's task through a [Sender].  The two ends share a data queue, a
    oneshot channel for the trailers and a [watch] cell by which the reader says
    that it wants data.  The shared objects are in a store; the ends hold their
    names.  The HTTP/2 kind of body, a stream of the http2 crate, is in H2.v. *)

From S2P Require Import Prelude Http Oneshot Decode Error.

(** ** The data queue, as an interface *)

(** [mpsc::channel(0)] of futures-channel: a queue whose sender is parked after
    each message until the receiver takes it. *)
Class FMpsc (A FS : Type) := {
  fm_new : FS -> (nat * nat) * FS;                       (* sender, receiver *)
  fm_poll_ready : nat -> FS -> poll_res unit unit * FS;  (* [RErr]: disconnected *)
  fm_try_send : nat -> A -> FS -> option A * FS;         (* the message, if refused *)
  fm_clone : nat -> FS -> nat * FS;
  fm_drop_tx : nat -> FS -> FS;
  fm_poll_next : nat -> FS -> poll_res unit (option A) * FS;
  fm_is_terminated : nat -> FS -> bool;
  fm_drop_rx : nat -> FS -> FS
}.

Class FMpscLaws (A FS : Type) {fm : FMpsc A FS} := {
  (* what is refused is what was to be sent *)
  fm_refused tx a fs b : (fm_try_send tx a fs).1 = Some b -> b = a;
  fm_ready_total tx fs : (fm_poll_ready tx fs).1 <> RPanic /\ (fm_poll_ready tx fs).1 <> RFuel
}.

Module Watch.
Definition CLOSED : Z := 0.

(** The cells; a cell is shared by its two ends. *)
Abbreviation Cells := (gmap nat Z).
Definition watch_channel (initial : Z) (ws : Cells) : nat * Cells :=
  let w := fresh (dom ws) in (w, <[w := initial]> ws).
Definition watch_send (w : nat) (value : Z) (ws : Cells) : Cells := <[w := value]> ws.
Definition watch_drop (w : nat) (ws : Cells) : Cells := watch_send w CLOSED ws.
Definition watch_load (w : nat) (ws : Cells) : Z := default CLOSED (ws !! w).
End Watch.

Module Incoming.
Import Error.

Definition WANT_PENDING : Z := 1.
Definition WANT_READY : Z := 2.

Section Incoming.
Context `{HttpCrate} {FS : Type} {fm : FMpsc (result bytes Error) FS} {OS : Type} {os : Oneshot HeaderMap OS}.

Record BStore := mkBStore { bs_watch : Watch.Cells; bs_data : FS; bs_trailers : OS }.

Inductive Kind :=
| Empty
| Chan (content_length : DecodedLength.DecodedLength) (want_tx : nat) (data_rx : nat) (trailers_rx : nat).
Record Incoming := mkIncoming { kind : Kind }.

Record Sender := mkSender { want_rx : nat; data_tx : nat; trailers_tx : option nat }.

Definition new_channel (content_length : DecodedLength.DecodedLength) (wanter : bool) (s : BStore)
  : Sender * Incoming * BStore :=
  let '((tx, rx), fs) := fm_new (bs_data s) in
  let '(tr, ts) := chan_new (bs_trailers s) in
  let want := if wanter then WANT_PENDING else WANT_READY in
  let '(w, ws) := Watch.watch_channel want (bs_watch s) in
  (mkSender w tx (Some tr), mkIncoming (Chan content_length w rx tr), mkBStore ws fs ts).

Definition empty : Incoming := mkIncoming Empty.

(** *** The reader *)

(** [RVal None] is the end of the body, [RErr e] is [Ready(Some(Err(e)))]. *)
Definition poll_frame (i : Incoming) (s : BStore)
  : poll_res Error (option (Decode.Frame HeaderMap)) * Incoming * BStore :=
  match kind i with
  | Empty => (RVal None, i, s)
  | Chan l w rx tr =>
      let s := mkBStore (Watch.watch_send w WANT_READY (bs_watch s)) (bs_data s) (bs_trailers s) in
      let trailers (s : BStore) :=
        match rx_poll tr (bs_trailers s) with
        | RxReady t => (RVal (Some (Decode.FTrailers t)), i, mkBStore (bs_watch s) (bs_data s) (rx_take tr (bs_trailers s)))
        | RxCanceled => (RVal None, i, s)
        | RxPending => (RPending, i, s)
        end in
      if negb (fm_is_terminated rx (bs_data s)) then
        let '(r, fs) := fm_poll_next rx (bs_data s) in
        let s := mkBStore (bs_watch s) fs (bs_trailers s) in
        match r with
        | RVal (Some (Ok chunk)) =>
            (RVal (Some (Decode.FData chunk)), mkIncoming (Chan (DecodedLength.sub_if (len chunk) l) w rx tr), s)
        | RVal (Some (Err e)) => (RErr e, i, s)
        | RVal None => trailers s
        | RPending => (RPending, i, s)
        | RErr _ | RPanic => (RPanic, i, s)
        | RFuel => (RFuel, i, s)
        end
      else trailers s
  end.

Definition is_end_stream (i : Incoming) : bool :=
  match kind i with
  | Empty => true
  | Chan l _ _ _ => bool_decide (l = DecodedLength.ZERO)
  end.

(** The exact size, when there is one. *)
Definition size_hint (i : Incoming) : option Z :=
  match kind i with
  | Empty => Some 0
  | Chan l _ _ _ => DecodedLength.into_opt l
  end.

(** Dropping the reader drops its ends of the three objects. *)
Definition incoming_drop (i : Incoming) (s : BStore) : BStore :=
  match kind i with
  | Empty => s
  | Chan _ w rx tr =>
      mkBStore (Watch.watch_drop w (bs_watch s)) (fm_drop_rx rx (bs_data s)) (rx_drop tr (bs_trailers s))
  end.

(** *** The sender *)

Definition poll_want (tx : Sender) (s : BStore) : poll_res Error unit :=
  let v := Watch.watch_load (want_rx tx) (bs_watch s) in
  if v =? WANT_READY then RVal tt
  else if v =? WANT_PENDING then RPending
  else if v =? Watch.CLOSED then RErr new_closed
  else RPanic. (* unreachable! *)

Definition poll_ready (tx : Sender) (s : BStore) : poll_res Error unit * BStore :=
  match poll_want tx s with
  | RVal _ =>
      let '(r, fs) := fm_poll_ready (data_tx tx) (bs_data s) in
      (match r with
       | RVal _ => RVal tt | RErr _ => RErr new_closed | RPending => RPending | RPanic => RPanic | RFuel => RFuel
       end, mkBStore (bs_watch s) fs (bs_trailers s))
  | r => (r, s)
  end.

(** The outer [None] is the [expect]. *)
Definition try_send_data (chunk : bytes) (tx : Sender) (s : BStore) : option (result unit bytes * BStore) :=
  let '(back, fs) := fm_try_send (data_tx tx) (Ok chunk) (bs_data s) in
  let s := mkBStore (bs_watch s) fs (bs_trailers s) in
  match back with
  | None => Some (Ok tt, s)
  | Some (Ok chunk) => Some (Err chunk, s)
  | Some (Err _) => None
  end.

Definition try_send_trailers (trailers : HeaderMap) (tx : Sender) (s : BStore)
  : result unit (option HeaderMap) * Sender * BStore :=
  match trailers_tx tx with
  | None => (Err None, tx, s)
  | Some tr =>
      let '(back, ts) := tx_send tr trailers false (bs_trailers s) in
      (match back with None => Ok tt | Some t => Err (Some t) end,
       mkSender (want_rx tx) (data_tx tx) None, mkBStore (bs_watch s) (bs_data s) ts)
  end.

Definition send_error (err : Error) (tx : Sender) (s : BStore) : BStore :=
  let '(clone, fs) := fm_clone (data_tx tx) (bs_data s) in
  let '(_, fs) := fm_try_send clone (Err err) fs in
  mkBStore (bs_watch s) (fm_drop_tx clone fs) (bs_trailers s).

(** Dropping the sender ends the data and, if they were not sent, the trailers. *)
Definition sender_drop (tx : Sender) (s : BStore) : BStore :=
  mkBStore (bs_watch s) (fm_drop_tx (data_tx tx) (bs_data s))
    (match trailers_tx tx with Some tr => tx_drop tr (bs_trailers s) | None => bs_trailers s end).
End Incoming.
End Incoming.
