(* ===== verification/Dispatch.v ===== *)
(** * The request channel and the client side of the dispatcher
      (src/src/core/client/dispatch.rs, src/src/core/proto/h1/dispatch.rs: [Client])

    Callers send requests to a connection's task over a queue; each request
    carries a [Callback], the sending end of a oneshot channel on which the
    caller waits for the response.  Values with destructors are consumed exactly
    once in Rust; here [callback_drop], [envelope_drop] and [receiver_drop] are
    called where the program drops them. *)

From S2P Require Import Prelude Oneshot Decode Error.
Import Error.

(** ** The queue and the demand signal, as interfaces *)

(** tokio's unbounded [mpsc] channel. *)
Class Mpsc (A M : Type) := {
  mp_queue : M -> list A;
  mp_open : M -> bool;            (* the receiver takes more messages *)
  mp_new : M;
  mp_send : A -> M -> option A * M;
  mp_recv : bool -> M -> option (option A) * M;  (* the boolean: some sender exists *)
  mp_close : M -> M;
  mp_drop_rx : M -> list A * M    (* dropping the receiver drops what is queued *)
}.

Class MpscLaws (A M : Type) {mp : Mpsc A M} := {
  new_queue : mp_queue mp_new = [];
  send_open a m : mp_open m = true ->
    (mp_send a m).1 = None /\ mp_queue (mp_send a m).2 = mp_queue m ++ [a] /\ mp_open (mp_send a m).2 = true;
  send_closed a m : mp_open m = false -> (mp_send a m).1 = Some a /\ mp_queue (mp_send a m).2 = mp_queue m;
  send_stays a m : mp_open m = false -> mp_open (mp_send a m).2 = false;
  recv_msg_head b a l m : mp_queue m = a :: l -> (mp_recv b m).1 = Some (Some a) /\ mp_queue (mp_recv b m).2 = l;
  recv_empty b m : mp_queue m = [] ->
    (mp_recv b m).1 = (if b && mp_open m then None else Some None) /\ mp_queue (mp_recv b m).2 = [];
  close_queue m : mp_queue (mp_close m) = mp_queue m /\ mp_open (mp_close m) = false;
  drop_queue m : (mp_drop_rx m).1 = mp_queue m /\ mp_queue (mp_drop_rx m).2 = [] /\ mp_open (mp_drop_rx m).2 = false
}.

(** The [want] crate: the receiver signals that it wants a message. *)
Class Want (G : Type) := {
  wanting : G -> bool;
  canceled : G -> bool;
  want_new : G;
  give : G -> bool * G;
  want : G -> G;
  cancel : G -> G
}.

Class WantLaws (G : Type) {wt : Want G} := {
  want_new_idle : wanting want_new = false /\ canceled want_new = false;
  give_wanting g : (give g).1 = wanting g /\ wanting (give g).2 = false /\ canceled (give g).2 = canceled g;
  want_wants g : canceled (want g) = canceled g /\ (wanting (want g) = true -> canceled g = false);
  cancel_canceled g : wanting (cancel g) = false /\ canceled (cancel g) = true
}.

Module Dispatch.

Record TrySendError (T : Type) := mkTrySendError { tse_error : Error; tse_message : option T }.
Arguments mkTrySendError {T} _ _.
Arguments tse_error {T} _.
Arguments tse_message {T} _.

(** What travels on a callback's channel, by the kind of callback. *)
Inductive Answer (T U : Type) :=
| AnsRetry (r : result U (TrySendError T))
| AnsNoRetry (r : result U Error).
Arguments AnsRetry {T U} _.
Arguments AnsNoRetry {T U} _.

Inductive Callback := Retry (tx : option nat) | NoRetry (tx : option nat).

(** [Envelope(Option<(T, Callback)>)] *)
Abbreviation Envelope T := (option (T * Callback)).

Section Dispatch.
Context {T U CS : Type} {os : Oneshot (Answer T U) CS} {M : Type} {mp : Mpsc (Envelope T) M} {G : Type} {wt : Want G}.

(** ** [Callback] *)

(** The text depends on whether the thread is panicking. *)
Definition dispatch_gone (panicking : bool) : Error :=
  with_cause (CauseText (if panicking then "user code panicked" else "runtime dropped the dispatch task"))
    new_user_dispatch_gone.

(** The outer [None] is [unreachable!] or the [unwrap] of a used callback. *)
Definition is_canceled (cb : Callback) (cs : CS) : option bool :=
  match cb with
  | Retry (Some tx) | NoRetry (Some tx) => Some (tx_is_closed tx cs)
  | _ => None
  end.

Definition callback_send (cb : Callback) (val : result U (TrySendError T)) (cs : CS) : option CS :=
  match cb with
  | Retry (Some tx) => Some (tx_send tx (AnsRetry val) false cs).2
  | NoRetry (Some tx) =>
      Some (tx_send tx (AnsNoRetry (match val with Ok u => Ok u | Err e => Err (tse_error e) end)) false cs).2
  | _ => None
  end.

(** [Drop for Callback] *)
Definition callback_drop (panicking : bool) (cb : Callback) (cs : CS) : CS :=
  match cb with
  | Retry (Some tx) =>
      (tx_send tx (AnsRetry (Err (mkTrySendError (dispatch_gone panicking) None))) false cs).2
  | NoRetry (Some tx) => (tx_send tx (AnsNoRetry (Err (dispatch_gone panicking))) false cs).2
  | _ => cs
  end.

(** [Drop for Envelope] *)
Definition envelope_drop (env : Envelope T) (cs : CS) : option CS :=
  match env with
  | Some (val, cb) =>
      callback_send cb
        (Err (mkTrySendError (with_cause (CauseText "connection closed") new_canceled) (Some val))) cs
  | None => Some cs
  end.

Fixpoint envelopes_drop (l : list (Envelope T)) (cs : CS) : option CS :=
  match l with
  | [] => Some cs
  | env :: l' => cs ← envelope_drop env cs; envelopes_drop l' cs
  end.

(** ** [Sender] and [UnboundedSender] *)

Record Sender := mkSender { buffered_once : bool }.

(** The queue and the demand signal the two ends share. *)
Record Shared := mkShared { sh_inner : M; sh_want : G }.

Definition channel : Sender * Shared := (mkSender false, mkShared mp_new want_new).

Definition poll_ready_sender (g : G) : poll_res Error unit :=
  if canceled g then RErr new_closed else if wanting g then RVal tt else RPending.
Definition is_ready_sender (g : G) : bool := wanting g.

Definition can_send (s : Sender) (g : G) : bool * Sender * G :=
  let '(given, g) := give g in
  if given || negb (buffered_once s) then (true, mkSender true, g) else (false, s, g).

(** The part the two senders share: [Ok] has the promise, [Err] the message
    back.  The receiver and then the callback of a refused message are dropped;
    the outer [None] is the [expect]. *)
Definition enqueue (val : T) (m : M) (cs : CS) : option (result nat T * M * CS) :=
  let '(ch, cs) := chan_new cs in
  match mp_send (Some (val, Retry (Some ch))) m with
  | (None, m) => Some (Ok ch, m, cs)
  | (Some env, m) =>
      '(val, cb) ← env;
      Some (Err val, m, callback_drop false cb (rx_drop ch cs))
  end.

Definition try_send (val : T) (s : Sender) (sh : Shared) (cs : CS)
  : option (result nat T * Sender * Shared * CS) :=
  let '(ok, s, g) := can_send s (sh_want sh) in
  if negb ok then Some (Err val, s, mkShared (sh_inner sh) g, cs)
  else
    '(r, m, cs) ← enqueue val (sh_inner sh) cs;
    Some (r, s, mkShared m g, cs).

Definition unbounded_is_ready (g : G) : bool := negb (canceled g).
Definition unbounded_is_closed (g : G) : bool := canceled g.
Definition unbounded_try_send (val : T) (sh : Shared) (cs : CS) : option (result nat T * Shared * CS) :=
  '(r, m, cs) ← enqueue val (sh_inner sh) cs;
  Some (r, mkShared m (sh_want sh), cs).

(** ** [Receiver]; [senders] tells whether a sending handle is left *)

(** [poll_recv]: the outer [None] is the [expect]. *)
Definition poll_recv (senders : bool) (sh : Shared)
  : option (poll_res Error (option (T * Callback))) * Shared :=
  match mp_recv senders (sh_inner sh) with
  | (Some (Some (Some item)), m) => (Some (RVal (Some item)), mkShared m (sh_want sh))
  | (Some (Some None), m) => (None, mkShared m (sh_want sh))
  | (Some None, m) => (Some (RVal None), mkShared m (sh_want sh))
  | (None, m) => (Some RPending, mkShared m (want (sh_want sh)))
  end.

Definition receiver_close (sh : Shared) : Shared :=
  mkShared (mp_close (sh_inner sh)) (cancel (sh_want sh)).

Definition try_recv (senders : bool) (sh : Shared) : option (T * Callback) * Shared :=
  match mp_recv senders (sh_inner sh) with
  | (Some (Some env), m) => (env, mkShared m (sh_want sh))
  | (_, m) => (None, mkShared m (sh_want sh))
  end.

(** [Drop for Receiver], and the drop of the queue behind it. *)
Definition receiver_drop (sh : Shared) (cs : CS) : option (Shared * CS) :=
  let '(l, m) := mp_drop_rx (sh_inner sh) in
  cs ← envelopes_drop l cs;
  Some (mkShared m (cancel (sh_want sh)), cs).

(** ** [SendWhen]: an HTTP/2 response is awaited for a callback *)

(** [poll] of the future, given what polling the response gave.  The outer
    [None] is the [expect] on a future that completed before; a callback whose
    caller went away is dropped. *)
Definition send_when_poll (when_ : poll_res (Error * option T) U) (call_back : option Callback) (cs : CS)
  : option (poll_res Error unit * option Callback * CS) :=
  call_back ← call_back;
  match when_ with
  | RVal res => cs ← callback_send call_back (Ok res) cs; Some (RVal tt, None, cs)
  | RErr (error, message) =>
      cs ← callback_send call_back (Err (mkTrySendError error message)) cs; Some (RVal tt, None, cs)
  | RPending =>
      gone ← is_canceled call_back cs;
      if (gone : bool) then Some (RVal tt, None, callback_drop false call_back cs)
      else Some (RPending, Some call_back, cs)
  | _ => None
  end.

(** ** [Client], the dispatcher's view *)

Record Client := mkClient { callback : option Callback; rx_closed : bool }.
Definition client_new : Client := mkClient None false.

(** [poll_msg]: the inner option is [Ready(None)]; the error type is
    [Infallible].  A request whose caller went away is dropped with its callback. *)
Definition poll_msg (senders : bool) (c : Client) (sh : Shared) (cs : CS)
  : option (poll_res Empty_set (option T) * Client * Shared * CS) :=
  match poll_recv senders sh with
  | (Some (RVal (Some (req, cb))), sh) =>
      gone ← is_canceled cb cs;
      if (gone : bool) then Some (RVal None, c, sh, callback_drop false cb cs)
      else
        (* the old callback, if there were one, would be dropped *)
        let cs := match callback c with Some old => callback_drop false old cs | None => cs end in
        Some (RVal (Some req), mkClient (Some cb) (rx_closed c), sh, cs)
  | (Some (RVal None), sh) => Some (RVal None, mkClient (callback c) true, sh, cs)
  | (Some _, sh) => Some (RPending, c, sh, cs)
  | (None, _) => None
  end.

Definition recv_msg (senders : bool) (msg : result U Error) (c : Client) (sh : Shared) (cs : CS)
  : option (result unit Error * Client * Shared * CS) :=
  match msg with
  | Ok res =>
      match callback c with
      | Some cb =>
          cs ← callback_send cb (Ok res) cs;
          Some (Ok tt, mkClient None (rx_closed c), sh, cs)
      | None => Some (Err new_unexpected_message, c, sh, cs)
      end
  | Err err =>
      match callback c with
      | Some cb =>
          cs ← callback_send cb (Err (mkTrySendError err None)) cs;
          Some (Ok tt, mkClient None (rx_closed c), sh, cs)
      | None =>
          if negb (rx_closed c) then
            match try_recv senders (receiver_close sh) with
            | (Some (req, cb), sh) =>
                cs ← callback_send cb
                  (Err (mkTrySendError (with_cause (CauseError (kind err)) new_canceled) (Some req))) cs;
                Some (Ok tt, c, sh, cs)
            | (None, sh) => Some (Err err, c, sh, cs)
            end
          else Some (Err err, c, sh, cs)
      end
  end.

(** [poll_ready]: [Err(())] tells the dispatcher to stop. *)
Definition poll_ready (c : Client) (cs : CS) : option (result unit unit) :=
  match callback c with
  | Some cb => gone ← is_canceled cb cs; Some (if (gone : bool) then Err tt else Ok tt)
  | None => Some (Err tt)
  end.

Definition should_poll (c : Client) : bool := match callback c with None => true | Some _ => false end.

(** The connection's task ends: its callback and its receiver are dropped. *)
Definition client_drop (panicking : bool) (c : Client) (sh : Shared) (cs : CS) : option (Shared * CS) :=
  let cs := match callback c with Some cb => callback_drop panicking cb cs | None => cs end in
  receiver_drop sh cs.
End Dispatch.
End Dispatch.
