(* ===== verification/DispatchProps.v ===== *)
(** * What the request channel promises

    Every request that was accepted is answered exactly once, whatever happens to
    the connection; a request is handed back to its caller only if it was never
    given to the connection; and the queue is bounded by the demand signal. *)

From S2P Require Import Prelude Oneshot Decode Error Dispatch.
Import Error Dispatch.

Section Channels.
Context {T U CS : Type} {os : Oneshot (Answer T U) CS} {osl : OneshotLaws (Answer T U) CS}.
Implicit Types cs : CS.

(** An answer that does not hand the request back. *)
Definition keeps_message (a : Answer T U) : Prop :=
  forall e, a = AnsRetry (Err e) -> tse_message e = None.

(** [out] are the requests without an answer, [started] the ones that were given
    to the connection. *)
Record chans_ok (out started : list nat) cs : Prop := {
  co_nodup : NoDup out;
  co_live ch : ch ∈ out <-> exists x, chan cs ch = Some x /\ tx_alive x = true;
  co_unsent ch x : chan cs ch = Some x -> tx_alive x = true -> sent x = None;
  co_started ch x a : ch ∈ started -> chan cs ch = Some x -> sent x = Some a -> keeps_message a;
  co_known ch : ch ∈ started -> is_Some (chan cs ch);
  (* a caller that still waits will have its answer *)
  co_answered ch x : chan cs ch = Some x -> rx_alive x = true -> tx_alive x = true \/ is_Some (sent x)
}.

Lemma chans_ok_perm out out' started cs : out ≡ₚ out' -> chans_ok out started cs -> chans_ok out' started cs.
Proof.
  intros Hp [Hn Hl Hu Hs Hk Ha]. split; auto; [now rewrite <- Hp|]. intros ch. now rewrite <- Hp.
Qed.

(** Sending the answer. *)
Lemma answer_ok l ch started cs a :
  chans_ok (ch :: l) started cs -> (ch ∈ started -> keeps_message a) ->
  chans_ok l started (tx_send ch a false cs).2.
Proof.
  intros [Hn Hl Hu Hs Hk Han] Ha. apply NoDup_cons in Hn as [Hni Hn].
  destruct (proj1 (Hl ch) ltac:(now left)) as (c & Hc & Ht). pose proof (Hu ch c Hc Ht) as Hsn.
  destruct (send_res cs ch a false c Hc) as [_ Hc']. pose proof (fun ch' => send_ne cs ch ch' a false) as Hne.
  assert (Hd : exists c', chan (tx_send ch a false cs).2 ch = Some c' /\ tx_alive c' = false /\
    (sent c' = Some a \/ sent c' = None) /\ (rx_alive c' = true -> is_Some (sent c'))).
  { eexists. split; [exact Hc'|]. destruct (rx_alive c); cbn; (split; [easy|]); split; eauto. easy. }
  destruct Hd as (c' & E & Hdead & Hsent & Hwait). split; auto.
  - intros ch'. destruct (decide (ch' = ch)) as [->|Hx].
    + split; [easy|]. intros (x & Hx & Hy). congruence.
    + rewrite Hne by easy. rewrite <- Hl, elem_of_cons. naive_solver.
  - intros ch' x. destruct (decide (ch' = ch)) as [->|Hx]; [congruence|]. rewrite Hne by easy. apply Hu.
  - intros ch' x b Hin. destruct (decide (ch' = ch)) as [->|Hx].
    + rewrite E. intros [= <-] Hb. destruct Hsent as [Hy|Hy]; rewrite Hy in Hb; [|easy]. injection Hb as <-. auto.
    + rewrite Hne by easy. eauto.
  - intros ch' Hin. destruct (decide (ch' = ch)) as [->|Hx]; [eauto|]. rewrite Hne by easy. auto.
  - intros ch' x. destruct (decide (ch' = ch)) as [->|Hx]; [|rewrite Hne by easy; apply Han].
    rewrite E. intros [= <-] Hr. right. auto.
Qed.

(** A new request. *)
Lemma new_ok out started cs :
  chans_ok out started cs ->
  chans_ok ((chan_new cs).1 :: out) started (chan_new cs).2 /\ (chan_new cs).1 ∉ started.
Proof.
  intros [Hn Hl Hu Hs Hk Ha]. pose proof (new_fresh cs) as Hf. pose proof (new_eq cs) as He. pose proof (new_ne cs) as Hne.
  destruct (chan_new cs) as [ch cs']. cbn [fst snd] in *.
  assert (Hns : ch ∉ started) by (intros Hin; destruct (Hk ch Hin); congruence).
  assert (Hno : ch ∉ out) by (intros Hin; apply Hl in Hin as (x & Hx & _); congruence).
  split; [|easy]. split.
  - now constructor.
  - intros ch'. rewrite elem_of_cons. destruct (decide (ch' = ch)) as [->|Hx]; [naive_solver|].
    rewrite Hne, <- Hl by easy. naive_solver.
  - intros ch' x. destruct (decide (ch' = ch)) as [->|Hx]; [|rewrite Hne by easy; apply Hu].
    rewrite He. now intros [= <-].
  - intros ch' x a Hin. rewrite Hne by congruence. eauto.
  - intros ch' Hin. rewrite Hne by congruence. auto.
  - intros ch' x. destruct (decide (ch' = ch)) as [->|Hx]; [|rewrite Hne by easy; apply Ha].
    rewrite He. intros [= <-] _. now left.
Qed.

(** The caller's end, when it is dropped or completes: nothing the senders rely on
    changes. *)
Lemma receiver_ok out started cs cs' ch c c' :
  chans_ok out started cs -> chan cs ch = Some c -> chan cs' ch = Some c' ->
  tx_alive c' = tx_alive c -> (sent c' = sent c \/ sent c' = None) /\ rx_alive c' = false ->
  (forall x, x <> ch -> chan cs' x = chan cs x) -> chans_ok out started cs'.
Proof.
  intros [Hn Hl Hu Hs Hk Han] Hc Hc' Ht [Hsn Hrx] Hne. split; auto.
  - intros x. rewrite Hl. destruct (decide (x = ch)) as [->|Hx]; [|now rewrite Hne by easy].
    rewrite Hc, Hc'. split; intros (y & [= <-] & Hy); eexists; split; eauto; congruence.
  - intros x y. destruct (decide (x = ch)) as [->|Hx]; [|rewrite Hne by easy; apply Hu].
    rewrite Hc'. intros [= <-] Hy. rewrite Ht in Hy. pose proof (Hu ch c Hc Hy). destruct Hsn; congruence.
  - intros x y a Hin. destruct (decide (x = ch)) as [->|Hx]; [|rewrite Hne by easy; eauto].
    rewrite Hc'. intros [= <-] Ha. apply (Hs ch c a Hin Hc). destruct Hsn; congruence.
  - intros x Hin. destruct (decide (x = ch)) as [->|Hx]; [eauto|]. rewrite Hne by easy. auto.
  - intros x y. destruct (decide (x = ch)) as [->|Hx]; [|rewrite Hne by easy; apply Han].
    rewrite Hc'. intros [= <-] Hr. congruence.
Qed.

(** More requests have been given to the connection. *)
Lemma start_ok l ch started cs :
  chans_ok (ch :: l) started cs -> chans_ok (ch :: l) (ch :: started) cs.
Proof.
  intros [Hn Hl Hu Hs Hk Han]. destruct (proj1 (Hl ch) ltac:(now left)) as (c & Hc & Ht). split; auto.
  - intros x y a [->|Hx]%elem_of_cons Hy Ha; [|eauto]. rewrite Hc in Hy. injection Hy as <-. rewrite (Hu ch c Hc Ht) in Ha. easy.
  - intros x [->|Hx]%elem_of_cons; eauto.
Qed.

(** The promises without an answer. *)
Lemma chans_ok_pending out started cs :
  chans_ok out started cs -> forall ch, rx_poll ch cs = RxPending <-> ch ∈ out.
Proof.
  intros [Hn Hl Hu _ _ _] ch. rewrite Hl. unfold rx_poll. split.
  - destruct (chan cs ch) as [x|]; [|easy]. destruct (sent x); [easy|]. destruct (tx_alive x) eqn:Et; [eauto|easy].
  - intros (x & Hx & Ht). now rewrite Hx, (Hu ch x Hx Ht), Ht.
Qed.
End Channels.

Section World.
Context {T U CS : Type} {os : Oneshot (Answer T U) CS} {osl : OneshotLaws (Answer T U) CS}.
Context {M : Type} {mp : Mpsc (Envelope T) M} {mpl : MpscLaws (Envelope T) M} {G : Type} {wt : Want G}.

(** The caller's handle, the connection's task (until it ends), the queue
    between them and the channels of the callers; [dw_started] remembers the
    requests that were given to the connection. *)
Record DWorld := mkDWorld {
  dw_sender : Sender;
  dw_client : option Client;
  dw_shared : Shared (M := M) (G := G);
  dw_chans : CS;
  dw_started : list nat
}.

Definition cb_chan (cb : Callback) : option nat := match cb with Retry tx => tx | NoRetry _ => None end.
Definition env_chan (e : Envelope T) : option nat := x ← e; cb_chan x.2.
Definition held (c : option Client) : list nat := omap cb_chan (option_list (c ≫= callback)).
Definition queued (sh : Shared (M := M) (G := G)) : list nat := omap env_chan (mp_queue (sh_inner sh)).

(** The requests somebody still has to answer. *)
Definition outstanding (w : DWorld) : list nat := held (dw_client w) ++ queued (dw_shared w).

(** The channel of the request that was just given to the connection. *)
Definition newly_started (r : poll_res Empty_set (option T)) (c : Client) : list nat :=
  match r with RVal (Some _) => held (Some c) | _ => [] end.

Inductive d_step : DWorld -> DWorld -> Prop :=
| d_try_send w val r s' sh' cs' :
    try_send val (dw_sender w) (dw_shared w) (dw_chans w) = Some (r, s', sh', cs') ->
    d_step w (mkDWorld s' (dw_client w) sh' cs' (dw_started w))
| d_unbounded_send w val r sh' cs' :
    unbounded_try_send val (dw_shared w) (dw_chans w) = Some (r, sh', cs') ->
    d_step w (mkDWorld (dw_sender w) (dw_client w) sh' cs' (dw_started w))
| d_poll_msg w senders c r c' sh' cs' :
    dw_client w = Some c -> should_poll c = true ->
    poll_msg senders c (dw_shared w) (dw_chans w) = Some (r, c', sh', cs') ->
    d_step w (mkDWorld (dw_sender w) (Some c') sh' cs' (newly_started r c' ++ dw_started w))
| d_recv_msg w senders msg c r c' sh' cs' :
    dw_client w = Some c ->
    recv_msg senders msg c (dw_shared w) (dw_chans w) = Some (r, c', sh', cs') ->
    d_step w (mkDWorld (dw_sender w) (Some c') sh' cs' (dw_started w))
| d_drop w panicking c sh' cs' :
    dw_client w = Some c -> client_drop panicking c (dw_shared w) (dw_chans w) = Some (sh', cs') ->
    d_step w (mkDWorld (dw_sender w) None sh' cs' (dw_started w))
| d_caller_gone w ch :
    is_Some (chan (dw_chans w) ch) ->
    d_step w (mkDWorld (dw_sender w) (dw_client w) (dw_shared w) (rx_drop ch (dw_chans w)) (dw_started w))
| d_caller_takes w ch :
    is_Some (chan (dw_chans w) ch) -> rx_poll ch (dw_chans w) <> RxPending ->
    d_step w (mkDWorld (dw_sender w) (dw_client w) (dw_shared w) (rx_take ch (dw_chans w)) (dw_started w)).

Definition d_init : DWorld := mkDWorld channel.1 (Some client_new) channel.2 chans_none [].
Definition d_reach (w : DWorld) : Prop := rtc d_step d_init w.

(** ** The invariant *)

Definition fresh_env (started : list nat) (e : Envelope T) : Prop :=
  exists req ch, e = Some (req, Retry (Some ch)) /\ ch ∉ started.

Record d_inv (w : DWorld) : Prop := {
  di_chans : chans_ok (outstanding w) (dw_started w) (dw_chans w);
  di_callback c cb : dw_client w = Some c -> callback c = Some cb -> exists ch, cb = Retry (Some ch);
  di_queue : Forall (fresh_env (dw_started w)) (mp_queue (sh_inner (dw_shared w)));
  di_gone : dw_client w = None -> mp_queue (sh_inner (dw_shared w)) = [] /\ mp_open (sh_inner (dw_shared w)) = false
}.

Lemma queued_app l1 l2 : omap env_chan (l1 ++ l2) = omap env_chan l1 ++ omap env_chan l2.
Proof. apply omap_app. Qed.

Lemma outstanding_mk s c m g cs st :
  outstanding (mkDWorld s c (mkShared m g) cs st) = held c ++ omap env_chan (mp_queue m).
Proof. reflexivity. Qed.

Lemma keeps_gone b : keeps_message (T := T) (U := U) (AnsRetry (Err (mkTrySendError (dispatch_gone b) None))).
Proof. now intros e [= <-]. Qed.

(** [enqueue] returns; a message that is taken is the last in the queue, one
    that is refused comes back to the caller at once. *)
Lemma enqueue_ok val m (cs : CS) out started :
  chans_ok out started cs ->
  exists r m' cs', enqueue val m cs = Some (r, m', cs') /\
    (mp_open m = true /\ (exists ch, r = Ok ch /\ (ch ∉ started) /\ chans_ok (ch :: out) started cs' /\
        mp_queue m' = mp_queue m ++ [Some (val, Retry (Some ch))]) /\ mp_open m' = true \/
     mp_open m = false /\ r = Err val /\ chans_ok out started cs' /\ mp_queue m' = mp_queue m).
Proof.
  intros Hc. unfold enqueue. destruct (new_ok out started cs Hc) as [Hn Hs].
  destruct (chan_new cs) as [ch cs1]. cbn [fst snd] in *. destruct (mp_open m) eqn:Ho.
  - destruct (send_open (Some (val, Retry (Some ch))) m Ho) as (E1 & E2 & E3).
    destruct (mp_send _ m) as [o m']. cbn [fst snd] in *. subst o. eexists _, _, _. split; [reflexivity|]. left.
    split; [easy|]. split; [|easy]. exists ch. split; [easy|]. split; [easy|]. split; [exact Hn|exact E2].
  - destruct (send_closed (Some (val, Retry (Some ch))) m Ho) as (E1 & E2).
    destruct (mp_send _ m) as [o m']. cbn [fst snd] in *. subst o. cbn [mbind option_bind].
    eexists _, _, _. split; [reflexivity|]. right. split; [easy|]. split; [easy|]. split; [|exact E2]. cbn [callback_drop].
    destruct (proj1 (co_live _ _ _ Hn ch) ltac:(now left)) as (c & Hch & _).
    apply answer_ok; [|intros _; apply keeps_gone].
    eapply receiver_ok; [exact Hn|exact Hch|apply drop_rx_eq; exact Hch| | |intros; now apply drop_rx_ne]; [easy|split; [now left|easy]].
Qed.

(** The envelopes of a queue that is dropped are answered one by one, each with
    its request. *)
Lemma envelopes_drop_ok l out started (cs : CS) :
  Forall (fresh_env started) l -> chans_ok (omap env_chan l ++ out) started cs ->
  exists cs', envelopes_drop l cs = Some cs' /\ chans_ok out started cs'.
Proof.
  revert cs. induction l as [|e l IH]; intros cs Hf Hc; [cbn; eauto|].
  apply Forall_cons in Hf as [(req & ch & -> & Hs) Hf]. cbn [envelopes_drop envelope_drop callback_send mbind option_bind].
  apply IH; [easy|]. cbn in Hc. apply answer_ok; [exact Hc|]. now intros Hin.
Qed.

(** ** Each operation returns and keeps the invariant *)

Lemma send_inv val w :
  d_inv w ->
  exists r m' cs', enqueue val (sh_inner (dw_shared w)) (dw_chans w) = Some (r, m', cs') /\
    forall s g, d_inv (mkDWorld s (dw_client w) (mkShared m' g) cs' (dw_started w)).
Proof.
  intros [Hc Hcb Hq Hg]. destruct (enqueue_ok val (sh_inner (dw_shared w)) _ _ _ Hc) as (r & m' & cs' & E & Hcase).
  exists r, m', cs'. split; [exact E|]. intros s g.
  destruct Hcase as [(Ho & (ch & -> & Hns & Hc' & Em) & Ho')|(Ho & -> & Hc' & Em)].
  - split; cbn [dw_chans dw_client dw_shared dw_started sh_inner]; auto.
    + rewrite outstanding_mk, Em, queued_app. eapply chans_ok_perm; [|exact Hc'].
      unfold outstanding, queued. rewrite app_assoc. apply Permutation_cons_append.
    + rewrite Em. apply Forall_app. split; [easy|]. constructor; [|constructor]. exists val, ch. auto.
    + intros Hn. destruct (Hg Hn). congruence.
  - split; cbn [dw_chans dw_client dw_shared dw_started sh_inner]; auto.
    + now rewrite outstanding_mk, Em.
    + now rewrite Em.
    + intros Hn. rewrite Em. destruct (Hg Hn) as [Hq0 _]. split; [easy|].
      unfold enqueue in E. destruct (chan_new (dw_chans w)) as [ch cs1].
      pose proof (send_closed (Some (val, Retry (Some ch))) _ Ho) as [E1 _].
      pose proof (send_stays (Some (val, Retry (Some ch))) _ Ho) as E2.
      destruct (mp_send _ _) as [o m2]. cbn [fst snd] in *. subst o. cbn in E. injection E as <- <-. exact E2.
Qed.

Lemma try_send_inv val w :
  d_inv w -> exists r s' sh' cs', try_send val (dw_sender w) (dw_shared w) (dw_chans w) = Some (r, s', sh', cs') /\
    d_inv (mkDWorld s' (dw_client w) sh' cs' (dw_started w)).
Proof.
  intros Hi. unfold try_send. destruct (can_send (dw_sender w) (sh_want (dw_shared w))) as [[ok s'] g].
  destruct ok; cbn [negb].
  - destruct (send_inv val w Hi) as (r & m' & cs' & -> & Hi'). cbn [mbind option_bind]. eexists _, _, _, _. split; [reflexivity|]. apply Hi'.
  - eexists _, _, _, _. split; [reflexivity|]. now destruct Hi as [Hc Hcb Hq Hg].
Qed.

Lemma unbounded_send_inv val w :
  d_inv w -> exists r sh' cs', unbounded_try_send val (dw_shared w) (dw_chans w) = Some (r, sh', cs') /\
    d_inv (mkDWorld (dw_sender w) (dw_client w) sh' cs' (dw_started w)).
Proof.
  intros Hi. unfold unbounded_try_send. destruct (send_inv val w Hi) as (r & m' & cs' & -> & Hi').
  cbn [mbind option_bind]. eexists _, _, _. split; [reflexivity|]. apply Hi'.
Qed.

Lemma poll_msg_inv senders c w :
  d_inv w -> dw_client w = Some c -> should_poll c = true ->
  exists r c' sh' cs', poll_msg senders c (dw_shared w) (dw_chans w) = Some (r, c', sh', cs') /\
    d_inv (mkDWorld (dw_sender w) (Some c') sh' cs' (newly_started r c' ++ dw_started w)).
Proof.
  intros [Hc Hcb Hq Hg] Hcl Hsp. unfold should_poll in Hsp. destruct (callback c) as [?|] eqn:Ecb; [easy|].
  unfold outstanding, queued, held in Hc. rewrite Hcl in Hc. cbn [mbind option_bind] in Hc. rewrite Ecb in Hc. cbn in Hc.
  unfold poll_msg, poll_recv. destruct (mp_queue (sh_inner (dw_shared w))) as [|e l] eqn:Eq.
  - destruct (recv_empty senders (sh_inner (dw_shared w)) Eq) as [E1 E2].
    destruct (mp_recv senders (sh_inner (dw_shared w))) as [o m']. cbn [fst snd] in *. subst o.
    destruct (senders && _); eexists _, _, _, _; (split; [reflexivity|]);
      (split; cbn [dw_chans dw_client dw_shared dw_started sh_inner newly_started app]; [|intros ? ? [= <-] Hx; cbn in Hx; congruence|now rewrite E2|easy]);
      rewrite outstanding_mk, E2; unfold held; cbn; rewrite Ecb; exact Hc.
  - destruct (recv_msg_head senders e l _ Eq) as [E1 E2].
    destruct (mp_recv senders (sh_inner (dw_shared w))) as [o m']. cbn [fst snd] in *. subst o.
    apply Forall_cons in Hq as [(req & ch & -> & Hns) Hq]. cbn in Hc. cbn [is_canceled mbind option_bind].
    destruct (tx_is_closed ch (dw_chans w)); eexists _, _, _, _; (split; [reflexivity|]).
    + split; cbn [dw_chans dw_client dw_shared dw_started sh_inner newly_started app]; [|intros ? ? [= <-] Hx; cbn in Hx; congruence|now rewrite E2|easy].
      rewrite outstanding_mk, E2. unfold held. cbn. rewrite Ecb. cbn. apply answer_ok; [exact Hc|]. intros _. apply keeps_gone.
    + rewrite Ecb. split; cbn [dw_chans dw_client dw_shared dw_started sh_inner newly_started]; [| | |easy].
      * rewrite outstanding_mk, E2. unfold held. cbn. now apply start_ok.
      * intros c0 cb [= <-] [= <-]. eauto.
      * rewrite E2. unfold held. cbn. rewrite Forall_forall in Hq |- *. intros e He.
        destruct (Hq e He) as (req' & ch' & -> & Hn'). exists req', ch'. split; [easy|]. rewrite elem_of_cons. intros [->|?]; [|easy].
        pose proof (co_nodup _ _ _ Hc) as Hnd. apply NoDup_cons in Hnd as [Hni _]. apply Hni.
        apply list_elem_of_omap. exists (Some (req', Retry (Some ch))). auto.
Qed.

(** The callback is used up by an answer that keeps the request. *)
Lemma answer_callback_inv a c cb w :
  d_inv w -> dw_client w = Some c -> callback c = Some cb ->
  keeps_message (AnsRetry a) -> exists cs', callback_send cb a (dw_chans w) = Some cs' /\
    d_inv (mkDWorld (dw_sender w) (Some (mkClient None (rx_closed c))) (dw_shared w) cs' (dw_started w)).
Proof.
  intros [Hc Hcb Hq Hg] Hcl Ecb Ha. destruct (Hcb c cb Hcl Ecb) as [ch ->].
  unfold outstanding, held in Hc. rewrite Hcl in Hc. cbn [mbind option_bind] in Hc. rewrite Ecb in Hc. cbn in Hc.
  eexists. split; [reflexivity|]. split; cbn [dw_chans dw_client dw_shared dw_started sh_inner]; auto; [|now intros ? ? [= <-]|easy].
  unfold outstanding, held. cbn. now apply answer_ok.
Qed.

Lemma recv_msg_inv senders msg c w :
  d_inv w -> dw_client w = Some c ->
  exists r c' sh' cs', recv_msg senders msg c (dw_shared w) (dw_chans w) = Some (r, c', sh', cs') /\
    d_inv (mkDWorld (dw_sender w) (Some c') sh' cs' (dw_started w)).
Proof.
  intros Hi Hcl. unfold recv_msg. destruct (callback c) as [cb|] eqn:Ecb.
  { assert (Hgo : forall a, keeps_message (AnsRetry a) ->
      exists r c' sh' cs', (cs ← callback_send cb a (dw_chans w); Some (Ok (E := Error) tt, mkClient None (rx_closed c), dw_shared w, cs)) =
        Some (r, c', sh', cs') /\ d_inv (mkDWorld (dw_sender w) (Some c') sh' cs' (dw_started w))).
    { intros a Ha. destruct (answer_callback_inv a c cb w Hi Hcl Ecb Ha) as (cs' & -> & Hi').
      cbn [mbind option_bind]. eexists _, _, _, _. split; [reflexivity|exact Hi']. }
    destruct msg as [res|err]; apply Hgo; intros e He; [easy|]. now injection He as <-. }
  pose proof Hi as [Hc Hcb Hq Hg].
  unfold outstanding, held in Hc. rewrite Hcl in Hc. cbn [mbind option_bind] in Hc. rewrite Ecb in Hc. cbn in Hc. unfold queued in Hc.
  (* the world is only renamed *)
  assert (Hsame : forall sh', mp_queue (sh_inner sh') = mp_queue (sh_inner (dw_shared w)) ->
    d_inv (mkDWorld (dw_sender w) (Some c) sh' (dw_chans w) (dw_started w))).
  { intros [m' g'] Em. cbn in Em. split; cbn [dw_chans dw_client dw_shared dw_started sh_inner];
      [|intros ? ? [= <-]; congruence|now rewrite Em|easy].
    rewrite outstanding_mk, Em. unfold held. cbn. rewrite Ecb. exact Hc. }
  destruct msg as [res|err]; [eexists _, _, _, _; split; [reflexivity|now apply Hsame]|].
  destruct (rx_closed c); cbn [negb]; [eexists _, _, _, _; split; [reflexivity|now apply Hsame]|].
  unfold try_recv, receiver_close. cbn [sh_inner sh_want]. destruct (close_queue (sh_inner (dw_shared w))) as [Ecl Eop].
  destruct (mp_queue (sh_inner (dw_shared w))) as [|e l] eqn:Eq.
  - destruct (recv_empty senders _ Ecl) as [E1 E2]. destruct (mp_recv senders _) as [o m']. cbn [fst snd] in *. subst o.
    rewrite Eop, andb_false_r. eexists _, _, _, _. split; [reflexivity|now apply Hsame].
  - destruct (recv_msg_head senders e l _ Ecl) as [E1 E2]. destruct (mp_recv senders _) as [o m']. cbn [fst snd] in *. subst o.
    apply Forall_cons in Hq as [(req & ch & -> & Hns) Hq]. cbn in Hc. cbn [callback_send mbind option_bind].
    eexists _, _, _, _. split; [reflexivity|].
    split; cbn [dw_chans dw_client dw_shared dw_started sh_inner]; [|intros ? ? [= <-]; congruence|now rewrite E2|easy].
    rewrite outstanding_mk, E2. unfold held. cbn. rewrite Ecb. cbn. apply answer_ok; [exact Hc|]. now intros Hin.
Qed.

Lemma drop_inv panicking c w :
  d_inv w -> dw_client w = Some c ->
  exists sh' cs', client_drop panicking c (dw_shared w) (dw_chans w) = Some (sh', cs') /\
    d_inv (mkDWorld (dw_sender w) None sh' cs' (dw_started w)).
Proof.
  intros [Hc Hcb Hq Hg] Hcl. unfold client_drop, receiver_drop.
  destruct (drop_queue (sh_inner (dw_shared w))) as (E1 & E2 & E3).
  destruct (mp_drop_rx (sh_inner (dw_shared w))) as [l m']. cbn [fst snd] in *. subst l.
  unfold outstanding, held, queued in Hc. rewrite Hcl in Hc. cbn [mbind option_bind] in Hc.
  set (cs1 := match callback c with Some cb => _ | None => _ end).
  assert (Hc1 : chans_ok (omap env_chan (mp_queue (sh_inner (dw_shared w))) ++ []) (dw_started w) cs1).
  { rewrite app_nil_r. subst cs1. destruct (callback c) as [cb|] eqn:Ecb; [|exact Hc].
    destruct (Hcb c cb Hcl Ecb) as [ch ->]. cbn in Hc |- *. apply answer_ok; [exact Hc|]. intros _. apply keeps_gone. }
  destruct (envelopes_drop_ok _ [] _ cs1 Hq Hc1) as (cs' & -> & Hc'). cbn [mbind option_bind].
  eexists _, _. split; [reflexivity|]. split; cbn [dw_chans dw_client dw_shared dw_started sh_inner]; [|easy|now rewrite E2|easy].
  rewrite outstanding_mk, E2. exact Hc'.
Qed.

Lemma d_step_inv w w' : d_step w w' -> d_inv w -> d_inv w'.
Proof.
  intros Hs Hi. destruct Hs as
    [w val r s' sh' cs' E|w val r sh' cs' E|w senders c r c' sh' cs' Hcl Hsp E|w senders msg c r c' sh' cs' Hcl E
    |w b c sh' cs' Hcl E|w ch [x Hx]|w ch [x Hx] _].
  - destruct (try_send_inv val w Hi) as (r2 & s2 & sh2 & cs2 & E2 & Hi'). rewrite E in E2. now injection E2 as <- <- <- <-.
  - destruct (unbounded_send_inv val w Hi) as (r2 & sh2 & cs2 & E2 & Hi'). rewrite E in E2. now injection E2 as <- <- <-.
  - destruct (poll_msg_inv senders c w Hi Hcl Hsp) as (r2 & c2 & sh2 & cs2 & E2 & Hi').
    rewrite E in E2. now injection E2 as <- <- <- <-.
  - destruct (recv_msg_inv senders msg c w Hi Hcl) as (r2 & c2 & sh2 & cs2 & E2 & Hi').
    rewrite E in E2. now injection E2 as <- <- <- <-.
  - destruct (drop_inv b c w Hi Hcl) as (sh2 & cs2 & E2 & Hi'). rewrite E in E2. now injection E2 as <- <-.
  - destruct Hi as [Hc Hcb Hq Hg]. split; auto. cbn.
    eapply receiver_ok; [exact Hc|exact Hx|apply drop_rx_eq; exact Hx| | |intros; now apply drop_rx_ne]; [easy|split; [now left|easy]].
  - destruct Hi as [Hc Hcb Hq Hg]. split; auto. cbn.
    eapply receiver_ok; [exact Hc|exact Hx|apply take_rx_eq; exact Hx| | |intros; now apply take_rx_ne]; [easy|split; [now right|easy]].
Qed.

Lemma d_reach_inv w : d_reach w -> d_inv w.
Proof.
  unfold d_reach. intros Hr. assert (d_inv d_init) as Hi.
  { split; cbn; try easy.
    - unfold outstanding, queued, held, d_init, channel. cbn. rewrite new_queue. split; cbn; try easy; [constructor|..].
      + intros ch. rewrite chan_none. split; [easy|]. now intros (x & [=] & _).
      + intros ch x. now rewrite chan_none.
      + intros ch x. now rewrite chan_none.
    - intros c cb [= <-]. easy.
    - rewrite new_queue. constructor. }
  induction Hr as [|w1 w2 w3 Hs _ IH]; [exact Hi|]. apply IH. now apply (d_step_inv w1).
Qed.
End World.

Section Props.
Context {T U CS : Type} {os : Oneshot (Answer T U) CS} {osl : OneshotLaws (Answer T U) CS}.
Context {M : Type} {mp : Mpsc (Envelope T) M} {mpl : MpscLaws (Envelope T) M} {G : Type} {wt : Want G}.
Implicit Types w : DWorld (CS := CS) (M := M) (G := G).

(** C11. No accepted request is forgotten, and none is answered twice: in every
    interleaving of callers and connection, the promises without an answer are
    exactly those whose request is queued or held by the connection, each once;
    when the connection's task has ended, every promise has been answered. *)
Theorem no_request_forgotten w :
  d_reach w ->
  NoDup (outstanding w) /\ (forall ch, rx_poll ch (dw_chans w) = RxPending <-> ch ∈ outstanding w) /\
  (dw_client w = None -> forall ch, rx_poll ch (dw_chans w) <> RxPending).
Proof.
  intros Hr. pose proof (d_reach_inv w Hr) as [Hco _ _ Hg]. pose proof (chans_ok_pending _ _ _ Hco) as Hiff.
  split; [apply Hco|]. split; [exact Hiff|]. intros Hc ch Hp. apply Hiff in Hp.
  unfold outstanding, held, queued in Hp. rewrite Hc, (proj1 (Hg Hc)) in Hp. now apply not_elem_of_nil in Hp.
Qed.

(** C12. A request comes back to its caller for a retry only if it was never
    given to the connection: the error of a request that was started carries no
    message. *)
Theorem retry_only_unstarted w ch e :
  d_reach w -> ch ∈ dw_started w -> rx_poll ch (dw_chans w) = RxReady (AnsRetry (Err e)) -> tse_message e = None.
Proof.
  intros Hr Hin Hp. pose proof (co_started _ _ _ (di_chans w (d_reach_inv w Hr)) ch) as Hs.
  unfold rx_poll in Hp. destruct (chan (dw_chans w) ch) as [x|]; [|easy].
  destruct (sent x) as [a|] eqn:Ea; [|now destruct (tx_alive x)]. injection Hp as ->.
  now apply (Hs x _ Hin eq_refl Ea e).
Qed.

(** None of the destructive operations can hit a used-up value: in every
    reachable state sending a request, taking the next one, delivering a response
    or an error and ending the task return without a panic. *)
Theorem dispatch_total w :
  d_reach w ->
  (forall val, is_Some (try_send val (dw_sender w) (dw_shared w) (dw_chans w))) /\
  forall c, dw_client w = Some c ->
    (forall b, should_poll c = true -> is_Some (poll_msg b c (dw_shared w) (dw_chans w))) /\
    (forall b msg, is_Some (recv_msg b msg c (dw_shared w) (dw_chans w))) /\
    is_Some (poll_ready c (dw_chans w)) /\
    (forall b, is_Some (client_drop b c (dw_shared w) (dw_chans w))).
Proof.
  intros Hr. pose proof (d_reach_inv w Hr) as Hi. split.
  { intros val. destruct (try_send_inv val w Hi) as (? & ? & ? & ? & -> & _). eauto. }
  intros c Hc. split; [|split; [|split]].
  - intros b Hs. destruct (poll_msg_inv b c w Hi Hc Hs) as (? & ? & ? & ? & -> & _). eauto.
  - intros b msg. destruct (recv_msg_inv b msg c w Hi Hc) as (? & ? & ? & ? & -> & _). eauto.
  - unfold poll_ready. destruct (callback c) as [cb|] eqn:E; [|eauto].
    destruct (di_callback w Hi c cb Hc E) as [ch ->]. cbn. eauto.
  - intros b. destruct (drop_inv b c w Hi Hc) as (? & ? & -> & _). eauto.
Qed.
End Props.

(** ** The bound on the queue *)

Section Bound.
Context {G : Type} {wt : Want G} {wtl : WantLaws G}.

(** What happens to the demand signal. *)
Inductive WantEvent := EvSend | EvWant | EvCancel.

(** How many of the sends are let through. *)
Fixpoint sends (evs : list WantEvent) (s : Sender) (g : G) : nat :=
  match evs with
  | [] => 0
  | EvSend :: evs => let '(ok, s, g) := can_send s g in (if ok : bool then 1 else 0) + sends evs s g
  | EvWant :: evs => sends evs s (want g)
  | EvCancel :: evs => sends evs s (cancel g)
  end%nat.

Definition wants_count (evs : list WantEvent) : nat :=
  length (List.filter (fun e => match e with EvWant => true | _ => false end) evs).

Lemma sends_bound evs s g :
  (sends evs s g <= (if buffered_once s then 0 else 1) + (if wanting g then 1 else 0) + wants_count evs)%nat.
Proof.
  revert s g. induction evs as [|[] evs IH]; intros s g; cbn [sends]; [lia|..].
  - unfold can_send. destruct (give_wanting g) as (E1 & E2 & _). destruct (give g) as [b g']. cbn [fst snd] in *. subst b.
    change (wants_count (EvSend :: evs)) with (wants_count evs).
    destruct (wanting g); cbn [orb].
    + specialize (IH (mkSender true) g'). cbn in IH. rewrite E2 in IH. lia.
    + destruct (buffered_once s) eqn:Eb; cbn [negb].
      * specialize (IH s g'). rewrite Eb, E2 in IH. lia.
      * specialize (IH (mkSender true) g'). cbn in IH. rewrite E2 in IH. lia.
  - change (wants_count (EvWant :: evs)) with (S (wants_count evs)). specialize (IH s (want g)).
    destruct (wanting (want g)), (wanting g); lia.
  - change (wants_count (EvCancel :: evs)) with (wants_count evs). specialize (IH s (cancel g)).
    rewrite (proj1 (cancel_canceled g)) in IH. destruct (wanting g); lia.
Qed.

(** The queue is bounded by demand: over any history, a sender lets through
    at most one request more than the connection has asked for. *)
Theorem sender_bounded evs :
  (sends evs (mkSender false) want_new <= 1 + wants_count evs)%nat.
Proof.
  pose proof (sends_bound evs (mkSender false) want_new) as Hb. cbn [buffered_once] in Hb.
  rewrite (proj1 want_new_idle) in Hb. lia.
Qed.
End Bound.

(** ** Witnesses *)

Module RefDispatch.
Record Queue (A : Type) := mkQueue { items : list A; opened : bool }.
Arguments mkQueue {A} _ _.
Arguments items {A} _.
Arguments opened {A} _.

Section RefMpsc.
Context {A : Type}.
#[global] Instance ref_mpsc : Mpsc A (Queue A) := {
  mp_queue := items;
  mp_open := opened;
  mp_new := mkQueue [] true;
  mp_send a m := if opened m then (None, mkQueue (items m ++ [a]) true) else (Some a, m);
  mp_recv b m :=
    match items m with
    | a :: l => (Some (Some a), mkQueue l (opened m))
    | [] => (if b && opened m then None else Some None, m)
    end;
  mp_close m := mkQueue (items m) false;
  mp_drop_rx m := (items m, mkQueue [] false)
}.
#[global] Instance ref_mpsc_laws : MpscLaws A (Queue A).
Proof.
  split; cbn; try easy.
  - intros a m Hm. now rewrite Hm.
  - intros a m Hm. now rewrite Hm.
  - intros a m Hm. rewrite Hm. exact Hm.
  - intros b a l m Hm. now rewrite Hm.
  - intros b m Hm. now rewrite Hm.
Qed.
End RefMpsc.

Inductive WantState := WIdle | WWant | WClosed.
#[global] Instance ref_want : Want WantState := {
  wanting g := match g with WWant => true | _ => false end;
  canceled g := match g with WClosed => true | _ => false end;
  want_new := WIdle;
  give g := match g with WWant => (true, WIdle) | _ => (false, g) end;
  want g := match g with WIdle => WWant | _ => g end;
  cancel _ := WClosed
}.
#[global] Instance ref_want_laws : WantLaws WantState.
Proof. split; try easy; now intros []. Qed.

Abbreviation Ans := (Answer nat nat).
Abbreviation CS := (gmap nat (Channel Ans)).
Import RefOneshot.
Abbreviation W := (DWorld (CS := CS) (M := Queue (Envelope nat)) (G := WantState)).

(** Request 5 is sent, given to the connection, and the connection fails. *)
Definition w0 : W := d_init.
Definition sh1 : Shared (M := Queue (Envelope nat)) (G := WantState) := mkShared (mkQueue [Some (5%nat, Retry (Some 0%nat))] true) WIdle.
Definition cs1 : CS := {[0%nat := mkChannel true true None]}.
Definition w1 : W := mkDWorld (mkSender true) (Some client_new) sh1 cs1 [].
Definition sh2 : Shared (M := Queue (Envelope nat)) (G := WantState) := mkShared (mkQueue [] true) WIdle.
Definition w2 : W := mkDWorld (mkSender true) (Some (mkClient (Some (Retry (Some 0%nat))) false)) sh2 cs1 [0%nat].
Definition failed : TrySendError nat := mkTrySendError new_incomplete None.
Definition cs3 : CS := {[0%nat := mkChannel true false (Some (AnsRetry (Err failed)))]}.
Definition w3 : W := mkDWorld (mkSender true) (Some client_new) sh2 cs3 [0%nat].

Lemma reach_w1 : d_reach w1.
Proof. apply rtc_once. exact (d_try_send w0 5%nat (Ok 0%nat) (mkSender true) sh1 cs1 eq_refl). Qed.
Lemma reach_w2 : d_reach w2.
Proof.
  eapply rtc_r; [exact reach_w1|].
  exact (d_poll_msg w1 true client_new (RVal (Some 5%nat)) (mkClient (Some (Retry (Some 0%nat))) false) sh2 cs1 eq_refl eq_refl eq_refl).
Qed.
Lemma reach_w3 : d_reach w3.
Proof.
  eapply rtc_r; [exact reach_w2|].
  exact (d_recv_msg w2 true (Err new_incomplete) _ (Ok tt) client_new sh2 cs3 eq_refl eq_refl).
Qed.

Lemma no_request_forgotten_witness :
  outstanding w2 = [0%nat] /\ rx_poll 0%nat (dw_chans w2) = RxPending.
Proof.
  split; [reflexivity|]. apply (proj1 (proj2 (no_request_forgotten w2 reach_w2)) 0%nat). left.
Defined.

Lemma retry_only_unstarted_witness : tse_message failed = None.
Proof. apply (retry_only_unstarted w3 0%nat failed); [exact reach_w3|left|reflexivity]. Defined.

Lemma dispatch_total_witness : is_Some (client_drop false client_new (dw_shared w1) (dw_chans w1)).
Proof. exact (proj2 (proj2 (proj2 (proj2 (dispatch_total w1 reach_w1) client_new eq_refl))) false). Defined.

Lemma sender_bounded_witness : (sends [EvSend; EvSend; EvWant; EvSend] (mkSender false) want_new <= 2)%nat.
Proof. exact (sender_bounded [EvSend; EvSend; EvWant; EvSend]). Defined.
End RefDispatch.
