(* ===== verification/Dispatcher.v ===== *)
(** * The HTTP/1 dispatcher (src/src/core/proto/h1/dispatch.rs)

    The task of a connection: it takes requests from its [Dispatch] (the request
    channel), writes their heads and bodies to [Conn], reads responses and their
    bodies, and passes them on.  [poll] is one poll of the task. *)

From S2P Require Import Prelude Buf Http HeaderWrite WriteBuf Encode Decode Error Io Role Conn Oneshot Incoming Dispatch.

(** The [Body] trait of http-body: what the user gave as request body. *)
Inductive BodyFrame (B H : Type) := DataFrame (b : B) | TrailersFrame (h : H) | UnknownFrame.
Arguments DataFrame {B H} _.
Arguments TrailersFrame {B H} _.
Arguments UnknownFrame {B H}.

Class Body (Bs B H : Type) := {
  (* [RVal None]: the end; [RErr]: the body failed *)
  body_poll_frame : Bs -> poll_res Error.Cause (option (BodyFrame B H)) * Bs;
  body_is_end_stream : Bs -> bool;
  body_size_exact : Bs -> option Z
}.

(** [trait Dispatch]; [S] is the store of the response bodies, which are the
    receiver's once they are handed over. *)
Class DispatchT (D Req Resp S : Type) := {
  PollError : Type;
  poll_error_cause : PollError -> Error.Cause;
  dp_poll_msg : D -> poll_res PollError (option Req) * D;
  dp_recv_msg : result Resp Error.Error -> D -> S -> poll_res Error.Error unit * D * S;
  dp_poll_ready : D -> poll_res unit unit;
  dp_should_poll : D -> bool
}.

Module Dispatcher.
Import Error Role Conn Incoming.

Inductive Dispatched := Shutdown | Upgrade (tx : Z).

Section Dispatcher.
Context `{BytesCrate} `{Alloc} `{HttpCrate} `{Httparse}.
Context {T : Type} `{Transport T} {B : Type} `{Buf B} {Uri : Type} (uri_display : Uri -> bytes).
Context {FS : Type} {fm : FMpsc (result bytes Error) FS} {OS : Type} {os : Oneshot HeaderMap OS}.
Context {Bs : Type} {bd : Body Bs B HeaderMap}.

Abbreviation Bodies := (BStore (FS := FS) (OS := OS)).
Abbreviation Request := (MessageHead (RequestLine (Uri := Uri)) * Bs)%type.
(** A response: head, body, and the handle of an upgrade (an extension of the
    head in the program). *)
Abbreviation Response := (MessageHead StatusCode * Incoming * option Z)%type.

Context {D : Type} {dp : DispatchT D Request Response Bodies}.

(** [bodies] and [upgrades], the number of upgrade channels made so far, stand
    for the heap. *)
Record Dispatcher := mkDispatcher {
  conn : Conn (T := T) (B := B);
  dispatch : D;
  body_tx : option Sender;
  body_rx : option Bs;
  is_closing : bool;
  bodies : Bodies;
  upgrades : Z
}.

Definition set_conn x d := mkDispatcher x (dispatch d) (body_tx d) (body_rx d) (is_closing d) (bodies d) (upgrades d).
Definition set_dispatch x d := mkDispatcher (conn d) x (body_tx d) (body_rx d) (is_closing d) (bodies d) (upgrades d).
Definition set_body_tx x d := mkDispatcher (conn d) (dispatch d) x (body_rx d) (is_closing d) (bodies d) (upgrades d).
Definition set_body_rx x d := mkDispatcher (conn d) (dispatch d) (body_tx d) x (is_closing d) (bodies d) (upgrades d).
Definition set_bodies x d := mkDispatcher (conn d) (dispatch d) (body_tx d) (body_rx d) (is_closing d) x (upgrades d).

Definition dispatcher_new (disp : D) (c : Conn (T := T) (B := B)) (s : Bodies) (upgrades : Z) : Dispatcher :=
  mkDispatcher c disp None None false s upgrades.

Definition dispatcher_into_inner (d : Dispatcher) : T * bytes * D := (conn_into_inner (conn d), dispatch d).

Definition close (d : Dispatcher) : Dispatcher :=
  mkDispatcher (close_write (close_read (conn d))) (dispatch d) (body_tx d) (body_rx d) true (bodies d) (upgrades d).

Definition is_done (d : Dispatcher) : bool :=
  if is_closing d then true
  else
    let read_done := is_read_closed (conn d) in
    if negb should_read_first && read_done then true
    else
      let write_done := is_write_closed (conn d) ||
        (negb (dp_should_poll (dispatch d)) && negb (match body_rx d with Some _ => true | None => false end)) in
      read_done && write_done.

(** [self.dispatch.recv_msg(msg)?] *)
Definition recv_msg (msg : result Response Error) : PM Error Dispatcher unit := fun d =>
  let '(r, disp, s) := dp_recv_msg msg (dispatch d) (bodies d) in
  (r, set_bodies s (set_dispatch disp d)).

(** [self.body_tx = Some(tx)]: an old sender would be dropped. *)
Definition replace_body_tx (tx : Sender) (d : Dispatcher) : Dispatcher :=
  let d := match body_tx d with Some old => set_bodies (sender_drop old (bodies d)) d | None => d end in
  set_body_tx (Some tx) d.

Definition drop_body (tx : Sender) (d : Dispatcher) : Dispatcher := set_bodies (sender_drop tx (bodies d)) d.

(** ** Reading *)

(** The body for a head that was read, and the upgrade handle. *)
Definition make_body (l : DecodedLength.DecodedLength) (wants : Wants) (d : Dispatcher) : Incoming * Dispatcher :=
  if decide (l = DecodedLength.ZERO) then (Incoming.empty, d)
  else
    let '(tx, rx, s) := new_channel l (wants_contains wants W_EXPECT) (bodies d) in
    (rx, replace_body_tx tx (set_bodies s d)).

Definition make_upgrade (wants : Wants) (d : Dispatcher) : option Z * Dispatcher :=
  if wants_contains wants W_UPGRADE then
    (Some (upgrades d),
     mkDispatcher (on_upgrade (upgrades d) (conn d)) (dispatch d) (body_tx d) (body_rx d) (is_closing d)
       (bodies d) (upgrades d + 1))
  else (None, d).

Definition poll_read_head (fuel : nat) : PM Error Dispatcher unit := fun d =>
  match dp_poll_ready (dispatch d) with
  | RVal _ =>
      let '(r, c) := Conn.poll_read_head fuel (conn d) in
      let d := set_conn c d in
      match r with
      | RVal (Some (head, body_len, wants)) =>
          let '(body, d) := make_body body_len wants d in
          let '(upgrade, d) := make_upgrade wants d in
          recv_msg (Ok (head, body, upgrade)) d
      | RErr err =>
          match recv_msg (Err err) d with
          | (RVal _, d) => (RVal tt, close d)
          | r => r
          end
      | RVal None => (RVal tt, if is_write_closed (conn d) then close d else d)
      | RPending => (RPending, d)
      | RPanic => (RPanic, d)
      | RFuel => (RFuel, d)
      end
  | RErr _ => (RVal tt, close d)
  | RPending => (RPending, d)
  | RPanic => (RPanic, d)
  | RFuel => (RFuel, d)
  end.

(** The answer of the body's reader: keep the sender, or stop reading. *)
Definition after_send (accepted : bool) (body : Sender) (d : Dispatcher) : Dispatcher :=
  if accepted then set_body_tx (Some body) d
  else
    let d := if can_read_body (conn d) then set_conn (close_read (conn d)) d else d in
    drop_body body d.

(** One frame for a reader that is ready for it. *)
Definition forward_frame (fuel : nat) (body : Sender) : PM Error Dispatcher unit := fun d =>
  let '(r, c) := poll_read_body fuel (conn d) in
  let d := set_conn c d in
  match r with
  | RVal (Some (Decode.FData chunk)) =>
      match try_send_data chunk body (bodies d) with
      | Some (Ok _, s) => (RVal tt, after_send true body (set_bodies s d))
      | Some (Err _, s) => (RVal tt, after_send false body (set_bodies s d))
      | None => (RPanic, d)
      end
  | RVal (Some (Decode.FTrailers t)) =>
      match try_send_trailers t body (bodies d) with
      | (Ok _, body, s) => (RVal tt, after_send true body (set_bodies s d))
      | (Err _, body, s) => (RVal tt, after_send false body (set_bodies s d))
      end
  | RVal None => (RVal tt, drop_body body d)
  | RPending => (RPending, set_body_tx (Some body) d)
  | RErr e =>
      (RVal tt, drop_body body (set_bodies (send_error (new_body (CauseIo e)) body (bodies d)) d))
  | RPanic => (RPanic, d)
  | RFuel => (RFuel, d)
  end.

(** A turn of the loop for a response body that is being delivered. *)
Definition read_body_turn (fuel : nat) (body : Sender) : PM Error Dispatcher unit := fun d =>
  let d := set_body_tx None d in
  if can_read_body (conn d) then
    let '(r, s) := Incoming.poll_ready body (bodies d) in
    let d := set_bodies s d in
    match r with
    | RVal _ => forward_frame fuel body d
    | RPending => (RPending, set_body_tx (Some body) d)
    | RErr _ =>
        match poll_drain_or_close_read fuel (conn d) with
        | Some c => (RVal tt, drop_body body (set_conn c d))
        | None => (RPanic, d)
        end
    | RPanic => (RPanic, d)
    | RFuel => (RFuel, d)
    end
  else (RVal tt, drop_body body d).

(** [n] bounds the turns of the loop, [fuel] the loops below it. *)
Fixpoint poll_read (fuel n : nat) : PM Error Dispatcher unit := fun d =>
  match n with
  | O => (RFuel, d)
  | S n =>
      if is_closing d then (RVal tt, d)
      else if can_read_head (conn d) then
        pbind (poll_read_head fuel) (fun _ => poll_read fuel n) d
      else
        match body_tx d with
        | Some body => pbind (read_body_turn fuel body) (fun _ => poll_read fuel n) d
        | None => let '(r, c) := poll_read_keep_alive (conn d) in (r, set_conn c d)
        end
  end.

(** ** Writing *)

Definition poll_flush (fuel : nat) : PM Error Dispatcher unit := fun d =>
  let '(r, c) := Conn.poll_flush fuel (conn d) in
  (match r with
   | RVal t => RVal t | RPending => RPending | RErr e => RErr (new_body_write (CauseIo e))
   | RPanic => RPanic | RFuel => RFuel
   end, set_conn c d).

(** A connection operation that panics or not. *)
Definition on_conn (r : option (Conn (T := T) (B := B))) (d : Dispatcher) : poll_res Error unit * Dispatcher :=
  match r with Some c => (RVal tt, set_conn c d) | None => (RPanic, d) end.

Definition end_body : PM Error Dispatcher unit := fun d =>
  match Conn.end_body (conn d) with
  | Some (Ok _, c) => (RVal tt, set_conn c d)
  | Some (Err e, c) => (RErr e, set_conn c d)
  | None => (RPanic, d)
  end.

(** How the body is announced to the head's encoder. *)
Definition body_type (body : Bs) : option BodyLength :=
  if body_is_end_stream body then None
  else Some (match body_size_exact body with Some n => Known n | None => Unknown end).

(** A new request: the boolean tells whether the loop goes on. *)
Definition write_message : PM Error Dispatcher bool := fun d =>
  let '(r, disp) := dp_poll_msg (dispatch d) in
  let d := set_dispatch disp d in
  match r with
  | RVal (Some (head, body)) =>
      let d := set_body_rx (if body_is_end_stream body then None else Some body) d in
      match write_head uri_display head (body_type body) (conn d) with
      | Some c => (RVal true, set_conn c d)
      | None => (RPanic, d)
      end
  | RVal None => (RVal false, close d)
  | RErr e => (RErr (new_user_service (poll_error_cause e)), d)
  | RPending => (RPending, d)
  | RPanic => (RPanic, d)
  | RFuel => (RFuel, d)
  end.

(** The next frame of the request body; the guard clears [body_rx] on the paths
    that end the body. *)
Definition write_frame (body : Bs) : PM Error Dispatcher unit := fun d =>
  if negb (can_write_body (conn d)) then (RVal tt, set_body_rx None d)
  else
    let '(r, body) := body_poll_frame body in
    let kept := set_body_rx (Some body) d in
    let cleared := set_body_rx None d in
    match r with
    | RPending => (RPending, kept)
    | RErr e => (RErr (new_user_body e), cleared)
    | RVal (Some (DataFrame chunk)) =>
        if body_is_end_stream body then
          if remaining chunk =? 0 then end_body cleared
          else on_conn (write_body_and_end chunk (conn d)) cleared
        else if remaining chunk =? 0 then (RVal tt, kept)
        else on_conn (write_body chunk (conn d)) kept
    | RVal (Some (TrailersFrame t)) => on_conn (write_trailers t (conn d)) cleared
    | RVal (Some UnknownFrame) => (RVal tt, kept)
    | RVal None => end_body cleared
    | RPanic => (RPanic, kept)
    | RFuel => (RFuel, kept)
    end.

Fixpoint poll_write (fuel n : nat) : PM Error Dispatcher unit := fun d =>
  match n with
  | O => (RFuel, d)
  | S n =>
      if is_closing d then (RVal tt, d)
      else if negb (match body_rx d with Some _ => true | None => false end) && can_write_head (conn d)
              && dp_should_poll (dispatch d) then
        pbind write_message (fun again => if again : bool then poll_write fuel n else pret tt) d
      else if negb (can_buffer_body (conn d)) then pbind (poll_flush fuel) (fun _ => poll_write fuel n) d
      else
        match body_rx d with
        | Some body => pbind (write_frame body) (fun _ => poll_write fuel n) d
        | None =>
            if can_write_body (conn d) then pbind end_body (fun _ => poll_write fuel n) d
            else (RPending, d)
        end
  end.

(** ** The task *)

(** [let _ = m?]: [Pending] does not stop the loop. *)
Definition try_poll (m : PM Error Dispatcher unit) : PM Error Dispatcher unit := fun d =>
  match m d with (RPending, d) => (RVal tt, d) | r => r end.

(** [k] turns are left; after the last the task yields. *)
Fixpoint poll_turns (fuel k : nat) : PM Error Dispatcher unit := fun d =>
  match k with
  | O => (RPending, d)
  | S k =>
      (pbind (try_poll (poll_read fuel fuel)) (fun _ =>
       pbind (try_poll (poll_write fuel fuel)) (fun _ =>
       pbind (try_poll (poll_flush fuel)) (fun _ d =>
         let '(again, c) := wants_read_again (conn d) in
         let d := set_conn c d in
         if again then poll_turns fuel k d else (RVal tt, d))))) d
  end.

Definition poll_loop (fuel : nat) : PM Error Dispatcher unit := poll_turns fuel 16.

Definition take_error : PM Error Dispatcher unit := fun d =>
  match Conn.take_error (conn d) with
  | (Ok _, c) => (RVal tt, set_conn c d)
  | (Err e, c) => (RErr e, set_conn c d)
  end.

Definition poll_shutdown : PM Error Dispatcher unit := fun d =>
  let '(r, c) := Conn.poll_shutdown (conn d) in
  (match r with
   | RVal t => RVal t | RPending => RPending | RErr e => RErr (new_shutdown e) | RPanic => RPanic | RFuel => RFuel
   end, set_conn c d).

Definition poll_inner (fuel : nat) (should_shutdown : bool) : PM Error Dispatcher Dispatched :=
  pbind (poll_loop fuel) (fun _ d =>
    if is_done d then
      let '(pending, c) := pending_upgrade (conn d) in
      let d := set_conn c d in
      match pending with
      | Some tx => pbind take_error (fun _ => pret (Upgrade tx)) d
      | None =>
          pbind (if should_shutdown then poll_shutdown else pret tt) (fun _ =>
          pbind take_error (fun _ => pret Shutdown)) d
      end
    else (RPending, d)).

Definition poll_catch (fuel : nat) (should_shutdown : bool) : PM Error Dispatcher Dispatched := fun d =>
  match poll_inner fuel should_shutdown d with
  | (RErr e, d) =>
      let d := match body_tx d with
               | Some body =>
                   drop_body body
                     (set_bodies (send_error (new_body (CauseText "connection error")) body (bodies d))
                       (set_body_tx None d))
               | None => d
               end in
      pbind (recv_msg (Err e)) (fun _ => pret Shutdown) d
  | r => r
  end.

Definition poll (fuel : nat) : PM Error Dispatcher Dispatched := poll_catch fuel true.
End Dispatcher.

(** ** [Dispatch for Client] *)

Section ClientDispatch.
Context `{HttpCrate} {FS : Type} {fm : FMpsc (result bytes Error) FS} {OS : Type} {os : Oneshot HeaderMap OS}.
Context {Req Hd : Type}.
Abbreviation Resp := (Hd * Incoming * option Z)%type.
Context {CS : Type} {cso : Oneshot (Dispatch.Answer Req Resp) CS}.
Context {M : Type} {mp : Mpsc (Dispatch.Envelope Req) M} {G : Type} {wt : Want G}.

(** The client's end together with what it shares with the callers;
    [cd_senders]: a handle to send requests is left. *)
Record ClientD := mkClientD {
  cd_client : Dispatch.Client;
  cd_shared : Dispatch.Shared (M := M) (G := G);
  cd_chans : CS;
  cd_senders : bool
}.

Definition client_poll_msg (d : ClientD) : poll_res Empty_set (option Req) * ClientD :=
  match Dispatch.poll_msg (cd_senders d) (cd_client d) (cd_shared d) (cd_chans d) with
  | Some (r, c, sh, cs) => (r, mkClientD c sh cs (cd_senders d))
  | None => (RPanic, d)
  end.

(** Whether the caller takes the response. *)
Definition delivered (c : Dispatch.Client) (cs : CS) : bool :=
  match Dispatch.callback c with
  | Some cb => match Dispatch.is_canceled cb cs with Some gone => negb gone | None => false end
  | None => false
  end.

(** A response nobody takes is dropped with its body. *)
Definition client_recv_msg (msg : result Resp Error) (d : ClientD) (s : BStore (FS := FS) (OS := OS))
  : poll_res Error unit * ClientD * BStore (FS := FS) (OS := OS) :=
  match Dispatch.recv_msg (cd_senders d) msg (cd_client d) (cd_shared d) (cd_chans d) with
  | Some (r, c, sh, cs) =>
      (match r with Ok _ => RVal tt | Err e => RErr e end, mkClientD c sh cs (cd_senders d),
       match msg with
       | Ok (_, body, _) => if delivered (cd_client d) (cd_chans d) then s else incoming_drop body s
       | Err _ => s
       end)
  | None => (RPanic, d, s)
  end.

Definition client_poll_ready (d : ClientD) : poll_res unit unit :=
  match Dispatch.poll_ready (cd_client d) (cd_chans d) with
  | Some (Ok _) => RVal tt
  | Some (Err _) => RErr tt
  | None => RPanic
  end.

#[global] Instance client_dispatch : DispatchT ClientD Req Resp (BStore (FS := FS) (OS := OS)) := {
  PollError := Empty_set;
  poll_error_cause e := match e with end;
  dp_poll_msg := client_poll_msg;
  dp_recv_msg := client_recv_msg;
  dp_poll_ready := client_poll_ready;
  dp_should_poll d := Dispatch.should_poll (cd_client d)
}.
End ClientDispatch.
End Dispatcher.
