(* ===== verification/DispatcherFacts.v ===== *)
(** * Invariant of the dispatcher and the effect of its parts

    [disp_wf] is what holds between any two actions of a connection's task;
    every action keeps it, makes only calls of [Conn] and of the request channel
    that their own contracts allow, and does not add to the work that is left. *)

From S2P Require Import Prelude Buf Http HeaderWrite WriteBuf Encode EncodeProps Decode DecodeFacts DecodeProps Error Io IoFacts Role RoleFacts RoleProps Conn ConnFacts ConnOps ConnFlow ConnProps Oneshot Incoming Dispatch Dispatcher.
Import Error Role Conn EncodeFacts.

(** ** What the dispatcher relies on *)

(** A request body that ends: [body_left] bounds the bytes and the frames that
    are still to come. *)
Class BodyLaws (Bs B : Type) `{BufLaws B} `{HttpCrate} {bd : Body Bs B HeaderMap} := {
  body_ok : Bs -> Prop;
  body_left : Bs -> Z;
  body_left_nonneg b : 0 <= body_left b;
  body_size_ok b n : body_ok b -> body_size_exact b = Some n -> wf_u64 n;
  body_frame_ok b :
    body_ok b ->
    match body_poll_frame b with
    | (RVal (Some (DataFrame x)), b') =>
        body_ok b' /\ buf_wf x /\ len (content x) + 30 + body_left b' <= body_left b
    | (RVal (Some (TrailersFrame t)), _) => forall title e, trailer_size t title e + 5 <= body_left b
    | (RVal (Some UnknownFrame), b') => body_ok b' /\ 1 + body_left b' <= body_left b
    | (RPending, b') => body_ok b' /\ body_left b' <= body_left b
    | (RVal None, _) | (RErr _, _) => True
    | (RPanic, _) | (RFuel, _) => False
    end
}.

Section Laws.
Context {BC : BytesCrate} {BCL : BytesCrateLaws} {AL : Alloc} {ALL : AllocLaws} `{HttpLaws} `{HttparseLaws}.
Context {B : Type} {HB : Buf B} {HBL : BufLaws B} {Uri : Type} (uri_display : Uri -> bytes).
Context {FS : Type} {fm : FMpsc (result bytes Error) FS} {fml : FMpscLaws (result bytes Error) FS}.
Context {OS : Type} {os : Oneshot HeaderMap OS}.
Context {Bs : Type} {bd : Body Bs B HeaderMap} {bdl : BodyLaws Bs B}.

Abbreviation Bodies := (Incoming.BStore (FS := FS) (OS := OS)).
Abbreviation Request := (MessageHead (RequestLine (Uri := Uri)) * Bs)%type.
Abbreviation Response := (MessageHead StatusCode * Incoming.Incoming * option Z)%type.

(** The cells by which readers ask for data hold one of the three values. *)
Definition bodies_ok (s : Bodies) : Prop :=
  forall w v, Incoming.bs_watch s !! w = Some v -> v = 0 \/ v = 1 \/ v = 2.

(** A request that can be written: its version has a wire form, its body ends,
    and head and body together are at most [n] bytes and frames. *)
Definition request_fits (n : Z) (r : Request) : Prop :=
  supported (head_version r.1) /\ body_ok r.2 /\
  exists h, 0 <= h /\ h + 10 + body_left r.2 <= n /\
    forall s title out e m,
      client_encode uri_display (enforce_version r.1 s).1 (Dispatcher.body_type (B := B) r.2) title [] = Some (out, e, m) ->
      len out <= h.

(** What a [Dispatch] promises: it does not panic, and the requests it still has
    are at most [dp_left] bytes and frames. *)
Class DispatchLaws (D : Type) {dp : DispatchT D Request Response Bodies} := {
  dp_ok : D -> Prop;
  dp_left : D -> Z;
  dp_left_nonneg d : 0 <= dp_left d;
  dp_msg_ok d :
    dp_ok d -> dp_should_poll d = true ->
    match dp_poll_msg d with
    | (RVal (Some r), d') => dp_ok d' /\ request_fits (dp_left d - dp_left d') r
    | (RVal None, d') | (RPending, d') | (RErr _, d') => dp_ok d' /\ dp_left d' <= dp_left d
    | (RPanic, _) | (RFuel, _) => False
    end;
  dp_recv_ok msg d s :
    dp_ok d ->
    match dp_recv_msg msg d s with
    | (RVal _, d', s') | (RErr _, d', s') =>
        dp_ok d' /\ dp_left d' <= dp_left d /\ (bodies_ok s -> bodies_ok s')
    | (RPending, _, _) | (RPanic, _, _) | (RFuel, _, _) => False
    end;
  dp_ready_ok d : dp_ok d -> dp_poll_ready d <> RPanic /\ dp_poll_ready d <> RFuel
}.

(** The calls a dispatcher may make on it. *)
Inductive disp_step {D} {dp : DispatchT D Request Response Bodies} : D -> D -> Prop :=
| ds_msg d r d' : dp_should_poll d = true -> dp_poll_msg d = (r, d') -> disp_step d d'
| ds_recv msg d s r d' s' : dp_recv_msg msg d s = (r, d', s') -> disp_step d d'.

(** ** The response bodies *)

Import Incoming.

Lemma send_ok w v ws :
  v = 0 \/ v = 1 \/ v = 2 -> (forall x y, ws !! x = Some y -> y = 0 \/ y = 1 \/ y = 2) ->
  forall x y, Watch.watch_send w v ws !! x = Some y -> y = 0 \/ y = 1 \/ y = 2.
Proof. intros Hv Hws x y. unfold Watch.watch_send. rewrite lookup_insert_Some. naive_solver. Qed.

Lemma new_channel_ok l wanter s : bodies_ok s -> bodies_ok (new_channel l wanter s).2.
Proof.
  intros Hs. unfold new_channel. destruct (fm_new (bs_data s)) as [[tx rx] fs].
  destruct (chan_new (bs_trailers s)) as [tr ts]. cbn. unfold bodies_ok. cbn.
  apply (send_ok _ (if wanter then WANT_PENDING else WANT_READY)); [|done]. destruct wanter; cbn; auto.
Qed.

Lemma sender_poll_ready_ok tx s :
  bodies_ok s -> (Incoming.poll_ready tx s).1 <> RPanic /\ (Incoming.poll_ready tx s).1 <> RFuel /\
    bodies_ok (Incoming.poll_ready tx s).2.
Proof.
  intros Hs. unfold Incoming.poll_ready, poll_want, Watch.watch_load.
  assert (exists v, default Watch.CLOSED (bs_watch s !! want_rx tx) = v /\ (v = 0 \/ v = 1 \/ v = 2)) as (v & -> & Hv).
  { destruct (bs_watch s !! want_rx tx) as [v|] eqn:E; cbn; eauto. }
  destruct Hv as [-> | [-> | ->]]; cbn; [done..|].
  pose proof (fm_ready_total (data_tx tx) (bs_data s)) as [? ?].
  destruct (fm_poll_ready (data_tx tx) (bs_data s)) as [[u| |e| |] fs]; done.
Qed.

Lemma try_send_data_ok x tx s :
  bodies_ok s -> exists r s', try_send_data x tx s = Some (r, s') /\ bodies_ok s'.
Proof.
  intros Hs. unfold try_send_data. pose proof (fm_refused (data_tx tx) (Ok x) (bs_data s)) as Hr.
  destruct (fm_try_send (data_tx tx) (Ok x) (bs_data s)) as [[b|] fs]; [|by eexists _, _].
  rewrite (Hr b eq_refl). by eexists _, _.
Qed.

Lemma try_send_trailers_ok t tx s : bodies_ok s -> bodies_ok (try_send_trailers t tx s).2.
Proof.
  intros Hs. unfold try_send_trailers. destruct (trailers_tx tx) as [tr|]; [|done].
  by destruct (tx_send tr t false (bs_trailers s)).
Qed.

Lemma send_error_ok e tx s : bodies_ok s -> bodies_ok (send_error e tx s).
Proof.
  intros Hs. unfold send_error. destruct (fm_clone (data_tx tx) (bs_data s)) as [tx' fs].
  by destruct (fm_try_send tx' (Err e) fs).
Qed.

Lemma sender_drop_ok tx s : bodies_ok s -> bodies_ok (sender_drop tx s).
Proof. done. Qed.

Lemma incoming_drop_ok i s : bodies_ok s -> bodies_ok (incoming_drop i s).
Proof.
  intros Hs. unfold incoming_drop. destruct (kind i) as [|l w rx tr]; [done|].
  unfold bodies_ok. cbn. apply send_ok; [|done]. by left.
Qed.
End Laws.

(** ** The invariant *)

Section Invariant.
Context {BC : BytesCrate} {BCL : BytesCrateLaws} {AL : Alloc} {ALL : AllocLaws} `{HttpLaws} `{HttparseLaws}.
Context {T : Type} `{TransportLaws T} {B : Type} {HB : Buf B} {HBL : BufLaws B}.
Context {Uri : Type} (uri_display : Uri -> bytes).
Context {FS : Type} {fm : FMpsc (result bytes Error) FS} {fml : FMpscLaws (result bytes Error) FS}.
Context {OS : Type} {os : Oneshot HeaderMap OS}.
Context {Bs : Type} {bd : Body Bs B HeaderMap} {bdl : BodyLaws Bs B}.
Abbreviation Req := (MessageHead (RequestLine (Uri := Uri)) * Bs)%type.
Abbreviation Resp := (MessageHead StatusCode * Incoming.Incoming * option Z)%type.
Context {D : Type} {dp : DispatchT D Req Resp (Incoming.BStore (FS := FS) (OS := OS))} {dpl : DispatchLaws uri_display D}.
Import Incoming Dispatcher.

Abbreviation Disp := (Dispatcher (T := T) (B := B) (FS := FS) (OS := OS) (Bs := Bs) (D := D)).
Implicit Types d : Disp.
Implicit Types c : Conn (T := T) (B := B).

(** A request body that is being written still has its end to come. *)
Definition reserve c : Z := if can_write_body c then 5 else 0.
Definition rx_left (b : option Bs) : Z := match b with Some b => 1 + body_left b | None => 0 end.

(** What is in the write buffer and what may still come into it. *)
Definition load d : Z :=
  foot (write_buf (conn_io (conn d))) + reserve (conn d) + rx_left (body_rx d) + dp_left uri_display (dispatch d).

Definition inflow d : nat := length (incoming (conn_io (conn d))).

Record disp_wf d : Prop := {
  dw_conn : conn_wf (conn d);
  dw_dispatch : dp_ok uri_display (dispatch d);
  dw_body : forall b, body_rx d = Some b -> body_ok b;
  dw_bodies : bodies_ok (bodies d);
  dw_flush : flush_pipeline (conn_io (conn d)) = false /\ 0 < max_buf_size (write_buf (conn_io (conn d)));
  dw_load : load d <= usize_max
}.

(** One action: the invariant is kept, every call was allowed, and no work was
    added. *)
Record good d d' : Prop := {
  gd_wf : disp_wf d';
  gd_conn : rtc (conn_step uri_display) (conn d) (conn d');
  gd_dispatch : rtc disp_step (dispatch d) (dispatch d');
  gd_inflow : (inflow d' <= inflow d)%nat;
  gd_load : load d' <= load d;
  gd_closing : is_closing d = true -> is_closing d' = true
}.

Lemma good_refl d : disp_wf d -> good d d.
Proof. intros Hd. split; done || lia. Qed.

Lemma good_trans d d1 d2 : good d d1 -> good d1 d2 -> good d d2.
Proof.
  intros [_ Hc1 Hd1 Hi1 Hl1 Hx1] [Hw Hc2 Hd2 Hi2 Hl2 Hx2]. split; auto; try lia; by etransitivity.
Qed.

(** Enough fuel for every loop of one poll. *)
Definition fuelled d (fuel : nat) : Prop := (inflow d + Z.to_nat (load d) < fuel)%nat.

Lemma foot_nonneg (w : WriteBuf (Encode.EncodedBuf B)) : 0 <= foot w.
Proof. unfold foot. len_lia. Qed.

Lemma rx_left_nonneg b : 0 <= rx_left b.
Proof. destruct b as [b|]; cbn; [|lia]. pose proof (body_left_nonneg b). lia. Qed.

Lemma load_parts d :
  0 <= foot (write_buf (conn_io (conn d))) /\ 0 <= reserve (conn d) /\ 0 <= rx_left (body_rx d) /\
  0 <= dp_left uri_display (dispatch d) /\ 0 <= load d.
Proof.
  pose proof (foot_nonneg (write_buf (conn_io (conn d)))). pose proof (rx_left_nonneg (body_rx d)).
  pose proof (dp_left_nonneg uri_display (dispatch d)). unfold load, reserve. destruct (can_write_body (conn d)); lia.
Qed.

Lemma fuelled_good d d' fuel : good d d' -> fuelled d fuel -> fuelled d' fuel.
Proof.
  intros [_ _ _ Hi Hl _]. unfold fuelled. pose proof (load_parts d'). lia.
Qed.

Lemma fuelled_enough d fuel : disp_wf d -> fuelled d fuel -> enough (conn d) fuel.
Proof.
  intros [(_ & _ & Hb & _) _ _ _ _ _] Hf. unfold enough, fuelled in *. fold (inflow d).
  pose proof (foot_pos _ Hb) as Ef. destruct Hb as [[Hp _] _]. pose proof (load_parts d). unfold load, len in *. lia.
Qed.

(** The connection has room for what is left. *)
Lemma load_room d n : disp_wf d -> n <= load d - foot (write_buf (conn_io (conn d))) -> room (conn d) n.
Proof. intros [_ _ _ _ _ Hl] Hn. unfold room. fold (foot (write_buf (conn_io (conn d)))). lia. Qed.

(** A call of the connection: what it adds to the write buffer is taken from
    what was to come. *)
Lemma conn_good d c n rx :
  disp_wf d -> conn_step uri_display (conn d) c -> flow n (conn d) c ->
  (forall b, rx = Some b -> body_ok b) ->
  n + reserve c + rx_left rx <= reserve (conn d) + rx_left (body_rx d) ->
  good d (set_conn c (set_body_rx rx d)).
Proof.
  intros [Hc Hd Hb Hs [Hf Hm] Hl] Hst (Hi & Hfl & Ef & Em & _) Hrx Hn.
  assert (load (set_conn c (set_body_rx rx d)) <= load d) as Hload by (unfold load in *; cbn; lia).
  split; try done; [|by apply rtc_once].
  split; try done; [by apply (conn_step_ok uri_display (conn d))| |lia].
  cbn. rewrite Ef, Em. done.
Qed.

Lemma set_conn_same_rx d c : set_conn c (set_body_rx (body_rx d) d) = set_conn c d.
Proof. by destruct d. Qed.

(** The same for the calls that write nothing. *)
Lemma read_good d c :
  disp_wf d -> conn_step uri_display (conn d) c -> flow 0 (conn d) c -> wkeep (conn d) c -> good d (set_conn c d).
Proof.
  intros Hd Hst Hfl Hk. rewrite <- set_conn_same_rx. apply (conn_good d c 0); try done; [apply Hd|].
  unfold reserve, can_write_body. destruct (writing (state c)) as [|e| |] eqn:E; try (repeat case_match; lia).
  rewrite (Hk e E). lia.
Qed.

(** Changes that do not concern the connection. *)
Lemma side_good d d' :
  disp_wf d -> conn d' = conn d -> dispatch d' = dispatch d -> bodies_ok (bodies d') ->
  (body_rx d' = body_rx d \/ body_rx d' = None) -> (is_closing d = true -> is_closing d' = true) -> good d d'.
Proof.
  intros [Hc Hd Hb Hs Hf Hl] Ec Ed Hs' Hrx Hcl.
  assert (load d' <= load d) as Hload.
  { unfold load. rewrite Ec, Ed. pose proof (rx_left_nonneg (body_rx d)). destruct Hrx as [-> | ->]; cbn; lia. }
  split; [|by rewrite Ec|by rewrite Ed|unfold inflow; by rewrite Ec|done|done].
  split; rewrite ?Ec, ?Ed; try done; [|lia]. intros b E. apply Hb. destruct Hrx; congruence.
Qed.

(** A computation that returns, by an action. *)
Definition returns {E A} d (out : poll_res E A * Disp) : Prop :=
  out.1 <> RPanic /\ out.1 <> RFuel /\ good d out.2.

Lemma returns_good {E A} d d1 (out : poll_res E A * Disp) : good d d1 -> returns d1 out -> returns d out.
Proof. intros Hg (? & ? & ?). split; [done|]. split; [done|]. by eapply good_trans. Qed.

Lemma returns_intro {E A} d (r : poll_res E A) d' : r <> RPanic -> r <> RFuel -> good d d' -> returns d (r, d').
Proof. done. Qed.

Lemma returns_bind {E A C} d (m : PM E Disp A) (k : A -> PM E Disp C) :
  returns d (m d) -> (forall a d1, m d = (RVal a, d1) -> good d d1 -> returns d1 (k a d1)) ->
  returns d (pbind m k d).
Proof.
  intros (Hp & Hf & Hg) Hk. unfold pbind. destruct (m d) as [[a| |e| |] d1]; try done.
  eapply returns_good; [exact Hg|]. by apply Hk.
Qed.

Lemma close_good d : disp_wf d -> good d (close d).
Proof.
  intros Hd. unfold close.
  assert (good d (set_conn (close_write (close_read (conn d))) d)) as Hg.
  { eapply good_trans; [apply (read_good d (close_read (conn d)) Hd); [constructor|by apply bflow_refl|by intros ?]|].
    set (d1 := set_conn (close_read (conn d)) d).
    assert (disp_wf d1) as Hd1.
    { apply (gd_wf d). apply read_good; [done|constructor|by apply bflow_refl|by intros ?]. }
    apply (read_good d1 (close_write (conn d1)) Hd1); [constructor|by apply bflow_refl|by intros ?]. }
  eapply good_trans; [exact Hg|]. apply side_good; try done; [apply Hg|by apply Hg|by left].
Qed.

(** ** Reading *)

Lemma recv_returns msg d : disp_wf d -> returns d (recv_msg msg d).
Proof.
  intros [Hc Hd Hb Hs Hf Hl]. unfold recv_msg. pose proof (dp_recv_ok uri_display msg (dispatch d) (bodies d) Hd) as Hr.
  destruct (dp_recv_msg msg (dispatch d) (bodies d)) as [[r dd] s] eqn:E.
  assert (forall x : poll_res Error unit, x = r -> (x = RVal tt \/ exists e, x = RErr e) ->
    dp_ok uri_display dd /\ dp_left uri_display dd <= dp_left uri_display (dispatch d) /\ (bodies_ok (bodies d) -> bodies_ok s)) as Hcase.
  { intros x -> [-> | [e ->]]; exact Hr. }
  assert (r <> RPanic /\ r <> RFuel /\ (r = RVal tt \/ exists e, r = RErr e)) as (Hp & Hfu & Hx).
  { destruct r as [[]| |e| |]; try done; split_and!; eauto. }
  destruct (Hcase r eq_refl Hx) as (Hd' & Hl' & Hs'). split; [done|]. split; [done|]. cbn [snd].
  assert (load (set_bodies s (set_dispatch dd d)) <= load d) as Hload by (unfold load; cbn; lia).
  split; cbn; try done; [split; cbn; auto; lia|]. apply rtc_once. by eapply ds_recv.
Qed.

Lemma recv_keeps msg d r d' :
  recv_msg msg d = (r, d') -> conn d' = conn d /\ is_closing d' = is_closing d /\ body_tx d' = body_tx d.
Proof. unfold recv_msg. destruct (dp_recv_msg _ _ _) as [[x dd] s]. by intros [= <- <-]. Qed.

Lemma make_body_good l w d :
  disp_wf d -> good d (make_body l w d).2 /\ conn (make_body l w d).2 = conn d.
Proof.
  intros Hd. pose proof Hd as [_ _ _ Hs _ _]. unfold make_body. case_decide; [by split; [apply good_refl|]|].
  pose proof (new_channel_ok l (wants_contains w W_EXPECT) (bodies d) Hs) as Hn.
  destruct (new_channel l (wants_contains w W_EXPECT) (bodies d)) as [[tx rx] s]. cbn [snd] in *.
  unfold replace_body_tx. cbn [body_tx set_bodies]. destruct (body_tx d); (split; [|done]); apply side_good; try done; by left.
Qed.

Lemma make_upgrade_good w d :
  disp_wf d -> good d (make_upgrade w d).2 /\ can_read_head (conn (make_upgrade w d).2) = can_read_head (conn d).
Proof.
  intros Hd. unfold make_upgrade. destruct (wants_contains w W_UPGRADE); [|by split; [apply good_refl|]].
  split; [|done]. cbn [snd].
  assert (good d (set_conn (on_upgrade (upgrades d) (conn d)) d)) as Hg.
  { apply read_good; [done|constructor|by apply bflow_refl|by intros ?]. }
  eapply good_trans; [exact Hg|]. apply side_good; try done; [apply Hg|by apply Hg|by left].
Qed.

Lemma read_head_returns fuel d :
  disp_wf d -> fuelled d fuel -> can_read_head (conn d) = true ->
  returns d (poll_read_head fuel d) /\
  (forall d', poll_read_head fuel d = (RVal tt, d') -> is_closing d' = true \/ can_read_head (conn d') = false).
Proof.
  intros Hd Hf Hg. pose proof Hd as [Hc Hdp _ _ _ _]. pose proof (fuelled_enough d fuel Hd Hf) as Hen.
  pose proof (enough_read _ _ Hen) as (_ & Hi & _). unfold poll_read_head.
  pose proof (dp_ready_ok uri_display (dispatch d) Hdp) as [Hr1 Hr2]. pose proof (close_good d Hd) as Hcl.
  pose proof (good_refl d Hd) as Hrefl.
  destruct (dp_poll_ready (dispatch d)) as [u| |e| |]; [|split; [|done]|split; [|intros d' [= <-]; by left]|done..].
  2, 3: by apply returns_intro.
  destruct (poll_read_head_ok fuel (conn d) Hc Hg Hi) as (Hp & Hfu & _).
  pose proof (poll_read_head_flow fuel (conn d) Hc Hg Hi) as Hfl.
  pose proof (poll_read_head_wkeep fuel (conn d) Hc Hg Hi) as Hk.
  pose proof (fun x c' => poll_read_head_once fuel (conn d) x c' Hc Hg Hi) as Honce.
  destruct (Conn.poll_read_head fuel (conn d)) as [r c] eqn:E. cbn [fst snd] in *.
  assert (good d (set_conn c d)) as Hgd by (apply read_good; [done|by eapply step_read_head|done|done]).
  pose proof (gd_wf _ _ Hgd) as Hd1. set (d1 := set_conn c d) in *.
  destruct r as [[[[head l] w]|]| |err| |]; try done.
  - specialize (Honce _ c eq_refl). destruct (make_body_good l w d1 Hd1) as [Hg2 Ec2].
    destruct (make_body l w d1) as [body d2]. cbn [snd] in *. pose proof (gd_wf _ _ Hg2) as Hd2.
    destruct (make_upgrade_good w d2 Hd2) as [Hg3 Ec3]. destruct (make_upgrade w d2) as [up d3]. cbn [snd] in *.
    pose proof (gd_wf _ _ Hg3) as Hd3. split.
    + eapply returns_good; [exact Hgd|]. eapply returns_good; [exact Hg2|]. eapply returns_good; [exact Hg3|].
      by apply recv_returns.
    + intros d' Ed. apply recv_keeps in Ed as (-> & _). right. by rewrite Ec3, Ec2.
  - specialize (Honce _ c eq_refl). split.
    + eapply returns_good; [exact Hgd|]. split; [done|]. split; [done|]. cbn [snd].
      destruct (is_write_closed (conn d1)); [by apply close_good|by apply good_refl].
    + intros d' E'. injection E' as <-. destruct (is_write_closed _); [left; reflexivity|right; exact Honce].
  - destruct (recv_returns (Err err) d1 Hd1) as (Hp2 & Hf2 & Hg2).
    destruct (recv_msg (Err err) d1) as [[u2| |e2| |] d2] eqn:Er; try done; cbn [snd] in *.
    + pose proof (gd_wf _ _ Hg2) as Hd2. split.
      * eapply returns_good; [exact Hgd|]. eapply returns_good; [exact Hg2|]. split; [done|]. split; [done|]. by apply close_good.
      * intros d' [= <-]. by left.
    + split; [|done]. by eapply returns_good; [exact Hgd|].
    + split; [|done]. by eapply returns_good; [exact Hgd|].
Qed.

(** A response body is being delivered. *)
Definition delivering d : nat := match body_tx d with Some _ => 1 | None => 0 end.

Lemma drop_body_good tx d : disp_wf d -> good d (drop_body tx d).
Proof. intros Hd. apply side_good; try done; [apply Hd|by left]. Qed.

Lemma set_body_tx_good tx d : disp_wf d -> good d (set_body_tx tx d).
Proof. intros Hd. apply side_good; try done; [apply Hd|by left]. Qed.

Lemma set_bodies_good s d : disp_wf d -> bodies_ok s -> good d (set_bodies s d).
Proof. intros Hd Hs. apply side_good; try done. by left. Qed.

Lemma after_send_good ok tx s d :
  disp_wf d -> bodies_ok s -> can_read_head (conn d) = false ->
  good d (after_send ok tx (set_bodies s d)) /\ can_read_head (conn (after_send ok tx (set_bodies s d))) = false /\
  inflow (after_send ok tx (set_bodies s d)) = inflow d.
Proof.
  intros Hd Hs Hn. pose proof (set_bodies_good s d Hd Hs) as Hg. pose proof (gd_wf _ _ Hg) as Hd1.
  unfold after_send. destruct ok.
  { split; [|done]. eapply good_trans; [exact Hg|]. by apply set_body_tx_good. }
  destruct (can_read_body (conn (set_bodies s d))).
  - split; [|done].
    assert (good (set_bodies s d) (set_conn (close_read (conn (set_bodies s d))) (set_bodies s d))) as Hg2.
    { apply read_good; [done|constructor|by apply bflow_refl|by intros ?]. }
    eapply good_trans; [exact Hg|]. eapply good_trans; [exact Hg2|]. apply drop_body_good, Hg2.
  - split; [|done]. eapply good_trans; [exact Hg|]. by apply drop_body_good.
Qed.

Lemma forward_returns fuel tx d :
  disp_wf d -> fuelled d fuel -> can_read_body (conn d) = true -> body_tx d = None ->
  returns d (forward_frame fuel tx d) /\
  (forall d', forward_frame fuel tx d = (RVal tt, d') ->
     can_read_head (conn d') = false /\ (2 * inflow d' + delivering d' <= 2 * inflow d)%nat).
Proof.
  intros Hd Hf Hg Htx. pose proof Hd as [Hc _ _ _ _ _]. pose proof (fuelled_enough d fuel Hd Hf) as Hen.
  pose proof (enough_read _ _ Hen) as (Hi & _ & _). unfold forward_frame.
  destruct (poll_read_body_ok fuel (conn d) Hc Hg Hi) as (Hp & Hfu & _).
  pose proof (poll_read_body_flow fuel (conn d) Hc Hg) as Hfl.
  pose proof (poll_read_body_wkeep fuel (conn d) Hc Hg) as Hk.
  pose proof (poll_read_body_no_head fuel (conn d) Hc Hg) as Hn.
  pose proof (fun x c' => poll_read_body_frame fuel (conn d) x c' Hc Hg Hi) as Hpr.
  destruct (poll_read_body fuel (conn d)) as [r c] eqn:E. cbn [fst snd] in *.
  assert (good d (set_conn c d)) as Hgd by (apply read_good; [done|by eapply step_read_body|done|done]).
  pose proof (gd_wf _ _ Hgd) as Hd1. pose proof (gd_inflow _ _ Hgd) as Hin. pose proof (dw_bodies _ Hd1) as Hs.
  set (d1 := set_conn c d) in *.
  assert (forall ok tx' s, bodies_ok s -> (inflow d1 < inflow d)%nat ->
    returns d (RVal (E := Error) tt, after_send ok tx' (set_bodies s d1)) /\
    (forall d', (RVal (E := Error) tt, after_send ok tx' (set_bodies s d1)) = (RVal tt, d') ->
     can_read_head (conn d') = false /\ (2 * inflow d' + delivering d' <= 2 * inflow d)%nat)) as Hsent.
  { intros ok tx' s Hs' Hlt. destruct (after_send_good ok tx' s d1 Hd1 Hs' Hn) as (Hg2 & Hn2 & Ei). split.
    - apply returns_intro; try done. by eapply good_trans.
    - intros d' E'. injection E' as <-. split; [done|]. rewrite Ei. unfold delivering. case_match; lia. }
  assert (forall d2, good d1 d2 -> can_read_head (conn d2) = false -> body_tx d2 = None ->
    returns d (RVal (E := Error) tt, d2) /\
    (forall d', (RVal (E := Error) tt, d2) = (RVal tt, d') ->
     can_read_head (conn d') = false /\ (2 * inflow d' + delivering d' <= 2 * inflow d)%nat)) as Hdrop.
  { intros d2 Hg2 Hn2 E2. split; [apply returns_intro; try done; by eapply good_trans|].
    intros d' E'. injection E' as <-. split; [done|]. pose proof (gd_inflow _ _ Hg2). unfold delivering. rewrite E2. lia. }
  destruct r as [[[x|t]|]| |e| |]; try done.
  - destruct (try_send_data_ok x tx (bodies d1) Hs) as ([u|back] & s & -> & Hs'); by apply Hsent; [|apply (Hpr _ c eq_refl)].
  - pose proof (try_send_trailers_ok t tx (bodies d1) Hs) as Hs'.
    destruct (try_send_trailers t tx (bodies d1)) as [[[u|back] tx'] s]; by apply Hsent; [|apply (Hpr _ c eq_refl)].
  - apply Hdrop; [by apply drop_body_good|done|done].
  - split; [|done]. apply returns_intro; try done. eapply good_trans; [exact Hgd|]. by apply set_body_tx_good.
  - pose proof (send_error_ok (new_body (CauseIo e)) tx (bodies d1) Hs) as Hs'.
    pose proof (set_bodies_good _ d1 Hd1 Hs') as Hg2.
    apply Hdrop; [|done|done]. eapply good_trans; [exact Hg2|]. apply drop_body_good, Hg2.
Qed.

Lemma body_turn_returns fuel tx d :
  disp_wf d -> fuelled d fuel -> can_read_head (conn d) = false ->
  returns d (read_body_turn fuel tx d) /\
  (forall d', read_body_turn fuel tx d = (RVal tt, d') ->
     can_read_head (conn d') = false /\ (2 * inflow d' + delivering d' <= 2 * inflow d)%nat).
Proof.
  intros Hd Hf Hn. unfold read_body_turn. pose proof (set_body_tx_good None d Hd) as Hg0.
  set (d0 := set_body_tx None d) in *. pose proof (gd_wf _ _ Hg0) as Hd0. pose proof (fuelled_good _ _ fuel Hg0 Hf) as Hf0.
  assert (forall d2, good d0 d2 -> can_read_head (conn d2) = false -> body_tx d2 = None ->
    returns d (RVal (E := Error) tt, d2) /\
    (forall d', (RVal (E := Error) tt, d2) = (RVal tt, d') ->
     can_read_head (conn d') = false /\ (2 * inflow d' + delivering d' <= 2 * inflow d)%nat)) as Hdrop.
  { intros d2 Hg2 Hn2 E2. split; [apply returns_intro; try done; by eapply good_trans|].
    intros d' E'. injection E' as <-. split; [done|]. pose proof (gd_inflow _ _ Hg2) as Hin. unfold delivering. rewrite E2.
    change (inflow d0) with (inflow d) in Hin. lia. }
  destruct (can_read_body (conn d0)) eqn:Hg; [|apply Hdrop; [by apply drop_body_good|done|done]].
  destruct (sender_poll_ready_ok tx (bodies d0) (dw_bodies _ Hd0)) as (Hp & Hfu & Hs).
  destruct (Incoming.poll_ready tx (bodies d0)) as [r s]. cbn [fst snd] in *.
  pose proof (set_bodies_good s d0 Hd0 Hs) as Hg1. set (d1 := set_bodies s d0) in *.
  pose proof (gd_wf _ _ Hg1) as Hd1. pose proof (fuelled_good _ _ fuel Hg1 Hf0) as Hf1.
  destruct r as [u| |e| |]; try done.
  - destruct (forward_returns fuel tx d1 Hd1 Hf1 Hg eq_refl) as [Hr Hm]. split; [|exact Hm].
    eapply returns_good; [exact Hg0|]. by eapply returns_good; [exact Hg1|].
  - split; [|done]. apply returns_intro; try done. eapply good_trans; [exact Hg0|]. eapply good_trans; [exact Hg1|].
    by apply set_body_tx_good.
  - pose proof (enough_read _ _ (fuelled_enough d1 fuel Hd1 Hf1)) as (Hi & _ & _).
    destruct (poll_drain_ok fuel (conn d1) (dw_conn _ Hd1) Hg Hi) as (c & Ec & _). rewrite Ec.
    destruct (poll_drain_wkeep fuel (conn d1) c (dw_conn _ Hd1) Hg Ec) as [Hk Hn1].
    assert (good d1 (set_conn c d1)) as Hg2.
    { apply read_good; [done|by eapply step_drain; [|apply fuelled_enough|]|by eapply poll_drain_flow; [apply Hd1| |]|done]. }
    apply Hdrop; [|done|done]. eapply good_trans; [exact Hg1|]. eapply good_trans; [exact Hg2|]. apply drop_body_good, Hg2.
Qed.

(** What is left for the read loop. *)
Definition read_work d : nat :=
  2 * inflow d + delivering d + (if can_read_head (conn d) then 2 else 0).

Lemma poll_read_returns fuel n d :
  disp_wf d -> fuelled d fuel -> is_closing d = true /\ (0 < n)%nat \/ (read_work d < n)%nat ->
  returns d (poll_read fuel n d).
Proof.
  revert d. induction n as [|n IH]; intros d Hd Hf Hn; [destruct Hn; lia|]. cbn [poll_read].
  destruct (is_closing d) eqn:Ecl; [apply returns_intro; try done; by apply good_refl|].
  destruct Hn as [[? _]|Hn]; [done|]. unfold read_work in Hn. destruct (can_read_head (conn d)) eqn:Ehead.
  - destruct (read_head_returns fuel d Hd Hf Ehead) as [Hr Hm]. apply returns_bind; [done|].
    intros [] d1 E Hg. apply IH; [apply Hg|by eapply fuelled_good|]. destruct (Hm d1 E) as [?|Eh]; [left; split; [done|lia]|].
    right. unfold read_work. rewrite Eh. pose proof (gd_inflow _ _ Hg). unfold delivering. case_match; lia.
  - destruct (body_tx d) as [tx|] eqn:Etx.
    + destruct (body_turn_returns fuel tx d Hd Hf Ehead) as [Hr Hm]. apply returns_bind; [done|].
      intros [] d1 E Hg. apply IH; [apply Hg|by eapply fuelled_good|]. destruct (Hm d1 E) as [Eh Hlt].
      right. unfold read_work. rewrite Eh. unfold delivering in Hn at 1. rewrite Etx in Hn. lia.
    + destruct (poll_read_keep_alive_ok (conn d) (dw_conn _ Hd)) as (Hp & Hfu & _).
      pose proof (poll_read_keep_alive_flow (conn d) ltac:(apply (dw_conn _ Hd))) as Hfl.
      pose proof (poll_read_keep_alive_wkeep (conn d)) as Hk.
      destruct (poll_read_keep_alive (conn d)) as [r c] eqn:E. cbn [fst snd] in *.
      apply returns_intro; try done. apply read_good; [done|by eapply step_read_keep_alive|done|done].
Qed.

(** ** Writing *)

Lemma reserve_bound c : 0 <= reserve c <= 5.
Proof. unfold reserve. case_match; lia. Qed.

Lemma rx_good rx d :
  disp_wf d -> (forall b, rx = Some b -> body_ok b) -> rx_left rx <= rx_left (body_rx d) -> good d (set_body_rx rx d).
Proof.
  intros [Hc Hd Hb Hs Hf Hl] Hrx Hle.
  assert (load (set_body_rx rx d) <= load d) as Hload by (unfold load; cbn; lia).
  split; try done. split; try done. lia.
Qed.

Lemma flush_returns fuel d :
  disp_wf d -> fuelled d fuel ->
  returns d (poll_flush fuel d) /\
  (forall d', poll_flush fuel d = (RVal tt, d') ->
     can_buffer_body (conn d') = true /\ (can_write_body (conn d') = true -> can_write_body (conn d) = true) /\
     body_rx d' = body_rx d /\ dispatch d' = dispatch d).
Proof.
  intros Hd Hf. pose proof Hd as [Hc _ _ _ [Hfp Hm] _]. pose proof (fuelled_enough d fuel Hd Hf) as Hen.
  pose proof (enough_read _ _ Hen) as (_ & _ & Hi). unfold poll_flush.
  destruct (conn_poll_flush_ok fuel (conn d) Hc Hi) as (Hp & Hfu & _).
  pose proof (poll_flush_flow fuel (conn d) Hc Hi) as Hfl. pose proof (poll_flush_wkeep fuel (conn d) Hc Hi) as Hk.
  pose proof (fun c' => poll_flush_frees fuel (conn d) c' Hc Hi Hfp Hm) as Hfree.
  destruct (Conn.poll_flush fuel (conn d)) as [r c] eqn:E. cbn [fst snd] in *.
  assert (good d (set_conn c d)) as Hgd by (apply read_good; [done|by eapply step_flush|done|done]).
  split; [by apply returns_intro; [destruct r..|]|].
  intros d' E'. destruct r as [[]| | | |]; try done. injection E' as <-. destruct (Hfree c eq_refl). by split_and!.
Qed.

Lemma end_body_returns d :
  disp_wf d -> can_write_body (conn d) = true ->
  returns d (end_body d) /\
  (forall d', end_body d = (RVal tt, d') -> can_write_body (conn d') = false /\ body_rx d' = body_rx d /\
     dispatch d' = dispatch d).
Proof.
  intros Hd Hg. pose proof Hd as [Hc _ _ _ _ _]. unfold end_body.
  assert (room (conn d) 5) as Hroom.
  { apply load_room; [done|]. pose proof (load_parts d). unfold load, reserve in *. rewrite Hg in *. lia. }
  destruct (end_body_ok (conn d) Hc Hg Hroom) as (r & c & E & _). rewrite E.
  pose proof (end_body_flow (conn d) r c Hc Hg Hroom E) as Hfl.
  assert (can_write_body c = false) as Hoff.
  { unfold can_write_body, Conn.end_body in Hg, E |- *. destruct (writing (state (conn d))) as [|e| |]; try done.
    destruct (Encode.encoder_end e) as [[eb|]|ne].
    - destruct (buffered_buffer id eb _) as [b|]; [|done]. cbn in E. injection E as <- <-. cbn. by destruct (_ || _).
    - cbn in E. injection E as <- <-. cbn. by destruct (_ || _).
    - by injection E as <- <-. }
  assert (good d (set_conn c d)) as Hgd.
  { rewrite <- set_conn_same_rx. apply (conn_good d c 5); [done|by eapply step_end_body|done|apply Hd|].
    unfold reserve. rewrite Hg, Hoff. lia. }
  destruct r as [u|e]; (split; [by apply returns_intro|]); intros d' E'; [|done]. by injection E' as <-.
Qed.

Lemma write_message_returns d :
  disp_wf d -> body_rx d = None -> can_write_head (conn d) = true -> dp_should_poll (dispatch d) = true ->
  returns d (write_message uri_display d) /\
  (forall d', write_message uri_display d = (RVal true, d') ->
     rx_left (body_rx d') + dp_left uri_display (dispatch d') + 2 <= dp_left uri_display (dispatch d)).
Proof.
  intros Hd Hrx Hg Hsp. pose proof Hd as [Hc Hdp Hb Hs Hf Hl]. unfold write_message.
  pose proof (dp_msg_ok uri_display (dispatch d) Hdp Hsp) as Hm.
  destruct (dp_poll_msg (dispatch d)) as [r dd] eqn:E. cbv zeta.
  assert (forall x, dp_ok uri_display dd -> dp_left uri_display dd <= dp_left uri_display (dispatch d) -> x = set_dispatch dd d -> good d x) as Hstep.
  { intros x Hok Hle ->. assert (load (set_dispatch dd d) <= load d) as Hload by (unfold load; cbn; lia).
    split; try done; [split; try done; lia|]. apply rtc_once. by eapply ds_msg. }
  destruct r as [[[head body]|]| |e| |]; try done.
  - destruct Hm as (Hok & Hv & Hbody & h & Hh & Hfit & Hout). cbn [fst snd] in *.
    set (rx := if body_is_end_stream body then None else Some body). set (bt := body_type body) in *.
    assert ((forall b, rx = Some b -> body_ok b) /\ rx_left rx <= 1 + body_left body /\
      (forall n, bt = Some (Known n) -> wf_u64 n)) as (Hrx1 & Hrx2 & Hrx3).
    { pose proof (body_left_nonneg body). subst rx bt. unfold body_type.
      destruct (body_is_end_stream body); split_and!; try done; try (cbn; lia).
      - by intros b [= <-].
      - intros n. destruct (body_size_exact body) as [m|] eqn:Es; intros [= <-]. by eapply body_size_ok. }
    clearbody rx bt. cbn [conn set_body_rx set_dispatch].
    pose proof (load_parts d) as (Hp1 & Hp2 & Hp3 & Hp4 & _). pose proof (dp_left_nonneg uri_display dd) as Hpd.
    assert (forall out e m, client_encode uri_display (final_head head (conn d)) bt (title_case_headers (state (conn d))) [] =
       Some (out, e, m) -> len out <= h) as Hlen by (intros out e m; apply Hout).
    assert (forall n, n <= h -> room (conn d) n) as Hroom.
    { intros n Hn. apply load_room; [done|]. unfold load in *. pose proof (body_left_nonneg body). lia. }
    destruct (write_head_ok uri_display head bt (conn d) Hc Hg Hv Hrx3) as (c & Ec & _); [eauto|]. rewrite Ec.
    pose proof (write_head_flow uri_display head bt h (conn d) c Hh Hlen Ec) as (Hi & Hfl & Ef & Em & _).
    set (d2 := set_conn c _).
    assert (conn_step uri_display (conn d) c) as Hst by (eapply step_write_head; eauto).
    assert (load d2 <= load d) as Hload.
    { unfold load, d2. cbn. pose proof (reserve_bound c). rewrite Hrx in *. cbn in *. lia. }
    split; [|intros d' E'; injection E' as <-; cbn; lia]. apply returns_intro; try done.
    split; cbn; try done; [|by apply rtc_once|apply rtc_once; by eapply ds_msg].
    split; cbn; try done; [by apply (conn_step_ok uri_display (conn d))| |unfold d2 in *; lia].
    by rewrite Ef, Em.
  - destruct Hm as [Hok Hle]. pose proof (Hstep _ Hok Hle eq_refl) as Hg1. split; [|done].
    apply returns_intro; try done. eapply good_trans; [exact Hg1|]. apply close_good, Hg1.
  - destruct Hm as [Hok Hle]. pose proof (Hstep _ Hok Hle eq_refl) as Hg1. split; [by apply returns_intro|done].
  - destruct Hm as [Hok Hle]. pose proof (Hstep _ Hok Hle eq_refl) as Hg1. split; [by apply returns_intro|done].
Qed.

(** The writing part of the work: what the body and the dispatch have left. *)
Definition to_write d : nat :=
  Z.to_nat (rx_left (body_rx d) + dp_left uri_display (dispatch d)) + (if can_write_body (conn d) then 1 else 0).

Lemma to_write_lt d d' :
  dispatch d' = dispatch d -> rx_left (body_rx d') + 1 <= rx_left (body_rx d) ->
  (can_write_body (conn d') = true -> can_write_body (conn d) = true) -> (to_write d' < to_write d)%nat.
Proof.
  intros Ed Hle Hw. unfold to_write. rewrite Ed. pose proof (rx_left_nonneg (body_rx d')).
  pose proof (dp_left_nonneg uri_display (dispatch d)).
  destruct (can_write_body (conn d')); [rewrite (Hw eq_refl)|case_match]; lia.
Qed.

(** A call that writes a frame and leaves [rx] as the rest of the body. *)
Lemma frame_returns d r n rx :
  disp_wf d -> can_write_body (conn d) = true ->
  (exists c, r = Some c /\ conn_step uri_display (conn d) c /\ flow n (conn d) c) ->
  (forall b, rx = Some b -> body_ok b) -> n + rx_left rx <= rx_left (body_rx d) -> rx_left rx + 1 <= rx_left (body_rx d) ->
  returns d (on_conn r (set_body_rx rx d)) /\
  (forall d', on_conn r (set_body_rx rx d) = (RVal tt, d') -> (to_write d' < to_write d)%nat).
Proof.
  intros Hd Hg (c & -> & Hst & Hfl) Hrx Hn Hn1. unfold on_conn. split.
  - apply returns_intro; try done. eapply conn_good; [done|done|exact Hfl|done|].
    pose proof (reserve_bound c). unfold reserve at 2. rewrite Hg. lia.
  - intros d' E. injection E as <-. apply to_write_lt; try done.
Qed.

Lemma write_frame_returns b d :
  disp_wf d -> body_rx d = Some b -> can_buffer_body (conn d) = true ->
  returns d (write_frame b d) /\
  (forall d', write_frame b d = (RVal tt, d') -> (to_write d' < to_write d)%nat).
Proof.
  intros Hd Hrx Hbuf. pose proof Hd as [Hc _ Hb _ _ _]. specialize (Hb b Hrx). unfold write_frame.
  assert (rx_left (body_rx d) = 1 + body_left b) as Er by (by rewrite Hrx).
  pose proof (body_left_nonneg b) as Hb0.
  pose proof (load_parts d) as (Hp1 & Hp2 & Hp3 & Hp4 & _).
  assert (good d (set_body_rx None d)) as Hclr by (apply rx_good; [done|done|cbn; lia]).
  destruct (can_write_body (conn d)) eqn:Hg; cbn [negb].
  2: { split; [by apply returns_intro|]. intros d' E. injection E as <-. apply to_write_lt; cbn; try done. lia. }
  assert (returns d (end_body (set_body_rx None d)) /\
    (forall d', end_body (set_body_rx None d) = (RVal tt, d') -> (to_write d' < to_write d)%nat)) as Hend.
  { destruct (end_body_returns (set_body_rx None d) (gd_wf _ _ Hclr) Hg) as [Hr Hm]. split; [by eapply returns_good|].
    intros d' E. destruct (Hm d' E) as (Ew & Ex & Ed). apply to_write_lt; [by rewrite Ed|rewrite Ex; cbn; lia|by rewrite Ew]. }
  assert (forall n, n <= body_left b -> room (conn d) n) as Hroom.
  { intros n Hn. apply load_room; [done|]. unfold load. lia. }
  pose proof (body_frame_ok b Hb) as Hfr. destruct (body_poll_frame b) as [r b'] eqn:Ef. cbv zeta.
  pose proof (body_left_nonneg b') as Hb1.
  assert (forall y, body_ok b' -> Some b' = Some y -> body_ok y) as Hsome by congruence.
  destruct r as [[[x|t|]|]| |e| |]; try done.
  - destruct Hfr as (Hok & Hx & Hle).
    assert (remaining x = len (content x)) as Erem by by apply remaining_content.
    assert (room (conn d) (len (content x) + 25)) as Hrx' by (apply Hroom; lia).
    destruct (Z.eqb_spec (remaining x) 0) as [E0|E0].
    + destruct (body_is_end_stream b'); [exact Hend|].
      assert (good d (set_body_rx (Some b') d)) as Hgd by (apply rx_good; [done|auto|cbn; len_lia]).
      split; [by apply returns_intro|]. intros d' E. injection E as <-. apply to_write_lt; cbn; try done. len_lia.
    + assert (content x <> []) as Hne by (intros Ex; rewrite Erem, Ex in E0; by apply E0).
      destruct (body_is_end_stream b').
      * destruct (write_body_and_end_ok x (conn d) Hc Hg Hx Hne Hrx') as (c & Ec & _).
        apply (frame_returns d _ (len (content x) + 25)); [done|done| |done|cbn; lia|cbn; lia].
        exists c. split; [done|]. split; [by eapply step_write_body_and_end|by apply write_body_and_end_flow].
      * destruct (write_body_ok x (conn d) Hc Hg Hx Hne Hrx') as (c & Ec & _).
        apply (frame_returns d _ (len (content x) + 20)); [done|done| |auto|cbn; lia|cbn; len_lia].
        exists c. split; [done|]. split; [by eapply step_write_body|by apply write_body_flow].
  - unfold can_write_body in Hg. destruct (writing (state (conn d))) as [|e| |] eqn:Ew; try done.
    specialize (Hfr (title_case_headers (state (conn d))) e).
    assert (room (conn d) (trailer_size t (title_case_headers (state (conn d))) e)) as Hrt by (apply Hroom; lia).
    destruct (write_trailers_ok t (conn d) e Hc Ew Hrt) as (c & Ec & _).
    apply (frame_returns d _ (trailer_size t (title_case_headers (state (conn d))) e));
      [done|unfold can_write_body; by rewrite Ew| |done|cbn; lia|cbn; lia].
    exists c. split; [done|]. split; [by eapply step_write_trailers|by apply write_trailers_flow].
  - destruct Hfr as [Hok Hle]. assert (good d (set_body_rx (Some b') d)) as Hgd by (apply rx_good; [done|auto|cbn; lia]).
    split; [by apply returns_intro|]. intros d' E. injection E as <-. apply to_write_lt; cbn; try done. lia.
  - destruct Hfr as [Hok Hle]. split; [|done]. apply returns_intro; try done. apply rx_good; [done|auto|cbn; lia].
Qed.

(** What is left for the write loop. *)
Definition write_work d : nat := 2 * to_write d + (if can_buffer_body (conn d) then 0 else 1).

Lemma poll_write_returns fuel n d :
  disp_wf d -> fuelled d fuel -> (write_work d < n)%nat -> returns d (poll_write uri_display fuel n d).
Proof.
  revert d. induction n as [|n IH]; intros d Hd Hf Hn; [lia|]. cbn [poll_write].
  pose proof (good_refl d Hd) as Hrefl.
  destruct (is_closing d); [by apply returns_intro|].
  assert (forall d1, good d d1 -> (to_write d1 < to_write d)%nat -> returns d1 (poll_write uri_display fuel n d1)) as Hnext.
  { intros d1 Hg Hlt. apply IH; [apply Hg|by eapply fuelled_good|]. unfold write_work in *. repeat case_match; lia. }
  destruct (negb _ && can_write_head (conn d) && dp_should_poll (dispatch d)) eqn:Ehead.
  { apply andb_true_iff in Ehead as [Ehead Esp]. apply andb_true_iff in Ehead as [Erx Ehd].
    assert (body_rx d = None) as Hrx by (by destruct (body_rx d)).
    destruct (write_message_returns d Hd Hrx Ehd Esp) as [Hr Hm]. apply returns_bind; [done|].
    intros [] d1 E Hg; [|apply returns_intro; try done; apply good_refl, Hg].
    apply Hnext; [done|]. specialize (Hm d1 E). unfold to_write. rewrite Hrx. cbn [rx_left].
    pose proof (rx_left_nonneg (body_rx d1)). pose proof (dp_left_nonneg uri_display (dispatch d1)).
    repeat case_match; lia. }
  destruct (can_buffer_body (conn d)) eqn:Ebuf; cbn [negb].
  - destruct (body_rx d) as [b|] eqn:Erx.
    + destruct (write_frame_returns b d Hd Erx Ebuf) as [Hr Hm]. apply returns_bind; [done|].
      intros [] d1 E Hg. apply Hnext; [done|by apply Hm].
    + destruct (can_write_body (conn d)) eqn:Ew; [|by apply returns_intro].
      destruct (end_body_returns d Hd Ew) as [Hr Hm]. apply returns_bind; [done|].
      intros [] d1 E Hg. apply Hnext; [done|]. destruct (Hm d1 E) as (Ew1 & Erx1 & Ed1).
      unfold to_write. rewrite Ew, Ew1, Erx1, Ed1. lia.
  - destruct (flush_returns fuel d Hd Hf) as [Hr Hm]. apply returns_bind; [done|].
    intros [] d1 E Hg. destruct (Hm d1 E) as (Eb & Ew & Erx & Ed). apply IH; [apply Hg|by eapply fuelled_good|].
    unfold write_work, to_write in *. rewrite Eb, Erx, Ed. rewrite Ebuf in Hn.
    destruct (can_write_body (conn d1)); [rewrite (Ew eq_refl) in Hn; lia|]. case_match; lia.
Qed.

(** ** The task *)

(** Fuel for everything one poll does. *)
Definition poll_fuel d : nat := 2 * inflow d + 2 * Z.to_nat (load d) + 8.

Lemma poll_fuel_good d d' : good d d' -> (poll_fuel d' <= poll_fuel d)%nat.
Proof. intros Hg. pose proof (gd_inflow _ _ Hg). pose proof (gd_load _ _ Hg). unfold poll_fuel. lia. Qed.

Lemma poll_fuel_enough d fuel :
  (poll_fuel d <= fuel)%nat -> fuelled d fuel /\ (read_work d < fuel)%nat /\ (write_work d < fuel)%nat.
Proof.
  unfold poll_fuel, fuelled, read_work, write_work, to_write, delivering. intros Hf. pose proof (load_parts d) as Hp.
  unfold load in *. pose proof (reserve_bound (conn d)). split_and!; repeat case_match; lia.
Qed.

Lemma try_poll_returns m d : returns d (m d) -> returns d (try_poll m d).
Proof.
  intros (Hp & Hf & Hg). unfold try_poll. destruct (m d) as [[u| |e| |] d1]; try done; by apply returns_intro.
Qed.

Lemma poll_turns_returns fuel k d :
  disp_wf d -> (poll_fuel d <= fuel)%nat -> returns d (poll_turns uri_display fuel k d).
Proof.
  revert d. induction k as [|k IH]; intros d Hd Hf; cbn [poll_turns]; [apply returns_intro; try done; by apply good_refl|].
  destruct (poll_fuel_enough d fuel Hf) as (Hf0 & Hr0 & _).
  apply returns_bind; [apply try_poll_returns, poll_read_returns; [done|done|by right]|]. intros u1 d1 _ Hg1.
  pose proof (gd_wf _ _ Hg1) as Hd1. pose proof (poll_fuel_good _ _ Hg1). destruct (poll_fuel_enough d1 fuel) as (Hf1 & _ & Hw1); [lia|].
  apply returns_bind; [by apply try_poll_returns, poll_write_returns|]. intros u2 d2 _ Hg2.
  pose proof (gd_wf _ _ Hg2) as Hd2. pose proof (poll_fuel_good _ _ Hg2). destruct (poll_fuel_enough d2 fuel) as (Hf2 & _ & _); [lia|].
  apply returns_bind; [apply try_poll_returns, (proj1 (flush_returns fuel d2 Hd2 Hf2))|]. intros u3 d3 _ Hg3.
  pose proof (gd_wf _ _ Hg3) as Hd3. pose proof (poll_fuel_good _ _ Hg3).
  destruct (wants_read_again (conn d3)) as [again c] eqn:E.
  assert (good d3 (set_conn c d3)) as Hg4.
  { apply read_good; [done|by eapply step_wants_read_again| |]; injection E as <- <-; [by apply bflow_refl|by intros ?]. }
  pose proof (poll_fuel_good _ _ Hg4). destruct again; [|by apply returns_intro].
  eapply returns_good; [exact Hg4|]. apply IH; [apply Hg4|lia].
Qed.

Lemma take_error_returns d : disp_wf d -> returns d (take_error d).
Proof.
  intros Hd. unfold take_error. destruct (Conn.take_error (conn d)) as [r c] eqn:E.
  assert (good d (set_conn c d)) as Hg.
  { apply read_good; [done|by eapply step_take_error| |]; unfold Conn.take_error in E;
      destruct (error (state (conn d))); injection E as <- <-; first [by apply bflow_refl | by intros ?]. }
  by destruct r.
Qed.

Lemma shutdown_returns d : disp_wf d -> returns d (poll_shutdown d).
Proof.
  intros Hd. pose proof Hd as [Hc _ _ _ _ _]. unfold poll_shutdown.
  destruct (poll_shutdown_wf (conn d) Hc) as (Hp & Hfu & _).
  assert (flow 0 (conn d) (Conn.poll_shutdown (conn d)).2) as Hfl.
  { unfold Conn.poll_shutdown. pose proof (poll_shutdown_ok (io (conn_io (conn d)))) as Hok.
    destruct Hc as (_ & (Ht & _) & _). specialize (Hok Ht).
    destruct (io_poll_shutdown (io (conn_io (conn d)))) as [r t]. cbn.
    apply bflow_read; [|done|done]. unfold incoming. cbn. destruct r; try done; destruct Hok as (_ & -> & _); done. }
  assert (wkeep (conn d) (Conn.poll_shutdown (conn d)).2) as Hk.
  { unfold Conn.poll_shutdown. destruct (io_poll_shutdown _). by intros ?. }
  destruct (Conn.poll_shutdown (conn d)) as [r c] eqn:E. cbn [fst snd] in *.
  assert (good d (set_conn c d)) as Hg by (apply read_good; [done|by eapply step_shutdown|done|done]).
  by apply returns_intro; [destruct r..|].
Qed.

Lemma poll_inner_returns fuel sh d :
  disp_wf d -> (poll_fuel d <= fuel)%nat -> returns d (poll_inner uri_display fuel sh d).
Proof.
  intros Hd Hf. unfold poll_inner. apply returns_bind; [by apply poll_turns_returns|]. intros u d1 _ Hg1.
  pose proof (gd_wf _ _ Hg1) as Hd1. destruct (is_done d1); [|apply returns_intro; try done; by apply good_refl].
  destruct (pending_upgrade (conn d1)) as [p c] eqn:E.
  assert (good d1 (set_conn c d1)) as Hg2.
  { apply read_good; [done|by eapply step_pending_upgrade| |]; injection E as <- <-; [by apply bflow_refl|by intros ?]. }
  pose proof (gd_wf _ _ Hg2) as Hd2. eapply returns_good; [exact Hg2|].
  assert (forall (x : Dispatched) d0, disp_wf d0 -> returns d0 (pbind take_error (fun _ => pret x) d0)) as Hte.
  { intros x d0 Hd0. apply returns_bind; [by apply take_error_returns|]. intros ? d3 _ Hg3.
    apply returns_intro; try done. apply good_refl, Hg3. }
  destruct p as [tx|]; [by apply Hte|]. apply returns_bind.
  - destruct sh; [by apply shutdown_returns|apply returns_intro; try done; by apply good_refl].
  - intros ? d3 _ Hg3. apply Hte, Hg3.
Qed.

Lemma poll_catch_returns fuel sh d :
  disp_wf d -> (poll_fuel d <= fuel)%nat -> returns d (poll_catch uri_display fuel sh d).
Proof.
  intros Hd Hf. pose proof (poll_inner_returns fuel sh d Hd Hf) as (Hp & Hfu & Hg). unfold poll_catch.
  destruct (poll_inner uri_display fuel sh d) as [[x| |e| |] d1]; try done. cbn [fst snd] in *.
  eapply returns_good; [exact Hg|]. pose proof (gd_wf _ _ Hg) as Hd1. set (d2 := match body_tx d1 with Some _ => _ | None => _ end).
  assert (good d1 d2) as Hg2.
  { subst d2. destruct (body_tx d1) as [tx|]; [|by apply good_refl].
    pose proof (send_error_ok (new_body (CauseText "connection error")) tx (bodies d1) (dw_bodies _ Hd1)) as Hs.
    apply side_good; try done. by left. }
  eapply returns_good; [exact Hg2|]. apply returns_bind; [apply recv_returns, Hg2|]. intros ? d3 _ Hg3.
  apply returns_intro; try done. apply good_refl, Hg3.
Qed.
End Invariant.
