(* ===== verification/DispatcherProps.v ===== *)
(** * What the dispatcher promises

    One poll of a connection's task returns, whatever the peer, the callers and
    the readers of response bodies do; it uses the connection and the request
    channel only as they allow, so their invariants hold for the task as a whole;
    and an error of the connection reaches the caller that waits for a response. *)

From S2P Require Import Prelude Buf Http Models HeaderWrite WriteBuf Encode EncodeProps Decode DecodeFacts DecodeProps Error RefHttparse Io IoFacts IoProps Role RoleFacts RoleProps Conn ConnFacts ConnOps ConnFlow ConnProps Oneshot Incoming Dispatch DispatchProps Dispatcher DispatcherFacts.
Import Error Role Conn EncodeFacts.

Section Task.
Context {BC : BytesCrate} {BCL : BytesCrateLaws} {AL : Alloc} {ALL : AllocLaws} `{HttpLaws} `{HttparseLaws}.
Context {T : Type} `{TransportLaws T} {B : Type} {HB : Buf B} {HBL : BufLaws B}.
Context {Uri : Type} (uri_display : Uri -> bytes).
Context {FS : Type} {fm : FMpsc (result bytes Error) FS} {fml : FMpscLaws (result bytes Error) FS}.
Context {OS : Type} {os : Oneshot HeaderMap OS}.
Context {Bs : Type} {bd : Body Bs B HeaderMap} {bdl : BodyLaws Bs B}.
Abbreviation TReq := (MessageHead (RequestLine (Uri := Uri)) * Bs)%type.
Abbreviation TResp := (MessageHead StatusCode * Incoming.Incoming * option Z)%type.

Section AnyDispatch.
Context {D : Type} {dp : DispatchT D TReq TResp (Incoming.BStore (FS := FS) (OS := OS))} {dpl : DispatchLaws uri_display D}.
Implicit Types d : Dispatcher.Dispatcher (T := T) (B := B) (FS := FS) (OS := OS) (Bs := Bs) (D := D).

(** C13. A poll of the task returns: from any state that satisfies the invariant,
    with fuel for the bytes that can arrive and the bytes and frames that are
    left to send, it neither panics nor loops; the invariant holds afterwards;
    every call it made of the connection and of the request channel was one
    their contracts allow; and no work has been added. *)
Theorem dispatcher_poll_total d fuel :
  disp_wf uri_display d -> (poll_fuel uri_display d <= fuel)%nat ->
  let '(r, d') := Dispatcher.poll uri_display fuel d in
  r <> RPanic /\ r <> RFuel /\ disp_wf uri_display d' /\
  rtc (conn_step uri_display) (Dispatcher.conn d) (Dispatcher.conn d') /\
  rtc disp_step (Dispatcher.dispatch d) (Dispatcher.dispatch d') /\
  (poll_fuel uri_display d' <= poll_fuel uri_display d)%nat.
Proof.
  intros Hd Hf. pose proof (poll_catch_returns uri_display fuel true d Hd Hf) as (Hp & Hfu & Hg).
  unfold Dispatcher.poll. destruct (Dispatcher.poll_catch uri_display fuel true d) as [r d'].
  cbn [fst snd] in *. split; [done|]. split; [done|]. pose proof (poll_fuel_good _ _ _ Hg).
  destruct Hg as [? ? ? _ _ _]. done.
Qed.

(** A new task satisfies the invariant if the requests that wait fit in memory. *)
Lemma dispatcher_new_wf t (disp : D) s n :
  tr_wf t -> dp_ok uri_display disp -> bodies_ok s -> dp_left uri_display disp <= usize_max ->
  disp_wf uri_display (Dispatcher.dispatcher_new (T := T) (B := B) (Bs := Bs) disp (conn_new t) s n).
Proof.
  intros Ht Hd Hs Hl. split; [by apply conn_new_wf|done|done|done|by split|]. unfold load. cbn.
  change (foot _) with 0. unfold reserve. cbn. lia.
Qed.
End AnyDispatch.

(** ** The client's request channel as the dispatch *)

Section Client.
Context {CS : Type} {cso : Oneshot (Dispatch.Answer TReq TResp) CS} {csl : OneshotLaws (Dispatch.Answer TReq TResp) CS}.
Context {M : Type} {mp : Mpsc (Dispatch.Envelope TReq) M} {mpl : MpscLaws (Dispatch.Envelope TReq) M} {G : Type} {wt : Want G}.
Abbreviation CD := (Dispatcher.ClientD (CS := CS) (M := M) (G := G)).
Implicit Types k : CD.
Import Dispatcher.

(** The task's side of the world of callers and connection. *)
Definition world_of (s : Dispatch.Sender) (started : list nat) k : DWorld (CS := CS) (M := M) (G := G) :=
  mkDWorld s (Some (cd_client k)) (cd_shared k) (cd_chans k) started.

Lemma client_step_world s started k k' :
  disp_step k k' ->
  exists started', rtc d_step (world_of s started k) (world_of s started' k').
Proof.
  intros Hst. destruct Hst as [k r k' Hsp E|msg k st r k' st' E].
  - cbn in E, Hsp. unfold client_poll_msg in E.
    destruct (Dispatch.poll_msg (cd_senders k) (cd_client k) (cd_shared k) (cd_chans k)) as [[[[r2 c] sh] cs]|] eqn:Ep.
    + injection E as <- <-. eexists. apply rtc_once. by eapply (d_poll_msg (world_of s started k)).
    + injection E as <- <-. exists started. apply rtc_refl.
  - cbn in E. unfold client_recv_msg in E.
    destruct (Dispatch.recv_msg (cd_senders k) msg (cd_client k) (cd_shared k) (cd_chans k)) as [[[[r2 c] sh] cs]|] eqn:Ep.
    + injection E as <- <- <-. exists started. apply rtc_once. by eapply (d_recv_msg (world_of s started k)).
    + injection E as <- <- <-. exists started. apply rtc_refl.
Qed.

Lemma client_steps_world s started k k' :
  rtc disp_step k k' ->
  exists started', rtc d_step (world_of s started k) (world_of s started' k').
Proof.
  intros Hr. revert started. induction Hr as [k|k k1 k2 Hst _ IH]; intros started; [exists started; apply rtc_refl|].
  destruct (client_step_world s started k k1 Hst) as [st1 Hr1]. destruct (IH st1) as [st2 Hr2].
  exists st2. by etransitivity.
Qed.

(** *** The contract of a dispatch holds *)

Section Contract.
Context (req_left : TReq -> Z) (req_left_nonneg : forall r, 0 <= req_left r).

Definition env_fits (e : Dispatch.Envelope TReq) : Prop :=
  exists r ch, e = Some (r, Dispatch.Retry (Some ch)) /\ request_fits uri_display (req_left r) r.

Definition env_left (e : Dispatch.Envelope TReq) : Z := match e with Some (r, _) => req_left r | None => 0 end.
Definition queue_left (l : list (Dispatch.Envelope TReq)) : Z := foldr (fun e n => env_left e + n) 0 l.

Definition client_ok k : Prop :=
  (forall cb, Dispatch.callback (cd_client k) = Some cb -> exists ch, cb = Dispatch.Retry (Some ch)) /\
  Forall env_fits (mp_queue (Dispatch.sh_inner (cd_shared k))).

Definition client_left k : Z := queue_left (mp_queue (Dispatch.sh_inner (cd_shared k))).

Lemma queue_left_nonneg l : 0 <= queue_left l.
Proof.
  unfold queue_left in *. induction l as [|[[r cb]|] l IH]; cbn; [lia| |lia]. pose proof (req_left_nonneg r). lia.
Qed.

Lemma client_msg_ok k :
  client_ok k -> Dispatch.should_poll (cd_client k) = true ->
  match client_poll_msg k with
  | (RVal (Some r), k') => client_ok k' /\ request_fits uri_display (client_left k - client_left k') r
  | (RVal None, k') | (RPending, k') | (RErr _, k') => client_ok k' /\ client_left k' <= client_left k
  | (RPanic, _) | (RFuel, _) => False
  end.
Proof.
  intros [Hcb Hq] Hsp. unfold Dispatch.should_poll in Hsp.
  destruct (Dispatch.callback (cd_client k)) as [?|] eqn:Ecb; [done|].
  unfold client_poll_msg, Dispatch.poll_msg, Dispatch.poll_recv, client_left, client_ok.
  set (m := Dispatch.sh_inner (cd_shared k)) in *. destruct (mp_queue m) as [|e l] eqn:Eq.
  - destruct (recv_empty (cd_senders k) m Eq) as [E1 E2]. destruct (mp_recv (cd_senders k) m) as [o m'].
    cbn [fst snd] in *. subst o. destruct (cd_senders k && mp_open m); cbn; rewrite E2, ?Ecb; done.
  - destruct (recv_msg_head (cd_senders k) e l m Eq) as [E1 E2]. destruct (mp_recv (cd_senders k) m) as [o m'].
    cbn [fst snd] in *. subst o. apply Forall_cons in Hq as [(r & ch & -> & Hfit) Hq]. cbn [Dispatch.is_canceled mbind option_bind].
    pose proof (queue_left_nonneg l). pose proof (req_left_nonneg r). unfold queue_left in *.
    destruct (tx_is_closed ch (cd_chans k)); cbn; rewrite E2, ?Ecb.
    + split; [done|]. lia.
    + split; [split; [|done]|].
      * intros cb [= <-]. by exists ch.
      * by rewrite Z.add_simpl_r.
Qed.

Lemma client_recv_ok msg k s :
  client_ok k ->
  match client_recv_msg msg k s with
  | (RVal _, k', s') | (RErr _, k', s') =>
      client_ok k' /\ client_left k' <= client_left k /\ (bodies_ok s -> bodies_ok s')
  | (RPending, _, _) | (RPanic, _, _) | (RFuel, _, _) => False
  end.
Proof.
  intros [Hcb Hq]. unfold client_recv_msg.
  assert (exists r c sh cs, Dispatch.recv_msg (cd_senders k) msg (cd_client k) (cd_shared k) (cd_chans k) = Some (r, c, sh, cs) /\
    client_ok (mkClientD c sh cs (cd_senders k)) /\ client_left (mkClientD c sh cs (cd_senders k)) <= client_left k)
    as (r & c & sh & cs & -> & Hok & Hle).
  { unfold Dispatch.recv_msg. set (sh := cd_shared k) in *.
    assert (forall c sh' cs, (Dispatch.callback c = None \/ c = cd_client k) ->
      (mp_queue (Dispatch.sh_inner sh') = mp_queue (Dispatch.sh_inner sh) \/
       exists e, mp_queue (Dispatch.sh_inner sh) = e :: mp_queue (Dispatch.sh_inner sh')) ->
      client_ok (mkClientD c sh' cs (cd_senders k)) /\ client_left (mkClientD c sh' cs (cd_senders k)) <= client_left k) as Hkeep.
    { intros c sh' cs Hc Eq. unfold client_ok, client_left. cbn. fold sh. split; [split|].
      - destruct Hc as [-> | ->]; [done|exact Hcb].
      - destruct Eq as [-> | [e Eq]]; [done|]. rewrite Eq in Hq. by apply Forall_cons in Hq as [_ Hq].
      - destruct Eq as [-> | [e Eq]]; [lia|]. rewrite Eq. unfold queue_left. cbn.
        destruct e as [[r cb]|]; cbn; [|lia]. pose proof (req_left_nonneg r). lia. }
    destruct (Dispatch.callback (cd_client k)) as [cb|] eqn:Ecb.
    { destruct (Hcb cb eq_refl) as [ch ->]. destruct msg; cbn [Dispatch.callback_send mbind option_bind];
        (eexists _, _, _, _; split; [reflexivity|]); apply Hkeep; auto. }
    destruct msg as [res|err]; [eexists _, _, _, _; split; [reflexivity|]; apply Hkeep; auto|].
    destruct (Dispatch.rx_closed (cd_client k)); cbn [negb]; [eexists _, _, _, _; split; [reflexivity|]; apply Hkeep; auto|].
    unfold Dispatch.try_recv, Dispatch.receiver_close. cbn [Dispatch.sh_inner Dispatch.sh_want].
    destruct (close_queue (Dispatch.sh_inner sh)) as [Ecl Eop].
    destruct (mp_queue (Dispatch.sh_inner sh)) as [|e l] eqn:Eq.
    - destruct (recv_empty (cd_senders k) _ Ecl) as [E1 E2]. destruct (mp_recv (cd_senders k) _) as [o m']. cbn [fst snd] in *. subst o.
      rewrite Eop, andb_false_r. eexists _, _, _, _. split; [reflexivity|]. apply Hkeep; [auto|]. cbn. rewrite E2. auto.
    - destruct (recv_msg_head (cd_senders k) e l _ Ecl) as [E1 E2]. destruct (mp_recv (cd_senders k) _) as [o m']. cbn [fst snd] in *. subst o.
      apply Forall_cons in Hq as [(r & ch & -> & _) Hq]. cbn [Dispatch.callback_send mbind option_bind].
      eexists _, _, _, _. split; [reflexivity|]. apply Hkeep; [auto|]. cbn. rewrite E2. eauto. }
  assert (bodies_ok s -> bodies_ok (match msg with
       | Ok (_, body, _) => if delivered (cd_client k) (cd_chans k) then s else Incoming.incoming_drop body s
       | Err _ => s end)) as Hs.
  { intros Hs. destruct msg as [[[hd body] up]|e]; [|done]. destruct (delivered _ _); [done|]. by apply incoming_drop_ok. }
  by destruct r.
Qed.

#[local] Instance client_laws : DispatchLaws uri_display CD.
Proof.
  refine {| dp_ok := client_ok; dp_left := client_left |}.
  - intros k. apply queue_left_nonneg.
  - exact client_msg_ok.
  - exact client_recv_ok.
  - intros k [Hcb _]. cbn. unfold client_poll_ready, Dispatch.poll_ready.
    destruct (Dispatch.callback (cd_client k)) as [cb|]; [|done]. destruct (Hcb cb eq_refl) as [ch ->]. cbn.
    by destruct (tx_is_closed ch (cd_chans k)).
Defined.

(** The task serves its callers: while it is polled, in any interleaving with
    them, the world of callers and connection stays a reachable one of the
    request channel, so every accepted request is with the task, in the queue or
    answered, and none is answered twice. *)
Theorem dispatcher_serves (d : Dispatcher (T := T) (B := B) (FS := FS) (OS := OS) (Bs := Bs) (D := CD)) s started fuel :
  disp_wf uri_display d -> (poll_fuel uri_display d <= fuel)%nat -> d_reach (world_of s started (dispatch d)) ->
  let '(r, d') := Dispatcher.poll uri_display fuel d in
  r <> RPanic /\ r <> RFuel /\
  exists started', let w := world_of s started' (dispatch d') in
    d_reach w /\ NoDup (outstanding w) /\
    forall ch, rx_poll ch (cd_chans (dispatch d')) = RxPending <-> ch ∈ outstanding w.
Proof.
  intros Hd Hf Hr. pose proof (poll_catch_returns uri_display fuel true d Hd Hf) as (Hp & Hfu & Hg).
  unfold Dispatcher.poll. destruct (poll_catch uri_display fuel true d) as [r d']. cbn [fst snd] in *.
  split; [done|]. split; [done|]. destruct (client_steps_world s started _ _ (gd_dispatch _ _ _ Hg)) as [st' Hst].
  exists st'. assert (d_reach (world_of s st' (dispatch d'))) as Hr' by (unfold d_reach in *; by etransitivity).
  split; [done|]. pose proof (di_chans _ (d_reach_inv _ Hr')) as Hco.
  split; [apply Hco|]. intros ch. apply (chans_ok_pending _ _ _ Hco).
Qed.
End Contract.

(** C21. An error of the connection reaches the caller: when the task fails while
    a caller waits for its response, the poll ends with a shutdown and not with
    the error, the caller receives the error without its request, and a response
    body that was being delivered is closed. *)
Theorem error_reaches_caller (d d1 : Dispatcher (T := T) (B := B) (FS := FS) (OS := OS) (Bs := Bs) (D := CD)) fuel e ch x :
  poll_inner uri_display fuel true d = (RErr e, d1) ->
  Dispatch.callback (cd_client (dispatch d1)) = Some (Dispatch.Retry (Some ch)) ->
  chan (cd_chans (dispatch d1)) ch = Some x -> rx_alive x = true ->
  exists d2, Dispatcher.poll uri_display fuel d = (RVal Shutdown, d2) /\ body_tx d2 = None /\
    rx_poll ch (cd_chans (dispatch d2)) = RxReady (Dispatch.AnsRetry (Err (Dispatch.mkTrySendError e None))).
Proof.
  intros E Ecb Ech Hrx. unfold Dispatcher.poll, poll_catch. rewrite E.
  set (d2 := match body_tx d1 with Some _ => _ | None => _ end).
  assert (dispatch d2 = dispatch d1 /\ body_tx d2 = None) as [Ed Etx].
  { subst d2. by destruct (body_tx d1) eqn:Etx. }
  unfold pbind, recv_msg. cbn [dp_recv_msg client_dispatch]. rewrite Ed. unfold client_recv_msg, Dispatch.recv_msg. rewrite Ecb.
  cbn [Dispatch.callback_send mbind option_bind].
  pose proof (send_res (cd_chans (dispatch d1)) ch (Dispatch.AnsRetry (Err (Dispatch.mkTrySendError e None))) false x Ech) as [_ Es].
  eexists. split; [reflexivity|]. split; [exact Etx|]. cbn. unfold rx_poll. rewrite Es, Hrx. reflexivity.
Qed.
End Client.
End Task.

(** ** The properties at concrete inputs *)

Module RefTask.
Import RefBytes RefAlloc RefHttp RefHttparse Pipe RefOneshot RefDispatch Dispatcher.

(** A store of data queues: what is queued and whether the receiver is there,
    by channel; the channel of each sender and whether it is parked. *)
Section RefFM.
Context {A : Type}.
Record FStore := mkFStore { fchans : gmap nat (list A * bool); fsenders : gmap nat (nat * bool) }.

Definition f_channel (tx : nat) (fs : FStore) : option (nat * bool * (list A * bool)) :=
  '(ch, parked) ← fsenders fs !! tx; x ← fchans fs !! ch; Some (ch, parked, x).

#[global] Instance ref_fm : FMpsc A FStore := {
  fm_new fs :=
    let ch := fresh (dom (fchans fs)) in let tx := fresh (dom (fsenders fs)) in
    ((tx, ch), mkFStore (<[ch := ([], true)]> (fchans fs)) (<[tx := (ch, false)]> (fsenders fs)));
  fm_poll_ready tx fs :=
    match f_channel tx fs with
    | Some (_, parked, (_, true)) => (if parked : bool then RPending else RVal tt, fs)
    | _ => (RErr tt, fs)
    end;
  fm_try_send tx a fs :=
    match f_channel tx fs with
    | Some (ch, false, (q, true)) =>
        (None, mkFStore (<[ch := (q ++ [a], true)]> (fchans fs)) (<[tx := (ch, true)]> (fsenders fs)))
    | _ => (Some a, fs)
    end;
  fm_clone tx fs :=
    let tx' := fresh (dom (fsenders fs)) in
    (tx', mkFStore (fchans fs) (match fsenders fs !! tx with
                                | Some (ch, _) => <[tx' := (ch, false)]> (fsenders fs)
                                | None => fsenders fs
                                end));
  fm_drop_tx tx fs := mkFStore (fchans fs) (delete tx (fsenders fs));
  fm_poll_next ch fs :=
    match fchans fs !! ch with
    | Some (a :: q, b) =>
        (RVal (Some a), mkFStore (<[ch := (q, b)]> (fchans fs))
           ((fun x : nat * bool => (x.1, x.2 && negb (Nat.eqb x.1 ch))) <$> fsenders fs))
    | _ => (if existsb (fun x : nat * (nat * bool) => Nat.eqb x.2.1 ch) (map_to_list (fsenders fs)) then RPending else RVal None, fs)
    end;
  fm_is_terminated ch fs :=
    match fchans fs !! ch with
    | Some (_ :: _, _) => false
    | _ => negb (existsb (fun x : nat * (nat * bool) => Nat.eqb x.2.1 ch) (map_to_list (fsenders fs)))
    end;
  fm_drop_rx ch fs := mkFStore (<[ch := ([], false)]> (fchans fs)) (fsenders fs)
}.
#[global] Instance ref_fm_laws : FMpscLaws A FStore.
Proof.
  split.
  - intros tx a fs b. cbn. destruct (f_channel tx fs) as [[[ch [|]] [q [|]]]|]; cbn; congruence.
  - intros tx fs. cbn. destruct (f_channel tx fs) as [[[ch [|]] [q [|]]]|]; done.
Qed.
End RefFM.

(** A body in pieces; [None] is a failure of the body. *)
Abbreviation Pieces := (list (option bytes)).
#[global] Instance ref_body : Body Pieces bytes (HeaderMap (HttpCrate := _)) := {
  body_poll_frame l :=
    match l with
    | [] => (RVal None, [])
    | Some x :: l => (RVal (Some (DataFrame x)), l)
    | None :: l => (RErr (CauseText "body failed"), l)
    end;
  body_is_end_stream l := match l with [] => true | _ => false end;
  body_size_exact _ := None
}.
Definition pieces_left (l : Pieces) : Z := foldr (fun x n => 30 + len (default [] x) + n) 0 l.
#[global] Instance ref_body_laws : BodyLaws Pieces bytes.
Proof.
  refine {| body_ok := fun _ => True; body_left := pieces_left |}.
  - intros l. unfold pieces_left. induction l as [|x l IH]; cbn; len_lia.
  - done.
  - intros [|[x|] l] _; cbn [body_poll_frame ref_body]; try done. split; [done|]. split; [exact I|].
    unfold pieces_left. cbn. lia.
Defined.

Abbreviation Q := (MessageHead (RequestLine (Uri := bytes)) * Pieces)%type.
Abbreviation R := (MessageHead StatusCode * Incoming.Incoming * option Z)%type.
Abbreviation Chans := (gmap nat (Channel (Dispatch.Answer Q R))).

(** The task of a connection whose peer answers 204, with one request queued. *)
Definition post : Q := (mkHead HTTP_11 (mkRequestLine POST (bs "/")) hm_new (mkExtensions None None), [Some (bs "hi"); None]).
Definition queue : Queue (Dispatch.Envelope Q) := mkQueue [Some (post, Dispatch.Retry (Some 0%nat))] true.
Definition chans : Chans := {[0%nat := mkChannel true true None]}.
Definition side : ClientD (CS := Chans) (M := Queue (Dispatch.Envelope Q)) (G := WantState) :=
  mkClientD Dispatch.client_new (Dispatch.mkShared queue WIdle) chans true.
Definition store : Incoming.BStore (FS := FStore (A := result bytes Error)) (OS := gmap nat (Channel HeaderMap)) :=
  Incoming.mkBStore ∅ (mkFStore ∅ ∅) ∅.
Definition task := dispatcher_new (T := pipe) (B := bytes) (Bs := Pieces) side (conn_new ex_t) store 0.

Definition show : bytes -> bytes := id.
Definition room_for : Q -> Z := fun _ => 1000.
Lemma room_for_nonneg r : 0 <= room_for r.
Proof. done. Qed.

(** The head of the request is short whatever the connection does to it. *)
Lemma post_fits : request_fits (B := bytes) (bdl := ref_body_laws) show 1000 post.
Proof.
  split; [by eexists|]. split; [exact I|]. exists 500. split; [done|]. split; [by apply Z.leb_le|].
  intros s title out e m. unfold enforce_version, fix_keep_alive, wants_keep_alive.
  destruct (version s), (keep_alive s), title; vm_compute; intros E; injection E as <- _ _; discriminate.
Qed.

Lemma side_ok : client_ok (B := bytes) (bdl := ref_body_laws) show room_for side.
Proof. split; [done|]. constructor; [|constructor]. exists post, 0%nat. split; [done|exact post_fits]. Qed.

#[local] Instance side_laws : DispatchLaws (B := bytes) (bdl := ref_body_laws) show (ClientD (CS := Chans) (M := Queue (Dispatch.Envelope Q)) (G := WantState)) :=
  client_laws show room_for room_for_nonneg.

Lemma task_wf : disp_wf show task.
Proof. apply dispatcher_new_wf; [exact I|exact side_ok|done|by apply Z.leb_le]. Qed.

Lemma task_fuel : (poll_fuel show task <= 3000)%nat.
Proof. apply Nat.leb_le. vm_compute. reflexivity. Qed.

Lemma dispatcher_poll_total_witness :
  disp_wf show (Dispatcher.poll show 3000 task).2 /\ (Dispatcher.poll show 3000 task).1 = RVal Shutdown.
Proof.
  split; [|vm_compute; reflexivity].
  pose proof (dispatcher_poll_total show task 3000 task_wf task_fuel) as Ht.
  destruct (Dispatcher.poll show 3000 task) as [r d']. apply Ht.
Defined.

(** The world in which the request was sent. *)
Definition sent_world : DWorld (CS := Chans) (M := Queue (Dispatch.Envelope Q)) (G := WantState) :=
  world_of (Dispatch.mkSender true) [] side.
Lemma sent_reach : d_reach sent_world.
Proof.
  apply rtc_once.
  exact (d_try_send d_init post (Ok 0%nat) (Dispatch.mkSender true) (Dispatch.mkShared queue WIdle) chans eq_refl).
Qed.

Lemma dispatcher_serves_witness :
  exists started', d_reach (world_of (Dispatch.mkSender true) started' (dispatch (Dispatcher.poll show 3000 task).2)).
Proof.
  pose proof (dispatcher_serves show room_for room_for_nonneg task (Dispatch.mkSender true) [] 3000 task_wf task_fuel sent_reach) as Ht.
  destruct (Dispatcher.poll show 3000 task) as [r d']. destruct Ht as (_ & _ & st & Hr & _). exists st. exact Hr.
Defined.

(** The same task on a connection that is not readable yet: the request is
    written until its body fails. *)
Definition task2 := dispatcher_new (T := pipe) (B := bytes) (Bs := Pieces) side (conn_new (mkPipe [] [] 2)) store 0.
Definition body_error : Error := new_user_body (CauseText "body failed").

Definition task2_failed := (poll_inner show 300 true task2).2.

Lemma task2_fails : poll_inner show 300 true task2 = (RErr body_error, task2_failed).
Proof.
  transitivity ((poll_inner show 300 true task2).1, task2_failed); [apply surjective_pairing|].
  apply (f_equal (fun r => (r, task2_failed))). vm_compute. reflexivity.
Qed.
Lemma task2_waits :
  Dispatch.callback (cd_client (dispatch task2_failed)) = Some (Dispatch.Retry (Some 0%nat)).
Proof. vm_compute. reflexivity. Qed.
Lemma task2_channel :
  exists x, chan (cd_chans (dispatch task2_failed)) 0%nat = Some x /\ rx_alive x = true.
Proof.
  assert (match chan (cd_chans (dispatch task2_failed)) 0%nat with Some x => rx_alive x | None => false end = true) as E
    by (vm_compute; reflexivity).
  destruct (chan (cd_chans (dispatch task2_failed)) 0%nat) as [x|]; [|done]. by exists x.
Qed.

Lemma error_reaches_caller_witness :
  exists d2, Dispatcher.poll show 300 task2 = (RVal Shutdown, d2) /\ body_tx d2 = None /\
    rx_poll 0%nat (cd_chans (dispatch d2)) = RxReady (Dispatch.AnsRetry (Err (Dispatch.mkTrySendError body_error None))).
Proof.
  destruct task2_channel as (x & Ex & Hx).
  exact (error_reaches_caller show task2 task2_failed 300 body_error 0%nat x task2_fails task2_waits Ex Hx).
Defined.
End RefTask.
