(* ===== verification/Net.v ===== *)
(** * Network addresses and the socket-level I/O helpers

    The address types of [std::net] with the parser behind [str::parse::<IpAddr>]
    (proxies and SOCKS decide with it what is an address and what is a name), and
    [read] and [write_all] of src/src/core/rt/io.rs, the two futures the proxy
    handshakes are made of. *)

From S2P Require Import Prelude Io.

(** ** Addresses *)

Inductive IpAddr :=
| V4 (octets : bytes)
| V6 (octets : bytes).
Record SocketAddr := mkSocketAddr { sa_ip : IpAddr; sa_port : Z }.

#[export] Instance IpAddr_eqdec : EqDecision IpAddr. Proof. solve_decision. Defined.
#[export] Instance SocketAddr_eqdec : EqDecision SocketAddr. Proof. solve_decision. Defined.

Definition ip_wf (ip : IpAddr) : Prop :=
  match ip with V4 o => len o = 4 | V6 o => len o = 16 end /\
  match ip with V4 o | V6 o => wf_bytes o end.

Module IpParse.
(** A parser returns what it read and the rest; [None] leaves the input alone. *)
Abbreviation P A := (bytes -> option (A * bytes)).

Definition COLON : byte := 58.
Definition DOT : byte := 46.

Definition given (c : byte) : P unit := fun s =>
  match s with b :: s' => if b =? c then Some (tt, s') else None | [] => None end.

(** The digits in front, with their value. *)
Fixpoint digits (radix : Z) (digit : byte -> option Z) (acc : Z) (s : bytes) : Z * Z * bytes :=
  match s with
  | b :: s' =>
      match digit b with
      | Some d => let '(v, n, r) := digits radix digit (acc * radix + d) s' in (v, n + 1, r)
      | None => (acc, 0, s)
      end
  | [] => (acc, 0, [])
  end.

Definition read_number (radix : Z) (digit : byte -> option Z) (max_digits limit : Z) (zero_prefix : bool) : P Z :=
  fun s =>
    let '(v, n, r) := digits radix digit 0 s in
    let leading := match s with b :: _ => b =? 48 | [] => false end in
    if (n =? 0) || (max_digits <? n) || (negb zero_prefix && leading && (1 <? n)) || (limit <? v) then None
    else Some (v, r).

(** [read_separator]: every element but the first has the separator before it. *)
Definition read_separator {A} (sep : byte) (first : bool) (p : P A) : P A := fun s =>
  if first then p s else '(_, s) ← given sep s; p s.

Definition v4_octet (first : bool) : P Z := read_separator DOT first (read_number 10 dec_digit 3 255 false).

Definition read_ipv4_addr : P bytes := fun s =>
  '(a, s) ← v4_octet true s; '(b, s) ← v4_octet false s;
  '(c, s) ← v4_octet false s; '(d, s) ← v4_octet false s; Some ([a; b; c; d], s).

Definition group_bytes (g : Z) : bytes := [g / 256; g mod 256].

(** [read_groups] on [limit] slots: the octets read, whether the last four were
    written as an IPv4 address, and the rest. *)
Fixpoint read_groups (limit : nat) (first : bool) (s : bytes) : bytes * bool * bytes :=
  match limit with
  | O => ([], false, s)
  | S limit' =>
      let group :=
        match read_separator COLON first (read_number 16 hex_digit 4 65535 true) s with
        | Some (g, s') => let '(gs, v4, r) := read_groups limit' false s' in (group_bytes g ++ gs, v4, r)
        | None => ([], false, s)
        end in
      match limit' with
      | O => group
      | S _ =>
          match read_separator COLON first read_ipv4_addr s with
          | Some (o, s') => (o, true, s')
          | None => group
          end
      end
  end.

Definition read_ipv6_addr : P bytes := fun s =>
  let '(head, head_v4, s) := read_groups 8 true s in
  if len head =? 16 then Some (head, s)
  else if head_v4 then None
  else
    '(_, s) ← given COLON s; '(_, s) ← given COLON s;
    let '(tail, _, s) := read_groups (7 - length head / 2) true s in
    Some (head ++ replicate (16 - length head - length tail) 0 ++ tail, s).

(** [s.parse::<IpAddr>()] *)
Definition parse_ip (s : bytes) : option IpAddr :=
  let r := match read_ipv4_addr s with
           | Some (o, r) => Some (V4 o, r)
           | None => match read_ipv6_addr s with Some (o, r) => Some (V6 o, r) | None => None end
           end in
  match r with Some (ip, []) => Some ip | _ => None end.
End IpParse.
Import IpParse.

Example parse_v4 : parse_ip (bs "127.0.0.1") = Some (V4 [127; 0; 0; 1]). Proof. reflexivity. Qed.
Example parse_v4_bad : map parse_ip [bs "127.0.0.01"; bs "1.2.3"; bs "256.0.0.1"; bs "1.2.3.4."; bs "example.com"] =
  [None; None; None; None; None]. Proof. reflexivity. Qed.
Example parse_v6 : parse_ip (bs "::1") = Some (V6 (replicate 15 0 ++ [1])). Proof. reflexivity. Qed.
Example parse_v6_mixed : parse_ip (bs "fe80::ABCD:1.2.3.4") =
  Some (V6 ([254; 128] ++ replicate 8 0 ++ [171; 205; 1; 2; 3; 4])). Proof. reflexivity. Qed.
Example parse_v6_full : parse_ip (bs "1:2:3:4:5:6:7:8") =
  Some (V6 [0;1;0;2;0;3;0;4;0;5;0;6;0;7;0;8]). Proof. reflexivity. Qed.
Example parse_v6_bad : map parse_ip [bs "1:2:3:4:5:6:7"; bs "1::2::3"; bs "12345::"; bs "1.2.3.4::"; bs "1:2:3:4:5:6:7::8"] =
  [None; None; None; None; None]. Proof. reflexivity. Qed.

(** ** Awaiting

    [.await] on a future whose poll is [m]: the executor polls it again as long
    as it is pending; [n] bounds the number of polls. *)

Fixpoint await {E S A} (n : nat) (m : PM E S A) : PM E S A := fun s =>
  match n with
  | O => (RFuel, s)
  | S n => match m s with (RPending, s) => await n m s | r => r end
  end.

Section Rt.
Context {T : Type} `{Transport T}.

(** [read(io, buf)] with [room] bytes of [buf]: the bytes that were read. *)
Definition read (n : nat) (room : Z) : PM io_error T bytes := await n (poll_read room).

(** One poll of [write_all]: the state is the closure's count and the stream. *)
Fixpoint write_all_poll (n : nat) (buf : bytes) : PM io_error (Z * T) unit := fun '(k, t) =>
  match n with
  | O => (RFuel, (k, t))
  | S n =>
      if k <? len buf then
        match poll_write (zdrop k buf) t with
        | (RVal m, t) => write_all_poll n buf (k + m, t)
        | (RPending, t) => (RPending, (k, t))
        | (RErr e, t) => (RErr e, (k, t))
        | (RPanic, t) => (RPanic, (k, t))
        | (RFuel, t) => (RFuel, (k, t))
        end
      else (RVal tt, (k, t))
  end.

Definition write_all (n : nat) (buf : bytes) : PM io_error T unit := fun t =>
  let '(r, (_, t)) := await n (write_all_poll n buf) (0, t) in (r, t).
End Rt.

(** A transport that does not stall forever: between two operations that get
    something done there are at most [max_stall] that do not. *)
Class TransportLive (T : Type) `{TransportLaws T} := {
  stall : T -> nat;
  max_stall : nat;
  stall_bound t : (stall t <= max_stall)%nat;
  stall_read n t t' : tr_wf t -> 0 < n -> poll_read n t = (RPending, t') -> (stall t' < stall t)%nat;
  stall_write b t t' : tr_wf t -> poll_write b t = (RPending, t') -> (stall t' < stall t)%nat;
  stall_write_zero b t t' : tr_wf t -> b <> [] -> poll_write b t = (RVal 0, t') -> (stall t' < stall t)%nat
}.

Section RtFacts.
Context {T : Type} {HT : Transport T} {HL : TransportLaws T}.

(** What a read yields, if the stream is well formed. *)
Definition read_post (room : Z) (t : T) (r : poll_res io_error bytes) (t' : T) : Prop :=
  tr_wf t' /\ output t' = output t /\
  match r with
  | RVal b => input t = b ++ input t' /\ len b <= room /\ (b = [] -> input t = [])
  | RPanic => False
  | _ => input t' = input t
  end.

Lemma read_spec n room t :
  tr_wf t -> 0 < room -> read_post room t (read n room t).1 (read n room t).2.
Proof.
  intros Hw Hr. revert t Hw. unfold read. induction n as [|n IH]; intros t Hw; [done|]. cbn.
  pose proof (poll_read_ok room t Hw Hr) as Hp. destruct (poll_read room t) as [[b| |e| |] t'] eqn:E; cbn; try done.
  - red. naive_solver.
  - destruct Hp as (Hw' & Hi & Ho). specialize (IH t' Hw'). red in IH. red. rewrite Ho, Hi in IH. done.
  - red. naive_solver.
Qed.

Lemma read_live {LV : TransportLive T} n room t :
  tr_wf t -> 0 < room -> (max_stall < n)%nat ->
  match (read n room t).1 with RVal _ | RErr _ => True | _ => False end.
Proof.
  intros Hw Hr Hn. assert (stall t < n)%nat as Hs by (pose proof (stall_bound t); lia). clear Hn.
  revert t Hw Hs. unfold read. induction n as [|n IH]; intros t Hw Hs; [lia|]. cbn.
  pose proof (poll_read_ok room t Hw Hr) as Hp. pose proof (stall_read room t) as Hst.
  destruct (poll_read room t) as [[b| |e| |] t'] eqn:E; cbn; try done.
  apply IH; [apply Hp|]. specialize (Hst t' Hw Hr eq_refl). lia.
Qed.

(** Writing has handed over the buffer, or a prefix of it. *)
Definition write_post (buf : bytes) (t : T) (r : poll_res io_error unit) (t' : T) : Prop :=
  tr_wf t' /\ input t' = input t /\
  match r with
  | RVal _ => output t' = output t ++ buf
  | RPanic => False
  | _ => exists k, output t' = output t ++ ztake k buf
  end.

Lemma write_all_poll_spec n buf o i k t :
  tr_wf t -> 0 <= k <= len buf -> input t = i -> output t = o ++ ztake k buf ->
  let '(r, (k', t')) := write_all_poll n buf (k, t) in
  tr_wf t' /\ input t' = i /\ 0 <= k' <= len buf /\ output t' = o ++ ztake k' buf /\
  match r with RVal _ => k' = len buf | RPanic => False | _ => True end.
Proof.
  revert k t. induction n as [|n IH]; intros k t Hw Hk Hi Ho; [done|]. cbn.
  destruct (Z.ltb_spec k (len buf)); [|split_and!; try done; lia].
  pose proof (poll_write_ok (zdrop k buf) t Hw) as Hp. rewrite len_zdrop in Hp by lia.
  destruct (poll_write (zdrop k buf) t) as [[m| |e| |] t'] eqn:E; try done.
  - destruct Hp as (Hw' & Hi' & Hm & Ho'). apply IH; [done|lia|congruence|].
    rewrite Ho', Ho, <- app_assoc. f_equal. by rewrite ztake_plus by lia.
  - destruct Hp as (Hw' & Hi' & Ho'). split_and!; try done; try lia; congruence.
  - destruct Hp as (Hw' & Hi' & Ho'). split_and!; try done; try lia; congruence.
Qed.

Lemma write_all_spec n buf t :
  tr_wf t -> write_post buf t (write_all n buf t).1 (write_all n buf t).2.
Proof.
  intros Hw. unfold write_all.
  enough (forall m k t1, tr_wf t1 -> 0 <= k <= len buf -> input t1 = input t -> output t1 = output t ++ ztake k buf ->
    let '(r, (_, t')) := await m (write_all_poll n buf) (k, t1) in write_post buf t r t') as Hg.
  { specialize (Hg n 0 t Hw). destruct (await _ _ _) as [r [k t']]. apply Hg; try done; [len_lia|].
    by rewrite ztake_0, app_nil_r. }
  intros m. induction m as [|m IH]; intros k t1 Hw1 Hk Hi Ho; [by split_and!; [..|exists k]|]. cbn.
  pose proof (write_all_poll_spec n buf (output t) (input t) k t1 Hw1 Hk Hi Ho) as Hp.
  destruct (write_all_poll n buf (k, t1)) as [[[]| |e| |] [k' t']]; cbn;
    destruct Hp as (Hw' & Hi' & Hk' & Ho' & Hr); try done; [..|by apply IH| |].
  - red. rewrite Ho', Hr, ztake_ge by lia. done.
  - split_and!; try done. by exists k'.
  - split_and!; try done. by exists k'.
Qed.

(** The last thing that the transport did before it was [t'] was to fail with [e]. *)
Definition faulted (e : io_error) (t' : T) : Prop :=
  exists t0, (exists n, poll_read n t0 = (RErr e, t')) \/ exists b, poll_write b t0 = (RErr e, t').

Lemma read_faulted n room t e t' : read n room t = (RErr e, t') -> faulted e t'.
Proof.
  unfold read. revert t. induction n as [|n IH]; intros t; cbn; [done|].
  destruct (poll_read room t) as [[b| |e1| |] t1] eqn:E; try done; [apply IH|]. intros [= <- <-]. exists t. left. by exists room.
Qed.
Lemma write_all_faulted n buf t e t' : write_all n buf t = (RErr e, t') -> faulted e t'.
Proof.
  assert (Hp : forall m k t k' t', write_all_poll m buf (k, t) = (RErr e, (k', t')) -> faulted e t').
  { clear. intros m. induction m as [|m IH]; intros k t k' t'; cbn; [done|]. destruct (k <? len buf); [|done].
    destruct (poll_write (zdrop k buf) t) as [[j| |e1| |] t1] eqn:E; try done; [apply IH|]. intros [= <- <- <-]. exists t. right. by exists (zdrop k buf). }
  unfold write_all. generalize 0 as k. intros k. enough (forall m k t, (let '(r, (_, t)) := await m (write_all_poll n buf) (k, t) in (r, t)) = (RErr e, t') -> faulted e t') by eauto.
  clear k t. intros m. induction m as [|m IH]; intros k t; cbn; [done|].
  destruct (write_all_poll n buf (k, t)) as [[[]| |e1| |] [k1 t1]] eqn:E; try done; [apply IH|]. intros [= -> ->]. by eapply Hp.
Qed.

(** The writes still needed, at worst. *)
Definition write_steps {LV : TransportLive T} (buf : bytes) (k : Z) (t : T) : nat :=
  Z.to_nat (len buf - k) * (max_stall + 1) + stall t.

Lemma write_all_poll_live {LV : TransportLive T} n buf k t :
  tr_wf t -> 0 <= k <= len buf -> (write_steps buf k t < n)%nat ->
  match write_all_poll n buf (k, t) with
  | (RVal _, _) | (RErr _, _) => True
  | (RPending, (k', t')) => (write_steps buf k' t' < write_steps buf k t)%nat
  | _ => False
  end.
Proof.
  revert k t. induction n as [|n IH]; intros k t Hw Hk Hn; [lia|]. cbn.
  destruct (Z.ltb_spec k (len buf)); [|done].
  pose proof (poll_write_ok (zdrop k buf) t Hw) as Hp. rewrite len_zdrop in Hp by lia.
  pose proof (stall_write (zdrop k buf) t) as Hst. pose proof (stall_write_zero (zdrop k buf) t) as Hz.
  destruct (poll_write (zdrop k buf) t) as [[m| |e| |] t'] eqn:E; try done.
  - destruct Hp as (Hw' & Hi' & Hm & Ho').
    assert (write_steps buf (k + m) t' < write_steps buf k t)%nat as Hs.
    { unfold write_steps in *. destruct (decide (m = 0)) as [->|].
      - assert (zdrop k buf <> []) as Hne.
        { intros Hnil%(f_equal len). rewrite len_zdrop in Hnil by lia. change (len []) with 0 in Hnil. lia. }
        specialize (Hz t' Hw Hne eq_refl). rewrite Z.add_0_r. lia.
      - pose proof (stall_bound t'). replace (Z.to_nat (len buf - k)) with (Z.to_nat m + Z.to_nat (len buf - (k + m)))%nat by lia.
        nia. }
    specialize (IH (k + m) t' Hw' ltac:(lia) ltac:(lia)).
    destruct (write_all_poll n buf (k + m, t')) as [[[]| |e| |] [k' t'']]; try done. lia.
  - specialize (Hst t' Hw eq_refl). unfold write_steps. lia.
Qed.

Lemma write_all_live {LV : TransportLive T} n buf t :
  tr_wf t -> (write_steps buf 0 t < n)%nat ->
  match (write_all n buf t).1 with RVal _ | RErr _ => True | _ => False end.
Proof.
  intros Hw Hn. unfold write_all.
  enough (forall m k t1, tr_wf t1 -> 0 <= k <= len buf -> output t1 = output t ++ ztake k buf ->
    (write_steps buf k t1 < m)%nat -> (write_steps buf k t1 < n)%nat ->
    match (await m (write_all_poll n buf) (k, t1)).1 with RVal _ | RErr _ => True | _ => False end) as Hg.
  { specialize (Hg n 0 t Hw). destruct (await _ _ _) as [r [k t']]. apply Hg; try done; [len_lia|].
    by rewrite ztake_0, app_nil_r. }
  intros m. induction m as [|m IH]; intros k t1 Hw1 Hk Ho Hm Hn1; [lia|]. cbn.
  pose proof (write_all_poll_live n buf k t1 Hw1 Hk Hn1) as Hp.
  pose proof (write_all_poll_spec n buf (output t) (input t1) k t1 Hw1 Hk eq_refl Ho) as Hsp.
  destruct (write_all_poll n buf (k, t1)) as [[[]| |e| |] [k' t']]; cbn; try done.
  destruct Hsp as (? & ? & ? & ? & _). apply IH; try done; lia.
Qed.
End RtFacts.
