(* ===== verification/Socks.v ===== *)
(** * SOCKS handshakes (src/src/core/client/connect/proxy/socks)

    The message codecs of both protocol versions and the handshakes made of them.
    A handshake runs on a connection to the proxy; name resolution and the
    connector below are arguments. *)

From S2P Require Import Prelude Buf Io Net.
Import IpParse.

(** ** [BytesMut] as the codecs use it *)

Record BytesMut := mkBytesMut { bm_data : bytes; bm_cap : Z }.

Section BytesMut.
Context `{Alloc}.

Definition with_capacity (n : Z) : BytesMut := mkBytesMut [] n.

(** [put_slice], [put_u8], [extend_from_slice] *)
Definition bm_put (s : bytes) (b : BytesMut) : BytesMut :=
  let l := len (bm_data b) in
  mkBytesMut (bm_data b ++ s)
    (if l + len s <=? bm_cap b then bm_cap b else bm_reserve l (bm_cap b) (len s)).

(** [copy_to_slice] on [n] bytes, and the numbers made of them; too few bytes
    are a panic. *)
Definition take_bytes {E} (n : Z) : PM E BytesMut bytes := fun b =>
  if len (bm_data b) <? n then (RPanic, b)
  else (RVal (ztake n (bm_data b)), mkBytesMut (zdrop n (bm_data b)) (bm_advance (len (bm_data b)) (bm_cap b) n)).

Definition be (l : bytes) : Z := foldl (fun a b => a * 256 + b) 0 l.
Definition get_u8 {E} : PM E BytesMut Z := pbind (take_bytes 1) (fun l => pret (be l)).
Definition get_u16 {E} : PM E BytesMut Z := pbind (take_bytes 2) (fun l => pret (be l)).
End BytesMut.

Definition u8_of (n : Z) : byte := n mod 256.
Definition be_u16 (n : Z) : bytes := [n / 256 mod 256; n mod 256].
Definition spare (b : BytesMut) : Z := bm_cap b - len (bm_data b).

(** [std::str::from_utf8] *)
Definition cont_byte (b : byte) : bool := (128 <=? b) && (b <=? 191).
Definition in_range (lo hi b : Z) : bool := (lo <=? b) && (b <=? hi).
Fixpoint is_utf8 (s : bytes) : bool :=
  match s with
  | [] => true
  | a :: s =>
      if a <? 128 then is_utf8 s
      else match s with
      | [] => false
      | b :: s =>
          if in_range 194 223 a then cont_byte b && is_utf8 s
          else match s with
          | [] => false
          | c :: s =>
              if (a =? 224) && in_range 160 191 b || (in_range 225 236 a || in_range 238 239 a) && cont_byte b
                 || (a =? 237) && in_range 128 159 b then cont_byte c && is_utf8 s
              else match s with
              | [] => false
              | d :: s =>
                  ((a =? 240) && in_range 144 191 b || in_range 241 243 a && cont_byte b
                   || (a =? 244) && in_range 128 143 b) && cont_byte c && cont_byte d && is_utf8 s
              end
          end
      end
  end.

(** ** Errors *)

Inductive ParsingError := Incomplete | PWouldOverflow | Other.
Inductive SerializeError := SWouldOverflow.

#[export] Instance ParsingError_eqdec : EqDecision ParsingError. Proof. solve_decision. Defined.

Module V4.
Inductive Status := Success | Failed | IdentFailure | IdentMismatch.
Inductive SocksV4Error := IpV6 | Command (s : Status).
#[export] Instance Status_eqdec : EqDecision Status. Proof. solve_decision. Defined.
End V4.

Module V5.
Inductive Status :=
| Success | GeneralServerFailure | ConnectionNotAllowed | NetworkUnreachable | HostUnreachable
| ConnectionRefused | TtlExpired | CommandNotSupported | AddressTypeNotSupported.
Inductive AuthError := Unsupported | MethodMismatch | AuthFailed.
Inductive SocksV5Error := HostTooLong | Auth (e : AuthError) | Command (s : Status).
#[export] Instance Status_eqdec : EqDecision Status. Proof. solve_decision. Defined.
End V5.

Inductive SocksError (C : Type) :=
| Inner (c : C)
| SIo (e : io_error)
| DnsFailure
| MissingHost
| MissingPort
| EV4 (e : V4.SocksV4Error)
| EV5 (e : V5.SocksV5Error)
| Parsing (e : ParsingError)
| Serialize (e : SerializeError).
Arguments Inner {C} _.
Arguments SIo {C} _.
Arguments DnsFailure {C}.
Arguments MissingHost {C}.
Arguments MissingPort {C}.
Arguments EV4 {C} _.
Arguments EV5 {C} _.
Arguments Parsing {C} _.
Arguments Serialize {C} _.

(** ** The connection during a handshake *)

Section Messages.
Context `{Alloc} {T : Type} `{Transport T} {C : Type}.

Record Handshake := mkHandshake { hs_conn : T; hs_send : BytesMut; hs_recv : BytesMut }.

(** I/O with its error wrapped by [?]. *)
Definition on_stream {A} (m : PM io_error T A) : PM (SocksError C) Handshake A := fun h =>
  let '(r, t) := m (hs_conn h) in
  (match r with
   | RVal a => RVal a | RPending => RPending | RErr e => RErr (SIo e) | RPanic => RPanic | RFuel => RFuel
   end, mkHandshake t (hs_send h) (hs_recv h)).

(** [n] bounds the turns of the loop and the polls of each read. *)
Fixpoint read_message {M} (n k : nat) (try_from : PM ParsingError BytesMut M) : PM (SocksError C) Handshake M := fun h =>
  match k with
  | O => (RFuel, h)
  | S k =>
      pbind (on_stream (read n 513)) (fun tmp h =>
        let buf := bm_put tmp (hs_recv h) in
        let '(r, buf) := try_from buf in
        let h := mkHandshake (hs_conn h) (hs_send h) buf in
        match r with
        | RErr Incomplete =>
            if len tmp =? 0 then
              if spare buf =? 0 then (RErr (Parsing PWouldOverflow), h)
              else (RErr (SIo (IoError UnexpectedEof "unexpected eof")), h)
            else read_message n k try_from h
        | RErr e => (RErr (Parsing e), h)
        | RVal m => (RVal m, h)
        | RPending => (RPending, h)
        | RPanic => (RPanic, h)
        | RFuel => (RFuel, h)
        end) h
  end.

(** [req.write_to_buf(&mut send_buf)?] *)
Definition on_send {A} (m : BytesMut -> result A SerializeError * BytesMut) : PM (SocksError C) Handshake A := fun h =>
  let '(r, b) := m (hs_send h) in
  (match r with Ok a => RVal a | Err e => RErr (Serialize e) end, mkHandshake (hs_conn h) b (hs_recv h)).
End Messages.
Arguments Handshake T : clear implicits.

(** What the connectors do around [execute]: the destination's host and port,
    then the connection to the proxy. *)
Section Call.
Context {T C Uri : Type} (uri_host : Uri -> option bytes) (uri_port : Uri -> option Z).
Context (execute : bytes -> Z -> PM (SocksError C) T unit).

Definition socks_call (dst : Uri) (connecting : result T C) : poll_res (SocksError C) T :=
  let port := default 443 (uri_port dst) in
  match uri_host dst with
  | None => RErr MissingHost
  | Some host =>
      match connecting with
      | Err e => RErr (Inner e)
      | Ok conn =>
          match execute host port conn with
          | (RVal _, conn) => RVal conn
          | (RErr e, _) => RErr e
          | (RPending, _) => RPending
          | (RPanic, _) => RPanic
          | (RFuel, _) => RFuel
          end
      end
  end.
End Call.

(** ** SOCKS 4 *)

Module SocksV4.
Import V4.

Inductive Address := Socket (ip : bytes) (port : Z) | Domain (domain : bytes) (port : Z).

Section V4.
Context `{Alloc}.

(** [Request::write_to_buf] on a [&mut BytesMut]: the room is what is left of
    the address space. *)
Definition write_to_buf (a : Address) (buf : BytesMut) : result Z SerializeError * BytesMut :=
  let room := usize_max - len (bm_data buf) in
  match a with
  | Socket ip port =>
      if room <? 10 then (Err SWouldOverflow, buf)
      else (Ok 10, bm_put [0; 0] (bm_put ip (bm_put (be_u16 port) (bm_put [4; 1] buf))))
  | Domain domain port =>
      if room <? 10 + len domain + 1 then (Err SWouldOverflow, buf)
      else (Ok (10 + len domain + 1),
            bm_put [0] (bm_put domain (bm_put [0; 0] (bm_put [0; 0; 0; 255] (bm_put (be_u16 port) (bm_put [4; 1] buf))))))
  end.

Definition status_try_from (byte : Z) : result Status ParsingError :=
  if byte =? 90 then Ok Success
  else if byte =? 91 then Ok Failed
  else if byte =? 92 then Ok IdentFailure
  else if byte =? 93 then Ok IdentMismatch
  else Err Other.

(** [Response::try_from] *)
Definition response_try_from : PM ParsingError BytesMut Status := fun buf =>
  if len (bm_data buf) <? 8 then (RErr Incomplete, buf)
  else
    pbind get_u8 (fun vn =>
      if negb (vn =? 0) then pfail Other
      else pbind get_u8 (fun cd =>
        match status_try_from cd with
        | Err e => pfail e
        | Ok status => pbind get_u16 (fun _ => pbind (take_bytes 4) (fun _ => pret status))
        end)) buf.

Context {T : Type} `{Transport T} {C Uri : Type}.
Context (resolve : bytes -> Z -> result (list SocketAddr) io_error).

Record SocksConfig := mkSocksConfig { proxy : Uri; local_dns : bool }.
Definition config_new (proxy : Uri) : SocksConfig := mkSocksConfig proxy false.
Definition set_local_dns (b : bool) (c : SocksConfig) : SocksConfig := mkSocksConfig (proxy c) b.

Definition first_v4 (l : list SocketAddr) : option Address :=
  head (omap (fun s => match sa_ip s with V4 ip => Some (Socket ip (sa_port s)) | V6 _ => None end) l).

Definition address (c : SocksConfig) (host : bytes) (port : Z) : result Address (SocksError C) :=
  match parse_ip host with
  | Some (V6 _) => Err (EV4 IpV6)
  | Some (V4 ip) => Ok (Socket ip port)
  | None =>
      if local_dns c then
        match resolve host port with
        | Err e => Err (SIo e)
        | Ok l => match first_v4 l with Some a => Ok a | None => Err DnsFailure end
        end
      else Ok (Domain host port)
  end.

Definition execute (n : nat) (c : SocksConfig) (host : bytes) (port : Z) : PM (SocksError C) T unit := fun conn =>
  match address c host port with
  | Err e => (RErr e, conn)
  | Ok a =>
      let '(r, h) :=
        pbind (on_send (write_to_buf a)) (fun k =>
        pbind pget (fun h =>
        pbind (on_stream (write_all n (ztake k (bm_data (hs_send h))))) (fun _ =>
        pbind (read_message n n response_try_from) (fun res =>
          if decide (res = Success) then pret tt else pfail (EV4 (Command res))))))
        (mkHandshake conn (with_capacity 1024) (with_capacity 1024)) in
      (r, hs_conn h)
  end.

Definition call (uri_host : Uri -> option bytes) (uri_port : Uri -> option Z) (n : nat) (c : SocksConfig) :=
  socks_call (C := C) uri_host uri_port (execute n c).
End V4.
End SocksV4.

(** ** SOCKS 5 *)

Module SocksV5.
Import V5.

Inductive AuthMethod := NoAuth | UserPass | NoneAcceptable.
#[export] Instance AuthMethod_eqdec : EqDecision AuthMethod. Proof. solve_decision. Defined.
Inductive Address := Socket (s : SocketAddr) | Domain (domain : bytes) (port : Z).

Definition method_byte (m : AuthMethod) : byte :=
  match m with NoAuth => 0 | UserPass => 2 | NoneAcceptable => 255 end.

Section V5.
Context `{Alloc}.
Abbreviation Writer := (BytesMut -> result Z SerializeError * BytesMut).

(** [NegotiationReq], [AuthenticationReq], [Address] and [ProxyReq] *)
Definition write_negotiation (m : AuthMethod) : Writer := fun buf =>
  if spare buf <? 3 then (Err SWouldOverflow, buf)
  else (Ok 3, bm_put [method_byte m] (bm_put [1] (bm_put [5] buf))).

Definition write_authentication (user pass : bytes) : Writer := fun buf =>
  if spare buf <? 3 + len user + len pass then (Err SWouldOverflow, buf)
  else (Ok (3 + len user + len pass),
        bm_put pass (bm_put [u8_of (len pass)] (bm_put user (bm_put [u8_of (len user)] (bm_put [1] buf))))).

Definition write_address (a : Address) : Writer := fun buf =>
  match a with
  | Socket (mkSocketAddr (V4 ip) port) =>
      if spare buf <? 1 + 4 + 2 then (Err SWouldOverflow, buf)
      else (Ok 7, bm_put (be_u16 port) (bm_put ip (bm_put [1] buf)))
  | Socket (mkSocketAddr (V6 ip) port) =>
      if spare buf <? 1 + 16 + 2 then (Err SWouldOverflow, buf)
      else (Ok 19, bm_put (be_u16 port) (bm_put ip (bm_put [4] buf)))
  | Domain domain port =>
      if spare buf <? 1 + 1 + len domain + 2 then (Err SWouldOverflow, buf)
      else (Ok (4 + len domain), bm_put (be_u16 port) (bm_put domain (bm_put [u8_of (len domain)] (bm_put [3] buf))))
  end.

Definition write_proxy (a : Address) : Writer := fun buf =>
  let addr_len := match a with
                  | Socket (mkSocketAddr (V4 _) _) => 1 + 4 + 2
                  | Socket (mkSocketAddr (V6 _) _) => 1 + 16 + 2
                  | Domain domain _ => 1 + 1 + len domain + 2
                  end in
  if spare buf <? 3 + addr_len then (Err SWouldOverflow, buf)
  else (Ok (3 + addr_len), (write_address a (bm_put [0] (bm_put [1] (bm_put [5] buf)))).2).

Definition method_try_from (byte : Z) : result AuthMethod ParsingError :=
  if byte =? 0 then Ok NoAuth else if byte =? 2 then Ok UserPass else if byte =? 255 then Ok NoneAcceptable
  else Err Other.

Definition status_try_from (byte : Z) : result Status ParsingError :=
  match byte with
  | 0 => Ok Success
  | 1 => Ok GeneralServerFailure
  | 2 => Ok ConnectionNotAllowed
  | 3 => Ok NetworkUnreachable
  | 4 => Ok HostUnreachable
  | 5 => Ok ConnectionRefused
  | 6 => Ok TtlExpired
  | 7 => Ok CommandNotSupported
  | 8 => Ok AddressTypeNotSupported
  | _ => Err Other
  end.

Definition of_result {A} (r : result A ParsingError) : PM ParsingError BytesMut A :=
  match r with Ok a => pret a | Err e => pfail e end.

(** [remaining() < n] *)
Definition need (n : Z) : PM ParsingError BytesMut unit := fun buf =>
  if len (bm_data buf) <? n then (RErr Incomplete, buf) else (RVal tt, buf).
Definition expect (b : byte) : PM ParsingError BytesMut unit :=
  pbind get_u8 (fun x => if x =? b then pret tt else pfail Other).

Definition negotiation_try_from : PM ParsingError BytesMut AuthMethod :=
  pbind (need 2) (fun _ => pbind (expect 5) (fun _ => pbind get_u8 (fun b => of_result (method_try_from b)))).

Definition authentication_try_from : PM ParsingError BytesMut bool :=
  pbind (need 2) (fun _ => pbind (expect 1) (fun _ => pbind get_u8 (fun b => pret (b =? 0)))).

(** [Address::try_from]; the name is looked at, not taken. *)
Definition address_try_from : PM ParsingError BytesMut Address :=
  pbind (need 2) (fun _ => pbind get_u8 (fun atyp =>
    match atyp with
    | 1 => pbind (need 6) (fun _ => pbind (take_bytes 4) (fun ip => pbind get_u16 (fun port =>
             pret (Socket (mkSocketAddr (V4 ip) port)))))
    | 3 => pbind get_u8 (fun l =>
             if l =? 0 then pfail Other
             else pbind (need (l + 2)) (fun _ => pbind pget (fun buf =>
               let domain := ztake l (bm_data buf) in
               if is_utf8 domain then pbind get_u16 (fun port => pret (Domain domain port)) else pfail Other)))
    | 4 => pbind (need 6) (fun _ => pbind (take_bytes 16) (fun ip => pbind get_u16 (fun port =>
             pret (Socket (mkSocketAddr (V6 ip) port)))))
    | _ => pfail Other
    end)).

Definition proxy_try_from : PM ParsingError BytesMut Status :=
  pbind (need 2) (fun _ => pbind (expect 5) (fun _ => pbind get_u8 (fun b =>
  pbind (of_result (status_try_from b)) (fun status =>
  pbind (expect 0) (fun _ => pbind address_try_from (fun _ => pret status)))))).

Context {T : Type} `{Transport T} {C Uri : Type}.
Context (resolve : bytes -> Z -> result (list SocketAddr) io_error).

Record SocksConfig := mkSocksConfig {
  proxy : Uri;
  proxy_auth : option (bytes * bytes);
  local_dns : bool;
  optimistic : bool
}.
Definition config_new (proxy : Uri) : SocksConfig := mkSocksConfig proxy None false false.
Definition with_auth (user pass : bytes) (c : SocksConfig) : SocksConfig :=
  mkSocksConfig (proxy c) (Some (user, pass)) (local_dns c) (optimistic c).
Definition set_local_dns (b : bool) (c : SocksConfig) : SocksConfig :=
  mkSocksConfig (proxy c) (proxy_auth c) b (optimistic c).
Definition send_optimistically (b : bool) (c : SocksConfig) : SocksConfig :=
  mkSocksConfig (proxy c) (proxy_auth c) (local_dns c) b.

Inductive State := SendingNegReq | ReadingNegRes | SendingAuthReq | ReadingAuthRes | SendingProxyReq | ReadingProxyRes.

Definition address (c : SocksConfig) (host : bytes) (port : Z) : result Address (SocksError C) :=
  match parse_ip host with
  | Some ip => Ok (Socket (mkSocketAddr ip port))
  | None =>
      if len host <=? 255 then
        if local_dns c then
          match resolve host port with
          | Err e => Err (SIo e)
          | Ok [] => Err DnsFailure
          | Ok (s :: _) => Ok (Socket s)
          end
        else Ok (Domain host port)
      else Err (EV5 HostTooLong)
  end.

Definition auth_method (c : SocksConfig) : AuthMethod :=
  match proxy_auth c with Some _ => UserPass | None => NoAuth end.

(** Append a message to the send buffer and write out what was appended. *)
Definition send_message (n : nat) (w : Writer) : PM (SocksError C) (Handshake T) unit :=
  pbind pget (fun h =>
    let start := len (bm_data (hs_send h)) in
    pbind (on_send w) (fun _ => pbind pget (fun h =>
      on_stream (write_all n (zdrop start (bm_data (hs_send h))))))).

(** One turn of the loop: the next state, or [None] when the tunnel is there. *)
Definition handshake_step (n : nat) (c : SocksConfig) (a : Address) (s : State)
  : PM (SocksError C) (Handshake T) (option State) :=
  match s with
  | SendingNegReq =>
      pbind (send_message n (write_negotiation (auth_method c))) (fun _ =>
        pret (Some (if optimistic c then
                      if decide (auth_method c = UserPass) then SendingAuthReq else SendingProxyReq
                    else ReadingNegRes)))
  | ReadingNegRes =>
      pbind (read_message n n negotiation_try_from) (fun res =>
        if decide (res = NoneAcceptable) then pfail (EV5 (Auth Unsupported))
        else if negb (bool_decide (res = auth_method c)) then pfail (EV5 (Auth MethodMismatch))
        else pret (Some (if optimistic c then
                           if decide (res = UserPass) then ReadingAuthRes else ReadingProxyRes
                         else if decide (res = UserPass) then SendingAuthReq else SendingProxyReq)))
  | SendingAuthReq =>
      match proxy_auth c with
      | None => ppanic
      | Some (user, pass) =>
          pbind (send_message n (write_authentication user pass)) (fun _ =>
            pret (Some (if optimistic c then SendingProxyReq else ReadingAuthRes)))
      end
  | ReadingAuthRes =>
      pbind (read_message n n authentication_try_from) (fun ok =>
        if negb ok then pfail (EV5 (Auth AuthFailed))
        else pret (Some (if optimistic c then ReadingProxyRes else SendingProxyReq)))
  | SendingProxyReq =>
      pbind (send_message n (write_proxy a)) (fun _ =>
        pret (Some (if optimistic c then ReadingNegRes else ReadingProxyRes)))
  | ReadingProxyRes =>
      pbind (read_message n n proxy_try_from) (fun res =>
        if decide (res = Success) then pret None else pfail (EV5 (Command res)))
  end.

Fixpoint handshake (n k : nat) (c : SocksConfig) (a : Address) (s : State) : PM (SocksError C) (Handshake T) unit :=
  match k with
  | O => fun h => (RFuel, h)
  | S k => pbind (handshake_step n c a s) (fun s' => match s' with Some s => handshake n k c a s | None => pret tt end)
  end.

(** The loop passes at most once through each of its six states. *)
Definition execute (n : nat) (c : SocksConfig) (host : bytes) (port : Z) : PM (SocksError C) T unit := fun conn =>
  match address c host port with
  | Err e => (RErr e, conn)
  | Ok a =>
      let '(r, h) := handshake n 6 c a SendingNegReq (mkHandshake conn (with_capacity 262) (with_capacity 513)) in
      (r, hs_conn h)
  end.

Definition call (uri_host : Uri -> option bytes) (uri_port : Uri -> option Z) (n : nat) (c : SocksConfig) :=
  socks_call (C := C) uri_host uri_port (execute n c).
End V5.
End SocksV5.
