(* ===== verification/SocksFacts.v ===== *)
(** * SOCKS: what the message layer does

    [framed k f p]: the parser [p] waits for [k] bytes and then decides by [f] on
    exactly those; [read_message] with such a parser does not depend on how the
    reply is cut into reads. *)

From S2P Require Import Prelude Buf Io Net Socks.

Section Facts.
Context `{AL : Alloc} {ALL : AllocLaws}.
Context {T : Type} {HT : Transport T} {HL : TransportLaws T} {LV : TransportLive T} {C : Type}.
Implicit Types (h : Handshake T) (b : BytesMut) (t : T).

(** ** Buffers *)

Lemma bm_put_data s b : bm_data (bm_put s b) = bm_data b ++ s.
Proof. done. Qed.

Lemma bm_put_cap s b : bm_cap b <= bm_cap (bm_put s b).
Proof.
  cbn. case_match; [lia|]. pose proof (bm_reserve_enough (len (bm_data b)) (bm_cap b) (len s) (len_nonneg s)). lia.
Qed.

Lemma bm_put_fits s b : len (bm_data b) + len s <= bm_cap b -> bm_cap (bm_put s b) = bm_cap b.
Proof. intros Hf. cbn. by rewrite (proj2 (Z.leb_le _ _)). Qed.

Lemma take_bytes_ok {E} n b :
  0 <= n <= len (bm_data b) ->
  exists b', take_bytes (E := E) n b = (RVal (ztake n (bm_data b)), b') /\ bm_data b' = zdrop n (bm_data b).
Proof. intros Hn. unfold take_bytes. rewrite (proj2 (Z.ltb_ge _ _)) by lia. by eexists. Qed.

Lemma get_u8_cons {E} x l cap :
  exists b', get_u8 (E := E) (mkBytesMut (x :: l) cap) = (RVal x, b') /\ bm_data b' = l.
Proof.
  unfold get_u8, pbind. destruct (take_bytes_ok (E := E) 1 (mkBytesMut (x :: l) cap)) as (b' & -> & Hd).
  { cbn. rewrite len_cons. len_lia. }
  exists b'. rewrite Hd. cbn [bm_data]. unfold pret, ztake, zdrop. rewrite len_cons.
  rewrite !Z.min_l by len_lia. by cbn.
Qed.

Lemma get_u8_nil {E} cap : get_u8 (E := E) (mkBytesMut [] cap) = (RPanic, mkBytesMut [] cap).
Proof. done. Qed.

(** ** Replies of a known length *)

Definition framed {M} (k : Z) (f : bytes -> result M ParsingError) (p : PM ParsingError BytesMut M) : Prop :=
  forall b,
    if len (bm_data b) <? k then p b = (RErr Incomplete, b)
    else exists b', bm_data b' `suffix_of` bm_data b /\
      match f (ztake k (bm_data b)) with
      | Ok m => p b = (RVal m, b') /\ bm_data b' = zdrop k (bm_data b)
      | Err e => p b = (RErr e, b') /\ e <> Incomplete
      end.

(** What the proxy said and the handshake has not looked at yet. *)
Definition stream h : bytes := bm_data (hs_recv h) ++ input (hs_conn h).

Definition reads (n k : nat) h : Prop := (max_stall < n)%nat /\ (length (input (hs_conn h)) < k)%nat.

Lemma on_stream_read n h :
  tr_wf (hs_conn h) -> (max_stall < n)%nat ->
  exists t', tr_wf t' /\ output t' = output (hs_conn h) /\
    ((exists tmp, on_stream (C := C) (read n 513) h = (RVal tmp, mkHandshake t' (hs_send h) (hs_recv h)) /\
       input (hs_conn h) = tmp ++ input t' /\ (tmp = [] -> input (hs_conn h) = [])) \/
     (exists e, on_stream (C := C) (read n 513) h = (RErr (SIo e), mkHandshake t' (hs_send h) (hs_recv h)) /\ faulted e t')).
Proof.
  intros Hw Hn. pose proof (read_spec n 513 _ Hw ltac:(lia)) as Hs. pose proof (read_live n 513 _ Hw ltac:(lia) Hn) as Hl.
  pose proof (read_faulted n 513 (hs_conn h)) as Hf.
  unfold on_stream. destruct (read n 513 (hs_conn h)) as [[tmp| |e| |] t']; try done; cbn in *.
  - destruct Hs as (Hw' & Ho & Hi & _ & He). exists t'. split_and!; try done. left. by exists tmp.
  - destruct Hs as (Hw' & Ho & _). exists t'. split_and!; try done. right. exists e. split; [done|]. by apply Hf.
Qed.

(** The proxy closed the connection. *)
Definition eof : io_error := IoError UnexpectedEof "unexpected eof".

(** [read_message] up to the outcome of the parser. *)
Definition message_post {M} (k : Z) (f : bytes -> result M ParsingError) h
    (r : poll_res (SocksError C) M) h' : Prop :=
  tr_wf (hs_conn h') /\ output (hs_conn h') = output (hs_conn h) /\ hs_send h' = hs_send h /\
  match r with
  | RVal m => k <= len (stream h) /\ f (ztake k (stream h)) = Ok m /\ stream h' = zdrop k (stream h)
  | RErr (Parsing e) =>
      k <= len (stream h) /\ f (ztake k (stream h)) = Err e \/
      len (stream h) < k /\ e = PWouldOverflow /\ bm_cap (hs_recv h) < k
  | RErr (SIo e) => faulted e (hs_conn h') \/ e = eof /\ input (hs_conn h') = [] /\ len (stream h) < k
  | _ => False
  end.

Lemma read_message_framed {M} k (f : bytes -> result M ParsingError) p n fuel h :
  framed k f p -> 0 <= k -> tr_wf (hs_conn h) -> reads n fuel h ->
  message_post k f h (read_message (C := C) n fuel p h).1 (read_message (C := C) n fuel p h).2.
Proof.
  intros Hf Hk. revert h. induction fuel as [|fuel IH]; intros h Hw [Hn Hfu]; [lia|]. cbn [read_message].
  destruct (on_stream_read n h Hw Hn) as (t' & Hw' & Ho & [(tmp & E & Hi & Hne)|(e & E & Hbad)]); unfold pbind; rewrite E;
    [|by split_and!; [..|left]].
  cbv zeta beta. cbn [hs_recv hs_conn hs_send]. set (buf := bm_put tmp (hs_recv h)).
  assert (stream h = bm_data buf ++ input t') as Hst.
  { unfold stream, buf. rewrite bm_put_data, Hi, app_assoc. done. }
  specialize (Hf buf). destruct (Z.ltb_spec (len (bm_data buf)) k) as [Hlt|Hge].
  - rewrite Hf. cbn [fst snd]. destruct (Z.eqb_spec (len tmp) 0) as [Hz|Hz].
    + apply len_zero in Hz. subst tmp. specialize (Hne eq_refl).
      assert (input t' = []) as Hnil by (rewrite Hne in Hi; by destruct (input t')).
      destruct (Z.eqb_spec (spare buf) 0) as [Hsp|]; [|split_and!; try done; right; split_and!; [done..|]; by rewrite Hst, Hnil, app_nil_r].
      split_and!; try done. right. rewrite Hst, Hnil, app_nil_r. split_and!; [done|done|].
      pose proof (bm_put_cap [] (hs_recv h)) as Hcap. fold buf in Hcap. unfold spare in Hsp. lia.
    + assert (length (input t') < fuel)%nat as Hfu'.
      { rewrite Hi, length_app in Hfu. unfold len in Hz. lia. }
      specialize (IH (mkHandshake t' (hs_send h) buf) Hw' (conj Hn Hfu')).
      destruct (read_message n fuel p _) as [r h']. cbn in *. unfold message_post, stream in *. cbn in *.
      rewrite <- Hst in IH. destruct IH as (? & Ho' & ? & IH). split_and!; try done; [congruence|].
      destruct r as [m| |[]| |]; try done. destruct IH as [IH|(? & ? & Hc)]; [by left|right].
      pose proof (bm_put_cap tmp (hs_recv h)) as Hcap. split_and!; try done. by eapply Z.le_lt_trans.
  - destruct Hf as (b' & _ & Hf). rewrite <- (ztake_app_le k (bm_data buf) (input t')), <- Hst in Hf by lia.
    assert (k <= len (stream h)) as Hle by (rewrite Hst, len_app; len_lia).
    destruct (f (ztake k (stream h))) as [m|e] eqn:Ef.
    + destruct Hf as [-> Hd]. cbn. split_and!; try done. unfold stream in *. cbn.
      by rewrite Hd, Hst, <- zdrop_app_le by lia.
    + destruct Hf as [-> He]. destruct e; try done; cbn; split_and!; try done; by left.
Qed.

(** ** The parsers that wait for the whole reply *)

Definition v4_reply (s : bytes) : result V4.Status ParsingError :=
  match s with
  | vn :: cd :: _ => if vn =? 0 then SocksV4.status_try_from cd else Err Other
  | _ => Err Other
  end.

Definition negotiation_reply (s : bytes) : result SocksV5.AuthMethod ParsingError :=
  match s with [v; m] => if v =? 5 then SocksV5.method_try_from m else Err Other | _ => Err Other end.

Definition authentication_reply (s : bytes) : result bool ParsingError :=
  match s with [v; b] => if v =? 1 then Ok (b =? 0) else Err Other | _ => Err Other end.

(** Take [u8 x]: the next byte is [x]; [nbytes n]: the next [n] bytes. *)
Lemma bind_u8 {A} x l c (k : Z -> PM ParsingError BytesMut A) :
  exists c', pbind get_u8 k (mkBytesMut (x :: l) c) = k x (mkBytesMut l c').
Proof. destruct (get_u8_cons (E := ParsingError) x l c) as ([d c'] & E & <-). exists c'. by apply pbind_val. Qed.

Lemma bind_bytes {A} n l c (k : bytes -> PM ParsingError BytesMut A) :
  0 <= n <= len l -> exists c', pbind (take_bytes n) k (mkBytesMut l c) = k (ztake n l) (mkBytesMut (zdrop n l) c').
Proof.
  intros Hn. destruct (take_bytes_ok (E := ParsingError) n (mkBytesMut l c) Hn) as ([d c'] & E & Hd).
  exists c'. cbn in Hd. subst d. by apply pbind_val.
Qed.

Lemma bind_u16 {A} l c (k : Z -> PM ParsingError BytesMut A) :
  2 <= len l -> exists c', pbind get_u16 k (mkBytesMut l c) = k (be (ztake 2 l)) (mkBytesMut (zdrop 2 l) c').
Proof.
  intros Hn. destruct (bind_bytes 2 l c (fun l => pret (be l)) ltac:(lia)) as (c' & E).
  exists c'. by apply pbind_val.
Qed.

Lemma bind_need {A} n b (k : unit -> PM ParsingError BytesMut A) :
  n <= len (bm_data b) -> pbind (SocksV5.need n) k b = k tt b.
Proof. intros Hn. apply pbind_val. unfold SocksV5.need. by rewrite (proj2 (Z.ltb_ge _ _)) by lia. Qed.

Lemma need_short {A} n b (k : unit -> PM ParsingError BytesMut A) :
  len (bm_data b) < n -> pbind (SocksV5.need n) k b = (RErr Incomplete, b).
Proof. intros Hn. unfold pbind, SocksV5.need. by rewrite (proj2 (Z.ltb_lt _ _)). Qed.

Lemma bind_expect {A} v x l c (k : unit -> PM ParsingError BytesMut A) :
  exists c', pbind (SocksV5.expect v) k (mkBytesMut (x :: l) c) =
    if x =? v then k tt (mkBytesMut l c') else (RErr Other, mkBytesMut l c').
Proof.
  destruct (bind_u8 x l c (fun x => if x =? v then pret tt else pfail Other)) as (c' & E).
  exists c'. unfold SocksV5.expect, pbind at 1. rewrite E. by destruct (x =? v).
Qed.

Ltac u8 x := match goal with |- context [pbind get_u8 ?k (mkBytesMut (x :: ?l) ?c)] =>
  let c' := fresh "c" in destruct (bind_u8 x l c k) as [c' ->] end.

Lemma v4_framed : framed 8 v4_reply SocksV4.response_try_from.
Proof.
  intros [l cap]. cbn [bm_data]. unfold SocksV4.response_try_from. cbn [bm_data].
  destruct (Z.ltb_spec (len l) 8); [done|].
  destruct l as [|vn [|cd l]]; [unfold len in *; cbn in *; lia..|]. rewrite !len_cons in *.
  replace (ztake 8 (vn :: cd :: l)) with (vn :: cd :: ztake 6 l).
  2:{ unfold ztake. rewrite !len_cons, !Z.min_l by lia. done. }
  cbn [v4_reply]. u8 vn. destruct (Z.eqb_spec vn 0) as [Hvn|Hvn]; cbn [negb].
  2:{ eexists (mkBytesMut _ _). split; [|split; [done|done]]. by exists [vn]. }
  u8 cd. destruct (SocksV4.status_try_from cd) as [st|e] eqn:Est.
  2:{ eexists (mkBytesMut _ _). split; [|split; [done|]]; [by exists [vn; cd]|]. unfold SocksV4.status_try_from in Est.
      repeat case_match; simplify_eq; done. }
  match goal with |- context [pbind get_u16 ?k (mkBytesMut _ ?c)] => destruct (bind_u16 l c k ltac:(lia)) as [c2 ->] end.
  match goal with |- context [pbind (take_bytes 4) ?k (mkBytesMut _ ?c)] =>
    destruct (bind_bytes 4 (zdrop 2 l) c k ltac:(rewrite len_zdrop by lia; lia)) as [c3 ->] end.
  rewrite zdrop_zdrop by lia.
  assert (zdrop 8 (vn :: cd :: l) = zdrop (2 + 4) l) as Ez.
  { unfold zdrop. rewrite !len_cons, !Z.min_l by lia. done. }
  eexists (mkBytesMut _ _). split; [|split; [done|done]]. cbn [bm_data]. rewrite <- Ez. eexists. symmetry. apply ztake_zdrop.
Qed.

Lemma two_bytes {M} (g : Z -> Z -> result M ParsingError) (p : PM ParsingError BytesMut M) f :
  (forall x y, f [x; y] = g x y) ->
  (forall b, len (bm_data b) < 2 -> p b = (RErr Incomplete, b)) ->
  (forall x y (l : bytes) (cap : Z), exists b', bm_data b' `suffix_of` (x :: y :: l) /\
     match g x y with
     | Ok m => p (mkBytesMut (x :: y :: l) cap) = (RVal m, b') /\ bm_data b' = l
     | Err e => p (mkBytesMut (x :: y :: l) cap) = (RErr e, b') /\ e <> Incomplete
     end) ->
  framed 2 f p.
Proof.
  intros Hf Hs Hp [l cap]. cbn [bm_data]. destruct (Z.ltb_spec (len l) 2); [by apply Hs|].
  destruct l as [|x [|y l]]; [unfold len in *; cbn in *; lia..|].
  replace (ztake 2 (x :: y :: l)) with [x; y] by (unfold ztake; rewrite Z.min_l by lia; done).
  replace (zdrop 2 (x :: y :: l)) with l by (unfold zdrop; rewrite Z.min_l by lia; done).
  rewrite Hf. apply Hp.
Qed.

Ltac expect_u8 v x := match goal with |- context [pbind (SocksV5.expect v) ?k (mkBytesMut (x :: ?l) ?c)] =>
  let c' := fresh "c" in destruct (bind_expect v x l c k) as [c' ->] end.

Lemma negotiation_framed : framed 2 negotiation_reply SocksV5.negotiation_try_from.
Proof.
  apply two_bytes with (g := fun x y => if x =? 5 then SocksV5.method_try_from y else Err Other); [done|..].
  - intros b Hb. by apply need_short.
  - intros x y l cap. unfold SocksV5.negotiation_try_from. rewrite bind_need by (cbn; rewrite !len_cons; len_lia).
    expect_u8 5 x. destruct (x =? 5); [|eexists (mkBytesMut _ _); split; [|done]; by exists [x]].
    u8 y. destruct (SocksV5.method_try_from y) eqn:Em; (eexists (mkBytesMut _ _); split; [|split; [done|]]);
      try (by exists [x; y]); [done|].
    unfold SocksV5.method_try_from in Em. repeat case_match; simplify_eq; done.
Qed.

Lemma authentication_framed : framed 2 authentication_reply SocksV5.authentication_try_from.
Proof.
  apply two_bytes with (g := fun x y => if x =? 1 then Ok (y =? 0) else Err Other); [done|..].
  - intros b Hb. by apply need_short.
  - intros x y l cap. unfold SocksV5.authentication_try_from. rewrite bind_need by (cbn; rewrite !len_cons; len_lia).
    expect_u8 1 x. destruct (x =? 1); [|eexists (mkBytesMut _ _); split; [|done]; by exists [x]].
    u8 y. eexists (mkBytesMut _ _). split; [|split; [done|done]]. by exists [x; y].
Qed.

(** ** The reply to the proxy request

    Its parser takes bytes before it knows that the reply is complete. *)

Import SocksV5.

(** The head of a reply, whatever its status, that is taken from the buffer when the
    rest of the reply is not there yet; it is not put back. *)
Definition abandoned (l : bytes) : Prop := exists x st u, l = 5 :: x :: 0 :: u /\ status_try_from x = Ok st /\
  (u = [] \/ u = [1] \/ u = [4] \/ exists n, u = [3; n]).
Definition cut_off (l : bytes) : Prop := exists heads, l = concat heads /\ Forall abandoned heads.

Definition proxy_post (b : BytesMut) (r : poll_res ParsingError V5.Status) (b' : BytesMut) : Prop :=
  exists used, bm_data b = used ++ bm_data b' /\
  match r with
  | RVal st => exists x u, used = 5 :: x :: 0 :: u /\ status_try_from x = Ok st
  | RErr Incomplete => used = [] \/ abandoned used
  | RErr _ | RPanic => True
  | _ => False
  end.

Create HintDb socks discriminated.

(** What [address_try_from] leaves is a rest of the buffer. *)
Definition shrinks {A} (p : PM ParsingError BytesMut A) : Prop :=
  forall b, bm_data (p b).2 `suffix_of` bm_data b /\ match (p b).1 with RPending | RFuel => False | _ => True end.

Lemma shrinks_bind {A B} (p : PM ParsingError BytesMut A) (k : A -> PM ParsingError BytesMut B) :
  shrinks p -> (forall a, shrinks (k a)) -> shrinks (pbind p k).
Proof.
  intros Hp Hk b. specialize (Hp b). unfold pbind. destruct (p b) as [[a| |e| |] b']; cbn in *; try done.
  destruct (Hk a b') as [Hs ?]. split; [|done]. etrans; [apply Hs|apply Hp].
Qed.

Lemma shrinks_ret {A} (a : A) : shrinks (pret a).
Proof. by intros b. Qed.
Lemma shrinks_fail {A} e : shrinks (A := A) (pfail e).
Proof. by intros b. Qed.
Lemma shrinks_get : shrinks pget.
Proof. by intros b. Qed.
Lemma shrinks_need n : shrinks (need n).
Proof. intros b. unfold need. by case_match. Qed.
Lemma shrinks_take n : shrinks (take_bytes n).
Proof.
  intros b. unfold take_bytes. case_match; [done|]. cbn. split; [|done]. exists (ztake n (bm_data b)). symmetry. apply ztake_zdrop.
Qed.
Hint Resolve shrinks_bind shrinks_ret shrinks_fail shrinks_get shrinks_need shrinks_take : socks.

Lemma shrinks_u8 : shrinks get_u8.
Proof. unfold get_u8. auto with socks. Qed.
Lemma shrinks_u16 : shrinks get_u16.
Proof. unfold get_u16. auto with socks. Qed.
Hint Resolve shrinks_u8 shrinks_u16 : socks.

Lemma shrinks_address : shrinks address_try_from.
Proof.
  unfold address_try_from.
  repeat first
    [ solve [auto with socks] | apply shrinks_bind | match goal with |- forall _, shrinks _ => intros ? end
    | match goal with |- shrinks (match ?x with _ => _ end) => destruct x end ].
Qed.

(** Parsers that do not ask for more. *)
Definition decides {A} (p : PM ParsingError BytesMut A) : Prop := forall b, (p b).1 <> RErr Incomplete.
Lemma decides_bind {A B} (p : PM ParsingError BytesMut A) (k : A -> PM ParsingError BytesMut B) :
  decides p -> (forall a, decides (k a)) -> decides (pbind p k).
Proof. intros Hp Hk b. specialize (Hp b). unfold pbind. destruct (p b) as [[a| |e| |] b']; cbn in *; [apply Hk|done|congruence|done|done]. Qed.
Lemma decides_take n : decides (take_bytes n).
Proof. intros b. unfold take_bytes. by case_match. Qed.
Lemma decides_ret {A} (a : A) : decides (pret a).
Proof. by intros b. Qed.
Hint Resolve decides_bind decides_take decides_ret : socks.

(** What an incomplete address has lost. *)
Lemma address_incomplete b : (address_try_from b).1 = RErr Incomplete ->
  exists u, bm_data b = u ++ bm_data (address_try_from b).2 /\ (u = [] \/ u = [1] \/ u = [4] \/ exists n, u = [3; n]).
Proof.
  destruct b as [l c]. unfold address_try_from. destruct (Z.lt_ge_cases (len l) 2) as [Hl|Hl].
  { rewrite need_short by done. intros _. exists []. split; [done|by left]. }
  rewrite bind_need by done. destruct l as [|a l]; [unfold len in Hl; cbn in Hl; lia|]. u8 a.
  assert (Hend : forall {A} n (k : unit -> PM ParsingError BytesMut A) l' c', (forall u, decides (k u)) ->
    (pbind (need n) k (mkBytesMut l' c')).1 = RErr Incomplete -> bm_data (pbind (need n) k (mkBytesMut l' c')).2 = l').
  { intros A n k l' c' Hk. destruct (Z.lt_ge_cases (len l') n); [by rewrite need_short|]. rewrite bind_need by done. intros E. by destruct (Hk tt _ E). }
  assert (Hip : forall n (f : bytes -> Z -> Address) l' c',
    (pbind (need 6) (fun _ => pbind (take_bytes n) (fun ip => pbind get_u16 (fun port => pret (f ip port)))) (mkBytesMut l' c')).1 = RErr Incomplete ->
    bm_data (pbind (need 6) (fun _ => pbind (take_bytes n) (fun ip => pbind get_u16 (fun port => pret (f ip port)))) (mkBytesMut l' c')).2 = l').
  { intros n f l' c'. apply Hend. intros _. unfold get_u16. auto 10 with socks. }
  destruct a as [|p|p]; [done| |done]. destruct p as [[[]|[]|]|[[]|[]|]|]; try done.
  - destruct l as [|x l]; [unfold len in Hl; cbn in Hl; lia|]. u8 x. destruct (x =? 0); [done|]. intros E. exists [3; x]. split; [|right; right; right; by exists x].
    cbn [bm_data app]. do 2 f_equal. symmetry. apply Hend; [|done]. intros _ b. unfold pbind at 1, pget. cbv zeta.
    destruct (is_utf8 _); [|done]. unfold get_u16. apply (decides_bind (pbind (take_bytes 2) _)); auto with socks.
  - intros E. exists [4]. split; [|by auto]. cbn [bm_data app]. f_equal. symmetry. by apply (Hip 16 (fun ip port => Socket (mkSocketAddr (V6 ip) port))).
  - intros E. exists [1]. split; [|by auto]. cbn [bm_data app]. f_equal. symmetry. by apply (Hip 4 (fun ip port => Socket (mkSocketAddr (V4 ip) port))).
Qed.

Lemma status_complete x e : status_try_from x = Err e -> e = Other.
Proof. unfold status_try_from. repeat case_match; congruence. Qed.

Lemma proxy_spec b : let '(r, b') := proxy_try_from b in proxy_post b r b'.
Proof.
  destruct b as [l c]. unfold proxy_try_from. destruct (Z.lt_ge_cases (len l) 2) as [Hl|Hl].
  { rewrite need_short by done. exists []. split; [done|by left]. }
  rewrite bind_need by done. destruct l as [|v [|x l]]; [unfold len in *; cbn in *; lia..|].
  expect_u8 5 v. destruct (Z.eqb_spec v 5) as [->|]; [|by exists [v]].
  u8 x. destruct (status_try_from x) as [st|e] eqn:Est; cbn [of_result].
  2:{ apply status_complete in Est. subst. by exists [5; x]. }
  rewrite (pbind_val (pret st) _ _ st _ eq_refl).
  destruct l as [|z l]; [by exists [5; x]|]. expect_u8 0 z. destruct (Z.eqb_spec z 0) as [->|]; [|by exists [5; x; z]].
  unfold pbind. pose proof (shrinks_address (mkBytesMut l c2)) as [[u Hu] Hr]. pose proof (address_incomplete (mkBytesMut l c2)) as Hinc.
  destruct (address_try_from (mkBytesMut l c2)) as [[a| |e| |] b']; cbn in *; subst; try done.
  - exists (5 :: x :: 0 :: u). split; [done|]. by exists x, u.
  - destruct e; [|by exists (5 :: x :: 0 :: u)..]. destruct (Hinc eq_refl) as (v & Hv & Hc). exists (5 :: x :: 0 :: v). rewrite Hv. split; [done|].
    right. by exists x, st, v.
  - by exists (5 :: x :: 0 :: u).
Qed.

(** What the parser makes of bytes of [l], after heads that were given up. *)
Definition parsed (l : bytes) (r : poll_res ParsingError V5.Status) : Prop :=
  exists skip piece more cap, l = skip ++ piece ++ more /\ cut_off skip /\ (proxy_try_from (mkBytesMut piece cap)).1 = r.

Definition proxy_message_post h (r : poll_res (SocksError C) V5.Status) h' : Prop :=
  tr_wf (hs_conn h') /\ output (hs_conn h') = output (hs_conn h) /\
  match r with
  | RVal st => exists skip x tail, stream h = skip ++ 5 :: x :: 0 :: tail /\ status_try_from x = Ok st /\
      cut_off skip
  | RErr (Parsing e) => e = PWouldOverflow /\ input (hs_conn h') = [] \/ parsed (stream h) (RErr e)
  | RErr (SIo e) => faulted e (hs_conn h') \/ e = eof /\ input (hs_conn h') = []
  | RPanic => parsed (stream h) RPanic
  | _ => False
  end.

Lemma parsed_later used l r : used = [] \/ abandoned used -> parsed l r -> parsed (used ++ l) r.
Proof.
  intros Hu (skip & piece & more & cap & -> & (heads & -> & Hh) & Hr). exists (used ++ concat heads), piece, more, cap. rewrite <- app_assoc. split_and!; try done.
  destruct Hu as [->|Hu]; [by exists heads|]. exists (used :: heads). split; [done|by constructor].
Qed.

Lemma read_message_proxy n fuel h :
  tr_wf (hs_conn h) -> reads n fuel h ->
  proxy_message_post h (read_message (C := C) n fuel proxy_try_from h).1 (read_message (C := C) n fuel proxy_try_from h).2.
Proof.
  revert h. induction fuel as [|fuel IH]; intros h Hw [Hn Hfu]; [lia|]. cbn [read_message].
  destruct (on_stream_read n h Hw Hn) as (t' & Hw' & Ho & [(tmp & E & Hi & Hne)|(e & E & Hbad)]); unfold pbind; rewrite E;
    [|by split_and!; [..|left]].
  cbv zeta beta. cbn [hs_recv hs_conn hs_send]. set (buf := bm_put tmp (hs_recv h)).
  assert (stream h = bm_data buf ++ input t') as Hst.
  { unfold stream, buf. rewrite bm_put_data, Hi, app_assoc. done. }
  assert (Hnow : forall r, (proxy_try_from buf).1 = r -> parsed (stream h) r).
  { intros r Hr. exists [], (bm_data buf), (input t'), (bm_cap buf). split_and!; [done|by exists []|by destruct buf]. }
  pose proof (proxy_spec buf) as Hp. destruct (proxy_try_from buf) as [r buf']. destruct Hp as (used & Hu & Hr). cbn [fst] in Hnow.
  destruct r as [st| |[]| |]; try done; try (split_and!; [done..|by right; apply Hnow]); try (split_and!; [done..|by apply Hnow]).
  - destruct Hr as (x & u & -> & Hx). split_and!; try done. exists [], x, (u ++ bm_data buf' ++ input t').
    rewrite Hst, Hu. cbn. rewrite <- !app_assoc. split_and!; try done. by exists [].
  - destruct (Z.eqb_spec (len tmp) 0) as [Hz|Hz].
    { apply len_zero in Hz. subst tmp. specialize (Hne eq_refl). assert (input t' = []) as Hnil by (rewrite Hne in Hi; by destruct (input t')).
      case_match; (split_and!; [done..|]); [by left|by right]. }
    assert (length (input t') < fuel)%nat as Hfu'.
    { rewrite Hi, length_app in Hfu. unfold len in Hz. lia. }
    specialize (IH (mkHandshake t' (hs_send h) buf') Hw' (conj Hn Hfu')).
    destruct (read_message n fuel _ _) as [r h']. cbn in *. destruct IH as (? & Ho' & IH). cbn in Ho'.
    assert (Hl : stream h = used ++ stream (mkHandshake t' (hs_send h) buf')) by (unfold stream at 2; cbn; by rewrite Hst, Hu, <- app_assoc).
    split_and!; try done; [congruence|]. destruct r as [st| |[]| |]; try done.
    2: { destruct IH as [?|IH]; [by left|right]. rewrite Hl. by apply parsed_later. }
    2: { rewrite Hl. by apply parsed_later. }
    destruct IH as (skip & x & tail & Hs & Hx & Hk). unfold stream in Hs. cbn in Hs.
    exists (used ++ skip), x, tail. rewrite Hst, Hu, <- !app_assoc, Hs. split_and!; try done.
    destruct Hr as [->|Hr]; [done|]. destruct Hk as (heads & -> & Hh). exists (used :: heads). split; [done|by constructor].
Qed.
End Facts.
