(* ===== verification/SocksProps.v ===== *)
(** * SOCKS: the handshakes

    What is sent, in which order and after which replies, for any transport that
    does not stall forever; that a server reads from the version 5 messages what
    was meant, and what one reads from the version 4 request. *)

From S2P Require Import Prelude Buf Io Models IoProps Net Socks SocksFacts.
Import IpParse.

(** Fuel for a handshake: the reads stop at the end of the input, the writes at
    [m] bytes. *)
Definition socks_fuel {T} `{TransportLive T} (m : Z) (t : T) : nat :=
  length (input t) + Z.to_nat (m + 1) * (max_stall + 1) + 1.

Section Sending.
Context `{AL : Alloc} {ALL : AllocLaws}.
Context {T : Type} {HT : Transport T} {HL : TransportLaws T} {LV : TransportLive T} {C : Type}.
Implicit Types (h : Handshake T) (t : T).

Lemma socks_fuel_enough m t n :
  0 <= m -> (socks_fuel m t <= n)%nat ->
  (length (input t) < n)%nat /\ (max_stall < n)%nat /\
  forall k, k <= m -> (Z.to_nat (k + 1) * (max_stall + 1) <= n)%nat.
Proof.
  unfold socks_fuel. intros Hm Hn. split_and!; [lia|nia|]. intros k Hk.
  pose proof (Nat.mul_le_mono_r (Z.to_nat (k + 1)) (Z.to_nat (m + 1)) (max_stall + 1)). lia.
Qed.

(** The message is handed over, or a prefix of it and the connection fails. *)
Lemma on_stream_write n msg h :
  tr_wf (hs_conn h) -> (Z.to_nat (len msg + 1) * (max_stall + 1) <= n)%nat ->
  exists t', tr_wf t' /\ input t' = input (hs_conn h) /\
    (on_stream (C := C) (write_all n msg) h = (RVal tt, mkHandshake t' (hs_send h) (hs_recv h)) /\
       output t' = output (hs_conn h) ++ msg \/
     exists e k, on_stream (C := C) (write_all n msg) h = (RErr (SIo e), mkHandshake t' (hs_send h) (hs_recv h)) /\
       output t' = output (hs_conn h) ++ ztake k msg /\ faulted e t').
Proof.
  intros Hw Hn. pose proof (write_all_spec n msg _ Hw) as Hs.
  assert (write_steps msg 0 (hs_conn h) < n)%nat as Hst.
  { unfold write_steps. pose proof (stall_bound (hs_conn h)). pose proof (len_nonneg msg).
    replace (Z.to_nat (len msg + 1)) with (Z.to_nat (len msg - 0) + 1)%nat in Hn by lia. nia. }
  pose proof (write_all_live n msg _ Hw Hst) as Hl.
  pose proof (write_all_faulted n msg (hs_conn h)) as Hf.
  unfold on_stream. destruct (write_all n msg (hs_conn h)) as [[[]| |e| |] t']; try done; cbn in *.
  - destruct Hs as (? & ? & ?). exists t'. split_and!; try done. by left.
  - destruct Hs as (? & ? & k & ?). exists t'. split_and!; try done. right. exists e, k. split_and!; try done. by apply Hf.
Qed.
End Sending.

(** ** SOCKS 4 *)

Module Socks4.
Import V4 SocksV4.

(** The bytes of a request. *)
Definition request (a : Address) : bytes :=
  match a with
  | Socket ip port => [4; 1] ++ be_u16 port ++ ip ++ [0; 0]
  | Domain d port => [4; 1] ++ be_u16 port ++ [0; 0; 0; 255] ++ [0; 0] ++ d ++ [0]
  end.

Definition address_wf (a : Address) : Prop :=
  match a with Socket ip _ => len ip = 4 | Domain d _ => len d + 11 <= usize_max end.

(** What the proxy's answer means. *)
Definition verdict {C} (reply : bytes) : poll_res (SocksError C) unit :=
  match v4_reply reply with
  | Ok Success => RVal tt
  | Ok s => RErr (EV4 (Command s))
  | Err e => RErr (Parsing e)
  end.

Section V4.
Context `{AL : Alloc} {ALL : AllocLaws}.
Context {T : Type} {HT : Transport T} {HL : TransportLaws T} {LV : TransportLive T} {C Uri : Type}.
Context (resolve : bytes -> Z -> result (list SocketAddr) io_error).

Lemma write_to_buf_ok a : address_wf a ->
  exists b, write_to_buf a (with_capacity 1024) = (Ok (len (request a)), b) /\ bm_data b = request a.
Proof.
  intros Hw. destruct a as [ip port|d port]; cbn in Hw; unfold write_to_buf; cbv zeta.
  - change (usize_max - len (bm_data (with_capacity 1024)) <? 10) with false. cbv iota. eexists. split.
    + do 2 f_equal. cbn [request app be_u16]. rewrite !len_cons, len_app, Hw. done.
    + rewrite !bm_put_data. cbn [bm_data with_capacity request]. by rewrite <- !app_assoc.
  - change (usize_max - len (bm_data (with_capacity 1024))) with usize_max. rewrite (proj2 (Z.ltb_ge _ _)) by lia. eexists. split.
    + do 2 f_equal. cbn [request app be_u16]. rewrite !len_cons, len_app. change (len [0]) with 1. lia.
    + rewrite !bm_put_data. cbn [bm_data with_capacity request]. by rewrite <- !app_assoc.
Qed.

(** A SOCKS 4 handshake over any transport that does not stall forever
    returns: it writes exactly the request and answers by the first eight bytes
    of the proxy's reply, however they are cut into reads; everything else is an
    error of the connection (a reply that ends early included), with a prefix of
    the request written. *)
Theorem socks4_handshake (c : SocksConfig (Uri := Uri)) host port a n t :
  tr_wf t -> address (C := C) resolve c host port = Ok a -> address_wf a ->
  (socks_fuel (len (request a)) t <= n)%nat ->
  let '(r, t') := execute (C := C) resolve n c host port t in
  tr_wf t' /\
  (8 <= len (input t) /\ r = verdict (ztake 8 (input t)) /\ output t' = output t ++ request a \/
   exists e k, r = RErr (SIo e) /\ output t' = output t ++ ztake k (request a)).
Proof.
  intros Hw Ha Hwf Hn. apply socks_fuel_enough in Hn as (Hn1 & Hn2 & Hn3); [|len_lia]. unfold execute. rewrite Ha.
  destruct (write_to_buf_ok a Hwf) as (b & Eb & Hb). unfold pbind at 1, on_send. cbn [hs_send]. rewrite Eb. cbn [hs_conn hs_recv].
  unfold pbind at 1, pget. cbn [hs_send]. rewrite Hb, ztake_ge by lia. unfold pbind at 1.
  set (h := mkHandshake t b (with_capacity 1024)).
  destruct (on_stream_write (C := C) n (request a) h Hw) as (t1 & Hw1 & Hi1 & [[-> Ho1]|(e & k & -> & Ho1 & _)]); [by apply Hn3|..].
  2:{ split; [done|]. right. by exists e, k. }
  set (h1 := mkHandshake t1 _ _). unfold pbind.
  pose proof (read_message_framed (C := C) 8 v4_reply _ n n h1 v4_framed ltac:(lia) Hw1) as Hr.
  assert (stream h1 = input t) as Hst by (unfold stream, h1; cbn; by rewrite Hi1).
  assert (reads n n h1) as Hrd by (split; [done|]; unfold h1; cbn [hs_conn]; by rewrite Hi1).
  destruct (read_message n n response_try_from h1) as [r h2]. destruct (Hr Hrd) as (Hw2 & Ho2 & _ & Hres).
  cbn [fst snd] in Hw2, Ho2, Hres.
  rewrite Hst in Hres. assert (output (hs_conn h2) = output t ++ request a) as Ho by (rewrite Ho2; done).
  destruct r as [st| |[]| |]; try done.
  - destruct Hres as (Hl & Hf & _). case_decide; cbn; (split; [done|]); left; (split; [done|]); unfold verdict;
      rewrite Hf; (split; [|done]); [by subst|by destruct st].
  - split; [done|]. right. exists e, (len (request a)). by rewrite ztake_ge by lia.
  - destruct Hres as [[Hl Hf]|(_ & _ & Hc)]; [|cbn in Hc; lia]. split; [done|]. left. unfold verdict. by rewrite Hf.
Qed.
End V4.

(** A server reads the request as the protocol lays it out: user id and, for an
    address 0.0.0.x with x not zero, domain, each ended by a zero byte.  The rest
    is already the client's data. *)
Fixpoint until_nul (s : bytes) : option (bytes * bytes) :=
  match s with
  | [] => None
  | b :: s => if b =? 0 then Some ([], s) else '(w, r) ← until_nul s; Some (b :: w, r)
  end.

Definition server_request (s : bytes) : option (bytes * Address * bytes) :=
  match s with
  | 4 :: 1 :: p1 :: p2 :: a :: b :: c :: d :: s =>
      '(userid, s) ← until_nul s;
      if (a =? 0) && (b =? 0) && (c =? 0) && negb (d =? 0) then
        '(domain, s) ← until_nul s; Some (userid, Domain domain (be [p1; p2]), s)
      else Some (userid, Socket [a; b; c; d] (be [p1; p2]), s)
  | _ => None
  end.

Lemma be_u16_be p : 0 <= p < 65536 -> be (be_u16 p) = p.
Proof.
  intros Hp. unfold be, be_u16. cbn [foldl]. rewrite (Z.mod_small (p / 256)); [|split; [apply Z.div_pos; lia|apply Z.div_lt_upper_bound; lia]].
  pose proof (Z.div_mod p 256 ltac:(lia)). lia.
Qed.

(** The request has a zero byte too many: a server that follows the layout
    takes the second one for the (empty) domain name, so that the name of the
    destination is lost and becomes data, or, for an address, passes it on to the
    destination as the first byte of the connection. *)
Theorem socks4_request_misread port d ip :
  0 <= port < 65536 -> len ip = 4 -> ztake 3 ip <> [0; 0; 0] ->
  server_request (request (Domain d port)) = Some ([], Domain [] port, d ++ [0]) /\
  server_request (request (Socket ip port)) = Some ([], Socket ip port, [0]).
Proof.
  intros Hp Hip Hz. pose proof (be_u16_be port Hp) as Hb. unfold request, be_u16 in *. split; cbn -[be Z.div Z.modulo].
  - by rewrite Hb.
  - destruct ip as [|a [|b [|c [|e [|? ?]]]]]; try (unfold len in Hip; cbn in Hip; lia). cbn -[be Z.div Z.modulo].
    rewrite Hb. destruct (Z.eqb_spec a 0), (Z.eqb_spec b 0), (Z.eqb_spec c 0); cbn; subst; done.
Qed.
End Socks4.

(** ** SOCKS 5 *)

Module Socks5.
Import V5 SocksV5.

(** The messages, as bytes. *)
Definition neg_msg (m : AuthMethod) : bytes := [5; 1; method_byte m].
Definition auth_msg (user pass : bytes) : bytes :=
  [1] ++ [u8_of (len user)] ++ user ++ [u8_of (len pass)] ++ pass.
Definition addr_msg (a : Address) : bytes :=
  match a with
  | Socket (mkSocketAddr (V4 ip) port) => [1] ++ ip ++ be_u16 port
  | Socket (mkSocketAddr (V6 ip) port) => [4] ++ ip ++ be_u16 port
  | Domain d port => [3] ++ [u8_of (len d)] ++ d ++ be_u16 port
  end.
Definition proxy_msg (a : Address) : bytes := [5; 1; 0] ++ addr_msg a.

Definition address_wf (a : Address) : Prop :=
  match a with Socket s => ip_wf (sa_ip s) | Domain _ _ => True end.

Section Writers.
Context `{AL : Alloc} {ALL : AllocLaws}.

(** A writer appends its message if the buffer has the room, and does not let
    the buffer grow. *)
Definition writes (w : BytesMut -> result Z SerializeError * BytesMut) (msg : bytes) : Prop :=
  forall b, if spare b <? len msg then w b = (Err SWouldOverflow, b)
            else exists k b', w b = (Ok k, b') /\ bm_data b' = bm_data b ++ msg /\ bm_cap b' = bm_cap b.

(** [fits msg b]: room for [msg] behind the content. *)
Lemma put_room s b : len s <= spare b ->
  bm_cap (bm_put s b) = bm_cap b /\ spare (bm_put s b) = spare b - len s.
Proof.
  unfold spare. intros Hs. rewrite bm_put_fits, bm_put_data, len_app by lia. lia.
Qed.

(** The puts of a message, one after the other. *)
Lemma puts_room l b : len (concat l) <= spare b ->
  bm_data (foldl (fun b s => bm_put s b) b l) = bm_data b ++ concat l /\
  bm_cap (foldl (fun b s => bm_put s b) b l) = bm_cap b.
Proof.
  revert b. induction l as [|s l IH]; intros b Hl; cbn; [by rewrite app_nil_r|].
  cbn in Hl. rewrite len_app in Hl. destruct (put_room s b) as [Hc Hs]; [len_lia|].
  destruct (IH (bm_put s b)) as [-> ->]; [lia|]. by rewrite bm_put_data, <- app_assoc, Hc.
Qed.

Lemma writes_puts w msg l k :
  msg = concat l ->
  (forall b, w b = if spare b <? len msg then (Err SWouldOverflow, b) else (Ok k, foldl (fun b s => bm_put s b) b l)) ->
  writes w msg.
Proof.
  intros Hm Hw b. rewrite (Hw b). destruct (Z.ltb_spec (spare b) (len msg)) as [|Hl]; [done|].
  destruct (puts_room l b) as [Hd Hc]; [by rewrite <- Hm|]. eexists _, _. split; [done|]. by rewrite Hd, Hc, Hm.
Qed.

Lemma negotiation_writes m : writes (write_negotiation m) (neg_msg m).
Proof. apply writes_puts with (l := [[5]; [1]; [method_byte m]]) (k := 3); done. Qed.

Lemma authentication_writes u p : writes (write_authentication u p) (auth_msg u p).
Proof.
  apply writes_puts with (l := [[1]; [u8_of (len u)]; u; [u8_of (len p)]; p]) (k := 3 + len u + len p).
  - cbn. by rewrite app_nil_r.
  - intros b. unfold write_authentication. replace (len (auth_msg u p)) with (3 + len u + len p); [done|].
    unfold auth_msg. cbn [app]. rewrite !len_cons, len_app, len_cons. lia.
Qed.

Definition addr_parts (a : Address) : list bytes :=
  match a with
  | Socket (mkSocketAddr (V4 ip) port) => [[1]; ip; be_u16 port]
  | Socket (mkSocketAddr (V6 ip) port) => [[4]; ip; be_u16 port]
  | Domain d port => [[3]; [u8_of (len d)]; d; be_u16 port]
  end.

Lemma addr_parts_msg a : concat (addr_parts a) = addr_msg a.
Proof. destruct a as [[[] ]|]; cbn; by rewrite ?app_nil_r. Qed.

Definition addr_len (a : Address) : Z :=
  match a with
  | Socket (mkSocketAddr (V4 _) _) => 1 + 4 + 2
  | Socket (mkSocketAddr (V6 _) _) => 1 + 16 + 2
  | Domain d _ => 1 + 1 + len d + 2
  end.

Lemma addr_msg_len a : address_wf a -> len (addr_msg a) = addr_len a.
Proof.
  intros Hw. destruct a as [[[ip|ip] port]|d port]; cbn -[len] in *; unfold be_u16;
    rewrite ?len_cons, len_app; cbn -[len] in *; [destruct Hw as [-> _]..|]; cbn; [done..|].
  change (len [port / 256 mod 256; port mod 256]) with 2. lia.
Qed.

Lemma write_address_puts a b : address_wf a -> len (addr_msg a) <= spare b ->
  (write_address a b).2 = foldl (fun b s => bm_put s b) b (addr_parts a).
Proof.
  intros Hw Hl. rewrite addr_msg_len in Hl by done. destruct a as [[[ip|ip] port]|d port]; cbn [addr_len] in Hl;
    unfold write_address; rewrite (proj2 (Z.ltb_ge _ _)); done.
Qed.

Lemma proxy_writes a : address_wf a -> writes (write_proxy a) (proxy_msg a).
Proof.
  intros Hw b. unfold write_proxy. fold (addr_len a). cbv zeta.
  replace (3 + addr_len a) with (len (proxy_msg a)).
  2:{ unfold proxy_msg. by rewrite len_app, addr_msg_len. }
  destruct (Z.ltb_spec (spare b) (len (proxy_msg a))) as [|Hl]; [done|].
  destruct (puts_room ([[5]; [1]; [0]] ++ addr_parts a) b) as [Hd Hc].
  { cbn. rewrite addr_parts_msg. exact Hl. }
  rewrite foldl_app in Hd, Hc. cbn [foldl] in Hd, Hc.
  assert (len (addr_msg a) <= spare (bm_put [0] (bm_put [1] (bm_put [5] b)))) as Hr.
  { unfold proxy_msg in Hl. rewrite len_app in Hl. change (len [5; 1; 0]) with 3 in Hl. pose proof (len_nonneg (addr_msg a)).
    destruct (puts_room [[5]; [1]; [0]] b) as [Hd0 Hc0]; [change (len (concat _)) with 3; lia|]. cbn [foldl] in Hd0, Hc0.
    unfold spare. rewrite Hc0, Hd0, len_app. change (len (concat _)) with 3. unfold spare in Hl. lia. }
  eexists _, _. split; [done|]. rewrite (write_address_puts a _ Hw Hr), Hd, Hc. cbn. by rewrite addr_parts_msg.
Qed.
End Writers.

(** *** The conversation

    [sent c a s] is all that has been written and [heard c s] all that has been
    read and accepted when the loop is in state [s]; [message] is what it is about
    to write there. *)
Section Conversation.
Context `{AL : Alloc} {ALL : AllocLaws}.
Context {T : Type} {HT : Transport T} {HL : TransportLaws T} {LV : TransportLive T} {C Uri : Type}.
Context (resolve : bytes -> Z -> result (list SocketAddr) io_error).
Implicit Types (c : SocksConfig (Uri := Uri)) (h : Handshake T) (t : T).

Definition auth_part c : bytes := match proxy_auth c with Some (u, p) => auth_msg u p | None => [] end.
Definition auth_ok c : bytes := match proxy_auth c with Some _ => [1; 0] | None => [] end.

Definition sent c (a : Address) (s : State) : bytes :=
  let neg := neg_msg (auth_method c) in
  match s with
  | SendingNegReq => []
  | SendingAuthReq => neg
  | SendingProxyReq => neg ++ auth_part c
  | ReadingNegRes => if optimistic c then neg ++ auth_part c ++ proxy_msg a else neg
  | ReadingAuthRes => if optimistic c then neg ++ auth_part c ++ proxy_msg a else neg ++ auth_part c
  | ReadingProxyRes => neg ++ auth_part c ++ proxy_msg a
  end.

Definition heard c (s : State) : bytes :=
  let neg := [5; method_byte (auth_method c)] in
  match s with
  | SendingNegReq | ReadingNegRes => []
  | SendingAuthReq => if optimistic c then [] else neg
  | ReadingAuthRes => neg
  | SendingProxyReq => if optimistic c then [] else neg ++ auth_ok c
  | ReadingProxyRes => neg ++ auth_ok c
  end.

Definition message c (a : Address) (s : State) : bytes :=
  match s with
  | SendingNegReq => neg_msg (auth_method c)
  | SendingAuthReq => auth_part c
  | SendingProxyReq => proxy_msg a
  | _ => []
  end.

(** The authentication states are for a client with credentials. *)
Definition legal c (s : State) : Prop :=
  match s with SendingAuthReq | ReadingAuthRes => proxy_auth c <> None | _ => True end.

Definition left c (s : State) : nat :=
  match s with
  | SendingNegReq => 6
  | ReadingNegRes => if optimistic c then 3 else 5
  | SendingAuthReq => if optimistic c then 5 else 4
  | ReadingAuthRes => if optimistic c then 2 else 3
  | SendingProxyReq => if optimistic c then 4 else 2
  | ReadingProxyRes => 1
  end.

(** A reply of two bytes that is not one, or ends early with the buffer full. *)
Definition unreadable {M} (f : bytes -> result M ParsingError) (rest : bytes) (e : ParsingError) : Prop :=
  2 <= len rest /\ f (ztake 2 rest) = Err e \/ len rest < 2 /\ e = PWouldOverflow.

(** Why the handshake ended in state [s] with [r]; [rest] is what the proxy said
    after [heard c s], [t] the transport at the end. *)
Definition outcome c (a : Address) (s : State) (rest : bytes) (r : poll_res (SocksError C) unit) t : Prop :=
  match r, s with
  | RVal _, ReadingProxyRes =>
      len (sent c a s) <= 262 /\
      exists skip tail, rest = skip ++ 5 :: 0 :: 0 :: tail /\ cut_off skip
  | RErr (SIo e), _ =>
      faulted e t \/
      e = eof /\ input t = [] /\
      match s with ReadingNegRes | ReadingAuthRes => len rest < 2 | ReadingProxyRes => True | _ => False end
  | RErr (Serialize _), (SendingNegReq | SendingAuthReq | SendingProxyReq) =>
      262 < len (sent c a s) + len (message c a s)
  | RErr (EV5 (Auth Unsupported)), ReadingNegRes => exists tail, rest = 5 :: 255 :: tail
  | RErr (EV5 (Auth MethodMismatch)), ReadingNegRes =>
      exists m tail, rest = 5 :: method_byte m :: tail /\ m <> auth_method c /\ m <> NoneAcceptable
  | RErr (EV5 (Auth AuthFailed)), ReadingAuthRes => exists x tail, rest = 1 :: x :: tail /\ x <> 0
  | RErr (EV5 (Command st)), ReadingProxyRes => st <> Success /\
      exists skip x tail, rest = skip ++ 5 :: x :: 0 :: tail /\ status_try_from x = Ok st /\ cut_off skip
  | RErr (Parsing e), ReadingNegRes => unreadable negotiation_reply rest e
  | RErr (Parsing e), ReadingAuthRes => unreadable authentication_reply rest e
  | RErr (Parsing e), ReadingProxyRes => e = PWouldOverflow /\ input t = [] \/ parsed rest (RErr e)
  | RPanic, ReadingProxyRes => parsed rest RPanic
  | _, _ => False
  end.

(** The loop is in state [s], having started at output [o] and input [i]. *)
Record at_state c (a : Address) (o i : bytes) (s : State) h : Prop := {
  as_wf : tr_wf (hs_conn h);
  as_sent : output (hs_conn h) = o ++ sent c a s;
  as_heard : i = heard c s ++ stream h;
  as_buf : bm_data (hs_send h) = sent c a s;
  as_cap : bm_cap (hs_send h) = 262;
  as_fits : len (sent c a s) <= 262;
  as_legal : legal c s
}.

(** The handshake ended in state [s]. *)
Definition ended c (a : Address) (o i : bytes) (s : State) (r : poll_res (SocksError C) unit) t : Prop :=
  legal c s /\ tr_wf t /\ (exists k, output t = o ++ sent c a s ++ ztake k (message c a s)) /\
  exists rest, i = heard c s ++ rest /\ outcome c a s rest r t.

Lemma input_short c a o i s h n :
  at_state c a o i s h -> (length i < n)%nat -> (length (input (hs_conn h)) < n)%nat.
Proof. intros Hs Hn. rewrite (as_heard _ _ _ _ _ _ Hs) in Hn. unfold stream in Hn. rewrite !length_app in Hn. lia. Qed.

Lemma send_message_eq n w h :
  send_message (C := C) n w h =
  match w (hs_send h) with
  | (Ok _, b) => on_stream (write_all n (zdrop (len (bm_data (hs_send h))) (bm_data b))) (mkHandshake (hs_conn h) b (hs_recv h))
  | (Err e, b) => (RErr (Serialize e), mkHandshake (hs_conn h) b (hs_recv h))
  end.
Proof. unfold send_message, pbind, pget, on_send. by destruct (w (hs_send h)) as [[] b]. Qed.

(** Sending in a state whose message is [msg]. *)
Lemma send_message_at n w c a o i s h :
  at_state c a o i s h -> writes w (message c a s) -> heard c s ++ stream h = i ->
  (forall k, k <= 262 -> (Z.to_nat (k + 1) * (max_stall + 1) <= n)%nat) ->
  (match s with SendingNegReq | SendingAuthReq | SendingProxyReq => True | _ => False end) ->
  (exists h', send_message (C := C) n w h = (RVal tt, h') /\ tr_wf (hs_conn h') /\
     output (hs_conn h') = o ++ sent c a s ++ message c a s /\ bm_data (hs_send h') = sent c a s ++ message c a s /\
     bm_cap (hs_send h') = 262 /\ len (sent c a s ++ message c a s) <= 262 /\ stream h' = stream h) \/
  (exists e h', send_message (C := C) n w h = (RErr e, h') /\ ended c a o i s (RErr e) (hs_conn h')).
Proof.
  intros [Hw Ho Hi Hb Hc Hf Hl] Hwr Hst Hn Hsend. rewrite send_message_eq.
  specialize (Hwr (hs_send h)).
  destruct (Z.ltb_spec (spare (hs_send h)) (len (message c a s))) as [Hlt|Hge].
  - right. rewrite Hwr. eexists _, _. split; [done|]. split_and!; try done.
    + exists 0. cbn. by rewrite ztake_0, app_nil_r.
    + exists (stream h). split; [done|]. unfold spare in Hlt. rewrite Hc, Hb in Hlt. cbn. destruct s; try done; lia.
  - destruct Hwr as (k & b' & -> & Hd & Hcap).
    rewrite Hd, zdrop_app_exact. unfold spare in Hge. rewrite Hc, Hb in Hge.
    set (h1 := mkHandshake (hs_conn h) b' (hs_recv h)).
    destruct (on_stream_write (C := C) n (message c a s) h1 Hw) as (t' & Hw' & Hi' & [[-> Ho']|(e & j & -> & Ho' & Hbad)]).
    { apply Hn. len_lia. }
    + left. eexists. split; [done|]. unfold h1. cbn [hs_conn hs_send hs_recv]. split_and!; try done.
      * rewrite Ho'. cbn. by rewrite Ho, <- app_assoc.
      * by rewrite Hd, Hb.
      * congruence.
      * rewrite len_app. lia.
      * unfold stream. cbn. by rewrite Hi'.
    + right. eexists _, _. split; [done|]. split_and!; try done.
      * exists j. cbn [hs_conn]. rewrite Ho'. unfold h1. cbn [hs_conn]. by rewrite Ho, <- app_assoc.
      * exists (stream h). split; [done|]. destruct s; by left.
Qed.

(** The first two bytes of the stream, once a two-byte reply is accepted. *)
Lemma two_heard (l : bytes) : 2 <= len l -> exists x y tail, l = x :: y :: tail /\ ztake 2 l = [x; y] /\ zdrop 2 l = tail.
Proof.
  intros Hl. destruct l as [|x [|y tail]]; [unfold len in Hl; cbn in Hl; lia..|]. exists x, y, tail.
  unfold ztake, zdrop. rewrite !len_cons, !Z.min_l by len_lia. done.
Qed.

Lemma method_try_from_inv x m : method_try_from x = Ok m -> x = method_byte m.
Proof. unfold method_try_from. repeat case_match; zbool; intros; by simplify_eq. Qed.

Lemma status_success x : status_try_from x = Ok Success -> x = 0.
Proof. unfold status_try_from. repeat case_match; congruence. Qed.

Definition step_post c a o i s (r : poll_res (SocksError C) (option State)) h' : Prop :=
  match r with
  | RVal (Some s') => at_state c a o i s' h' /\ (left c s' < left c s)%nat
  | RVal None => ended c a o i s (RVal tt) (hs_conn h')
  | RErr e => ended c a o i s (RErr e) (hs_conn h')
  | RPanic => ended c a o i s RPanic (hs_conn h')
  | _ => False
  end.

(** A step that sends: where it goes next, the message counts as sent. *)
Lemma send_step n w c a o i s s' h :
  at_state c a o i s h -> writes w (message c a s) ->
  (forall k, k <= 262 -> (Z.to_nat (k + 1) * (max_stall + 1) <= n)%nat) ->
  (match s with SendingNegReq | SendingAuthReq | SendingProxyReq => True | _ => False end) ->
  sent c a s' = sent c a s ++ message c a s -> heard c s' = heard c s -> legal c s' -> (left c s' < left c s)%nat ->
  let '(r, h') := pbind (send_message n w) (fun _ => pret (Some s')) h in step_post c a o i s r h'.
Proof.
  intros Hs Hw Hn Hsend Hse Hhe Hle Hlt. unfold pbind.
  destruct (send_message_at n w c a o i s h Hs Hw (eq_sym (as_heard _ _ _ _ _ _ Hs)) Hn Hsend)
    as [(h' & -> & Hw' & Ho & Hd & Hc & Hf & Hst)|(e & h' & -> & He)]; [|done].
  split; [|done]. rewrite <- Hse in *. split; try done. rewrite Hhe, Hst. apply Hs.
Qed.

(** Reading a two-byte reply in state [s]. *)
Lemma read_two {M} f (p : PM ParsingError BytesMut M) n c a o i s h :
  framed 2 f p -> at_state c a o i s h -> message c a s = [] -> (max_stall < n)%nat -> (length i < n)%nat ->
  (exists m x y tail h', read_message (C := C) n n p h = (RVal m, h') /\ f [x; y] = Ok m /\ i = heard c s ++ x :: y :: tail /\
     tr_wf (hs_conn h') /\ output (hs_conn h') = o ++ sent c a s /\ hs_send h' = hs_send h /\ stream h' = tail) \/
  (exists e h', read_message (C := C) n n p h = (RErr e, h') /\ tr_wf (hs_conn h') /\ output (hs_conn h') = o ++ sent c a s /\
     match e with
     | SIo e => faulted e (hs_conn h') \/ e = eof /\ input (hs_conn h') = [] /\ len (stream h) < 2
     | Parsing e => unreadable f (stream h) e
     | _ => False
     end).
Proof.
  intros Hf Hs Hm Hn Hi. pose proof (input_short _ _ _ _ _ _ _ Hs Hi) as Hin. destruct Hs as [Hw Ho Hh Hb Hc Hfit Hl].
  destruct (read_message_framed (C := C) 2 f p n n h Hf ltac:(lia) Hw (conj Hn Hin)) as (Hw' & Ho' & Hs' & Hr).
  destruct (read_message n n p h) as [r h']. cbn [fst snd] in *. rewrite Ho in Ho'.
  destruct r as [m| |e| |]; try done.
  - left. destruct Hr as (Hle & Hfm & Hst). destruct (two_heard _ Hle) as (x & y & tail & Ex & Et & Ed).
    exists m, x, y, tail, h'. rewrite Et in Hfm. rewrite Ed in Hst. rewrite Hh, Ex. done.
  - right. exists e, h'. split_and!; try done. destruct e; try done. destruct Hr as [?|(? & ? & _)]; [by left|by right].
Qed.

(** A reply that ends the handshake. *)
Lemma ended_reply c a o i s r rest h' :
  legal c s -> i = heard c s ++ rest -> tr_wf (hs_conn h') -> output (hs_conn h') = o ++ sent c a s ->
  outcome c a s rest r (hs_conn h') -> ended c a o i s r (hs_conn h').
Proof.
  intros Hl Hi Hw Ho Hr. split_and!; try done; [|by exists rest]. exists 0. by rewrite ztake_0, app_nil_r.
Qed.

Lemma negotiation_reply_inv x y m : negotiation_reply [x; y] = Ok m -> x = 5 /\ y = method_byte m.
Proof. cbn. case_match; zbool; [|done]. intros E%method_try_from_inv. done. Qed.

Lemma authentication_reply_inv x y b : authentication_reply [x; y] = Ok b -> x = 1 /\ b = (y =? 0).
Proof. cbn. case_match; zbool; [|done]. intros. by simplify_eq. Qed.

Lemma neg_step n c a o i h :
  at_state c a o i ReadingNegRes h -> (max_stall < n)%nat -> (length i < n)%nat ->
  let '(r, h') := handshake_step n c a ReadingNegRes h in step_post c a o i ReadingNegRes r h'.
Proof.
  intros Hs Hn Hi. cbn [handshake_step]. unfold pbind.
  destruct (read_two _ _ n c a o i ReadingNegRes h negotiation_framed Hs eq_refl Hn Hi)
    as [(m & x & y & tail & h' & -> & Hf & Ei & Hw & Ho & Hsd & Hst)|(e & h' & -> & Hw & Ho & He)].
  2:{ eapply ended_reply; [done|by apply Hs|done..|]. by destruct e. }
  apply negotiation_reply_inv in Hf as [-> ->]. cbn [heard app] in Ei.
  case_decide as Hm; [subst m; eapply ended_reply; try done; by exists tail|].
  case_bool_decide as Hc; cbn [negb]; [subst m|eapply ended_reply; try done; by exists m, tail].
  assert (forall s', sent c a s' = sent c a ReadingNegRes -> heard c s' = [5; method_byte (auth_method c)] -> legal c s' ->
    at_state c a o i s' h') as Hat.
  { intros s' E1 E2 E3. split; rewrite ?E1, ?E2, ?Hsd, ?Hst; try done; apply Hs. }
  unfold auth_method in *. unfold step_post. cbn [left].
  destruct (optimistic c) eqn:Eo, (proxy_auth c) as [[u p]|] eqn:Ea; cbn [decide]; rewrite ?decide_True, ?decide_False by done;
    (split; [apply Hat|cbn [left]; rewrite ?Eo; lia]); cbn [sent heard legal];
    unfold auth_method, auth_part, auth_ok; rewrite ?Eo, ?Ea; cbn [app]; by rewrite ?app_nil_r.
Qed.

Lemma auth_step n c a o i h :
  at_state c a o i ReadingAuthRes h -> (max_stall < n)%nat -> (length i < n)%nat ->
  let '(r, h') := handshake_step n c a ReadingAuthRes h in step_post c a o i ReadingAuthRes r h'.
Proof.
  intros Hs Hn Hi. cbn [handshake_step]. unfold pbind. pose proof (as_legal _ _ _ _ _ _ Hs) as Hl. cbn in Hl.
  destruct (read_two _ _ n c a o i ReadingAuthRes h authentication_framed Hs eq_refl Hn Hi)
    as [(m & x & y & tail & h' & -> & Hf & Ei & Hw & Ho & Hsd & Hst)|(e & h' & -> & Hw & Ho & He)].
  2:{ eapply ended_reply; [done|by apply Hs|done..|]. by destruct e. }
  apply authentication_reply_inv in Hf as [-> ->]. destruct (Z.eqb_spec y 0) as [->|Hy]; cbn [negb].
  2:{ eapply ended_reply; try done. by exists y, tail. }
  assert (forall s', sent c a s' = sent c a ReadingAuthRes -> heard c s' = heard c ReadingAuthRes ++ [1; 0] -> legal c s' ->
    at_state c a o i s' h') as Hat.
  { intros s' E1 E2 E3. split; rewrite ?E1, ?E2, ?Hsd, ?Hst, <- ?app_assoc; try done; apply Hs. }
  unfold step_post. cbn [left].
  destruct (optimistic c) eqn:Eo, (proxy_auth c) as [[u p]|] eqn:Ea; try done;
    (split; [apply Hat|cbn [left]; rewrite ?Eo; lia]); cbn [sent heard legal];
    unfold auth_method, auth_part, auth_ok; rewrite ?Eo, ?Ea; done.
Qed.

Lemma proxy_step n c a o i h :
  at_state c a o i ReadingProxyRes h -> (max_stall < n)%nat -> (length i < n)%nat ->
  let '(r, h') := handshake_step n c a ReadingProxyRes h in step_post c a o i ReadingProxyRes r h'.
Proof.
  intros Hs Hn Hi. cbn [handshake_step]. unfold pbind. pose proof (input_short _ _ _ _ _ _ _ Hs Hi) as Hin.
  destruct Hs as [Hw Ho Hh Hb Hc Hfit Hl].
  destruct (read_message_proxy (C := C) n n h Hw (conj Hn Hin)) as (Hw' & Ho' & Hr).
  destruct (read_message n n proxy_try_from h) as [r h']. cbn [fst snd] in *. rewrite Ho in Ho'.
  destruct r as [st| |e| |]; try done.
  - destruct Hr as (skip & x & tail & Es & Ex & Hk). case_decide as Hst.
    + subst st. apply status_success in Ex. subst x. eapply ended_reply; try done. split; [done|]. by exists skip, tail.
    + eapply ended_reply; try done. split; [done|]. by exists skip, x, tail.
  - eapply ended_reply; try done. destruct e; try done. destruct Hr as [?|[? ?]]; [by left|by right].
  - by eapply ended_reply.
Qed.

Lemma handshake_step_ok n c a o i s h :
  address_wf a -> at_state c a o i s h -> (max_stall < n)%nat -> (length i < n)%nat ->
  (forall k, k <= 262 -> (Z.to_nat (k + 1) * (max_stall + 1) <= n)%nat) ->
  let '(r, h') := handshake_step n c a s h in step_post c a o i s r h'.
Proof.
  intros Ha Hs Hn Hi Hk. destruct s; [|by apply neg_step| |by apply auth_step| |by apply proxy_step]; cbn [handshake_step].
  - apply send_step; try done; [apply negotiation_writes|..];
      destruct (optimistic c) eqn:Eo, (proxy_auth c) eqn:Ea; unfold auth_method, auth_part; rewrite ?Ea;
      cbn [sent heard legal left message]; rewrite ?decide_True, ?decide_False by done;
      unfold auth_part; rewrite ?Eo, ?Ea, ?app_nil_r; cbn [sent heard legal left]; unfold auth_part; rewrite ?Eo, ?Ea, ?app_nil_r; try done; lia.
  - destruct (proxy_auth c) as [[u p]|] eqn:Ea; [|by destruct (as_legal _ _ _ _ _ _ Hs)].
    apply send_step; try done; [cbn; unfold auth_part; rewrite Ea; apply authentication_writes|..];
      destruct (optimistic c) eqn:Eo; cbn [sent heard legal left message]; rewrite ?Eo, ?Ea; try done; lia.
  - apply send_step; try done; [by apply proxy_writes|..];
      destruct (optimistic c) eqn:Eo; cbn [sent heard legal left message]; rewrite ?Eo, <- ?app_assoc; try done; lia.
Qed.

Lemma handshake_ended n k c a o i s h :
  address_wf a -> at_state c a o i s h -> (max_stall < n)%nat -> (length i < n)%nat ->
  (forall k, k <= 262 -> (Z.to_nat (k + 1) * (max_stall + 1) <= n)%nat) -> (left c s <= k)%nat ->
  let '(r, h') := handshake n k c a s h in exists s', ended c a o i s' r (hs_conn h').
Proof.
  intros Ha Hs Hn Hi Hw. revert s h Hs. induction k as [|k IH]; intros s h Hs Hk.
  { destruct s; cbn in Hk; repeat case_match; lia. }
  cbn [handshake]. unfold pbind at 1. pose proof (handshake_step_ok n c a o i s h Ha Hs Hn Hi Hw) as Hst.
  destruct (handshake_step n c a s h) as [[[s'|]| |e| |] h']; try done; try by exists s.
  destruct Hst as [Hs' Hlt]. apply IH; [done|lia].
Qed.

Lemma execute_ended c host port a n t :
  tr_wf t -> address (C := C) resolve c host port = Ok a -> address_wf a -> (socks_fuel 262 t <= n)%nat ->
  let '(r, t') := execute (C := C) resolve n c host port t in
  exists s, ended c a (output t) (input t) s r t'.
Proof.
  intros Hw Ha Hwf Hn. apply socks_fuel_enough in Hn as (Hn1 & Hn2 & Hn3); [|lia]. unfold execute. rewrite Ha.
  pose proof (handshake_ended n 6 c a (output t) (input t) SendingNegReq
    (mkHandshake t (with_capacity 262) (with_capacity 513)) Hwf) as Hh.
  destruct (handshake n 6 c a SendingNegReq _) as [r h]. apply Hh; try done.
  split; try done. cbn. by rewrite app_nil_r.
Qed.

(** C36. A SOCKS 5 handshake over any transport that does not stall forever ends
    in one of its six states: it has written the messages that belong to that
    state, in order, and at most a prefix of the next, and read the replies that
    belong to it: the offered method, and then the accepted credentials if there are
    any.  It succeeds only in the last state, after all messages, and only if a reply
    that grants the request was read there.  That reply is the first thing the proxy
    said after the others, unless reads ended within replies: their heads, at most
    five bytes and of whatever status, are then taken and forgotten, so that a
    refusal can be followed by a success ([refusal_forgotten]).  Otherwise the error
    says what the proxy answered in that state, that the messages together do not fit
    in 262 bytes, that the bytes there are no reply, that the proxy closed the
    connection within a reply, or it is the error with which the transport failed
    last.  A panic is possible only while the last reply is read, on bytes on which its
    parser panics. *)
Theorem socks5_handshake c host port a n t :
  tr_wf t -> address (C := C) resolve c host port = Ok a -> address_wf a -> (socks_fuel 262 t <= n)%nat ->
  let '(r, t') := execute (C := C) resolve n c host port t in
  tr_wf t' /\
  exists s k rest,
    legal c s /\
    output t' = output t ++ sent c a s ++ ztake k (message c a s) /\
    input t = heard c s ++ rest /\
    outcome c a s rest r t'.
Proof.
  intros Hw Ha Hwf Hn. pose proof (execute_ended c host port a n t Hw Ha Hwf Hn) as He.
  destruct (execute _ _ _ _ _ _) as [r t']. destruct He as (s & Hl & Hw' & (k & Ho) & rest & Hi & Hr).
  split; [done|]. by exists s, k, rest.
Qed.

(** Without optimistic sending nothing but the negotiation is written before
    the proxy has chosen the method that was offered, and the destination is named
    only after it has accepted the credentials, if there are any. *)
Theorem socks5_waits c host port a n t :
  tr_wf t -> address (C := C) resolve c host port = Ok a -> address_wf a -> (socks_fuel 262 t <= n)%nat ->
  optimistic c = false ->
  let '(_, t') := execute (C := C) resolve n c host port t in
  let written := zdrop (len (output t)) (output t') in
  let neg := neg_msg (auth_method c) in
  (len neg < len written -> exists rest, input t = [5; method_byte (auth_method c)] ++ rest) /\
  (len (neg ++ auth_part c) < len written ->
   exists rest, input t = [5; method_byte (auth_method c)] ++ auth_ok c ++ rest).
Proof.
  intros Hw Ha Hwf Hn Hopt. pose proof (execute_ended c host port a n t Hw Ha Hwf Hn) as He.
  destruct (execute _ _ _ _ _ _) as [r t']. destruct He as (s & Hl & _ & (k & Ho) & rest & Hi & _).
  cbv zeta. rewrite Ho, zdrop_app_exact.
  assert (forall l : bytes, len (ztake k l) <= len l) as Hk.
  { intros l. unfold ztake, len. rewrite length_take. lia. }
  pose proof (Hk (message c a s)) as Hm. rewrite !len_app.
  destruct s; cbn [sent heard message] in *; rewrite ?Hopt in *; rewrite ?len_app in *;
    change (len []) with 0 in *; pose proof (len_nonneg (auth_part c)); (split; intros Hlen; [try lia|try lia]).
  all: eexists; rewrite Hi, <- ?app_assoc; done.
Qed.
End Conversation.

(** *** The other side *)

Definition take_n (n : Z) (s : bytes) : option (bytes * bytes) :=
  if len s <? n then None else Some (ztake n s, zdrop n s).
Definition take_counted (s : bytes) : option (bytes * bytes) :=
  match s with n :: s => take_n n s | [] => None end.
Definition take_port (s : bytes) : option (Z * bytes) := '(p, s) ← take_n 2 s; Some (be p, s).

(** A server's reading of the three messages (RFC 1928 and 1929). *)
Definition server_negotiation (s : bytes) : option (bytes * bytes) :=
  match s with 5 :: s => take_counted s | _ => None end.
Definition server_authentication (s : bytes) : option (bytes * bytes * bytes) :=
  match s with 1 :: s => '(u, s) ← take_counted s; '(p, s) ← take_counted s; Some (u, p, s) | _ => None end.
Definition server_request (s : bytes) : option (Address * bytes) :=
  match s with
  | 5 :: 1 :: 0 :: 1 :: s => '(ip, s) ← take_n 4 s; '(p, s) ← take_port s; Some (Socket (mkSocketAddr (V4 ip) p), s)
  | 5 :: 1 :: 0 :: 4 :: s => '(ip, s) ← take_n 16 s; '(p, s) ← take_port s; Some (Socket (mkSocketAddr (V6 ip) p), s)
  | 5 :: 1 :: 0 :: 3 :: s => '(d, s) ← take_counted s; '(p, s) ← take_port s; Some (Domain d p, s)
  | _ => None
  end.

Lemma take_n_app l r : take_n (len l) (l ++ r) = Some (l, r).
Proof.
  unfold take_n. rewrite len_app, (proj2 (Z.ltb_ge _ _)) by len_lia. by rewrite ztake_app_exact, zdrop_app_exact.
Qed.

Lemma take_counted_app l r : len l <= 255 -> take_counted (u8_of (len l) :: l ++ r) = Some (l, r).
Proof. intros Hl. cbn. unfold u8_of. rewrite Z.mod_small by len_lia. apply take_n_app. Qed.

Lemma take_port_app p r : 0 <= p < 65536 -> take_port (be_u16 p ++ r) = Some (p, r).
Proof. intros Hp. unfold take_port. change 2 with (len (be_u16 p)). rewrite take_n_app. cbn [mbind option_bind]. by rewrite Socks4.be_u16_be. Qed.

Definition address_sendable (a : Address) : Prop :=
  address_wf a /\
  match a with Socket s => 0 <= sa_port s < 65536 | Domain d p => len d <= 255 /\ 0 <= p < 65536 end.

Lemma server_request_msg a r : address_sendable a -> server_request (proxy_msg a ++ r) = Some (a, r).
Proof.
  intros [Hw Hs]. unfold proxy_msg. destruct a as [[[ip|ip] p]|d p]; cbn [addr_msg app] in *; cbn [server_request].
  - destruct Hw as [Hl _]. rewrite <- app_assoc, <- Hl, take_n_app. cbn [mbind option_bind]. by rewrite take_port_app.
  - destruct Hw as [Hl _]. rewrite <- app_assoc, <- Hl, take_n_app. cbn [mbind option_bind]. by rewrite take_port_app.
  - destruct Hs as [Hd Hp]. rewrite <- app_assoc, take_counted_app by done. cbn [mbind option_bind]. by rewrite take_port_app.
Qed.

(** The writer has a message that the server reads as [x], up to its last byte;
    it appends the message to a buffer with room for it, and refuses another. *)
Definition delivers `{Alloc} {A} (w : BytesMut -> result Z SerializeError * BytesMut) (server : bytes -> option (A * bytes)) (x : A) : Prop :=
  exists msg, writes w msg /\ forall r, server (msg ++ r) = Some (x, r).

(** What the client writes is what it means to say: a server that reads by
    RFC 1928 and 1929 gets from the messages the method, the credentials and the
    destination they were made of, each ending where the next begins, if the
    credentials and the name have at most 255 bytes each. *)
Theorem socks5_messages_understood `{AllocLaws} m user pass a :
  len user <= 255 -> len pass <= 255 -> address_sendable a ->
  delivers (write_negotiation m) server_negotiation [method_byte m] /\
  delivers (write_authentication user pass) server_authentication (user, pass) /\
  delivers (write_proxy a) server_request a.
Proof.
  intros Hu Hp Ha. split_and!.
  - eexists. split; [apply negotiation_writes|]. intros r. apply (take_n_app [method_byte m] r).
  - eexists. split; [apply authentication_writes|]. intros r. unfold auth_msg. cbn [app server_authentication].
    rewrite <- app_assoc, take_counted_app by done. cbn [mbind option_bind app]. by rewrite take_counted_app.
  - eexists. split; [apply proxy_writes, Ha|]. intros r. by apply server_request_msg.
Qed.

Definition status_byte (st : Status) : byte :=
  match st with
  | Success => 0 | GeneralServerFailure => 1 | ConnectionNotAllowed => 2 | NetworkUnreachable => 3
  | HostUnreachable => 4 | ConnectionRefused => 5 | TtlExpired => 6 | CommandNotSupported => 7
  | AddressTypeNotSupported => 8
  end.

(** The server's reply. *)
Definition reply (st : Status) (a : Address) : bytes := [5; status_byte st; 0] ++ addr_msg a.

Section Replies.
Context `{AL : Alloc} {ALL : AllocLaws}.

(** One read of a parser on a buffer that has the bytes. *)
Ltac parse_step :=
  match goal with
  | |- context [pbind get_u8 ?k (mkBytesMut (?x :: ?l) ?c)] => destruct (bind_u8 x l c k) as [? ->]
  | |- context [pbind (expect ?v) ?k (mkBytesMut (?x :: ?l) ?c)] => destruct (bind_expect v x l c k) as [? ->]
  | |- context [pbind get_u16 ?k (mkBytesMut ?l ?c)] =>
      destruct (bind_u16 l c k) as [? ->]; [rewrite ?len_zdrop, ?len_app by lia; len_lia|]
  | |- context [pbind (take_bytes ?n) ?k (mkBytesMut ?l ?c)] =>
      destruct (bind_bytes n l c k) as [? ->]; [rewrite ?len_app; len_lia|]
  | |- context [pbind (need _) _ _] => rewrite bind_need by (cbn [bm_data]; rewrite ?len_cons, ?len_app; len_lia)
  end; cbv beta iota.

(** [proxy_try_from] up to the address. *)
Lemma proxy_try_from_head st l cap :
  exists c', proxy_try_from (mkBytesMut (5 :: status_byte st :: 0 :: l) cap) =
    pbind address_try_from (fun _ => pret st) (mkBytesMut l c').
Proof.
  unfold proxy_try_from. parse_step. parse_step. cbn [Z.eqb Pos.eqb]. parse_step.
  assert (status_try_from (status_byte st) = Ok st) as -> by by destruct st. cbn [of_result].
  rewrite (pbind_val (pret st) _ _ st _ eq_refl). parse_step. by eexists.
Qed.

(** The address of a reply that is there as a whole. *)
Lemma address_try_from_whole a r cap :
  address_sendable a -> match a with Domain d _ => 0 < len d /\ is_utf8 d = true | _ => True end ->
  exists a' b', address_try_from (mkBytesMut (addr_msg a ++ r) cap) = (RVal a', b').
Proof.
  intros [Hw Hs] Hd. unfold address_try_from. pose proof (addr_msg_len a Hw) as Hl.
  assert (2 <= len (addr_msg a)) as H2 by (rewrite Hl; destruct a as [[[] ]|]; cbn [addr_len]; len_lia). parse_step.
  destruct a as [[[ip|ip] p]|d p]; cbn [addr_msg addr_len app] in *; rewrite len_cons in Hl; [do 4 parse_step; by eexists _, _..|].
  destruct Hd as [Hd Hu]. destruct Hs as [Hs _]. rewrite len_cons in Hl.
  parse_step. parse_step. unfold u8_of. rewrite Z.mod_small by lia. rewrite (proj2 (Z.eqb_neq _ _)) by lia. parse_step.
  rewrite (pbind_val pget _ _ _ _ eq_refl). cbv zeta. cbn [bm_data]. rewrite <- app_assoc, ztake_app_exact, Hu.
  rewrite len_app in Hl. parse_step. by eexists _, _.
Qed.

(** A reply that is cut where its parser does not look: within the header after
    two bytes, or within an IPv6 address and its port. *)
Definition bad_cut (a : Address) (j : Z) : Prop :=
  j = 2 \/ match a with Socket (mkSocketAddr (V6 _) _) => 10 <= j < 22 | _ => False end.

Lemma proxy_try_from_cut st a j cap :
  address_wf a -> bad_cut a j -> (proxy_try_from (mkBytesMut (ztake j (reply st a)) cap)).1 = RPanic.
Proof.
  intros Hw Hj. unfold reply. destruct Hj as [->|Hj].
  - replace (ztake 2 _) with [5; status_byte st] by (unfold ztake; rewrite Z.min_l; [done|rewrite len_app; cbn; len_lia]).
    unfold proxy_try_from. parse_step. parse_step. cbn [Z.eqb Pos.eqb]. parse_step.
    assert (status_try_from (status_byte st) = Ok st) as -> by by destruct st. done.
  - destruct a as [[[ip|ip] p]|d p]; try done. destruct Hw as [Hl _]. cbn in Hl, Hj.
    replace (ztake j _) with (5 :: status_byte st :: 0 :: 4 :: ztake (j - 4) (ip ++ be_u16 p)).
    2:{ cbn [addr_msg app]. change (5 :: status_byte st :: 0 :: 4 :: ip ++ be_u16 p) with ([5; status_byte st; 0; 4] ++ ip ++ be_u16 p).
        rewrite (ztake_app_ge j); change (len [5; status_byte st; 0; 4]) with 4; [done|lia]. }
    destruct (proxy_try_from_head st (4 :: ztake (j - 4) (ip ++ be_u16 p)) cap) as [c1 ->].
    assert (len (ztake (j - 4) (ip ++ be_u16 p)) = j - 4) as Hlen.
    { rewrite len_ztake, len_app by lia. change (len (be_u16 p)) with 2. lia. }
    unfold pbind at 1, address_try_from. parse_step. parse_step. parse_step.
    unfold pbind at 1. unfold take_bytes at 1. cbn [bm_data]. rewrite Hlen.
    destruct (Z.ltb_spec (j - 4) 16); [done|]. cbv beta iota.
    unfold get_u16. unfold pbind at 1. unfold pbind at 1. unfold take_bytes at 1. cbn [bm_data]. rewrite len_zdrop, Hlen by lia.
    by rewrite (proj2 (Z.ltb_lt _ _)) by lia.
Qed.

(** If the first read of the last reply ends at a bad cut, the task panics,
    whatever the server was going to send next. *)
Theorem socks5_split_reply_panics {T C} `{Transport T} n k (h : Handshake T) t' st a j :
  address_wf a -> bad_cut a j -> bm_data (hs_recv h) = [] ->
  read n 513 (hs_conn h) = (RVal (ztake j (reply st a)), t') ->
  (read_message (C := C) n (S k) proxy_try_from h).1 = RPanic.
Proof.
  intros Hw Hj Hb Hr. cbn [read_message]. unfold pbind, on_stream. rewrite Hr. cbv beta iota zeta. cbn [hs_recv].
  unfold bm_put. rewrite Hb. cbn [app].
  match goal with |- context [proxy_try_from (mkBytesMut _ ?c)] => pose proof (proxy_try_from_cut st a j c Hw Hj) as Hp;
    destruct (proxy_try_from (mkBytesMut _ c)) as [r b] end.
  cbn in Hp. by subst r.
Qed.

(** A reply that arrives whole is read as the status it carries, whatever
    address the server names and whatever follows it. *)
Theorem socks5_reply_read st a r cap :
  address_sendable a -> match a with Domain d _ => 0 < len d /\ is_utf8 d = true | _ => True end ->
  (proxy_try_from (mkBytesMut (reply st a ++ r) cap)).1 = RVal st.
Proof.
  intros Ha Hd. unfold reply. rewrite <- app_assoc. cbn [app].
  destruct (proxy_try_from_head st (addr_msg a ++ r) cap) as [c' ->]. unfold pbind.
  by destruct (address_try_from_whole a r c' Ha Hd) as (a' & b' & ->).
Qed.
End Replies.
End Socks5.

(** ** The properties at concrete inputs *)

Module RefSocks.
Import Pipe RefAlloc.

#[export] Program Instance pipe_live : TransportLive pipe := {|
  stall := fun p => if p_turn p =? 2 then 1%nat else 0%nat; max_stall := 1
|}.
Next Obligation. intros p. cbn. case_match; lia. Qed.
Next Obligation.
  intros n [i o turn] p' _ _. cbn. destruct (Z.eqb_spec turn 2) as [->|]; [|done]. intros E. simplify_eq. vm_compute. lia.
Qed.
Next Obligation.
  intros b [i o turn] p' _. cbn. unfold p_write. cbn. destruct (Z.eqb_spec turn 2) as [->|]; [|done].
  intros E. simplify_eq. vm_compute. lia.
Qed.
Next Obligation.
  intros b p p' _ Hb. cbn. unfold p_write. case_match; [done|]. intros E. destruct b as [|x b]; [done|].
  simplify_eq. rewrite len_cons in *. pose proof (len_nonneg b). lia.
Qed.

Definition no_dns (_ : bytes) (_ : Z) : result (list SocketAddr) io_error := Ok [].

(** The reply of a SOCKS 4 proxy that grants the request. *)
Definition granted4 : pipe := mkPipe [0; 90; 0; 0; 0; 0; 0; 0] [] 0.

Lemma socks4_handshake_witness :
  exists t', SocksV4.execute (C := unit) no_dns 60 (SocksV4.config_new tt) (bs "10.0.0.1") 443 granted4 = (RVal tt, t') /\
    output t' = [4; 1; 1; 187; 10; 0; 0; 1; 0; 0].
Proof.
  pose proof (Socks4.socks4_handshake (C := unit) no_dns (SocksV4.config_new tt) (bs "10.0.0.1") 443
    (SocksV4.Socket [10; 0; 0; 1] 443) 60 granted4 I eq_refl eq_refl ltac:(apply Nat.leb_le; vm_compute; reflexivity)) as Hs.
  destruct (SocksV4.execute no_dns 60 (SocksV4.config_new tt) (bs "10.0.0.1") 443 granted4) as [r t'] eqn:E.
  assert (r = RVal tt) as -> by (apply (f_equal fst) in E; vm_compute in E; exact (eq_sym E)).
  exists t'. split; [reflexivity|]. destruct Hs as [_ [(_ & _ & Ho)|(e & k & He & _)]]; [exact Ho|discriminate He].
Defined.

Lemma socks4_request_misread_witness :
  Socks4.server_request (Socks4.request (SocksV4.Domain (bs "example.com") 80)) =
    Some ([], SocksV4.Domain [] 80, bs "example.com" ++ [0]).
Proof.
  exact (proj1 (Socks4.socks4_request_misread 80 (bs "example.com") [10; 0; 0; 1] ltac:(lia) eq_refl ltac:(discriminate))).
Defined.

Definition auth_config : SocksV5.SocksConfig (Uri := unit) := SocksV5.with_auth (bs "u") (bs "p") (SocksV5.config_new tt).

(** A SOCKS 5 proxy that takes the credentials and grants the request. *)
Definition granted5 : pipe := mkPipe ([5; 2] ++ [1; 0] ++ [5; 0; 0; 1; 0; 0; 0; 0; 0; 0]) [] 0.

Lemma socks5_handshake_witness :
  exists t', SocksV5.execute (C := unit) no_dns 600 auth_config (bs "a.b") 80 granted5 = (RVal tt, t') /\
    output t' = Socks5.sent auth_config (SocksV5.Domain (bs "a.b") 80) SocksV5.ReadingProxyRes.
Proof.
  pose proof (Socks5.socks5_handshake (C := unit) no_dns auth_config (bs "a.b") 80
    (SocksV5.Domain (bs "a.b") 80) 600 granted5 I eq_refl I ltac:(apply Nat.leb_le; vm_compute; reflexivity)) as Hs.
  destruct (SocksV5.execute no_dns 600 auth_config (bs "a.b") 80 granted5) as [r t'] eqn:E.
  assert (r = RVal tt) as -> by (apply (f_equal fst) in E; vm_compute in E; exact (eq_sym E)).
  exists t'. split; [reflexivity|]. destruct Hs as (_ & s & k & rest & _ & Ho & _ & Hr).
  destruct s; try (destruct Hr; fail). rewrite Ho. cbn [Socks5.message]. unfold ztake. rewrite take_nil, app_nil_r. reflexivity.
Defined.

(** A refusal whose head is read alone is forgotten; what follows is taken for the
    reply. *)
Lemma refusal_forgotten :
  let '(r1, b1) := SocksV5.proxy_try_from (mkBytesMut [5; 1; 0; 3; 20] 513) in
  r1 = RErr Incomplete /\ bm_data b1 = [] /\
  (SocksV5.proxy_try_from (bm_put [5; 0; 0; 1; 0; 0; 0; 0; 0; 0] b1)).1 = RVal V5.Success.
Proof. vm_compute. by split. Qed.

Lemma socks5_waits_witness :
  exists rest, input granted5 = [5; 2; 1; 0] ++ rest.
Proof.
  pose proof (Socks5.socks5_waits (C := unit) no_dns auth_config (bs "a.b") 80
    (SocksV5.Domain (bs "a.b") 80) 600 granted5 I eq_refl I ltac:(apply Nat.leb_le; vm_compute; reflexivity) eq_refl) as Hs.
  destruct (SocksV5.execute no_dns 600 auth_config (bs "a.b") 80 granted5) as [r t'] eqn:E.
  assert (output t' = (SocksV5.execute (C := unit) no_dns 600 auth_config (bs "a.b") 80 granted5).2.(p_out)) as Ho
    by (rewrite E; reflexivity).
  apply proj2 in Hs. rewrite Ho in Hs. apply Hs. vm_compute. reflexivity.
Defined.

Lemma socks5_messages_understood_witness :
  exists msg, bm_data (SocksV5.write_proxy (SocksV5.Domain (bs "a.b") 80) (with_capacity 262)).2 = msg /\
    Socks5.server_request (msg ++ [7]) = Some (SocksV5.Domain (bs "a.b") 80, [7]).
Proof.
  assert (len (bs "u") <= 255) as Hu by (vm_compute; discriminate).
  assert (Socks5.address_sendable (SocksV5.Domain (bs "a.b") 80)) as Ha by (split; [exact I|]; split; [vm_compute; discriminate|lia]).
  destruct (Socks5.socks5_messages_understood SocksV5.NoAuth (bs "u") (bs "u") (SocksV5.Domain (bs "a.b") 80) Hu Hu Ha)
    as (_ & _ & msg & Hw & Hs).
  exists msg. split; [|exact (Hs [7])]. specialize (Hw (with_capacity 262)).
  destruct (spare (with_capacity 262) <? len msg); [discriminate Hw|].
  destruct Hw as (k & b' & He & Hd & _). rewrite He. exact Hd.
Defined.

Lemma socks5_split_reply_panics_witness :
  (read_message (C := unit) 3 3 SocksV5.proxy_try_from
     (mkHandshake (mkPipe [5; 0] [] 0) (with_capacity 262) (with_capacity 513))).1 = RPanic.
Proof.
  refine (Socks5.socks5_split_reply_panics (C := unit) 3 2 (mkHandshake (mkPipe [5; 0] [] 0) (with_capacity 262) (with_capacity 513))
    (mkPipe [] [] 1) V5.Success (SocksV5.Socket (mkSocketAddr (V4 [1; 2; 3; 4]) 80)) 2 _ _ _ _).
  - split; [reflexivity|]. repeat constructor; lia.
  - left. reflexivity.
  - reflexivity.
  - vm_compute. reflexivity.
Defined.

Lemma socks5_reply_read_witness :
  (SocksV5.proxy_try_from (mkBytesMut (Socks5.reply V5.Success (SocksV5.Domain (bs "a.b") 80) ++ [1; 2]) 513)).1 = RVal V5.Success.
Proof.
  apply Socks5.socks5_reply_read; [split; [exact I|]; split; [vm_compute; discriminate|lia]|].
  split; [vm_compute; reflexivity|reflexivity].
Defined.
End RefSocks.
