(* ===== verification/Tunnel.v ===== *)
(** * HTTP CONNECT tunnels (src/src/core/client/connect/proxy/tunnel.rs)

    The request to the proxy, the loop that reads its answer, and what they
    guarantee about the connection that is handed on. *)

From S2P Require Import Prelude Buf Http Io Models IoProps Net SocksProps.

(** [HeaderMap::extend] of the http crate. *)
Class HttpExtend `{HttpCrate} := { hm_extend : HeaderMap -> HeaderMap -> HeaderMap }.
Class HttpExtendLaws `{HttpExtend} := {
  get_all_extend k h more :
    hm_get_all k (hm_extend h more) = if contains_key k more then hm_get_all k more else hm_get_all k h
}.

Module Tunnel.
Inductive TunnelError (E : Type) :=
| ConnectFailed (e : E)
| TIo (e : io_error)
| TMissingHost
| ProxyAuthRequired
| ProxyHeadersTooLong
| TunnelUnexpectedEof
| TunnelUnsuccessful.
Arguments ConnectFailed {E} _.
Arguments TIo {E} _.
Arguments TMissingHost {E}.
Arguments ProxyAuthRequired {E}.
Arguments ProxyHeadersTooLong {E}.
Arguments TunnelUnexpectedEof {E}.
Arguments TunnelUnsuccessful {E}.

Definition starts_with (p s : bytes) : bool := bool_decide (p `prefix_of` s).
Definition ends_with (p s : bytes) : bool := bool_decide (p `suffix_of` s).
Definition BUF_LEN : Z := 8192.

Section Tunnel.
Context `{HttpExtend} {T : Type} `{Transport T} {E Uri : Type}.

Inductive THeaders := Empty | Auth (v : HeaderValue) | Extra (m : HeaderMap).

Record Tunnel := mkTunnel { headers : THeaders; proxy_dst : Uri }.

Definition tunnel_new (proxy_dst : Uri) : Tunnel := mkTunnel Empty proxy_dst.

Definition with_auth (auth : HeaderValue) (t : Tunnel) : Tunnel :=
  mkTunnel (match headers t with
            | Empty | Auth _ => Auth auth
            | Extra extra => Extra (hm_insert PROXY_AUTHORIZATION auth extra)
            end) (proxy_dst t).

(** [entry(..).or_insert(auth)] adds the value if the name is not there. *)
Definition with_headers (hs : HeaderMap) (t : Tunnel) : Tunnel :=
  mkTunnel (match headers t with
            | Empty => Extra hs
            | Auth auth => Extra (if contains_key PROXY_AUTHORIZATION hs then hs else hm_insert PROXY_AUTHORIZATION auth hs)
            | Extra extra => Extra (hm_extend extra hs)
            end) (proxy_dst t).

Definition header_bytes (hs : THeaders) : bytes :=
  match hs with
  | Auth auth => bs "Proxy-Authorization: " ++ auth ++ CRLF
  | Extra extra => concat (map (fun '(name, value) => name ++ bs ": " ++ value ++ CRLF) (hm_iter extra))
  | Empty => []
  end.

Definition connect_request (host : bytes) (port : Z) (hs : THeaders) : bytes :=
  let authority := host ++ bs ":" ++ fmt_dec port in
  bs "CONNECT " ++ authority ++ bs " HTTP/1.1" ++ CRLF ++ bs "Host: " ++ authority ++ CRLF ++ header_bytes hs ++ CRLF.

Definition lift_io {A} (m : PM io_error T A) : PM (TunnelError E) T A := fun t =>
  let '(r, t) := m t in
  (match r with RVal a => RVal a | RPending => RPending | RErr e => RErr (TIo e) | RPanic => RPanic | RFuel => RFuel end, t).

Definition granted (recvd : bytes) : bool :=
  starts_with (bs "HTTP/1.1 200") recvd || starts_with (bs "HTTP/1.0 200") recvd.

(** [recvd] is [buf[..pos]]. *)
Fixpoint read_answer (n k : nat) (recvd : bytes) : PM (TunnelError E) T unit :=
  match k with
  | O => fun t => (RFuel, t)
  | S k =>
      pbind (lift_io (read n (BUF_LEN - len recvd))) (fun got =>
        if len got =? 0 then pfail TunnelUnexpectedEof
        else
          let recvd := recvd ++ got in
          if granted recvd then
            if ends_with (CRLF ++ CRLF) recvd then pret tt
            else if len recvd =? BUF_LEN then pfail ProxyHeadersTooLong
            else read_answer n k recvd
          else if starts_with (bs "HTTP/1.1 407") recvd then pfail ProxyAuthRequired
          else pfail TunnelUnsuccessful)
  end.

Definition tunnel (n : nat) (host : bytes) (port : Z) (hs : THeaders) : PM (TunnelError E) T unit :=
  pbind (lift_io (write_all n (connect_request host port hs))) (fun _ => read_answer n n []).

Definition call (uri_host : Uri -> option bytes) (uri_port : Uri -> option Z) (n : nat) (tn : Tunnel)
    (dst : Uri) (connecting : result T E) : poll_res (TunnelError E) T :=
  match connecting with
  | Err e => RErr (ConnectFailed e)
  | Ok conn =>
      match uri_host dst with
      | None => RErr TMissingHost
      | Some host =>
          match tunnel n host (default 443 (uri_port dst)) (headers tn) conn with
          | (RVal _, conn) => RVal conn
          | (RErr e, _) => RErr e
          | (RPending, _) => RPending
          | (RPanic, _) => RPanic
          | (RFuel, _) => RFuel
          end
      end
  end.
End Tunnel.

(** ** What the tunnel guarantees *)

Section TunnelFacts.
Context `{HttpExtend} {T : Type} {HT : Transport T} {HL : TransportLaws T} {LV : TransportLive T} {E : Type}.
Implicit Types (t : T).

(** Why reading ended with [r], [recvd] being all that was read. *)
Definition answer (recvd rest : bytes) (r : poll_res (TunnelError E) unit) : Prop :=
  match r with
  | RVal _ => granted recvd = true /\ CRLF ++ CRLF `suffix_of` recvd
  | RErr (TIo _) => True
  | RErr ProxyAuthRequired => bs "HTTP/1.1 407" `prefix_of` recvd
  | RErr ProxyHeadersTooLong => granted recvd = true /\ len recvd = BUF_LEN
  | RErr TunnelUnexpectedEof => rest = [] /\ (recvd = [] \/ granted recvd = true)
  | RErr TunnelUnsuccessful => recvd <> [] /\ granted recvd = false
  | _ => False
  end.

Definition answered (o i : bytes) (r : poll_res (TunnelError E) unit) t : Prop :=
  tr_wf t /\ output t = o /\
  exists recvd, i = recvd ++ input t /\ len recvd <= BUF_LEN /\ answer recvd (input t) r.

Lemma lift_read n room t :
  tr_wf t -> 0 < room -> (max_stall < n)%nat ->
  exists t', tr_wf t' /\ output t' = output t /\
    ((exists got, lift_io (E := E) (read n room) t = (RVal got, t') /\ input t = got ++ input t' /\ len got <= room /\
        (got = [] -> input t = [])) \/
     (exists e, lift_io (E := E) (read n room) t = (RErr (TIo e), t') /\ input t' = input t)).
Proof.
  intros Hw Hr Hn. pose proof (read_spec n room _ Hw Hr) as Hs. pose proof (read_live n room _ Hw Hr Hn) as Hl.
  unfold lift_io. destruct (read n room t) as [[got| |e| |] t']; try done; cbn in *.
  - destruct Hs as (Hw' & Ho & Hi & Hle & He). exists t'. split_and!; try done. left. by exists got.
  - destruct Hs as (Hw' & Ho & Hi). exists t'. split_and!; try done. right. by exists e.
Qed.

Lemma read_answer_spec n k recvd o i t :
  tr_wf t -> output t = o -> i = recvd ++ input t -> len recvd < BUF_LEN -> (recvd = [] \/ granted recvd = true) ->
  (max_stall < n)%nat -> (length (input t) < k)%nat ->
  answered o i (read_answer (E := E) n k recvd t).1 (read_answer (E := E) n k recvd t).2.
Proof.
  intros Hw Ho Hi Hlen Hg Hn. revert recvd t Hw Ho Hi Hlen Hg.
  induction k as [|k IH]; intros recvd t Hw Ho Hi Hlen Hg Hk; [lia|]. cbn [read_answer]. unfold pbind.
  destruct (lift_read n (BUF_LEN - len recvd) t Hw ltac:(lia) Hn)
    as (t' & Hw' & Ho' & [(got & -> & Hin & Hle & Hne)|(e & -> & Hin)]).
  2:{ split_and!; cbn; try done; [congruence|]. exists recvd. rewrite Hin. split_and!; try done. lia. }
  assert (i = (recvd ++ got) ++ input t') as Hi' by (by rewrite <- app_assoc, <- Hin).
  destruct (Z.eqb_spec (len got) 0) as [Hz|Hz].
  { apply len_zero in Hz. subst got. cbn. split_and!; cbn; try done; [congruence|].
    exists recvd. rewrite app_nil_r in Hi'. split_and!; try done; [lia|]. rewrite Hne in Hin by done. by destruct (input t'). }
  assert (len (recvd ++ got) <= BUF_LEN) as Hl by (rewrite len_app; lia).
  assert (forall r : poll_res (TunnelError E) unit, answer (recvd ++ got) (input t') r -> answered o i r t') as Hend.
  { intros r Hr. split_and!; [done|congruence|]. by exists (recvd ++ got). }
  destruct (granted (recvd ++ got)) eqn:Eg.
  - unfold ends_with. case_bool_decide; [by apply Hend|]. destruct (Z.eqb_spec (len (recvd ++ got)) BUF_LEN); [by apply Hend|].
    apply IH; try done; [congruence|lia|by right|]. rewrite Hin, length_app in Hk. unfold len in Hz. lia.
  - assert (recvd ++ got <> []) as Hnn by (intros [-> ->]%app_nil; done).
    unfold starts_with. case_bool_decide; apply Hend; done.
Qed.

(** Over any transport that does not stall forever, a tunnel request returns:
    the CONNECT request is written and nothing else; the connection is handed on
    only after an answer with status 200 whose last read ended with an empty line,
    and then everything that was read belongs to that answer; a refusal, a request
    for credentials, an answer longer than the buffer and an early end are told
    apart by what was read. *)
Theorem tunnel_answered n host port hs t :
  tr_wf t -> (socks_fuel (len (connect_request host port hs)) t <= n)%nat ->
  let '(r, t') := tunnel (E := E) n host port hs t in
  answered (output t ++ connect_request host port hs) (input t) r t' \/
  tr_wf t' /\ exists e k, r = RErr (TIo e) /\ output t' = output t ++ ztake k (connect_request host port hs).
Proof.
  intros Hw Hn. apply socks_fuel_enough in Hn as (Hn1 & Hn2 & Hn3); [|len_lia]. set (req := connect_request host port hs) in *.
  unfold tunnel. fold req. unfold pbind. pose proof (write_all_spec n req _ Hw) as Hs.
  assert (write_steps req 0 t < n)%nat as Hst.
  { unfold write_steps. pose proof (stall_bound t). pose proof (len_nonneg req). specialize (Hn3 (len req) ltac:(lia)).
    replace (Z.to_nat (len req + 1)) with (Z.to_nat (len req - 0) + 1)%nat in Hn3 by lia. nia. }
  pose proof (write_all_live n req _ Hw Hst) as Hl. unfold lift_io at 1.
  destruct (write_all n req t) as [[[]| |e| |] t1]; try done; cbn in Hs.
  - destruct Hs as (Hw1 & Hi1 & Ho1).
    pose proof (read_answer_spec n n [] (output t ++ req) (input t) t1 Hw1 Ho1) as Hr. rewrite Hi1 in Hr.
    destruct (read_answer n n [] t1) as [r t']. left. apply Hr; [done|done|by left|done|done].
  - destruct Hs as (Hw1 & _ & k & Ho1). right. split; [done|]. by exists e, k.
Qed.

(** The answer has to come in one piece up to its status: if the first read
    brings fewer than twelve bytes of it the tunnel is refused, whatever the proxy
    answers. *)
Theorem tunnel_short_read_refused n k t got t' :
  read n BUF_LEN t = (RVal got, t') -> 0 < len got < 12 ->
  read_answer (E := E) n (S k) [] t = (RErr TunnelUnsuccessful, t').
Proof.
  intros Hr Hlen. cbn [read_answer]. unfold pbind, lift_io. change (BUF_LEN - len []) with BUF_LEN. rewrite Hr.
  rewrite (proj2 (Z.eqb_neq _ _)) by lia. cbv zeta. cbn [app].
  assert (forall p, len p = 12 -> starts_with p got = false) as Hs.
  { intros p Hp. apply bool_decide_eq_false. intros [q Hq]. rewrite Hq, len_app in Hlen. pose proof (len_nonneg q). lia. }
  unfold granted. by rewrite !Hs by done.
Qed.
End TunnelFacts.

(** The credentials the proxy is sent: the last that were set, by value or by a
    header map that names them. *)
Section Credentials.
Context `{HttpLaws} {HX : HttpExtend} {HXL : HttpExtendLaws} {Uri : Type}.

Definition auth_values (hs : THeaders) : list HeaderValue :=
  match hs with Empty => [] | Auth v => [v] | Extra m => hm_get_all PROXY_AUTHORIZATION m end.

Lemma with_auth_values v (t : Tunnel (Uri := Uri)) : auth_values (headers (with_auth v t)) = [v].
Proof. destruct t as [[]]; cbn; [done|done|]. apply get_all_insert_eq. Qed.

Lemma with_headers_values m (t : Tunnel (Uri := Uri)) :
  auth_values (headers (with_headers m t)) =
  if contains_key PROXY_AUTHORIZATION m then hm_get_all PROXY_AUTHORIZATION m else auth_values (headers t).
Proof.
  destruct t as [[]]; cbn.
  - unfold contains_key. by destruct (hm_get_all _ m).
  - destruct (contains_key _ m); [done|]. apply get_all_insert_eq.
  - apply get_all_extend.
Qed.
End Credentials.

(** ** The properties at concrete inputs *)

Module RefTunnel.
Import Pipe RefAlloc RefHttp RefSocks.

Definition proxy_says (s : bytes) : pipe := mkPipe s [] 0.
Definition ok_answer : bytes := bs "HTTP/1.1 200 OK" ++ CRLF ++ CRLF.

Lemma tunnel_answered_witness :
  exists t', tunnel (E := unit) 400 (bs "a.b") 443 (Auth (bs "Basic eA==")) (proxy_says ok_answer) = (RVal tt, t') /\
    output t' = bs "CONNECT a.b:443 HTTP/1.1" ++ CRLF ++ bs "Host: a.b:443" ++ CRLF ++
      bs "Proxy-Authorization: Basic eA==" ++ CRLF ++ CRLF.
Proof.
  pose proof (tunnel_answered (E := unit) 400 (bs "a.b") 443 (Auth (bs "Basic eA==")) (proxy_says ok_answer) I
    ltac:(apply Nat.leb_le; vm_compute; reflexivity)) as Ht.
  destruct (tunnel 400 (bs "a.b") 443 (Auth (bs "Basic eA==")) (proxy_says ok_answer)) as [r t'] eqn:Er.
  assert (r = RVal tt) as -> by (apply (f_equal fst) in Er; vm_compute in Er; exact (eq_sym Er)).
  exists t'. split; [reflexivity|]. destruct Ht as [(_ & Ho & _)|(_ & e & k & He & _)]; [|discriminate He].
  rewrite Ho. reflexivity.
Defined.

Lemma tunnel_short_read_refused_witness :
  read_answer (E := unit) 3 3 [] (proxy_says (bs "HTTP/1.1 ")) = (RErr TunnelUnsuccessful, mkPipe [] [] 1).
Proof.
  apply (tunnel_short_read_refused 3 2 (proxy_says (bs "HTTP/1.1 ")) (bs "HTTP/1.1 ") (mkPipe [] [] 1)).
  - vm_compute. reflexivity.
  - split; vm_compute; reflexivity.
Defined.
End RefTunnel.
End Tunnel.
