(* ===== verification/Proxy.v ===== *)
(** * Choosing a proxy (src/src/proxy.rs, src/src/core/client/network.rs)

    Which requests go through which proxy: the rules of a [Proxy], the exceptions
    of [NoProxy], the proxies of the environment, and the network scheme a request
    is finally sent with.  Where the code panics the result is [None]. *)

From S2P Require Import Prelude Buf Http Io Net Tunnel.
Import IpParse.

(** ** Code outside the repository *)

(** The url crate.  [url_parse] tells apart the one error the code looks for. *)
Inductive UrlParseError := RelativeUrlWithoutBase | OtherParseError.

Class UrlCrate (Url : Type) := {
  url_parse : bytes -> result Url UrlParseError;
  url_as_str : Url -> bytes;
  url_scheme : Url -> bytes;
  url_has_host : Url -> bool;
  url_host_str : Url -> option bytes;
  url_port : Url -> option Z;
  url_port_or_known_default : Url -> option Z;
  url_username : Url -> bytes;
  url_password : Url -> option bytes;
  (* [&url[Position::BeforeHost..Position::AfterPort]] *)
  url_host_port : Url -> bytes;
  url_join : Url -> bytes -> option Url;
  url_set_username : bytes -> Url -> Url;
  url_set_password : option bytes -> Url -> Url;
  url_set_fragment : option bytes -> Url -> Url;
  (* [socket_addrs] with the default port *)
  url_socket_addrs : Url -> option Z -> result (list SocketAddr) io_error
}.

(** The ipnet crate, the [Authority] of the http crate, and the two codecs. *)
Class ProxyCrates := {
  IpNet : Type;
  ipnet_parse : bytes -> option IpNet;
  ipnet_contains : IpNet -> IpAddr -> bool;
  Authority : Type;
  authority_parse : bytes -> option Authority;
  base64 : bytes -> bytes;
  percent_decode_lossy : bytes -> bytes
}.

(** A destination ([trait Dst]). *)
Class Dst (D : Type) := {
  dst_scheme : D -> bytes;
  dst_host : D -> bytes;
  dst_port : D -> option Z
}.

(** ** Strings *)

Definition strip_prefix (p s : bytes) : option bytes :=
  if bool_decide (p `prefix_of` s) then Some (zdrop (len p) s) else None.

(** [trim_matches] for the two brackets. *)
Definition is_bracket (b : byte) : bool := (b =? 91) || (b =? 93).
Fixpoint drop_brackets (s : bytes) : bytes :=
  match s with b :: s' => if is_bracket b then drop_brackets s' else s | [] => [] end.
Definition trim_brackets (s : bytes) : bytes := reverse (drop_brackets (reverse (drop_brackets s))).

(** [s.find(pat)] *)
Fixpoint find_sub (pat s : bytes) : option Z :=
  if bool_decide (pat `prefix_of` s) then Some 0
  else match s with [] => None | _ :: s' => Z.succ <$> find_sub pat s' end.

Module Proxy.
Section Proxy.
Context `{HttpCrate} `{ProxyCrates} {Url : Type} `{UrlCrate Url}.

(** ** [ProxyScheme] *)

Inductive ProxyScheme :=
| PHttp (auth : option HeaderValue) (host : Authority) (headers : option HeaderMap)
| PHttps (auth : option HeaderValue) (host : Authority) (headers : option HeaderMap)
| PSocks4 (addr : SocketAddr) (remote_dns : bool)
| PSocks5 (addr : SocketAddr) (auth : option (bytes * bytes)) (remote_dns : bool).

Definition maybe_http_auth (s : ProxyScheme) : option HeaderValue :=
  match s with PHttp auth _ _ | PHttps auth _ _ => auth | _ => None end.
Definition maybe_http_headers (s : ProxyScheme) : option HeaderMap :=
  match s with PHttp _ _ headers | PHttps _ _ headers => headers | _ => None end.

Inductive ProxyError := BuilderError | UnknownScheme.

Definition scheme_http (host : bytes) : result ProxyScheme ProxyError :=
  match authority_parse host with Some a => Ok (PHttp None a None) | None => Err BuilderError end.
Definition scheme_https (host : bytes) : result ProxyScheme ProxyError :=
  match authority_parse host with Some a => Ok (PHttps None a None) | None => Err BuilderError end.

(** [util::basic_auth] *)
Definition basic_auth (username : bytes) (password : option bytes) : HeaderValue :=
  bs "Basic " ++ base64 (username ++ bs ":" ++ default [] password).
Definition encode_basic_auth (username password : bytes) : HeaderValue := basic_auth username (Some password).

Definition set_basic_auth (username password : bytes) (s : ProxyScheme) : option ProxyScheme :=
  match s with
  | PHttp _ h hs => Some (PHttp (Some (encode_basic_auth username password)) h hs)
  | PHttps _ h hs => Some (PHttps (Some (encode_basic_auth username password)) h hs)
  | PSocks4 _ _ => None
  | PSocks5 a _ r => Some (PSocks5 a (Some (username, password)) r)
  end.

Definition set_custom_http_auth (v : HeaderValue) (s : ProxyScheme) : option ProxyScheme :=
  match s with
  | PHttp _ h hs => Some (PHttp (Some v) h hs)
  | PHttps _ h hs => Some (PHttps (Some v) h hs)
  | PSocks4 _ _ | PSocks5 _ _ _ => None
  end.

Definition set_custom_http_headers (m : HeaderMap) (s : ProxyScheme) : option ProxyScheme :=
  match s with
  | PHttp a h _ => Some (PHttp a h (Some m))
  | PHttps a h _ => Some (PHttps a h (Some m))
  | PSocks4 _ _ | PSocks5 _ _ _ => None
  end.

Definition if_no_auth (update : option HeaderValue) (s : ProxyScheme) : ProxyScheme :=
  match s with
  | PHttp None h hs => PHttp update h hs
  | PHttps None h hs => PHttps update h hs
  | s => s
  end.

Definition is_socks_scheme (s : bytes) : bool :=
  existsb (fun x => bool_decide (s = bs x)) ["socks4"; "socks4a"; "socks5"; "socks5h"]%string.

(** The closure [to_addr]. *)
Definition to_addr (url : Url) : result SocketAddr ProxyError :=
  match url_socket_addrs url (if is_socks_scheme (url_scheme url) then Some 1080 else None) with
  | Err _ => Err BuilderError
  | Ok [] => Err UnknownScheme
  | Ok (a :: _) => Ok a
  end.

Definition on_ok {A B E} (f : A -> B) (r : result A E) : result B E :=
  match r with Ok a => Ok (f a) | Err e => Err e end.

(** [ProxyScheme::parse] *)
Definition scheme_parse (url : Url) : option (result ProxyScheme ProxyError) :=
  let s := url_scheme url in
  let scheme :=
    if bool_decide (s = bs "http") then scheme_http (url_host_port url)
    else if bool_decide (s = bs "https") then scheme_https (url_host_port url)
    else if bool_decide (s = bs "socks4") then on_ok (fun a => PSocks4 a false) (to_addr url)
    else if bool_decide (s = bs "socks4a") then on_ok (fun a => PSocks4 a true) (to_addr url)
    else if bool_decide (s = bs "socks5") then on_ok (fun a => PSocks5 a None false) (to_addr url)
    else if bool_decide (s = bs "socks5h") then on_ok (fun a => PSocks5 a None true) (to_addr url)
    else Err UnknownScheme in
  match scheme with
  | Err e => Some (Err e)
  | Ok scheme =>
      match url_password url with
      | Some pwd => scheme ← set_basic_auth (percent_decode_lossy (url_username url)) (percent_decode_lossy pwd) scheme; Some (Ok scheme)
      | None => Some (Ok scheme)
      end
  end.

(** [into_url] on a string (src/src/into_url.rs). *)
Inductive UrlError := UParse (e : UrlParseError) | UBadScheme.
Definition into_url (s : bytes) : result Url UrlError :=
  match url_parse s with
  | Err e => Err (UParse e)
  | Ok u => if url_has_host u then Ok u else Err UBadScheme
  end.

(** [IntoProxyScheme] for what is a URL. *)
Definition into_proxy_scheme (s : bytes) : option (result ProxyScheme ProxyError) :=
  match into_url s with
  | Ok url => scheme_parse url
  | Err e =>
      let presumed_to_have_scheme :=
        match e with UParse RelativeUrlWithoutBase | UBadScheme => false | UParse OtherParseError => true end in
      if presumed_to_have_scheme then Some (Err BuilderError)
      else match into_url (bs "http://" ++ s) with
           | Ok url => scheme_parse url
           | Err _ => Some (Err BuilderError)
           end
  end.

(** ** [NoProxy] *)

Inductive Ip := Address (a : IpAddr) | Network (n : IpNet).
Record NoProxy := mkNoProxy { ips : list Ip; domains : list bytes }.
Definition no_proxy_default : NoProxy := mkNoProxy [] [].

Definition add_entry (part : bytes) (np : NoProxy) : NoProxy :=
  match ipnet_parse part with
  | Some n => mkNoProxy (ips np ++ [Network n]) (domains np)
  | None =>
      match parse_ip part with
      | Some a => mkNoProxy (ips np ++ [Address a]) (domains np)
      | None => mkNoProxy (ips np) (domains np ++ [part])
      end
  end.

Definition from_string (l : bytes) : option NoProxy :=
  if bool_decide (l = []) then None
  else Some (foldl (fun np part => add_entry part np) (mkNoProxy [] []) (trim <$> split Headers.COMMA l)).

Definition ips_contains (l : list Ip) (addr : IpAddr) : bool :=
  existsb (fun ip => match ip with Address a => bool_decide (addr = a) | Network n => ipnet_contains n addr end) l.

Definition DOT : byte := 46.

(** One turn of [DomainMatcher::contains]; [None]: the index underflows. *)
Definition domain_matches (d domain : bytes) : option bool :=
  if bool_decide (d = domain) || bool_decide (strip_prefix [DOT] d = Some domain) then Some true
  else if bool_decide (d `suffix_of` domain) then
    if bool_decide ([DOT] `prefix_of` d) then Some true
    else
      let i := len domain - len d - 1 in
      if i <? 0 then None
      else Some (bool_decide (domain !! Z.to_nat i = Some DOT))
  else Some (bool_decide (d = bs "*")).

Fixpoint domains_contains (l : list bytes) (domain : bytes) : option bool :=
  match l with
  | [] => Some false
  | d :: l => m ← domain_matches d domain; if m : bool then Some true else domains_contains l domain
  end.

(** [NoProxy::contains] *)
Definition no_proxy_contains (np : NoProxy) (host : bytes) : option bool :=
  let host := if bool_decide ([91] `prefix_of` host) then trim_brackets host else host in
  match parse_ip host with
  | Some ip => Some (ips_contains (ips np) ip)
  | None => domains_contains (domains np) host
  end.

(** ** [Proxy] *)

Abbreviation SystemProxyMap := (gmap bytes ProxyScheme).

Record Custom := mkCustom { c_auth : option HeaderValue; c_func : Url -> option (result ProxyScheme ProxyError) }.

Inductive Intercept :=
| All (s : ProxyScheme)
| IHttp (s : ProxyScheme)
| IHttps (s : ProxyScheme)
| System (m : SystemProxyMap)
| ICustom (c : Custom).

Record Proxy := mkProxy { p_intercept : Intercept; no_proxy : option NoProxy }.
Definition proxy_new (i : Intercept) : Proxy := mkProxy i None.

(** [Proxy::http], [https], [all] on a string *)
Definition proxy_http (s : bytes) : option (result Proxy ProxyError) :=
  on_ok (fun p => proxy_new (IHttp p)) <$> into_proxy_scheme s.
Definition proxy_https (s : bytes) : option (result Proxy ProxyError) :=
  on_ok (fun p => proxy_new (IHttps p)) <$> into_proxy_scheme s.
Definition proxy_all (s : bytes) : option (result Proxy ProxyError) :=
  on_ok (fun p => proxy_new (All p)) <$> into_proxy_scheme s.

Definition set_no_proxy (np : option NoProxy) (p : Proxy) : Proxy := mkProxy (p_intercept p) np.

(** [Intercept::set_basic_auth] and its two siblings. *)
Definition on_scheme (f : ProxyScheme -> option ProxyScheme) (g : Custom -> Custom) (i : Intercept) : option Intercept :=
  match i with
  | All s => All <$> f s
  | IHttp s => IHttp <$> f s
  | IHttps s => IHttps <$> f s
  | System _ => None
  | ICustom c => Some (ICustom (g c))
  end.

Definition proxy_basic_auth (username password : bytes) (p : Proxy) : option Proxy :=
  i ← on_scheme (set_basic_auth username password)
        (fun c => mkCustom (Some (encode_basic_auth username password)) (c_func c)) (p_intercept p);
  Some (mkProxy i (no_proxy p)).
Definition custom_http_auth (v : HeaderValue) (p : Proxy) : option Proxy :=
  i ← on_scheme (set_custom_http_auth v) (fun c => mkCustom (Some v) (c_func c)) (p_intercept p);
  Some (mkProxy i (no_proxy p)).
Definition custom_http_headers (m : HeaderMap) (p : Proxy) : option Proxy :=
  i ← on_scheme (set_custom_http_headers m) (fun c => c) (p_intercept p); Some (mkProxy i (no_proxy p)).

Section Destination.
Context {D : Type} `{Dst D}.

(** [Custom::call] *)
Definition custom_call (c : Custom) (uri : D) : option (option ProxyScheme) :=
  let port := match dst_port uri with Some p => bs ":" ++ fmt_dec p | None => [] end in
  match url_parse (dst_scheme uri ++ bs "://" ++ dst_host uri ++ port) with
  | Err _ => None
  | Ok url => Some (match c_func c url with Some (Ok s) => Some (if_no_auth (c_auth c) s) | _ => None end)
  end.

Definition maybe_has_http_auth (p : Proxy) : bool :=
  match p_intercept p with
  | All s | IHttp s => bool_decide (is_Some (maybe_http_auth s))
  | ICustom _ => true
  | System m => bool_decide (is_Some (s ← m !! bs "http"; maybe_http_auth s))
  | IHttps _ => false
  end.

Definition http_basic_auth (p : Proxy) (uri : D) : option (option HeaderValue) :=
  match p_intercept p with
  | All s | IHttp s => Some (maybe_http_auth s)
  | System m => Some (s ← m !! bs "http"; maybe_http_auth s)
  | ICustom c => r ← custom_call c uri; Some (s ← r; maybe_http_auth s)
  | IHttps _ => Some None
  end.

Definition http_headers (p : Proxy) : option HeaderMap :=
  match p_intercept p with All s | IHttp s => maybe_http_headers s | _ => None end.

Definition in_no_proxy (p : Proxy) (uri : D) : option bool :=
  match no_proxy p with Some np => no_proxy_contains np (dst_host uri) | None => Some false end.

Definition intercept (p : Proxy) (uri : D) : option (option ProxyScheme) :=
  excluded ← in_no_proxy p uri;
  match p_intercept p with
  | All s => Some (if excluded : bool then None else Some s)
  | IHttp s => Some (if negb excluded && bool_decide (dst_scheme uri = bs "http") then Some s else None)
  | IHttps s => Some (if negb excluded && bool_decide (dst_scheme uri = bs "https") then Some s else None)
  | System m => Some (if excluded then None else m !! dst_scheme uri)
  | ICustom c => if excluded then Some None else custom_call c uri
  end.

Definition is_match (p : Proxy) (uri : D) : option bool :=
  match p_intercept p with
  | All _ => Some true
  | IHttp _ => Some (bool_decide (dst_scheme uri = bs "http"))
  | IHttps _ => Some (bool_decide (dst_scheme uri = bs "https"))
  | System m => Some (bool_decide (is_Some (m !! dst_scheme uri)))
  | ICustom c => r ← custom_call c uri; Some (bool_decide (is_Some r))
  end.
End Destination.

(** ** The environment *)

(** [env::var] *)
Context (env : bytes -> option bytes).

Definition from_env : option NoProxy :=
  raw ← (match env (bs "NO_PROXY") with Some v => Some v | None => env (bs "no_proxy") end);
  Some (default no_proxy_default (from_string raw)).

Definition insert_proxy (proxies : SystemProxyMap) (scheme addr : bytes) : option (bool * SystemProxyMap) :=
  if bool_decide (trim addr = []) then Some (false, proxies)
  else match into_proxy_scheme addr with
       | Some (Ok valid) => Some (true, <[scheme := valid]> proxies)
       | Some (Err _) => Some (false, proxies)
       | None => None
       end.

Definition insert_from_env (proxies : SystemProxyMap) (scheme var : string) : option (bool * SystemProxyMap) :=
  match env (bs var) with Some val => insert_proxy proxies (bs scheme) val | None => Some (false, proxies) end.

Definition is_cgi : bool := bool_decide (is_Some (env (bs "REQUEST_METHOD"))).

Definition get_from_environment : option SystemProxyMap :=
  '(a, m) ← insert_from_env ∅ "http" "ALL_PROXY";
  '(b, m) ← (if a : bool then insert_from_env m "https" "ALL_PROXY" else Some (false, m));
  '(_, m) ← (if b : bool then Some (true, m)
             else '(_, m) ← insert_from_env m "http" "all_proxy"; insert_from_env m "https" "all_proxy");
  '(_, m) ← (if is_cgi then Some (true, m)
             else '(ok, m) ← insert_from_env m "http" "HTTP_PROXY";
                  if ok : bool then Some (true, m) else insert_from_env m "http" "http_proxy");
  '(ok, m) ← insert_from_env m "https" "HTTPS_PROXY";
  '(_, m) ← (if ok : bool then Some (true, m) else insert_from_env m "https" "https_proxy");
  Some m.

Definition extract_type_prefix (address : bytes) : option bytes :=
  match find_sub (bs "://") address with
  | Some i =>
      if i =? 0 then None
      else let prefix := ztake i address in
           if existsb (fun b => (b =? 58) || (b =? 47)) prefix then None else Some prefix
  | None => None
  end.

(** The per-protocol settings of a platform. *)
Fixpoint insert_settings (parts : list bytes) (m : SystemProxyMap) : option SystemProxyMap :=
  match parts with
  | [] => Some m
  | p :: parts =>
      match split 61 p with
      | [protocol; address] =>
          let address := if bool_decide (is_Some (extract_type_prefix address)) then address else bs "http://" ++ address in
          '(_, m) ← insert_proxy m protocol address; insert_settings parts m
      | _ => Some ∅
      end
  end.

Definition parse_platform_values (values : bytes) : option SystemProxyMap :=
  if bool_decide (61 ∈ values) then insert_settings (split 59 values) ∅
  else match extract_type_prefix values with
       | Some scheme => snd <$> insert_proxy ∅ scheme values
       | None =>
           '(_, m) ← insert_proxy ∅ (bs "http") (bs "http://" ++ values);
           '(_, m) ← insert_proxy m (bs "https") (bs "http://" ++ values); Some m
       end.

(** [platform]: the target is Windows or macOS. *)
Definition get_sys_proxies (platform : bool) (platform_proxies : option bytes) : option SystemProxyMap :=
  proxies ← get_from_environment;
  if platform && bool_decide (proxies = ∅) then
    match platform_proxies with Some v => parse_platform_values v | None => Some proxies end
  else Some proxies.

(** [Proxy::system] off Windows *)
Definition proxy_system (platform : bool) (platform_proxies : option bytes) : option Proxy :=
  m ← get_sys_proxies platform platform_proxies; Some (mkProxy (System m) from_env).
End Proxy.
End Proxy.

(** ** Network schemes (src/src/core/client/network.rs), on a target with interfaces *)

Module Network.
Import Proxy.
Section Network.
Context `{HttpCrate} `{ProxyCrates}.

Inductive NetworkScheme :=
| Scheme (interface : option bytes) (addresses : option bytes * option bytes) (proxy_scheme : option ProxyScheme)
| Default.

Definition take_proxy_scheme (s : NetworkScheme) : option ProxyScheme * NetworkScheme :=
  match s with Scheme i a p => (p, Scheme i a None) | Default => (None, Default) end.
Definition take_addresses (s : NetworkScheme) : (option bytes * option bytes) * NetworkScheme :=
  match s with Scheme i a p => (a, Scheme i (None, None) p) | Default => ((None, None), Default) end.
Definition take_interface (s : NetworkScheme) : option bytes * NetworkScheme :=
  match s with Scheme i a p => (i, Scheme None a p) | Default => (None, Default) end.

Record NetworkSchemeBuilder := mkBuilder {
  nb_interface : option bytes;
  nb_addresses : option bytes * option bytes;
  nb_proxy_scheme : option ProxyScheme
}.
Definition builder_default : NetworkSchemeBuilder := mkBuilder None (None, None) None.

Definition nb_set_address (addr : option IpAddr) (b : NetworkSchemeBuilder) : NetworkSchemeBuilder :=
  mkBuilder (nb_interface b)
    (match addr with Some (V4 a) => (Some a, None) | Some (V6 a) => (None, Some a) | None => (None, None) end)
    (nb_proxy_scheme b).
Definition nb_set_addresses (v4 v6 : option bytes) (b : NetworkSchemeBuilder) : NetworkSchemeBuilder :=
  mkBuilder (nb_interface b) (v4, v6) (nb_proxy_scheme b).
Definition nb_set_interface (i : bytes) (b : NetworkSchemeBuilder) : NetworkSchemeBuilder :=
  mkBuilder (Some i) (nb_addresses b) (nb_proxy_scheme b).
Definition nb_set_proxy_scheme (p : option ProxyScheme) (b : NetworkSchemeBuilder) : NetworkSchemeBuilder :=
  mkBuilder (nb_interface b) (nb_addresses b) p.

Definition nb_build (b : NetworkSchemeBuilder) : NetworkScheme :=
  match nb_proxy_scheme b, nb_addresses b, nb_interface b with
  | None, (None, None), None => Default
  | p, a, i => Scheme i a p
  end.
End Network.
End Network.
