(* ===== verification/ProxyProps.v ===== *)
(** * Choosing a proxy: which hosts are excluded, which variables count, and
    when parsing a proxy fails *)

From S2P Require Import Prelude Buf Http Io Models Net Tunnel Proxy.
Import IpParse Proxy.

Section ProxyProps.
Context `{HC : HttpCrate} `{PC : ProxyCrates} {Url : Type} {UC : UrlCrate Url}.

(** ** [NoProxy] *)

(** The entry without its leading dot. *)
Definition bare (d : bytes) : bytes := default d (strip_prefix [DOT] d).

(** The host is the domain of the entry or below it. *)
Definition covers (d domain : bytes) : Prop := domain = bare d \/ DOT :: bare d `suffix_of` domain.
Definition wildcard (d domain : bytes) : Prop := d = bs "*" /\ ~ d `suffix_of` domain.

Lemma strip_dot d e : strip_prefix [DOT] d = Some e <-> d = DOT :: e.
Proof.
  unfold strip_prefix. case_bool_decide as Hp.
  - destruct Hp as [r ->]. cbn [app]. change (DOT :: r) with ([DOT] ++ r). rewrite (zdrop_app_exact [DOT] r). naive_solver.
  - split; [done|]. intros ->. destruct Hp. by exists e.
Qed.

Lemma bare_dot e : bare (DOT :: e) = e.
Proof. unfold bare. by rewrite (proj2 (strip_dot _ e) eq_refl). Qed.

Lemma bare_nodot d : ~ [DOT] `prefix_of` d -> bare d = d.
Proof.
  intros Hd. unfold bare. destruct (strip_prefix [DOT] d) as [e|] eqn:E; [|done].
  apply strip_dot in E. subst. destruct Hd. by exists e.
Qed.

(** The byte before a proper suffix. *)
Lemma suffix_dot d domain :
  d `suffix_of` domain -> d <> domain ->
  0 <= len domain - len d - 1 /\
  (domain !! Z.to_nat (len domain - len d - 1) = Some DOT <-> DOT :: d `suffix_of` domain).
Proof.
  intros [p ->] Hne. destruct p as [|x q _] using rev_ind; [done|]. rewrite !len_app. change (len [x]) with 1.
  replace (len q + 1 + len d - len d - 1) with (len q) by lia. split; [apply len_nonneg|].
  unfold len. rewrite Nat2Z.id, <- !app_assoc. cbn [app]. rewrite list_lookup_middle by done. split.
  - intros [= ->]. by exists q.
  - intros [r Hr]. change (r ++ DOT :: d) with (r ++ [DOT] ++ d) in Hr. change (q ++ x :: d) with (q ++ [x] ++ d) in Hr.
    rewrite !app_assoc in Hr. apply app_inv_tail in Hr. apply app_inj_tail in Hr as [_ ->]. done.
Qed.

Lemma domain_matches_spec d domain :
  exists b, domain_matches d domain = Some b /\ (b = true <-> covers d domain \/ wildcard d domain).
Proof.
  unfold domain_matches, covers, wildcard.
  case_bool_decide as Heq; cbn [orb].
  { exists true. split; [done|]. split; [intros _; left|done]. subst. destruct (decide ([DOT] `prefix_of` domain)) as [[e ->]|Hn].
    - right. cbn [app]. by rewrite bare_dot.
    - left. by rewrite bare_nodot. }
  case_bool_decide as Hst; cbn [orb].
  { apply strip_dot in Hst. subst. exists true. split; [done|]. split; [|done]. intros _. left. left. by rewrite bare_dot. }
  case_bool_decide as Hsuf.
  - case_bool_decide as Hdot.
    + exists true. split; [done|]. split; [|done]. intros _. left. right. destruct Hdot as [e ->]. cbn [app]. by rewrite bare_dot.
    + destruct (suffix_dot d domain Hsuf Heq) as [Hi Hd]. rewrite (proj2 (Z.ltb_ge _ _)) by done.
      eexists. split; [done|]. rewrite bool_decide_eq_true, Hd, bare_nodot by done. naive_solver.
  - eexists. split; [done|]. rewrite bool_decide_eq_true. split; [naive_solver|]. intros [[->|Hc]|[-> _]]; [| |done].
    + destruct (decide ([DOT] `prefix_of` d)) as [[e ->]|Hn]; [|by rewrite bare_nodot in Heq].
      cbn [app] in *. rewrite bare_dot in *. by destruct Hst; apply strip_dot.
    + destruct Hsuf. etrans; [|exact Hc]. destruct (decide ([DOT] `prefix_of` d)) as [[e ->]|Hn].
      * cbn [app]. by rewrite bare_dot.
      * rewrite bare_nodot by done. by exists [DOT].
Qed.

Lemma domains_contains_spec l domain :
  exists b, domains_contains l domain = Some b /\
    (b = true <-> exists d, d ∈ l /\ (covers d domain \/ wildcard d domain)).
Proof.
  induction l as [|d l (b & Hl & IH)]; cbn [domains_contains].
  { exists false. split; [done|]. set_solver. }
  destruct (domain_matches_spec d domain) as (m & -> & Hm). cbn [mbind option_bind]. destruct m.
  - exists true. split; [done|]. split; [|done]. intros _. exists d. split; [left|by apply Hm].
  - exists b. split; [done|]. rewrite IH. setoid_rewrite elem_of_cons. destruct Hm as [_ Hm].
    split; [naive_solver|]. intros (e & [->|?] & He); [|by exists e]. by specialize (Hm He).
Qed.

(** The host as it is compared. *)
Definition bare_host (host : bytes) : bytes := if bool_decide ([91] `prefix_of` host) then trim_brackets host else host.
Definition listed (l : bytes) : list bytes := trim <$> split Headers.COMMA l.

Lemma from_string_entries l :
  foldl (fun np part => add_entry part np) (mkNoProxy [] []) l =
  mkNoProxy (omap (fun p => match ipnet_parse p with Some n => Some (Network n) | None => Address <$> parse_ip p end) l)
    (filter (fun p => ipnet_parse p = None /\ parse_ip p = None) l).
Proof.
  enough (forall i d, foldl (fun np part => add_entry part np) (mkNoProxy i d) l =
    mkNoProxy (i ++ omap (fun p => match ipnet_parse p with Some n => Some (Network n) | None => Address <$> parse_ip p end) l)
      (d ++ filter (fun p => ipnet_parse p = None /\ parse_ip p = None) l)) as Hg by apply (Hg [] []).
  induction l as [|p l IH]; intros i d; cbn [foldl]; [by rewrite !app_nil_r|].
  unfold add_entry at 2. cbn [ips domains]. rewrite filter_cons.
  destruct (ipnet_parse p) eqn:En; [|destruct (parse_ip p) eqn:Ep]; rewrite IH; cbn; rewrite ?En, ?Ep; cbn;
    rewrite ?decide_False, ?decide_True by naive_solver; by rewrite <- ?app_assoc.
Qed.

(** C37. A list of exceptions never makes the check panic, and excludes a host
    exactly in these cases.  The host is an address and the list has this address or
    a network with it; names and the wildcard do not exclude addresses.  The host is
    a name and the list has an entry, other than an address or a network, that is the
    name or a domain above it (with or without a leading dot), or is the wildcard
    while the name does not itself end in a star.  An empty entry counts as such a
    domain, and excludes the names that end in a dot ([no_proxy_corners]). *)
Theorem no_proxy_excludes l np host :
  from_string l = Some np ->
  exists b, no_proxy_contains np host = Some b /\
  (b = true <->
   match parse_ip (bare_host host) with
   | Some ip => exists p, p ∈ listed l /\
       match ipnet_parse p with Some n => ipnet_contains n ip = true | None => parse_ip p = Some ip end
   | None => exists p, p ∈ listed l /\ ipnet_parse p = None /\ parse_ip p = None /\
       (covers p (bare_host host) \/ wildcard p (bare_host host))
   end).
Proof.
  unfold from_string. case_bool_decide; [done|]. intros [= <-]. fold (listed l). rewrite from_string_entries.
  unfold no_proxy_contains. fold (bare_host host). cbn [ips domains]. destruct (parse_ip (bare_host host)) as [ip|].
  - eexists. split; [done|]. unfold ips_contains. rewrite <- Is_true_true, existb_True, Exists_exists. split.
    + intros (x & (p & Hp & Hx)%list_elem_of_omap & Hc). exists p. split; [done|].
      destruct (ipnet_parse p) as [n|]; [by simplify_eq; apply Is_true_true|].
      destruct (parse_ip p); simplify_eq/=. by apply bool_decide_unpack in Hc as ->.
    + intros (p & Hp & Hc). destruct (ipnet_parse p) as [n|] eqn:En.
      * exists (Network n). split; [|by apply Is_true_true]. apply list_elem_of_omap. exists p. by rewrite En.
      * exists (Address ip). split; [|by apply bool_decide_pack]. apply list_elem_of_omap. exists p. by rewrite En, Hc.
  - destruct (domains_contains_spec (filter (fun p => ipnet_parse p = None /\ parse_ip p = None) (listed l)) (bare_host host))
      as (b & -> & Hb). exists b. split; [done|]. rewrite Hb. setoid_rewrite list_elem_of_filter. naive_solver.
Qed.

(** ** Proxy URLs *)

(** Parsing a proxy URL panics exactly for the SOCKS 4 schemes with a password
    in the URL, once the proxy's address is resolved. *)
Theorem proxy_url_panics url :
  scheme_parse url = None <->
  is_Some (url_password url) /\ (url_scheme url = bs "socks4" \/ url_scheme url = bs "socks4a") /\
  exists a, to_addr url = Ok a.
Proof.
  unfold scheme_parse. cbv zeta. split.
  - unfold scheme_http, scheme_https, on_ok.
    repeat (case_bool_decide || case_match); intros; simplify_eq/=; split_and!; eauto.
  - intros ([pwd Hp] & Hs & a & Ha). rewrite Hp, Ha. cbn [on_ok]. destruct Hs as [-> | ->]; reflexivity.
Qed.

(** ** The environment *)

Context (env : bytes -> option bytes).

(** The proxy a variable names, if it names one. *)
Definition named (var : string) : option ProxyScheme :=
  v ← env (bs var);
  if bool_decide (trim v = []) then None
  else match into_proxy_scheme v with Some (Ok s) => Some s | _ => None end.

Fixpoint first_named (vars : list string) : option ProxyScheme :=
  match vars with [] => None | v :: vars => match named v with Some s => Some s | None => first_named vars end end.

Lemma insert_from_env_spec m scheme var b m' :
  insert_from_env env m scheme var = Some (b, m') ->
  b = match named var with Some _ => true | None => false end /\
  m' = match named var with Some s => <[bs scheme := s]> m | None => m end.
Proof.
  unfold insert_from_env, insert_proxy, named. destruct (env (bs var)) as [v|]; cbn [mbind option_bind].
  - repeat case_match; intros; by simplify_eq/=.
  - intros. by simplify_eq.
Qed.

(** The proxies of the environment: for http, the first of HTTP_PROXY,
    http_proxy, ALL_PROXY and all_proxy that names a usable proxy, but neither of
    the first two inside a CGI program (where the client of the web server controls
    HTTP_PROXY); for https, likewise with HTTPS_PROXY; nothing else. *)
Theorem environment_proxies m :
  get_from_environment env = Some m ->
  m !! bs "http" = first_named (if is_cgi env then ["ALL_PROXY"; "all_proxy"] else ["HTTP_PROXY"; "http_proxy"; "ALL_PROXY"; "all_proxy"])%string /\
  m !! bs "https" = first_named ["HTTPS_PROXY"; "https_proxy"; "ALL_PROXY"; "all_proxy"]%string /\
  forall k, k <> bs "http" -> k <> bs "https" -> m !! k = None.
Proof.
  assert (bs "http" <> bs "https") as Hne by (vm_compute; discriminate).
  unfold get_from_environment. intros Hm. cbn [first_named].
  repeat match type of Hm with
  | context [insert_from_env env ?x ?s ?v] =>
      let E := fresh "E" in
      destruct (insert_from_env env x s v) as [[? ?]|] eqn:E; cbn [mbind option_bind] in Hm; [|done];
      apply insert_from_env_spec in E as [-> ->]; destruct (named v) eqn:?; cbn [mbind option_bind] in Hm
  | context [if is_cgi env then _ else _] => destruct (is_cgi env); cbn [mbind option_bind] in Hm
  end; simplify_eq; cbn [first_named];
  repeat match goal with Hn : named _ = _ |- _ => rewrite Hn end; (split_and!; [..|intros k Hk1 Hk2]); by simplify_map_eq.
Qed.
End ProxyProps.

(** ** The properties at concrete inputs *)

(** URLs of the form scheme://[user[:password]@]host[:port][path]; the functions
    of the codecs and networks the examples need. *)
Module RefUrl.
Import RefHttp.

Record url := mkUrl {
  u_scheme : bytes; u_user : bytes; u_pass : option bytes; u_host : bytes; u_port : option Z; u_path : bytes
}.

Definition cut (pat s : bytes) : option (bytes * bytes) :=
  i ← find_sub pat s; Some (ztake i s, zdrop (i + len pat) s).

Definition parse_port (s : bytes) : option Z := acc_digits 10 dec_digit 0 s.

Definition parse_authority (scheme s path : bytes) : result url UrlParseError :=
  let '(user, pass, hp) :=
    match cut (bs "@") s with
    | Some (info, hp) => match cut (bs ":") info with Some (u, p) => (u, Some p, hp) | None => (info, None, hp) end
    | None => ([], None, s)
    end in
  match cut (bs ":") hp with
  | Some (h, p) => match parse_port p with Some n => Ok (mkUrl scheme user pass h (Some n) path) | None => Err OtherParseError end
  | None => Ok (mkUrl scheme user pass hp None path)
  end.

Definition parse (s : bytes) : result url UrlParseError :=
  match cut (bs "://") s with
  | None => Err RelativeUrlWithoutBase
  | Some (scheme, rest) =>
      match cut (bs "/") rest with
      | Some (a, path) => parse_authority scheme a (bs "/" ++ path)
      | None => parse_authority scheme rest (bs "/")
      end
  end.

Definition host_port (u : url) : bytes := u_host u ++ match u_port u with Some p => bs ":" ++ fmt_dec p | None => [] end.
Definition as_str (u : url) : bytes :=
  u_scheme u ++ bs "://" ++
  (match u_user u, u_pass u with [], None => [] | us, Some p => us ++ bs ":" ++ p ++ bs "@" | us, None => us ++ bs "@" end) ++
  host_port u ++ u_path u.

#[export] Instance ref_url : UrlCrate url := {|
  url_parse := parse;
  url_as_str := as_str;
  url_scheme := u_scheme;
  url_has_host := fun u => negb (bool_decide (u_host u = []));
  url_host_str := fun u => Some (u_host u);
  url_port := u_port;
  url_port_or_known_default := fun u =>
    match u_port u with
    | Some p => Some p
    | None => if bool_decide (u_scheme u = bs "http") then Some 80 else if bool_decide (u_scheme u = bs "https") then Some 443 else None
    end;
  url_username := u_user;
  url_password := u_pass;
  url_host_port := host_port;
  url_join := fun u s =>
    match parse s with
    | Ok v => Some v
    | Err _ => Some (mkUrl (u_scheme u) (u_user u) (u_pass u) (u_host u) (u_port u) s)
    end;
  url_set_username := fun s u => mkUrl (u_scheme u) s (u_pass u) (u_host u) (u_port u) (u_path u);
  url_set_password := fun p u => mkUrl (u_scheme u) (u_user u) p (u_host u) (u_port u) (u_path u);
  url_set_fragment := fun _ u => u;
  url_socket_addrs := fun u d =>
    match u_port u, d with
    | Some p, _ | None, Some p => Ok [mkSocketAddr (V4 [127; 0; 0; 1]) p]
    | None, None => Ok []
    end
|}.

(** A network is an IPv4 address with a number of leading octets. *)
#[export] Instance ref_crates : ProxyCrates := {|
  IpNet := bytes * Z;
  ipnet_parse := fun s =>
    match cut (bs "/") s with
    | Some (a, l) => match parse_ip a, parse_port l with Some (V4 o), Some n => Some (o, n / 8) | _, _ => None end
    | None => None
    end;
  ipnet_contains := fun n ip => match ip with V4 o => bool_decide (ztake n.2 o = ztake n.2 n.1) | V6 _ => false end;
  Authority := bytes;
  authority_parse := fun s => if bool_decide (s = []) then None else Some s;
  base64 := fun s => s;
  percent_decode_lossy := fun s => s
|}.

#[export] Instance ref_dst : Dst url := {| dst_scheme := u_scheme; dst_host := u_host; dst_port := u_port |}.

Definition parse_or (s : string) : url := match parse (bs s) with Ok u => u | Err _ => mkUrl [] [] None [] None [] end.

Definition google_list : bytes := bs "google.com, 192.168.1.0/24".

Definition google_np : NoProxy := default no_proxy_default (from_string google_list).

Lemma no_proxy_excludes_witness :
  map (no_proxy_contains google_np) [bs "www.google.com"; bs "notgoogle.com"; bs "192.168.1.42"; bs "192.168.2.1"] =
  [Some true; Some false; Some true; Some false] /\
  exists p, p ∈ listed google_list /\ (covers p (bs "www.google.com") \/ wildcard p (bs "www.google.com")).
Proof.
  split; [vm_compute; reflexivity|].
  destruct (no_proxy_excludes google_list google_np (bs "www.google.com")) as (b & Hb & He); [reflexivity|].
  assert (Some b = Some true) as [= ->] by (rewrite <- Hb; vm_compute; reflexivity).
  destruct (proj1 He eq_refl) as (p & Hp & _ & _ & Hc). exists p. split; [exact Hp|exact Hc].
Defined.

(** The wildcard does not exclude an address nor a name that ends in a star; a list of
    empty entries excludes a name that ends in a dot. *)
Lemma no_proxy_corners :
  map (fun h => np ← from_string (bs "*"); no_proxy_contains np h) [bs "a.b"; bs "10.0.0.1"; bs "foo*"] = [Some true; Some false; Some false] /\
  map (fun h => np ← from_string (bs ","); no_proxy_contains np h) [bs "hyper.rs"; bs "hyper.rs."] = [Some false; Some true].
Proof. split; vm_compute; reflexivity. Qed.

Definition ex_env (v : bytes) : option bytes :=
  if bool_decide (v = bs "HTTP_PROXY") then Some (bs "a.b:3128")
  else if bool_decide (v = bs "all_proxy") then Some (bs "socks5://c.d")
  else None.

Lemma environment_proxies_witness :
  exists m, get_from_environment ex_env = Some m /\
    m !! bs "http" = Some (PHttp None (bs "a.b:3128") None) /\
    m !! bs "https" = Some (PSocks5 (mkSocketAddr (V4 [127; 0; 0; 1]) 1080) None false).
Proof.
  assert (match get_from_environment ex_env with Some _ => true | None => false end = true) as Hs by (vm_compute; reflexivity).
  destruct (get_from_environment ex_env) as [m|] eqn:E; [|discriminate Hs].
  exists m. split; [reflexivity|]. destruct (environment_proxies ex_env m E) as (-> & -> & _). split; reflexivity.
Defined.
End RefUrl.
