(* ===== verification/Request.v ===== *)
(** * Requests for the core client (src/src/core/client/request.rs,
      src/src/client/body.rs, src/src/config.rs)

    The request body of the high-level client, the builder that turns method, URI,
    headers and body into the request the core client sends, and the settings a
    request carries in its extensions. *)

From S2P Require Import Prelude Buf Http Models Error Dispatcher DispatcherFacts.

(** ** [Body] (src/src/client/body.rs) *)

Module ClientBody.
Section ClientBody.
Context `{HttpCrate} {S : Type} {sb : Body S bytes HeaderMap}.

Inductive Body := Reusable (b : bytes) | Streaming (s : S).

Definition reusable (chunk : bytes) : Body := Reusable chunk.
Definition empty : Body := reusable [].
Definition as_bytes (b : Body) : option bytes := match b with Reusable x => Some x | Streaming _ => None end.
Definition try_reuse (b : Body) : option bytes * Body :=
  (match b with Reusable chunk => Some chunk | Streaming _ => None end, b).
Definition try_clone (b : Body) : option Body :=
  match b with Reusable chunk => Some (reusable chunk) | Streaming _ => None end.
Definition content_length (b : Body) : option Z :=
  match b with Reusable x => Some (len x) | Streaming s => body_size_exact s end.

(** [HttpBody for Body]; [split_off(0)] takes everything. *)
Definition poll_frame (b : Body) : poll_res Error.Cause (option (BodyFrame bytes HeaderMap)) * Body :=
  match b with
  | Reusable x => (RVal (match x with [] => None | _ => Some (DataFrame x) end), Reusable [])
  | Streaming s => let '(r, s) := body_poll_frame s in (r, Streaming s)
  end.
Definition is_end_stream (b : Body) : bool :=
  match b with Reusable x => bool_decide (x = []) | Streaming s => body_is_end_stream s end.
Definition size_hint (b : Body) : option Z :=
  match b with Reusable x => Some (len x) | Streaming s => body_size_exact s end.

#[export] Instance client_body : Dispatcher.Body Body bytes HeaderMap := {|
  body_poll_frame := poll_frame;
  body_is_end_stream := is_end_stream;
  body_size_exact := size_hint
|}.

End ClientBody.

(** The dispatcher's theorems hold for these bodies if they do for the streams. *)
Section ClientBodyLaws.
Context {BC : BytesCrate} {BCL : BytesCrateLaws} {HC : HttpCrate}.
Context {S : Type} {sb : Dispatcher.Body S bytes HeaderMap} {sbl : BodyLaws S bytes}.

Definition client_left (b : Body (S := S)) : Z :=
  match b with Reusable [] => 0 | Reusable x => len x + 30 | Streaming s => body_left (Bs := S) (B := bytes) s end.

#[export] Instance client_body_laws : BodyLaws Body bytes.
Proof.
  refine {| body_ok := fun b => match b with Reusable x => len x <= u64_max | Streaming s => body_ok (Bs := S) (B := bytes) s end;
            body_left := client_left |}.
  - intros [[|x l]|s]; cbn [client_left]; [done|len_lia|apply (body_left_nonneg (B := bytes))].
  - intros [x|s] n Hb; cbn; [intros [= <-]; split; [apply len_nonneg|done]|by apply (body_size_ok (B := bytes))].
  - intros [[|x l]|s] Hb; cbn [body_poll_frame client_body poll_frame]; [done| |].
    + rewrite slice_content. split; [by vm_compute|]. split; [apply slice_wf|]. cbn [client_left]. lia.
    + pose proof (body_frame_ok (B := bytes) s Hb) as Hf. by destruct (body_poll_frame s) as [[[[]|]| | | |] s'].
Defined.
End ClientBodyLaws.
End ClientBody.

(** ** Settings in the extensions (src/src/config.rs)

    The extensions of the http crate hold one value per type; the settings of a
    request are all of the type [RequestConfig<RequestTimeout>], so one slot. *)

Module RequestConfig.
Class ExtensionsCrate (Ext : Type) := {
  ext_get_timeout : Ext -> option (option Z);
  ext_insert_timeout : option Z -> Ext -> Ext
}.
Class ExtensionsLaws (Ext : Type) `{ExtensionsCrate Ext} := {
  ext_get_insert v e : ext_get_timeout (ext_insert_timeout v e) = Some v
}.

Section RequestConfig.
Context {Ext : Type} `{ExtensionsCrate Ext}.

(** [RequestConfig::fetch] on the client's own value. *)
Definition fetch (client : option Z) (ext : Ext) : option Z :=
  match (match ext_get_timeout ext with Some v => v | None => None end) with Some v => Some v | None => client end.
(** [RequestConfig::get] *)
Definition get (ext : Ext) : option Z := match ext_get_timeout ext with Some v => v | None => None end.
(** Assignment through [RequestConfig::get_mut]. *)
Definition set (v : option Z) (ext : Ext) : Ext := ext_insert_timeout v ext.

(** [Request::timeout_mut] and [Request::read_timeout_mut] (src/src/client/request.rs) *)
Definition set_timeout (v : Z) : Ext -> Ext := set (Some v).
Definition set_read_timeout (v : Z) : Ext -> Ext := set (Some v).
Definition timeout : Ext -> option Z := get.
Definition read_timeout : Ext -> option Z := get.
End RequestConfig.
End RequestConfig.

(** ** [InnerRequest] and its builder *)

Module InnerRequest.
Import ClientBody.

Section InnerRequest.
Context `{HttpCrate} {S : Type} {sb : Dispatcher.Body S bytes HeaderMap}.
Context {Uri Ext NetworkScheme : Type} (network_default : NetworkScheme).

Record InnerRequest := mkInnerRequest {
  ir_method : Method;
  ir_uri : Uri;
  ir_headers : HeaderMap;
  ir_extensions : Ext;
  ir_body : Body (S := S);
  ir_version : option Version;
  ir_network_scheme : NetworkScheme
}.

(** The http crate's builder holds the parts as long as nothing failed to
    convert ([None] otherwise); [uri] and [method] are given converted. *)
Record Parts := mkParts { pt_method : Method; pt_uri : Uri; pt_headers : HeaderMap; pt_extensions : Ext }.
Record InnerRequestBuilder := mkBuilder {
  rb_parts : option Parts;
  rb_version : option Version;
  rb_network_scheme : NetworkScheme;
  rb_headers_order : option (list HeaderName)
}.

Definition builder (root : Uri) (no_ext : Ext) : InnerRequestBuilder :=
  mkBuilder (Some (mkParts GET root hm_new no_ext)) None network_default None.

Definition on_parts (f : Parts -> Parts) (b : InnerRequestBuilder) : InnerRequestBuilder :=
  mkBuilder (f <$> rb_parts b) (rb_version b) (rb_network_scheme b) (rb_headers_order b).

Definition rb_method (m : Method) : InnerRequestBuilder -> InnerRequestBuilder :=
  on_parts (fun p => mkParts m (pt_uri p) (pt_headers p) (pt_extensions p)).
Definition rb_uri (u : Uri) : InnerRequestBuilder -> InnerRequestBuilder :=
  on_parts (fun p => mkParts (pt_method p) u (pt_headers p) (pt_extensions p)).
Definition rb_headers (h : HeaderMap) : InnerRequestBuilder -> InnerRequestBuilder :=
  on_parts (fun p => mkParts (pt_method p) (pt_uri p) h (pt_extensions p)).
Definition rb_extensions (e : Ext) : InnerRequestBuilder -> InnerRequestBuilder :=
  on_parts (fun p => mkParts (pt_method p) (pt_uri p) (pt_headers p) e).
Definition rb_set_version (v : option Version) (b : InnerRequestBuilder) : InnerRequestBuilder :=
  match v with
  | Some v => mkBuilder (rb_parts b) (Some v) (rb_network_scheme b) (rb_headers_order b)
  | None => b
  end.
Definition rb_set_headers_order (o : option (list HeaderName)) (b : InnerRequestBuilder) : InnerRequestBuilder :=
  mkBuilder (rb_parts b) (rb_version b) (rb_network_scheme b) o.
Definition rb_set_network_scheme (n : NetworkScheme) (b : InnerRequestBuilder) : InnerRequestBuilder :=
  mkBuilder (rb_parts b) (rb_version b) n (rb_headers_order b).

Definition method_has_defined_payload_semantics (m : Method) : bool :=
  negb (existsb (fun x => bool_decide (m = x)) [GET; HEAD; DELETE; CONNECT]).

Definition set_content_length_if_missing (m : Method) (body : Body (S := S)) (h : HeaderMap) : HeaderMap :=
  match size_hint body with
  | Some n =>
      if negb (n =? 0) || method_has_defined_payload_semantics m then
        if contains_key CONTENT_LENGTH h then h else hm_insert CONTENT_LENGTH (hv_from_u64 n) h
      else h
  | None => h
  end.

(** The two loops of [sort_headers]: the ordered names, then what is left, as it
    is drained. *)
Fixpoint take_ordered (order : list HeaderName) (h sorted : HeaderMap) : HeaderMap * HeaderMap :=
  match order with
  | [] => (h, sorted)
  | name :: order =>
      take_ordered order (hm_remove name h) (foldl (fun s v => hm_append name v s) sorted (hm_get_all name h))
  end.
Definition drain_into (l : list (option HeaderName * HeaderValue)) (sorted : HeaderMap) : HeaderMap :=
  foldl (fun s '(k, v) => match k with Some k => hm_append k v s | None => s end) sorted l.

Definition sort_headers (order : list HeaderName) (h : HeaderMap) : HeaderMap :=
  if len (hm_iter h) <=? 1 then h
  else let '(rest, sorted) := take_ordered order h hm_new in drain_into (hm_into_iter rest) sorted.

(** [InnerRequestBuilder::body] *)
Definition rb_body (body : Body (S := S)) (b : InnerRequestBuilder) : option InnerRequest :=
  match rb_parts b with
  | None => None
  | Some p =>
      let h := set_content_length_if_missing (pt_method p) body (pt_headers p) in
      let h := match rb_headers_order b with Some order => sort_headers order h | None => h end in
      Some (mkInnerRequest (pt_method p) (pt_uri p) h (pt_extensions p) body (rb_version b) (rb_network_scheme b))
  end.
End InnerRequest.

(** ** What sorting keeps *)

Section SortFacts.
Context `{HttpLaws}.

Lemma get_all_appends k name vs h :
  hm_get_all k (foldl (fun s v => hm_append name v s) h vs) =
  hm_get_all k h ++ if decide (k = name) then vs else [].
Proof.
  revert h. induction vs as [|v vs IH]; intros h; cbn [foldl]; [case_decide; by rewrite app_nil_r|]. rewrite IH.
  destruct (decide (k = name)) as [->|]; [by rewrite get_all_append_eq, <- app_assoc|by rewrite get_all_append_ne].
Qed.

Lemma take_ordered_get order h sorted k :
  let '(rest, sorted') := take_ordered order h sorted in
  hm_get_all k rest = (if decide (k ∈ order) then [] else hm_get_all k h) /\
  hm_get_all k sorted' = hm_get_all k sorted ++ if decide (k ∈ order) then hm_get_all k h else [].
Proof.
  revert h sorted. induction order as [|name order IH]; intros h sorted; cbn [take_ordered].
  { rewrite decide_False by set_solver. by rewrite app_nil_r. }
  specialize (IH (hm_remove name h) (foldl (fun s v => hm_append name v s) sorted (hm_get_all name h))).
  destruct (take_ordered order _ _) as [rest sorted']. destruct IH as [-> ->]. rewrite get_all_appends.
  destruct (decide (k = name)) as [->|Hne].
  - rewrite get_all_remove_eq, (decide_True (P := name ∈ name :: order)) by left. split; [by case_decide|].
    rewrite (decide_True (P := name ∈ name :: order)) by left. case_decide; by rewrite app_nil_r.
  - rewrite get_all_remove_ne by done. rewrite app_nil_r.
    by split; [|f_equal]; apply decide_ext; rewrite elem_of_cons; naive_solver.
Qed.

(** The values of a name in what the draining iterator yields. *)
Lemma drain_into_get l h k :
  hm_get_all k (drain_into l h) = hm_get_all k h ++ (filter (fun kv => kv.1 = Some k) l).*2.
Proof.
  revert h. induction l as [|[[n|] v] l IH]; intros h; cbn [drain_into foldl]; [by rewrite app_nil_r|..];
    fold (drain_into l); rewrite filter_cons; cbn [fst].
  - unfold drain_into in IH. rewrite IH. case_decide as Hn.
    + simplify_eq. by rewrite get_all_append_eq, <- app_assoc.
    + rewrite get_all_append_ne; [done|]. congruence.
  - rewrite decide_False by done. apply IH.
Qed.

(** Only the first value of a name comes with the name. *)
Lemma unnamed_values (l : list (option HeaderName * HeaderValue)) k :
  k ∉ omap fst l -> (filter (fun kv => kv.1 = Some k) l).*2 = [].
Proof.
  induction l as [|[[n|] v] l IH]; intros Hk; [done|..]; rewrite filter_cons; cbn in *.
  - rewrite decide_False by (intros [= ->]; set_solver). apply IH. set_solver.
  - rewrite decide_False by done. by apply IH.
Qed.

Lemma named_values l cur ps k :
  fill_names cur l = Some ps -> NoDup (omap fst l) -> cur <> Some k ->
  (filter (fun kv => kv.1 = Some k) l).*2 = take 1 ((filter (fun kv => kv.1 = k) ps).*2).
Proof.
  revert cur ps. induction l as [|[on v] l IH]; intros cur ps Hf Hnd Hc; cbn in Hf; [by simplify_eq|].
  destruct on as [n|]; cbn in Hnd; [|destruct cur as [n|]; [|done]]; cbn in Hf;
    (destruct (fill_names (Some n) l) as [rest|] eqn:Er; [|done]); cbn in Hf; simplify_eq;
    rewrite !filter_cons; cbn [fst snd].
  - apply NoDup_cons in Hnd as [Hn Hnd]. destruct (decide (n = k)) as [->|Hne].
    + rewrite decide_True by done. cbn. by rewrite unnamed_values.
    + rewrite decide_False by congruence. apply (IH (Some n) rest Er Hnd). congruence.
  - rewrite decide_False by done. rewrite decide_False by congruence. by apply (IH (Some n) rest).
Qed.

(** Sorting keeps every value of the names in the given order, and drops all
    but the first value of every other name. *)
Theorem sort_headers_values order h k :
  2 <= len (hm_iter h) ->
  hm_get_all k (sort_headers order h) = if decide (k ∈ order) then hm_get_all k h else take 1 (hm_get_all k h).
Proof.
  intros Hl. unfold sort_headers. rewrite (proj2 (Z.leb_gt _ _)) by lia.
  pose proof (take_ordered_get order h hm_new k) as Ht. destruct (take_ordered order h hm_new) as [rest sorted].
  destruct Ht as [Hr Hs]. rewrite drain_into_get, Hs, get_all_new.
  rewrite (named_values _ None _ k (into_iter_iter rest) (into_iter_names rest)), <- iter_get_all, Hr by done.
  case_decide; cbn; by rewrite ?app_nil_r.
Qed.
End SortFacts.

(** ** The properties at concrete inputs *)
Import RefHttp.

Definition two_cookies : HeaderMap := [(HOST, bs "a.b"); (COOKIE, bs "x=1"); (COOKIE, bs "y=2")].

Lemma sort_headers_values_witness : hm_get_all COOKIE (sort_headers [HOST] two_cookies) = [bs "x=1"].
Proof.
  rewrite (sort_headers_values [HOST] two_cookies COOKIE).
  - reflexivity.
  - vm_compute. discriminate.
Defined.
End InnerRequest.

(** A request has one timeout: setting the read timeout of a request also
    replaces its total timeout, and the other way round. *)
Lemma request_timeouts_share {Ext} `{RequestConfig.ExtensionsLaws Ext} total read total' read' (e : Ext) :
  let e' := RequestConfig.set_read_timeout read (RequestConfig.set_timeout total e) in
  RequestConfig.timeout e' = Some read /\ RequestConfig.fetch total' e' = Some read /\ RequestConfig.fetch read' e' = Some read.
Proof.
  cbv zeta. unfold RequestConfig.set_read_timeout, RequestConfig.set_timeout, RequestConfig.timeout, RequestConfig.fetch,
    RequestConfig.get, RequestConfig.set. by rewrite RequestConfig.ext_get_insert.
Qed.
