(* ===== verification/Pending.v ===== *)
(** * Requests of the high-level client (src/src/client/client.rs, src/src/redirect.rs)

    [execute_request] turns a request into a pending one: default headers, cookies,
    proxy credentials, the network scheme; polling it sends it through the core
    client, follows redirects by the client's policy and retries what HTTP/2 allows
    to be retried.  The core client and the cookie store are interfaces. *)

From S2P Require Import Prelude Buf Http Error Dispatcher Io Net Socks Tunnel Proxy Request.
Import Proxy Network ClientBody InnerRequest.

(** ** Headers and statuses *)

Definition LOCATION : HeaderName := bs "location".
Definition REFERER : HeaderName := bs "referer".
Definition COOKIE2 : HeaderName := bs "cookie2".
Definition ACCEPT_ENCODING : HeaderName := bs "accept-encoding".
Definition RANGE : HeaderName := bs "range".

(** ** Redirect policies (src/src/redirect.rs) *)

Module Redirect.
Section Redirect.
Context `{HttpCrate} {Url : Type} `{UrlCrate Url} {PErr : Type}.

Inductive RedirectError := TooManyRedirects | CustomError (e : PErr).
Inductive ActionKind := Follow | Stop | ActionError (e : RedirectError).

Record Attempt := mkAttempt {
  at_status : StatusCode;
  at_next_method : Method;
  at_next : Url;
  at_previous_method : Method;
  at_previous : list Url
}.

Inductive Policy := Custom (f : Attempt -> ActionKind) | Limit (max : Z) | NoRedirect.
Definition limited (max : Z) : Policy := Limit max.
Definition policy_default : Policy := limited 10.

Definition redirect (p : Policy) (a : Attempt) : ActionKind :=
  match p with
  | Custom f => f a
  | Limit max => if max <? len (at_previous a) then ActionError TooManyRedirects else Follow
  | NoRedirect => Stop
  end.

Definition check (p : Policy) (status : StatusCode) (next_method : Method) (next : Url)
    (previous_method : Method) (previous : list Url) : ActionKind :=
  redirect p (mkAttempt status next_method next previous_method previous).

(** Another host or port than [previous]. *)
Definition cross_host (next previous : Url) : bool :=
  negb (bool_decide (url_host_str next = url_host_str previous)) ||
  negb (bool_decide (url_port_or_known_default next = url_port_or_known_default previous)).

Definition remove_sensitive_headers (next : Url) (previous : list Url) (h : HeaderMap) : HeaderMap :=
  match last previous with
  | Some prev =>
      if cross_host next prev then
        hm_remove WWW_AUTHENTICATE (hm_remove PROXY_AUTHORIZATION (hm_remove COOKIE2 (hm_remove COOKIE (hm_remove AUTHORIZATION h))))
      else h
  | None => h
  end.
End Redirect.
Arguments RedirectError : clear implicits.
Arguments ActionKind : clear implicits.
Arguments Policy _ _ : clear implicits.
End Redirect.
Import Redirect.

(** ** The core client's errors, as far as a retry looks into them *)

Record H2Error := mkH2Error { is_go_away : bool; is_reset : bool; is_remote : bool; reason : option Z }.
Definition NO_ERROR : Z := 0.
Definition REFUSED_STREAM : Z := 7.

(** The chain of sources: the error, what it wraps, and an HTTP/2 error below. *)
Record SourceError := mkSourceError { se_cause : option (option H2Error) }.
Record HyperError := mkHyperError { he_source : option SourceError }.

Definition is_retryable_error (err : HyperError) : bool :=
  match he_source err with
  | None => false
  | Some err =>
      match se_cause err with
      | Some (Some e) =>
          is_go_away e && is_remote e && bool_decide (reason e = Some NO_ERROR) ||
          is_reset e && is_remote e && bool_decide (reason e = Some REFUSED_STREAM)
      | _ => false
      end
  end.

Module Pending.
Section Pending.
Context `{HttpCrate} {HX : HttpExtend} `{ProxyCrates} {Url : Type} `{UrlCrate Url}.
Context {S : Type} {sb : Dispatcher.Body S bytes HeaderMap} {PErr Uri Ext : Type} {EC : RequestConfig.ExtensionsCrate Ext} {DU : Dst Uri}.
(** [Uri]'s parser, its default, and whether its scheme is HTTP; [HeaderValue]'s
    parser; no extensions. *)
Context (uri_parse : bytes -> option Uri) (uri_root : Uri) (uri_is_http : Uri -> bool).
Context (hv_from_str : bytes -> option HeaderValue) (no_ext : Ext).

Abbreviation Req := (InnerRequest (S := S) (Uri := Uri) (Ext := Ext) (NetworkScheme := NetworkScheme)).

Record HResponse := mkHResponse { rs_status : StatusCode; rs_headers : HeaderMap }.

(** The rest of the world: the core client, the cookie store and the clock. *)
Class World (W Fut : Type) := {
  hy_request : Req -> W -> Fut * W;
  hy_poll : Fut -> W -> poll_res HyperError HResponse * Fut * W;
  set_cookies : list HeaderValue -> Url -> W -> W;
  cookies : Url -> W -> option (list HeaderValue);
  now : W -> Z
}.

Context {W Fut : Type} {HW : World W Fut}.

(** ** Errors (src/src/error.rs) *)

Inductive Kind := KBuilder | KRequest | KRedirect.
Inductive Source :=
| TimedOut
| BadScheme
| Text (s : string)
| Hyper (e : HyperError)
| Policy_ (e : RedirectError PErr)
| Nested (k : Kind) (s : Source) (u : option Url).
Record ReqError := mkReqError { re_kind : Kind; re_source : Source; re_url : option Url }.

Definition err_request (s : Source) : ReqError := mkReqError KRequest s None.
Definition err_builder (s : Source) : ReqError := mkReqError KBuilder s None.
Definition with_url (u : Url) (e : ReqError) : ReqError := mkReqError (re_kind e) (re_source e) (Some u).
Definition err_redirect (s : Source) (u : Url) : ReqError := mkReqError KRedirect s (Some u).
Definition url_bad_scheme (u : Url) : ReqError := mkReqError KBuilder BadScheme (Some u).
Definition url_bad_uri (u : Url) : ReqError := mkReqError KBuilder (Text "url is not a valid uri") (Some u).

Definition try_uri (u : Url) : option Uri := uri_parse (url_as_str u).

(** ** [ClientRef] *)

Record ClientRef := mkClientRef {
  c_accepts : option bytes;
  c_cookie_store : bool;
  c_headers : HeaderMap;
  c_headers_order : option (list HeaderName);
  c_redirect : Policy Url PErr;
  c_referer : bool;
  c_total_timeout : option Z;
  c_read_timeout : option Z;
  c_https_only : bool;
  c_http2_max_retry_count : Z;
  c_proxies : list (Proxy (Url := Url));
  c_proxies_maybe_http_auth : bool;
  c_network_scheme : NetworkSchemeBuilder
}.

(** The loop of [proxy_auth]: the first proxy that matches. *)
Fixpoint auth_from (ps : list (Proxy (Url := Url))) (dst : Uri) (h : HeaderMap) : option HeaderMap :=
  match ps with
  | [] => Some h
  | p :: ps =>
      m ← is_match p dst;
      if m : bool then
        auth ← http_basic_auth p dst;
        let h := match auth with Some v => hm_insert PROXY_AUTHORIZATION v h | None => h end in
        Some (match http_headers p with Some more => hm_extend h more | None => h end)
      else auth_from ps dst h
  end.

Definition proxy_auth (c : ClientRef) (dst : Uri) (h : HeaderMap) : option HeaderMap :=
  if negb (c_proxies_maybe_http_auth c) then Some h
  else if negb (uri_is_http dst) then Some h
  else if contains_key PROXY_AUTHORIZATION h then Some h
  else auth_from (c_proxies c) dst h.

Fixpoint intercept_all (ps : list (Proxy (Url := Url))) (uri : Uri) (b : NetworkSchemeBuilder) : option NetworkSchemeBuilder :=
  match ps with
  | [] => Some b
  | p :: ps =>
      s ← intercept p uri;
      intercept_all ps uri (match s with Some s => nb_set_proxy_scheme (Some s) b | None => b end)
  end.

Definition network_scheme (c : ClientRef) (uri : Uri) (default : NetworkScheme) : option NetworkScheme :=
  match default with
  | Default => b ← intercept_all (c_proxies c) uri (c_network_scheme c); Some (nb_build b)
  | s => Some s
  end.

(** ** [PendingRequest] *)

Record PendingRequest := mkPending {
  p_method : Method;
  p_url : Url;
  p_headers : HeaderMap;
  p_headers_order : option (list HeaderName);
  p_body : option (option bytes);
  p_version : option Version;
  p_extensions : Ext;
  p_urls : list Url;
  p_retry_count : Z;
  p_max_retry_count : Z;
  p_redirect : option (Policy Url PErr);
  p_network_scheme : NetworkScheme;
  p_client : ClientRef;
  p_in_flight : Fut;
  p_total_timeout : option Z;
  p_read_timeout_fut : option Z;
  p_read_timeout : option Z
}.

Definition set_request (m : Method) (u : Url) (h : HeaderMap) (b : option (option bytes)) (us : list Url) (p : PendingRequest) : PendingRequest :=
  mkPending m u h (p_headers_order p) b (p_version p) (p_extensions p) us (p_retry_count p) (p_max_retry_count p)
    (p_redirect p) (p_network_scheme p) (p_client p) (p_in_flight p) (p_total_timeout p) (p_read_timeout_fut p) (p_read_timeout p).
Definition set_in_flight (f : Fut) (p : PendingRequest) : PendingRequest :=
  mkPending (p_method p) (p_url p) (p_headers p) (p_headers_order p) (p_body p) (p_version p) (p_extensions p) (p_urls p)
    (p_retry_count p) (p_max_retry_count p) (p_redirect p) (p_network_scheme p) (p_client p) f (p_total_timeout p)
    (p_read_timeout_fut p) (p_read_timeout p).
Definition set_retry_count (n : Z) (p : PendingRequest) : PendingRequest :=
  mkPending (p_method p) (p_url p) (p_headers p) (p_headers_order p) (p_body p) (p_version p) (p_extensions p) (p_urls p)
    n (p_max_retry_count p) (p_redirect p) (p_network_scheme p) (p_client p) (p_in_flight p) (p_total_timeout p)
    (p_read_timeout_fut p) (p_read_timeout p).
Definition take_total_timeout (p : PendingRequest) : PendingRequest :=
  mkPending (p_method p) (p_url p) (p_headers p) (p_headers_order p) (p_body p) (p_version p) (p_extensions p) (p_urls p)
    (p_retry_count p) (p_max_retry_count p) (p_redirect p) (p_network_scheme p) (p_client p) (p_in_flight p) None
    (p_read_timeout_fut p) (p_read_timeout p).

(** The request a pending request stands for now. *)
Definition build_request (uri : Uri) (m : Method) (h : HeaderMap) (order : option (list HeaderName)) (v : option Version)
    (e : Ext) (n : NetworkScheme) (b : Body (S := S)) : option Req :=
  rb_body b (rb_set_network_scheme n (rb_extensions e (rb_set_version v (rb_set_headers_order order
    (rb_headers h (rb_method m (rb_uri uri (builder Default uri_root no_ext)))))))).

Definition send_request (p : PendingRequest) (uri : Uri) (h : HeaderMap) (b : Body (S := S)) (w : W) : option (Fut * W) :=
  match build_request uri (p_method p) h (p_headers_order p) (p_version p) (p_extensions p) (p_network_scheme p) b with
  | Some req => Some (hy_request req w)
  | None => None
  end.

Definition retry_error (err : HyperError) (p : PendingRequest) (w : W) : bool * PendingRequest * W :=
  if negb (is_retryable_error err) then (false, p, w)
  else match p_body p with
  | Some None => (false, p, w)
  | b =>
      let body := match b with Some (Some x) => reusable x | _ => empty end in
      if p_max_retry_count p <=? p_retry_count p then (false, p, w)
      else
        let p := set_retry_count (p_retry_count p + 1) p in
        match try_uri (p_url p) with
        | None => (false, p, w)
        | Some uri =>
            match send_request p uri (p_headers p) body w with
            | Some (f, w) => (true, set_in_flight f p, w)
            | None => (false, p, w)
            end
        end
  end.

Definition add_cookie_header (u : Url) (w : W) (h : HeaderMap) : HeaderMap :=
  match cookies u w with Some vs => foldl (fun h v => hm_append COOKIE v h) h vs | None => h end.

Definition add_accept_encoding_header (accepts : option bytes) (h : HeaderMap) : HeaderMap :=
  match accepts with
  | Some a => if negb (contains_key ACCEPT_ENCODING h) && negb (contains_key RANGE h) then hm_insert ACCEPT_ENCODING a h else h
  | None => h
  end.

Definition make_referer (next previous : Url) : option HeaderValue :=
  if bool_decide (url_scheme next = bs "http") && bool_decide (url_scheme previous = bs "https") then None
  else hv_from_str (url_as_str (url_set_fragment None (url_set_password None (url_set_username [] previous)))).

(** What a redirect status does to method, body and headers; the boolean:
    whether to follow. *)
Definition prepare_redirect (status : StatusCode) (p : PendingRequest) : bool * PendingRequest :=
  if existsb (Z.eqb status) [301; 302; 303] then
    let h := foldl (fun h n => hm_remove n h) (p_headers p) [TRANSFER_ENCODING; CONTENT_ENCODING; CONTENT_TYPE; CONTENT_LENGTH] in
    let m := if bool_decide (p_method p = GET) || bool_decide (p_method p = HEAD) then p_method p else GET in
    (true, set_request m (p_url p) h None (p_urls p) p)
  else if existsb (Z.eqb status) [307; 308] then
    (match p_body p with Some None => false | _ => true end, p)
  else (false, p).

Definition location (res : HResponse) (p : PendingRequest) : option Url :=
  val ← hm_get LOCATION (rs_headers res);
  loc ← (if is_utf8 val then url_join (p_url p) val else None);
  match try_uri loc with Some _ => Some loc | None => None end.

Definition scheme_allowed (s : bytes) : bool := bool_decide (s = bs "http") || bool_decide (s = bs "https").

(** The response handed to the user, with what is left of the timeouts. *)
Abbreviation Answer := (HResponse * Url * option Z * option Z)%type.

(** A turn either ends the poll or goes on. *)
Inductive Turn := Continue | Done (r : poll_res ReqError Answer).

Definition follow (loc : Url) (p : PendingRequest) (w : W) : Turn * PendingRequest * W :=
  if negb (scheme_allowed (url_scheme loc)) then (Done (RErr (url_bad_scheme loc)), p, w)
  else if c_https_only (p_client p) && negb (bool_decide (url_scheme loc = bs "https")) then
    (Done (RErr (err_redirect (Nested KBuilder BadScheme (Some loc)) loc)), p, w)
  else
    let headers := remove_sensitive_headers loc (p_urls p) (p_headers p) in
    let p := set_request (p_method p) loc hm_new (p_body p) (p_urls p) p in
    match try_uri loc with
    | None => (Done (RErr (url_bad_uri loc)), p, w)
    | Some uri =>
        let body := match p_body p with Some (Some x) => reusable x | _ => empty end in
        let headers := if c_cookie_store (p_client p) then add_cookie_header loc w headers else headers in
        match send_request p uri headers body w with
        | None => (Done (RErr (err_builder (Text "http error"))), p, w)
        | Some (f, w) => (Continue, set_in_flight f (set_request (p_method p) (p_url p) headers (p_body p) (p_urls p) p), w)
        end
    end.

Definition handle_response (res : HResponse) (p : PendingRequest) (w : W) : Turn * PendingRequest * W :=
  let w := if c_cookie_store (p_client p) then
             match hm_get_all SET_COOKIE (rs_headers res) with [] => w | vs => set_cookies vs (p_url p) w end
           else w in
  let previous_method := p_method p in
  let '(should_redirect, p) := prepare_redirect (rs_status res) p in
  let answer (p : PendingRequest) :=
    (Done (RVal (res, p_url p, p_total_timeout p, p_read_timeout p)), take_total_timeout p, w) in
  if should_redirect then
    match location res p with
    | None => answer p
    | Some loc =>
        let h := if c_referer (p_client p) then
                   match make_referer loc (p_url p) with Some r => hm_insert REFERER r (p_headers p) | None => p_headers p end
                 else p_headers p in
        let p := set_request (p_method p) (p_url p) h (p_body p) (p_urls p ++ [p_url p]) p in
        match check (default (c_redirect (p_client p)) (p_redirect p)) (rs_status res) (p_method p) loc previous_method (p_urls p) with
        | Follow => follow loc p w
        | Stop => answer p
        | ActionError e => (Done (RErr (err_redirect (Policy_ e) (p_url p))), p, w)
        end
    end
  else answer p.

Definition turn (p : PendingRequest) (w : W) : Turn * PendingRequest * W :=
  let '(r, f, w) := hy_poll (p_in_flight p) w in
  let p := set_in_flight f p in
  match r with
  | RErr e =>
      let '(again, p, w) := retry_error e p w in
      if again then (Continue, p, w) else (Done (RErr (with_url (p_url p) (err_request (Hyper e)))), p, w)
  | RVal res => handle_response res p w
  | RPending => (Done RPending, p, w)
  | RPanic => (Done RPanic, p, w)
  | RFuel => (Done RFuel, p, w)
  end.

Fixpoint poll_loop (n : nat) (p : PendingRequest) (w : W) : poll_res ReqError Answer * PendingRequest * W :=
  match n with
  | O => (RFuel, p, w)
  | Datatypes.S n =>
      match turn p w with
      | (Continue, p, w) => poll_loop n p w
      | (Done r, p, w) => (r, p, w)
      end
  end.

(** [Sleep::poll]: ready once its deadline has passed. *)
Definition elapsed (deadline : option Z) (w : W) : bool :=
  match deadline with Some d => d <=? now w | None => false end.

Definition poll (n : nat) (p : PendingRequest) (w : W) : poll_res ReqError Answer * PendingRequest * W :=
  if elapsed (p_total_timeout p) w || elapsed (p_read_timeout_fut p) w then
    (RErr (with_url (p_url p) (err_request TimedOut)), p, w)
  else poll_loop n p w.

(** ** [Pending]: a request under way, or the error it failed with at once *)

Inductive Pending := PRequest (p : PendingRequest) | PError (e : option ReqError).

Definition pending_poll (n : nat) (q : Pending) (w : W) : poll_res ReqError Answer * Pending * W :=
  match q with
  | PRequest p => let '(r, p, w) := poll n p w in (r, PRequest p, w)
  | PError e =>
      (RErr (default (err_request (Text "Pending error polled more than once")) e), PError None, w)
  end.

(** ** [Client::execute_request] *)

(** A [Request] of the user (src/src/client/request.rs), in pieces. *)
Record Request := mkRequest {
  rq_method : Method;
  rq_url : Url;
  rq_headers : HeaderMap;
  rq_headers_order : option (list HeaderName);
  rq_body : option (Body (S := S));
  rq_extensions : Ext;
  rq_version : option Version;
  rq_redirect : option (Policy Url PErr);
  rq_allow_compression : bool;
  rq_network_scheme : NetworkScheme
}.

Definition add_default_headers (defaults h : HeaderMap) : HeaderMap :=
  foldl (fun h name => if contains_key name h then h else foldl (fun h v => hm_append name v h) h (hm_get_all name defaults))
    h (hm_keys defaults).

Definition new_err (e : ReqError) : Pending := PError (Some e).

(** [None] is a panic; [new_err]: the request fails before anything is sent. *)
Definition execute_request (c : ClientRef) (r : Request) (w : W) : option (Pending * W) :=
  let scheme := url_scheme (rq_url r) in
  if negb (scheme_allowed scheme) then Some (new_err (url_bad_scheme (rq_url r)), w)
  else if c_https_only c && negb (bool_decide (scheme = bs "https")) then Some (new_err (url_bad_scheme (rq_url r)), w)
  else
    let h := add_default_headers (c_headers c) (rq_headers r) in
    let h := if c_cookie_store c && negb (contains_key COOKIE h) then add_cookie_header (rq_url r) w h else h in
    let h := if rq_allow_compression r then add_accept_encoding_header (c_accepts c) h else h in
    match try_uri (rq_url r) with
    | None => Some (new_err (url_bad_uri (rq_url r)), w)
    | Some uri =>
        let '(reuse, body) :=
          match rq_body r with
          | Some b => let '(reuse, b) := try_reuse b in (Some reuse, b)
          | None => (None, empty)
          end in
        h ← proxy_auth c uri h;
        let order := match rq_headers_order r with Some o => Some o | None => c_headers_order c end in
        ns ← network_scheme c uri (rq_network_scheme r);
        match build_request uri (rq_method r) h order (rq_version r) (rq_extensions r) ns body with
        | None => Some (new_err (err_builder (Text "http error")), w)
        | Some req =>
            let '(f, w) := hy_request req w in
            let total := RequestConfig.fetch (c_total_timeout c) (rq_extensions r) in
            let read := RequestConfig.fetch (c_read_timeout c) (rq_extensions r) in
            Some (PRequest (mkPending (rq_method r) (rq_url r) h order reuse (rq_version r) (rq_extensions r) [] 0
                       (c_http2_max_retry_count c) (rq_redirect r) ns c f
                       ((fun d => now w + d) <$> total) ((fun d => now w + d) <$> read) read), w)
        end
    end.
End Pending.
End Pending.
