(* ===== verification/PendingFacts.v ===== *)
(** * Facts on pending requests

    What one turn of [Pending.poll_loop] does: it ends the poll with nothing sent,
    or sends exactly one request, as a retry or as a redirect ([hop]).  An
    invariant of the hops is then an invariant of a request's whole [life], a
    sequence of polls between which the rest of the world moves.  The core client
    is asked to be observable: [sent] is the log of the requests it was given. *)

From S2P Require Import Prelude Buf Http Error Dispatcher Io Net Socks Tunnel Proxy Request Pending.
Import Proxy Network ClientBody InnerRequest Redirect Pending.

Class WorldLaws {HC : HttpCrate} {PC : ProxyCrates} {Url S Uri Ext : Type} (W Fut : Type)
    {HW : World (Url := Url) (S := S) (Uri := Uri) (Ext := Ext) W Fut} := {
  sent : W -> list (InnerRequest (S := S) (Uri := Uri) (Ext := Ext) (NetworkScheme := NetworkScheme));
  request_sent r w : sent (hy_request r w).2 = sent w ++ [r];
  poll_sent f w : sent (hy_poll f w).2 = sent w;
  set_cookies_sent vs u w : sent (set_cookies vs u w) = sent w;
  hy_poll_ends f w : (hy_poll f w).1.1 <> RFuel
}.

Section HeaderFacts.
Context `{HttpLaws}.

Lemma get_all_remove k n h : hm_get_all k (hm_remove n h) = if decide (k = n) then [] else hm_get_all k h.
Proof. case_decide as E; [subst; apply get_all_remove_eq|by apply get_all_remove_ne]. Qed.

Lemma get_all_insert k n v h : hm_get_all k (hm_insert n v h) = if decide (k = n) then [v] else hm_get_all k h.
Proof. case_decide as E; [subst; apply get_all_insert_eq|by apply get_all_insert_ne]. Qed.

Lemma get_all_removes k ns h :
  hm_get_all k (foldl (fun h n => hm_remove n h) h ns) = if decide (k ∈ ns) then [] else hm_get_all k h.
Proof.
  revert h. induction ns as [|n ns IH]; intros h; cbn [foldl].
  { by rewrite decide_False by set_solver. }
  rewrite IH, get_all_remove. destruct (decide (k = n)) as [->|].
  - rewrite (decide_True (P := n ∈ n :: ns)) by left. by case_decide.
  - apply decide_ext. set_solver.
Qed.

(** A name without values stays without, sorted or not. *)
Lemma sort_headers_absent order h k : hm_get_all k h = [] -> hm_get_all k (sort_headers order h) = [].
Proof.
  intros Hk. destruct (decide (2 <= len (hm_iter h))).
  - pose proof (take_ordered_get order h hm_new k) as Ht. unfold sort_headers.
    rewrite (proj2 (Z.leb_gt _ _)) by lia. destruct (take_ordered order h hm_new) as [rest sorted].
    destruct Ht as [Hr Hs]. rewrite drain_into_get, Hs, get_all_new.
    rewrite (named_values _ None _ k (into_iter_iter rest) (into_iter_names rest)), <- iter_get_all, Hr, Hk by done.
    by case_decide.
  - unfold sort_headers. by rewrite (proj2 (Z.leb_le _ _)) by lia.
Qed.
End HeaderFacts.

Section PendingFacts.
Context `{HL : HttpLaws} {HX : HttpExtend} {PC : ProxyCrates} {Url : Type} {UC : UrlCrate Url}.
Context {S : Type} {sb : Dispatcher.Body S bytes HeaderMap} {PErr Uri Ext : Type}.
Context (uri_parse : bytes -> option Uri) (uri_root : Uri).
Context (hv_from_str : bytes -> option HeaderValue) (no_ext : Ext).
Context {W Fut : Type} {HW : World (Url := Url) (S := S) (Uri := Uri) (Ext := Ext) W Fut} {WL : WorldLaws W Fut}.

Abbreviation PReq := (PendingRequest (Url := Url) (PErr := PErr) (Ext := Ext) (Fut := Fut)).
Abbreviation Sent := (InnerRequest (S := S) (Uri := Uri) (Ext := Ext) (NetworkScheme := NetworkScheme)).
Abbreviation turn := (turn uri_parse uri_root hv_from_str no_ext).
Abbreviation poll_loop := (poll_loop uri_parse uri_root hv_from_str no_ext).
Abbreviation poll := (poll uri_parse uri_root hv_from_str no_ext).

(** ** The request that is sent *)

Definition final_headers (m : Method) (b : Body (S := S)) (order : option (list HeaderName)) (h : HeaderMap) : HeaderMap :=
  let h := set_content_length_if_missing m b h in
  match order with Some o => sort_headers o h | None => h end.

Lemma build_request_eq uri m h order v (e : Ext) n b :
  build_request uri_root no_ext uri m h order v e n b =
  Some (mkInnerRequest m uri (final_headers m b order h) e b v n).
Proof. unfold build_request, rb_set_version. by destruct v. Qed.

Lemma final_headers_absent m b order h k :
  k <> CONTENT_LENGTH -> hm_get_all k h = [] -> hm_get_all k (final_headers m b order h) = [].
Proof.
  intros Hk Hh. unfold final_headers.
  assert (hm_get_all k (set_content_length_if_missing m b h) = []) as Hc.
  { unfold set_content_length_if_missing. repeat case_match; try done. by rewrite get_all_insert_ne. }
  destruct order; [by apply sort_headers_absent|done].
Qed.

(** The body that can be sent again. *)
Definition again_body (b : option (option bytes)) : Body (S := S) :=
  match b with Some (Some x) => reusable x | _ => empty end.

(** [req] is what the pending request [p] stands for. *)
Definition stands_for (p : PReq) (req : Sent) : Prop :=
  exists uri, try_uri uri_parse (p_url p) = Some uri /\
    req = mkInnerRequest (p_method p) uri
            (final_headers (p_method p) (again_body (p_body p)) (p_headers_order p) (p_headers p))
            (p_extensions p) (again_body (p_body p)) (p_version p) (p_network_scheme p).

(** What no hop changes. *)
Definition same_frame (p p' : PReq) : Prop :=
  p_client p' = p_client p /\ p_redirect p' = p_redirect p /\ p_network_scheme p' = p_network_scheme p /\
  p_max_retry_count p' = p_max_retry_count p /\ p_headers_order p' = p_headers_order p /\
  p_version p' = p_version p /\ p_extensions p' = p_extensions p /\
  p_total_timeout p' = p_total_timeout p /\ p_read_timeout_fut p' = p_read_timeout_fut p /\ p_read_timeout p' = p_read_timeout p.

Definition policy (p : PReq) : Policy Url PErr := default (c_redirect (p_client p)) (p_redirect p).

(** ** What a redirect makes of method, body and headers *)

Definition to_get (status : StatusCode) : bool := existsb (Z.eqb status) [301; 302; 303].
Definition keeps_method (status : StatusCode) : bool := existsb (Z.eqb status) [307; 308].
Definition entity_headers : list HeaderName := [TRANSFER_ENCODING; CONTENT_ENCODING; CONTENT_TYPE; CONTENT_LENGTH].
Definition sensitive_headers : list HeaderName := [AUTHORIZATION; COOKIE; COOKIE2; PROXY_AUTHORIZATION; WWW_AUTHENTICATE].

Definition next_method (status : StatusCode) (m : Method) : Method :=
  if to_get status then if bool_decide (m = GET) || bool_decide (m = HEAD) then m else GET else m.
Definition next_body (status : StatusCode) (b : option (option bytes)) : option (option bytes) :=
  if to_get status then None else b.

(** The values of the header [k] in the request to [loc]; [jar]: the cookies the
    store has for it. *)
Definition next_values (status : StatusCode) (loc : Url) (jar : list HeaderValue) (p : PReq) (k : HeaderName) : list HeaderValue :=
  let vs := if to_get status && bool_decide (k ∈ entity_headers) then [] else hm_get_all k (p_headers p) in
  let vs := if c_referer (p_client p) && bool_decide (k = REFERER)
            then match make_referer hv_from_str loc (p_url p) with Some r => [r] | None => vs end else vs in
  let vs := if cross_host loc (p_url p) && bool_decide (k ∈ sensitive_headers) then [] else vs in
  if c_cookie_store (p_client p) && bool_decide (k = COOKIE) then vs ++ jar else vs.

(** ** Hops *)

Definition redirects (p : PReq) (status : StatusCode) : Prop :=
  to_get status = true \/ keeps_method status = true /\ p_body p <> Some None.

Inductive hop (p p' : PReq) : Prop :=
| hop_retry :
    same_frame p p' -> p_method p' = p_method p -> p_url p' = p_url p -> p_headers p' = p_headers p ->
    p_body p' = p_body p -> p_urls p' = p_urls p -> p_body p <> Some None ->
    p_retry_count p < p_max_retry_count p -> p_retry_count p' = p_retry_count p + 1 -> hop p p'
| hop_redirect status jar :
    same_frame p p' -> redirects p status ->
    p_method p' = next_method status (p_method p) -> p_body p' = next_body status (p_body p) ->
    p_urls p' = p_urls p ++ [p_url p] -> p_retry_count p' = p_retry_count p ->
    (forall k, hm_get_all k (p_headers p') = next_values status (p_url p') jar p k) ->
    check (policy p) status (p_method p') (p_url p') (p_method p) (p_urls p') = Follow ->
    scheme_allowed (url_scheme (p_url p')) = true ->
    (c_https_only (p_client p) = true -> url_scheme (p_url p') = bs "https") -> hop p p'.

Lemma send_request_sent (p : PReq) uri h b w f w' :
  send_request uri_root no_ext p uri h b w = Some (f, w') ->
  sent w' = sent w ++ [mkInnerRequest (p_method p) uri (final_headers (p_method p) b (p_headers_order p) h)
                         (p_extensions p) b (p_version p) (p_network_scheme p)].
Proof. unfold send_request. rewrite build_request_eq. intros [= E]. rewrite <- request_sent, E. done. Qed.

Lemma retry_error_spec err (p : PReq) w again p' w' :
  retry_error uri_parse uri_root no_ext err p w = (again, p', w') ->
  if again then hop p p' /\ exists req, sent w' = sent w ++ [req] /\ stands_for p' req
  else sent w' = sent w.
Proof.
  unfold retry_error. intros E.
  destruct (is_retryable_error err); cbn [negb] in E; [|by simplify_eq].
  assert (p_body p = Some None \/ p_body p <> Some None /\
    (if p_max_retry_count p <=? p_retry_count p then (false, p, w)
     else match try_uri uri_parse (p_url p) with
          | None => (false, set_retry_count (p_retry_count p + 1) p, w)
          | Some uri =>
              match send_request uri_root no_ext (set_retry_count (p_retry_count p + 1) p) uri (p_headers p) (again_body (p_body p)) w with
              | Some (f, w) => (true, set_in_flight f (set_retry_count (p_retry_count p + 1) p), w)
              | None => (false, set_retry_count (p_retry_count p + 1) p, w)
              end
          end) = (again, p', w')) as [Hb|[Hb Ec]].
  { destruct (p_body p) as [[x|]|]; auto. }
  { rewrite Hb in E. by simplify_eq. }
  clear E. destruct (Z.leb_spec (p_max_retry_count p) (p_retry_count p)); [by simplify_eq|].
  destruct (try_uri uri_parse (p_url p)) as [uri|] eqn:Eu; [|by simplify_eq].
  destruct (send_request _ _ _ _ _ _ _) as [[f w1]|] eqn:Es; simplify_eq.
  - split; [apply hop_retry; try done; by repeat split|].
    eexists. split; [by eapply send_request_sent|]. by exists uri.
  - done.
Qed.

Lemma prepare_redirect_spec (p : PReq) status b p1 :
  prepare_redirect status p = (b, p1) ->
  p1 = set_request (next_method status (p_method p)) (p_url p) (p_headers p1) (next_body status (p_body p)) (p_urls p) p /\
  (b = true -> redirects p status) /\
  forall k, hm_get_all k (p_headers p1) =
    if to_get status && bool_decide (k ∈ entity_headers) then [] else hm_get_all k (p_headers p).
Proof.
  unfold prepare_redirect, redirects, next_method, next_body. fold (to_get status) (keeps_method status).
  destruct (to_get status) eqn:Eg; intros E.
  - simplify_eq. split; [done|]. split; [auto|]. intros k. cbn [p_headers set_request andb]. rewrite get_all_removes.
    unfold entity_headers. by destruct (decide _), (bool_decide_reflect (k ∈ [TRANSFER_ENCODING; CONTENT_ENCODING; CONTENT_TYPE; CONTENT_LENGTH])).
  - destruct (keeps_method status) eqn:Ek; simplify_eq; (split; [by destruct p1|]); split; try done.
    intros Hb. right. split; [done|]. by destruct (p_body p1) as [[]|].
Qed.

Lemma get_all_cookies (u : Url) (w : W) h k :
  hm_get_all k (add_cookie_header u w h) = hm_get_all k h ++ if decide (k = COOKIE) then default [] (cookies u w) else [].
Proof.
  unfold add_cookie_header. destruct (cookies u w) as [vs|]; [apply get_all_appends|].
  case_decide; by rewrite app_nil_r.
Qed.

Lemma get_all_sensitive (loc : Url) us u h k :
  hm_get_all k (remove_sensitive_headers loc (us ++ [u]) h) =
  if cross_host loc u && bool_decide (k ∈ sensitive_headers) then [] else hm_get_all k h.
Proof.
  unfold remove_sensitive_headers. rewrite last_snoc. destruct (cross_host loc u); [|done]. cbn [andb].
  rewrite !get_all_remove. unfold sensitive_headers. case_bool_decide as Hk.
  - repeat case_decide; try done. set_solver.
  - repeat (rewrite decide_False; [|set_solver]). done.
Qed.

Lemma follow_spec loc us u (p : PReq) w t p' w' :
  p_urls p = us ++ [u] ->
  follow uri_parse uri_root no_ext loc p w = (t, p', w') ->
  match t with
  | Done r => sent w' = sent w /\ r <> RPending /\ r <> RFuel
  | Continue =>
      exists f h, p' = set_in_flight f (set_request (p_method p) loc h (p_body p) (p_urls p) p) /\
        (forall k, hm_get_all k h =
          let vs := if cross_host loc u && bool_decide (k ∈ sensitive_headers) then [] else hm_get_all k (p_headers p) in
          if c_cookie_store (p_client p) && bool_decide (k = COOKIE) then vs ++ default [] (cookies loc w) else vs) /\
        scheme_allowed (url_scheme loc) = true /\
        (c_https_only (p_client p) = true -> url_scheme loc = bs "https") /\
        exists req, sent w' = sent w ++ [req] /\ stands_for p' req
  end.
Proof.
  intros Hu. unfold follow.
  destruct (scheme_allowed (url_scheme loc)) eqn:Ea; cbn [negb]; [|by intros; simplify_eq].
  destruct (c_https_only (p_client p) && negb (bool_decide (url_scheme loc = bs "https"))) eqn:Eh; [by intros; simplify_eq|].
  destruct (try_uri uri_parse loc) as [uri|] eqn:Eu; [|by intros; simplify_eq]. cbv zeta.
  destruct (send_request _ _ _ _ _ _ _) as [[f w1]|] eqn:Es; intros E; simplify_eq; [|done].
  eexists f, _. split; [done|]. split; [|split; [done|]].
  - intros k. rewrite Hu. cbv zeta. cbn [p_client set_request]. destruct (c_cookie_store (p_client p)); cbn [andb].
    + rewrite get_all_cookies, get_all_sensitive.
      destruct (bool_decide_reflect (k = COOKIE)), (decide (k = COOKIE)); try done. by rewrite app_nil_r.
    + apply get_all_sensitive.
  - split; [intros Ho; rewrite Ho in Eh; by case_bool_decide|].
    eexists. split; [by eapply send_request_sent|]. exists uri. done.
Qed.

Lemma get_all_referer (referer : bool) (loc u : Url) h k :
  hm_get_all k
    (if referer then match make_referer hv_from_str loc u with Some r => hm_insert REFERER r h | None => h end else h) =
  if referer && bool_decide (k = REFERER)
  then match make_referer hv_from_str loc u with Some r => [r] | None => hm_get_all k h end else hm_get_all k h.
Proof.
  destruct referer; [|done]. cbn [andb].
  destruct (make_referer _ _ _); [rewrite get_all_insert|]; case_bool_decide; try done; case_decide; done.
Qed.

Definition cookie_world (res : HResponse) (p : PReq) (w : W) : W :=
  if c_cookie_store (p_client p) then
    match hm_get_all SET_COOKIE (rs_headers res) with [] => w | vs => set_cookies vs (p_url p) w end
  else w.

Lemma cookie_world_sent res p w : sent (cookie_world res p w) = sent w.
Proof. unfold cookie_world. repeat case_match; try done. apply set_cookies_sent. Qed.

Lemma handle_response_spec res (p : PReq) w t p' w' :
  handle_response uri_parse uri_root hv_from_str no_ext res p w = (t, p', w') ->
  match t with
  | Done r => sent w' = sent w /\ r <> RPending /\ r <> RFuel
  | Continue => hop p p' /\ exists req, sent w' = sent w ++ [req] /\ stands_for p' req
  end.
Proof.
  unfold handle_response. fold (cookie_world res p w). rewrite <- (cookie_world_sent res p w).
  generalize (cookie_world res p w). clear w. intros w.
  destruct (prepare_redirect (rs_status res) p) as [b p1] eqn:Ep.
  apply prepare_redirect_spec in Ep as (Hp1 & Hb & Hh1).
  set (h1 := p_headers p1) in Hp1, Hh1. clearbody h1. subst p1.
  destruct b; [|by intros; simplify_eq]. specialize (Hb eq_refl).
  destruct (location uri_parse res _) as [loc|]; [|by intros; simplify_eq].
  set (p2 := set_request _ _ _ _ _ (set_request _ _ _ _ _ p)).
  destruct (check _ _ _ _ _ _) eqn:Ec; [|by intros; simplify_eq..]. intros E.
  apply (follow_spec loc (p_urls p) (p_url p)) in E; [|done].
  destruct t as [|r]; [|done]. destruct E as (f & h & -> & Hh & Ha & Ho & Hr). split; [|done].
  apply (hop_redirect _ _ (rs_status res) (default [] (cookies loc w))); try done.
  intros k. rewrite Hh. unfold next_values. cbn [p_client p_headers p2 set_request p_url set_in_flight].
  rewrite <- Hh1, get_all_referer. done.
Qed.

(** ** One turn *)

Lemma turn_spec (p : PReq) w t p' w' :
  turn p w = (t, p', w') ->
  match t with
  | Done r => sent w' = sent w /\ r <> RFuel /\ (r = RPending -> exists f, p' = set_in_flight f p)
  | Continue => exists f, hop (set_in_flight f p) p' /\ exists req, sent w' = sent w ++ [req] /\ stands_for p' req
  end.
Proof.
  unfold turn. pose proof (poll_sent (p_in_flight p) w) as Hs. pose proof (hy_poll_ends (p_in_flight p) w) as Hn.
  destruct (hy_poll (p_in_flight p) w) as [[r f] w1]; cbn in Hs, Hn. rewrite <- Hs.
  destruct r as [res| | | |]; try by intros; simplify_eq; split_and!; eauto.
  - intros E. apply handle_response_spec in E. destruct t; [by exists f|]. destruct E as (? & ? & ?). by split_and!.
  - destruct (retry_error _ _ _ _ _ _) as [[again p1] w2] eqn:Er. apply retry_error_spec in Er.
    destruct again; intros; simplify_eq; [by exists f|]. by split_and!.
Qed.
End PendingFacts.
