(* ===== verification/PendingProps.v ===== *)
(** * Properties of redirects, retries and proxy selection of the high-level client

    Over the whole [life] of a request (its polls, with the rest of the world moving
    in between): how many requests it may send, where they go, and which headers
    they carry; then what the client's proxies put into a request. *)

From S2P Require Import Prelude Buf Http Error Models Dispatcher Io Net Socks Tunnel Proxy ProxyProps Request Pending PendingFacts.
Import Proxy Network ClientBody InnerRequest Redirect Pending.

Section Life.
Context `{HL : HttpLaws} {PC : ProxyCrates} {Url : Type} {UC : UrlCrate Url}.
Context {S : Type} {sb : Dispatcher.Body S bytes HeaderMap} {PErr Uri Ext : Type}.
Context (uri_parse : bytes -> option Uri) (uri_root : Uri).
Context (hv_from_str : bytes -> option HeaderValue) (no_ext : Ext).
Context {W Fut : Type} {HW : World (Url := Url) (S := S) (Uri := Uri) (Ext := Ext) W Fut} {WL : WorldLaws W Fut}.

Abbreviation PReq := (PendingRequest (Url := Url) (PErr := PErr) (Ext := Ext) (Fut := Fut)).
Abbreviation Sent := (InnerRequest (S := S) (Uri := Uri) (Ext := Ext) (NetworkScheme := NetworkScheme)).
Abbreviation turn := (turn uri_parse uri_root hv_from_str no_ext).
Abbreviation poll_loop := (poll_loop uri_parse uri_root hv_from_str no_ext).
Abbreviation poll := (poll uri_parse uri_root hv_from_str no_ext).
Abbreviation stands_for := (stands_for (Fut := Fut) (PErr := PErr) uri_parse).
Abbreviation hop := (hop hv_from_str).

(** What a future that began as [p] in the world [w] may come to: it is polled
    as long as it is pending; before each poll the rest of the world may have
    moved, without a request of this future.  [None]: the future has completed. *)
Inductive life (p : PReq) (w : W) : option PReq -> W -> Prop :=
| life_start : life p w (Some p) w
| life_poll p1 w1 w2 n r p' w' :
    life p w (Some p1) w1 -> sent w2 = sent w1 -> poll n p1 w2 = (r, p', w') ->
    life p w (match r with RPending => Some p' | _ => None end) w'.

(** ** Invariants of hops *)

Section Invariant.
Context (I : PReq -> list Sent -> Prop).
Context (I_flight : forall f p l, I p l -> I (set_in_flight f p) l).
Context (I_hop : forall p p' l req, I p l -> hop p p' -> stands_for p' req -> I p' (l ++ [req])).

Lemma poll_loop_inv n p w r p' w' :
  I p (sent w) -> poll_loop n p w = (r, p', w') ->
  exists p1, I p1 (sent w') /\ (r = RPending -> p1 = p').
Proof.
  revert p w. induction n as [|n IH]; intros p w Hi E; cbn in E; [simplify_eq; by exists p'|].
  destruct (turn p w) as [[t p1] w1] eqn:Et. pose proof (turn_spec uri_parse uri_root hv_from_str no_ext p w _ _ _ Et) as Ht. clear Et. destruct t as [|r1].
  - destruct Ht as (f & Hh & req & Hs & Hr). apply (IH p1 w1); [|done]. rewrite Hs.
    apply (I_hop (set_in_flight f p)); auto.
  - simplify_eq. destruct Ht as (Hs & _ & Hp). rewrite Hs.
    destruct r; try by (exists p; split). destruct Hp as [f ->]; [done|]. exists (set_in_flight f p). auto.
Qed.

Lemma life_inv p w o w' :
  I p (sent w) -> life p w o w' -> exists p', I p' (sent w') /\ forall q, o = Some q -> p' = q.
Proof.
  intros Hi. induction 1 as [|p1 w1 w2 n r p' w' _ (p1' & Hi1 & Hq) Hs E]; [exists p; naive_solver|].
  rewrite (Hq _ eq_refl), <- Hs in Hi1. clear Hq Hs. unfold poll in E.
  destruct (elapsed (p_total_timeout p1) w2 || elapsed (p_read_timeout_fut p1) w2); [simplify_eq; by exists p'|].
  destruct (poll_loop_inv _ _ _ _ _ _ Hi1 E) as (q & Hi2 & Hr). exists q. split; [done|].
  intros q' Hq'. destruct r; simplify_eq. auto.
Qed.
End Invariant.

(** ** The first request *)

Context {HX : HttpExtend} {EC : RequestConfig.ExtensionsCrate Ext} {DU : Dst Uri} (uri_is_http : Uri -> bool).
Abbreviation execute_request := (execute_request (PErr := PErr) uri_parse uri_root uri_is_http no_ext).

Lemma execute_request_spec c r w p w' :
  execute_request c r w = Some (PRequest p, w') ->
  p_url p = rq_url r /\ p_method p = rq_method r /\ p_version p = rq_version r /\ p_extensions p = rq_extensions r /\
  p_urls p = [] /\ p_retry_count p = 0 /\ p_max_retry_count p = c_http2_max_retry_count c /\
  p_client p = c /\ p_redirect p = rq_redirect r /\
  scheme_allowed (url_scheme (rq_url r)) = true /\
  (c_https_only c = true -> url_scheme (rq_url r) = bs "https") /\
  exists uri body, try_uri uri_parse (rq_url r) = Some uri /\
    network_scheme c uri (rq_network_scheme r) = Some (p_network_scheme p) /\
    sent w' = sent w ++ [mkInnerRequest (rq_method r) uri
       (final_headers (rq_method r) body (p_headers_order p) (p_headers p)) (rq_extensions r) body (rq_version r) (p_network_scheme p)].
Proof.
  unfold execute_request.
  destruct (scheme_allowed (url_scheme (rq_url r))) eqn:Ea; cbn [negb]; [|done].
  destruct (c_https_only c && negb (bool_decide (url_scheme (rq_url r) = bs "https"))) eqn:Eh; [done|].
  destruct (try_uri uri_parse (rq_url r)) as [uri|] eqn:Eu; [|done].
  destruct (match rq_body r with Some b => _ | None => _ end) as [reuse body] eqn:Eb.
  destruct (proxy_auth uri_is_http c uri _) as [h|]; [|done]; cbn [mbind option_bind].
  destruct (network_scheme c uri _) as [ns|] eqn:En; [|done]; cbn [mbind option_bind].
  rewrite build_request_eq. destruct (hy_request _ w) as [f w1] eqn:Er. intros E. simplify_eq/=.
  split_and!; try done.
  - intros Ho. rewrite Ho in Eh. by case_bool_decide.
  - exists uri, body. split_and!; try done. rewrite <- request_sent, Er. done.
Qed.

(** ** How many requests *)

(** What is left of redirects and retries under [Limit max]. *)
Definition budget (max : Z) (p : PReq) : Z :=
  Z.max 0 (max - len (p_urls p)) + Z.max 0 (p_max_retry_count p - p_retry_count p).

Lemma hop_budget max p p' :
  policy p = Limit max -> hop p p' -> policy p' = Limit max /\ budget max p' + 1 <= budget max p.
Proof.
  unfold budget, policy. intros Hp [(Ec & Er & _ & Em & _) _ _ _ _ Eu _ Hlt Hc|st jar (Ec & Er & _ & Em & _) _ _ _ Eu Hc _ Hk _ _].
  - rewrite Ec, Er, Em, Eu, Hc. split; [done|]. lia.
  - rewrite Ec, Er, Em, Hc. split; [done|]. rewrite Eu in *.
    unfold check, redirect, policy in Hk. rewrite Hp in Hk. cbn in Hk.
    destruct (Z.ltb_spec max (len (p_urls p ++ [p_url p]))); [done|]. rewrite !len_app, !len_cons, !(len_nil (A := Url)) in *. lia.
Qed.

Lemma poll_loop_ends max n p w :
  policy p = Limit max -> budget max p < Z.of_nat n -> (poll_loop n p w).1.1 <> RFuel.
Proof.
  revert p w. induction n as [|n IH]; intros p w Hp Hn; [unfold budget in Hn; lia|]. cbn [Pending.poll_loop].
  destruct (turn p w) as [[t p1] w1] eqn:Et.
  pose proof (turn_spec uri_parse uri_root hv_from_str no_ext p w _ _ _ Et) as Ht.
  destruct t as [|r]; [|by destruct Ht as (_ & ? & _)]. destruct Ht as (f & Hh & _).
  destruct (hop_budget max (set_in_flight f p) p1 Hp Hh) as [Hp1 Hb]. apply IH; [done|]. unfold budget in *. cbn in *. lia.
Qed.

(** C7. With the policy [limited max] a request never loops: every poll of it
    ends, given fuel for the redirects and retries that are left, and over its
    whole life, however it is polled and whatever the servers answer, it sends at
    most one request, one per redirect the policy allows and one per retry. *)
Theorem requests_bounded c r w p w1 max :
  execute_request c r w = Some (PRequest p, w1) ->
  default (c_redirect c) (rq_redirect r) = limited max -> 0 <= max -> 0 <= c_http2_max_retry_count c ->
  (forall n w2, max + c_http2_max_retry_count c < Z.of_nat n -> (poll n p w2).1.1 <> RFuel) /\
  forall o w2, life p w1 o w2 -> len (sent w2) <= len (sent w) + 1 + max + c_http2_max_retry_count c.
Proof.
  intros E Hpol Hm Hc. apply execute_request_spec in E as (_ & _ & _ & _ & Hus & H0 & Hmax & Hcl & Hr & _ & _ & uri & body & _ & _ & Hs).
  assert (policy p = Limit max) as Hp by (unfold policy; rewrite Hcl, Hr; exact Hpol).
  assert (budget max p = max + c_http2_max_retry_count c) as Hb.
  { unfold budget. rewrite Hus, H0, Hmax, (len_nil (A := Url)). lia. }
  split.
  - intros n w2 Hn. unfold Pending.poll. case_match; [done|]. apply (poll_loop_ends max); [done|]. lia.
  - intros o w2 Hl.
    destruct (life_inv (fun q l => policy q = Limit max /\ len l + budget max q <= len (sent w) + 1 + budget max p)) with (4 := Hl)
      as (q & (_ & Hq) & _).
    + done.
    + intros q q' l req (Hpq & Hl') Hh _. destruct (hop_budget max q q' Hpq Hh) as [? ?].
      split; [done|]. rewrite len_app, len_cons, (len_nil (A := Sent)). lia.
    + split; [done|]. rewrite Hs, len_app, len_cons, (len_nil (A := Sent)). lia.
    + unfold budget in Hq at 1. lia.
Qed.

(** ** Where requests go and what they carry *)

Lemma cross_host_refl (u : Url) : cross_host u u = false.
Proof. unfold cross_host. by rewrite !bool_decide_true. Qed.

Lemma cross_host_trans (u v x : Url) : cross_host u v = false -> cross_host v x = false -> cross_host u x = false.
Proof. unfold cross_host. repeat case_bool_decide; cbn; congruence. Qed.

(** A name whose values a redirect to another site drops and nothing brings back. *)
Definition guarded (c : ClientRef (Url := Url) (PErr := PErr)) (k : HeaderName) : Prop :=
  k ∈ sensitive_headers /\ (k = COOKIE -> c_cookie_store c = false).

Lemma hop_guarded (p p' : PReq) k :
  guarded (p_client p) k -> hop p p' -> hm_get_all k (p_headers p') <> [] ->
  hm_get_all k (p_headers p) <> [] /\ cross_host (p_url p') (p_url p) = false.
Proof.
  intros [Hk Hck] [_ _ Hu Hh _ _ _ _ _|st jar _ _ _ _ _ _ Hv _ _ _].
  - rewrite Hh, Hu. split; [done|apply cross_host_refl].
  - rewrite Hv. unfold next_values. rewrite (bool_decide_true (k ∈ sensitive_headers)) by done.
    rewrite (bool_decide_false (k = REFERER)) by (intros ->; by vm_compute in Hk; set_solver).
    rewrite !andb_false_r, andb_true_r.
    destruct (c_cookie_store (p_client p) && bool_decide (k = COOKIE)) eqn:Ec.
    { apply andb_true_iff in Ec as [Ec Hc]. apply bool_decide_eq_true in Hc. by rewrite Hck in Ec. }
    destruct (cross_host (p_url p') (p_url p)); [done|]. by case_match.
Qed.

(** C6. Credentials stay on the site they were given for: a request that carries
    an [Authorization], [Cookie2], [Proxy-Authorization] or [WWW-Authenticate]
    header, or a [Cookie] of a client without a cookie store, goes to a URL with the
    host and the port of the URL of the first request, over redirects and retries
    of any length and also when a chain of redirects comes back to the site. *)
Theorem credentials_stay_on_site c r w p w1 o w2 k req :
  execute_request c r w = Some (PRequest p, w1) -> life p w1 o w2 ->
  guarded c k -> req ∈ drop (length (sent w)) (sent w2) -> hm_get_all k (ir_headers req) <> [] ->
  exists url, try_uri uri_parse url = Some (ir_uri req) /\ cross_host url (rq_url r) = false.
Proof.
  intros E Hl Hk. apply execute_request_spec in E as (Hu & _ & _ & _ & _ & _ & _ & Hcl & _ & _ & _ & uri & body & Huri & _ & Hs).
  set (good := fun req : Sent => hm_get_all k (ir_headers req) <> [] ->
    exists url, try_uri uri_parse url = Some (ir_uri req) /\ cross_host url (rq_url r) = false).
  assert (k <> CONTENT_LENGTH) as Hcl'. { destruct Hk as [Hk _]. intros ->. vm_compute in Hk. set_solver. }
  destruct (life_inv (fun q l => p_client q = c /\ (hm_get_all k (p_headers q) <> [] -> cross_host (p_url q) (rq_url r) = false) /\
      exists l', l = sent w ++ l' /\ Forall good l')) with (4 := Hl) as (q & (_ & _ & l' & Hl' & Hg) & _).
  - done.
  - intros q q' l q_req (Hq & Hsite & l' & -> & Hg) Hh (uri' & Huri' & ->).
    assert (hm_get_all k (p_headers q') <> [] -> cross_host (p_url q') (rq_url r) = false) as Hsite'.
    { intros Hn. destruct (hop_guarded q q' k) as [Hn' Hx]; [by rewrite Hq|done|done|].
      by apply (cross_host_trans _ (p_url q)); [|apply Hsite]. }
    split; [by destruct Hh as [[-> _]|? ? [-> _]]|]. split; [done|].
    eexists. split; [by rewrite <- app_assoc|]. apply Forall_app. split; [done|]. apply Forall_singleton.
    intros Hn. cbn in Hn. exists (p_url q'). split; [done|]. apply Hsite'. intros Hz. apply Hn. by apply final_headers_absent.
  - split; [done|]. rewrite Hu. split; [intros; apply cross_host_refl|]. eexists. split; [done|].
    apply Forall_singleton. intros _. exists (rq_url r). split; [done|apply cross_host_refl].
  - rewrite Hl', drop_app_length. intros Hin. by apply (Forall_forall good l').
Qed.

(** Every request of a life goes to an [http] or [https] URL, to an [https] URL
    when the client is [https_only], and is made with the method of the first
    request or with [GET]; it takes the route of the first request: the interface,
    addresses and proxy chosen for the first URL are those of all. *)
Theorem requests_of_a_life c r w p w1 o w2 req :
  execute_request c r w = Some (PRequest p, w1) -> life p w1 o w2 -> req ∈ drop (length (sent w)) (sent w2) ->
  (exists url, try_uri uri_parse url = Some (ir_uri req) /\ scheme_allowed (url_scheme url) = true /\
     (c_https_only c = true -> url_scheme url = bs "https")) /\
  (ir_method req = rq_method r \/ ir_method req = GET) /\
  ir_version req = rq_version r /\ ir_extensions req = rq_extensions r /\
  exists uri, try_uri uri_parse (rq_url r) = Some uri /\ network_scheme c uri (rq_network_scheme r) = Some (ir_network_scheme req).
Proof.
  intros E Hl. apply execute_request_spec in E as (Hu & Hm & Hv & He & _ & _ & _ & Hcl & _ & Ha & Ho & uri & body & Huri & Hn & Hs).
  set (ok_url := fun url => scheme_allowed (url_scheme url) = true /\ (c_https_only c = true -> url_scheme url = bs "https")).
  set (good := fun req : Sent => (exists url, try_uri uri_parse url = Some (ir_uri req) /\ ok_url url) /\
    (ir_method req = rq_method r \/ ir_method req = GET) /\ ir_version req = rq_version r /\ ir_extensions req = rq_extensions r /\
    ir_network_scheme req = p_network_scheme p).
  destruct (life_inv (fun q l => ok_url (p_url q) /\ (p_method q = rq_method r \/ p_method q = GET) /\ same_frame p q /\
      exists l', l = sent w ++ l' /\ Forall good l')) with (4 := Hl) as (q & (_ & _ & _ & l' & Hl' & Hg) & _).
  - done.
  - intros q q' l q_req (Hok & Hmq & Hf & l' & -> & Hg) Hh (uri' & Huri' & ->).
    assert (same_frame p q' /\ ok_url (p_url q') /\ (p_method q' = rq_method r \/ p_method q' = GET)) as (Hf' & Hok' & Hm').
    { destruct Hf as (? & ? & ? & ? & ? & ? & ? & ? & ? & ?).
      destruct Hh as [(? & ? & ? & ? & ? & ? & ? & ? & ? & ?) Em Eu _ _ _ _ _ _|st jar (? & ? & ? & ? & ? & ? & ? & ? & ? & ?) _ Em _ _ _ _ _ Hsc Hht].
      - split; [unfold same_frame; split_and!; congruence|]. by rewrite Em, Eu.
      - split; [unfold same_frame; split_and!; congruence|]. split; [split; [done|]; intros; apply Hht; congruence|].
        rewrite Em. unfold next_method. repeat case_match; auto. }
    split; [done|]. split; [done|]. split; [done|]. eexists. split; [by rewrite <- app_assoc|].
    apply Forall_app. split; [done|]. apply Forall_singleton. destruct Hf' as (_ & _ & Hns & _ & _ & Hver & Hext & _).
    split; [by exists (p_url q')|]. cbn. split_and!; first [done|congruence].
  - split; [by rewrite Hu|]. split; [by left|]. split; [by repeat split|]. eexists. split; [done|].
    apply Forall_singleton. split; [by exists (rq_url r)|]. split_and!; auto.
  - rewrite Hl', drop_app_length. intros Hin.
    destruct (proj1 (Forall_forall good l') Hg _ Hin) as (Hurl & ? & ? & ? & ->). split_and!; try done. by exists uri.
Qed.

(** ** What a response does *)

Definition redirects_b (p : PReq) (status : StatusCode) : bool :=
  to_get status || keeps_method status && negb (bool_decide (p_body p = Some None)).

Lemma prepare_redirect_decides (p : PReq) status : (prepare_redirect status p).1 = redirects_b p status.
Proof.
  unfold prepare_redirect, redirects_b. fold (to_get status) (keeps_method status).
  destruct (to_get status); [done|]. destruct (keeps_method status); [|done]. cbn.
  destruct (p_body p) as [[x|]|]; by case_bool_decide.
Qed.

Lemma location_uri res (p : PReq) loc : location uri_parse res p = Some loc -> is_Some (try_uri uri_parse loc).
Proof.
  unfold location. destruct (hm_get LOCATION (rs_headers res)) as [v|]; [|done]. cbn [mbind option_bind].
  destruct (if is_utf8 v then _ else _) as [l|]; [|done]. cbn [mbind option_bind].
  destruct (try_uri uri_parse l) as [uri|] eqn:E; [|done]. intros. simplify_eq. by exists uri.
Qed.

Lemma location_set_request res m h b us (p : PReq) :
  location uri_parse res (set_request m (p_url p) h b us p) = location uri_parse res p.
Proof. done. Qed.

Lemma follow_continues loc (p : PReq) w :
  scheme_allowed (url_scheme loc) = true ->
  c_https_only (p_client p) && negb (bool_decide (url_scheme loc = bs "https")) = false ->
  is_Some (try_uri uri_parse loc) ->
  (follow uri_parse uri_root no_ext loc p w).1.1 = Continue.
Proof.
  intros Ha Ho [uri Hu]. unfold follow. rewrite Ha, Ho, Hu. cbn [negb]. cbv zeta. unfold send_request.
  rewrite build_request_eq. by destruct (hy_request _ _).
Qed.

Definition gives_up (p : PReq) (w : W) (r : poll_res (ReqError (Url := Url) (PErr := PErr)) (HResponse * Url * option Z * option Z)) : Prop :=
  (turn p w).1.1 = Done r /\ sent (turn p w).2 = sent w.

(** C24. What a response does, on every branch: without a redirect status, a
    usable [Location] or the policy's consent it is the answer; the policy's
    error, and a redirect to another scheme, fail the request with nothing more
    sent; else the request that the status asks for is sent to the new URL, with
    the header values of [next_values]: after 301 to 303 [GET] (or [HEAD]) without
    the body and its headers, after 307 and 308 method and body as they were. *)
Theorem redirect_decision (p : PReq) w res f w1 :
  hy_poll (p_in_flight p) w = (RVal res, f, w1) ->
  match (if redirects_b p (rs_status res) then location uri_parse res p else None) with
  | None => gives_up p w (RVal (res, p_url p, p_total_timeout p, p_read_timeout p))
  | Some loc =>
      match check (policy p) (rs_status res) (next_method (rs_status res) (p_method p)) loc (p_method p) (p_urls p ++ [p_url p]) with
      | Stop => gives_up p w (RVal (res, p_url p, p_total_timeout p, p_read_timeout p))
      | ActionError e => gives_up p w (RErr (err_redirect (Policy_ e) (p_url p)))
      | Follow =>
          if negb (scheme_allowed (url_scheme loc)) then gives_up p w (RErr (url_bad_scheme loc))
          else if c_https_only (p_client p) && negb (bool_decide (url_scheme loc = bs "https")) then
            gives_up p w (RErr (err_redirect (Nested KBuilder BadScheme (Some loc)) loc))
          else exists p' w' req, turn p w = (Continue, p', w') /\ sent w' = sent w ++ [req] /\ stands_for p' req /\
            p_url p' = loc /\ p_urls p' = p_urls p ++ [p_url p] /\
            p_method p' = next_method (rs_status res) (p_method p) /\ p_body p' = next_body (rs_status res) (p_body p) /\
            forall k, hm_get_all k (p_headers p') =
              next_values hv_from_str (rs_status res) loc (default [] (cookies loc (cookie_world res p w1))) p k
      end
  end.
Proof.
  intros Hp. assert (turn p w = handle_response uri_parse uri_root hv_from_str no_ext res (set_in_flight f p) w1) as Ht.
  { unfold Pending.turn. by rewrite Hp. }
  pose proof (poll_sent (p_in_flight p) w) as Hs. rewrite Hp in Hs. cbn in Hs.
  unfold gives_up. rewrite Ht, <- Hs. clear Ht Hp Hs w. unfold handle_response.
  change (if c_cookie_store _ then _ else _) with (cookie_world res p w1).
  rewrite <- (cookie_world_sent res p w1). generalize (cookie_world res p w1). clear w1. intros w.
  pose proof (prepare_redirect_decides (set_in_flight f p) (rs_status res)) as Hb.
  destruct (prepare_redirect (rs_status res) (set_in_flight f p)) as [b p1] eqn:Ep. cbn in Hb.
  apply prepare_redirect_spec in Ep as (Hp1 & _ & Hh1).
  set (h1 := p_headers p1) in Hp1, Hh1. clearbody h1. subst p1.
  change (redirects_b p (rs_status res)) with (redirects_b (set_in_flight f p) (rs_status res)). rewrite <- Hb. clear Hb.
  destruct b; [|done]. rewrite location_set_request. change (location uri_parse res (set_in_flight f p)) with (location uri_parse res p).
  destruct (location uri_parse res p) as [loc|] eqn:El; [|done]. apply location_uri in El. cbv zeta.
  set (p2 := set_request _ _ _ _ _ (set_request _ _ _ _ _ (set_in_flight f p))).
  change (check (default _ _) _ _ _ _ _) with
    (check (policy p) (rs_status res) (next_method (rs_status res) (p_method p)) loc (p_method p) (p_urls p ++ [p_url p])).
  destruct (check _ _ _ _ _ _); [|done..].
  destruct (scheme_allowed (url_scheme loc)) eqn:Ea; cbn [negb]; [|unfold follow; by rewrite Ea].
  destruct (c_https_only (p_client p) && negb (bool_decide (url_scheme loc = bs "https"))) eqn:Eh.
  { unfold follow. rewrite Ea. change (p_client p2) with (p_client p). by rewrite Eh. }
  pose proof (follow_continues loc p2 w Ea Eh El) as Hc.
  destruct (follow _ _ _ loc p2 w) as [[t p'] w'] eqn:Ef. cbn in Hc. subst t.
  apply follow_spec with (us := p_urls p) (u := p_url p) (WL := WL) in Ef; [|done..].
  destruct Ef as (f' & h & -> & Hh & _ & _ & req & Hr & Hst).
  eexists _, w', req. split_and!; try done. intros k. cbn [p_headers set_in_flight set_request]. rewrite Hh.
  unfold next_values. cbn [p_client p_headers p2 set_request p_url set_in_flight].
  rewrite get_all_referer, Hh1. done.
Qed.
End Life.

(** ** Proxies of the client *)

Section ClientProxies.
Context `{HL : HttpLaws} {HX : HttpExtend} {PC : ProxyCrates} {Url : Type} {UC : UrlCrate Url}.
Context {PErr Uri : Type} {DU : Dst Uri} (uri_is_http : Uri -> bool).
Abbreviation Client := (ClientRef (Url := Url) (PErr := PErr)).

Lemma intercept_all_last ps (uri : Uri) ss b :
  Forall2 (fun p s => intercept (Url := Url) p uri = Some s) ps ss ->
  intercept_all ps uri b =
  Some (match last (omap id ss) with Some s => nb_set_proxy_scheme (Some s) b | None => b end).
Proof.
  intros Hf. revert b. induction Hf as [|p s ps ss Hp _ IH]; intros b; cbn [intercept_all]; [done|].
  rewrite Hp. cbn [mbind option_bind]. rewrite IH. destruct s as [s|]; [|done].
  change (omap id (Some s :: ss)) with (s :: omap id ss). rewrite last_cons. by destruct (last (omap id ss)).
Qed.

(** A request without a network scheme of its own goes through the last of
    the client's proxies that intercepts its URL, and through none when none
    does; a request with one keeps it. *)
Theorem last_proxy_wins (c : Client) uri ns ss :
  Forall2 (fun p s => intercept p uri = Some s) (c_proxies c) ss ->
  network_scheme c uri ns = Some match ns with
    | Default => nb_build (match last (omap id ss) with
                           | Some s => nb_set_proxy_scheme (Some s) (c_network_scheme c)
                           | None => c_network_scheme c
                           end)
    | ns => ns
    end.
Proof. intros Hf. unfold network_scheme. destruct ns; [done|]. by rewrite (intercept_all_last _ _ ss). Qed.

(** The credentials of an HTTP proxy are added to a plain request to a host
    that the proxy's [no_proxy] list excludes, although the request does not go
    through the proxy. *)
Theorem excluded_host_gets_proxy_credentials (c : Client) p s np uri h v :
  c_proxies c = [p] -> c_proxies_maybe_http_auth c = true ->
  p_intercept p = All s \/ p_intercept p = IHttp s -> no_proxy p = Some np ->
  maybe_http_auth s = Some v -> maybe_http_headers s = None ->
  uri_is_http uri = true -> dst_scheme uri = bs "http" -> contains_key PROXY_AUTHORIZATION h = false ->
  no_proxy_contains np (dst_host uri) = Some true ->
  network_scheme c uri Default = Some (nb_build (c_network_scheme c)) /\
  exists h', proxy_auth uri_is_http c uri h = Some h' /\ hm_get_all PROXY_AUTHORIZATION h' = [v].
Proof.
  intros Hc Ha Hi Hn Hv Hh Hu Hd Hk He. split.
  - assert (intercept p uri = Some None) as Hp.
    { unfold intercept, in_no_proxy. rewrite Hn, He. cbn. by destruct Hi as [-> | ->]. }
    unfold network_scheme. rewrite Hc. cbn. by rewrite Hp.
  - unfold proxy_auth. rewrite Ha, Hu, Hk, Hc. cbn. unfold is_match, http_basic_auth, http_headers.
    destruct Hi as [-> | ->]; cbn; rewrite ?Hd, ?bool_decide_true by done; cbn; rewrite Hv, Hh;
      eexists; (split; [done|apply get_all_insert_eq]).
Qed.
End ClientProxies.

(** ** The properties at concrete inputs *)

Module RefClient.
Import RefHttp RefUrl.

(** A core client that answers by a script and logs what it is asked. *)
#[export] Instance no_stream : Dispatcher.Body Empty_set bytes HeaderMap := {|
  body_poll_frame := fun s : Empty_set => match s with end;
  body_is_end_stream := fun s : Empty_set => match s with end;
  body_size_exact := fun s : Empty_set => match s with end
|}.

Record world := mkWorld {
  log : list (InnerRequest (S := Empty_set) (Uri := url) (Ext := option (option Z)) (NetworkScheme := NetworkScheme));
  script : list (poll_res HyperError HResponse);
  jar : list HeaderValue
}.

Definition answer (w : world) : poll_res HyperError HResponse * unit * world :=
  match script w with
  | RFuel :: s | RPending :: s => (RPending, tt, mkWorld (log w) s (jar w))
  | r :: s => (r, tt, mkWorld (log w) s (jar w))
  | [] => (RPending, tt, w)
  end.

#[export] Instance ref_world : World (Url := url) world unit := {|
  hy_request := fun r w => (tt, mkWorld (log w ++ [r]) (script w) (jar w));
  hy_poll := fun _ w => answer w;
  set_cookies := fun vs _ w => mkWorld (log w) (script w) vs;
  cookies := fun _ w => match jar w with [] => None | l => Some l end;
  now := fun _ => 0
|}.

#[export] Program Instance ref_world_laws : WorldLaws world unit := {| sent := log |}.
Next Obligation. done. Qed.
Next Obligation. intros f w. cbn. unfold answer. destruct (script w) as [|[] s]; done. Qed.
Next Obligation. done. Qed.
Next Obligation. intros f w. cbn. unfold answer. destruct (script w) as [|[] s]; done. Qed.

#[export] Instance ref_extensions : RequestConfig.ExtensionsCrate (option (option Z)) := {|
  RequestConfig.ext_get_timeout := fun e => e;
  RequestConfig.ext_insert_timeout := fun t _ => Some t
|}.
#[export] Instance ref_extend : HttpExtend := {| hm_extend := fun h more => foldl (fun h kv => hm_insert kv.1 kv.2 h) h (hm_iter more) |}.

Definition to_uri (s : bytes) : option url := match parse s with Ok u => Some u | Err _ => None end.
Definition plain (u : url) : bool := bool_decide (u_scheme u = bs "http").
Definition start_url : url := parse_or "http://a.b/".

Definition np_all : NoProxy := mkNoProxy [] [bs "a.b"].
Definition proxy_a : Proxy (Url := url) := mkProxy (All (PHttp (Some (bs "secret")) (bs "p.q") None)) (Some np_all).
Definition proxy_b : Proxy (Url := url) := mkProxy (All (PHttp None (bs "r.s") None)) None.

Definition client (ps : list (Proxy (Url := url))) (store : bool) : ClientRef (Url := url) (PErr := unit) :=
  mkClientRef None store hm_new None (limited 10) true None None false 2 ps true builder_default.

Definition ref_request : Request (Url := url) (PErr := unit) (S := Empty_set) (Ext := option (option Z)) :=
  mkRequest (bs "POST") start_url (hm_insert AUTHORIZATION (bs "key") hm_new) None (Some (reusable (bs "hello"))) None None None false Default.

Definition redirect_to (st : Z) (l : string) : poll_res HyperError HResponse :=
  RVal (mkHResponse st (hm_insert LOCATION (bs l) hm_new)).
Definition w_start : world := mkWorld [] [redirect_to 302 "http://a.b/x"; RVal (mkHResponse 200 hm_new)] [].

Abbreviation ref_execute := (execute_request to_uri start_url plain None).
Abbreviation ref_poll := (poll to_uri start_url Some None).
Abbreviation ref_life := (life to_uri start_url Some None).

Definition started := ref_execute (client [] false) ref_request w_start.

(** The state after the first request, and after a poll that follows the redirect. *)
Definition run : option (PendingRequest * world * (poll_res ReqError (HResponse * url * option Z * option Z) * PendingRequest * world)) :=
  match started with Some (PRequest p, w1) => Some (p, w1, ref_poll 5%nat p w1) | _ => None end.

Lemma requests_bounded_witness :
  exists p w1, started = Some (PRequest p, w1) /\
    (forall n w2, 12 < Z.of_nat n -> (ref_poll n p w2).1.1 <> RFuel) /\
    forall o w2, ref_life p w1 o w2 -> len (sent w2) <= 13.
Proof.
  assert (match started with Some (PRequest _, _) => true | _ => false end = true) as Hs by (vm_compute; reflexivity).
  destruct started as [[[p|e] w1]|] eqn:E; [|discriminate Hs..]. exists p, w1. split; [reflexivity|].
  exact (requests_bounded to_uri start_url Some None plain (client [] false) ref_request w_start p w1 10 E eq_refl
    ltac:(lia) ltac:(cbn; lia)).
Defined.

(** The request after a redirect within the site, with its credentials. *)
Definition second_carries : bool :=
  match run with
  | Some (_, _, (_, _, w2)) =>
      match sent w2 with [_; r] => negb (bool_decide (hm_get_all AUTHORIZATION (ir_headers r) = [])) | _ => false end
  | None => false
  end.

Lemma credentials_stay_on_site_witness :
  exists w2 r1 r2, sent w2 = [r1; r2] /\ hm_get_all AUTHORIZATION (ir_headers r2) <> [] /\
    exists u, try_uri to_uri u = Some (ir_uri r2) /\ cross_host u start_url = false.
Proof.
  assert (second_carries = true) as Hc by (vm_compute; reflexivity). revert Hc. unfold second_carries, run.
  destruct started as [[[p|e] w1]|] eqn:E; [|discriminate..].
  destruct (ref_poll 5%nat p w1) as [[r p'] w2] eqn:Ep.
  destruct (sent w2) as [|r1 [|r2 [|]]] eqn:El; try discriminate. intros Hc.
  assert (hm_get_all AUTHORIZATION (ir_headers r2) <> []) as Hn.
  { intros Hz. rewrite Hz, bool_decide_true in Hc by reflexivity. discriminate Hc. }
  exists w2, r1, r2. split; [exact El|]. split; [exact Hn|].
  refine (credentials_stay_on_site to_uri start_url Some None plain (client [] false) ref_request w_start p w1 _ w2
    AUTHORIZATION r2 E (life_poll _ _ _ _ p w1 p w1 w1 5%nat r p' w2 (life_start _ _ _ _ p w1) eq_refl Ep) _ _ Hn).
  - split; [left|discriminate].
  - rewrite El. right. left.
Defined.

Lemma requests_of_a_life_witness :
  exists w2 r1 r2, sent w2 = [r1; r2] /\ (ir_method r2 = bs "POST" \/ ir_method r2 = GET) /\
    exists u, try_uri to_uri u = Some (ir_uri r2) /\ scheme_allowed (url_scheme u) = true.
Proof.
  assert (second_carries = true) as Hc by (vm_compute; reflexivity). revert Hc. unfold second_carries, run.
  destruct started as [[[p|e] w1]|] eqn:E; [|discriminate..].
  destruct (ref_poll 5%nat p w1) as [[r p'] w2] eqn:Ep.
  destruct (sent w2) as [|r1 [|r2 [|]]] eqn:El; try discriminate. intros _.
  exists w2, r1, r2. split; [exact El|].
  destruct (requests_of_a_life to_uri start_url Some None plain (client [] false) ref_request w_start p w1 _ w2
    r2 E (life_poll _ _ _ _ p w1 p w1 w1 5%nat r p' w2 (life_start _ _ _ _ p w1) eq_refl Ep)) as ((u & Hu & Ha & _) & Hm & _).
  - rewrite El. right. left.
  - split; [exact Hm|]. exists u. split; [exact Hu|exact Ha].
Defined.

(** A client with a cookie store, redirected within the site. *)
Definition ref_pending : PendingRequest (Url := url) (PErr := unit) (Ext := option (option Z)) (Fut := unit) :=
  mkPending (bs "POST") start_url (hm_insert COOKIE (bs "a=1") hm_new) None (Some (Some (bs "hello"))) None None [] 0 2 None
    Default (client [] true) tt None None None.
Definition w_cookie : world := mkWorld [] [redirect_to 302 "http://a.b/x"] [bs "a=1"].

Lemma redirect_decision_witness :
  exists p' w' req, turn to_uri start_url Some None ref_pending w_cookie = (Continue, p', w') /\
    p_method p' = GET /\ p_body p' = None /\ hm_get_all COOKIE (p_headers p') = [bs "a=1"; bs "a=1"] /\ sent w' = [req].
Proof.
  pose proof (redirect_decision to_uri start_url Some None ref_pending w_cookie
    (mkHResponse 302 (hm_insert LOCATION (bs "http://a.b/x") hm_new)) tt (mkWorld [] [] [bs "a=1"]) eq_refl) as Hd.
  assert (redirects_b ref_pending 302 = true) as Hr by reflexivity. cbn [rs_status] in Hd. rewrite Hr in Hd.
  destruct (location to_uri _ ref_pending) as [loc|] eqn:El; [|discriminate El].
  assert (loc = parse_or "http://a.b/x") as Hl by (injection El as <-; reflexivity). subst loc.
  destruct Hd as (p' & w' & req & Ht & Hs & _ & _ & _ & Hm & Hb & Hv).
  exists p', w', req. split; [exact Ht|]. split; [exact Hm|]. split; [exact Hb|]. split; [|exact Hs].
  rewrite Hv. reflexivity.
Defined.

Lemma last_proxy_wins_witness :
  network_scheme (client [proxy_b; proxy_a; proxy_b; proxy_a] false) (parse_or "http://c.d/") Default =
  Some (nb_build (nb_set_proxy_scheme (Some (PHttp (Some (bs "secret")) (bs "p.q") None)) builder_default)).
Proof.
  exact (last_proxy_wins (client [proxy_b; proxy_a; proxy_b; proxy_a] false) (parse_or "http://c.d/") Default
    [Some (PHttp None (bs "r.s") None); Some (PHttp (Some (bs "secret")) (bs "p.q") None);
     Some (PHttp None (bs "r.s") None); Some (PHttp (Some (bs "secret")) (bs "p.q") None)]
    ltac:(repeat (constructor; [reflexivity|]); constructor)).
Defined.

Lemma excluded_host_gets_proxy_credentials_witness :
  network_scheme (client [proxy_a] false) start_url Default = Some Default /\
  exists h', proxy_auth plain (client [proxy_a] false) start_url hm_new = Some h' /\ hm_get_all PROXY_AUTHORIZATION h' = [bs "secret"].
Proof.
  exact (excluded_host_gets_proxy_credentials plain (client [proxy_a] false) proxy_a
    (PHttp (Some (bs "secret")) (bs "p.q") None) np_all start_url hm_new (bs "secret")
    eq_refl eq_refl (or_introl eq_refl) eq_refl eq_refl eq_refl eq_refl eq_refl eq_refl eq_refl).
Defined.
End RefClient.
