(* ===== verification/CoreClient.v ===== *)
(** * The core client (src/src/core/client/mod.rs, src/src/core/client/dst.rs)

    [Client::request]: which requests are accepted, the destination they belong to,
    the loop that retries a request a reused connection handed back, the race
    between an idle connection and a new one, and the form in which a request's
    target is written.  The futures that are awaited (checkout, connect, the
    exchange on a connection) are the world's; what is awaited is its outcome. *)

From S2P Require Import Prelude Buf Http Error Oneshot Pool.
Import Pool.

(** ** [Uri] of the http crate, as an interface *)

Record UriParts := mkUriParts { up_scheme : option bytes; up_authority : option bytes; up_path : option bytes }.
Definition no_parts : UriParts := mkUriParts None None None.

(** What [Uri::from_parts] accepts: a path, an authority, or all three. *)
Definition parts_ok (p : UriParts) : bool :=
  match up_scheme p, up_authority p, up_path p with
  | None, None, Some _ | None, Some _, None | Some _, Some _, Some _ => true
  | _, _, _ => false
  end.

Class UriCrate (Uri : Type) := {
  uri_default : Uri;
  uri_parts : Uri -> UriParts;
  uri_from_parts : UriParts -> option Uri;
  (* of an authority: its host, its port *)
  auth_host : bytes -> bytes;
  auth_port : bytes -> option Z
}.

Class UriLaws (Uri : Type) {UC : UriCrate Uri} := {
  default_parts : uri_parts uri_default = mkUriParts None None (Some (bs "/"));
  from_parts_ok p : parts_ok p = true -> exists u, uri_from_parts p = Some u /\ uri_parts u = p
}.

Definition HTTP : bytes := bs "http".
Definition HTTPS : bytes := bs "https".

Section Forms.
Context {Uri : Type} {UC : UriCrate Uri}.

Definition origin_form (uri : Uri) : option Uri :=
  match up_path (uri_parts uri) with
  | Some path => if bool_decide (path = bs "/") then Some uri_default else uri_from_parts (mkUriParts None None (Some path))
  | None => Some uri_default
  end.

Definition absolute_form (uri : Uri) : option Uri :=
  if bool_decide (up_scheme (uri_parts uri) = Some HTTPS) then origin_form uri else Some uri.

(** [None]: [unreachable!] or a failed [expect]. *)
Definition authority_form (uri : Uri) : option Uri :=
  match up_authority (uri_parts uri) with
  | Some auth => uri_from_parts (mkUriParts None (Some auth) None)
  | None => None
  end.

Definition set_scheme (uri : Uri) (scheme : bytes) : option Uri :=
  uri_from_parts (mkUriParts (Some scheme) (up_authority (uri_parts uri)) (Some (bs "/"))).

Definition is_schema_secure (uri : Uri) : bool :=
  match up_scheme (uri_parts uri) with Some s => bool_decide (s = bs "wss") || bool_decide (s = HTTPS) | None => false end.

Definition uri_port (uri : Uri) : option Z := auth ← up_authority (uri_parts uri); auth_port auth.

Definition get_non_default_port (uri : Uri) : option Z :=
  match uri_port uri with
  | Some p =>
      if (p =? 443) && is_schema_secure uri then None
      else if (p =? 80) && negb (is_schema_secure uri) then None
      else Some p
  | None => None
  end.
End Forms.

(** ** Destinations *)

Inductive AlpnProtos := ALPN_HTTP1 | ALPN_HTTP2.
#[global] Instance AlpnProtos_eqdec : EqDecision AlpnProtos.
Proof. solve_decision. Defined.

Module Core.

Inductive ErrorKind :=
| Canceled | ChannelClosed | Connect | UserUnsupportedRequestMethod | UserUnsupportedVersion
| UserAbsoluteUriRequired | SendRequest.

Section Core.
Context `{HttpCrate} {Uri : Type} {UC : UriCrate Uri} {NetworkScheme Ext Bd Resp : Type}.
(** [Connected]; whether the connection is to a proxy that wants whole URIs. *)
Context {Connected : Type} (is_proxied : Connected -> bool).
(** [HeaderValue::from_str] *)
Context (hv_from_str : bytes -> option HeaderValue).

Inductive Source := SText (s : string) | SHttp | SPool (e : PoolError) | SConn (e : Error.Error).
Record CError := mkCError { ce_kind : ErrorKind; ce_source : option Source; ce_info : option Connected }.
Definition err (k : ErrorKind) (s : option Source) : CError := mkCError k s None.
Definition with_connect_info (c : Connected) (e : CError) : CError := mkCError (ce_kind e) (ce_source e) (Some c).
Definition is_canceled (e : CError) : bool := match ce_kind e with Canceled => true | _ => false end.
Definition pool_is_canceled (e : PoolError) : bool := match e with CheckedOutClosedValue => true | _ => false end.

Record Dst := mkDst { d_uri : Uri; d_alpn : option AlpnProtos; d_network : NetworkScheme }.
Definition only_http2 (d : Dst) : bool := bool_decide (d_alpn d = Some ALPN_HTTP2).

(** [Dst::new]: the destination and the URI it may have completed; the outer
    [None] is a panic. *)
Definition dst_new (uri : Uri) (is_http_connect : bool) (network : NetworkScheme) (version : option Version)
  : option (result (Dst * Uri) CError) :=
  let finish (scheme auth : bytes) (uri : Uri) : option (result (Dst * Uri) CError) :=
    let alpn := match version with
                | Some HTTP_11 | Some HTTP_10 | Some HTTP_09 => Some ALPN_HTTP1
                | Some HTTP_2 => Some ALPN_HTTP2
                | _ => None
                end in
    Some (match uri_from_parts (mkUriParts (Some scheme) (Some auth) (Some (bs "/"))) with
          | Some u => Ok (mkDst u alpn network, uri)
          | None => Err (err UserAbsoluteUriRequired (Some SHttp))
          end) in
  match up_scheme (uri_parts uri), up_authority (uri_parts uri) with
  | Some scheme, Some auth => finish scheme auth uri
  | None, Some auth =>
      if is_http_connect then
        let scheme := if bool_decide (auth_port auth = Some 443) then HTTPS else HTTP in
        uri ← set_scheme uri scheme; finish scheme auth uri
      else Some (Err (err UserAbsoluteUriRequired (Some (SText "Client requires absolute-form URIs"))))
  | _, _ => Some (Err (err UserAbsoluteUriRequired (Some (SText "Client requires absolute-form URIs"))))
  end.

(** ** Requests and connections *)

Record Request := mkRequest {
  q_method : Method; q_uri : Uri; q_version : Version; q_headers : HeaderMap; q_ext : Ext; q_body : Bd
}.
Definition set_uri (u : Uri) (q : Request) : Request :=
  mkRequest (q_method q) u (q_version q) (q_headers q) (q_ext q) (q_body q).
Definition set_headers (h : HeaderMap) (q : Request) : Request :=
  mkRequest (q_method q) (q_uri q) (q_version q) h (q_ext q) (q_body q).

(** A checked-out connection: a [Pooled<PoolClient>]. *)
Record Pooled := mkPooled {
  pd_info : Connected; pd_http2 : bool; pd_reused : bool; pd_pool_enabled : bool; pd_id : nat
}.

Record Config := mkConfig { retry_canceled_requests : bool; cfg_set_host : bool; cfg_ver : Ver }.

(** What [future::select(checkout, connect).await] comes to. *)
Inductive Raced :=
| CheckoutOk (p : Pooled) (connect_started : bool)
| ConnectOk (p : Pooled)
| CheckoutErr (e : PoolError)
| ConnectErr (e : CError).

Class Net (W : Type) := {
  pool_enabled : W -> bool;
  race : Dst -> W -> Raced * W;
  await_connect : Dst -> W -> result Pooled CError * W;
  await_checkout : Dst -> W -> result Pooled PoolError * W;
  (* leaving the unfinished connect to a task of its own *)
  spawn_connect : Dst -> W -> W;
  exchange : Pooled -> Request -> W -> result Resp (Error.Error * option Request) * W;
  pooled_ready : Pooled -> W -> bool;
  drop_pooled : Pooled -> W -> W;
  (* a task that waits for the connection to be ready again *)
  spawn_on_idle : Pooled -> W -> W
}.
Context {W : Type} {NW : Net W}.

Inductive ClientConnectError := Normal (e : CError) | CheckoutIsClosed (e : PoolError).

Definition lift_err {A E E'} (f : E -> E') (r : result A E) : result A E' :=
  match r with Ok a => Ok a | Err e => Err (f e) end.

Definition one_connection_for (cfg : Config) (dst : Dst) (w : W) : result Pooled ClientConnectError * W :=
  if negb (pool_enabled w) then
    let '(r, w) := await_connect dst w in (lift_err Normal r, w)
  else
    let is_ver_h2 := bool_decide (cfg_ver cfg = Http2) in
    match race dst w with
    | (CheckoutOk p started, w) => (Ok p, if started then spawn_connect dst w else w)
    | (ConnectOk p, w) => (Ok p, w)
    | (CheckoutErr e, w) =>
        if pool_is_canceled e then let '(r, w) := await_connect dst w in (lift_err Normal r, w)
        else (Err (Normal (err Connect (Some (SPool e)))), w)
    | (ConnectErr e, w) =>
        if is_canceled e then
          let '(r, w) := await_checkout dst w in
          (lift_err (fun e => if is_ver_h2 && pool_is_canceled e then CheckoutIsClosed e
                              else Normal (err Connect (Some (SPool e)))) r, w)
        else (Err (Normal e), w)
    end.

Fixpoint connection_for (n : nat) (cfg : Config) (dst : Dst) (w : W) : poll_res CError Pooled * W :=
  match n with
  | O => (RFuel, w)
  | S n =>
      match one_connection_for cfg dst w with
      | (Ok p, w) => (RVal p, w)
      | (Err (Normal e), w) => (RErr e, w)
      | (Err (CheckoutIsClosed reason), w) =>
          if negb (retry_canceled_requests cfg) then (RErr (err Connect (Some (SPool reason))), w)
          else connection_for n cfg dst w
      end
  end.

Inductive TrySendError := Retryable (e : CError) (req : Request) (connection_reused : bool) | Nope (e : CError).

Definition host_value (uri : Uri) : option HeaderValue :=
  auth ← up_authority (uri_parts uri);
  let hostname := auth_host auth in
  hv_from_str (match get_non_default_port uri with
               | Some port => hostname ++ bs ":" ++ fmt_dec port
               | None => hostname
               end).

Definition set_host (q : Request) : option Request :=
  if contains_key HOST (q_headers q) then Some q
  else v ← host_value (q_uri q); Some (set_headers (hm_insert HOST v (q_headers q)) q).

(** What a request becomes for the connection that carries it; [Err]: the
    connection cannot carry it; [None]: a panic. *)
Definition fit_request (cfg : Config) (p : Pooled) (q : Request) : option (result Request CError) :=
  if negb (pd_http2 p) then
    if bool_decide (q_version q = HTTP_2) then
      Some (Err (with_connect_info (pd_info p) (err UserUnsupportedVersion None)))
    else
      q ← (if cfg_set_host cfg then set_host q else Some q);
      u ← (if bool_decide (q_method q = CONNECT) then authority_form (q_uri q)
           else if is_proxied (pd_info p) then absolute_form (q_uri q)
           else origin_form (q_uri q));
      Some (Ok (set_uri u q))
  else Some (Ok q).

Definition try_send_request (n : nat) (cfg : Config) (q : Request) (dst : Dst) (w : W) : poll_res TrySendError Resp * W :=
  match connection_for n cfg dst w with
  | (RErr e, w) => (RErr (Nope e), w)
  | (RVal p, w) =>
      match fit_request cfg p q with
      | None => (RPanic, drop_pooled p w)
      | Some (Err e) => (RErr (Nope e), drop_pooled p w)
      | Some (Ok q) =>
          match exchange p q w with
          | (Ok res, w) =>
              (RVal res, if pd_http2 p || negb (pd_pool_enabled p) || pooled_ready p w then drop_pooled p w
                         else spawn_on_idle p w)
          | (Err (e, Some q), w) =>
              (RErr (Retryable (with_connect_info (pd_info p) (err Canceled (Some (SConn e)))) q (pd_reused p)), drop_pooled p w)
          | (Err (e, None), w) =>
              (RErr (Nope (with_connect_info (pd_info p) (err SendRequest (Some (SConn e))))), drop_pooled p w)
          end
      end
  | (RPending, w) => (RPending, w)
  | (RPanic, w) => (RPanic, w)
  | (RFuel, w) => (RFuel, w)
  end.

(** The loop of [send_request]; [uri] is the request's own. *)
Fixpoint send_loop (n k : nat) (cfg : Config) (uri : Uri) (q : Request) (dst : Dst) (w : W) : poll_res CError Resp * W :=
  match k with
  | O => (RFuel, w)
  | S k =>
      match try_send_request n cfg q dst w with
      | (RVal res, w) => (RVal res, w)
      | (RErr (Nope e), w) => (RErr e, w)
      | (RErr (Retryable e q reused), w) =>
          if negb (retry_canceled_requests cfg) || negb reused then (RErr e, w)
          else send_loop n k cfg uri (set_uri uri q) dst w
      | (RPending, w) => (RPending, w)
      | (RPanic, w) => (RPanic, w)
      | (RFuel, w) => (RFuel, w)
      end
  end.
Definition send_request (n : nat) (cfg : Config) (q : Request) (dst : Dst) (w : W) : poll_res CError Resp * W :=
  send_loop n n cfg (q_uri q) q dst w.

(** [Client::request], awaited *)
Definition request (n : nat) (cfg : Config) (q : Request) (version : option Version) (network : NetworkScheme) (w : W)
  : poll_res CError Resp * W :=
  let is_http_connect := bool_decide (q_method q = CONNECT) in
  let go :=
    match dst_new (q_uri q) is_http_connect network version with
    | Some (Ok (dst, uri)) => send_request n cfg (set_uri uri q) dst w
    | Some (Err e) => (RErr e, w)
    | None => (RPanic, w)
    end in
  match q_version q with
  | HTTP_10 => if is_http_connect then (RErr (err UserUnsupportedRequestMethod None), w) else go
  | HTTP_11 | HTTP_2 => go
  | _ => (RErr (err UserUnsupportedVersion None), w)
  end.

(** ** Connecting: what [connect_to] does around the connector *)

Definition connect_ver (cfg : Config) (dst : Dst) : Ver := if only_http2 dst then Http2 else cfg_ver cfg.

Section ConnectTo.
Context {K : Type} `{Countable K} {T : Type} `{Poolable T} {L : Type} {lru : Lru K (list (Idle T)) L}
  {CS : Type} {os : Oneshot T CS}.
Abbreviation Pl := (option (PoolInner K L)).
Abbreviation Lock := (Connecting (K := K)).

(** Taking the connecting lock, when the connect is first polled. *)
Definition connect_start (ver : Ver) (key : K) (inner : Pl) : result Lock CError * Pl :=
  match pool_connecting key ver inner with
  | (Some lock, inner) => (Ok lock, inner)
  | (None, inner) => (Err (err Canceled None), inner)
  end.

(** [Drop for Connecting] on the shared pool, if there is one. *)
Definition drop_lock (lock : Lock) (inner : Pl) (cs : CS) : Pl * CS :=
  match inner with
  | Some p => let '(p, cs) := connecting_drop lock p cs in (Some p, cs)
  | None => (None, cs)
  end.

(** The connector has a connection ([alpn_is_h2]: it negotiated HTTP/2): the
    lock that goes on, and whether the handshake is HTTP/2's. *)
Definition connect_connected (ver : Ver) (alpn_is_h2 : bool) (lock : Lock) (inner : Pl) : result (Lock * bool) CError * Pl :=
  let is_ver_h2 := bool_decide (ver = Http2) in
  if alpn_is_h2 && negb is_ver_h2 then
    match alpn_h2 lock inner with
    | (Some lock, inner) => (Ok (lock, true), inner)
    | (None, inner) => (Err (err Canceled (Some (SText "ALPN upgraded to HTTP/2"))), inner)
    end
  else (Ok (lock, is_ver_h2 || alpn_is_h2), inner).

(** One connect from its first poll to its end.  [connected]: what the connector
    delivers, and [value] what the handshake makes of it; [during1], [during2]: what
    the rest of the program does to the pool while the connector and the handshake
    are awaited. *)
Definition connect_to (gone : nat -> bool) (at_ : Z) (during1 during2 : Pl -> CS -> Pl * CS)
    (ver : Ver) (key : K) (connected : result bool Source) (value : bool -> result T Error.Error) (inner : Pl) (cs : CS)
  : result (Pool.Pooled (K := K) (T := T)) CError * Pl * CS :=
  match connect_start ver key inner with
  | (Err e, inner) => (Err e, inner, cs)
  | (Ok lock, inner) =>
      let '(inner, cs) := during1 inner cs in
      match connected with
      | Err e => let '(inner, cs) := drop_lock lock inner cs in (Err (err Connect (Some e)), inner, cs)
      | Ok alpn_is_h2 =>
          match connect_connected ver alpn_is_h2 lock inner with
          | (Err e, inner) => (Err e, inner, cs)
          | (Ok (lock, is_h2), inner) =>
              let '(inner, cs) := during2 inner cs in
              match value is_h2 with
              | Err e => let '(inner, cs) := drop_lock lock inner cs in (Err (err SendRequest (Some (SConn e))), inner, cs)
              | Ok v =>
                  let '(p, lock, inner, cs) := pooled gone at_ lock v inner cs in
                  let '(inner, cs) := drop_lock lock inner cs in (Ok p, inner, cs)
              end
          end
      end
  end.
End ConnectTo.
End Core.
End Core.
