(* ===== verification/CoreClientProps.v ===== *)
(** * Properties of the core client

    A request is exchanged on a sequence of connections; all but the last handed
    it back unsent.  How its target and its Host are written, when a canceled
    connection attempt is tried again, and that a connect gives its lock back. *)

From S2P Require Import Prelude Buf Http Error Models Oneshot Pool PoolProps CoreClient PendingFacts.
Import Pool Core.

(** What happens to a request: the race for a connection, a connect or a checkout
    that is awaited, and its exchange on a connection. *)
Inductive NetEvent {HC : HttpCrate} {Uri NS Ext Bd Resp C : Type} :=
| EvRace (d : Dst (Uri := Uri) (NetworkScheme := NS)) (r : Raced (Connected := C))
| EvConnect (d : Dst (Uri := Uri) (NetworkScheme := NS)) (r : result (Pooled (Connected := C)) (CError (Connected := C)))
| EvCheckout (d : Dst (Uri := Uri) (NetworkScheme := NS)) (r : result (Pooled (Connected := C)) PoolError)
| EvExchange (p : Pooled (Connected := C)) (q : Request (Uri := Uri) (Ext := Ext) (Bd := Bd))
    (o : result Resp (Error.Error * option (Request (Uri := Uri) (Ext := Ext) (Bd := Bd)))).

(** The log of these events.  A request that comes back is the one that was given. *)
Class NetLaws {HC : HttpCrate} {Uri NS Ext Bd Resp C W : Type}
    (NW : Net (Uri := Uri) (NetworkScheme := NS) (Ext := Ext) (Bd := Bd) (Resp := Resp) (Connected := C) W) := {
  log : W -> list (NetEvent (Uri := Uri) (NS := NS) (Ext := Ext) (Bd := Bd) (Resp := Resp) (C := C));
  exchange_log p q w : log (exchange p q w).2 = log w ++ [EvExchange p q (exchange p q w).1];
  exchange_back p q w e q' : (exchange p q w).1 = Err (e, Some q') -> q' = q;
  race_log d w : log (race d w).2 = log w ++ [EvRace d (race d w).1];
  await_connect_log d w : log (await_connect d w).2 = log w ++ [EvConnect d (await_connect d w).1];
  await_checkout_log d w : log (await_checkout d w).2 = log w ++ [EvCheckout d (await_checkout d w).1];
  spawn_connect_log d w : log (spawn_connect d w) = log w;
  drop_pooled_log p w : log (drop_pooled p w) = log w;
  spawn_on_idle_log p w : log (spawn_on_idle p w) = log w
}.

Section CoreProps.
Context `{HL : HttpLaws} {Uri NS Ext Bd Resp C W : Type} {UC : UriCrate Uri} {UL : UriLaws Uri}.
Context (is_proxied : C -> bool) (hv_from_str : bytes -> option HeaderValue).
Context {NW : Net (Uri := Uri) (NetworkScheme := NS) (Ext := Ext) (Bd := Bd) (Resp := Resp) (Connected := C) W} {NL : NetLaws NW}.

Abbreviation Req := (Request (Uri := Uri) (Ext := Ext) (Bd := Bd)).
Abbreviation Conn := (Pooled (Connected := C)).
Abbreviation DstT := (Dst (Uri := Uri) (NetworkScheme := NS)).
Abbreviation fit_request := (fit_request is_proxied hv_from_str).
Abbreviation try_send_request := (try_send_request is_proxied hv_from_str).
Abbreviation send_loop := (send_loop is_proxied hv_from_str).
Abbreviation send_request := (send_request is_proxied hv_from_str).

Abbreviation Event := (NetEvent (Uri := Uri) (NS := NS) (Ext := Ext) (Bd := Bd) (Resp := Resp) (C := C)).

(** ** Getting a connection *)

Definition no_connection (e : PoolError) : CError (Connected := C) := err Connect (Some (SPool e)).

(** One try: the race; a connect, after a checkout of a closed connection (or without
    a pool); a checkout, after a connect that gave way to another one. *)
Inductive one_try (d : DstT) : list Event -> result Conn CError + PoolError -> Prop :=
| ot_connect r : one_try d [EvConnect d r] (inl r)
| ot_checked_out p started : one_try d [EvRace d (CheckoutOk p started)] (inl (Ok p))
| ot_connected p : one_try d [EvRace d (ConnectOk p)] (inl (Ok p))
| ot_closed r : one_try d [EvRace d (CheckoutErr CheckedOutClosedValue); EvConnect d r] (inl r)
| ot_pool_error e : e <> CheckedOutClosedValue -> one_try d [EvRace d (CheckoutErr e)] (inl (Err (no_connection e)))
| ot_failed e : ce_kind e <> Canceled -> one_try d [EvRace d (ConnectErr e)] (inl (Err e))
| ot_waited e p : ce_kind e = Canceled -> one_try d [EvRace d (ConnectErr e); EvCheckout d (Ok p)] (inl (Ok p))
| ot_waited_in_vain e e' : ce_kind e = Canceled -> one_try d [EvRace d (ConnectErr e); EvCheckout d (Err e')] (inr e').

(** Tries, one after another: the next one only if the client retries, is for HTTP/2
    only, and the connection that was waited for is closed.  [RFuel]: no end yet. *)
Inductive obtains (cfg : Config) (d : DstT) : list Event -> poll_res CError Conn -> Prop :=
| ob_got l p : one_try d l (inl (Ok p)) -> obtains cfg d l (RVal p)
| ob_failed l e : one_try d l (inl (Err e)) -> obtains cfg d l (RErr e)
| ob_given_up l e :
    one_try d l (inr e) -> retry_canceled_requests cfg = false \/ cfg_ver cfg <> Http2 \/ e <> CheckedOutClosedValue ->
    obtains cfg d l (RErr (no_connection e))
| ob_again l l' r :
    one_try d l (inr CheckedOutClosedValue) -> cfg_ver cfg = Http2 -> retry_canceled_requests cfg = true ->
    obtains cfg d l' r -> obtains cfg d (l ++ l') r
| ob_not_yet : obtains cfg d [] RFuel.

Lemma obtains_ends cfg d l r : obtains cfg d l r -> r <> RPending /\ r <> RPanic.
Proof. by induction 1. Qed.

(** How often a request goes round again: a connection that was waited for is closed, or
    one of the pool hands the request back. *)
Definition goes_round (e : Event) : bool :=
  match e with
  | EvCheckout _ (Err CheckedOutClosedValue) => true
  | EvExchange p _ (Err (_, Some _)) => pd_reused p
  | _ => false
  end.
Definition rounds (l : list Event) : nat := length (List.filter goes_round l).

Lemma rounds_app l l' : rounds (l ++ l') = (rounds l + rounds l')%nat.
Proof. unfold rounds. by rewrite List.filter_app, length_app. Qed.

Definition try_result (cfg : Config) (o : result Conn CError + PoolError) : result Conn (ClientConnectError (Connected := C)) :=
  match o with
  | inl (Ok p) => Ok p
  | inl (Err e) => Err (Normal e)
  | inr e => Err (if bool_decide (cfg_ver cfg = Http2) && pool_is_canceled e then CheckoutIsClosed e else Normal (no_connection e))
  end.

Lemma one_connection_for_spec cfg (d : DstT) w r w' :
  one_connection_for cfg d w = (r, w') -> exists l o, log w' = log w ++ l /\ one_try d l o /\ r = try_result cfg o.
Proof.
  unfold one_connection_for. intros E. pose proof (await_connect_log d) as Hc. pose proof (await_checkout_log d) as Hk.
  destruct (pool_enabled w); cbn [negb] in E.
  2: { specialize (Hc w). destruct (await_connect d w) as [o w1]. simplify_eq. eexists _, _. split; [exact Hc|]. split; [constructor|by destruct o]. }
  pose proof (race_log d w) as Hr. destruct (race d w) as [rc w1]. cbn in Hr. destruct rc as [p st|p|e|e].
  - simplify_eq. eexists _, _. split; [destruct st; rewrite ?spawn_connect_log; exact Hr|]. split; [constructor|done].
  - simplify_eq. eexists _, _. split; [exact Hr|]. split; [constructor|done].
  - destruct e; cbn in E; simplify_eq.
    1-2: (eexists _, _; split; [exact Hr|]; split; [by apply ot_pool_error|done]).
    specialize (Hc w1). destruct (await_connect d w1) as [o w2]. simplify_eq. rewrite Hr, <- app_assoc in Hc.
    eexists _, _. split; [exact Hc|]. split; [constructor|by destruct o].
  - unfold is_canceled in E. destruct (ce_kind e) eqn:Ek; cbn in E.
    2-7: (simplify_eq; eexists _, _; split; [exact Hr|]; split; [constructor; congruence|done]).
    specialize (Hk w1). destruct (await_checkout d w1) as [o w2]. simplify_eq. rewrite Hr, <- app_assoc in Hk.
    destruct o as [p|e']; eexists _, _; (split; [exact Hk|]); (split; [by constructor|done]).
Qed.

Lemma connection_for_spec n cfg (d : DstT) w r w' :
  connection_for n cfg d w = (r, w') ->
  exists l, log w' = log w ++ l /\ obtains cfg d l r /\ (r = RFuel -> (n <= rounds l)%nat).
Proof.
  revert w. induction n as [|n IH]; intros w E; cbn in E.
  { simplify_eq. exists []. rewrite app_nil_r. split; [done|]. split; [constructor|]. lia. }
  destruct (one_connection_for cfg d w) as [o w1] eqn:Eo. apply one_connection_for_spec in Eo as (l & t & Hl & Ht & ->).
  destruct t as [[p|e]|e]; cbn in E; [simplify_eq; exists l; (split; [done|]); (split; [by constructor|done])..|].
  assert (Hgive : retry_canceled_requests cfg = false \/ cfg_ver cfg <> Http2 \/ e <> CheckedOutClosedValue ->
    exists l, log w1 = log w ++ l /\ obtains cfg d l (RErr (no_connection e)) /\ (RErr (no_connection e) = @RFuel _ Conn -> (S n <= rounds l)%nat)).
  { intros Hg. exists l. split; [done|]. split; [by constructor|done]. }
  case_bool_decide as Ev; cbn [andb] in E; [|simplify_eq; apply Hgive; tauto].
  destruct e; cbn in E; simplify_eq; [apply Hgive; right; by right..|].
  destruct (retry_canceled_requests cfg) eqn:Er; cbn [negb] in E; [|simplify_eq; apply Hgive; by left].
  apply IH in E as (l' & Hl' & Ho & Hf). exists (l ++ l'). rewrite Hl', Hl, app_assoc. split; [done|]. split; [by econstructor|].
  intros Hr. specialize (Hf Hr). rewrite rounds_app. enough (1 <= rounds l)%nat by lia. inversion Ht; subst; unfold rounds; cbn; lia.
Qed.

(** ** All attempts *)

(** What all attempts have in common with the request: everything but the
    target's form and a Host that may have been added. *)
Definition same_request (q q' : Req) : Prop :=
  q_method q' = q_method q /\ q_version q' = q_version q /\ q_ext q' = q_ext q /\ q_body q' = q_body q /\
  forall k, hm_get_all k (q_headers q') = hm_get_all k (q_headers q) \/
    k = HOST /\ hm_get_all k (q_headers q) = [] /\ exists v, hm_get_all k (q_headers q') = [v].

Lemma same_request_trans q1 q2 q3 : same_request q1 q2 -> same_request q2 q3 -> same_request q1 q3.
Proof.
  intros (A1 & A2 & A3 & A4 & H1) (B1 & B2 & B3 & B4 & H2). unfold same_request. split_and!; try congruence.
  intros k. destruct (H1 k) as [<-|(-> & Hn & v & Hv)]; [apply H2|]. right. split; [done|]. split; [done|].
  destruct (H2 HOST) as [->|(_ & Hn' & _)]; [by exists v|]. by rewrite Hv in Hn'.
Qed.

Lemma same_request_uri q u : same_request q (set_uri u q).
Proof. unfold same_request. cbn. split_and!; try done. intros k. by left. Qed.

Lemma set_host_same q q' : set_host hv_from_str q = Some q' -> same_request q q' /\ q_uri q' = q_uri q.
Proof.
  unfold set_host. destruct (contains_key HOST (q_headers q)) eqn:Ek; intros E.
  { simplify_eq. split; [|done]. unfold same_request. split_and!; try done. by left. }
  destruct (host_value hv_from_str (q_uri q)) as [v|]; cbn [mbind option_bind] in E; simplify_eq. split; [|done].
  unfold same_request. cbn [set_headers q_method q_version q_ext q_body q_headers]. split_and!; try done. intros k. rewrite get_all_insert.
  case_decide as Hk; [|by left]. subst k. right. split; [done|]. split; [|by exists v].
  revert Ek. unfold contains_key. by destruct (hm_get_all HOST (q_headers q)).
Qed.

Lemma fit_request_same cfg p q q' : fit_request cfg p q = Some (Ok q') -> same_request q q'.
Proof.
  unfold fit_request. destruct (pd_http2 p); cbn [negb]; [intros [= ->]; apply (same_request_uri q' (q_uri q'))|].
  case_bool_decide; [done|]. destruct (if cfg_set_host cfg then _ else _) as [q1|] eqn:E1; [|done]. cbn [mbind option_bind].
  destruct (if bool_decide _ then _ else _) as [u|]; [|done]. cbn [mbind option_bind]. intros [= <-].
  apply (same_request_trans q q1); [|apply same_request_uri].
  destruct (cfg_set_host cfg); [by apply set_host_same in E1 as [? _]|]. simplify_eq. apply (same_request_uri q1 (q_uri q1)).
Qed.

(** An attempt carries the request, fitted to its connection from its own URI. *)
Definition attempt_of (cfg : Config) (q : Req) (p : Conn) (o : option (result Req CError)) : Prop :=
  exists q0, same_request q q0 /\ q_uri q0 = q_uri q /\ fit_request cfg p q0 = o.

(** What the caller gets from the last connection. *)
Definition answer (p : Conn) (o : result Resp (Error.Error * option Req)) : poll_res (CError (Connected := C)) Resp :=
  match o with
  | Ok res => RVal res
  | Err (e, Some _) => RErr (with_connect_info (pd_info p) (err Canceled (Some (SConn e))))
  | Err (e, None) => RErr (with_connect_info (pd_info p) (err SendRequest (Some (SConn e))))
  end.

(** The whole history of one request: it gets a connection, is fitted to it and
    exchanged; it goes on to another one only if the client retries, the connection
    came from the pool and handed the request back. *)
Inductive attempts (cfg : Config) (q : Req) (d : DstT) : list Event -> poll_res (CError (Connected := C)) Resp -> Prop :=
| at_no_connection l e : obtains cfg d l (RErr e) -> attempts cfg q d l (RErr e)
| at_unfit l p e : obtains cfg d l (RVal p) -> attempt_of cfg q p (Some (Err e)) -> attempts cfg q d l (RErr e)
| at_panic l p : obtains cfg d l (RVal p) -> attempt_of cfg q p None -> attempts cfg q d l RPanic
| at_last l p q' o :
    obtains cfg d l (RVal p) -> attempt_of cfg q p (Some (Ok q')) ->
    (forall e q'', o = Err (e, Some q'') -> retry_canceled_requests cfg = false \/ pd_reused p = false) ->
    attempts cfg q d (l ++ [EvExchange p q' o]) (answer p o)
| at_again l p q' e l' r :
    obtains cfg d l (RVal p) -> attempt_of cfg q p (Some (Ok q')) -> retry_canceled_requests cfg = true -> pd_reused p = true ->
    attempts cfg q d l' r -> attempts cfg q d (l ++ EvExchange p q' (Err (e, Some q')) :: l') r
| at_not_yet l : obtains cfg d l RFuel -> attempts cfg q d l RFuel.

Lemma attempt_next cfg q p q0 q' :
  same_request q q0 -> fit_request cfg p q0 = Some (Ok q') -> same_request q (set_uri (q_uri q) q').
Proof. intros Hq Hf. apply (same_request_trans q q'); [|apply same_request_uri]. by apply (same_request_trans q q0), (fit_request_same cfg p). Qed.

Lemma send_loop_spec n k cfg (q q0 : Req) (d : DstT) w r w' :
  same_request q q0 -> q_uri q0 = q_uri q ->
  send_loop n k cfg (q_uri q) q0 d w = (r, w') ->
  exists l, log w' = log w ++ l /\ attempts cfg q d l r /\ (r = RFuel -> (Nat.min n k <= rounds l)%nat).
Proof.
  revert q0 w. induction k as [|k IH]; intros q0 w Hq Hu E; cbn [send_loop] in E.
  { simplify_eq. exists []. rewrite app_nil_r. split; [done|]. split; [apply at_not_yet; constructor|]. lia. }
  unfold try_send_request in E. destruct (connection_for n cfg d w) as [c w1] eqn:Ec.
  apply connection_for_spec in Ec as (l & Hl & Ho & Hf). destruct c as [p| |e| |]; try (by destruct (obtains_ends _ _ _ _ Ho)).
  2: { simplify_eq. exists l. split; [done|]. by split; [constructor|]. }
  2: { simplify_eq. exists l. split; [done|]. split; [by constructor|]. intros _. specialize (Hf eq_refl). lia. }
  destruct (fit_request cfg p q0) as [[q'|e]|] eqn:Eq.
  2: { simplify_eq. exists l. rewrite drop_pooled_log. split; [done|]. split; [|done]. eapply at_unfit; [done|]. by exists q0. }
  2: { simplify_eq. exists l. rewrite drop_pooled_log. split; [done|]. split; [|done]. eapply at_panic; [done|]. by exists q0. }
  assert (Ha : attempt_of cfg q p (Some (Ok q'))) by (by exists q0).
  pose proof (exchange_log p q' w1) as Hx. pose proof (exchange_back p q' w1) as Hb. destruct (exchange p q' w1) as [o w2]. cbn in Hx, Hb.
  rewrite Hl, <- app_assoc in Hx. pose proof (at_last cfg q d l p q' o Ho Ha) as Hlast.
  destruct o as [res|[e [q''|]]].
  - simplify_eq. eexists. split; [case_match; rewrite ?drop_pooled_log, ?spawn_on_idle_log; exact Hx|]. split; [by apply Hlast|done].
  - rewrite (Hb _ _ eq_refl) in *. destruct (negb (retry_canceled_requests cfg) || negb (pd_reused p)) eqn:Eb.
    + simplify_eq. eexists. split; [rewrite drop_pooled_log; exact Hx|]. split; [|done]. apply Hlast. intros ? ? _.
      by apply orb_true_iff in Eb as [?%negb_true_iff|?%negb_true_iff]; [left|right].
    + apply orb_false_iff in Eb as [Eb1%negb_false_iff Eb2%negb_false_iff].
      apply IH in E as (l' & Hl' & Hat & Hn); [|by eapply attempt_next|done].
      exists (l ++ EvExchange p q' (Err (e, Some q')) :: l'). rewrite Hl', drop_pooled_log, Hx, <- !app_assoc. split; [done|].
      split; [by apply at_again|]. intros Hr. specialize (Hn Hr). rewrite rounds_app.
      enough (rounds (EvExchange p q' (Err (e, Some q')) :: l') = S (rounds l')) by lia. unfold rounds. cbn. by rewrite Eb2.
  - simplify_eq. eexists. split; [rewrite drop_pooled_log; exact Hx|]. split; [by apply Hlast|done].
Qed.

(** C25. A request is sent at most once.  Each time it gets a connection to its
    destination (a race of a checkout and a connect, with a connect or a checkout awaited after it) it is
    fitted to it, with its own target in the form the connection needs and at most a
    Host added, and exchanged on it.  Only a connection of the pool that handed it
    back unsent is followed by another, and only if the client retries; the result is
    that of the last exchange, or the error of the connection that could not be had
    or could not carry it.  How often that happens is up to the pool and the peers,
    the code sets no bound; but with fuel [n] it ends unless the request was handed
    back, or a connection it waited for turned out closed, [n] times. *)
Theorem request_sent_once n cfg (q : Req) (d : DstT) w r w' :
  send_request n cfg q d w = (r, w') ->
  exists l, log w' = log w ++ l /\ attempts cfg q d l r /\ (r = RFuel -> (n <= rounds l)%nat).
Proof.
  intros E. destruct (send_loop_spec n n cfg q q d w r w') as (l & Hl & Ha & Hn); [apply (same_request_uri q (q_uri q))|done|done|].
  exists l. split; [done|]. split; [done|]. intros Hr. specialize (Hn Hr). lia.
Qed.

(** ** The form of the target *)

(** The host and port that a Host header names: without the scheme's own port. *)
Definition host_of (secure : bool) (auth : bytes) : bytes :=
  auth_host auth ++
  match auth_port auth with
  | Some p => if p =? (if secure then 443 else 80) then [] else bs ":" ++ fmt_dec p
  | None => []
  end.

Lemma host_value_spec uri scheme auth path :
  uri_parts uri = mkUriParts (Some scheme) (Some auth) path ->
  host_value hv_from_str uri = hv_from_str (host_of (bool_decide (scheme = bs "wss") || bool_decide (scheme = HTTPS)) auth).
Proof.
  intros Hu. unfold host_value, get_non_default_port, uri_port, is_schema_secure, host_of. rewrite Hu.
  cbn [up_authority up_scheme mbind option_bind]. f_equal. destruct (auth_port auth) as [p|]; [|by rewrite app_nil_r].
  destruct (bool_decide (scheme = bs "wss") || bool_decide (scheme = HTTPS)); destruct (p =? 443), (p =? 80);
    cbn [andb negb]; rewrite ?app_nil_r; done.
Qed.

(** C31. What an HTTP/1 connection is given: a request for another version than
    HTTP/2, with an absolute URI, is fitted without a panic.  A CONNECT names the
    authority; a proxy that does not tunnel gets the whole URI; else the path and
    query, [/] if there is none.  The Host header is the user's, or else the URI's
    host with its port unless it is the scheme's own. *)
Theorem request_fitted cfg (p : Conn) (q : Req) scheme auth path v :
  pd_http2 p = false -> q_version q <> HTTP_2 -> uri_parts (q_uri q) = mkUriParts (Some scheme) (Some auth) (Some path) ->
  hv_from_str (host_of (bool_decide (scheme = bs "wss") || bool_decide (scheme = HTTPS)) auth) = Some v ->
  exists q', fit_request cfg p q = Some (Ok q') /\
    uri_parts (q_uri q') =
      (if decide (q_method q = CONNECT) then mkUriParts None (Some auth) None
       else if decide (is_proxied (pd_info p) = true /\ scheme <> HTTPS) then mkUriParts (Some scheme) (Some auth) (Some path)
       else mkUriParts None None (Some path)) /\
    hm_get_all HOST (q_headers q') =
      match hm_get_all HOST (q_headers q) with [] => if cfg_set_host cfg then [v] else [] | vs => vs end.
Proof.
  intros Hp Hv Hu Hh. unfold fit_request. rewrite Hp, bool_decide_false by done. cbn [negb].
  assert (exists q1, (if cfg_set_host cfg then set_host hv_from_str q else Some q) = Some q1 /\ same_request q q1 /\
    q_uri q1 = q_uri q /\ hm_get_all HOST (q_headers q1) =
      match hm_get_all HOST (q_headers q) with [] => if cfg_set_host cfg then [v] else [] | vs => vs end) as (q1 & -> & Hs & Hu1 & Hh1).
  { destruct (cfg_set_host cfg).
    - unfold set_host. rewrite (host_value_spec _ scheme auth (Some path) Hu), Hh. cbn [mbind option_bind].
      unfold contains_key. destruct (hm_get_all HOST (q_headers q)) as [|x l] eqn:E.
      + eexists. split; [done|]. split; [apply set_host_same; unfold set_host, contains_key|]; rewrite ?E; cbn.
        * by rewrite (host_value_spec _ scheme auth (Some path) Hu), Hh.
        * split; [done|]. by rewrite get_all_insert_eq.
      + exists q. split_and!; try done. apply (same_request_uri q (q_uri q)).
    - exists q. split_and!; try done; [apply (same_request_uri q (q_uri q))|]. by destruct (hm_get_all HOST (q_headers q)). }
  cbn [mbind option_bind]. destruct Hs as (-> & _).
  assert (exists u, origin_form (q_uri q1) = Some u /\ uri_parts u = mkUriParts None None (Some path)) as (uo & Ho & Hop).
  { unfold origin_form. rewrite Hu1, Hu. cbn [up_path].
    destruct (bool_decide_reflect (path = bs "/")) as [->|_].
    - exists uri_default. split; [done|apply default_parts].
    - by apply from_parts_ok. }
  destruct (decide (q_method q = CONNECT)) as [Hm|Hm].
  - rewrite bool_decide_true by done. unfold authority_form. rewrite Hu1, Hu. cbn [up_authority].
    destruct (from_parts_ok (mkUriParts None (Some auth) None) eq_refl) as (u & -> & Hup). cbn [mbind option_bind]. eexists. by split_and!.
  - rewrite bool_decide_false by done. unfold absolute_form. rewrite Hu1, Hu. cbn [up_scheme]. rewrite Hu1 in Ho.
    destruct (is_proxied (pd_info p)).
    + destruct (decide (scheme = HTTPS)) as [->|Hne].
      * rewrite bool_decide_true, Ho by done. rewrite decide_False by naive_solver. cbn [mbind option_bind]. eexists. by split_and!.
      * rewrite bool_decide_false by congruence. rewrite decide_True by done. cbn [mbind option_bind]. eexists. split; [done|]. split; [exact Hu|exact Hh1].
    + rewrite Ho, decide_False by naive_solver. cbn [mbind option_bind]. eexists. by split_and!.
Qed.

(** ** Retrying a canceled connection attempt *)

(** A request that asks for HTTP/2 on a client without [http2_only]: when its
    connect is canceled because another is under way and the connection it then
    gets from the pool is already closed, the request fails, although the client
    retries and, with [http2_only], would try again. *)
Theorem http2_request_not_retried n cfg (d : DstT) w e w1 w2 :
  cfg_ver cfg = Auto -> only_http2 d = true -> retry_canceled_requests cfg = true -> pool_enabled w = true ->
  race d w = (ConnectErr e, w1) -> is_canceled e = true -> await_checkout d w1 = (Err CheckedOutClosedValue, w2) ->
  connect_ver cfg d = Http2 /\
  connection_for (S n) cfg d w = (RErr (err Connect (Some (SPool CheckedOutClosedValue))), w2) /\
  connection_for (S n) (mkConfig true (cfg_set_host cfg) Http2) d w = connection_for n (mkConfig true (cfg_set_host cfg) Http2) d w2.
Proof.
  intros Hv Ho Hr Hp Hrace Hc Hk. split; [unfold connect_ver; by rewrite Ho|].
  cbn [connection_for]. unfold one_connection_for. by rewrite Hp, Hrace, Hc, Hk, Hv.
Qed.
End CoreProps.

(** ** Connecting *)

Section ConnectProps.
Context {K : Type} `{Countable K} {T : Type} `{Poolable T} {L : Type} {lru : Lru K (list (Idle T)) L}
  {CS : Type} {os : Oneshot T CS} {C : Type}.

(** Other tasks do not take the pool away. *)
Definition keeps_pool (f : option (PoolInner K L) -> CS -> option (PoolInner K L) * CS) : Prop :=
  forall p cs, is_Some (f (Some p) cs).1.

Definition free (key : K) (inner : option (PoolInner K L)) : Prop :=
  exists p, inner = Some p /\ key ∉ connecting p.

Lemma connected_free key (p : PoolInner K L) (cs : CS) : key ∉ connecting (connected key p cs).1.
Proof. cbn. set_solver. Qed.

Lemma drop_lock_free key (p : PoolInner K L) (cs : CS) : free key (drop_lock (mkConnecting key true) (Some p) cs).1.
Proof. eexists. split; [done|]. cbn. set_solver. Qed.

Lemma pooled_free gone at_ key (v : T) (p : PoolInner K L) cs :
  let '(_, lock, inner, cs) := pooled gone at_ (mkConnecting key true) v (Some p) cs in
  free key (drop_lock lock inner cs).1.
Proof.
  unfold pooled. destruct (reserve v).
  - destruct (put _ _ _ _ _ _) as [p1 cs1]. cbn [con_key]. eexists. split; [done|]. cbn. set_solver.
  - apply drop_lock_free.
Qed.

(** However an HTTP/2 connect ends (no connection, a failed handshake, or
    success, also over a connection that only negotiated HTTP/2), it gives the
    key's lock back; a connect that finds the lock taken is canceled, at once and
    without a change if it was to be HTTP/2 from the start. *)
Theorem connect_to_releases gone at_ during1 during2 ver key conn value (p : PoolInner K L) cs :
  keeps_pool during1 -> keeps_pool during2 -> ver = Http2 \/ conn = Ok true ->
  let '(r, inner, cs') := connect_to (Connected := C) gone at_ during1 during2 ver key conn value (Some p) cs in
  (ver = Http2 -> key ∈ connecting p -> r = Err (err Canceled None) /\ inner = Some p /\ cs' = cs) /\
  ((ver = Http2 -> key ∉ connecting p) -> free key inner \/ r = Err (err Canceled (Some (SText "ALPN upgraded to HTTP/2")))).
Proof.
  intros H1k H2k Hv.
  assert (forall is_h2 p1 cs1, let '(r, inner, cs') :=
    (let '(inner, cs) := during2 (Some p1) cs1 in
     match value is_h2 with
     | Err e => let '(inner, cs) := drop_lock (mkConnecting key true) inner cs in
                (Err (err (Connected := C) SendRequest (Some (SConn e))), inner, cs)
     | Ok v => let '(p, lock, inner, cs) := pooled gone at_ (mkConnecting key true) v inner cs in
               let '(inner, cs) := drop_lock lock inner cs in (Ok p, inner, cs)
     end) in free key inner) as Hend.
  { intros is_h2 p1 cs1. specialize (H2k p1 cs1). destruct (during2 (Some p1) cs1) as [[p2|] cs2]; [|by destruct H2k].
    destruct (value is_h2) as [v|e].
    - pose proof (pooled_free gone at_ key v p2 cs2) as Hf. destruct (pooled _ _ _ _ _ _) as [[[? lock] inner] cs3].
      by destruct (drop_lock lock inner cs3).
    - pose proof (drop_lock_free key p2 cs2) as Hf. by destruct (drop_lock _ _ _). }
  unfold connect_to, connect_start, pool_connecting. destruct ver.
  - destruct Hv as [|Hv]; [done|]. subst conn. specialize (H1k p cs). destruct (during1 (Some p) cs) as [[p1|] cs1]; [|by destruct H1k].
    unfold connect_connected, alpn_h2, pool_connecting. rewrite bool_decide_false by done. cbn [andb negb con_key].
    destruct (bool_decide (key ∈ connecting p1)); [split; [done|]; intros _; by right|].
    specialize (Hend true (set_connecting ({[key]} ∪ connecting p1) p1) cs1).
    destruct (let '(inner, cs) := during2 _ _ in _) as [[r inner] cs']. split; [done|]. intros _. by left.
  - case_bool_decide as Hk; [by split; [|intros Hn; destruct (Hn eq_refl)]|].
    specialize (H1k (set_connecting ({[key]} ∪ connecting p) p) cs).
    destruct (during1 _ cs) as [[p1|] cs1]; [|by destruct H1k]. destruct conn as [a|e].
    + unfold connect_connected. rewrite bool_decide_true, andb_false_r by done. cbn [orb].
      specialize (Hend true p1 cs1). destruct (let '(inner, cs) := during2 _ _ in _) as [[r inner] cs'].
      split; [done|]. intros _. by left.
    + pose proof (drop_lock_free key p1 cs1) as Hf. destruct (drop_lock _ _ _). split; [done|]. intros _. by left.
Qed.
End ConnectProps.

(** ** The properties at concrete inputs *)

Module RefCore.
Import RefHttp RefOneshot RefLru.

(** A URI is its parts; an authority is a host and, after a colon, a port. *)
Fixpoint split_port (s acc : bytes) : bytes * option bytes :=
  match s with
  | [] => (reverse acc, None)
  | b :: s => if b =? 58 then (reverse acc, Some s) else split_port s (b :: acc)
  end.

#[export] Instance ref_uri : UriCrate UriParts := {|
  uri_default := mkUriParts None None (Some (bs "/"));
  uri_parts := fun u => u;
  uri_from_parts := fun p => if parts_ok p then Some p else None;
  auth_host := fun a => (split_port a []).1;
  auth_port := fun a => p ← (split_port a []).2; Some (foldl (fun n b => 10 * n + (b - 48)) 0 p)
|}.

#[export] Program Instance ref_uri_laws : UriLaws UriParts.
Next Obligation. done. Qed.
Next Obligation. intros p Hp. exists p. cbn. by rewrite Hp. Qed.

(** Connections of the pool that hand a request back, then one that answers. *)
Abbreviation RQ := (Request (Uri := UriParts) (Ext := unit) (Bd := bytes)).
Abbreviation CN := (Pooled (Connected := bool)).
Abbreviation EV := (NetEvent (Uri := UriParts) (NS := unit) (Ext := unit) (Bd := bytes) (Resp := Z) (C := bool)).
Record world := mkWorld { todo : list bool; seen : list EV }.
Definition see (e : EV) (w : world) : world := mkWorld (todo w) (seen w ++ [e]).
Definition from_pool : CN := mkPooled false false true true 0.

#[export] Instance ref_net : Net (Uri := UriParts) (NetworkScheme := unit) (Ext := unit) (Bd := bytes) (Resp := Z) (Connected := bool) world := {|
  pool_enabled := fun _ => true;
  race := fun d w => (CheckoutOk from_pool false, see (EvRace d (CheckoutOk from_pool false)) w);
  await_connect := fun d w => (Err (err Connect None), see (EvConnect d (Err (err Connect None))) w);
  await_checkout := fun d w => (Err CheckoutNoLongerWanted, see (EvCheckout d (Err CheckoutNoLongerWanted)) w);
  spawn_connect := fun _ w => w;
  exchange := fun p q w =>
    let o := match todo w with true :: _ => Err (Error.new_canceled, Some q) | _ => Ok 200 end in
    (o, mkWorld (tail (todo w)) (seen w ++ [EvExchange p q o]));
  pooled_ready := fun _ _ => true;
  drop_pooled := fun _ w => w;
  spawn_on_idle := fun _ w => w
|}.

#[export] Program Instance ref_net_laws : NetLaws ref_net := {| log := seen |}.
Next Obligation. done. Qed.
Next Obligation. intros p q w e q'. cbn. destruct (todo w) as [|[] l]; try done. by intros [= _ ->]. Qed.
Next Obligation. done. Qed.
Next Obligation. done. Qed.
Next Obligation. done. Qed.
Next Obligation. done. Qed.
Next Obligation. done. Qed.
Next Obligation. done. Qed.

Definition ref_uri_1 : UriParts := mkUriParts (Some HTTP) (Some (bs "a.b:8080")) (Some (bs "/x")).
Definition ref_req : RQ := mkRequest GET ref_uri_1 HTTP_11 hm_new tt [].
Definition ref_dst : Dst (Uri := UriParts) (NetworkScheme := unit) := mkDst ref_uri_1 None tt.
Definition ref_cfg : Config := mkConfig true true Auto.
Definition ref_run := send_request (fun b => b) Some 3 ref_cfg ref_req ref_dst (mkWorld [true] []).

Lemma request_sent_once_witness :
  ref_run.1 = RVal 200 /\ exists l, seen ref_run.2 = l /\ length l = 4%nat /\ attempts (fun b => b) Some ref_cfg ref_req ref_dst l ref_run.1.
Proof.
  destruct ref_run as [r w] eqn:E.
  destruct (request_sent_once (fun b => b) Some 3 ref_cfg ref_req ref_dst (mkWorld [true] []) r w E) as (l & Hl & Ha & _).
  assert (E' := E). vm_compute in E'. injection E' as <- <-. split; [reflexivity|]. exists l. split; [exact Hl|].
  split; [|exact Ha]. cbn in Hl. rewrite <- Hl. reflexivity.
Defined.

Lemma request_fitted_witness :
  exists q', fit_request (fun b : bool => b) Some ref_cfg from_pool ref_req = Some (Ok q') /\
    uri_parts (q_uri q') = mkUriParts None None (Some (bs "/x")) /\ hm_get_all HOST (q_headers q') = [bs "a.b:8080"].
Proof.
  destruct (request_fitted (fun b : bool => b) Some ref_cfg from_pool ref_req HTTP (bs "a.b:8080") (bs "/x") (bs "a.b:8080"))
    as (q' & Hf & Hu & Hh); [reflexivity|discriminate|reflexivity|reflexivity|].
  exists q'. split; [exact Hf|]. split; [exact Hu|exact Hh].
Defined.

(** A pool whose connect is canceled and whose checkout yields a closed
    connection. *)
Definition stale_net : Net (Uri := UriParts) (NetworkScheme := unit) (Ext := unit) (Bd := bytes) (Resp := Z) (Connected := bool) unit := {|
  pool_enabled := fun _ => true;
  race := fun _ w => (ConnectErr (err Canceled None), w);
  await_connect := fun _ w => (Err (err Connect None), w);
  await_checkout := fun _ w => (Err CheckedOutClosedValue, w);
  spawn_connect := fun _ w => w;
  exchange := fun _ _ w => (Ok 200, w);
  pooled_ready := fun _ _ => true;
  drop_pooled := fun _ w => w;
  spawn_on_idle := fun _ w => w
|}.

Lemma http2_request_not_retried_witness :
  connection_for (NW := stale_net) 5 ref_cfg (mkDst ref_uri_1 (Some ALPN_HTTP2) tt) tt =
  (RErr (err Connect (Some (SPool CheckedOutClosedValue))), tt).
Proof.
  exact (proj1 (proj2 (http2_request_not_retried (NW := stale_net) 4 ref_cfg (mkDst ref_uri_1 (Some ALPN_HTTP2) tt) tt
    (err Canceled None) tt tt eq_refl eq_refl eq_refl eq_refl eq_refl eq_refl eq_refl))).
Defined.

(** A connect whose handshake fails. *)
Definition failed_connect :=
  connect_to (Connected := bool) (fun _ => false) 1 (fun i c => (i, c)) (fun i c => (i, c)) Http2 7%nat (Ok true)
    (fun _ => Err Error.new_canceled) (Some Example.empty) (∅ : Example.S).

Lemma connect_to_releases_witness : free 7%nat failed_connect.1.2.
Proof.
  assert (keeps_pool (fun (i : option (PoolInner nat (RefLru.LruCache nat (list (Idle Example.Conn))))) (c : Example.S) => (i, c))) as Hk.
  { intros p cs. exists p. reflexivity. }
  pose proof (connect_to_releases (C := bool) (fun _ => false) 1 (fun i c => (i, c)) (fun i c => (i, c)) Http2 7%nat (Ok true)
    (fun _ => Err Error.new_canceled) Example.empty (∅ : Example.S) Hk Hk (or_introl eq_refl)) as Hr.
  fold failed_connect in Hr. destruct failed_connect as [[r inner] cs] eqn:E. destruct Hr as [_ Hr].
  destruct Hr as [Hf|He]; [intros _; apply not_elem_of_empty|exact Hf|]. rewrite He in E. discriminate E.
Defined.
End RefCore.
