(* ===== verification/Ping.v ===== *)
(** * HTTP/2 pings (src/src/core/proto/h2/ping.rs)

    A connection's [Recorder]s note what was read; its [Ponger] sends pings, to
    estimate the window from the bandwidth-delay product and to notice a dead
    peer.  Instants and durations are nanoseconds; [f64] is the standard library's
    specification of binary64.  The connection's ping channel and the clock are
    interfaces. *)

From Stdlib Require Import SpecFloat.
From S2P Require Import Prelude.

(** ** [f64] *)

Definition f64 := spec_float.
Definition f64_of (n : Z) : f64 := binary_normalize 53 1024 n 0 false.
Definition f64_add : f64 -> f64 -> f64 := SFadd 53 1024.
Definition f64_sub : f64 -> f64 -> f64 := SFsub 53 1024.
Definition f64_mul : f64 -> f64 -> f64 := SFmul 53 1024.
Definition f64_div : f64 -> f64 -> f64 := SFdiv 53 1024.
Definition f64_0 : f64 := S754_zero false.
(** 0.125 and 1.5 *)
Definition f64_eighth : f64 := binary_normalize 53 1024 1 (-3) false.
Definition f64_three_halves : f64 := binary_normalize 53 1024 3 (-1) false.

Definition NANOS_PER_SEC : Z := 1000000000.
Definition from_millis (n : Z) : Z := n * 1000000.
Definition from_secs (n : Z) : Z := n * NANOS_PER_SEC.

Module Ping.

(** ** Bandwidth-delay product *)

Definition BDP_LIMIT : Z := 1024 * 1024 * 16.

Record Bdp := mkBdp { bdp : Z; max_bandwidth : f64; rtt : f64; ping_delay : Z; stable_count : Z }.

Definition seconds (dur : Z) : f64 :=
  f64_add (f64_of (dur / NANOS_PER_SEC)) (f64_div (f64_of (dur mod NANOS_PER_SEC)) (f64_of NANOS_PER_SEC)).

Definition stabilize_delay (b : Bdp) : Bdp :=
  if ping_delay b <? from_secs 10 then
    let n := stable_count b + 1 in
    if 2 <=? n then mkBdp (bdp b) (max_bandwidth b) (rtt b) (ping_delay b * 4) 0
    else mkBdp (bdp b) (max_bandwidth b) (rtt b) (ping_delay b) n
  else b.

Definition calculate (n : Z) (dur : Z) (b : Bdp) : option Z * Bdp :=
  if bdp b =? BDP_LIMIT then (None, stabilize_delay b)
  else
    let r := seconds dur in
    let r := if SFeqb (rtt b) f64_0 then r else f64_add (rtt b) (f64_mul (f64_sub r (rtt b)) f64_eighth) in
    let b := mkBdp (bdp b) (max_bandwidth b) r (ping_delay b) (stable_count b) in
    let bw := f64_div (f64_of n) (f64_mul r f64_three_halves) in
    if SFltb bw (max_bandwidth b) then (None, stabilize_delay b)
    else
      let b := mkBdp (bdp b) bw (rtt b) (ping_delay b) (stable_count b) in
      if bdp b * 2 / 3 <=? n then
        let w := Z.min (wadd n n) BDP_LIMIT in
        (Some w, mkBdp w (max_bandwidth b) (rtt b) (ping_delay b / 2) 0)
      else (None, stabilize_delay b).

(** ** The shared state *)

Record Shared := mkShared {
  ping_sent_at : option Z;
  bytes_read : option Z;
  next_bdp_at : option Z;
  last_read_at : option Z;
  is_keep_alive_timed_out : bool
}.
Definition set_ping_sent_at x s := mkShared x (bytes_read s) (next_bdp_at s) (last_read_at s) (is_keep_alive_timed_out s).
Definition set_bytes x s := mkShared (ping_sent_at s) x (next_bdp_at s) (last_read_at s) (is_keep_alive_timed_out s).
Definition set_next_bdp_at x s := mkShared (ping_sent_at s) (bytes_read s) x (last_read_at s) (is_keep_alive_timed_out s).
Definition set_last_read_at x s := mkShared (ping_sent_at s) (bytes_read s) (next_bdp_at s) x (is_keep_alive_timed_out s).
Definition set_timed_out x s := mkShared (ping_sent_at s) (bytes_read s) (next_bdp_at s) (last_read_at s) x.

Definition is_ping_sent (s : Shared) : bool := bool_decide (is_Some (ping_sent_at s)).

Inductive Pong := PongOk | PongErr | PongPending.

(** The clock and [http2::PingPong]; [send_ping]: whether it was accepted. *)
Class Peer (E : Type) := {
  instant_now : E -> Z * E;
  peer_send_ping : E -> bool * E;
  poll_pong : E -> Pong * E
}.

Section Ping.
Context {E : Type} {HP : Peer E}.

Definition send_ping (s : Shared) (e : E) : Shared * E :=
  match peer_send_ping e with
  | (true, e) => let '(now, e) := instant_now e in (set_ping_sent_at (Some now) s, e)
  | (false, e) => (s, e)
  end.

Definition update_last_read_at (s : Shared) (e : E) : Shared * E :=
  match last_read_at s with
  | Some _ => let '(now, e) := instant_now e in (set_last_read_at (Some now) s, e)
  | None => (s, e)
  end.

(** ** [Recorder]; [None] is the disabled one *)

Definition ready_for_bdp (s : Shared) (e : E) : bool * Shared * E :=
  match next_bdp_at s with
  | Some at_ =>
      let '(now, e) := instant_now e in
      if now <? at_ then (false, s, e) else (true, set_next_bdp_at None s, e)
  | None => (true, s, e)
  end.

Definition record_data (n : Z) (s : Shared) (e : E) : Shared * E :=
  let '(s, e) := update_last_read_at s e in
  let '(ready, s, e) := ready_for_bdp s e in
  if negb ready then (s, e)
  else match bytes_read s with
       | Some b =>
           let s := set_bytes (Some (wadd b n)) s in
           if negb (is_ping_sent s) then send_ping s e else (s, e)
       | None => (s, e)
       end.

Definition record_non_data (s : Shared) (e : E) : Shared * E := update_last_read_at s e.

Inductive KeepAliveError := KeepAliveTimedOut_.
Definition ensure_not_timed_out (s : option Shared) : result unit KeepAliveError :=
  match s with
  | Some s => if is_keep_alive_timed_out s then Err KeepAliveTimedOut_ else Ok tt
  | None => Ok tt
  end.

(** [for_stream]: the recorder of a stream that has already ended is disabled. *)
Definition for_stream (is_end_stream : bool) (r : option Shared) : option Shared :=
  if is_end_stream then None else r.

(** ** [KeepAlive] *)

Inductive KeepAliveState := Init | Scheduled (at_ : Z) | PingSent.

Record KeepAlive := mkKeepAlive {
  interval : Z; timeout : Z; while_idle : bool; ka_state : KeepAliveState; sleep : Z
}.
Definition set_ka (st : KeepAliveState) (deadline : Z) (k : KeepAlive) : KeepAlive :=
  mkKeepAlive (interval k) (timeout k) (while_idle k) st deadline.

(** [Sleep::poll]: ready once the deadline has passed. *)
Definition sleep_ready (k : KeepAlive) (e : E) : bool * E :=
  let '(now, e) := instant_now e in (sleep k <=? now, e).

(** [None]: the [expect] on [last_read_at] fails. *)
Definition schedule (s : Shared) (k : KeepAlive) : option KeepAlive :=
  r ← last_read_at s; Some (set_ka (Scheduled (r + interval k)) (r + interval k) k).

Definition maybe_schedule (is_idle : bool) (s : Shared) (k : KeepAlive) : option KeepAlive :=
  match ka_state k with
  | Init => if negb (while_idle k) && is_idle then Some k else schedule s k
  | PingSent => if is_ping_sent s then Some k else schedule s k
  | Scheduled _ => Some k
  end.

Definition maybe_ping (is_idle : bool) (s : Shared) (k : KeepAlive) (e : E) : option (Shared * KeepAlive * E) :=
  match ka_state k with
  | Scheduled at_ =>
      let '(ready, e) := sleep_ready k e in
      if negb ready then Some (s, k, e)
      else
        r ← last_read_at s;
        if at_ <? r + interval k then Some (s, set_ka Init (sleep k) k, e)
        else if negb (while_idle k) && is_idle then Some (s, k, e)
        else
          let '(s, e) := send_ping s e in
          let '(now, e) := instant_now e in
          Some (s, set_ka PingSent (now + timeout k) k, e)
  | _ => Some (s, k, e)
  end.

(** Whether the keep-alive timed out. *)
Definition maybe_timeout (k : KeepAlive) (e : E) : bool * E :=
  match ka_state k with PingSent => sleep_ready k e | _ => (false, e) end.

(** ** [Ponger] *)

Inductive Ponged := SizeUpdate (w : Z) | KeepAliveTimedOut.
Record Ponger := mkPonger { p_bdp : option Bdp; p_keep_alive : option KeepAlive; p_shared : Shared }.

(** The two keep-alive calls in a row. *)
Definition keep_alive_turn (is_idle : bool) (ka : option KeepAlive) (s : Shared) (e : E)
  : option (option KeepAlive * Shared * E) :=
  match ka with
  | Some k =>
      k ← maybe_schedule is_idle s k;
      '(s, k, e) ← maybe_ping is_idle s k e; Some (Some k, s, e)
  | None => Some (None, s, e)
  end.

(** [Poll<Ponged>]: [None] is pending; the outer [None] is a panic. *)
Definition poll (is_idle : bool) (p : Ponger) (e : E) : option (option Ponged * Ponger * E) :=
  let '(now, e) := instant_now e in
  '(ka, s, e) ← keep_alive_turn is_idle (p_keep_alive p) (p_shared p) e;
  if negb (is_ping_sent s) then Some (None, mkPonger (p_bdp p) ka s, e)
  else
    let '(pong, e) := poll_pong e in
    match pong with
    | PongOk =>
        start ← ping_sent_at s;
        let s := set_ping_sent_at None s in
        let rtt := Z.max 0 (now - start) in
        '(ka, s, e) ← (match ka with
                       | Some k => let '(s, e) := update_last_read_at s e in keep_alive_turn is_idle (Some k) s e
                       | None => Some (None, s, e)
                       end);
        match p_bdp p with
        | Some b =>
            n ← bytes_read s;
            let s := set_bytes (Some 0) s in
            let '(update, b) := calculate n rtt b in
            let s := set_next_bdp_at (Some (now + ping_delay b)) s in
            Some (SizeUpdate <$> update, mkPonger (Some b) ka s, e)
        | None => Some (None, mkPonger None ka s, e)
        end
    | PongErr => Some (None, mkPonger (p_bdp p) ka s, e)
    | PongPending =>
        match ka with
        | Some k =>
            let '(dead, e) := maybe_timeout k e in
            if dead : bool then Some (Some KeepAliveTimedOut, mkPonger (p_bdp p) None (set_timed_out true s), e)
            else Some (None, mkPonger (p_bdp p) (Some k) s, e)
        | None => Some (None, mkPonger (p_bdp p) None s, e)
        end
    end.

(** ** [channel] *)

Record Config := mkConfig {
  bdp_initial_window : option Z; keep_alive_interval : option Z; keep_alive_timeout : Z; keep_alive_while_idle : bool
}.
Definition is_enabled (c : Config) : bool :=
  bool_decide (is_Some (bdp_initial_window c)) || bool_decide (is_Some (keep_alive_interval c)).

Definition channel (c : Config) (e : E) : Ponger * E :=
  let b := (fun w => mkBdp w f64_0 f64_0 (from_millis 100) 0) <$> bdp_initial_window c in
  let '(bytes, next, e) := match b with
                           | Some _ => let '(now, e) := instant_now e in (Some 0, Some now, e)
                           | None => (None, None, e)
                           end in
  let '(ka, last, e) := match keep_alive_interval c with
                  | Some i =>
                      let '(now, e) := instant_now e in
                      let '(last, e) := instant_now e in
                      (Some (mkKeepAlive i (keep_alive_timeout c) (keep_alive_while_idle c) Init (now + i)), Some last, e)
                  | None => (None, None, e)
                  end in
  (mkPonger b ka (mkShared None bytes next last false), e).
End Ping.
End Ping.
