(* ===== verification/PingProps.v ===== *)
(** * Properties of HTTP/2 pings

    [reach] interleaves the recorders and the ponger of one connection.  No call
    panics; the estimated window grows within its limit; a connection is declared
    dead only after it was silent for the interval and then left a ping unanswered
    for the timeout. *)

From Stdlib Require Import SpecFloat.
From S2P Require Import Prelude Ping.
Import Ping.

(** Time does not run backwards; [pings] and [pongs] are the instants at which a
    ping was handed to the connection and an answer came. *)
Class PeerLaws (E : Type) {HP : Peer E} := {
  time : E -> Z;
  pings : E -> list Z;
  pongs : E -> list Z;
  now_time e : (instant_now e).1 = time (instant_now e).2;
  now_later e : time e <= time (instant_now e).2;
  now_pings e : pings (instant_now e).2 = pings e;
  now_pongs e : pongs (instant_now e).2 = pongs e;
  send_later e : time e <= time (peer_send_ping e).2;
  send_pings e : pings (peer_send_ping e).2 = pings e ++ [time (peer_send_ping e).2];
  send_pongs e : pongs (peer_send_ping e).2 = pongs e;
  pong_later e : time e <= time (poll_pong e).2;
  pong_pings e : pings (poll_pong e).2 = pings e;
  pong_pongs e :
    pongs (poll_pong e).2 = match (poll_pong e).1 with PongOk => pongs e ++ [time (poll_pong e).2] | _ => pongs e end
}.

(** ** The window *)

Lemma stabilize_delay_bdp b : bdp (stabilize_delay b) = bdp b.
Proof. unfold stabilize_delay. by repeat case_match. Qed.

(** What holds of an estimate at any time. *)
Definition bdp_wf (b : Bdp) : Prop :=
  0 <= bdp b /\ 0 <= ping_delay b <= from_secs 40 /\ 0 <= stable_count b < 2.

Lemma stabilize_delay_wf b : bdp_wf b -> bdp_wf (stabilize_delay b).
Proof.
  unfold bdp_wf, stabilize_delay, from_secs, NANOS_PER_SEC. intros (? & ? & ?).
  destruct (Z.ltb_spec (ping_delay b) (10 * 1000000000)); [|done].
  destruct (Z.leb_spec 2 (stable_count b + 1)); cbn; lia.
Qed.

Lemma calculate_wf n d b : 0 <= n -> bdp_wf b -> bdp_wf (calculate n d b).2.
Proof.
  intros Hn Hb. unfold calculate. destruct (bdp b =? BDP_LIMIT); [by apply stabilize_delay_wf|]. cbv zeta.
  generalize (if SFeqb (rtt b) f64_0 then seconds d else f64_add (rtt b) (f64_mul (f64_sub (seconds d) (rtt b)) f64_eighth)).
  intros r. destruct (SFltb _ _); [by apply stabilize_delay_wf|]. cbn [bdp max_bandwidth rtt ping_delay stable_count].
  destruct (_ <=? _); [|by apply stabilize_delay_wf]. destruct Hb as (? & ? & ?). unfold bdp_wf. cbn [snd bdp ping_delay stable_count].
  assert (0 <= ping_delay b / 2 <= ping_delay b) by (Z.to_euclidean_division_equations; lia).
  assert (0 <= wadd n n) by (apply Z.mod_pos_bound; done). unfold BDP_LIMIT, from_secs, NANOS_PER_SEC in *. lia.
Qed.

Lemma calculate_grows n d b w b' :
  2 <= bdp b <= BDP_LIMIT -> 0 <= n < 2 ^ 63 -> calculate n d b = (Some w, b') ->
  bdp b' = w /\ bdp b <= w <= BDP_LIMIT /\ bdp b <> BDP_LIMIT /\ bdp b * 2 / 3 <= n /\ w = Z.min (2 * n) BDP_LIMIT.
Proof.
  intros Hb Hn. unfold calculate. destruct (Z.eqb_spec (bdp b) BDP_LIMIT) as [|Hne]; [done|]. cbv zeta.
  generalize (if SFeqb (rtt b) f64_0 then seconds d else f64_add (rtt b) (f64_mul (f64_sub (seconds d) (rtt b)) f64_eighth)).
  intros r. destruct (SFltb _ _); [done|]. cbn [bdp max_bandwidth rtt ping_delay stable_count]. destruct (Z.leb_spec (bdp b * 2 / 3) n) as [Hle|]; [|done]. intros [= <- <-]. cbn [bdp].
  assert (wadd n n = 2 * n) as ->. { unfold wadd, u64_max. rewrite Z.mod_small; lia. }
  split; [done|]. split; [|by split_and!]. pose proof (Z.mul_succ_div_gt (bdp b * 2) 3 ltac:(lia)). lia.
Qed.

Section PingProps.
Context {E : Type} {HP : Peer E} {PL : PeerLaws E}.

(** ** The keep-alive invariant

    [fr]: the instants at which frames were recorded; [i], [t]: the interval and
    the timeout. *)

Definition late (e : E) (fr : list Z) : Prop := Forall (fun f => f <= time e) fr /\ Forall (fun f => f <= time e) (pongs e).

(** A ping was handed over at [t0], after [i] without a frame; since then no pong
    came, and the deadline is [t] later or more. *)
Definition due (i t deadline : Z) (e : E) (fr : list Z) : Prop :=
  exists t0 r0, t0 ∈ pings e /\ t0 <= time e /\ r0 + i <= t0 /\ t0 + t <= deadline /\
    Forall (fun f => f <= r0 \/ t0 <= f) fr /\ Forall (fun f => f <= t0) (pongs e).

Definition ka_inv (i t : Z) (ka : option KeepAlive) (s : Shared) (e : E) (fr : list Z) : Prop :=
  late e fr /\
  match ka with
  | Some k =>
      interval k = i /\ timeout k = t /\
      (exists r, last_read_at s = Some r /\ r <= time e /\ Forall (fun f => f <= r) fr) /\
      match ka_state k with
      | Init => True
      | Scheduled a => sleep k = a
      | PingSent => due i t (sleep k) e fr
      end
  | None => True
  end.

(** Between [e] and [e'] time may have passed and pings been sent, but no pong
    came. *)
Definition quiet (e e' : E) : Prop := time e <= time e' /\ pings e ⊆ pings e' /\ pongs e' = pongs e.

Lemma now_quiet e : quiet e (instant_now e).2.
Proof. split; [apply now_later|]. split; [by rewrite now_pings|apply now_pongs]. Qed.
Lemma send_quiet e : quiet e (peer_send_ping e).2.
Proof. split; [apply send_later|]. split; [rewrite send_pings; set_solver|apply send_pongs]. Qed.
Lemma quiet_trans e1 e2 e3 : quiet e1 e2 -> quiet e2 e3 -> quiet e1 e3.
Proof. intros (? & ? & ?) (? & ? & ?). split; [lia|]. split; [set_solver|congruence]. Qed.

Lemma late_quiet e e' fr : late e fr -> quiet e e' -> late e' fr.
Proof.
  intros [Hf Hp] (Ht & _ & Ho). split; [|rewrite Ho]; (eapply Forall_impl; [done|]); cbn; lia.
Qed.

Lemma due_quiet i t d e e' fr : due i t d e fr -> quiet e e' -> due i t d e' fr.
Proof. intros (t0 & r0 & ? & ? & ? & ? & ? & ?) (? & Hi & Ho). exists t0, r0. rewrite Ho. split_and!; auto. lia. Qed.

Lemma ka_inv_quiet i t ka s e e' fr : ka_inv i t ka s e fr -> quiet e e' -> ka_inv i t ka s e' fr.
Proof.
  intros [Hl Hk] Hq. split; [by eapply late_quiet|]. destruct ka as [k|]; [|done].
  destruct Hk as (? & ? & (r & ? & ? & ?) & Hs). split_and!; try done.
  - exists r. split_and!; try done. destruct Hq. lia.
  - destruct (ka_state k); try done. by eapply due_quiet.
Qed.

(** The parts of the shared state the keep-alive does not look at. *)
Lemma ka_inv_shared i t ka s s' e fr : last_read_at s' = last_read_at s -> ka_inv i t ka s e fr -> ka_inv i t ka s' e fr.
Proof. intros Hs [Hl Hk]. split; [done|]. destruct ka; [|done]. by rewrite Hs. Qed.

Lemma send_ping_spec s e :
  let '(s', e') := send_ping s e in
  quiet e e' /\ last_read_at s' = last_read_at s /\ bytes_read s' = bytes_read s /\
  exists t0, t0 ∈ pings e' /\ time e <= t0 <= time e'.
Proof.
  unfold send_ping. pose proof (send_quiet e) as Hq. pose proof (send_pings e) as Hp.
  destruct (peer_send_ping e) as [ok e1]; cbn in Hq, Hp. destruct ok.
  - pose proof (now_quiet e1) as Hq1. pose proof (now_pings e1) as Hp1. destruct (instant_now e1) as [now e2]; cbn in Hq1, Hp1.
    split; [by eapply quiet_trans|]. split; [done|]. split; [done|]. exists (time e1).
    rewrite Hp1, Hp. destruct Hq, Hq1. split; [set_solver|lia].
  - split; [done|]. split; [done|]. split; [done|]. exists (time e1). rewrite Hp. destruct Hq. split; [set_solver|lia].
Qed.

Lemma schedule_inv i t k s e fr :
  ka_inv i t (Some k) s e fr -> exists k', schedule s k = Some k' /\ ka_inv i t (Some k') s e fr.
Proof.
  intros (Hl & Hi & Ht & (r & Hr & ? & ?) & _). unfold schedule. rewrite Hr. cbn [mbind option_bind].
  eexists. split; [done|]. split; [done|]. cbn. split_and!; try done. by exists r.
Qed.

Lemma maybe_schedule_inv i t is_idle k s e fr :
  ka_inv i t (Some k) s e fr -> exists k', maybe_schedule is_idle s k = Some k' /\ ka_inv i t (Some k') s e fr.
Proof.
  intros Hk. unfold maybe_schedule. destruct (ka_state k).
  - case_match; [by exists k|by apply schedule_inv].
  - by exists k.
  - case_match; [by exists k|by apply schedule_inv].
Qed.

Lemma maybe_ping_inv i t is_idle k s e fr :
  ka_inv i t (Some k) s e fr ->
  exists s' k' e', maybe_ping is_idle s k e = Some (s', k', e') /\ ka_inv i t (Some k') s' e' fr /\ bytes_read s' = bytes_read s /\ quiet e e'.
Proof.
  intros Hk. assert (quiet e e) as Hee by (by split_and!). unfold maybe_ping. destruct (ka_state k) as [|a|] eqn:Est; [by exists s, k, e| |by exists s, k, e].
  unfold sleep_ready. pose proof (now_quiet e) as Hq. pose proof (now_time e) as Hnow. destruct (instant_now e) as [now e1]; cbn in Hq, Hnow.
  pose proof (ka_inv_quiet _ _ _ _ _ _ _ Hk Hq) as Hk1. destruct (Z.leb_spec (sleep k) now) as [Hdl|]; cbn [negb]; [|by exists s, k, e1].
  pose proof Hk1 as (Hl & Hi & Ht & (r & Hr & Hrt & Hfr) & Hst). rewrite Est in Hst. rewrite Hr. cbn [mbind option_bind].
  destruct (Z.ltb_spec a (r + interval k)) as [|Hle].
  { eexists s, _, e1. split; [done|]. split; [|done]. split; [done|]. cbn. split_and!; try done. by exists r. }
  case_match; [by exists s, k, e1|].
  pose proof (send_ping_spec s e1) as Hsp. destruct (send_ping s e1) as [s2 e2]. destruct Hsp as (Hq2 & Hr2 & Hb2 & t0 & Hin & Ht0).
  pose proof (now_quiet e2) as Hq3. pose proof (now_time e2) as Hnow2. destruct (instant_now e2) as [now2 e3]; cbn in Hq3, Hnow2.
  pose proof (quiet_trans _ _ _ Hq2 Hq3) as Hq13.
  eexists s2, _, e3. split; [done|]. split; [|split; [done|]; by eapply quiet_trans].
  split; [by eapply late_quiet|]. cbn. split_and!; try done.
  - exists r. rewrite Hr2. split_and!; try done. destruct Hq13. lia.
  - exists t0, r. destruct Hq3 as (? & Hpi & _). split_and!; [set_solver|lia|lia|lia| |].
    + eapply Forall_impl; [done|]. cbn. lia.
    + destruct Hq13 as (_ & _ & ->). eapply Forall_impl; [apply Hl|]. cbn. lia.
Qed.

Lemma keep_alive_turn_inv i t is_idle ka s e fr :
  ka_inv i t ka s e fr ->
  exists ka' s' e', keep_alive_turn is_idle ka s e = Some (ka', s', e') /\ ka_inv i t ka' s' e' fr /\
    bytes_read s' = bytes_read s /\ quiet e e'.
Proof.
  intros Hk. destruct ka as [k|]; [|exists None, s, e; by split_and!].
  destruct (maybe_schedule_inv i t is_idle k s e fr Hk) as (k1 & Hs1 & Hk1).
  destruct (maybe_ping_inv i t is_idle k1 s e fr Hk1) as (s2 & k2 & e2 & Hp & Hk2 & Hb & Hq).
  cbn. rewrite Hs1. cbn [mbind option_bind]. rewrite Hp. cbn [mbind option_bind]. by exists (Some k2), s2, e2.
Qed.

(** After a pong the old ping is no longer due. *)
Definition ka_weak (i t : Z) (ka : option KeepAlive) (s : Shared) (e : E) (fr : list Z) : Prop :=
  late e fr /\
  match ka with
  | Some k =>
      interval k = i /\ timeout k = t /\
      (exists r, last_read_at s = Some r /\ r <= time e /\ Forall (fun f => f <= r) fr) /\
      match ka_state k with Scheduled a => sleep k = a | _ => True end
  | None => True
  end.

Lemma poll_pong_weak i t ka s e fr : ka_inv i t ka s e fr -> ka_weak i t ka s (poll_pong e).2 fr.
Proof.
  intros [[Hf Hp] Hk]. pose proof (pong_later e) as Hl. pose proof (pong_pongs e) as Ho. destruct (poll_pong e) as [o e1]. cbn in *.
  split; [split|].
  - eapply Forall_impl; [done|]. cbn. lia.
  - assert (Forall (fun f => f <= time e1) (pongs e)) by (eapply Forall_impl; [done|]; cbn; lia).
    rewrite Ho. destruct o; try done. apply Forall_app. split; [done|]. by apply Forall_singleton.
  - destruct ka as [k|]; [|done]. destruct Hk as (? & ? & (r & ? & ? & ?) & ?). split_and!; try done.
    + exists r. split_and!; try done. lia.
    + by destruct (ka_state k).
Qed.

Lemma poll_pong_inv i t ka s e fr : (poll_pong e).1 <> PongOk -> ka_inv i t ka s e fr -> ka_inv i t ka s (poll_pong e).2 fr.
Proof.
  intros Hn Hk. apply (ka_inv_quiet _ _ _ _ e); [done|]. split; [apply pong_later|]. split; [by rewrite pong_pings|].
  rewrite pong_pongs. by destruct (poll_pong e).1.
Qed.

Lemma update_last_read_spec s e :
  let '(s', e') := update_last_read_at s e in
  quiet e e' /\ bytes_read s' = bytes_read s /\ ping_sent_at s' = ping_sent_at s /\
  match last_read_at s with Some _ => exists r, last_read_at s' = Some r /\ time e <= r <= time e' | None => last_read_at s' = None end.
Proof.
  unfold update_last_read_at. destruct (last_read_at s) eqn:El; [|by split_and!].
  pose proof (now_quiet e) as Hq. pose proof (now_time e) as Hn. destruct (instant_now e) as [now e1]. cbn in *.
  split_and!; try done. exists now. destruct Hq. split; [done|]. lia.
Qed.

Lemma update_weak i t ka s e fr f :
  ka_weak i t ka s e fr -> f <= time e ->
  let '(s', e') := update_last_read_at s e in ka_weak i t ka s' e' (fr ++ [f]).
Proof.
  intros [Hl Hk] Hf. pose proof (update_last_read_spec s e) as Hu. destruct (update_last_read_at s e) as [s' e'].
  destruct Hu as (Hq & _ & _ & Hr). split; [split|].
  - apply Forall_app. split; [by apply (late_quiet e e')|]. apply Forall_singleton. destruct Hq. cbn. lia.
  - by apply (late_quiet e e' fr).
  - destruct ka as [k|]; [|done]. destruct Hk as (? & ? & (r & Hlr & ? & Hfr) & ?). rewrite Hlr in Hr. destruct Hr as (r' & ? & ?).
    split_and!; try done. exists r'. split_and!; [done|lia|]. apply Forall_app. split; [|by apply Forall_singleton; cbn; lia].
    eapply Forall_impl; [done|]. cbn. lia.
Qed.

Lemma update_inv i t ka s e fr :
  ka_inv i t ka s e fr ->
  let '(s', e') := update_last_read_at s e in ka_inv i t ka s' e' (fr ++ [time e]).
Proof.
  intros Hk. assert (ka_weak i t ka s e fr) as Hw.
  { destruct Hk as [Hl Hk]. split; [done|]. destruct ka as [k|]; [|done]. destruct Hk as (? & ? & ? & ?). split_and!; try done. by destruct (ka_state k). }
  pose proof (update_weak i t ka s e fr (time e) Hw (Z.le_refl _)) as Hu. pose proof (update_last_read_spec s e) as Hs.
  destruct (update_last_read_at s e) as [s' e']. destruct Hu as [Hl Hu]. split; [done|]. destruct ka as [k|]; [|done].
  destruct Hu as (? & ? & ? & Hst). split_and!; try done. destruct (ka_state k) eqn:Est; try done.
  destruct Hk as (_ & _ & _ & _ & Hd). rewrite Est in Hd. destruct Hs as (Hq & _).
  destruct (due_quiet _ _ _ _ _ _ Hd Hq) as (t0 & r0 & ? & ? & ? & ? & ? & ?).
  destruct Hd as (t1 & r1 & ? & ? & ? & ? & ? & ?). exists t1, r1. destruct Hq as (? & Hi & ->). split_and!; try done; [by apply Hi|lia|].
  apply Forall_app. split; [done|]. apply Forall_singleton. by right.
Qed.

(** A pong resets the keep-alive. *)
Lemma pong_turn_inv i t is_idle k s e fr :
  ping_sent_at s = None -> ka_weak i t (Some k) s e fr ->
  exists ka' s' e', keep_alive_turn is_idle (Some k) s e = Some (ka', s', e') /\ ka_inv i t ka' s' e' fr /\ bytes_read s' = bytes_read s.
Proof.
  intros Hp Hw. assert (exists k1, maybe_schedule is_idle s k = Some k1 /\ ka_inv i t (Some k1) s e fr) as (k1 & Hs & Hk1).
  { destruct Hw as (Hl & Hi & Ht & (r & Hr & ? & ?) & Hst). unfold maybe_schedule, is_ping_sent, schedule. rewrite Hp, Hr.
    rewrite bool_decide_false by (intros [? ?]; done). cbn [mbind option_bind].
    destruct (ka_state k) eqn:Est.
    - case_match; eexists; (split; [done|]); (split; [done|]); cbn; rewrite ?Est; split_and!; try done; by exists r.
    - eexists. split; [done|]. split; [done|]. rewrite Est. split_and!; try done. by exists r.
    - eexists. split; [done|]. split; [done|]. cbn. split_and!; try done. by exists r. }
  destruct (maybe_ping_inv i t is_idle k1 s e fr Hk1) as (s2 & k2 & e2 & Hpg & Hk2 & Hb & _).
  cbn. rewrite Hs. cbn [mbind option_bind]. rewrite Hpg. cbn [mbind option_bind]. by exists (Some k2), s2, e2.
Qed.

(** ** The ponger *)

Definition bdp_inv (b : option Bdp) (s : Shared) : Prop :=
  match b with Some b => bdp_wf b /\ exists n, bytes_read s = Some n /\ 0 <= n | None => True end.

Definition ponger_inv (i t : Z) (p : Ponger) (e : E) (fr : list Z) : Prop :=
  ka_inv i t (p_keep_alive p) (p_shared p) e fr /\ bdp_inv (p_bdp p) (p_shared p).

Lemma bdp_inv_bytes b s s' : bytes_read s' = bytes_read s -> bdp_inv b s -> bdp_inv b s'.
Proof. intros Hb. unfold bdp_inv. destruct b; [|done]. by rewrite Hb. Qed.

(** A new window comes from the bytes read since the ping. *)
Definition updated (b b' : option Bdp) (n : option Z) (w : Z) : Prop :=
  exists b0 b1 n0 d, b = Some b0 /\ b' = Some b1 /\ n = Some n0 /\ calculate n0 d b0 = (Some w, b1).

(** The last part of a poll that received a pong. *)
Lemma pong_bdp_inv i t b ka s e fr (now r : Z) :
  ka_inv i t ka s e fr -> bdp_inv b s ->
  exists o p', match b with
    | Some b =>
        n ← bytes_read s;
        let s := set_bytes (Some 0) s in
        let '(update, b) := calculate n r b in
        let s := set_next_bdp_at (Some (now + ping_delay b)) s in
        Some (SizeUpdate <$> update, mkPonger (Some b) ka s, e)
    | None => Some (None, mkPonger None ka s, e)
    end = Some (o, p', e) /\ ponger_inv i t p' e fr /\ o <> Some KeepAliveTimedOut /\
    forall w, o = Some (SizeUpdate w) -> updated b (p_bdp p') (bytes_read s) w.
Proof.
  intros Hk Hb. destruct b as [b|]; [|by exists None, (mkPonger None ka s)].
  destruct Hb as (Hw & n & Hn & Hpos). rewrite Hn. cbn [mbind option_bind]. cbv zeta.
  pose proof (calculate_wf n r b Hpos Hw) as Hw'. destruct (calculate n r b) as [u b'] eqn:Ec. cbn in Hw'.
  eexists _, _. split; [done|]. split; [|split; [by destruct u|]; intros w Hu; destruct u; simplify_eq/=; by exists b, b', n, r]. split; [by eapply ka_inv_shared|]. split; [done|]. by exists 0.
Qed.

Lemma poll_inv i t is_idle p e fr :
  ponger_inv i t p e fr ->
  exists o p' e', poll is_idle p e = Some (o, p', e') /\ ponger_inv i t p' e' fr /\
    (o = Some KeepAliveTimedOut -> due i t (time e') e' fr /\ is_keep_alive_timed_out (p_shared p') = true) /\
    forall w, o = Some (SizeUpdate w) -> updated (p_bdp p) (p_bdp p') (bytes_read (p_shared p)) w.
Proof.
  intros [Hk Hb]. unfold poll. pose proof (now_quiet e) as Hq. destruct (instant_now e) as [now e0]. cbn in Hq.
  pose proof (ka_inv_quiet _ _ _ _ _ _ _ Hk Hq) as Hk0.
  destruct (keep_alive_turn_inv i t is_idle _ _ _ _ Hk0) as (ka & s & e1 & -> & Hk1 & Hby & _). cbn [mbind option_bind].
  pose proof (bdp_inv_bytes _ _ _ Hby Hb) as Hb1. unfold is_ping_sent.
  destruct (ping_sent_at s) as [start|] eqn:Eps.
  2:{ rewrite bool_decide_false by (intros [? ?]; done). by eexists _, _, _. }
  rewrite bool_decide_true by done. cbn [negb mbind option_bind].
  pose proof (poll_pong_weak i t ka s e1 fr Hk1) as Hw. pose proof (poll_pong_inv i t ka s e1 fr) as Hi.
  destruct (poll_pong e1) as [[| |] e2]; cbn [fst snd] in Hw, Hi.
  - clear Hi. assert (exists ka' s' e', (match ka with
       | Some k => let '(s, e) := update_last_read_at (set_ping_sent_at None s) e2 in keep_alive_turn is_idle (Some k) s e
       | None => Some (None, set_ping_sent_at None s, e2)
       end) = Some (ka', s', e') /\ ka_inv i t ka' s' e' fr /\ bytes_read s' = bytes_read s) as (ka' & s' & e' & -> & Hk' & Hb').
    { destruct ka as [k|]; [|by eexists _, _, _].
      pose proof (update_last_read_spec (set_ping_sent_at None s) e2) as Hu.
      pose proof (update_weak i t (Some k) (set_ping_sent_at None s) e2 fr (time e2) Hw (Z.le_refl _)) as Hw'.
      destruct (update_last_read_at _ e2) as [s3 e3]. destruct Hu as (_ & Hb3 & Hp3 & _).
      assert (ka_weak i t (Some k) s3 e3 fr) as Hw3.
      { destruct Hw' as [[Hl1 Hl2] (? & ? & (r & ? & ? & Hr) & ?)]. apply Forall_app in Hl1 as [? _], Hr as [? _].
        split; [done|]. split_and!; try done. by exists r. }
      destruct (pong_turn_inv i t is_idle k s3 e3 fr Hp3 Hw3) as (ka' & s' & e' & -> & ? & Hb4).
      exists ka', s', e'. by rewrite Hb4, Hb3. }
    cbn [mbind option_bind].
    destruct (pong_bdp_inv i t (p_bdp p) ka' s' e' fr now (Z.max 0 (now - start)) Hk' (bdp_inv_bytes _ _ _ Hb' Hb1)) as (o & p' & He & Hp' & Ho & Hu).
    exists o, p', e'. rewrite Hb', Hby in Hu. by split_and!.
  - eexists _, _, _. split; [done|]. split; [|by split]. split; [by apply Hi|done].
  - specialize (Hi ltac:(done) Hk1). destruct ka as [k|]; [|by eexists _, _, _].
    unfold maybe_timeout. destruct (ka_state k) eqn:Est; [by eexists _, _, _|by eexists _, _, _|].
    unfold sleep_ready. pose proof (now_quiet e2) as Hq2. pose proof (now_time e2) as Hn2. destruct (instant_now e2) as [now2 e3]. cbn in Hq2, Hn2.
    pose proof (ka_inv_quiet _ _ _ _ _ _ _ Hi Hq2) as Hk3. destruct (Z.leb_spec (sleep k) now2) as [Hle|]; [|by eexists _, _, _].
    eexists _, _, _. split; [done|]. split; [split; [by split; [apply Hk3|]|by eapply bdp_inv_bytes]|]. split; [|done]. intros _. split; [|done].
    destruct Hk3 as (_ & _ & _ & _ & Hd). rewrite Est in Hd. destruct Hd as (t0 & r0 & ? & ? & ? & ? & ? & ?).
    exists t0, r0. split_and!; try done. lia.
Qed.

(** ** The connection's recorders *)

Lemma record_non_data_inv i t p e fr :
  ponger_inv i t p e fr ->
  let '(s, e') := record_non_data (p_shared p) e in ponger_inv i t (mkPonger (p_bdp p) (p_keep_alive p) s) e' (fr ++ [time e]).
Proof.
  intros [Hk Hb]. unfold record_non_data. pose proof (update_inv _ _ _ _ _ _ Hk) as Hu.
  pose proof (update_last_read_spec (p_shared p) e) as Hs. destruct (update_last_read_at _ e) as [s e']. destruct Hs as (_ & Hby & _).
  split; [done|]. by eapply bdp_inv_bytes.
Qed.

Lemma record_data_inv i t n p e fr :
  0 <= n -> ponger_inv i t p e fr ->
  let '(s, e') := record_data n (p_shared p) e in ponger_inv i t (mkPonger (p_bdp p) (p_keep_alive p) s) e' (fr ++ [time e]).
Proof.
  intros Hn Hp. pose proof (record_non_data_inv i t p e fr Hp) as Hr. unfold record_non_data in Hr. unfold record_data.
  destruct (update_last_read_at (p_shared p) e) as [s1 e1]. destruct Hr as [Hk1 Hb1]. cbn in Hk1, Hb1.
  assert (exists b s2 e2, ready_for_bdp s1 e1 = (b, s2, e2) /\ quiet e1 e2 /\ last_read_at s2 = last_read_at s1 /\
    bytes_read s2 = bytes_read s1) as (b & s2 & e2 & -> & Hq & Hlr & Hby).
  { unfold ready_for_bdp. destruct (next_bdp_at s1); [|by eexists _, _, _].
    pose proof (now_quiet e1) as Hq. destruct (instant_now e1) as [now e2]. cbn in Hq. by case_match; eexists _, _, _. }
  assert (ponger_inv i t (mkPonger (p_bdp p) (p_keep_alive p) s2) e2 (fr ++ [time e])) as [Hk2 Hb2].
  { split; cbn; [|by eapply bdp_inv_bytes]. apply (ka_inv_shared _ _ _ s1); [done|]. by apply (ka_inv_quiet _ _ _ _ e1). }
  cbn in Hk2, Hb2. destruct b; cbn [negb]; [|by split]. destruct (bytes_read s2) as [m|] eqn:Em; [|by split].
  assert (bdp_inv (p_bdp p) (set_bytes (Some (wadd m n)) s2)) as Hb3.
  { unfold bdp_inv in *. destruct (p_bdp p); [|done]. destruct Hb2 as [? _]. split; [done|]. eexists. split; [done|].
    unfold wadd, u64_max. by apply Z.mod_pos_bound. }
  destruct (is_ping_sent _); cbn [negb]; [split; [by apply (ka_inv_shared _ _ _ s2)|done]|].
  pose proof (send_ping_spec (set_bytes (Some (wadd m n)) s2) e2) as Hs.
  destruct (send_ping _ e2) as [s3 e3]. destruct Hs as (Hq3 & Hl3 & Hb4 & _). split; cbn.
  - apply (ka_inv_shared _ _ _ s2); [done|]. by apply (ka_inv_quiet _ _ _ _ e2).
  - by eapply bdp_inv_bytes.
Qed.

(** What a connection's pings may come to, with the instants of its frames. *)
Inductive reach (c : Config) : Ponger -> E -> list Z -> Prop :=
| reach_start e p e' : pongs e = [] -> channel c e = (p, e') -> reach c p e' []
| reach_data p e fr n s e' :
    reach c p e fr -> 0 <= n -> record_data n (p_shared p) e = (s, e') ->
    reach c (mkPonger (p_bdp p) (p_keep_alive p) s) e' (fr ++ [time e])
| reach_non_data p e fr s e' :
    reach c p e fr -> record_non_data (p_shared p) e = (s, e') ->
    reach c (mkPonger (p_bdp p) (p_keep_alive p) s) e' (fr ++ [time e])
| reach_poll p e fr is_idle o p' e' : reach c p e fr -> poll is_idle p e = Some (o, p', e') -> reach c p' e' fr
| reach_wait p e fr e' : reach c p e fr -> quiet e e' -> reach c p e' fr.

Lemma reach_inv c p e fr :
  match bdp_initial_window c with Some w => 0 <= w | None => True end ->
  reach c p e fr -> ponger_inv (default 0 (keep_alive_interval c)) (keep_alive_timeout c) p e fr.
Proof.
  intros Hc. induction 1 as [e p e' Hp E0|p e fr n s e' _ IH Hn E0|p e fr s e' _ IH E0|p e fr is_idle o p' e' _ IH E0|p e fr e' _ IH Hq].
  - unfold channel in E0.
    pose proof (now_quiet e) as Hq1. destruct (bdp_initial_window c) as [w|]; cbn in E0; [destruct (instant_now e) as [now e1]; cbn in Hq1|clear Hq1].
    + pose proof (now_quiet e1) as Hq2. destruct (keep_alive_interval c) as [i|]; cbn.
      * destruct (instant_now e1) as [n1 e2]. cbn in Hq2. pose proof (now_quiet e2) as Hq3. pose proof (now_time e2) as Hn3.
        destruct (instant_now e2) as [n2 e3]. cbn in Hq3, Hn3. simplify_eq. split; cbn.
        -- split; [split; [done|]|]. { destruct Hq1 as (_ & _ & E1), Hq2 as (_ & _ & E2), Hq3 as (_ & _ & E3). by rewrite E3, E2, E1, Hp. }
           split_and!; try done. exists (time e'). by split_and!.
        -- split; [|by exists 0]. unfold bdp_wf, from_millis, from_secs, NANOS_PER_SEC. cbn. lia.
      * simplify_eq. split; cbn; [|split; [|by exists 0]; unfold bdp_wf, from_millis, from_secs, NANOS_PER_SEC; cbn; lia].
        split; [|done]. split; [done|]. destruct Hq1 as (_ & _ & ->). by rewrite Hp.
    + pose proof (now_quiet e) as Hq2. destruct (keep_alive_interval c) as [i|]; cbn.
      * destruct (instant_now e) as [n1 e2]. cbn in Hq2. pose proof (now_quiet e2) as Hq3. pose proof (now_time e2) as Hn3.
        destruct (instant_now e2) as [n2 e3]. cbn in Hq3, Hn3. simplify_eq. split; cbn; [|done].
        split; [split; [done|]|]. { destruct Hq2 as (_ & _ & E2), Hq3 as (_ & _ & E3). by rewrite E3, E2, Hp. }
        split_and!; try done. exists (time e'). by split_and!.
      * simplify_eq. split; [|done]. split; [|done]. split; [done|]. by rewrite Hp.
  - pose proof (record_data_inv _ _ n p e fr Hn IH) as Hr. by rewrite E0 in Hr.
  - pose proof (record_non_data_inv _ _ p e fr IH) as Hr. by rewrite E0 in Hr.
  - destruct (poll_inv _ _ is_idle p e fr IH) as (o1 & p1 & e1 & E1 & Hp1 & _). by simplify_eq.
  - destruct IH as [Hk Hb]. split; [by eapply ka_inv_quiet|done].
Qed.

(** C26. However the recorders and the ponger of a connection interleave, a poll
    returns without a panic; and it declares the connection dead only if the
    connection had been without a frame for the keep-alive interval when a ping was
    handed to it, and no pong came for the timeout after that; from then on every
    recorder reports the timeout. *)
Theorem keep_alive_justified c p e fr is_idle :
  match bdp_initial_window c with Some w => 0 <= w | None => True end -> reach c p e fr ->
  exists o p' e', poll is_idle p e = Some (o, p', e') /\
    (o = Some KeepAliveTimedOut ->
     due (default 0 (keep_alive_interval c)) (keep_alive_timeout c) (time e') e' fr /\
     ensure_not_timed_out (Some (p_shared p')) = Err KeepAliveTimedOut_).
Proof.
  intros Hc Hr. destruct (poll_inv _ _ is_idle p e fr (reach_inv c p e fr Hc Hr)) as (o & p' & e' & He & _ & Ht & _).
  exists o, p', e'. split; [done|]. intros Ho. destruct (Ht Ho) as [Hd Hs]. split; [done|]. cbn. by rewrite Hs.
Qed.

(** A window update is twice the bytes read since the ping, at most 16 MiB,
    and never smaller than the window before, if that was between 2 and 16 MiB;
    after it has reached 16 MiB there are no more. *)
Theorem window_grows c p e fr is_idle b n w p' e' :
  match bdp_initial_window c with Some w => 0 <= w | None => True end -> reach c p e fr ->
  p_bdp p = Some b -> 2 <= bdp b <= BDP_LIMIT -> bytes_read (p_shared p) = Some n -> 0 <= n < 2 ^ 63 ->
  poll is_idle p e = Some (Some (SizeUpdate w), p', e') ->
  (exists b', p_bdp p' = Some b' /\ bdp b' = w) /\ bdp b <= w <= BDP_LIMIT /\ bdp b <> BDP_LIMIT /\ w = Z.min (2 * n) BDP_LIMIT.
Proof.
  intros Hc Hr Hb Hw Hn Hbd He.
  destruct (poll_inv _ _ is_idle p e fr (reach_inv c p e fr Hc Hr)) as (o & p1 & e1 & He1 & _ & _ & Hu). simplify_eq.
  destruct (Hu w eq_refl) as (b0 & b1 & n0 & d & Hb0 & Hb1 & Hn0 & Hcal).
  rewrite Hb in Hb0. rewrite Hn in Hn0. injection Hb0 as <-. injection Hn0 as <-.
  destruct (calculate_grows n d b w b1 Hw Hbd Hcal) as (? & ? & ? & _ & ?). split; [by exists b1|]. split_and!; first [done|lia].
Qed.
End PingProps.

(** ** The properties at concrete inputs *)

Module RefPeer.
(** A peer that answers by a script, at the pace of one tick a question. *)
Record peer := mkPeer { at_ : Z; sent : list Z; got : list Z; script : list Pong }.

#[export] Instance ref_peer : Peer peer := {|
  instant_now := fun e => (at_ e, e);
  peer_send_ping := fun e => (true, mkPeer (at_ e) (sent e ++ [at_ e]) (got e) (script e));
  poll_pong := fun e =>
    match script e with
    | PongOk :: l => (PongOk, mkPeer (at_ e) (sent e) (got e ++ [at_ e]) l)
    | o :: l => (o, mkPeer (at_ e) (sent e) (got e) l)
    | [] => (PongPending, e)
    end
|}.

#[export] Program Instance ref_peer_laws : PeerLaws peer := {| time := at_; pings := sent; pongs := got |}.
Next Obligation. done. Qed.
Next Obligation. intros; cbn; lia. Qed.
Next Obligation. done. Qed.
Next Obligation. done. Qed.
Next Obligation. intros; cbn; lia. Qed.
Next Obligation. done. Qed.
Next Obligation. done. Qed.
Next Obligation. intros e. cbn. destruct (script e) as [|[] l]; cbn; lia. Qed.
Next Obligation. intros e. cbn. by destruct (script e) as [|[] l]. Qed.
Next Obligation. intros e. cbn. by destruct (script e) as [|[] l]. Qed.

Definition both : Config := mkConfig (Some 65535) (Some 10) 5 true.
Definition wait (n : Z) (e : peer) : peer := mkPeer (at_ e + n) (sent e) (got e) (script e).

Lemma wait_quiet n e : 0 <= n -> quiet e (wait n e).
Proof. intros Hn. split; [cbn; lia|]. by split. Qed.

(** The connection is silent for the interval, then for the timeout. *)
Definition e0 : peer := mkPeer 0 [] [] [PongPending; PongPending].
Definition start := channel both e0.
Definition pinged := poll false start.1 (wait 10 start.2).

Lemma keep_alive_justified_witness :
  exists p e fr, reach both p e fr /\ option_map (fun x => x.1.1) (poll false p e) = Some (Some KeepAliveTimedOut) /\
    exists o p' e', poll false p e = Some (o, p', e') /\ due 10 5 (time e') e' fr.
Proof.
  assert (reach both start.1 (wait 10 start.2) []) as H0.
  { apply (reach_wait both start.1 start.2); [|apply wait_quiet; lia]. apply (reach_start both e0); reflexivity. }
  destruct pinged as [[[o1 p1] e1]|] eqn:E1; [|discriminate E1].
  assert (reach both p1 (wait 5 e1) []) as H1.
  { apply (reach_wait both p1 e1); [|apply wait_quiet; lia]. exact (reach_poll both _ _ _ false o1 p1 e1 H0 E1). }
  exists p1, (wait 5 e1), []. split; [exact H1|].
  assert (option_map (fun x => x.1.1) (poll false p1 (wait 5 e1)) = Some (Some KeepAliveTimedOut)) as Hd.
  { injection E1 as <- <- <-. vm_compute. reflexivity. }
  split; [exact Hd|].
  destruct (keep_alive_justified both p1 (wait 5 e1) [] false ltac:(cbn; lia) H1) as (o & p' & e' & He & Ht).
  exists o, p', e'. split; [exact He|]. rewrite He in Hd. injection Hd as ->. exact (proj1 (Ht eq_refl)).
Defined.

(** Data is read, the ping is answered. *)
Definition e1 : peer := mkPeer 0 [] [] [PongOk].
Definition start1 := channel both e1.
Definition fed := record_data 50000 (p_shared start1.1) start1.2.
Definition fed_ponger : Ponger := mkPonger (p_bdp start1.1) (p_keep_alive start1.1) fed.1.

Lemma window_grows_witness : 65535 <= 100000 <= BDP_LIMIT /\ 100000 = Z.min (2 * 50000) BDP_LIMIT.
Proof.
  destruct (poll false fed_ponger fed.2) as [[[o p'] e']|] eqn:E; [|discriminate E].
  assert (match o with Some (SizeUpdate w) => w =? 100000 | _ => false end = true) as Ho.
  { assert (match poll false fed_ponger fed.2 with Some (Some (SizeUpdate w), _, _) => w =? 100000 | _ => false end = true) as Hp
      by (vm_compute; reflexivity). rewrite E in Hp. exact Hp. }
  destruct o as [[w|]|]; try discriminate Ho. apply Z.eqb_eq in Ho. subst w.
  destruct (window_grows both fed_ponger fed.2 [0] false (mkBdp 65535 f64_0 f64_0 (from_millis 100) 0) 50000 100000 p' e') as (_ & Hw & _ & He).
  - cbn. lia.
  - exact (reach_data both start1.1 start1.2 [] 50000 fed.1 fed.2 (reach_start both e1 _ _ eq_refl eq_refl) ltac:(lia) eq_refl).
  - reflexivity.
  - vm_compute. split; discriminate.
  - reflexivity.
  - lia.
  - exact E.
  - split; [exact Hw|exact He].
Defined.
End RefPeer.
