(* ===== verification/Multipart.v ===== *)
(** * Multipart forms (src/src/client/multipart.rs, src/src/util.rs)

    A form is a list of named parts; it is sent as a stream of chunks between
    boundaries, and its length is computed beforehand if the parts' are known.  The
    percent-encoding crate and the random numbers' seed are interfaces. *)

From S2P Require Import Prelude Buf Http Error Dispatcher Request.
Import ClientBody.

(** ** The percent-encoding crate: sets of ASCII bytes, and
    [utf8_percent_encode(..).into::<Cow<str>>()], which is borrowed ([None]) when
    nothing had to be encoded. *)

Definition AsciiSet := byte -> bool.
Definition set_add (b : byte) (s : AsciiSet) : AsciiSet := fun x => (x =? b) || s x.
Definition set_remove (b : byte) (s : AsciiSet) : AsciiSet := fun x => negb (x =? b) && s x.

Class PercentCrate := {
  CONTROLS : AsciiSet;
  NON_ALPHANUMERIC : AsciiSet;
  percent_encode_owned : AsciiSet -> bytes -> option bytes
}.

(** ** Random numbers (src/src/util.rs) *)

(** One step of the generator on its state: the new state and the number. *)
Definition fast_random (n : Z) : Z * Z :=
  let n := Z.lxor n (Z.shiftr n 12) in
  let n := Z.lxor n ((Z.shiftl n 25) mod (u64_max + 1)) in
  let n := Z.lxor n (Z.shiftr n 27) in
  (n, (n * 2685821657736338717) mod (u64_max + 1)).

(** [{:016x}] *)
Fixpoint hex_lower (fuel : nat) (n : Z) : bytes :=
  match fuel with
  | O => []
  | S fuel => hex_lower fuel (n / 16) ++ [let d := n mod 16 in if d <? 10 then 48 + d else 87 + d]
  end.

Definition gen_boundary (n : Z) : bytes * Z :=
  let '(n, a) := fast_random n in
  let '(n, b) := fast_random n in
  let '(n, c) := fast_random n in
  let '(n, d) := fast_random n in
  (hex_lower 16 a ++ bs "-" ++ hex_lower 16 b ++ bs "-" ++ hex_lower 16 c ++ bs "-" ++ hex_lower 16 d, n).

Module Multipart.
Section Multipart.
Context `{HttpCrate} {PC : PercentCrate}.
(** A stream yields chunks, each a success or an error. *)
Context {S Err : Type} {sb : Dispatcher.Body S bytes HeaderMap} (stream_items : S -> list (result bytes Err)).

Abbreviation BodyT := (ClientBody.Body (S := S)).

(** [DataStream]: the items a body yields; an empty body yields none. *)
Definition into_stream (b : BodyT) : list (result bytes Err) :=
  match b with
  | Reusable [] => []
  | Reusable x => [Ok x]
  | Streaming s => stream_items s
  end.

Record PartMetadata := mkMeta { mime : option bytes; file_name : option bytes; m_headers : HeaderMap }.
Record Part := mkPart { meta : PartMetadata; value : BodyT; body_length : option Z }.

Inductive PercentEncoding := PathSegment | AttrChar | NoOp.

Record Form := mkForm {
  boundary : bytes;
  computed_headers : list bytes;
  fields : list (bytes * Part);
  percent_encoding : PercentEncoding
}.

(** ** Building *)

Definition meta_new : PartMetadata := mkMeta None None hm_new.
Definition part_new (v : BodyT) (l : option Z) : Part := mkPart meta_new v l.
Definition part_text (v : bytes) : Part := part_new (reusable v) None.
Definition part_bytes (v : bytes) : Part := part_new (reusable v) None.
Definition part_stream_ (v : BodyT) : Part := part_new v None.
Definition stream_with_length (v : BodyT) (l : Z) : Part := part_new v (Some l).
Definition part_mime (m : bytes) (p : Part) : Part :=
  mkPart (mkMeta (Some m) (file_name (meta p)) (m_headers (meta p))) (value p) (body_length p).
Definition part_file_name (f : bytes) (p : Part) : Part :=
  mkPart (mkMeta (mime (meta p)) (Some f) (m_headers (meta p))) (value p) (body_length p).
Definition part_headers (h : HeaderMap) (p : Part) : Part :=
  mkPart (mkMeta (mime (meta p)) (file_name (meta p)) h) (value p) (body_length p).

Definition form_new (rng : Z) : Form * Z :=
  let '(b, rng) := gen_boundary rng in (mkForm b [] [] PathSegment, rng).
Definition form_part (name : bytes) (p : Part) (f : Form) : Form :=
  mkForm (boundary f) (computed_headers f) (fields f ++ [(name, p)]) (percent_encoding f).
Definition form_text (name v : bytes) (f : Form) : Form := form_part name (part_text v) f.
Definition set_percent_encoding (e : PercentEncoding) (f : Form) : Form :=
  mkForm (boundary f) (computed_headers f) (fields f) e.

Definition value_len (p : Part) : option Z :=
  match body_length p with Some n => Some n | None => content_length (value p) end.

(** ** Headers of a part *)

Definition FRAGMENT_ENCODE_SET : AsciiSet :=
  set_add 96 (set_add 62 (set_add 60 (set_add 34 (set_add 32 CONTROLS)))).
Definition PATH_ENCODE_SET : AsciiSet := set_add 125 (set_add 123 (set_add 63 (set_add 35 FRAGMENT_ENCODE_SET))).
Definition PATH_SEGMENT_ENCODE_SET : AsciiSet := set_add 37 (set_add 47 PATH_ENCODE_SET).
Definition ATTR_CHAR_ENCODE_SET : AsciiSet :=
  foldl (fun s b => set_remove b s) NON_ALPHANUMERIC (bs "!#$&+-.^_`|~").

(** [Cow]: [Some] is owned, something was encoded. *)
Definition percent_encode (e : PercentEncoding) (v : bytes) : option bytes :=
  match e with
  | PathSegment => percent_encode_owned PATH_SEGMENT_ENCODE_SET v
  | AttrChar => percent_encode_owned ATTR_CHAR_ENCODE_SET v
  | NoOp => None
  end.

(** [str::replace] of one character. *)
Definition replace_char (c : byte) (by_ : bytes) (s : bytes) : bytes := mjoin ((fun b => if b =? c then by_ else [b]) <$> s).

Definition legal_filename (f : bytes) : bytes :=
  replace_char 10 [92; 10] (replace_char 13 [92; 13] (replace_char 34 [92; 34] (replace_char 92 [92; 92] f))).

Definition encode_headers (e : PercentEncoding) (name : bytes) (m : PartMetadata) : bytes :=
  bs "Content-Disposition: form-data; " ++
  (match percent_encode e name with
   | None => bs "name=" ++ [34] ++ name ++ [34]
   | Some v => bs "name*=utf-8''" ++ v
   end) ++
  (match file_name m with Some f => bs "; filename=" ++ [34] ++ legal_filename f ++ [34] | None => [] end) ++
  (match mime m with Some t => CRLF ++ bs "Content-Type: " ++ t | None => [] end) ++
  mjoin ((fun '(k, v) => CRLF ++ k ++ bs ": " ++ v) <$> hm_iter (m_headers m)).

(** ** The stream *)

Definition dashes : bytes := [45; 45].

Definition part_stream (f : Form) (name : bytes) (p : Part) : list (result bytes Err) :=
  [Ok (dashes ++ boundary f ++ CRLF); Ok (encode_headers (percent_encoding f) name (meta p) ++ CRLF ++ CRLF)] ++
  into_stream (value p) ++ [Ok CRLF].

Definition form_into_stream (f : Form) : list (result bytes Err) :=
  match fields f with
  | [] => []
  | (name, p) :: rest =>
      foldl (fun memo '(name, p) => memo ++ part_stream f name p) (part_stream f name p) rest ++
      [Ok (dashes ++ boundary f ++ dashes ++ CRLF)]
  end.

(** ** The length, with release-mode wrap-around *)

Fixpoint add_lengths (f : Form) (l : list (bytes * Part)) (length : Z) (headers : list bytes) : option Z * list bytes :=
  match l with
  | [] => (Some length, headers)
  | (name, p) :: l =>
      match value_len p with
      | Some v =>
          let header := encode_headers (percent_encoding f) name (meta p) in
          add_lengths f l ((length + (2 + len (boundary f) + 2 + len header + 4 + v + 2)) mod (u64_max + 1)) (headers ++ [header])
      | None => (None, headers)
      end
  end.

Definition compute_length (f : Form) : option Z * Form :=
  let '(n, headers) := add_lengths f (fields f) 0 (computed_headers f) in
  let f' := mkForm (boundary f) headers (fields f) (percent_encoding f) in
  (match n with
   | Some n => Some (match fields f with [] => n | _ => (n + (2 + len (boundary f) + 4)) mod (u64_max + 1) end)
   | None => None
   end, f').
End Multipart.
End Multipart.
