(* ===== verification/MultipartProps.v ===== *)
(** * Properties of multipart forms

    The computed length is the length of what is streamed, a reader that follows
    RFC 2046 gets the parts back, file names cannot break out of their quotes, and
    the random state behind the boundary never dies. *)

From S2P Require Import Prelude Buf Http Error Models Dispatcher Request Multipart.
Import ClientBody Multipart.

(** ** A reader of multipart bodies (RFC 2046) *)

(** What is before the first occurrence of [pat], and what is behind it. *)
Fixpoint cut (pat s : bytes) : option (bytes * bytes) :=
  if bool_decide (pat `prefix_of` s) then Some ([], drop (length pat) s)
  else match s with
       | [] => None
       | x :: s => '(a, r) ← cut pat s; Some (x :: a, r)
       end.

(** Header lines up to an empty one. *)
Fixpoint read_headers (fuel : nat) (s : bytes) : option (list bytes * bytes) :=
  match fuel with
  | O => None
  | S fuel =>
      match cut CRLF s with
      | None => None
      | Some ([], s) => Some ([], s)
      | Some (l, s) => '(ls, s) ← read_headers fuel s; Some (l :: ls, s)
      end
  end.

(** The parts behind a delimiter: [CRLF] and a part, or the end. *)
Fixpoint read_parts (fuel : nat) (b s : bytes) : option (list (list bytes * bytes)) :=
  match fuel with
  | O => None
  | S fuel =>
      if bool_decide (s = dashes ++ CRLF) then Some []
      else if bool_decide (CRLF `prefix_of` s) then
        '(hs, s) ← read_headers (length s) (drop 2 s);
        '(v, s) ← cut (CRLF ++ dashes ++ b) s;
        ps ← read_parts fuel b s;
        Some ((hs, v) :: ps)
      else None
  end.

Definition read_form (b s : bytes) : option (list (list bytes * bytes)) :=
  match s with
  | [] => Some []
  | _ => if bool_decide (dashes ++ b `prefix_of` s) then read_parts (length s) b (drop (length (dashes ++ b)) s) else None
  end.

(** ** Cutting *)

Lemma cut_app pat a r :
  (forall i, (i < length a)%nat -> ~ pat `prefix_of` drop i (a ++ pat ++ r)) -> cut pat (a ++ pat ++ r) = Some (a, r).
Proof.
  induction a as [|x a IH]; intros Ha; cbn [app].
  - assert (bool_decide (pat `prefix_of` pat ++ r) = true) as Hp by (apply bool_decide_eq_true; by exists r).
    destruct (pat ++ r) eqn:E; cbn [cut]; rewrite Hp, <- E; f_equal; f_equal; by rewrite drop_app_length.
  - cbn [cut]. rewrite bool_decide_false by (apply (Ha O); cbn; lia). rewrite IH; [done|].
    intros i Hi. apply (Ha (S i)). cbn. lia.
Qed.

(** A carriage return is never followed by a line feed, here or at the end. *)
Definition calm (a : bytes) : Prop := forall x y, a = x ++ 13 :: y -> exists c y', y = c :: y' /\ c <> 10.

Lemma calm_no_cr a : 13 ∉ a -> calm a.
Proof. intros Hn x y ->. set_solver. Qed.

Lemma calm_app a b : calm a -> calm b -> calm (a ++ b).
Proof.
  intros Ha Hb x y E. apply app_eq_inv in E as [(k & -> & Ek)|(k & Ek & ->)].
  - destruct k as [|c k]; cbn in Ek.
    + destruct (Hb [] y) as (c & y' & -> & ?); [by rewrite Ek|]. by exists c, y'.
    + injection Ek as <- ->. destruct (Ha x k eq_refl) as (c & y' & -> & ?). by exists c, (y' ++ b).
  - destruct (Hb k y) as (c & y' & -> & ?); [done|]. by exists c, y'.
Qed.

Lemma cut_crlf a r : calm a -> cut CRLF (a ++ CRLF ++ r) = Some (a, r).
Proof.
  intros Ha. apply cut_app. intros i Hi [q Hq].
  rewrite drop_app_le in Hq by lia. destruct (drop i a) as [|c d] eqn:Ed.
  { apply (f_equal length) in Ed. rewrite length_drop in Ed. cbn in Ed. lia. }
  cbn in Hq. injection Hq as -> Hq. destruct (Ha (take i a) d) as (c & y' & -> & Hc); [by rewrite <- Ed, take_drop|].
  cbn in Hq. by injection Hq as ->.
Qed.

(** Delimiters are not in the value, and they begin like nothing else in them. *)
Lemma cut_delimiter b a r :
  13 ∉ b -> (forall x y, a <> x ++ (CRLF ++ dashes ++ b) ++ y) ->
  cut (CRLF ++ dashes ++ b) (a ++ (CRLF ++ dashes ++ b) ++ r) = Some (a, r).
Proof.
  intros Hb Ha. set (pat := CRLF ++ dashes ++ b) in *. apply cut_app. intros i Hi [q Hq].
  rewrite drop_app_le in Hq by lia. assert (length (drop i a) = length a - i)%nat as Hl by (by rewrite length_drop).
  destruct (decide (length pat <= length (drop i a))%nat) as [Hle|Hgt].
  - apply app_eq_inv in Hq as [(k & Hk & _)|(k & Hk & _)].
    + apply (Ha (take i a) k). rewrite <- Hk. by rewrite take_drop.
    + assert (k = []) as ->. { apply (f_equal length) in Hk. rewrite length_app in Hk. apply nil_length_inv. lia. }
      apply (Ha (take i a) []). rewrite app_nil_r in *. rewrite Hk. by rewrite take_drop.
  - apply app_eq_inv in Hq as [(k & Hk & _)|(k & Hk & Hr)].
    { apply (f_equal length) in Hk. rewrite length_app in Hk. lia. }
    (* [pat] would continue with its own first byte *)
    assert (pat !! (length (drop i a)) = Some 13) as Hx.
    { rewrite Hk, lookup_app_r, Nat.sub_diag by lia. destruct k as [|c k]; [rewrite app_nil_r in Hk; rewrite Hk in Hgt; lia|].
      unfold pat in Hr. cbn in Hr. by injection Hr as <- _. }
    assert (0 < length (drop i a))%nat by lia. destruct (length (drop i a)) as [|n]; [lia|].
    unfold pat, CRLF, dashes in Hx. cbn in Hx. destruct n as [|[|[|n]]]; cbn in Hx; try done.
    apply list_elem_of_lookup_2 in Hx. done.
Qed.

(** ** File names *)

Definition escaped (b : byte) : bool := (b =? 92) || (b =? 34) || (b =? 13) || (b =? 10).
Definition escape (f : bytes) : bytes := mjoin ((fun b => if escaped b then [92; b] else [b]) <$> f).

Lemma replace_char_app c by_ a b : replace_char c by_ (a ++ b) = replace_char c by_ a ++ replace_char c by_ b.
Proof. unfold replace_char. by rewrite fmap_app, join_app. Qed.

(** The four replacements are one. *)
Lemma legal_filename_escape f : legal_filename f = escape f.
Proof.
  unfold legal_filename, escape. induction f as [|b f IH]; [done|].
  change (b :: f) with ([b] ++ f). rewrite !replace_char_app, IH, fmap_app, join_app. f_equal.
  unfold escaped. destruct (Z.eqb_spec b 92) as [->|H1]; [done|]. destruct (Z.eqb_spec b 34) as [->|H2]; [done|].
  destruct (Z.eqb_spec b 13) as [->|H3]; [done|]. destruct (Z.eqb_spec b 10) as [->|H4]; [done|].
  apply Z.eqb_neq in H1, H2, H3, H4. cbn. unfold replace_char. cbn. rewrite H1. cbn. rewrite H2. cbn. rewrite H3. cbn. by rewrite H4.
Qed.

(** A quoted string with escapes, as far as its closing quote. *)
Fixpoint read_quoted (s : bytes) : option (bytes * bytes) :=
  match s with
  | [] => None
  | b :: s =>
      if b =? 34 then Some ([], s)
      else if b =? 92 then
        match s with c :: s => '(f, r) ← read_quoted s; Some (c :: f, r) | [] => None end
      else '(f, r) ← read_quoted s; Some (b :: f, r)
  end.

Lemma read_quoted_escape f r : read_quoted (escape f ++ 34 :: r) = Some (f, r).
Proof.
  induction f as [|b f IH]; [done|]. change (escape (b :: f)) with ((if escaped b then [92; b] else [b]) ++ escape f).
  destruct (escaped b) eqn:Eb; cbn [app read_quoted].
  - change (92 =? 34) with false. change (92 =? 92) with true. cbn [negb]. by rewrite IH.
  - unfold escaped in Eb. apply orb_false_iff in Eb as [Eb _]. apply orb_false_iff in Eb as [Eb _].
    apply orb_false_iff in Eb as [-> ->]. by rewrite IH.
Qed.

Lemma escape_calm f : calm (escape f ++ [34]).
Proof.
  induction f as [|b f IH]; [by apply calm_no_cr; set_solver|].
  change (escape (b :: f)) with ((if escaped b then [92; b] else [b]) ++ escape f).
  destruct (decide (b = 13)) as [->|Hb].
  - change (escaped 13) with true. intros x y E. cbn in E.
    destruct x as [|x1 [|x2 x]]; cbn in E; [done| |].
    + injection E as _ <-. destruct f as [|c f]; [by exists 34, []|]. change (escape (c :: f)) with ((if escaped c then [92; c] else [c]) ++ escape f).
      destruct (escaped c) eqn:Ec; cbn; eexists _, _; (split; [done|]); [done|]. intros ->. done.
    + injection E as _ _ E. by apply (IH x).
  - rewrite <- app_assoc. apply calm_app; [|done]. apply calm_no_cr. destruct (escaped b); set_solver.
Qed.

(** ** The random state *)

Lemma lxor_shiftr_nonzero n k : 0 < n -> 0 < k -> 0 < Z.lxor n (Z.shiftr n k).
Proof.
  intros Hn Hk. assert (0 <= Z.lxor n (Z.shiftr n k)) as H0.
  { apply Z.lxor_nonneg. split; intros _; [|lia]. apply Z.shiftr_nonneg. lia. }
  destruct (decide (Z.lxor n (Z.shiftr n k) = 0)) as [E|]; [|lia]. apply Z.lxor_eq in E.
  rewrite Z.shiftr_div_pow2 in E by lia. assert (1 < 2 ^ k) by (apply Z.pow_gt_1; lia).
  pose proof (Z.div_lt n (2 ^ k) Hn ltac:(lia)). lia.
Qed.

Lemma lxor_below n m k : 0 <= k -> 0 <= n < 2 ^ k -> 0 <= m < 2 ^ k -> 0 <= Z.lxor n m < 2 ^ k.
Proof.
  intros Hk Hn Hm. split; [apply Z.lxor_nonneg; lia|].
  destruct (decide (Z.lxor n m = 0)) as [->|Hne]; [apply Z.pow_pos_nonneg; lia|].
  assert (0 < Z.lxor n m) by (pose proof (proj2 (Z.lxor_nonneg n m) ltac:(lia)); lia).
  apply Z.log2_lt_pow2; [done|]. destruct (decide (n = 0)) as [->|]; [rewrite Z.lxor_0_l in *; apply Z.log2_lt_pow2; lia|].
  destruct (decide (m = 0)) as [->|]; [rewrite Z.lxor_0_r in *; apply Z.log2_lt_pow2; lia|].
  pose proof (Z.log2_lxor n m ltac:(lia) ltac:(lia)).
  assert (Z.log2 n < k) by (apply Z.log2_lt_pow2; lia). assert (Z.log2 m < k) by (apply Z.log2_lt_pow2; lia). lia.
Qed.

Lemma lxor_shiftl_nonzero n : 0 < n < 2 ^ 64 -> 0 < Z.lxor n (Z.shiftl n 25 mod 2 ^ 64) < 2 ^ 64.
Proof.
  intros Hn. pose proof (Z.mod_pos_bound (Z.shiftl n 25) (2 ^ 64) ltac:(lia)) as Hm.
  pose proof (lxor_below n (Z.shiftl n 25 mod 2 ^ 64) 64 ltac:(lia) ltac:(lia) Hm) as Hb. split; [|apply Hb].
  destruct (decide (Z.lxor n (Z.shiftl n 25 mod 2 ^ 64) = 0)) as [E|]; [|lia]. apply Z.lxor_eq in E.
  rewrite Z.shiftl_mul_pow2 in E by lia.
  (* 2^64 divides n * (2^25 - 1), and 2^25 - 1 is odd *)
  assert (2 ^ 64 | (2 ^ 25 - 1) * n) as Hd.
  { exists (n * 2 ^ 25 / 2 ^ 64). pose proof (Z.div_mod (n * 2 ^ 25) (2 ^ 64) ltac:(lia)). lia. }
  apply Z.gauss in Hd; [|reflexivity]. apply Z.divide_pos_le in Hd; lia.
Qed.

(** The state of the generator is never zero, which it could not leave. *)
Lemma fast_random_state n : 0 < n < 2 ^ 64 -> 0 < (fast_random n).1 < 2 ^ 64 /\ 0 <= (fast_random n).2 < 2 ^ 64.
Proof.
  intros Hn. unfold fast_random. cbn [fst snd]. change (u64_max + 1) with (2 ^ 64).
  assert (forall k m, 0 < k -> 0 < m < 2 ^ 64 -> 0 < Z.lxor m (Z.shiftr m k) < 2 ^ 64) as Hr.
  { intros k m Hk Hm. split; [apply lxor_shiftr_nonzero; lia|]. apply lxor_below; [lia|lia|].
    rewrite Z.shiftr_div_pow2 by lia. split; [apply Z.div_pos; [lia|]; apply Z.pow_pos_nonneg; lia|].
    pose proof (Z.div_le_upper_bound m (2 ^ k) m ltac:(apply Z.pow_pos_nonneg; lia)).
    assert (1 <= 2 ^ k) by (pose proof (Z.pow_pos_nonneg 2 k ltac:(lia) ltac:(lia)); lia). nia. }
  pose proof (Hr 12 n ltac:(lia) Hn) as H1. pose proof (lxor_shiftl_nonzero _ H1) as H2.
  pose proof (Hr 27 _ ltac:(lia) H2) as H3. split; [exact H3|]. apply Z.mod_pos_bound. lia.
Qed.

(** ** Boundaries *)

Lemma hex_lower_spec k n : length (hex_lower k n) = k /\ Forall (fun b => 48 <= b <= 102) (hex_lower k n).
Proof.
  revert n. induction k as [|k IH]; intros n; cbn; [by split|]. destruct (IH (n / 16)) as [Hl Hf].
  rewrite length_app, Hl. split; [cbn; lia|]. apply Forall_app. split; [done|]. apply Forall_singleton.
  pose proof (Z.mod_pos_bound n 16 ltac:(lia)). destruct (Z.ltb_spec (n mod 16) 10); lia.
Qed.

Lemma gen_boundary_spec n : len (gen_boundary n).1 = 67 /\ 13 ∉ (gen_boundary n).1.
Proof.
  unfold gen_boundary. destruct (fast_random n) as [n1 a]. destruct (fast_random n1) as [n2 b].
  destruct (fast_random n2) as [n3 c]. destruct (fast_random n3) as [n4 d]. cbn [fst].
  pose proof (hex_lower_spec 16 a) as [La Fa]. pose proof (hex_lower_spec 16 b) as [Lb Fb].
  pose proof (hex_lower_spec 16 c) as [Lc Fc]. pose proof (hex_lower_spec 16 d) as [Ld Fd].
  split; [unfold len; rewrite !length_app, La, Lb, Lc, Ld; done|].
  assert (Forall (fun b => b <> 13) (hex_lower 16 a ++ bs "-" ++ hex_lower 16 b ++ bs "-" ++ hex_lower 16 c ++ bs "-" ++ hex_lower 16 d)) as Hf.
  { assert (forall l, Forall (fun b => 48 <= b <= 102) l -> Forall (fun b => b <> 13) l) as Hi
      by (intros l Hl; eapply Forall_impl; [exact Hl|]; cbn; lia).
    assert (Forall (fun b => b <> 13) (bs "-")) as Hd by (repeat constructor; done).
    rewrite !Forall_app. auto 10. }
  intros Hin. by apply (proj1 (Forall_forall _ _) Hf) in Hin.
Qed.

(** ** Forms *)

Section FormProps.
Context `{HttpCrate} {PC : PercentCrate}.
Context {S X : Type} {sb : Dispatcher.Body S bytes HeaderMap} (stream_items : S -> list (result bytes X)).
Abbreviation PartT := (Part (S := S)).
Abbreviation FormT := (Form (S := S)).
Abbreviation form_into_stream := (form_into_stream stream_items).
Abbreviation into_stream := (into_stream stream_items).
Abbreviation part_stream := (part_stream stream_items).

(** The bytes of a stream without errors. *)
Fixpoint collect (l : list (result bytes X)) : option bytes :=
  match l with
  | [] => Some []
  | Ok b :: l => r ← collect l; Some (b ++ r)
  | Err _ :: _ => None
  end.

Lemma collect_app l1 l2 b1 b2 : collect l1 = Some b1 -> collect l2 = Some b2 -> collect (l1 ++ l2) = Some (b1 ++ b2).
Proof.
  revert b1. induction l1 as [|[b|] l1 IH]; intros b1 E1 E2; cbn in *; [by simplify_eq| |done].
  destruct (collect l1) as [r|]; [|done]. cbn in E1. simplify_eq. rewrite (IH r); [|done|done]. cbn. by rewrite app_assoc.
Qed.

(** What a part's value yields. *)
Definition yields (p : PartT) (v : bytes) : Prop := collect (into_stream (value p)) = Some v.

Lemma yields_reusable m v l : yields (mkPart m (reusable v) l) v.
Proof. unfold yields. cbn. destruct v; cbn; [done|]. by rewrite app_nil_r. Qed.

(** The bytes of a part between delimiters, and of the whole body. *)
Definition part_bytes_of (f : FormT) (name : bytes) (p : PartT) (v : bytes) : bytes :=
  dashes ++ boundary f ++ CRLF ++ encode_headers (percent_encoding f) name (meta p) ++ CRLF ++ CRLF ++ v ++ CRLF.

Lemma part_stream_bytes f name p v :
  yields p v -> collect (part_stream f name p) = Some (part_bytes_of f name p v).
Proof.
  intros Hv. unfold part_stream, part_bytes_of.
  rewrite (collect_app _ _ (dashes ++ boundary f ++ CRLF ++ encode_headers (percent_encoding f) name (meta p) ++ CRLF ++ CRLF) (v ++ CRLF)).
  - by rewrite <- !app_assoc.
  - cbn. by rewrite app_nil_r, <- !app_assoc.
  - by apply collect_app.
Qed.

Fixpoint body_of (f : FormT) (l : list (bytes * PartT)) (vs : list bytes) : bytes :=
  match l, vs with
  | (name, p) :: l, v :: vs => part_bytes_of f name p v ++ body_of f l vs
  | _, _ => []
  end.

Lemma fold_stream_bytes f l vs memo b :
  collect memo = Some b -> Forall2 (fun np v => yields np.2 v) l vs ->
  collect (foldl (fun memo '(name, p) => memo ++ part_stream f name p) memo l) = Some (b ++ body_of f l vs).
Proof.
  intros Hm Hf. revert memo b Hm. induction Hf as [|[name p] v l vs Hv _ IH]; intros memo b Hm; cbn; [by rewrite app_nil_r|].
  rewrite (IH _ (b ++ part_bytes_of f name p v)); [by rewrite <- app_assoc|].
  apply collect_app; [done|]. by apply part_stream_bytes.
Qed.

Lemma form_bytes f vs :
  fields f <> [] -> Forall2 (fun np v => yields np.2 v) (fields f) vs ->
  collect (form_into_stream f) = Some (body_of f (fields f) vs ++ dashes ++ boundary f ++ dashes ++ CRLF).
Proof.
  intros Hn Hf. unfold form_into_stream. destruct Hf as [|[name p] v l vs Hv Hf]; [done|].
  rewrite (collect_app _ _ (part_bytes_of f name p v ++ body_of f l vs) (dashes ++ boundary f ++ dashes ++ CRLF)).
  - cbn [body_of]. by rewrite <- !app_assoc.
  - apply fold_stream_bytes; [by apply part_stream_bytes|done].
  - cbn. by rewrite app_nil_r.
Qed.

(** ** The length *)

Lemma part_bytes_len f name p v :
  len (part_bytes_of f name p v) = 2 + len (boundary f) + 2 + len (encode_headers (percent_encoding f) name (meta p)) + 4 + len v + 2.
Proof. unfold part_bytes_of. rewrite !len_app. change (len dashes) with 2. change (len CRLF) with 2. lia. Qed.

Lemma add_lengths_exact f l vs n hs :
  Forall2 (fun np v => value_len np.2 = Some (len v)) l vs -> 0 <= n -> n + len (body_of f l vs) <= u64_max ->
  (add_lengths f l n hs).1 = Some (n + len (body_of f l vs)).
Proof.
  intros Hf. revert n hs. induction Hf as [|[name p] v l vs Hv _ IH]; intros n hs Hn Hm; cbn [add_lengths body_of].
  { cbn. f_equal. change (len []) with 0. lia. }
  cbn in Hv. rewrite Hv. cbn [body_of] in Hm. rewrite len_app, part_bytes_len in *.
  pose proof (len_nonneg (body_of f l vs)). pose proof (len_nonneg (boundary f)). pose proof (len_nonneg v).
  pose proof (len_nonneg (encode_headers (percent_encoding f) name (meta p))).
  rewrite Z.mod_small by lia. rewrite IH by lia. f_equal. lia.
Qed.

Lemma declared_length f vs :
  Forall2 (fun np v => yields np.2 v /\ value_len np.2 = Some (len v)) (fields f) vs ->
  exists body, collect (form_into_stream f) = Some body /\ (len body <= u64_max -> (compute_length f).1 = Some (len body)).
Proof.
  intros Hf. assert (Forall2 (fun np v => yields np.2 v) (fields f) vs) as Hy by (eapply Forall2_impl; [exact Hf|]; cbn; intros ? ? Hq; apply Hq).
  assert (Forall2 (fun np v => value_len np.2 = Some (len v)) (fields f) vs) as Hl by (eapply Forall2_impl; [exact Hf|]; cbn; intros ? ? Hq; apply Hq).
  unfold compute_length. destruct (decide (fields f = [])) as [E|Hn].
  - exists []. unfold form_into_stream. rewrite E. by split.
  - exists (body_of f (fields f) vs ++ dashes ++ boundary f ++ dashes ++ CRLF). split; [by apply form_bytes|]. intros Hm.
    assert (len (body_of f (fields f) vs ++ dashes ++ boundary f ++ dashes ++ CRLF) = len (body_of f (fields f) vs) + (2 + len (boundary f) + 4)) as E.
    { rewrite !len_app. change (len dashes) with 2. change (len CRLF) with 2. lia. }
    rewrite E in *. pose proof (len_nonneg (body_of f (fields f) vs)). pose proof (len_nonneg (boundary f)).
    pose proof (add_lengths_exact f (fields f) vs 0 (computed_headers f) Hl ltac:(lia) ltac:(lia)) as Ha.
    destruct (add_lengths f (fields f) 0 (computed_headers f)) as [r hs]. cbn in Ha. subst r. cbn.
    destruct (fields f) as [|x l]; [done|]. by rewrite Z.mod_small by lia.
Qed.

(** The length that is declared for a form is the length of what is streamed:
    if the parts yield as much as is said of them, and the whole fits in 64 bits. *)
Theorem form_length_exact f vs :
  Forall2 (fun np v => yields np.2 v /\ value_len np.2 = Some (len v)) (fields f) vs ->
  exists body, collect (form_into_stream f) = Some body /\ (len body <= u64_max -> (compute_length f).1 = Some (len body)).
Proof. apply declared_length. Qed.

(** ** Reading a form back *)

Definition name_param (e : PercentEncoding) (name : bytes) : bytes :=
  match percent_encode e name with None => bs "name=" ++ [34] ++ name ++ [34] | Some v => bs "name*=utf-8''" ++ v end.

(** The header lines of a part. *)
Definition header_lines (e : PercentEncoding) (name : bytes) (m : PartMetadata) : list bytes :=
  (bs "Content-Disposition: form-data; " ++ name_param e name ++
   match file_name m with Some f => bs "; filename=" ++ [34] ++ legal_filename f ++ [34] | None => [] end) ::
  ((match mime m with Some t => [bs "Content-Type: " ++ t] | None => [] end) ++
   ((fun '(k, v) => k ++ bs ": " ++ v) <$> hm_iter (m_headers m))).

Definition join_lines (ls : list bytes) : bytes :=
  match ls with [] => [] | l :: ls => l ++ mjoin ((CRLF ++.) <$> ls) end.

Lemma encode_headers_lines e name m : encode_headers e name m = join_lines (header_lines e name m).
Proof.
  unfold encode_headers, header_lines, join_lines, name_param. rewrite <- !app_assoc. do 3 f_equal.
  rewrite fmap_app, join_app. f_equal.
  - destruct (mime m); [|done]. cbn. by rewrite app_nil_r.
  - f_equal. rewrite <- list_fmap_compose. apply list_fmap_ext. by intros i [k v] _.
Qed.

(** Nothing but a file name may bring a carriage return into the headers. *)
Definition plain_part (e : PercentEncoding) (name : bytes) (m : PartMetadata) : Prop :=
  (13 ∉ name_param e name) /\ (forall t, mime m = Some t -> 13 ∉ t) /\
  Forall (fun '(k, v) => (13 ∉ k) /\ 13 ∉ v) (hm_iter (m_headers m)).

Lemma header_lines_calm e name m :
  plain_part e name m -> Forall (fun l => calm l /\ l <> []) (header_lines e name m).
Proof.
  intros (Hn & Hm & Hh). unfold header_lines. constructor.
  { split; [|done]. repeat apply calm_app; [by apply calm_no_cr; vm_compute; set_solver|by apply calm_no_cr|].
    destruct (file_name m) as [f|]; [|by apply calm_no_cr; set_solver].
    apply calm_app; [by apply calm_no_cr; vm_compute; set_solver|]. apply calm_app; [by apply calm_no_cr; set_solver|].
    rewrite legal_filename_escape. apply escape_calm. }
  apply Forall_app. split.
  - destruct (mime m) as [t|]; [|done]. apply Forall_singleton. split; [|done].
    apply calm_app; [by apply calm_no_cr; vm_compute; set_solver|]. apply calm_no_cr. auto.
  - apply Forall_fmap. eapply Forall_impl; [exact Hh|]. intros [k v] [Hk Hv]. cbn. split; [|by destruct k].
    repeat apply calm_app; apply calm_no_cr; try done. vm_compute. set_solver.
Qed.

Lemma read_headers_lines fuel ls r :
  Forall (fun l => calm l /\ l <> []) ls -> ls <> [] -> (length ls < fuel)%nat ->
  read_headers fuel (join_lines ls ++ CRLF ++ CRLF ++ r) = Some (ls, r).
Proof.
  revert fuel. induction ls as [|l ls IH]; intros fuel Hf Hn Hl; [done|]. destruct fuel as [|fuel]; [cbn in Hl; lia|].
  apply Forall_cons in Hf as [[Hc Hne] Hf]. cbn [read_headers join_lines].
  destruct ls as [|l' ls].
  - cbn [fmap list_fmap mjoin list_join]. rewrite app_nil_r, (cut_crlf l (CRLF ++ r)) by done. destruct l as [|b l]; [done|].
    destruct fuel as [|fuel]; [cbn in Hl; lia|]. cbn [read_headers].
    pose proof (cut_crlf [] r ltac:(by apply calm_no_cr; set_solver)) as E0. cbn [app] in E0. by rewrite E0.
  - replace ((l ++ mjoin ((CRLF ++.) <$> l' :: ls)) ++ CRLF ++ CRLF ++ r) with (l ++ CRLF ++ (join_lines (l' :: ls) ++ CRLF ++ CRLF ++ r)).
    2:{ cbn [fmap list_fmap mjoin list_join join_lines]. by rewrite <- !app_assoc. }
    rewrite cut_crlf by done. destruct l as [|b l]; [done|]. rewrite IH; [done|done|done|cbn in *; lia].
Qed.

Lemma join_lines_len ls : Forall (fun l => calm l /\ l <> []) ls -> (length ls <= length (join_lines ls))%nat.
Proof.
  intros Hf. destruct Hf as [|l ls [_ Hne] Hf]; [done|]. cbn [join_lines].
  assert (length ls <= length (mjoin ((CRLF ++.) <$> ls)))%nat as Hm.
  { clear Hf. induction ls as [|l' ls IH]; [done|]. change (mjoin ((CRLF ++.) <$> l' :: ls)) with ((CRLF ++ l') ++ mjoin ((CRLF ++.) <$> ls)).
    rewrite !length_app. cbn [length CRLF]. lia. }
  rewrite length_app. destruct l as [|b l]; [done|]. cbn [length]. lia.
Qed.

Lemma below_padded (a b c : nat) : (a <= b -> a < 2 + (b + c))%nat.
Proof. lia. Qed.

Fixpoint tail_of (f : FormT) (l : list (bytes * PartT)) (vs : list bytes) : bytes :=
  match l, vs with
  | (name, p) :: l, v :: vs =>
      CRLF ++ encode_headers (percent_encoding f) name (meta p) ++ CRLF ++ CRLF ++ v ++ (CRLF ++ dashes ++ boundary f) ++ tail_of f l vs
  | _, _ => dashes ++ CRLF
  end.

Lemma body_tail f l vs : length l = length vs ->
  body_of f l vs ++ dashes ++ boundary f ++ dashes ++ CRLF = dashes ++ boundary f ++ tail_of f l vs.
Proof.
  revert vs. induction l as [|[name p] l IH]; intros [|v vs] Hl; try done. cbn [body_of tail_of]. unfold part_bytes_of.
  rewrite <- !app_assoc, IH by (cbn in Hl; lia). done.
Qed.

Lemma form_content f vs :
  fields f <> [] -> Forall2 (fun np v => yields np.2 v) (fields f) vs ->
  collect (form_into_stream f) = Some (dashes ++ boundary f ++ tail_of f (fields f) vs).
Proof. intros Hn Hy. rewrite (form_bytes f vs) by done. by rewrite body_tail by (by eapply Forall2_length). Qed.

Definition no_delimiter (b v : bytes) : Prop := forall x y, v <> x ++ (CRLF ++ dashes ++ b) ++ y.

Lemma read_parts_tail fuel f l vs :
  13 ∉ boundary f -> length l = length vs -> (length l < fuel)%nat ->
  Forall (fun np => plain_part (percent_encoding f) np.1 (meta np.2)) l -> Forall (no_delimiter (boundary f)) vs ->
  read_parts fuel (boundary f) (tail_of f l vs) =
  Some (zip_with (fun np v => (header_lines (percent_encoding f) np.1 (meta np.2), v)) l vs).
Proof.
  intros Hb. revert fuel vs. induction l as [|[name p] l IH]; intros fuel [|v vs] Hl Hfu Hp Hv; try done;
    (destruct fuel as [|fuel]; [cbn in Hfu; lia|]); cbn [read_parts tail_of zip_with]; [by rewrite bool_decide_true|].
  apply Forall_cons in Hp as [Hp1 Hp], Hv as [Hv1 Hv].
  rewrite bool_decide_false by done. rewrite bool_decide_true by (eexists; done). rewrite (drop_app_length CRLF).
  pose proof (header_lines_calm _ _ _ Hp1) as Hc. rewrite encode_headers_lines, read_headers_lines; [|done|done|].
  - cbn [mbind option_bind]. rewrite cut_delimiter by done. cbn [mbind option_bind].
    rewrite IH; [done|cbn in Hl; lia|cbn in Hfu; lia|done|done].
  - rewrite !length_app. cbn [length CRLF]. exact (below_padded _ _ _ (join_lines_len _ Hc)).
Qed.

(** C27. A form can be read back: whatever the parts' values and file names are, a
    reader that follows RFC 2046 finds in the streamed body the parts in order,
    each with its header lines and its value, if no value contains the delimiter
    and no carriage return comes in through a name, a media type or a header. *)
Theorem form_roundtrip f vs :
  13 ∉ boundary f -> fields f <> [] -> Forall2 (fun np v => yields np.2 v) (fields f) vs ->
  Forall (fun np => plain_part (percent_encoding f) np.1 (meta np.2)) (fields f) -> Forall (no_delimiter (boundary f)) vs ->
  exists body, collect (form_into_stream f) = Some body /\
    read_form (boundary f) body =
    Some (zip_with (fun np v => (header_lines (percent_encoding f) np.1 (meta np.2), v)) (fields f) vs).
Proof.
  intros Hb Hn Hy Hp Hv. pose proof (Forall2_length _ _ _ Hy) as Hl.
  eexists. split; [by apply form_bytes|]. rewrite body_tail by done.
  assert (forall l ws, (length l < length (dashes ++ boundary f ++ tail_of f l ws))%nat \/ length l <> length ws) as Hfu.
  { induction l as [|[name p] l IH]; intros [|w ws]; try (by right); [left; cbn; lia|]. destruct (IH ws) as [Hlt|Hne]; [left|right; cbn; lia].
    cbn [tail_of]. rewrite !length_app in *. cbn [length CRLF dashes] in *. lia. }
  unfold read_form. destruct (dashes ++ boundary f ++ tail_of f (fields f) vs) as [|c s] eqn:E; [done|]. rewrite <- E.
  rewrite bool_decide_true by (exists (tail_of f (fields f) vs); by rewrite <- app_assoc).
  rewrite (app_assoc dashes), drop_app_length. apply read_parts_tail; try done.
  destruct (Hfu (fields f) vs); [|done]. by rewrite <- app_assoc.
Qed.
End FormProps.

(** ** Witnesses: a form with a text and an upload of two chunks *)

Module RefForm.
Import RefHttp.

Definition hex_digit (d : Z) : byte := if d <? 10 then 48 + d else 55 + d.

#[export] Instance ref_percent : PercentCrate := {|
  CONTROLS := fun b => (b <? 32) || (b =? 127);
  NON_ALPHANUMERIC := fun b => negb (((48 <=? b) && (b <=? 57)) || ((65 <=? b) && (b <=? 90)) || ((97 <=? b) && (b <=? 122)));
  percent_encode_owned := fun s v =>
    if existsb s v then Some (mjoin ((fun b => if s b then [37; hex_digit (b / 16); hex_digit (b mod 16)] else [b]) <$> v)) else None
|}.

(** A stream is the chunks it yields. *)
#[export] Instance ref_chunks : Dispatcher.Body (list bytes) bytes HeaderMap := {|
  body_poll_frame := fun l => match l with [] => (RVal None, []) | c :: l => (RVal (Some (Dispatcher.DataFrame c)), l) end;
  body_is_end_stream := fun l => bool_decide (l = []);
  body_size_exact := fun _ => None
|}.
Definition items (l : list bytes) : list (result bytes unit) := Ok <$> l.

Definition upload : Part (S := list bytes) :=
  part_mime (bs "text/plain") (part_file_name ([34] ++ bs "a.txt" ++ CRLF) (stream_with_length (Streaming [bs "ab"; bs "cd"]) 4)).
Definition sample : Form (S := list bytes) := form_part (bs "the file") upload (form_text (bs "k") (bs "v") (form_new 88172645463325252).1).

Lemma form_length_exact_witness :
  exists body, collect (form_into_stream items sample) = Some body /\ (compute_length sample).1 = Some (len body).
Proof.
  destruct (form_length_exact items sample [bs "v"; bs "abcd"]) as (body & Hc & Hl); [by repeat constructor|].
  exists body. split; [exact Hc|]. apply Hl.
  assert (match collect (form_into_stream items sample) with Some b => len b <=? u64_max | None => false end = true) as Hm
    by (vm_compute; reflexivity).
  rewrite Hc in Hm. by apply Z.leb_le.
Defined.

Lemma no_delimiter_short b v : (length v < length b)%nat -> no_delimiter b v.
Proof. intros Hl x y ->. rewrite !length_app in Hl. lia. Qed.

Lemma no_cr (l : bytes) : forallb (fun b => negb (b =? 13)) l = true -> 13 ∉ l.
Proof. intros Hf Hin. apply list_elem_of_In in Hin. by apply (proj1 (forallb_forall _ _) Hf) in Hin. Qed.

Lemma form_roundtrip_witness :
  exists body ls, collect (form_into_stream items sample) = Some body /\ read_form (boundary sample) body = Some ls /\
    ls.*2 = [bs "v"; bs "abcd"].
Proof.
  destruct (form_roundtrip items sample [bs "v"; bs "abcd"]) as (body & Hc & Hr).
  - apply gen_boundary_spec.
  - done.
  - by repeat constructor.
  - repeat constructor; unfold plain_part; cbn [fst snd].
    + by apply no_cr.
    + intros t E. discriminate E.
    + by apply no_cr.
    + intros t E. injection E as <-. by apply no_cr.
  - repeat constructor; apply no_delimiter_short; vm_compute; lia.
  - exists body. eexists. split; [exact Hc|]. split; [exact Hr|reflexivity].
Defined.
End RefForm.
