(* ===== verification/ClientError.v ===== *)
(** * Errors of the client (src/src/error.rs)

    An error has a kind, the error that caused it and a URL.  Causes are boxed trait
    objects; the model keeps the types that the program downcasts to, and [BOther]
    for the rest.  Predicates such as [is_timeout] walk the chain of sources. *)

From S2P Require Import Prelude Http.

Module ClientError.
Section ClientError.
Context {Url : Type}.

Inductive Kind := Builder | Request | Redirect | Status (code : StatusCode) | Body | Decode | Upgrade.

(** [BoxError]: the standard library's [io::Error], with the error it was made of
    if there is one, the core client's error, tower's [Elapsed], and our own. *)
Inductive BoxError :=
| BTimedOut
| BBadScheme
| BElapsed
| BText (msg : string)
| BIo (e : io_error) (inner : option BoxError)
| BCore (connect : bool) (source : option BoxError)
| BOther (source : option BoxError)
| BError (e : Error)
with Error := mkError (k : Kind) (source : option BoxError) (url : option Url).

Definition kind (e : Error) : Kind := let 'mkError k _ _ := e in k.
Definition source (e : Error) : option BoxError := let 'mkError _ s _ := e in s.
Definition url (e : Error) : option Url := let 'mkError _ _ u := e in u.

Definition new (k : Kind) (s : option BoxError) : Error := mkError k s None.
Definition url_mut (f : Url -> Url) (e : Error) : Error := mkError (kind e) (source e) (f <$> url e).
Definition with_url (u : Url) (e : Error) : Error := mkError (kind e) (source e) (Some u).
Definition without_url (e : Error) : Error := mkError (kind e) (source e) None.

Definition is_builder (e : Error) : bool := match kind e with Builder => true | _ => false end.
Definition is_redirect (e : Error) : bool := match kind e with Redirect => true | _ => false end.
Definition is_status (e : Error) : bool := match kind e with Status _ => true | _ => false end.
Definition is_request (e : Error) : bool := match kind e with Request => true | _ => false end.
Definition is_body (e : Error) : bool := match kind e with Body => true | _ => false end.
Definition is_decode (e : Error) : bool := match kind e with Decode => true | _ => false end.
Definition is_upgrade (e : Error) : bool := match kind e with Upgrade => true | _ => false end.
Definition status (e : Error) : option StatusCode := match kind e with Status code => Some code | _ => None end.

(** ** Chains of sources *)

(** [StdError::source]; an [io::Error] made of an error passes on that error's
    source, so that error itself is not in the chain. *)
Fixpoint box_source (b : BoxError) : option BoxError :=
  match b with
  | BIo _ (Some i) => box_source i
  | BCore _ s | BOther s => s
  | BError (mkError _ s _) => s
  | _ => None
  end.

(** Whether [p] holds of an error of the chain that starts at [b]; with [skip], of
    one after [b]. *)
Fixpoint walk (p : BoxError -> bool) (skip : bool) (b : BoxError) : bool :=
  negb skip && p b ||
  match b with
  | BIo _ (Some i) => walk p true i
  | BCore _ (Some s) | BOther (Some s) | BError (mkError _ (Some s) _) => walk p false s
  | _ => false
  end.

(** The loop [while let Some(err) = source { ...; source = err.source() }]. *)
Definition any_source (p : BoxError -> bool) (e : Error) : bool :=
  match source e with Some s => walk p false s | None => false end.

Definition is_timeout (e : Error) : bool :=
  any_source (fun b => match b with BTimedOut => true | BIo e _ => match io_kind e with IoTimedOut => true | _ => false end | _ => false end) e.
Definition is_connect (e : Error) : bool :=
  any_source (fun b => match b with BCore connect _ => connect | _ => false end) e.
Definition is_connection_reset (e : Error) : bool :=
  any_source (fun b => match b with BIo e _ => match io_kind e with IoConnectionReset => true | _ => false end | _ => false end) e.

(** ** Making errors *)

Definition builder (b : BoxError) : Error := new Builder (Some b).
Definition body (b : BoxError) : Error := new Body (Some b).
Definition decode (b : BoxError) : Error := new Decode (Some b).
Definition request (b : BoxError) : Error := new Request (Some b).
Definition redirect (b : BoxError) (u : Url) : Error := with_url u (new Redirect (Some b)).
Definition upgrade (b : BoxError) : Error := new Upgrade (Some b).
Definition status_code (u : Url) (code : StatusCode) : Error := with_url u (new (Status code) None).
Definition url_bad_scheme (u : Url) : Error := with_url u (new Builder (Some BBadScheme)).
Definition url_bad_uri (u : Url) : Error := with_url u (new Builder (Some (BText "url is not a valid uri"))).
Definition uri_bad_host : Error := new Builder (Some (BText "no host in url")).

Definition cast_to_internal_error (b : BoxError) : BoxError := match b with BElapsed => BTimedOut | _ => b end.

(** [io::Error]s: what they are and the error they were made of. *)
Definition IoErr : Type := io_error * option BoxError.
Definition io_other (b : BoxError) : IoErr := (IoError OtherError "", Some b).
(** [Error::into_io] and the function [into_io] on boxed errors. *)
Definition error_into_io (e : Error) : IoErr := io_other (BError e).
Definition into_io (b : BoxError) : IoErr := io_other b.
Definition decode_io (e : IoErr) : Error :=
  match e.2 with Some (BError x) => x | _ => decode (BIo e.1 e.2) end.
End ClientError.

Arguments BoxError : clear implicits.
Arguments Error : clear implicits.
Arguments IoErr : clear implicits.

Section Facts.
Context {Url : Type}.
Implicit Types (b : BoxError Url) (e : Error Url).

(** What follows an error in its chain is its source. *)
Lemma walk_skip (p : BoxError Url -> bool) b :
  walk p true b = match box_source b with Some s => walk p false s | None => false end.
Proof.
  revert b. fix IH 1. intros [| | |m|x [i|]|c [s|]|[s|]|[k [s|] u]]; cbn; done.
Qed.

(** One turn of the loop over the sources. *)
Lemma walk_turn (p : BoxError Url -> bool) b :
  walk p false b = p b || match box_source b with Some s => walk p false s | None => false end.
Proof.
  rewrite <- walk_skip. by destruct b as [| | |m|x [i|]|c [s|]|[s|]|[k [s|] u]].
Qed.

(** The wrapping that bodies do keeps a timeout visible. *)
Lemma timeout_wrapped e k u : is_timeout e = true -> is_timeout (mkError k (Some (BError e)) u) = true.
Proof.
  unfold is_timeout, any_source. cbn [source]. intros Ht. rewrite walk_turn. cbn [orb]. destruct e as [k' [s|] u']; [exact Ht|done].
Qed.

(** Passing through an [io::Error] and back gives the error itself. *)
Lemma decode_io_into_io e : decode_io (into_io (BError e)) = e.
Proof. done. Qed.
End Facts.
End ClientError.
