(* ===== verification/HttpConnect.v ===== *)
(** * The TCP connector (src/src/core/client/connect/http.rs and dns.rs)

    An [HttpConnector] resolves the host of a URI and connects to one of its
    addresses: one after the other, and with two families of addresses in a race
    ("happy eyeballs").  The futures are state machines with a poll each; the
    operating system's sockets (socket2, tokio) are an interface.  The target is
    Linux where the code differs between systems. *)

From S2P Require Import Prelude Io Net CoreClient.
Import IpParse.

Definition is_ipv4 (a : SocketAddr) : bool := match sa_ip a with V4 _ => true | V6 _ => false end.
Definition is_ipv6 (a : SocketAddr) : bool := match sa_ip a with V4 _ => false | V6 _ => true end.

(** ** The sockets of the system *)

Class SocketApi (W : Type) := {
  Sock : Type;
  Tcp : Type;
  (* a connect under way *)
  Dial : Type;
  (* socket2's keep-alive parameters *)
  TcpKeepalive : Type;
  keepalive_new : TcpKeepalive;
  with_time : Z -> TcpKeepalive -> TcpKeepalive;
  with_interval : Z -> TcpKeepalive -> TcpKeepalive;
  with_retries : Z -> TcpKeepalive -> TcpKeepalive;
  socket_new : SocketAddr -> W -> result Sock io_error * W;
  so_nonblocking : Sock -> W -> result unit io_error * W;
  so_keepalive : Sock -> TcpKeepalive -> W -> result unit io_error * W;
  so_bind_device : Sock -> bytes -> W -> result unit io_error * W;
  so_user_timeout : Sock -> Z -> W -> result unit io_error * W;
  so_bind : Sock -> SocketAddr -> W -> result unit io_error * W;
  so_reuseaddr : Sock -> W -> result unit io_error * W;
  so_sndbuf : Sock -> Z -> W -> result unit io_error * W;
  so_rcvbuf : Sock -> Z -> W -> result unit io_error * W;
  (* the first poll of [TcpSocket::connect] begins to connect *)
  dial : Sock -> SocketAddr -> W -> Dial * W;
  poll_dial : Dial -> W -> option (result Tcp io_error) * W;
  so_nodelay : Tcp -> bool -> W -> result unit io_error * W;
  peer_addr : Tcp -> W -> result SocketAddr io_error;
  local_addr : Tcp -> W -> result SocketAddr io_error;
  (* [Instant::now], and whether a [Sleep] until the given instant is over *)
  now : W -> Z;
  sleep_over : Z -> W -> bool
}.

Module HttpConnector.

(** ** Errors, and system calls that may fail with one *)

Section Calls.
Context {DnsErr W : Type}.

Inductive Cause := CauseIo (e : io_error) | CauseDns (e : DnsErr).
Record ConnectError := mkConnectError { msg : string; cause : option Cause }.

Definition connect_error (m : string) (e : io_error) : ConnectError := mkConnectError m (Some (CauseIo e)).
Definition dns_error (e : DnsErr) : ConnectError := mkConnectError "dns error" (Some (CauseDns e)).

Definition Sys (A : Type) : Type := W -> result A ConnectError * W.
Definition sret {A} (a : A) : Sys A := fun w => (Ok a, w).
(** [m?; k] *)
Definition sbind {A B} (m : Sys A) (k : A -> Sys B) : Sys B := fun w =>
  match m w with (Ok a, w) => k a w | (Err e, w) => (Err e, w) end.
(** [.map_err(ConnectError::m(text))?] *)
Definition must {A} (text : string) (m : W -> result A io_error * W) : Sys A := fun w =>
  match m w with (Ok a, w) => (Ok a, w) | (Err e, w) => (Err (connect_error text e), w) end.
(** [if let Err(e) = m { warn!(..) }] *)
Definition try_ {A} (m : W -> result A io_error * W) : Sys unit := fun w => (Ok tt, (m w).2).
Definition if_some {A} (o : option A) (f : A -> Sys unit) : Sys unit :=
  match o with Some a => f a | None => sret tt end.
End Calls.
Arguments Cause _ : clear implicits.
Arguments ConnectError _ : clear implicits.

Declare Scope sys_scope.
Delimit Scope sys_scope with sys.
Notation "x <- m ;; k" := (sbind m (fun x => k)) (at level 100, m at next level, right associativity) : sys_scope.
Notation "m ;; k" := (sbind m (fun _ => k)) (at level 100, right associativity) : sys_scope.

(** ** Configuration *)

Record TcpKeepaliveConfig := mkKeepaliveConfig { ka_time : option Z; ka_interval : option Z; ka_retries : option Z }.

Record Config := mkConfig {
  connect_timeout : option Z;
  enforce_http : bool;
  happy_eyeballs_timeout : option Z;
  tcp_keepalive_config : TcpKeepaliveConfig;
  local_address_ipv4 : option bytes;
  local_address_ipv6 : option bytes;
  nodelay : bool;
  reuse_address : bool;
  send_buffer_size : option Z;
  recv_buffer_size : option Z;
  interface : option bytes;
  tcp_user_timeout : option Z
}.

(** [HttpConnector::new_with_resolver] *)
Definition new_config : Config :=
  mkConfig None true (Some 300000000) (mkKeepaliveConfig None None None) None None false false None None None None.

Definition enforce_http_ (x : bool) (c : Config) : Config :=
  mkConfig (connect_timeout c) x (happy_eyeballs_timeout c) (tcp_keepalive_config c) (local_address_ipv4 c) (local_address_ipv6 c) (nodelay c) (reuse_address c) (send_buffer_size c) (recv_buffer_size c) (interface c) (tcp_user_timeout c).
Definition set_nodelay (x : bool) (c : Config) : Config :=
  mkConfig (connect_timeout c) (enforce_http c) (happy_eyeballs_timeout c) (tcp_keepalive_config c) (local_address_ipv4 c) (local_address_ipv6 c) x (reuse_address c) (send_buffer_size c) (recv_buffer_size c) (interface c) (tcp_user_timeout c).
Definition set_send_buffer_size (x : option Z) (c : Config) : Config :=
  mkConfig (connect_timeout c) (enforce_http c) (happy_eyeballs_timeout c) (tcp_keepalive_config c) (local_address_ipv4 c) (local_address_ipv6 c) (nodelay c) (reuse_address c) x (recv_buffer_size c) (interface c) (tcp_user_timeout c).
Definition set_recv_buffer_size (x : option Z) (c : Config) : Config :=
  mkConfig (connect_timeout c) (enforce_http c) (happy_eyeballs_timeout c) (tcp_keepalive_config c) (local_address_ipv4 c) (local_address_ipv6 c) (nodelay c) (reuse_address c) (send_buffer_size c) x (interface c) (tcp_user_timeout c).
Definition set_connect_timeout (x : option Z) (c : Config) : Config :=
  mkConfig x (enforce_http c) (happy_eyeballs_timeout c) (tcp_keepalive_config c) (local_address_ipv4 c) (local_address_ipv6 c) (nodelay c) (reuse_address c) (send_buffer_size c) (recv_buffer_size c) (interface c) (tcp_user_timeout c).
Definition set_happy_eyeballs_timeout (x : option Z) (c : Config) : Config :=
  mkConfig (connect_timeout c) (enforce_http c) x (tcp_keepalive_config c) (local_address_ipv4 c) (local_address_ipv6 c) (nodelay c) (reuse_address c) (send_buffer_size c) (recv_buffer_size c) (interface c) (tcp_user_timeout c).
Definition set_reuse_address (x : bool) (c : Config) : Config :=
  mkConfig (connect_timeout c) (enforce_http c) (happy_eyeballs_timeout c) (tcp_keepalive_config c) (local_address_ipv4 c) (local_address_ipv6 c) (nodelay c) x (send_buffer_size c) (recv_buffer_size c) (interface c) (tcp_user_timeout c).
Definition set_interface (x : option bytes) (c : Config) : Config :=
  mkConfig (connect_timeout c) (enforce_http c) (happy_eyeballs_timeout c) (tcp_keepalive_config c) (local_address_ipv4 c) (local_address_ipv6 c) (nodelay c) (reuse_address c) (send_buffer_size c) (recv_buffer_size c) x (tcp_user_timeout c).
Definition set_tcp_user_timeout (x : option Z) (c : Config) : Config :=
  mkConfig (connect_timeout c) (enforce_http c) (happy_eyeballs_timeout c) (tcp_keepalive_config c) (local_address_ipv4 c) (local_address_ipv6 c) (nodelay c) (reuse_address c) (send_buffer_size c) (recv_buffer_size c) (interface c) x.
Definition set_keepalive (x : option Z) (c : Config) : Config :=
  mkConfig (connect_timeout c) (enforce_http c) (happy_eyeballs_timeout c) (mkKeepaliveConfig x (ka_interval (tcp_keepalive_config c)) (ka_retries (tcp_keepalive_config c))) (local_address_ipv4 c) (local_address_ipv6 c) (nodelay c) (reuse_address c) (send_buffer_size c) (recv_buffer_size c) (interface c) (tcp_user_timeout c).
Definition set_keepalive_interval (x : option Z) (c : Config) : Config :=
  mkConfig (connect_timeout c) (enforce_http c) (happy_eyeballs_timeout c) (mkKeepaliveConfig (ka_time (tcp_keepalive_config c)) x (ka_retries (tcp_keepalive_config c))) (local_address_ipv4 c) (local_address_ipv6 c) (nodelay c) (reuse_address c) (send_buffer_size c) (recv_buffer_size c) (interface c) (tcp_user_timeout c).
Definition set_keepalive_retries (x : option Z) (c : Config) : Config :=
  mkConfig (connect_timeout c) (enforce_http c) (happy_eyeballs_timeout c) (mkKeepaliveConfig (ka_time (tcp_keepalive_config c)) (ka_interval (tcp_keepalive_config c)) x) (local_address_ipv4 c) (local_address_ipv6 c) (nodelay c) (reuse_address c) (send_buffer_size c) (recv_buffer_size c) (interface c) (tcp_user_timeout c).
Definition set_local_addresses (v4 v6 : bytes) (c : Config) : Config :=
  mkConfig (connect_timeout c) (enforce_http c) (happy_eyeballs_timeout c) (tcp_keepalive_config c) (Some v4) (Some v6) (nodelay c) (reuse_address c) (send_buffer_size c) (recv_buffer_size c) (interface c) (tcp_user_timeout c).
Definition set_local_address (addr : option IpAddr) (c : Config) : Config :=
  let '(v4, v6) := match addr with Some (V4 a) => (Some a, None) | Some (V6 a) => (None, Some a) | None => (None, None) end in
  mkConfig (connect_timeout c) (enforce_http c) (happy_eyeballs_timeout c) (tcp_keepalive_config c) v4 v6 (nodelay c) (reuse_address c) (send_buffer_size c) (recv_buffer_size c) (interface c) (tcp_user_timeout c).

(** ** Addresses (dns.rs) *)

Definition try_parse (host : bytes) (port : Z) : option (list SocketAddr) :=
  match parse_ip host with Some ip => Some [mkSocketAddr ip port] | None => None end.

(** [Iterator::partition] is two filters. *)
Definition split_by_preference (v4 v6 : option bytes) (addrs : list SocketAddr) : list SocketAddr * list SocketAddr :=
  match v4, v6 with
  | Some _, None => (List.filter is_ipv4 addrs, [])
  | None, Some _ => (List.filter is_ipv6 addrs, [])
  | _, _ => List.partition is_ipv6 addrs
  end.

Definition set_port (host_port : Z) (explicit : bool) (addr : SocketAddr) : SocketAddr :=
  if explicit || (sa_port addr =? 0) then mkSocketAddr (sa_ip addr) host_port else addr.

Section Connector.
Context {W : Type} {api : SocketApi W} {DnsErr : Type}.
Abbreviation CErr := (ConnectError DnsErr).
Abbreviation SysM := (Sys (DnsErr := DnsErr) (W := W)).

Definition into_tcpkeepalive (c : TcpKeepaliveConfig) : option TcpKeepalive :=
  let '(ka, dirty) := match ka_time c with Some t => (with_time t keepalive_new, true) | None => (keepalive_new, false) end in
  let '(ka, dirty) := match ka_interval c with Some i => (with_interval i ka, true) | None => (ka, dirty) end in
  let '(ka, dirty) := match ka_retries c with Some r => (with_retries r ka, true) | None => (ka, dirty) end in
  if dirty : bool then Some ka else None.

(** ** One address *)

Definition bind_local_address (s : Sock) (dst : SocketAddr) (v4 v6 : option bytes) : W -> result unit io_error * W :=
  match sa_ip dst, v4, v6 with
  | V4 _, Some a, _ => so_bind s (mkSocketAddr (V4 a) 0)
  | V6 _, _, Some a => so_bind s (mkSocketAddr (V6 a) 0)
  | _, _, _ => fun w => (Ok tt, w)
  end.

Definition u32_max : Z := 4294967295.
(** [size.try_into().unwrap_or(u32::MAX)] *)
Definition clamp_u32 (n : Z) : Z := if n <=? u32_max then n else u32_max.

(** The future that [connect] returns: not polled yet, or under way with the
    deadline of its [timeout]. *)
Inductive Attempt :=
| Fresh (s : Sock) (addr : SocketAddr) (timeout : option Z)
| Dialing (d : Dial) (deadline : option Z).

Definition connect (addr : SocketAddr) (config : Config) (connect_timeout : option Z) : SysM Attempt :=
  (socket <- must "tcp open error" (socket_new addr) ;;
   must "tcp set_nonblocking error" (so_nonblocking socket) ;;
   if_some (into_tcpkeepalive (tcp_keepalive_config config)) (fun ka => try_ (so_keepalive socket ka)) ;;
   if_some (interface config) (fun i => must "tcp bind interface error" (so_bind_device socket i)) ;;
   if_some (tcp_user_timeout config) (fun t => try_ (so_user_timeout socket t)) ;;
   must "tcp bind local error" (bind_local_address socket addr (local_address_ipv4 config) (local_address_ipv6 config)) ;;
   (if reuse_address config then try_ (so_reuseaddr socket) else sret tt) ;;
   if_some (send_buffer_size config) (fun n => try_ (so_sndbuf socket (clamp_u32 n))) ;;
   if_some (recv_buffer_size config) (fun n => try_ (so_rcvbuf socket (clamp_u32 n))) ;;
   sret (Fresh socket addr connect_timeout))%sys.

Definition timed_out : io_error := IoError IoTimedOut "deadline has elapsed".

(** The first poll begins to connect and starts the timeout. *)
Definition begin_attempt (a : Attempt) (w : W) : Dial * option Z * W :=
  match a with
  | Fresh s addr timeout =>
      let deadline := match timeout with Some t => Some (now w + t) | None => None end in
      let '(d, w) := dial s addr w in (d, deadline, w)
  | Dialing d deadline => (d, deadline, w)
  end.

(** [None] is pending. *)
Definition poll_attempt (a : Attempt) (w : W) : option (result Tcp CErr) * Attempt * W :=
  let '(d, deadline, w) := begin_attempt a w in
  match poll_dial d w with
  | (Some (Ok s), w) => (Some (Ok s), Dialing d deadline, w)
  | (Some (Err e), w) => (Some (Err (connect_error "tcp connect error" e)), Dialing d deadline, w)
  | (None, w) =>
      match deadline with
      | Some t =>
          if sleep_over t w then (Some (Err (connect_error "tcp connect error" timed_out)), Dialing d deadline, w)
          else (None, Dialing d deadline, w)
      | None => (None, Dialing d deadline, w)
      end
  end.

(** ** A list of addresses *)

(** [ConnectingTcpRemote] with what its [connect] keeps between polls: the last
    error and the attempt under way. *)
Record Remote := mkRemote {
  r_addrs : list SocketAddr; r_timeout : option Z; r_err : option CErr; r_attempt : option Attempt
}.

(** [Duration::checked_div] *)
Definition checked_div (t n : Z) : option Z := if n =? 0 then None else Some (t / n).

Definition remote_new (addrs : list SocketAddr) (connect_timeout : option Z) : Remote :=
  mkRemote addrs (match connect_timeout with Some t => checked_div t (len addrs mod (u32_max + 1)) | None => None end) None None.

Definition unreachable : CErr := connect_error "tcp connect error" (IoError IoNotConnected "Network unreachable").

(** The loop, from its head. *)
Fixpoint next_addr (config : Config) (timeout : option Z) (addrs : list SocketAddr) (err : option CErr) (w : W)
  : option (result Tcp CErr) * Remote * W :=
  match addrs with
  | [] => (Some (Err (default unreachable err)), mkRemote [] timeout err None, w)
  | addr :: addrs =>
      match connect addr config timeout w with
      | (Err e, w) => (Some (Err e), mkRemote addrs timeout err None, w)
      | (Ok a, w) =>
          match poll_attempt a w with
          | (None, a, w) => (None, mkRemote addrs timeout err (Some a), w)
          | (Some (Ok s), _, w) => (Some (Ok s), mkRemote addrs timeout err None, w)
          | (Some (Err e), _, w) => next_addr config timeout addrs (Some e) w
          end
      end
  end.

Definition remote_poll (config : Config) (r : Remote) (w : W) : option (result Tcp CErr) * Remote * W :=
  match r_attempt r with
  | None => next_addr config (r_timeout r) (r_addrs r) (r_err r) w
  | Some a =>
      match poll_attempt a w with
      | (None, a, w) => (None, mkRemote (r_addrs r) (r_timeout r) (r_err r) (Some a), w)
      | (Some (Ok s), _, w) => (Some (Ok s), mkRemote (r_addrs r) (r_timeout r) (r_err r) None, w)
      | (Some (Err e), _, w) => next_addr config (r_timeout r) (r_addrs r) (Some e) w
      end
  end.

(** ** The race *)

(** [ConnectingTcp] with the points where its [connect] waits. *)
Inductive ConnectingTcp :=
| Alone (r : Remote)
| Delayed (preferred : Remote) (delay : Z) (fallback : Remote)
| Racing (preferred fallback : Remote).

Definition connecting_tcp_new (addrs : list SocketAddr) (config : Config) (w : W) : ConnectingTcp :=
  match happy_eyeballs_timeout config with
  | Some fallback_timeout =>
      let '(preferred, fallback) := split_by_preference (local_address_ipv4 config) (local_address_ipv6 config) addrs in
      match fallback with
      | [] => Alone (remote_new preferred (connect_timeout config))
      | _ => Delayed (remote_new preferred (connect_timeout config)) (now w + fallback_timeout)
               (remote_new fallback (connect_timeout config))
      end
  | None => Alone (remote_new addrs (connect_timeout config))
  end.

Definition alone_poll (config : Config) (r : Remote) (w : W) : option (result Tcp CErr) * ConnectingTcp * W :=
  let '(o, r, w) := remote_poll config r w in (o, Alone r, w).

(** [select(preferred_fut, fallback_fut)]: an error leaves the other future. *)
Definition racing_poll (config : Config) (p f : Remote) (w : W) : option (result Tcp CErr) * ConnectingTcp * W :=
  match remote_poll config p w with
  | (Some (Ok s), p, w) => (Some (Ok s), Racing p f, w)
  | (Some (Err _), _, w) => alone_poll config f w
  | (None, p, w) =>
      match remote_poll config f w with
      | (Some (Ok s), f, w) => (Some (Ok s), Racing p f, w)
      | (Some (Err _), _, w) => alone_poll config p w
      | (None, f, w) => (None, Racing p f, w)
      end
  end.

Definition connecting_poll (config : Config) (c : ConnectingTcp) (w : W) : option (result Tcp CErr) * ConnectingTcp * W :=
  match c with
  | Alone r => alone_poll config r w
  | Delayed p delay f =>
      match remote_poll config p w with
      | (Some (Ok s), p, w) => (Some (Ok s), Delayed p delay f, w)
      | (Some (Err _), _, w) => alone_poll config f w
      | (None, p, w) => if sleep_over delay w then racing_poll config p f w else (None, Delayed p delay f, w)
      end
  | Racing p f => racing_poll config p f w
  end.

(** ** The service *)

Section Service.
Context {Uri : Type} {UC : UriCrate Uri} (resolve : bytes -> W -> result (list SocketAddr) DnsErr * W).

Definition get_host_port (config : Config) (dst : Uri) : result (bytes * Z) CErr :=
  let scheme := up_scheme (uri_parts dst) in
  let text m : result (bytes * Z) CErr := Err (mkConnectError m None) in
  if enforce_http config && negb (bool_decide (scheme = Some HTTP)) then text "invalid URL, scheme is not http"
  else if negb (enforce_http config) && bool_decide (scheme = None) then text "invalid URL, scheme is missing"
  else
    match up_authority (uri_parts dst) with
    | None => text "invalid URL, host is missing"
    | Some auth =>
        let port := match auth_port auth with
                    | Some p => p
                    | None => if bool_decide (scheme = Some HTTPS) then 443 else 80
                    end in
        Ok (auth_host auth, port)
    end.

(** [str::trim_start_matches], [str::trim_end_matches] of one character *)
Fixpoint trim_start (c : byte) (s : bytes) : bytes :=
  match s with b :: s' => if b =? c then trim_start c s' else s | [] => [] end.
Definition trim_end (c : byte) (s : bytes) : bytes := reverse (trim_start c (reverse s)).

(** [call_async] up to [c.connect().await]. *)
Definition call_start (config : Config) (dst : Uri) : SysM ConnectingTcp := fun w =>
  match get_host_port config dst with
  | Err e => (Err e, w)
  | Ok (host, port) =>
      let host := trim_end 93 (trim_start 91 host) in
      match try_parse host port with
      | Some addrs => (Ok (connecting_tcp_new addrs config w), w)
      | None =>
          match resolve host w with
          | (Err e, w) => (Err (dns_error e), w)
          | (Ok addrs, w) =>
              let explicit := bool_decide (is_Some (uri_port dst)) in
              (Ok (connecting_tcp_new (set_port port explicit <$> addrs) config w), w)
          end
      end
  end.

(** The rest of it, as a poll. *)
Definition call_poll (config : Config) (c : ConnectingTcp) (w : W) : option (result Tcp CErr) * ConnectingTcp * W :=
  match connecting_poll config c w with
  | (Some (Ok s), c, w) => (Some (Ok s), c, (so_nodelay s (nodelay config) w).2)
  | r => r
  end.

Record HttpInfo := mkHttpInfo { remote : SocketAddr; local : SocketAddr }.

(** [Connection for TcpStream]: the extra of [Connected]. *)
Definition connected (s : Tcp) (w : W) : option HttpInfo :=
  match peer_addr s w, local_addr s w with Ok r, Ok l => Some (mkHttpInfo r l) | _, _ => None end.
End Service.
End Connector.
End HttpConnector.
