(* ===== verification/HttpConnectProps.v ===== *)
(** * Properties of the TCP connector

    What the sockets see of a connect: which addresses are dialled, in which order,
    and when the second family is let in; what the result says about them.  And
    which host and port a URI leads to. *)

From S2P Require Import Prelude Io Net CoreClient HttpConnect.
Import HttpConnector.

(** ** Interleavings *)

Inductive merge {A} : list A -> list A -> list A -> Prop :=
| merge_nil : merge [] [] []
| merge_l x a b l : merge a b l -> merge (x :: a) b (x :: l)
| merge_r x a b l : merge a b l -> merge a (x :: b) (x :: l).

Lemma merge_left {A} (a : list A) : merge a [] a.
Proof. induction a; by constructor. Qed.

Lemma merge_app {A} (a b l a' b' l' : list A) : merge a b l -> merge a' b' l' -> merge (a ++ a') (b ++ b') (l ++ l').
Proof. intros Hm Hm'. induction Hm; cbn; [done| |]; by constructor. Qed.

Lemma merge_app_l {A} (a b l x : list A) : merge a b l -> merge (a ++ x) b (l ++ x).
Proof. intros Hm. rewrite <- (app_nil_r b). apply merge_app; [done|apply merge_left]. Qed.

Lemma merge_sym {A} (a b l : list A) : merge a b l -> merge b a l.
Proof. induction 1; by constructor. Qed.

Lemma merge_app_r {A} (a b l x : list A) : merge a b l -> merge a (b ++ x) (l ++ x).
Proof. intros Hm. by apply merge_sym, merge_app_l, merge_sym. Qed.

Lemma merge_nil_r {A} (a l : list A) : merge a [] l -> l = a.
Proof. remember [] as b eqn:Eb. induction 1; [done| |done]. f_equal. auto. Qed.

(** ** The sockets' side

    The log of what the system was asked and what it said, each with its time: a
    socket that could not be set up, a connect that was begun, and what polls of it
    said. *)

Inductive NetEvent :=
| EvSetup (e : io_error)
| EvDial (a : SocketAddr)
| EvWaiting (a : SocketAddr)
| EvDown (a : SocketAddr) (e : io_error)
| EvUp (a : SocketAddr).
Abbreviation Log := (list (NetEvent * Z)).

Definition of_poll {T} (a : SocketAddr) (o : option (result T io_error)) : NetEvent :=
  match o with Some (Ok _) => EvUp a | Some (Err e) => EvDown a e | None => EvWaiting a end.
Definition of_setup {T} (r : result T io_error) (t : Z) : Log := match r with Ok _ => [] | Err e => [(EvSetup e, t)] end.

Class SocketLaws (W : Type) {api : SocketApi W} := {
  netlog : W -> Log;
  dial_addr : Dial -> SocketAddr;
  tcp_addr : Tcp -> SocketAddr;
  grows (w : W) (new : Log) (w' : W) : Prop :=
    netlog w' = netlog w ++ new /\ now w <= now w' /\ Forall (fun x => now w <= x.2) new;
  quiet (w w' : W) : Prop := grows w [] w';
  (* without these a socket is not used *)
  socket_new_logs a w : grows w (of_setup (socket_new a w).1 (now w)) (socket_new a w).2;
  nonblocking_logs s w : grows w (of_setup (so_nonblocking s w).1 (now w)) (so_nonblocking s w).2;
  bind_device_logs s i w : grows w (of_setup (so_bind_device s i w).1 (now w)) (so_bind_device s i w).2;
  bind_logs s a w : grows w (of_setup (so_bind s a w).1 (now w)) (so_bind s a w).2;
  keepalive_quiet s k w : quiet w (so_keepalive s k w).2;
  user_timeout_quiet s t w : quiet w (so_user_timeout s t w).2;
  reuseaddr_quiet s w : quiet w (so_reuseaddr s w).2;
  sndbuf_quiet s n w : quiet w (so_sndbuf s n w).2;
  rcvbuf_quiet s n w : quiet w (so_rcvbuf s n w).2;
  nodelay_quiet s b w : quiet w (so_nodelay s b w).2;
  (* connecting a socket to an address begins a connect to that address, and a
     stream that comes of it has this peer *)
  dial_logs s a w : dial_addr (dial s a w).1 = a /\ grows w [(EvDial a, now w)] (dial s a w).2;
  poll_dial_logs d w : grows w [(of_poll (dial_addr d) (poll_dial d w).1, now (poll_dial d w).2)] (poll_dial d w).2;
  poll_dial_addr d w s w' : poll_dial d w = (Some (Ok s), w') -> tcp_addr s = dial_addr d;
  (* a sleep is not over before its deadline *)
  sleep_over_late t w : sleep_over t w = true -> t <= now w
}.

(** ** What becomes of a list of addresses *)

Section History.
(** The time that each address has. *)
Context (share : option Z).

Definition waits (a : SocketAddr) (ws : Log) : Prop := Forall (fun x => x.1 = EvWaiting a) ws.

(** The addresses that were dialled, one after the other, and failed: the last
    error.  An address fails when its connect does, or when its time is over. *)
Inductive tried : list SocketAddr -> Log -> option io_error -> Prop :=
| tr_none : tried [] [] None
| tr_down l log o a t ws e t' :
    tried l log o -> waits a ws -> tried (l ++ [a]) (log ++ (EvDial a, t) :: ws ++ [(EvDown a e, t')]) (Some e)
| tr_late l log o a t ws t' d :
    tried l log o -> waits a ws -> share = Some d -> t + d <= t' ->
    tried (l ++ [a]) (log ++ (EvDial a, t) :: ws ++ [(EvWaiting a, t')]) (Some timed_out).

Inductive Status := Unstarted | Waiting | Connected (a : SocketAddr) | Failed (e : io_error).

(** The list as a whole: it waits for the connect to the last address that was
    dialled, has a connection to it, has failed at every address, or could not set
    up a socket. *)
Inductive history (all : list SocketAddr) : Log -> Status -> Prop :=
| hs_unstarted : history all [] Unstarted
| hs_waiting l a rest log o t ws :
    all = l ++ a :: rest -> tried l log o -> waits a ws -> ws <> [] -> history all (log ++ (EvDial a, t) :: ws) Waiting
| hs_connected l a rest log o t ws t' :
    all = l ++ a :: rest -> tried l log o -> waits a ws ->
    history all (log ++ (EvDial a, t) :: ws ++ [(EvUp a, t')]) (Connected a)
| hs_exhausted log o : tried all log o -> history all log (Failed (default (IoError IoNotConnected "Network unreachable") o))
| hs_setup l rest log o e t : all = l ++ rest -> rest <> [] -> tried l log o -> history all (log ++ [(EvSetup e, t)]) (Failed e).
End History.

Section ConnectorProps.
Context {W : Type} {api : SocketApi W} {laws : SocketLaws W} {DnsErr : Type}.
Abbreviation CErr := (ConnectError DnsErr).
Abbreviation connect := (connect (DnsErr := DnsErr)).
Abbreviation RemoteT := (Remote (W := W) (DnsErr := DnsErr)).
Abbreviation ConnectingT := (ConnectingTcp (W := W) (DnsErr := DnsErr)).

Lemma grows_nil w : quiet w w.
Proof. split; [by rewrite app_nil_r|]. split; [lia|constructor]. Qed.
Lemma grows_trans w1 l1 w2 l2 w3 : grows w1 l1 w2 -> grows w2 l2 w3 -> grows w1 (l1 ++ l2) w3.
Proof.
  intros (E1 & H1 & F1) (E2 & H2 & F2). split; [by rewrite E2, E1, app_assoc|]. split; [lia|].
  apply Forall_app. split; [done|]. eapply Forall_impl; [exact F2|]. cbn. lia.
Qed.

(** ** Setting up a socket *)

(** Nothing is logged, but for a failure. *)
Definition sets_up {A} (m : Sys (DnsErr := DnsErr) (W := W) A) : Prop := forall w,
  match m w with
  | (Ok _, w') => quiet w w'
  | (Err e, w') => exists io t, cause e = Some (CauseIo io) /\ grows w [(EvSetup io, t)] w'
  end.

Lemma sets_up_ret {A} (a : A) : sets_up (sret a).
Proof. intros w. apply grows_nil. Qed.
Lemma sets_up_bind {A B} (m : Sys A) (k : A -> Sys B) : sets_up m -> (forall a, sets_up (k a)) -> sets_up (sbind m k).
Proof.
  intros Hm Hk w. unfold sbind. specialize (Hm w). destruct (m w) as [[a|e] w1]; [|done]. specialize (Hk a w1).
  destruct (k a w1) as [[b|e] w2]; [exact (grows_trans _ _ _ _ _ Hm Hk)|]. destruct Hk as (io & t & Hc & Hg). exists io, t. split; [done|].
  exact (grows_trans _ _ _ _ _ Hm Hg).
Qed.
Lemma sets_up_must {A} s (m : W -> result A io_error * W) : (forall w, grows w (of_setup (m w).1 (now w)) (m w).2) -> sets_up (must s m).
Proof. intros Hm w. unfold must. specialize (Hm w). destruct (m w) as [[a|e] w']; [exact Hm|]. by exists e, (now w). Qed.
Lemma sets_up_try {A} (m : W -> result A io_error * W) : (forall w, quiet w (m w).2) -> sets_up (try_ m).
Proof. intros Hm w. unfold try_. exact (Hm w). Qed.
Lemma sets_up_if_some {A} (o : option A) f : (forall a, sets_up (f a)) -> sets_up (if_some o f).
Proof. intros Hf. destruct o; [apply Hf|apply sets_up_ret]. Qed.

Ltac sets_up_step :=
  lazymatch goal with
  | |- sets_up (sbind _ _) => apply sets_up_bind; [|intros ?]
  | |- sets_up (sret _) => apply sets_up_ret
  | |- sets_up (must _ _) => apply sets_up_must; intros ?
  | |- sets_up (try_ _) => apply sets_up_try; intros ?
  | |- sets_up (if_some _ _) => apply sets_up_if_some; intros ?
  | |- sets_up (if ?b then _ else _) => destruct b
  end.
Create HintDb sockets.
#[local] Hint Resolve grows_nil socket_new_logs nonblocking_logs keepalive_quiet bind_device_logs user_timeout_quiet
  bind_logs reuseaddr_quiet sndbuf_quiet rcvbuf_quiet nodelay_quiet : sockets.

Lemma bind_local_logs s a v4 v6 w :
  grows w (of_setup (bind_local_address s a v4 v6 w).1 (now w)) (bind_local_address s a v4 v6 w).2.
Proof. unfold bind_local_address. destruct (sa_ip a), v4, v6; auto with sockets; apply grows_nil. Qed.
#[local] Hint Resolve bind_local_logs : sockets.

Lemma connect_sets_up a cfg t : sets_up (connect a cfg t).
Proof. unfold HttpConnector.connect. repeat sets_up_step; auto with sockets. Qed.

Lemma sbind_ok {A B} (m : Sys (DnsErr := DnsErr) (W := W) A) (k : A -> Sys B) w b w' :
  sbind m k w = (Ok b, w') -> exists a w1, m w = (Ok a, w1) /\ k a w1 = (Ok b, w').
Proof. unfold sbind. destruct (m w) as [[a|e] w1]; [|done]. intros E. by exists a, w1. Qed.

(** What [connect] leaves is an attempt at the address, not begun. *)
Lemma connect_fresh a cfg t w at_ w' : connect a cfg t w = (Ok at_, w') -> exists s, at_ = Fresh s a t.
Proof.
  unfold HttpConnector.connect. intros E.
  repeat (apply sbind_ok in E as (? & ? & _ & E)). unfold sret in E. injection E as <- _. by eexists.
Qed.

(** The first poll of an attempt begins the connect. *)
Lemma poll_fresh s a t w :
  poll_attempt (DnsErr := DnsErr) (Fresh s a t) w =
  let '(d, w') := dial s a w in poll_attempt (Dialing d (match t with Some x => Some (now w + x) | None => None end)) w'.
Proof. unfold poll_attempt. cbn [begin_attempt]. by destruct (dial s a w). Qed.

(** ** One list of addresses *)

Section List.
Context (cfg : Config) (share : option Z) (all : list SocketAddr).

(** After [l] failed, the connect [d] to [a] is under way; the log is [lg]. *)
Definition under_way (l : list SocketAddr) (a : SocketAddr) (lg : Log) (d : Dial) (dl : option Z) : Prop :=
  exists log0 o t ws, tried share l log0 o /\ lg = log0 ++ (EvDial a, t) :: ws /\ waits a ws /\ dial_addr d = a /\
    dl = match share with Some x => Some (t + x) | None => None end.

(** Where a list is that has not ended, when [lg] was logged for it. *)
Definition remote_ok (lg : Log) (r : RemoteT) : Prop :=
  r_timeout r = share /\
  match r_attempt r with
  | None => r_addrs r = all /\ r_err r = None /\ lg = []
  | Some (Fresh _ _ _) => False
  | Some (Dialing d dl) =>
      exists l, all = l ++ dial_addr d :: r_addrs r /\ under_way l (dial_addr d) lg d dl /\ history share all lg Waiting
  end.

Definition list_outcome (lg : Log) (o : option (result Tcp CErr)) (r' : RemoteT) : Prop :=
  match o with
  | Some (Ok s) => history share all lg (Connected (tcp_addr s))
  | Some (Err e) => exists io, cause e = Some (CauseIo io) /\ history share all lg (Failed io)
  | None => remote_ok lg r' /\ history share all lg Waiting
  end.

Definition advance (lg : Log) w (res : option (result Tcp CErr) * RemoteT * W) : Prop :=
  let '(o, r', w') := res in exists new, grows w new w' /\ list_outcome (lg ++ new) o r'.

Lemma advance_grows lg w new w' res : grows w new w' -> advance (lg ++ new) w' res -> advance lg w res.
Proof.
  intros Hd. destruct res as [[o r'] w3]. intros (new2 & Hd2 & Hrest). exists (new ++ new2). rewrite app_assoc.
  split; [|done]. by eapply grows_trans.
Qed.

(** A poll of the connect that is under way. *)
Lemma poll_dialing l a lg d dl rest w :
  all = l ++ a :: rest -> under_way l a lg d dl ->
  let '(o, a', w') := poll_attempt (DnsErr := DnsErr) (Dialing d dl) w in
  exists new, grows w new w' /\
    match o with
    | Some (Ok s) => history share all (lg ++ new) (Connected (tcp_addr s))
    | Some (Err e) => exists io, e = connect_error "tcp connect error" io /\ tried share (l ++ [a]) (lg ++ new) (Some io)
    | None => a' = Dialing d dl /\ under_way l a (lg ++ new) d dl /\ history share all (lg ++ new) Waiting
    end.
Proof.
  intros Hall (log0 & o0 & t & ws & Htr & -> & Hws & Hda & ->). unfold poll_attempt. cbn [begin_attempt].
  pose proof (poll_dial_logs d w) as Hg. pose proof (poll_dial_addr d w) as Hp. rewrite Hda in *.
  destruct (poll_dial d w) as [o w2]. cbn [fst snd] in Hg. destruct o as [[s|e]|].
  - eexists. split; [exact Hg|]. rewrite (Hp s w2 eq_refl), <- app_assoc. by eapply hs_connected.
  - eexists. split; [exact Hg|]. exists e. split; [done|]. rewrite <- app_assoc. by eapply tr_down.
  - assert (Hw : waits a (ws ++ [(EvWaiting a, now w2)])) by (apply Forall_app; split; [done|by apply Forall_singleton]).
    assert (Hgo : forall dl, dl = match share with Some x => Some (t + x) | None => None end ->
      under_way l a ((log0 ++ (EvDial a, t) :: ws) ++ [(EvWaiting a, now w2)]) d dl /\
      history share all ((log0 ++ (EvDial a, t) :: ws) ++ [(EvWaiting a, now w2)]) Waiting).
    { intros dl Hdl. rewrite <- app_assoc. split; [exists log0, o0, t, (ws ++ [(EvWaiting a, now w2)]); by split_and!|].
      eapply hs_waiting; [done..|]. by destruct ws. }
    destruct share as [x|] eqn:Es.
    + destruct (sleep_over (t + x) w2) eqn:Eo; eexists; (split; [exact Hg|]); [|split; [done|by apply Hgo]].
      exists timed_out. split; [done|]. rewrite <- app_assoc. eapply tr_late; [done|done|done|]. by apply sleep_over_late.
    + eexists. split; [exact Hg|]. split; [done|by apply Hgo].
Qed.

Lemma next_addr_spec addrs : forall l o err w lg,
  all = l ++ addrs -> tried share l lg o -> err = connect_error (DnsErr := DnsErr) "tcp connect error" <$> o ->
  advance lg w (next_addr cfg share addrs err w).
Proof.
  induction addrs as [|addr addrs IH]; intros l o err w lg Hall Htr ->; cbn [next_addr].
  - exists []. rewrite app_nil_r in *. subst l. split; [apply grows_nil|].
    eexists. split; [|by apply hs_exhausted]. by destruct o.
  - pose proof (connect_sets_up addr cfg share w) as Hq. destruct (connect addr cfg share w) as [[a|e] w1] eqn:Ec.
    2: { destruct Hq as (io & t & Hc & Hg). eexists. split; [exact Hg|]. exists io. split; [done|]. by eapply hs_setup. }
    apply connect_fresh in Ec as [s ->].
    rewrite poll_fresh.
    pose proof (dial_logs s addr w1) as [Hda Hg]. destruct (dial s addr w1) as [d w2]. cbn [fst snd] in Hda, Hg.
    pose proof (grows_trans _ _ _ _ _ Hq Hg) as Hg2. cbn [app] in Hg2. apply (advance_grows _ _ _ _ _ Hg2).
    assert (Hu : under_way l addr (lg ++ [(EvDial addr, now w1)]) d (match share with Some x => Some (now w1 + x) | None => None end)).
    { exists lg, o, (now w1), []. split_and!; try done. constructor. }
    pose proof (poll_dialing l addr _ d _ addrs w2 Hall Hu) as Hp.
    destruct (poll_attempt (Dialing d _) w2) as [[p a'] w3]. destruct Hp as (new & Hgn & Hp). destruct p as [[s'|e]|].
    + exists new. by split.
    + destruct Hp as (io & -> & Htr'). apply (advance_grows _ _ _ _ _ Hgn).
      eapply (IH (l ++ [addr]) (Some io)); [by rewrite <- app_assoc|exact Htr'|done].
    + destruct Hp as (-> & Hu' & Hh). exists new. split; [done|]. split; [|done]. split; [done|]. cbn. exists l. by rewrite Hda.
Qed.

Lemma remote_poll_spec r w lg : remote_ok lg r -> advance lg w (remote_poll cfg r w).
Proof.
  intros [Ht Hr]. unfold remote_poll. rewrite Ht. destruct (r_attempt r) as [[s a t|d dl]|]; [done| |].
  - destruct Hr as (l & Hall & Hu & _). pose proof (poll_dialing l (dial_addr d) lg d dl (r_addrs r) w Hall Hu) as Hp.
    destruct (poll_attempt (Dialing d dl) w) as [[p a'] w3]. destruct Hp as (new & Hgn & Hp). destruct p as [[s'|e]|].
    + exists new. by split.
    + destruct Hp as (io & -> & Htr'). apply (advance_grows _ _ _ _ _ Hgn).
      eapply (next_addr_spec (r_addrs r) (l ++ [dial_addr d]) (Some io)); [by rewrite <- app_assoc|exact Htr'|done].
    + destruct Hp as (-> & Hu' & Hh). exists new. split; [done|]. split; [|done]. split; [done|]. cbn. by exists l.
  - destruct Hr as (-> & -> & ->). apply (next_addr_spec all [] None); [done|constructor|done].
Qed.
End List.

(** ** The race of two lists *)

(** The preferred addresses and those to fall back to. *)
Definition candidates (cfg : Config) (addrs : list SocketAddr) : list SocketAddr * list SocketAddr :=
  match happy_eyeballs_timeout cfg with
  | Some _ => split_by_preference (local_address_ipv4 cfg) (local_address_ipv6 cfg) addrs
  | None => (addrs, [])
  end.

(** Each address of a list has the same part of the timeout. *)
Definition share (cfg : Config) (l : list SocketAddr) : option Z :=
  match connect_timeout cfg with Some t => checked_div t (len l mod (u32_max + 1)) | None => None end.

Section Race.
Context (cfg : Config) (w0 : W) (P F : list SocketAddr).
Abbreviation pref := (history (share cfg P) P).
Abbreviation fall := (history (share cfg F) F).

Definition waited (t : Z) : Prop := exists d, happy_eyeballs_timeout cfg = Some d /\ now w0 + d <= t.

(** When the fallback may begin: after the delay, or when the preferred list has
    failed. *)
Definition in_time (lp lf l : Log) : Prop :=
  Forall (fun x => waited x.2) lf \/ l = lp ++ lf /\ exists e, pref lp (Failed e).

(** What was logged since the start. *)
Definition raced (lp lf l : Log) (w : W) : Prop := netlog w = netlog w0 ++ l /\ merge lp lf l /\ now w0 <= now w.

Definition race_state (lp lf l : Log) (c : ConnectingT) (w : W) : Prop :=
  match c with
  | Alone r =>
      (remote_ok (share cfg P) P lp r /\ Forall (fun x => waited x.2) lf /\ exists e, fall lf (Failed e)) \/
      (remote_ok (share cfg F) F lf r /\ (exists e, pref lp (Failed e)) /\ in_time lp lf l /\ (waited (now w) \/ l = lp ++ lf))
  | Delayed p delay f =>
      remote_ok (share cfg P) P lp p /\ remote_ok (share cfg F) F lf f /\ lf = [] /\
      exists d, happy_eyeballs_timeout cfg = Some d /\ delay = now w0 + d
  | Racing p f => remote_ok (share cfg P) P lp p /\ remote_ok (share cfg F) F lf f /\ Forall (fun x => waited x.2) lf /\ waited (now w)
  end.

(** What a poll comes to, when the lists are at [sp] and [sf]. *)
Definition race_outcome (sp sf : Status) (o : option (result Tcp CErr)) (w : W) : Prop :=
  match o with
  | Some (Ok s) => sp = Connected (tcp_addr s) \/ sf = Connected (tcp_addr s)
  | Some (Err e) => exists e1 e2, sp = Failed e1 /\ sf = Failed e2 /\ (cause e = Some (CauseIo e1) \/ cause e = Some (CauseIo e2))
  | None =>
      sp = Waiting /\
        (sf = Waiting \/ (exists e, sf = Failed e) \/
         sf = Unstarted /\ exists d, happy_eyeballs_timeout cfg = Some d /\ sleep_over (now w0 + d) w = false) \/
      (exists e, sp = Failed e) /\ sf = Waiting
  end.

Definition race_advance (res : option (result Tcp CErr) * ConnectingT * W) : Prop :=
  let '(o, c, w) := res in
  exists lp lf l sp sf, raced lp lf l w /\ pref lp sp /\ fall lf sf /\ in_time lp lf l /\
    (o = None -> race_state lp lf l c w) /\ race_outcome sp sf o w.

Lemma raced_pref lp lf l w new w' : raced lp lf l w -> grows w new w' -> raced (lp ++ new) lf (l ++ new) w'.
Proof. intros (El & Hm & Ht) (E & ? & _). split; [by rewrite E, El, app_assoc|]. split; [by apply merge_app_l|lia]. Qed.
Lemma raced_fallback lp lf l w new w' : raced lp lf l w -> grows w new w' -> raced lp (lf ++ new) (l ++ new) w'.
Proof. intros (El & Hm & Ht) (E & ? & _). split; [by rewrite E, El, app_assoc|]. split; [by apply merge_app_r|lia]. Qed.
Lemma waited_grows w new w' : waited (now w) -> grows w new w' -> Forall (fun x => waited x.2) new /\ waited (now w').
Proof.
  intros (d & Hd & Hw) (_ & Hn & Hf). split; [|exists d; split; [done|lia]]. eapply Forall_impl; [exact Hf|]. cbn. intros x Hx.
  exists d. split; [done|lia].
Qed.

(** A list that was polled has a history. *)
Lemma outcome_status all lg o r' :
  list_outcome (share cfg all) all lg o r' -> exists s, history (share cfg all) all lg s /\
    match o with Some (Ok c) => s = Connected (tcp_addr c) | Some (Err e) => exists io, s = Failed io /\ cause e = Some (CauseIo io) | None => s = Waiting end.
Proof. destruct o as [[c|e]|]; cbn; [eauto|intros (io & ? & ?); eauto|intros [_ ?]; eauto]. Qed.

Lemma alone_pref r lp lf l w :
  raced lp lf l w -> remote_ok (share cfg P) P lp r -> Forall (fun x => waited x.2) lf -> (exists e, fall lf (Failed e)) ->
  race_advance (alone_poll cfg r w).
Proof.
  intros Hr Hp Hl [e2 He2]. unfold alone_poll. pose proof (remote_poll_spec cfg _ _ r w lp Hp) as Ha.
  destruct (remote_poll cfg r w) as [[o r'] w']. destruct Ha as (new & Hg & Ho). destruct (outcome_status _ _ _ _ Ho) as (s & Hs & Hso).
  exists (lp ++ new), lf, (l ++ new), s, (Failed e2). split; [by eapply raced_pref|]. do 2 (split; [done|]). split; [by left|].
  split; [intros ->; left; by split; [apply Ho|split; [|exists e2]]|].
  destruct o as [[c|e]|]; cbn; [by left|destruct Hso as (io & -> & ?); exists io, e2; split; [done|]; split; [done|]; by left|].
  subst s. left. split; [done|]. right. left. by exists e2.
Qed.

Lemma alone_fall r lp lf l w :
  raced lp lf l w -> remote_ok (share cfg F) F lf r -> (exists e, pref lp (Failed e)) -> in_time lp lf l ->
  waited (now w) \/ l = lp ++ lf -> race_advance (alone_poll cfg r w).
Proof.
  intros Hr Hp [e1 He1] Hin Hw. unfold alone_poll. pose proof (remote_poll_spec cfg _ _ r w lf Hp) as Ha.
  destruct (remote_poll cfg r w) as [[o r'] w']. destruct Ha as (new & Hg & Ho). destruct (outcome_status _ _ _ _ Ho) as (s & Hs & Hso).
  exists lp, (lf ++ new), (l ++ new), (Failed e1), s. split; [by eapply raced_fallback|]. do 2 (split; [done|]).
  assert (Hin' : in_time lp (lf ++ new) (l ++ new) /\ (waited (now w') \/ l ++ new = lp ++ lf ++ new)).
  { destruct Hw as [Hw|Hl]; [|subst l; rewrite <- app_assoc; split; [right; split; [done|by exists e1]|by right]].
    destruct (waited_grows _ _ _ Hw Hg) as [Hn Hw']. split; [|by left]. destruct Hin as [Hin|[-> Hf]]; [left; by apply Forall_app|].
    right. by rewrite <- app_assoc. }
  destruct Hin' as [Hin' Hw']. split; [done|]. split; [intros ->; right; split; [apply Ho|]; by split; [exists e1|]|].
  destruct o as [[c|e]|]; cbn; [by right|destruct Hso as (io & -> & ?); exists e1, io; split; [done|]; split; [done|]; by right|].
  subst s. right. split; [by exists e1|done].
Qed.

Lemma racing_advance p f lp lf l w :
  raced lp lf l w -> remote_ok (share cfg P) P lp p -> remote_ok (share cfg F) F lf f -> (exists s, fall lf s) ->
  Forall (fun x => waited x.2) lf -> waited (now w) -> race_advance (racing_poll cfg p f w).
Proof.
  intros Hr Hp Hf [s0 Hs0] Hl Hw. unfold racing_poll. pose proof (remote_poll_spec cfg _ _ p w lp Hp) as Ha.
  destruct (remote_poll cfg p w) as [[o p'] w1]. destruct Ha as (new & Hg & Ho).
  pose proof (raced_pref _ _ _ _ _ _ Hr Hg) as Hr1. destruct (waited_grows _ _ _ Hw Hg) as [_ Hw1].
  destruct (outcome_status _ _ _ _ Ho) as (s & Hs & Hso). destruct o as [[c|e]|].
  - subst s. exists (lp ++ new), lf, (l ++ new), (Connected (tcp_addr c)), s0. do 3 (split; [done|]). split; [by left|]. split; [done|by left].
  - destruct Hso as (io & -> & _). eapply alone_fall; [done|done|by exists io|by left|by left].
  - subst s. pose proof (remote_poll_spec cfg _ _ f w1 lf Hf) as Hb. destruct (remote_poll cfg f w1) as [[o' f'] w2]. destruct Hb as (new' & Hg' & Ho').
    pose proof (raced_fallback _ _ _ _ _ _ Hr1 Hg') as Hr2. destruct (waited_grows _ _ _ Hw1 Hg') as [Hn' Hw2].
    assert (Hl2 : Forall (fun x => waited x.2) (lf ++ new')) by by apply Forall_app.
    destruct (outcome_status _ _ _ _ Ho') as (s' & Hs' & Hso'). destruct o' as [[c|e]|].
    + subst s'. eexists _, _, _, _, _. split; [exact Hr2|]. do 2 (split; [done|]). split; [by left|]. split; [done|by right].
    + destruct Hso' as (io & -> & _). eapply alone_pref; [exact Hr2|by apply Ho|done|by exists io].
    + subst s'. eexists _, _, _, _, _. split; [exact Hr2|]. do 2 (split; [done|]). split; [by left|].
      split; [intros _; split; [apply Ho|]; split; [apply Ho'|done]|]. left. split; [done|]. by left.
Qed.

Lemma remote_status all lg r : remote_ok (share cfg all) all lg r -> exists s, history (share cfg all) all lg s.
Proof.
  intros [_ Hr]. destruct (r_attempt r) as [[]|]; [done|destruct Hr as (l & _ & _ & Hh); by eexists|].
  destruct Hr as (_ & _ & ->). exists Unstarted. constructor.
Qed.

Lemma connecting_advance c lp lf l w : raced lp lf l w -> race_state lp lf l c w -> race_advance (connecting_poll cfg c w).
Proof.
  intros Hr Hs. destruct c as [r|p delay f|p f]; cbn [connecting_poll].
  - destruct Hs as [(? & ? & ?)|(? & ? & ? & ?)]; [by eapply alone_pref|by eapply alone_fall].
  - destruct Hs as (Hp & Hf & -> & d & Hh & ->). pose proof (remote_poll_spec cfg _ _ p w lp Hp) as Ha.
    destruct (remote_poll cfg p w) as [[o p'] w1]. destruct Ha as (new & Hg & Ho). pose proof (raced_pref _ _ _ _ _ _ Hr Hg) as Hr1.
    destruct (outcome_status _ _ _ _ Ho) as (s & Hst & Hso). assert (Hf0 : fall [] Unstarted) by constructor.
    assert (Hlate : Forall (fun x : NetEvent * Z => waited x.2) []) by constructor. destruct o as [[c|e]|].
    + subst s. eexists _, [], _, _, _. split; [exact Hr1|]. do 2 (split; [done|]). split; [by left|]. split; [done|by left].
    + destruct Hso as (io & -> & _). eapply alone_fall; [exact Hr1|done|by exists io|by left|]. right.
      destruct Hr1 as (_ & Hm & _). rewrite app_nil_r. by apply merge_nil_r.
    + subst s. destruct (sleep_over (now w0 + d) w1) eqn:Es.
      * assert (waited (now w1)) by (exists d; split; [done|by apply sleep_over_late]).
        eapply racing_advance; [exact Hr1|apply Ho|done|by exists Unstarted|done|done].
      * eexists _, [], _, Waiting, Unstarted. split; [exact Hr1|]. do 2 (split; [done|]). split; [by left|].
        split; [intros _; split; [apply Ho|]; split; [done|]; split; [done|]; by exists d|].
        left. split; [done|]. right. right. split; [done|]. by exists d.
  - destruct Hs as (? & Hf & ? & ?). eapply racing_advance; [done|done|done|by eapply remote_status|done|done].
Qed.
End Race.

(** ** The life of a connect: polls, with time passing in between *)

Inductive connecting_reach (cfg : Config) (addrs : list SocketAddr) (w0 : W) : ConnectingT -> W -> Prop :=
| connecting_start : connecting_reach cfg addrs w0 (connecting_tcp_new addrs cfg w0) w0
| connecting_again c w c' w' :
    connecting_reach cfg addrs w0 c w -> connecting_poll cfg c w = (None, c', w') -> connecting_reach cfg addrs w0 c' w'
| connecting_wait c w w' : connecting_reach cfg addrs w0 c w -> quiet w w' -> connecting_reach cfg addrs w0 c w'.

Lemma remote_new_ok cfg all : remote_ok (share cfg all) all [] (remote_new all (connect_timeout cfg) : RemoteT).
Proof. by split. Qed.

Lemma connecting_start_state cfg addrs w0 :
  let '(P, F) := candidates cfg addrs in
  raced w0 [] [] [] w0 /\ race_state cfg w0 P F [] [] [] (connecting_tcp_new addrs cfg w0) w0.
Proof.
  assert (Hr : raced w0 [] [] [] w0) by (split; [by rewrite app_nil_r|]; split; [constructor|lia]).
  assert (Hno : exists e, history (share cfg []) [] [] (Failed e)) by (eexists; apply hs_exhausted; constructor).
  unfold connecting_tcp_new, candidates. destruct (happy_eyeballs_timeout cfg) as [d|] eqn:Eh.
  - destruct (split_by_preference _ _ addrs) as [P F]. split; [done|]. destruct F as [|a F].
    + left. split; [apply remote_new_ok|]. by split; [constructor|].
    + split; [apply remote_new_ok|]. split; [apply remote_new_ok|]. split; [done|]. by exists d.
  - split; [done|]. left. split; [apply remote_new_ok|]. by split; [constructor|].
Qed.

Lemma race_state_quiet cfg w0 P F lp lf l c w w' : quiet w w' -> race_state cfg w0 P F lp lf l c w -> race_state cfg w0 P F lp lf l c w'.
Proof.
  intros Hq. destruct c as [r|p d f|p f]; [|done|].
  - intros [?|(? & ? & ? & [Hw|?])]; [by left|right..]; (split; [done|]); (split; [done|]); (split; [done|]); [left|by right].
    by apply (waited_grows _ _ _ _ _ Hw Hq).
  - intros (? & ? & ? & Hw). split; [done|]. split; [done|]. split; [done|]. by apply (waited_grows _ _ _ _ _ Hw Hq).
Qed.

Lemma connecting_reach_state cfg addrs w0 c w :
  connecting_reach cfg addrs w0 c w ->
  let '(P, F) := candidates cfg addrs in exists lp lf l, raced w0 lp lf l w /\ race_state cfg w0 P F lp lf l c w.
Proof.
  pose proof (connecting_start_state cfg addrs w0) as H0. destruct (candidates cfg addrs) as [P F].
  induction 1 as [|c w c' w' _ (lp & lf & l & Hr & Hs) E|c w w' _ (lp & lf & l & Hr & Hs) Hq].
  - by exists [], [], [].
  - pose proof (connecting_advance cfg w0 P F c lp lf l w Hr Hs) as Ha. rewrite E in Ha.
    destruct Ha as (lp' & lf' & l' & _ & _ & ? & _ & _ & _ & Hs' & _). exists lp', lf', l'. auto.
  - exists lp, lf, l. split; [|by eapply race_state_quiet]. destruct Hr as (El & Hm & ?), Hq as (E & ? & _).
    split; [by rewrite E, app_nil_r|]. split; [done|lia].
Qed.

(** The addresses that may be dialled, in the resolver's order: first those of IPv6,
    then to fall back those of IPv4; with a sole local address those of its family; all
    of them in one list if there is no fallback. *)
Definition families (cfg : Config) (addrs : list SocketAddr) : list SocketAddr * list SocketAddr :=
  match happy_eyeballs_timeout cfg, local_address_ipv4 cfg, local_address_ipv6 cfg with
  | None, _, _ => (addrs, [])
  | Some _, Some _, None => (List.filter is_ipv4 addrs, [])
  | Some _, None, Some _ => (List.filter is_ipv6 addrs, [])
  | _, _, _ => (List.filter is_ipv6 addrs, List.filter is_ipv4 addrs)
  end.

Lemma candidates_families cfg addrs : candidates cfg addrs = families cfg addrs.
Proof.
  assert (Hp : List.partition is_ipv6 addrs = (List.filter is_ipv6 addrs, List.filter is_ipv4 addrs)).
  { rewrite partition_as_filter. f_equal. apply List.filter_ext. intros a. unfold is_ipv4, is_ipv6. by destruct (sa_ip a). }
  unfold candidates, families, split_by_preference. by destruct (happy_eyeballs_timeout cfg), (local_address_ipv4 cfg), (local_address_ipv6 cfg).
Qed.

(** C32. The race of addresses, however the polls of a connect are spread over time.
    What the system has seen is an interleaving of two histories, one of the preferred
    and one of the fallback addresses, the IPv6 and the IPv4 addresses of the resolver
    ([families]; only the family of a sole local address).  In each, the addresses are dialled in
    the order of the resolver, the next one only when the connect to the last one has
    failed or has had its part of the timeout; a socket that cannot be set up ends
    the list.  The fallback begins only when the delay is over or when the preferred
    list has failed, before it and not merely dialled.  A success is a stream to the
    address that answered; an error is reported only when both lists have failed, and
    is that of one of them; a connect is pending only while a connect that was polled
    waits, and the fallback then waits too, has failed, or its delay is not over. *)
Theorem address_race cfg addrs w0 c w :
  connecting_reach cfg addrs w0 c w ->
  let '(o, _, w') := connecting_poll cfg c w in
  let '(P, F) := families cfg addrs in
  exists lp lf l sp sf, netlog w' = netlog w0 ++ l /\ merge lp lf l /\
    history (share cfg P) P lp sp /\ history (share cfg F) F lf sf /\
    (Forall (fun x => waited cfg w0 x.2) lf \/ l = lp ++ lf /\ exists e, history (share cfg P) P lp (Failed e)) /\
    race_outcome cfg w0 sp sf o w'.
Proof.
  intros Hc. apply connecting_reach_state in Hc. rewrite candidates_families in Hc.
  destruct (families cfg addrs) as [P F]. destruct Hc as (lp0 & lf0 & l0 & Hr0 & Hs0).
  pose proof (connecting_advance cfg w0 P F c lp0 lf0 l0 w Hr0 Hs0) as Ha. destruct (connecting_poll cfg c w) as [[o c'] w'].
  destruct Ha as (lp & lf & l & sp & sf & (El & Hm & _) & Hp & Hf & Hin & _ & Ho).
  by exists lp, lf, l, sp, sf.
Qed.

(** The timeout of a connect is divided among the addresses of a list. *)
Lemma timeout_divided addrs T t :
  0 <= T -> len addrs <= u32_max -> r_timeout (remote_new addrs (Some T) : RemoteT) = Some t -> t * len addrs <= T.
Proof.
  intros HT Hl. pose proof (len_nonneg addrs). cbn [remote_new r_timeout]. rewrite Z.mod_small by lia. unfold checked_div.
  destruct (Z.eqb_spec (len addrs) 0); [done|]. intros [= <-]. rewrite Z.mul_comm. apply Z.mul_div_le. lia.
Qed.

(** ** The service *)

Section Service.
Context {Uri : Type} {UC : UriCrate Uri} (resolve : bytes -> W -> result (list SocketAddr) DnsErr * W).

(** Where a URI leads: to the address its host spells, or else to what the
    resolver says; a port in the URI is every address's port, without one an
    address has the resolver's port, or the scheme's if that is 0. *)
Theorem connector_addresses cfg (dst : Uri) w c w' :
  call_start resolve cfg dst w = (Ok c, w') ->
  exists auth addrs, up_authority (uri_parts dst) = Some auth /\ c = connecting_tcp_new addrs cfg w' /\
    let host := trim_end 93 (trim_start 91 (auth_host auth)) in
    let scheme_port := if bool_decide (up_scheme (uri_parts dst) = Some HTTPS) then 443 else 80 in
    let port (resolved : Z) := match auth_port auth with Some p => p | None => if resolved =? 0 then scheme_port else resolved end in
    match IpParse.parse_ip host with
    | Some ip => addrs = [mkSocketAddr ip (port 0)] /\ w' = w
    | None => exists found, resolve host w = (Ok found, w') /\ addrs = (fun a => mkSocketAddr (sa_ip a) (port (sa_port a))) <$> found
    end.
Proof.
  unfold call_start, get_host_port. destruct (enforce_http cfg && _); [done|]. destruct (negb (enforce_http cfg) && _); [done|].
  destruct (up_authority (uri_parts dst)) as [auth|] eqn:Ea; [|done]. unfold try_parse.
  destruct (IpParse.parse_ip _) as [ip|] eqn:Ei.
  - intros [= <- <-]. eexists auth, _. split; [done|]. split; [done|]. cbv zeta. rewrite Ei. split; [|done]. by destruct (auth_port auth).
  - destruct (resolve _ w) as [[found|e] w1] eqn:Er; [|done]. intros [= <- <-]. eexists auth, _. split; [done|]. split; [done|].
    cbv zeta. rewrite Ei. exists found. split; [done|]. apply list_fmap_ext. intros i a _. unfold set_port, uri_port. rewrite Ea. cbn [mbind option_bind].
    destruct (auth_port auth) as [p|]; [done|]. rewrite bool_decide_false by (by intros []). cbn [orb].
    destruct (Z.eqb_spec (sa_port a) 0); [done|by destruct a].
Qed.
End Service.
End ConnectorProps.

(** ** The properties at concrete inputs *)

Module RefSockets.

(** A clock, the log, and which addresses answer. *)
Record net := mkNet { clock : Z; log : Log; up : SocketAddr -> bool }.
Definition fine {A} (a : A) (w : net) : result A io_error * net := (Ok a, w).
Definition note (e : NetEvent) (w : net) : net := mkNet (clock w) (log w ++ [(e, clock w)]) (up w).

#[export] Instance ref_api : SocketApi net := {|
  Sock := unit; Tcp := SocketAddr; Dial := SocketAddr; TcpKeepalive := unit;
  keepalive_new := tt; with_time := fun _ k => k; with_interval := fun _ k => k; with_retries := fun _ k => k;
  socket_new := fun _ => fine tt; so_nonblocking := fun _ => fine tt; so_keepalive := fun _ _ => fine tt;
  so_bind_device := fun _ _ => fine tt; so_user_timeout := fun _ _ => fine tt; so_bind := fun _ _ => fine tt;
  so_reuseaddr := fun _ => fine tt; so_sndbuf := fun _ _ => fine tt; so_rcvbuf := fun _ _ => fine tt;
  dial := fun _ a w => (a, note (EvDial a) w);
  poll_dial := fun a w => if up w a then (Some (Ok a), note (EvUp a) w) else (None, note (EvWaiting a) w);
  so_nodelay := fun _ _ => fine tt; peer_addr := fun a _ => Ok a; local_addr := fun a _ => Ok a;
  now := clock; sleep_over := fun t w => t <=? clock w
|}.

Lemma note_grows e w : log (note e w) = log w ++ [(e, clock w)] /\ clock w <= clock (note e w) /\ Forall (fun x => clock w <= x.2) [(e, clock w)].
Proof. split; [done|]. split; [cbn; lia|]. apply Forall_singleton. cbn. lia. Qed.

#[export] Program Instance ref_sockets : SocketLaws net := {|
  netlog := log; dial_addr := fun a => a; tcp_addr := fun a => a
|}.
Solve All Obligations with (cbn; intros; try (split; [by rewrite app_nil_r|]; split; [lia|constructor])).
Next Obligation. intros s a w. split; [done|]. apply note_grows. Qed.
Next Obligation. intros d w. cbn. destruct (up w d); [exact (note_grows (EvUp d) w)|exact (note_grows (EvWaiting d) w)]. Qed.
Next Obligation. intros d w s w' E. cbn in E. destruct (up w d); by simplify_eq. Qed.
Next Obligation. intros t w E. cbn in *. lia. Qed.

Definition six : SocketAddr := mkSocketAddr (V6 (replicate 15 0 ++ [1])) 80.
Definition four : SocketAddr := mkSocketAddr (V4 [127; 0; 0; 1]) 80.
Definition w0 : net := mkNet 0 [] is_ipv4.
Definition start : ConnectingTcp (W := net) (DnsErr := unit) := connecting_tcp_new [four; six] new_config w0.
Definition later (w : net) : net := mkNet (clock w + 300000000) (log w) (up w).

Definition first := connecting_poll new_config start w0.
Definition c1 := first.1.2.
Definition w1 := later first.2.

(** The IPv6 address does not answer, after 300 ms the IPv4 one does. *)
Lemma address_race_witness :
  connecting_reach new_config [four; six] w0 c1 w1 /\
  let '(o, _, w') := connecting_poll (DnsErr := unit) new_config c1 w1 in
  o = Some (Ok four) /\ exists lp lf sp sf, history (share new_config [six]) [six] lp sp /\ history (share new_config [four]) [four] lf sf /\
    merge lp lf (log w') /\ (sp = Connected four \/ sf = Connected four).
Proof.
  assert (connecting_reach new_config [four; six] w0 c1 w1) as Hr.
  { apply (connecting_wait _ _ _ c1 first.2); [|split; [reflexivity|split; [cbn; lia|constructor]]].
    apply (connecting_again _ _ _ start w0); [apply connecting_start|reflexivity]. }
  split; [exact Hr|]. pose proof (address_race new_config [four; six] w0 c1 w1 Hr) as Ht.
  assert ((connecting_poll new_config c1 w1).1.1 = Some (Ok four)) as Ho by reflexivity.
  destruct (connecting_poll new_config c1 w1) as [[o2 c2] w2]. cbn in Ho. subst o2. split; [reflexivity|].
  change (families new_config [four; six]) with ([six], [four]) in Ht.
  destruct Ht as (lp & lf & l & sp & sf & El & Hm & Hp & Hf & _ & Hs). exists lp, lf, sp, sf.
  split; [exact Hp|]. split; [exact Hf|]. cbn in El. rewrite El. split; [exact Hm|exact Hs].
Defined.
End RefSockets.
