(* ===== verification/ReqBuilder.v ===== *)
(** * Building requests (src/src/client/request.rs, src/src/util.rs)

    A [Request] and its builder: every builder method, with the error it may leave,
    and [send], which hands the request to [execute_request].  The url, serde and
    percent-encoding crates are interfaces; whether a header value is marked
    sensitive is not part of the model's header values. *)

From S2P Require Import Prelude Buf Http Error Dispatcher Io Net Tunnel Proxy Request Pending Multipart.
Import Proxy Network ClientBody Redirect Pending Multipart.

(** ** Merging header maps (src/src/util.rs) *)

Section ReplaceHeaders.
Context `{HttpCrate}.

(** The loop; [prev_entry] is the entry of a name.  [None] is the panic of
    [unreachable!]. *)
Fixpoint replace_loop (prev_entry : option HeaderName) (src : list (option HeaderName * HeaderValue)) (dst : HeaderMap)
  : option HeaderMap :=
  match src with
  | [] => Some dst
  | (Some key, value) :: src => replace_loop (Some key) src (hm_insert key value dst)
  | (None, value) :: src =>
      match prev_entry with
      | Some key => replace_loop prev_entry src (hm_append key value dst)
      | None => None
      end
  end.
Definition replace_headers (dst src : HeaderMap) : option HeaderMap := replace_loop None (hm_into_iter src) dst.
End ReplaceHeaders.

(** What else the builder needs of the url and percent-encoding crates. *)
Class UrlQuery (Url : Type) := {
  url_has_authority : Url -> bool;
  url_query : Url -> option bytes;
  url_set_query : option bytes -> Url -> Url;
  (* [percent_decode(s).decode_utf8()] *)
  percent_decode_utf8 : bytes -> option bytes
}.

Module ReqBuilder.
Section ReqBuilder.
Context `{HttpCrate} {HX : HttpExtend} `{ProxyCrates} {Url : Type} `{UrlCrate Url} {UQ : UrlQuery Url}.
Context {S : Type} {sb : Dispatcher.Body S bytes HeaderMap} {PErr Uri Ext : Type} {EC : RequestConfig.ExtensionsCrate Ext} {DU : Dst Uri}.
(** [HeaderValue::from_str]; no extensions; whether a feature for compression is
    enabled. *)
Context (hv_from_str : bytes -> option HeaderValue) (no_ext : Ext) (compression : bool).
Abbreviation BodyT := (ClientBody.Body (S := S)).
Abbreviation Error := (ReqError (Url := Url) (PErr := PErr)).

Record Request := mkRequest {
  q_method : Method;
  q_url : Url;
  q_headers : HeaderMap;
  q_headers_order : option (list HeaderName);
  q_body : option BodyT;
  q_extensions : Ext;
  q_version : option Version;
  q_redirect : option (Policy Url PErr);
  q_allow_compression : bool;
  q_network_scheme : NetworkSchemeBuilder
}.

Definition set_method (x : Method) (r : Request) : Request :=
  mkRequest x (q_url r) (q_headers r) (q_headers_order r) (q_body r) (q_extensions r) (q_version r) (q_redirect r) (q_allow_compression r) (q_network_scheme r).
Definition set_url (x : Url) (r : Request) : Request :=
  mkRequest (q_method r) x (q_headers r) (q_headers_order r) (q_body r) (q_extensions r) (q_version r) (q_redirect r) (q_allow_compression r) (q_network_scheme r).
Definition set_headers (x : HeaderMap) (r : Request) : Request :=
  mkRequest (q_method r) (q_url r) x (q_headers_order r) (q_body r) (q_extensions r) (q_version r) (q_redirect r) (q_allow_compression r) (q_network_scheme r).
Definition set_headers_order (x : option (list HeaderName)) (r : Request) : Request :=
  mkRequest (q_method r) (q_url r) (q_headers r) x (q_body r) (q_extensions r) (q_version r) (q_redirect r) (q_allow_compression r) (q_network_scheme r).
Definition set_body (x : option BodyT) (r : Request) : Request :=
  mkRequest (q_method r) (q_url r) (q_headers r) (q_headers_order r) x (q_extensions r) (q_version r) (q_redirect r) (q_allow_compression r) (q_network_scheme r).
Definition set_extensions (x : Ext) (r : Request) : Request :=
  mkRequest (q_method r) (q_url r) (q_headers r) (q_headers_order r) (q_body r) x (q_version r) (q_redirect r) (q_allow_compression r) (q_network_scheme r).
Definition set_version (x : option Version) (r : Request) : Request :=
  mkRequest (q_method r) (q_url r) (q_headers r) (q_headers_order r) (q_body r) (q_extensions r) x (q_redirect r) (q_allow_compression r) (q_network_scheme r).
Definition set_redirect (x : option (Policy Url PErr)) (r : Request) : Request :=
  mkRequest (q_method r) (q_url r) (q_headers r) (q_headers_order r) (q_body r) (q_extensions r) (q_version r) x (q_allow_compression r) (q_network_scheme r).
Definition set_allow_compression (x : bool) (r : Request) : Request :=
  mkRequest (q_method r) (q_url r) (q_headers r) (q_headers_order r) (q_body r) (q_extensions r) (q_version r) (q_redirect r) x (q_network_scheme r).
Definition set_network_scheme (x : NetworkSchemeBuilder) (r : Request) : Request :=
  mkRequest (q_method r) (q_url r) (q_headers r) (q_headers_order r) (q_body r) (q_extensions r) (q_version r) (q_redirect r) (q_allow_compression r) x.

Definition request_new (m : Method) (u : Url) : Request :=
  mkRequest m u hm_new None None no_ext None None compression builder_default.

Definition try_clone (r : Request) : option Request :=
  body ← (match q_body r with
          | Some b => match ClientBody.try_clone b with Some b => Some (Some b) | None => None end
          | None => Some None
          end);
  let c := request_new (q_method r) (q_url r) in
  let c := set_extensions (RequestConfig.set (RequestConfig.timeout (q_extensions r)) (q_extensions c)) c in
  let c := set_extensions (RequestConfig.set (RequestConfig.read_timeout (q_extensions r)) (q_extensions c)) c in
  let c := set_headers (q_headers r) c in
  let c := set_headers_order (q_headers_order r) c in
  let c := set_version (q_version r) c in
  let c := set_redirect (q_redirect r) c in
  let c := if compression then set_allow_compression (q_allow_compression r) c else c in
  let c := set_network_scheme (q_network_scheme r) c in
  let c := set_extensions (q_extensions r) c in
  Some (set_body body c).

(** [pieces], as [execute_request] takes them. *)
Definition pieces (r : Request) : Pending.Request (S := S) (Url := Url) (Ext := Ext) (PErr := PErr) :=
  Pending.mkRequest (q_method r) (q_url r) (q_headers r) (q_headers_order r) (q_body r) (q_extensions r) (q_version r)
    (q_redirect r) (q_allow_compression r) (nb_build (q_network_scheme r)).

(** ** The builder *)

Abbreviation ClientT := (ClientRef (Url := Url) (PErr := PErr)).
Record RequestBuilder := mkRequestBuilder { b_client : ClientT; b_request : result Request Error }.

(** [if let Ok(ref mut req) = self.request { .. }; self] *)
Definition on_request (f : Request -> result Request Error) (b : RequestBuilder) : RequestBuilder :=
  mkRequestBuilder (b_client b) (match b_request b with Ok r => f r | Err e => Err e end).

Definition builder_error (s : string) : Error := err_builder (Text s).

(** [headers.entry(key).or_insert(value)] *)
Definition or_insert (k : HeaderName) (v : HeaderValue) (h : HeaderMap) : HeaderMap :=
  if contains_key k h then h else hm_insert k v h.

(** [key] and [value] are the results of their conversions. *)
Definition header_operation (key : option HeaderName) (value : option HeaderValue) (sensitive overwrite or_ins : bool)
  : RequestBuilder -> RequestBuilder :=
  on_request (fun r =>
    match key with
    | Some key =>
        match value with
        | Some value =>
            let h := q_headers r in
            Ok (set_headers (if or_ins then or_insert key value h
                             else if overwrite then hm_insert key value h else hm_append key value h) r)
        | None => Err (builder_error "header value")
        end
    | None => Err (builder_error "header name")
    end).

Definition header key value := header_operation key value false true false.
Definition header_append key value := header_operation key value false false false.
Definition auth value := header_operation (Some AUTHORIZATION) value true true false.
Definition basic_auth (username : bytes) (password : option bytes) :=
  header_operation (Some AUTHORIZATION) (Some (Proxy.basic_auth username password)) true true false.
Definition bearer_auth (token : bytes) :=
  header_operation (Some AUTHORIZATION) (hv_from_str (bs "Bearer " ++ token)) true true false.

(** [None] is a panic. *)
Definition headers (hs : HeaderMap) (b : RequestBuilder) : option RequestBuilder :=
  match b_request b with
  | Ok r => h ← replace_headers (q_headers r) hs; Some (mkRequestBuilder (b_client b) (Ok (set_headers h r)))
  | Err _ => Some b
  end.

Definition headers_order (o : list HeaderName) := on_request (fun r => Ok (set_headers_order (Some o) r)).
Definition body (x : BodyT) := on_request (fun r => Ok (set_body (Some x) r)).
Definition timeout (t : Z) := on_request (fun r => Ok (set_extensions (RequestConfig.set_timeout t (q_extensions r)) r)).
Definition read_timeout (t : Z) := on_request (fun r => Ok (set_extensions (RequestConfig.set_read_timeout t (q_extensions r)) r)).
Definition version (v : Version) := on_request (fun r => Ok (set_version (Some v) r)).
Definition redirect (p : Policy Url PErr) := on_request (fun r => Ok (set_redirect (Some p) r)).
Definition allow_compression (x : bool) := on_request (fun r => Ok (set_allow_compression x r)).
Definition local_address (a : option IpAddr) := on_request (fun r => Ok (set_network_scheme (nb_set_address a (q_network_scheme r)) r)).
Definition local_addresses (v4 v6 : option bytes) :=
  on_request (fun r => Ok (set_network_scheme (nb_set_addresses v4 v6 (q_network_scheme r)) r)).
Definition interface (i : bytes) := on_request (fun r => Ok (set_network_scheme (nb_set_interface i (q_network_scheme r)) r)).

(** [query]: the serializer appends to the URL and may fail on the way. *)
Definition query (serialize : Url -> Url * bool) : RequestBuilder -> RequestBuilder :=
  on_request (fun r =>
    let '(u, fine) := serialize (q_url r) in
    let u := if bool_decide (url_query u = Some []) then url_set_query None u else u in
    if fine : bool then Ok (set_url u r) else Err (builder_error "query")).

(** [proxy], with the result of [into_proxy]; the outer [None] is a panic. *)
Definition proxy {DUrl : Dst Url} (p : result (Proxy (Url := Url)) ProxyError) (b : RequestBuilder) : option RequestBuilder :=
  match b_request b with
  | Err _ => Some b
  | Ok r =>
      match p with
      | Ok p =>
          s ← intercept p (q_url r);
          Some (match s with
                | Some s => mkRequestBuilder (b_client b) (Ok (set_network_scheme (nb_set_proxy_scheme (Some s) (q_network_scheme r)) r))
                | None => b
                end)
      | Err _ => Some (mkRequestBuilder (b_client b) (Err (builder_error "proxy")))
      end
  end.

(** [form] and [json], with the result of the serializer. *)
Definition serialized (content_type : bytes) (encoded : option bytes) : RequestBuilder -> RequestBuilder :=
  on_request (fun r =>
    match encoded with
    | Some x => Ok (set_body (Some (reusable x)) (set_headers (or_insert CONTENT_TYPE content_type (q_headers r)) r))
    | None => Err (builder_error "serialize")
    end).
Definition form := serialized (bs "application/x-www-form-urlencoded").
Definition json := serialized (bs "application/json").

(** ** Multipart bodies *)

Section MultipartBody.
Context {PC : PercentCrate} {X : Type} (stream_items : S -> list (result bytes X)) (stream_body : list (result bytes X) -> S).

(** [Form::stream] *)
Definition form_stream (f : Form (S := S)) : BodyT :=
  match fields f with [] => empty | _ => Streaming (stream_body (form_into_stream stream_items f)) end.

Definition multipart (f : Form (S := S)) (b : RequestBuilder) : RequestBuilder :=
  let b := header_operation (Some CONTENT_TYPE) (hv_from_str (bs "multipart/form-data; boundary=" ++ boundary f)) false false true b in
  let '(length, f) := compute_length f in
  let b := match length with Some n => header (Some CONTENT_LENGTH) (Some (hv_from_u64 n)) b | None => b end in
  on_request (fun r => Ok (set_body (Some (form_stream f)) r)) b.
End MultipartBody.

(** ** Credentials in the URL *)

Definition extract_authority (u : Url) : option (bytes * option bytes) * Url :=
  if url_has_authority u then
    match percent_decode_utf8 (url_username u) with
    | None => (None, u)
    | Some username =>
        let password := pass ← url_password u; percent_decode_utf8 pass in
        if negb (bool_decide (username = [])) || bool_decide (is_Some password)
        then (Some (username, password), url_set_password None (url_set_username [] u))
        else (None, u)
    end
  else (None, u).

Definition builder_new (c : ClientT) (request : result Request Error) : RequestBuilder :=
  match request with
  | Ok r =>
      let '(a, u) := extract_authority (q_url r) in
      let b := mkRequestBuilder c (Ok (set_url u r)) in
      match a with Some (username, password) => basic_auth username password b | None => b end
  | Err e => mkRequestBuilder c (Err e)
  end.

(** [Client::request], [Client::get] and the like, on a string. *)
Definition into_url (s : bytes) : result Url Error :=
  match url_parse s with
  | Err _ => Err (builder_error "url")
  | Ok u => if url_has_host u then Ok u else Err (url_bad_scheme u)
  end.
Definition client_request (c : ClientT) (m : Method) (url : bytes) : RequestBuilder :=
  builder_new c (match into_url url with Ok u => Ok (request_new m u) | Err e => Err e end).

Definition builder_try_clone (b : RequestBuilder) : option RequestBuilder :=
  match b_request b with Ok r => r ← try_clone r; Some (mkRequestBuilder (b_client b) (Ok r)) | Err _ => None end.

(** ** Sending *)

Section Send.
Context (uri_parse : bytes -> option Uri) (uri_root : Uri) (uri_is_http : Uri -> bool).
Context {W Fut : Type} {HW : World (S := S) (Url := Url) (Uri := Uri) (Ext := Ext) W Fut}.

Definition send (b : RequestBuilder) (w : W) :=
  match b_request b with
  | Ok r => execute_request uri_parse uri_root uri_is_http no_ext (b_client b) (pieces r) w
  | Err e => Some (new_err e, w)
  end.
End Send.

(** ** Requests of the http crate: what the conversions look at *)

Record HttpRequest := mkHttpRequest {
  h_method : Method; h_uri : bytes; h_version : Version; h_headers : HeaderMap; h_body : BodyT
}.

Definition from_http (q : HttpRequest) : result Request Error :=
  match into_url (h_uri q) with
  | Ok u => Ok (mkRequest (h_method q) u (h_headers q) None (Some (h_body q)) no_ext None None compression builder_default)
  | Err e => Err e
  end.

(** [uri_ok]: the http crate's own parser accepts the URL. *)
Definition into_http (uri_ok : bytes -> bool) (r : Request) : result HttpRequest Error :=
  let v := match q_version r with Some v => v | None => HTTP_11 end in
  if uri_ok (url_as_str (q_url r))
  then Ok (mkHttpRequest (q_method r) (url_as_str (q_url r)) v (q_headers r) (default empty (q_body r)))
  else Err (builder_error "uri").
End ReqBuilder.
End ReqBuilder.
