(* ===== verification/ReqBuilderProps.v ===== *)
(** * Properties of request builders

    Merging headers, the first error of a builder, clones, credentials in the URL,
    and multipart bodies whose headers agree with what is streamed. *)

From S2P Require Import Prelude Buf Http Error Models Dispatcher Io Net Tunnel Proxy ProxyProps Request Pending PendingProps Multipart MultipartProps ReqBuilder.
Import Proxy Network ClientBody Redirect Pending Multipart ReqBuilder.

(** ** Merging header maps *)

Section Replace.
Context `{HL : HttpLaws}.

Definition values_of (k : HeaderName) (l : list (HeaderName * HeaderValue)) : list HeaderValue :=
  (filter (fun kv => kv.1 = k) l).*2.

Lemma values_of_cons k n v l : values_of k ((n, v) :: l) = (if decide (n = k) then [v] else []) ++ values_of k l.
Proof. unfold values_of. rewrite filter_cons. cbn. by destruct (decide (n = k)). Qed.

Lemma values_absent k cur l fl :
  fill_names cur l = Some fl -> k ∉ omap fst l -> cur <> Some k -> values_of k fl = [].
Proof.
  revert cur fl. induction l as [|[[n|] v] l IH]; intros cur fl E Hk Hc; cbn in E.
  - by simplify_eq.
  - destruct (fill_names (Some n) l) as [fl'|] eqn:E'; [|done]. cbn in E. injection E as <-. cbn in Hk.
    rewrite values_of_cons, decide_False by set_solver. apply (IH _ _ E'); set_solver.
  - destruct cur as [n|]; [|done]. destruct (fill_names (Some n) l) as [fl'|] eqn:E'; [|done]. cbn in E. injection E as <-.
    rewrite values_of_cons, decide_False by congruence. by apply (IH _ _ E').
Qed.

Lemma values_present k cur l fl : fill_names cur l = Some fl -> k ∈ omap fst l -> values_of k fl <> [].
Proof.
  revert cur fl. induction l as [|[[n|] v] l IH]; intros cur fl E Hk; cbn in E; [set_solver| |].
  - destruct (fill_names (Some n) l) as [fl'|] eqn:E'; [|done]. cbn in E. injection E as <-. cbn in Hk.
    rewrite values_of_cons. destruct (decide (n = k)); [done|]. apply (IH _ _ E'). set_solver.
  - destruct cur as [n|]; [|done]. destruct (fill_names (Some n) l) as [fl'|] eqn:E'; [|done]. cbn in E. injection E as <-.
    rewrite values_of_cons. destruct (decide (n = k)); [done|]. by apply (IH _ _ E').
Qed.

Lemma replace_loop_values l : forall cur dst fl,
  fill_names cur l = Some fl -> NoDup (omap fst l) -> (forall n, cur = Some n -> n ∉ omap fst l) ->
  exists h, replace_loop cur l dst = Some h /\ forall k, hm_get_all k h =
    if decide (k ∈ omap fst l) then values_of k fl
    else if decide (cur = Some k) then hm_get_all k dst ++ values_of k fl else hm_get_all k dst.
Proof.
  induction l as [|[[n|] v] l IH]; intros cur dst fl E Hn Hc; cbn in E.
  - simplify_eq. eexists. split; [done|]. intros k. cbn. by destruct (decide (cur = Some k)); [rewrite app_nil_r|].
  - destruct (fill_names (Some n) l) as [fl'|] eqn:E'; [|done]. cbn in E. injection E as <-. cbn in Hn.
    apply NoDup_cons in Hn as [Hn Hnd]. destruct (IH (Some n) (hm_insert n v dst) fl' E' Hnd) as (h & Hh & Hv); [by intros ? [= <-]|].
    exists h. split; [done|]. intros k. rewrite Hv, values_of_cons. cbn [omap list_omap fst].
    destruct (decide (n = k)) as [->|Hne].
    + rewrite decide_False by done. rewrite decide_True by done. rewrite decide_True by set_solver. by rewrite get_all_insert_eq.
    + rewrite get_all_insert_ne by done. rewrite (decide_False (P := Some n = Some k)) by congruence. cbn [app].
      destruct (decide (k ∈ omap fst l)); [by rewrite decide_True by set_solver|]. rewrite decide_False by set_solver.
      rewrite (values_absent k (Some n) l fl') by (done || congruence). rewrite app_nil_r. by destruct (decide _).
  - destruct cur as [n|]; [|done]. destruct (fill_names (Some n) l) as [fl'|] eqn:E'; [|done]. cbn in E. injection E as <-. cbn in Hn.
    destruct (IH (Some n) (hm_append n v dst) fl' E' Hn Hc) as (h & Hh & Hv).
    exists h. split; [done|]. intros k. rewrite Hv, values_of_cons. cbn [omap list_omap fst].
    destruct (decide (n = k)) as [->|Hne].
    + rewrite !(decide_False (P := k ∈ omap fst l)) by (by apply Hc). rewrite !(decide_True (P := Some k = Some k)) by done. by rewrite get_all_append_eq, <- app_assoc.
    + rewrite get_all_append_ne by done. cbn [app]. by rewrite !(decide_False (P := Some n = Some k)) by congruence.
Qed.

(** Merging headers never panics; a name of the added map has exactly its values,
    any other name keeps its own. *)
Theorem replace_headers_values dst src :
  exists h, replace_headers dst src = Some h /\
    forall k, hm_get_all k h = if contains_key k src then hm_get_all k src else hm_get_all k dst.
Proof.
  unfold replace_headers. pose proof (into_iter_iter src) as Hi.
  destruct (replace_loop_values (hm_into_iter src) None dst (hm_iter src) Hi (into_iter_names src)) as (h & Hh & Hv); [done|].
  exists h. split; [done|]. intros k. rewrite Hv, (decide_False (P := None = Some k)) by done.
  assert (hm_get_all k src = values_of k (hm_iter src)) as Hs by apply iter_get_all.
  unfold contains_key. destruct (decide (k ∈ omap fst (hm_into_iter src))) as [Hk|Hk].
  - pose proof (values_present k _ _ _ Hi Hk). rewrite Hs. by destruct (values_of k (hm_iter src)).
  - by rewrite Hs, (values_absent k _ _ _ Hi Hk).
Qed.
End Replace.

(** ** The builder *)

Section Builder.
Context `{HL : HttpLaws} {HX : HttpExtend} {PCr : ProxyCrates} {Url : Type} {UC : UrlCrate Url} {UQ : UrlQuery Url} {DUrl : Dst Url}.
Context {S : Type} {sb : Dispatcher.Body S bytes HeaderMap} {PErr Uri Ext : Type} {EC : RequestConfig.ExtensionsCrate Ext} {DU : Dst Uri}.
Context (hv_from_str : bytes -> option HeaderValue) (no_ext : Ext) (compression : bool).
Context {PC : PercentCrate} {X : Type} (stream_items : S -> list (result bytes X)) (stream_body : list (result bytes X) -> S).
Abbreviation RequestT := (ReqBuilder.Request (S := S) (Url := Url) (Ext := Ext) (PErr := PErr)).
Abbreviation BuilderT := (RequestBuilder (S := S) (Url := Url) (Ext := Ext) (PErr := PErr)).
Abbreviation multipart := (multipart hv_from_str stream_items stream_body).

(** A clone is the request itself, with its timeouts, extensions and route, and
    exists exactly if the body is no stream. *)
Theorem try_clone_exact (r : RequestT) :
  (compression = false -> q_allow_compression r = false) ->
  try_clone no_ext compression r = match q_body r with Some (Streaming _) => None | _ => Some r end.
Proof. intros Hc. unfold try_clone. destruct r as [m u h o [[x|s]|] e v p a n]; cbn in *; try done; destruct compression eqn:E; cbn; first [done|by rewrite (Hc eq_refl)]. Qed.

(** One call of a builder method. *)
Inductive build_step : BuilderT -> BuilderT -> Prop :=
| step_header k v s o i b : build_step b (header_operation k v s o i b)
| step_bearer t b : build_step b (bearer_auth hv_from_str t b)
| step_headers hs b b' : headers hs b = Some b' -> build_step b b'
| step_order o b : build_step b (headers_order o b)
| step_body x b : build_step b (body x b)
| step_timeout t b : build_step b (timeout t b)
| step_read_timeout t b : build_step b (read_timeout t b)
| step_version v b : build_step b (version v b)
| step_redirect p b : build_step b (redirect p b)
| step_compression x b : build_step b (allow_compression x b)
| step_address a b : build_step b (local_address a b)
| step_addresses v4 v6 b : build_step b (local_addresses v4 v6 b)
| step_interface i b : build_step b (interface i b)
| step_query f b : build_step b (query f b)
| step_proxy p b b' : proxy p b = Some b' -> build_step b b'
| step_serialized t x b : build_step b (serialized t x b)
| step_multipart f b : build_step b (multipart f b).

Lemma on_request_err (f : RequestT -> result RequestT (ReqError (Url := Url) (PErr := PErr))) b e :
  b_request b = Err e -> on_request f b = b.
Proof. destruct b as [c r]. cbn. intros ->. done. Qed.

Lemma multipart_err f (b : BuilderT) e : b_request b = Err e -> multipart f b = b.
Proof.
  intros Hb. unfold ReqBuilder.multipart, header_operation. rewrite (on_request_err _ b e Hb).
  destruct (compute_length f) as [[n|] f']; [unfold header, header_operation; rewrite (on_request_err _ b e Hb)|]; by apply (on_request_err _ b e).
Qed.

Lemma build_step_err (b b' : BuilderT) e : build_step b b' -> b_request b = Err e -> b' = b.
Proof.
  intros Hs Hb. destruct Hs as [| |hs b b' E| | | | | | | | | | | |p b b' E| |]; try (by apply (on_request_err _ _ e)).
  - unfold headers in E. rewrite Hb in E. by injection E.
  - unfold proxy in E. rewrite Hb in E. by injection E.
  - by apply (multipart_err _ _ e).
Qed.

(** The first error of a builder is the one that is reported: whatever is
    called after it, the builder stays as it is, and sending gives this error
    without touching the world. *)
Theorem first_error_reported (b b' : BuilderT) e
  (uri_parse : bytes -> option Uri) uri_root uri_is_http
  {W Fut : Type} {HW : World (S := S) (Url := Url) (Uri := Uri) (Ext := Ext) W Fut} (w : W) :
  b_request b = Err e -> rtc build_step b b' ->
  b' = b /\ send no_ext uri_parse uri_root uri_is_http b' w = Some (new_err e, w) /\
  builder_try_clone no_ext compression b' = None.
Proof.
  intros Hb Hr. assert (b' = b) as ->.
  { induction Hr as [|b b1 b' Hs _ IH]; [done|]. pose proof (build_step_err _ _ e Hs Hb) as ->. by apply IH. }
  split; [done|]. unfold send, builder_try_clone. by rewrite Hb.
Qed.

(** ** Credentials in the URL *)

Class UrlCredLaws := {
  set_username_username n u : url_username (url_set_username n u) = n;
  set_password_username p u : url_username (url_set_password p u) = url_username u;
  set_password_password p u : url_password (url_set_password p u) = p
}.

(** A request to a URL with credentials: they leave the URL and become the one
    Authorization value, decoded; a URL without credentials, or with a user name that
    is no UTF-8, is left alone.  (A password that is no UTF-8 is dropped.) *)
Theorem url_credentials {UL : UrlCredLaws} c (r : RequestT) :
  exists r', b_request (builder_new c (Ok r)) = Ok r' /\
  match (if url_has_authority (q_url r) then percent_decode_utf8 (url_username (q_url r)) else None) with
  | Some username =>
      let password := pass ← url_password (q_url r); percent_decode_utf8 pass in
      if decide (username = [] /\ password = None) then r' = r
      else url_username (q_url r') = [] /\ url_password (q_url r') = None /\
           (forall k, hm_get_all k (q_headers r') =
              if decide (k = AUTHORIZATION) then [Proxy.basic_auth username password] else hm_get_all k (q_headers r)) /\
           r' = set_headers (q_headers r') (set_url (q_url r') r)
  | None => r' = r
  end.
Proof.
  unfold builder_new, extract_authority. destruct (url_has_authority (q_url r)); [|by exists r; split; [destruct r|]].
  destruct (percent_decode_utf8 (url_username (q_url r))) as [username|]; [|by exists r; split; [destruct r|]].
  cbv zeta. set (password := (pass ← url_password (q_url r); percent_decode_utf8 pass)).
  destruct (decide (username = [] /\ password = None)) as [[-> Hp]|Hn].
  - rewrite Hp, bool_decide_true, bool_decide_false by (done || by intros []). exists r. split; [by destruct r|done].
  - replace (negb _ || _) with true.
    2:{ symmetry. apply orb_true_iff. rewrite negb_true_iff, bool_decide_eq_false, bool_decide_eq_true.
        destruct password; [by right|]. left. intros ->. by apply Hn. }
    eexists. split; [reflexivity|]. cbn [set_headers set_url q_url q_headers].
    rewrite set_password_username, set_username_username, set_password_password. do 2 (split; [done|]). split; [|done].
    intros k. destruct (decide (k = AUTHORIZATION)) as [->|]; [apply get_all_insert_eq|by apply get_all_insert_ne].
Qed.

(** ** Multipart bodies *)

Lemma or_insert_values k v h k' :
  hm_get_all k' (or_insert k v h) =
  if decide (k' = k) then match hm_get_all k h with [] => [v] | vs => vs end else hm_get_all k' h.
Proof.
  unfold or_insert, contains_key. destruct (decide (k' = k)) as [->|Hn]; destruct (hm_get_all k h) eqn:E; try done.
  - apply get_all_insert_eq.
  - by apply get_all_insert_ne.
Qed.

Lemma compute_length_form (f : Form (S := S)) :
  form_into_stream stream_items (compute_length f).2 = form_into_stream stream_items f /\ fields (compute_length f).2 = fields f.
Proof. unfold compute_length. by destruct (add_lengths f (fields f) 0 (computed_headers f)) as [[n|] hs]. Qed.

(** The headers of a multipart request agree with its body: if the parts yield
    as much as is said of them, the Content-Length is the length of what the body
    streams, which begins with the boundary that the Content-Type announces, unless
    the user had set another Content-Type. *)
Theorem multipart_agrees (f : Form (S := S)) vs (b : BuilderT) r v :
  b_request b = Ok r -> fields f <> [] ->
  Forall2 (fun np v => yields stream_items np.2 v /\ value_len np.2 = Some (len v)) (fields f) vs ->
  hv_from_str (bs "multipart/form-data; boundary=" ++ boundary f) = Some v ->
  exists r' content, b_request (multipart f b) = Ok r' /\
    collect (form_into_stream stream_items f) = Some content /\ dashes ++ boundary f `prefix_of` content /\
    q_body r' = Some (Streaming (stream_body (form_into_stream stream_items f))) /\
    (len content <= u64_max -> hm_get_all CONTENT_LENGTH (q_headers r') = [fmt_dec (len content)]) /\
    hm_get_all CONTENT_TYPE (q_headers r') = match hm_get_all CONTENT_TYPE (q_headers r) with [] => [v] | vs => vs end.
Proof.
  intros Hb Hf Hy Hv. destruct (declared_length stream_items f vs Hy) as (content & Hc & Hl).
  assert (dashes ++ boundary f `prefix_of` content) as Hpre.
  { rewrite (form_content stream_items f vs) in Hc by (done || by eapply Forall2_impl; [exact Hy|]; cbn; tauto).
    injection Hc as <-. exists (tail_of f (fields f) vs). by rewrite <- app_assoc. }
  destruct (compute_length_form f) as [Hs Hff].
  unfold ReqBuilder.multipart. rewrite Hv. destruct (compute_length f) as [n f']. cbn [fst snd] in *.
  assert (form_stream stream_items stream_body f' = Streaming (stream_body (form_into_stream stream_items f))) as Hfs
    by (unfold form_stream; rewrite Hff, Hs; by destruct (fields f)).
  unfold header, header_operation, on_request. cbn [b_request b_client]. rewrite Hb.
  assert (n = None -> len content > u64_max) as Hnone by (intros ->; destruct (decide (len content <= u64_max)) as [Hle|]; [by specialize (Hl Hle)|lia]).
  destruct n as [n|]; cbn [b_request]; eexists _, content; (split; [reflexivity|]); split_and!; try done;
    cbn [set_body set_headers q_headers q_body]; try by rewrite Hfs.
  - intros Hle. rewrite get_all_insert_eq. specialize (Hl Hle). injection Hl as ->. rewrite from_u64_decimal; [done|].
    split; [apply len_nonneg|done].
  - rewrite get_all_insert_ne by done. rewrite or_insert_values. by rewrite decide_True.
  - specialize (Hnone eq_refl). lia.
  - rewrite or_insert_values. by rewrite decide_True.
Qed.
End Builder.

(** ** The properties at concrete inputs *)

Module RefBuilder.
Import RefHttp RefUrl RefClient RefForm.

Abbreviation EXT := (option (option Z)).
#[export] Instance ref_query : UrlQuery url := {|
  url_has_authority := fun _ => true; url_query := fun _ => None; url_set_query := fun _ u => u; percent_decode_utf8 := Some
|}.
#[export] Program Instance ref_cred : UrlCredLaws (Url := url).
Solve All Obligations with done.

Definition start : RequestBuilder (S := list bytes) (Url := url) (Ext := EXT) (PErr := unit) :=
  client_request None true (RefClient.client [] false) (bs "POST") (bs "http://me:pw@a.b/").
Abbreviation RQ := (ReqBuilder.Request (S := list bytes) (Url := url) (Ext := EXT) (PErr := unit)).
Definition request_of : RQ := match b_request start with Ok r => r | Err _ => request_new None true GET (parse_or "http://a.b/") end.

Lemma try_clone_exact_witness : try_clone None true request_of = Some request_of.
Proof. rewrite (try_clone_exact None true request_of); [reflexivity|discriminate]. Defined.

(** A world in which nothing happens. *)
#[export] Instance ref_still : World (S := list bytes) (Url := url) (Uri := url) (Ext := EXT) unit unit := {|
  hy_request := fun _ w => (tt, w); hy_poll := fun _ w => (RPending, tt, w);
  set_cookies := fun _ _ w => w; cookies := fun _ _ => None; now := fun _ => 0
|}.

Definition chunks_of (l : list (result bytes unit)) : list bytes := omap (fun r => match r with Ok b => Some b | Err _ => None end) l.

Definition broken := header None (Some (bs "x")) start.

Lemma first_error_reported_witness :
  exists e, b_request broken = Err e /\
    send None RefClient.to_uri RefClient.start_url RefClient.plain (json (Some (bs "1")) (timeout 5 broken)) tt = Some (new_err e, tt).
Proof.
  eexists. split; [reflexivity|].
  assert (rtc (build_step Some items chunks_of) broken (json (Some (bs "1")) (timeout 5 broken))) as Hr.
  { apply (rtc_l _ _ (timeout 5 broken)); [apply step_timeout|].
    apply (rtc_l _ _ (json (Some (bs "1")) (timeout 5 broken))); [apply step_serialized|]. apply rtc_refl. }
  destruct (first_error_reported Some None true items chunks_of broken _ _ RefClient.to_uri RefClient.start_url RefClient.plain tt eq_refl Hr)
    as (_ & Hs & _).
  exact Hs.
Defined.

Lemma url_credentials_witness :
  exists r', b_request (builder_new (RefClient.client [] false) (Ok (request_new None true GET (parse_or "http://me:pw@a.b/") : RQ))) = Ok r' /\
    url_username (q_url r') = [] /\ hm_get_all AUTHORIZATION (q_headers r') = [Proxy.basic_auth (bs "me") (Some (bs "pw"))].
Proof.
  destruct (url_credentials (RefClient.client [] false) (request_new None true GET (parse_or "http://me:pw@a.b/") : RQ)) as (r' & E & Hm).
  exists r'. split; [exact E|]. cbn -[AUTHORIZATION Proxy.basic_auth] in Hm. destruct Hm as (Hu & _ & Hk & _). split; [exact Hu|].
  rewrite Hk. by rewrite decide_True.
Defined.

Lemma multipart_agrees_witness :
  exists r' content, b_request (multipart Some items chunks_of sample start) = Ok r' /\
    collect (form_into_stream items sample) = Some content /\
    hm_get_all CONTENT_LENGTH (q_headers r') = [fmt_dec (len content)].
Proof.
  destruct (multipart_agrees Some items chunks_of sample [bs "v"; bs "abcd"] start request_of
    (bs "multipart/form-data; boundary=" ++ boundary sample)) as (r' & content & E & Hc & _ & _ & Hl & _).
  - reflexivity.
  - done.
  - by repeat constructor.
  - reflexivity.
  - exists r', content. split; [exact E|]. split; [exact Hc|]. apply Hl.
    assert (match collect (form_into_stream items sample) with Some b => len b <=? u64_max | None => false end = true) as Hm
      by (vm_compute; reflexivity).
    rewrite Hc in Hm. by apply Z.leb_le.
Defined.
End RefBuilder.
