(* ===== verification/Connector.v ===== *)
(** * The connector of the client (src/src/connect.rs, src/src/tls/conn/boring.rs)

    From a destination to a connection: direct or through an HTTP, HTTPS or SOCKS
    proxy, with TLS for https; and what the connection says about itself
    (src/src/core/client/connect/mod.rs).  A stream is the layers it is made of.
    BoringSSL, tokio-socks, the TCP connector, the tunnel's handshake and timers
    are an interface, awaited; so a poll never stays pending here. *)

From S2P Require Import Prelude Buf Http Io Net Tunnel Proxy CoreClient HttpConnect.
Import IpParse Tunnel Proxy Network.

(** ** [Display] of addresses (std) *)

Module IpFmt.
Fixpoint segments (o : bytes) : list Z :=
  match o with a :: b :: o => (a * 256 + b) :: segments o | _ => [] end.

Definition hex_digit (d : Z) : byte := if d <? 10 then 48 + d else 87 + d.
(** [{:x}] of a 16-bit number *)
Definition fmt_seg (n : Z) : bytes :=
  let ds := [n / 4096; n / 256 mod 16; n / 16 mod 16; n mod 16] in
  hex_digit <$> match ds with
                | [0; 0; 0; d] => [d]
                | [0; 0; c; d] => [c; d]
                | [0; b; c; d] => [b; c; d]
                | ds => ds
                end.

Fixpoint join (sep : byte) (l : list bytes) : bytes :=
  match l with [] => [] | [x] => x | x :: l => x ++ [sep] ++ join sep l end.

(** The first longest run of zeros: its start and its length. *)
Fixpoint longest (i : nat) (l : list Z) (cur_start cur_len best_start best_len : nat) : nat * nat :=
  match l with
  | [] => (best_start, best_len)
  | x :: l =>
      if x =? 0 then
        let cs := if (cur_len =? 0)%nat then i else cur_start in
        let cl := S cur_len in
        if (best_len <? cl)%nat then longest (S i) l cs cl cs cl else longest (S i) l cs cl best_start best_len
      else longest (S i) l 0 0 best_start best_len
  end.

Definition fmt_v4 (o : bytes) : bytes := join DOT (fmt_dec <$> o).
Definition fmt_v6 (o : bytes) : bytes :=
  if bool_decide (take 12 o = replicate 10 0 ++ [255; 255]) then bs "::ffff:" ++ fmt_v4 (drop 12 o)
  else
    let segs := segments o in
    let '(start, n) := longest 0 segs 0 0 0 0 in
    if (1 <? n)%nat
    then join COLON (fmt_seg <$> take start segs) ++ bs "::" ++ join COLON (fmt_seg <$> drop (start + n) segs)
    else join COLON (fmt_seg <$> segs).
Definition fmt_ip (ip : IpAddr) : bytes := match ip with V4 o => fmt_v4 o | V6 o => fmt_v6 o end.
End IpFmt.

Example fmt_ip_examples :
  (fun s => option_map IpFmt.fmt_ip (IpParse.parse_ip (bs s))) <$>
    ["127.0.0.1"; "::1"; "::"; "fe80::1:0:0:2"; "1:2:3:4:5:6:7:8"; "::ffff:1.2.3.4"; "2001:db8:0:1:0:0:0:1"]%string =
  (fun s => Some (bs s)) <$> ["127.0.0.1"; "::1"; "::"; "fe80::1:0:0:2"; "1:2:3:4:5:6:7:8"; "::ffff:1.2.3.4"; "2001:db8:0:1::1"]%string.
Proof. vm_compute. reflexivity. Qed.

(** ** What a connection says about itself (connect/mod.rs) *)

Module Connector.

Inductive Alpn := AlpnH2 | AlpnNone.
Record HttpInfo := mkHttpInfo { remote_addr : SocketAddr; local_addr : SocketAddr }.
Inductive Extra := XHttp (i : HttpInfo) | XTls (peer_certificate : bytes).

(** The extras in the order in which they are set; the poison pill is a shared flag
    that the pool looks at, and is not part of the model. *)
Record Connected := mkConnected { alpn : Alpn; is_proxied : bool; extras : list Extra }.
Definition connected_new : Connected := mkConnected AlpnNone false [].
Definition with_proxy (b : bool) (c : Connected) : Connected := mkConnected (alpn c) b (extras c).
Definition with_extra (x : Extra) (c : Connected) : Connected := mkConnected (alpn c) (is_proxied c) (extras c ++ [x]).
Definition negotiated_h2 (c : Connected) : Connected := mkConnected AlpnH2 (is_proxied c) (extras c).
Definition is_negotiated_h2 (c : Connected) : bool := match alpn c with AlpnH2 => true | AlpnNone => false end.

(** ** Streams *)

Section Streams.
Context {Tcp Ssl : Type}.

(** A TCP stream under any number of TLS sessions, the innermost first negotiated. *)
Inductive Wire := WTcp (t : Tcp) | WTls (s : Ssl) (inner : Wire).

(** [MaybeHttpsStream] *)
Inductive MaybeHttpsStream := MHttp (t : Tcp) | MHttps (s : Ssl) (t : Tcp).
Definition maybe_wire (m : MaybeHttpsStream) : Wire := match m with MHttp t => WTcp t | MHttps s t => WTls s (WTcp t) end.

(** What is boxed in a [Conn]: [BoringTlsConn] over TCP (direct, or through SOCKS)
    or over a tunnel, a stream of the HTTPS connector, or TCP through SOCKS. *)
Inductive BoxConn :=
| BTls (s : Ssl) (t : Tcp)
| BTunnel (s : Ssl) (inner : MaybeHttpsStream)
| BMaybe (m : MaybeHttpsStream)
| BTcp (t : Tcp).
Definition conn_wire (b : BoxConn) : Wire :=
  match b with BTls s t => WTls s (WTcp t) | BTunnel s m => WTls s (maybe_wire m) | BMaybe m => maybe_wire m | BTcp t => WTcp t end.

Record Conn := mkConn { inner : BoxConn; is_proxy : bool; tls_info : bool }.

Context (selected_alpn_protocol : Ssl -> option bytes) (peer_certificate : Ssl -> option bytes) (tcp_info : Tcp -> option HttpInfo).

Definition tcp_connected (t : Tcp) : Connected :=
  match tcp_info t with Some i => with_extra (XHttp i) connected_new | None => connected_new end.
Definition ssl_connected (s : Ssl) (below : Connected) : Connected :=
  if bool_decide (selected_alpn_protocol s = Some (bs "h2")) then negotiated_h2 below else below.
Definition maybe_connected (m : MaybeHttpsStream) : Connected :=
  match m with MHttp t => tcp_connected t | MHttps s t => ssl_connected s (tcp_connected t) end.
Definition box_connected (b : BoxConn) : Connected :=
  match b with
  | BTls s t => ssl_connected s (tcp_connected t)
  | BTunnel s m => ssl_connected s (maybe_connected m)
  | BMaybe m => maybe_connected m
  | BTcp t => tcp_connected t
  end.

(** [TlsInfoFactory] *)
Definition maybe_tls_info (m : MaybeHttpsStream) : option bytes :=
  match m with MHttps s _ => peer_certificate s | MHttp _ => None end.
Definition box_tls_info (b : BoxConn) : option bytes :=
  match b with
  | BTls s _ => peer_certificate s
  | BTunnel _ m => maybe_tls_info m
  | BMaybe m => maybe_tls_info m
  | BTcp _ => None
  end.

Definition connected (c : Conn) : Connected :=
  let r := with_proxy (is_proxy c) (box_connected (inner c)) in
  if tls_info c then match box_tls_info (inner c) with Some i => with_extra (XTls i) r | None => r end else r.
End Streams.
Arguments Wire _ _ : clear implicits.
Arguments MaybeHttpsStream _ _ : clear implicits.
Arguments BoxConn _ _ : clear implicits.
Arguments Conn _ _ : clear implicits.

(** ** The interface *)

Section Service.
Context `{HttpExtend} `{ProxyCrates} {Uri : Type} {UC : UriCrate Uri}.
Abbreviation Dst := (Core.Dst (Uri := Uri) (NetworkScheme := NetworkScheme)).
Abbreviation TunnelT := (Tunnel (Uri := Uri)).

Class ConnApi (W : Type) := {
  Tcp : Type; Ssl : Type; TlsConnector : Type; Resolver : Type; IoErr : Type;
  http_call : HttpConnector.Config -> Uri -> W -> result Tcp IoErr * W;
  (* [Inner::connect] with the ALPN callback: a handshake for a URI and a host *)
  tls_connect : TlsConnector -> option AlpnProtos -> Uri -> bytes -> Wire Tcp Ssl -> W -> result Ssl IoErr * W;
  (* [Tunnel::call] on the connection to the proxy *)
  tunnel_shake : TunnelT -> Uri -> Wire Tcp Ssl -> W -> result unit IoErr * W;
  socks4_connect : SocketAddr -> bytes -> Z -> W -> result Tcp IoErr * W;
  socks5_connect : SocketAddr -> bytes -> Z -> option (bytes * bytes) -> W -> result Tcp IoErr * W;
  http_resolve : Resolver -> Uri -> W -> result (list SocketAddr) IoErr * W;
  tcp_set_nodelay : Tcp -> bool -> W -> result unit IoErr * W;
  (* what is left of the world if a timer of this length is the first to be over *)
  elapses : Z -> W -> option W;
  gai : Resolver
}.
Context {W : Type} {CA : ConnApi W}.

Inductive BoxError := EIo (e : IoErr) | ETimedOut | EBadUri | EBadHost | ENoHost | ESocks (e : IoErr).
Abbreviation CM := (PM BoxError W).
Abbreviation ConnT := (Conn Tcp Ssl).

Definition lift {A} (m : W -> result A IoErr * W) : CM A := fun w =>
  match m w with (Ok a, w) => (RVal a, w) | (Err e, w) => (RErr (EIo e), w) end.
Definition of_option {A} (e : BoxError) (o : option A) : CM A := match o with Some a => pret a | None => pfail e end.

Definition is_https (u : Uri) : bool := bool_decide (up_scheme (uri_parts u) = Some HTTPS).
Definition uri_host (u : Uri) : option bytes := match up_authority (uri_parts u) with Some a => Some (auth_host a) | None => None end.

(** ** [Dst] (src/src/core/client/dst.rs) *)

Definition dst_set_uri (u : Uri) (d : Dst) : Dst := Core.mkDst u (Core.d_alpn d) (Core.d_network d).
Definition dst_take_addresses (d : Dst) : (option bytes * option bytes) * Dst :=
  let '(a, n) := take_addresses (Core.d_network d) in (a, Core.mkDst (Core.d_uri d) (Core.d_alpn d) n).
Definition dst_take_interface (d : Dst) : option bytes * Dst :=
  let '(i, n) := take_interface (Core.d_network d) in (i, Core.mkDst (Core.d_uri d) (Core.d_alpn d) n).
Definition dst_take_proxy_scheme (d : Dst) : option ProxyScheme * Dst :=
  let '(p, n) := take_proxy_scheme (Core.d_network d) in (p, Core.mkDst (Core.d_uri d) (Core.d_alpn d) n).

(** ** [HttpsConnector] (src/src/tls/conn/boring.rs) *)

Record HttpsConnector := mkHttps { hs_http : HttpConnector.Config; hs_tls : TlsConnector; hs_alpn : option AlpnProtos }.

Definition https_new (http : HttpConnector.Config) (tls : TlsConnector) (d : Dst) : HttpsConnector * Dst :=
  let alpn := Core.d_alpn d in
  let '(addrs, d) := dst_take_addresses d in
  let http := match addrs with
              | (Some a, Some b) => HttpConnector.set_local_addresses a b http
              | (Some a, None) => HttpConnector.set_local_address (Some (V4 a)) http
              | (None, Some b) => HttpConnector.set_local_address (Some (V6 b)) http
              | (None, None) => http
              end in
  let '(i, d) := dst_take_interface d in
  (mkHttps (HttpConnector.set_interface i http) tls alpn, d).

Definition https_connect (h : HttpsConnector) (u : Uri) (host : bytes) (w : Wire Tcp Ssl) : CM Ssl :=
  lift (tls_connect (hs_tls h) (hs_alpn h) u host w).

(** [host[1..last]] when the host is a bracketed IPv6 address. *)
Definition strip_brackets (host : bytes) : bytes :=
  match host, last host with
  | b :: rest, Some e =>
      if (b =? 91) && (e =? 93) then
        let mid := removelast rest in
        match parse_ip mid with Some (V6 _) => mid | _ => host end
      else host
  | _, _ => host
  end.

Open Scope poll_scope.

Definition https_call (h : HttpsConnector) (u : Uri) : CM (MaybeHttpsStream Tcp Ssl) :=
  if negb (is_https u) then t <~ lift (http_call (hs_http h) u) ;; pret (MHttp t)
  else
    t <~ lift (http_call (hs_http h) u) ;;
    host <~ of_option EBadHost (uri_host u) ;;
    s <~ https_connect h u (strip_brackets host) (WTcp t) ;;
    pret (MHttps s t).

(** ** [ConnectorService] *)

Record ConnectorService := mkService {
  s_http : HttpConnector.Config;
  s_tls : TlsConnector;
  s_verbose : bool;
  s_timeout : option Z;
  s_nodelay : bool;
  s_tls_info : bool;
  s_resolver : Resolver
}.

(** [socks::connect]: the TCP stream through the SOCKS proxy. *)
Definition socks_err {A} (m : W -> result A IoErr * W) : CM A := fun w =>
  match m w with (Ok a, w) => (RVal a, w) | (Err e, w) => (RErr (ESocks e), w) end.
Definition socks_connect (s : ConnectorService) (proxy : ProxyScheme) (u : Uri) (local_dns : bool) : CM Tcp :=
  host <~ of_option ENoHost (uri_host u) ;;
  let port := match uri_port u with Some p => p | None => if is_https u then 443 else 80 end in
  host <~ (if local_dns then
             addrs <~ lift (http_resolve (s_resolver s) u) ;;
             pret (match addrs with a :: _ => IpFmt.fmt_ip (sa_ip a) | [] => host end)
           else pret host) ;;
  match proxy with
  | PSocks4 addr _ => socks_err (socks4_connect addr host port)
  | PSocks5 addr auth _ => socks_err (socks5_connect addr host port auth)
  | _ => ppanic
  end.

Definition connect_socks (s : ConnectorService) (d : Dst) (proxy : ProxyScheme) : CM ConnT :=
  local_dns <~ (match proxy with
                | PSocks4 _ remote_dns | PSocks5 _ _ remote_dns => pret (negb remote_dns)
                | _ => ppanic
                end) ;;
  if is_https (Core.d_uri d) then
    let '(http, d) := https_new (s_http s) (s_tls s) d in
    host <~ of_option EBadHost (uri_host (Core.d_uri d)) ;;
    t <~ socks_connect s proxy (Core.d_uri d) local_dns ;;
    ssl <~ https_connect http (Core.d_uri d) host (WTcp t) ;;
    pret (mkConn (BTls ssl t) false (s_tls_info s))
  else
    t <~ socks_connect s proxy (Core.d_uri d) local_dns ;;
    pret (mkConn (BTcp t) false false).

Definition connect_with_maybe_proxy (s : ConnectorService) (d : Dst) (proxied : bool) : CM ConnT :=
  let http := if negb (s_nodelay s) && is_https (Core.d_uri d) then HttpConnector.set_nodelay true (s_http s) else s_http s in
  let '(http, d) := https_new http (s_tls s) d in
  io <~ https_call http (Core.d_uri d) ;;
  match io with
  | MHttps ssl t =>
      (if negb (s_nodelay s) then lift (tcp_set_nodelay t false) else pret tt) ;;
      pret (mkConn (BTls ssl t) proxied (s_tls_info s))
  | MHttp _ => pret (mkConn (BMaybe io) proxied (s_tls_info s))
  end.

Definition into_uri (scheme host : bytes) : option Uri :=
  uri_from_parts (mkUriParts (Some scheme) (Some host) (Some (bs "/"))).

Context (auth_bytes : Authority -> bytes).

(** [connect_via_proxy] for the scheme, host, credentials and headers of an HTTP or
    HTTPS proxy. *)
Definition via_http_proxy (s : ConnectorService) (d : Dst) (scheme : bytes) (host : Authority) (auth : option HeaderValue)
    (headers : option HeaderMap) : CM ConnT :=
  proxy_dst <~ of_option EBadUri (into_uri scheme (auth_bytes host)) ;;
  if is_https (Core.d_uri d) then
    let '(http, d) := https_new (s_http s) (s_tls s) d in
    let tunnel := tunnel_new proxy_dst in
    let tunnel := match auth with Some a => with_auth a tunnel | None => tunnel end in
    let tunnel := match headers with Some hs => with_headers hs tunnel | None => tunnel end in
    to_proxy <~ https_call http proxy_dst ;;
    lift (tunnel_shake tunnel (Core.d_uri d) (maybe_wire to_proxy)) ;;
    host <~ of_option EBadHost (uri_host (Core.d_uri d)) ;;
    ssl <~ https_connect http (Core.d_uri d) host (maybe_wire to_proxy) ;;
    pret (mkConn (BTunnel ssl to_proxy) false (s_tls_info s))
  else connect_with_maybe_proxy s (dst_set_uri proxy_dst d) true.

Definition connect_via_proxy (s : ConnectorService) (d : Dst) (proxy : ProxyScheme) : CM ConnT :=
  match proxy with
  | PHttp auth host headers => via_http_proxy s d HTTP host auth headers
  | PHttps auth host headers => via_http_proxy s d HTTPS host auth headers
  | PSocks4 _ _ | PSocks5 _ _ _ => connect_socks s d proxy
  end.

Definition with_timeout {A} (timeout : option Z) (f : CM A) : CM A := fun w =>
  match timeout with
  | Some t => match elapses t w with Some w => (RErr ETimedOut, w) | None => f w end
  | None => f w
  end.

Definition service_call (s : ConnectorService) (d : Dst) : CM ConnT :=
  let '(p, d) := dst_take_proxy_scheme d in
  match p with
  | Some proxy => with_timeout (s_timeout s) (connect_via_proxy s d proxy)
  | None => with_timeout (s_timeout s) (connect_with_maybe_proxy s d false)
  end.

(** ** [Connector] and its builder *)

(** A layer the user wraps around the connector. *)
Definition ServiceFn := Dst -> CM ConnT.
Definition Layer := ServiceFn -> ServiceFn.

Record ConnectorBuilder := mkConnectorBuilder {
  cb_http : HttpConnector.Config; cb_tls : TlsConnector; cb_verbose : bool; cb_timeout : option Z; cb_nodelay : bool;
  cb_tls_info : bool; cb_resolver : option Resolver
}.

Inductive ConnectorT :=
| Simple (s : ConnectorService)
| WithLayers (layers : list Layer) (base_service : ConnectorService) (service : ServiceFn).

Definition connector_builder (http : HttpConnector.Config) (tls : TlsConnector) (nodelay tls_info : bool) : ConnectorBuilder :=
  mkConnectorBuilder (HttpConnector.enforce_http_ false http) tls false None nodelay tls_info None.
Definition cb_set_keepalive (t : option Z) (b : ConnectorBuilder) : ConnectorBuilder :=
  mkConnectorBuilder (HttpConnector.set_keepalive t (cb_http b)) (cb_tls b) (cb_verbose b) (cb_timeout b) (cb_nodelay b) (cb_tls_info b) (cb_resolver b).
Definition cb_set_keepalive_interval (t : option Z) (b : ConnectorBuilder) : ConnectorBuilder :=
  mkConnectorBuilder (HttpConnector.set_keepalive_interval t (cb_http b)) (cb_tls b) (cb_verbose b) (cb_timeout b) (cb_nodelay b) (cb_tls_info b) (cb_resolver b).
Definition cb_set_keepalive_retries (t : option Z) (b : ConnectorBuilder) : ConnectorBuilder :=
  mkConnectorBuilder (HttpConnector.set_keepalive_retries t (cb_http b)) (cb_tls b) (cb_verbose b) (cb_timeout b) (cb_nodelay b) (cb_tls_info b) (cb_resolver b).
Definition cb_set_timeout (t : option Z) (b : ConnectorBuilder) : ConnectorBuilder :=
  mkConnectorBuilder (cb_http b) (cb_tls b) (cb_verbose b) t (cb_nodelay b) (cb_tls_info b) (cb_resolver b).
Definition cb_set_verbose (v : bool) (b : ConnectorBuilder) : ConnectorBuilder :=
  mkConnectorBuilder (cb_http b) (cb_tls b) v (cb_timeout b) (cb_nodelay b) (cb_tls_info b) (cb_resolver b).
Definition cb_set_socks_resolver (r : option Resolver) (b : ConnectorBuilder) : ConnectorBuilder :=
  mkConnectorBuilder (cb_http b) (cb_tls b) (cb_verbose b) (cb_timeout b) (cb_nodelay b) (cb_tls_info b) r.

Definition connector_build (layers : option (list Layer)) (b : ConnectorBuilder) : ConnectorT :=
  let base_service := mkService (cb_http b) (cb_tls b) (cb_verbose b) (cb_timeout b) (cb_nodelay b) (cb_tls_info b) (default gai (cb_resolver b)) in
  match layers with
  | Some layers =>
      let service := foldl (fun service layer => layer service) (service_call base_service) layers in
      WithLayers layers base_service (fun d => with_timeout (cb_timeout b) (service d))
  | None => Simple base_service
  end.

Definition set_tls_connector (tls : TlsConnector) (c : ConnectorT) : ConnectorT :=
  match c with
  | Simple s => Simple (mkService (s_http s) tls (s_verbose s) (s_timeout s) (s_nodelay s) (s_tls_info s) (s_resolver s))
  | WithLayers layers s _ =>
      connector_build (Some layers)
        (cb_set_socks_resolver (Some (s_resolver s)) (cb_set_verbose (s_verbose s) (cb_set_timeout (s_timeout s)
          (connector_builder (s_http s) tls (s_nodelay s) (s_tls_info s)))))
  end.

Definition connector_call (c : ConnectorT) (d : Dst) : CM ConnT :=
  match c with Simple s => service_call s d | WithLayers _ _ service => service d end.
Close Scope poll_scope.
End Service.
End Connector.
