(* ===== verification/ConnectorProps.v ===== *)
(** * Properties of the connector

    For every destination and proxy, which layers a connection is made of, whom it
    is connected to and how; and what a connection through an HTTPS proxy says about
    itself. *)

From S2P Require Import Prelude Buf Http Models Io Net Tunnel Proxy ProxyProps PendingProps CoreClient CoreClientProps HttpConnect Connector.
Import IpParse Tunnel Proxy Network Connector.

(** ** The history of the world

    What was asked of the network, with the result if it succeeded. *)
Inductive Event {HC : HttpCrate} (Uri Tcp Ssl TlsC Res : Type) :=
| EDial (cfg : HttpConnector.Config) (u : Uri) (r : option Tcp)
| ETls (c : TlsC) (alpn : option AlpnProtos) (u : Uri) (host : bytes) (over : Wire Tcp Ssl) (r : option Ssl)
| ETunnel (t : Tunnel (Uri := Uri)) (u : Uri) (over : Wire Tcp Ssl) (r : option unit)
| ESocks4 (proxy : SocketAddr) (host : bytes) (port : Z) (r : option Tcp)
| ESocks5 (proxy : SocketAddr) (host : bytes) (port : Z) (auth : option (bytes * bytes)) (r : option Tcp)
| EResolve (r : Res) (u : Uri) (found : option (list SocketAddr))
| ENodelay (t : Tcp) (on : bool) (r : option unit).
Arguments EDial {_ _ _ _ _ _} _ _ _.
Arguments ETls {_ _ _ _ _ _} _ _ _ _ _ _.
Arguments ETunnel {_ _ _ _ _ _} _ _ _ _.
Arguments ESocks4 {_ _ _ _ _ _} _ _ _ _.
Arguments ESocks5 {_ _ _ _ _ _} _ _ _ _ _.
Arguments EResolve {_ _ _ _ _ _} _ _ _.
Arguments ENodelay {_ _ _ _ _ _} _ _ _.

Section ConnectorProps.
Context `{HX : HttpExtend} {PCr : ProxyCrates} {Uri : Type} {UC : UriCrate Uri} {UL : UriLaws Uri}.
Context {W : Type} {CA : ConnApi (Uri := Uri) W} (auth_bytes : Authority -> bytes).
Abbreviation DstT := (Core.Dst (Uri := Uri) (NetworkScheme := NetworkScheme)).
Abbreviation ConnT := (Conn Tcp Ssl).
Abbreviation service_call := (service_call auth_bytes).
Abbreviation connect_via_proxy := (connect_via_proxy auth_bytes).

Abbreviation Event := (Event Uri Tcp Ssl TlsConnector Resolver).

Definition failed (e : Event) : Prop :=
  match e with
  | EDial _ _ r | ESocks4 _ _ _ r | ESocks5 _ _ _ _ r => r = None
  | ETls _ _ _ _ _ r => r = None
  | ETunnel _ _ _ r | ENodelay _ _ r => r = None
  | EResolve _ _ r => r = None
  end.

Definition to_option {A} (r : result A IoErr) : option A := match r with Ok a => Some a | Err _ => None end.

(** The network does what it is asked, once, and remembers it. *)
Definition logged (history : W -> list Event) {A} (op : W -> result A IoErr * W) (ev : option A -> Event) : Prop :=
  forall w, history (op w).2 = history w ++ [ev (to_option (op w).1)].

Class ConnLaws := {
  history : W -> list Event;
  http_call_log cfg u : logged history (http_call cfg u) (EDial cfg u);
  tls_connect_log c al u h over : logged history (tls_connect c al u h over) (ETls c al u h over);
  tunnel_shake_log t u over : logged history (tunnel_shake t u over) (ETunnel t u over);
  socks4_connect_log a h p : logged history (socks4_connect a h p) (ESocks4 a h p);
  socks5_connect_log a h p auth : logged history (socks5_connect a h p auth) (ESocks5 a h p auth);
  http_resolve_log r u : logged history (http_resolve r u) (EResolve r u);
  tcp_set_nodelay_log t b : logged history (tcp_set_nodelay t b) (ENodelay t b)
}.
Context {CL : ConnLaws}.

(** ** Running the monad

    [runs F G m Q]: from every world [m] returns.  What it asks of the network is in
    [G].  If it returns a value, all of it succeeded and [Q] holds; if an error, the
    last thing failed, or all succeeded and [F] holds of the error. *)
Definition went (G : Event -> Prop) : list Event -> Prop := Forall (fun ev => G ev /\ ~ failed ev).
Definition stopped (F : BoxError -> Prop) (G : Event -> Prop) (e : BoxError) (trace : list Event) : Prop :=
  match e with
  | EIo _ | ESocks _ => exists tr ev, trace = tr ++ [ev] /\ went G tr /\ G ev /\ failed ev
  | _ => went G trace /\ F e
  end.
Definition runs (F : BoxError -> Prop) (G : Event -> Prop) {A} (m : PM BoxError W A) (Q : A -> list Event -> Prop) : Prop :=
  forall w,
    match m w with
    | (RVal a, w') => exists tr, history w' = history w ++ tr /\ went G tr /\ Q a tr
    | (RErr e, w') => exists tr, history w' = history w ++ tr /\ stopped F G e tr
    | _ => False
    end.

Section Runs.
Context {F : BoxError -> Prop} {G : Event -> Prop}.

Lemma stopped_after e tr tr' : went G tr -> stopped F G e tr' -> stopped F G e (tr ++ tr').
Proof.
  intros Hw. unfold stopped. destruct e; try (intros [Hw' Hf]; split; [by apply Forall_app|done]).
  all: intros (tr0 & ev & -> & Hw' & Hg & Hf); exists (tr ++ tr0), ev; split_and!; [by rewrite app_assoc|by apply Forall_app|done..].
Qed.
Lemma runs_ret {A} (a : A) (Q : A -> list Event -> Prop) : Q a [] -> runs F G (pret a) Q.
Proof. intros Hq w. exists []. rewrite app_nil_r. split_and!; [done|constructor|done]. Qed.
Lemma runs_bind {A B} (m : PM BoxError W A) (k : A -> PM BoxError W B) Q Q' :
  runs F G m Q' -> (forall a tr, Q' a tr -> runs F G (k a) (fun b tr' => Q b (tr ++ tr'))) -> runs F G (pbind m k) Q.
Proof.
  intros Hm Hk w. specialize (Hm w). unfold pbind. destruct (m w) as [[a| |e| |] w1]; try done.
  destruct Hm as (tr & E & Hw & HQ). specialize (Hk a tr HQ w1). destruct (k a w1) as [[b| |e| |] w2]; try done.
  - destruct Hk as (tr' & E' & Hw' & HQ'). exists (tr ++ tr'). rewrite E', E, app_assoc. split_and!; [done|by apply Forall_app|done].
  - destruct Hk as (tr' & E' & Hs). exists (tr ++ tr'). rewrite E', E, app_assoc. split; [done|by apply stopped_after].
Qed.
Lemma runs_option {A} e (o : option A) (Q : A -> list Event -> Prop) :
  (forall a, o = Some a -> Q a []) -> (o = None -> match e with EIo _ | ESocks _ => False | _ => F e end) -> runs F G (of_option e o) Q.
Proof.
  intros HQ Hn. destruct o as [a|]; [by apply runs_ret, HQ|]. intros w. cbn. exists []. rewrite app_nil_r. split; [done|].
  by destruct e; try destruct (Hn eq_refl); (split; [constructor|apply Hn]).
Qed.
(** One thing that is asked of the network. *)
Definition asking {A} (ev : option A -> Event) : Prop := forall o, G (ev o) /\ (failed (ev o) <-> o = None).
Lemma asked_went {A} (ev : option A -> Event) a : asking ev -> went G [ev (Some a)].
Proof. intros Hg. destruct (Hg (Some a)). repeat constructor; naive_solver. Qed.
Lemma asked_stopped {A} (ev : option A -> Event) : asking ev -> exists tr x, [ev None] = tr ++ [x] /\ went G tr /\ G x /\ failed x.
Proof. intros Hg. destruct (Hg None) as [? Hf]. exists [], (ev None). split_and!; [done|constructor|done|by apply Hf]. Qed.
Lemma runs_lift {A} (op : W -> result A IoErr * W) (ev : option A -> Event) :
  logged history op ev -> asking ev -> runs F G (lift op) (fun a tr => tr = [ev (Some a)]).
Proof.
  intros L HG w. specialize (L w). unfold lift. destruct (op w) as [[a|e] w']; cbn in L.
  - exists [ev (Some a)]. split_and!; [done|by apply asked_went|done].
  - exists [ev None]. split; [done|]. by apply asked_stopped.
Qed.
Lemma runs_socks {A} (op : W -> result A IoErr * W) (ev : option A -> Event) :
  logged history op ev -> asking ev -> runs F G (socks_err op) (fun a tr => tr = [ev (Some a)]).
Proof.
  intros L HG w. specialize (L w). unfold socks_err. destruct (op w) as [[a|e] w']; cbn in L.
  - exists [ev (Some a)]. split_and!; [done|by apply asked_went|done].
  - exists [ev None]. split; [done|]. by apply asked_stopped.
Qed.
Lemma runs_weaken (F' : BoxError -> Prop) (G' : Event -> Prop) {A} (m : PM BoxError W A) (Q Q' : A -> list Event -> Prop) :
  runs F G m Q -> (forall a tr, Q a tr -> Q' a tr) -> (forall e, F e -> F' e) -> (forall ev, G ev -> G' ev) -> runs F' G' m Q'.
Proof.
  intros Hm HQ HF HG w. specialize (Hm w). assert (forall tr, went G tr -> went G' tr) as Hw by (intros tr Ht; eapply Forall_impl; [exact Ht|]; naive_solver).
  destruct (m w) as [[a| |e| |] w1]; try done; [naive_solver|]. destruct Hm as (tr & E & Hs). exists tr. split; [done|].
  unfold stopped in *. destruct e; naive_solver.
Qed.
End Runs.

(** ** The ways to a host *)

(** The settings of the TCP connector for a destination: those of the service, with
    the interface of the destination, and its local addresses if it has any. *)
Definition bound (n : NetworkScheme) (base : HttpConnector.Config) : HttpConnector.Config :=
  let '(v4, v6) :=
    match (take_addresses n).1 with
    | (None, None) => (HttpConnector.local_address_ipv4 base, HttpConnector.local_address_ipv6 base)
    | p => p
    end in
  HttpConnector.mkConfig (HttpConnector.connect_timeout base) (HttpConnector.enforce_http base) (HttpConnector.happy_eyeballs_timeout base)
    (HttpConnector.tcp_keepalive_config base) v4 v6 (HttpConnector.nodelay base) (HttpConnector.reuse_address base)
    (HttpConnector.send_buffer_size base) (HttpConnector.recv_buffer_size base) (take_interface n).1 (HttpConnector.tcp_user_timeout base).

Lemma https_new_spec http tls (d : DstT) :
  let '(h, d') := https_new http tls d in
  h = mkHttps (bound (Core.d_network d) http) tls (Core.d_alpn d) /\ Core.d_uri d' = Core.d_uri d.
Proof. destruct d as [u al n]. destruct n as [i [[a|] [b|]] p|]; by destruct http. Qed.

(** A TCP stream to a host, with a TLS session for its name if the scheme is https. *)
Inductive reached (h : HttpsConnector) (u : Uri) : MaybeHttpsStream Tcp Ssl -> list Event -> Prop :=
| reached_plain t : is_https u = false -> reached h u (MHttp t) [EDial (hs_http h) u (Some t)]
| reached_tls t host ssl :
    is_https u = true -> uri_host u = Some host ->
    reached h u (MHttps ssl t)
      [EDial (hs_http h) u (Some t); ETls (hs_tls h) (hs_alpn h) u (strip_brackets host) (WTcp t) (Some ssl)].

(** A connection to the URI [v], of the destination or of a proxy. *)
Definition straight (s : ConnectorService) (d : DstT) (v : Uri) (proxied : bool) (c : ConnT) (trace : list Event) : Prop :=
  let base := if negb (s_nodelay s) && is_https v then HttpConnector.set_nodelay true (s_http s) else s_http s in
  exists m tr, reached (mkHttps (bound (Core.d_network d) base) (s_tls s) (Core.d_alpn d)) v m tr /\
    match m with
    | MHttp t => c = mkConn (BMaybe m) proxied (s_tls_info s) /\ trace = tr
    | MHttps ssl t =>
        c = mkConn (BTls ssl t) proxied (s_tls_info s) /\
        trace = tr ++ (if s_nodelay s then [] else [ENodelay t false (Some tt)])
    end.

(** A tunnel: a connection to the proxy, an accepted CONNECT with the credentials and
    headers of the proxy, and over it a TLS session for the destination. *)
Definition tunnelled (s : ConnectorService) (d : DstT) (proxy_uri : Uri) (hs : THeaders) (c : ConnT) (trace : list Event) : Prop :=
  let h := mkHttps (bound (Core.d_network d) (s_http s)) (s_tls s) (Core.d_alpn d) in
  let u := Core.d_uri d in
  exists m tr host ssl, reached h proxy_uri m tr /\ uri_host u = Some host /\
    c = mkConn (BTunnel ssl m) false (s_tls_info s) /\
    trace = tr ++ [ETunnel (mkTunnel hs proxy_uri) u (maybe_wire m) (Some tt);
                   ETls (s_tls s) (Core.d_alpn d) u host (maybe_wire m) (Some ssl)].

(** The headers of the CONNECT request. *)
Definition connect_headers (auth : option HeaderValue) (headers : option HeaderMap) : THeaders :=
  match auth, headers with
  | None, None => Tunnel.Empty
  | Some a, None => Tunnel.Auth a
  | None, Some hs => Tunnel.Extra hs
  | Some a, Some hs => Tunnel.Extra (if contains_key PROXY_AUTHORIZATION hs then hs else hm_insert PROXY_AUTHORIZATION a hs)
  end.

(** Through SOCKS: the proxy is given the name, or with local resolution the first
    address that was found for it, if any was; TLS is for the name. *)
Definition by_socks (s : ConnectorService) (d : DstT) (remote_dns : bool) (dial : bytes -> Z -> option Tcp -> Event) (c : ConnT)
    (trace : list Event) : Prop :=
  let u := Core.d_uri d in
  let port := match uri_port u with Some p => p | None => if is_https u then 443 else 80 end in
  exists host target lookup t, uri_host u = Some host /\
    (if remote_dns then target = host /\ lookup = []
     else exists addrs, lookup = [EResolve (s_resolver s) u (Some addrs)] /\
       target = match addrs with a :: _ => IpFmt.fmt_ip (sa_ip a) | [] => host end) /\
    if is_https u
    then exists ssl, c = mkConn (BTls ssl t) false (s_tls_info s) /\
      trace = lookup ++ [dial target port (Some t); ETls (s_tls s) (Core.d_alpn d) u host (WTcp t) (Some ssl)]
    else c = mkConn (BTcp t) false false /\ trace = lookup ++ [dial target port (Some t)].

(** The way a connection to [d] takes: all that was asked of the network for it, in
    order, and what the connection is made of. *)
Definition route (s : ConnectorService) (d : DstT) (c : ConnT) (trace : list Event) : Prop :=
  let http_route scheme a auth headers :=
    exists proxy_uri, into_uri scheme (auth_bytes a) = Some proxy_uri /\
      if is_https (Core.d_uri d) then tunnelled s d proxy_uri (connect_headers auth headers) c trace
      else straight s d proxy_uri true c trace in
  match (take_proxy_scheme (Core.d_network d)).1 with
  | None => straight s d (Core.d_uri d) false c trace
  | Some (PHttp auth a headers) => http_route HTTP a auth headers
  | Some (PHttps auth a headers) => http_route HTTPS a auth headers
  | Some (PSocks4 a remote) => by_socks s d remote (ESocks4 a) c trace
  | Some (PSocks5 a auth remote) => by_socks s d remote (fun h p => ESocks5 a h p auth) c trace
  end.

(** The host to which TCP is, unless a SOCKS proxy is asked for the connection. *)
Definition first_hop (d : DstT) (proxy : option ProxyScheme) (u : Uri) : Prop :=
  match proxy with
  | None => u = Core.d_uri d
  | Some (PHttp _ a _) => into_uri HTTP (auth_bytes a) = Some u
  | Some (PHttps _ a _) => into_uri HTTPS (auth_bytes a) = Some u
  | _ => False
  end.

(** What may be asked of the network for [d], also on the way to an error. *)
Definition asked (s : ConnectorService) (d : DstT) (proxy : option ProxyScheme) (e : Event) : Prop :=
  match e with
  | EDial cfg u _ =>
      first_hop d proxy u /\
      exists nodelay : bool, cfg = bound (Core.d_network d) (if nodelay then HttpConnector.set_nodelay true (s_http s) else s_http s)
  | ETls c alpn u host _ _ =>
      c = s_tls s /\ alpn = Core.d_alpn d /\ (u = Core.d_uri d \/ first_hop d proxy u) /\
      exists name, uri_host u = Some name /\ (host = name \/ host = strip_brackets name)
  | ETunnel t u _ _ =>
      u = Core.d_uri d /\ first_hop d proxy (proxy_dst t) /\
      match proxy with Some (PHttp auth _ hs) | Some (PHttps auth _ hs) => headers t = connect_headers auth hs | _ => False end
  | ESocks4 a _ _ _ => exists remote, proxy = Some (PSocks4 a remote)
  | ESocks5 a _ _ auth _ => exists remote, proxy = Some (PSocks5 a auth remote)
  | EResolve r u _ =>
      r = s_resolver s /\ u = Core.d_uri d /\ match proxy with Some (PSocks4 _ remote) | Some (PSocks5 _ _ remote) => remote = false | _ => False end
  | ENodelay _ on _ => on = false
  end.

(** Why a connection fails without the network having failed: the destination or the
    HTTP proxy has no host, or a URI of the proxy cannot be made. *)
Definition unusable (d : DstT) (proxy : option ProxyScheme) (e : BoxError) : Prop :=
  match e with
  | EBadUri =>
      match proxy with
      | Some (PHttp _ a _) => into_uri (Uri := Uri) HTTP (auth_bytes a) = None
      | Some (PHttps _ a _) => into_uri (Uri := Uri) HTTPS (auth_bytes a) = None
      | _ => False
      end
  | EBadHost | ENoHost => exists u, (u = Core.d_uri d \/ first_hop d proxy u) /\ uri_host u = None
  | _ => False
  end.

Section Routes.
Context (s : ConnectorService) (d : DstT) (proxy : option ProxyScheme).
Abbreviation runs := (runs (unusable d proxy) (asked s d proxy)).

(** The connectors that are used for [d]. *)
Definition fitted (h : HttpsConnector) : Prop :=
  hs_tls h = s_tls s /\ hs_alpn h = Core.d_alpn d /\
  exists nodelay : bool, hs_http h = bound (Core.d_network d) (if nodelay then HttpConnector.set_nodelay true (s_http s) else s_http s).

Lemma asking_tls h u host over name :
  fitted h -> u = Core.d_uri d \/ first_hop d proxy u -> uri_host u = Some name -> host = name \/ host = strip_brackets name ->
  asking (G := asked s d proxy) (ETls (hs_tls h) (hs_alpn h) u host over).
Proof. intros (-> & -> & _) Hu Hn Hh o. split; [|done]. split_and!; [done..|]. by exists name. Qed.

Lemma host_runs u e : u = Core.d_uri d \/ first_hop d proxy u -> e = EBadHost \/ e = ENoHost ->
  runs (of_option e (uri_host u)) (fun host tr => uri_host u = Some host /\ tr = []).
Proof. intros Hu He. apply runs_option; [done|]. intros Hn. destruct He as [-> | ->]; by exists u. Qed.

Lemma https_call_runs h u : fitted h -> first_hop d proxy u -> runs (https_call h u) (reached h u).
Proof.
  intros Hh Hu. assert (asking (G := asked s d proxy) (EDial (hs_http h) u)) as Hd.
  { destruct Hh as (_ & _ & b & E). intros o. split; [|done]. split; [done|]. by exists b. }
  unfold https_call, https_connect. destruct (is_https u) eqn:Eh; cbn [negb].
  - eapply runs_bind; [exact (runs_lift _ _ (http_call_log (hs_http h) u) Hd)|].
    intros t tr ->. eapply runs_bind; [apply host_runs; [by right|by left]|].
    intros host tr [Hn ->]. eapply runs_bind; [apply runs_lift; [apply tls_connect_log|by eapply asking_tls; [|right| |right]]|].
    intros ssl tr ->. apply runs_ret. by constructor.
  - eapply runs_bind; [exact (runs_lift _ _ (http_call_log (hs_http h) u) Hd)|]. intros t tr ->. apply runs_ret. by constructor.
Qed.

Lemma straight_runs (d' : DstT) proxied :
  first_hop d proxy (Core.d_uri d') -> Core.d_network d' = Core.d_network d -> Core.d_alpn d' = Core.d_alpn d ->
  runs (connect_with_maybe_proxy s d' proxied) (straight s d (Core.d_uri d') proxied).
Proof.
  intros Hu Hn Ha. unfold connect_with_maybe_proxy, straight. set (base := if _ : bool then _ else _).
  pose proof (https_new_spec base (s_tls s) d') as Hs. destruct (https_new base (s_tls s) d') as [h d1]. destruct Hs as [-> ->]. rewrite Hn, Ha.
  eapply runs_bind; [apply https_call_runs; [|done]|].
  { split_and!; [done..|]. by exists (negb (s_nodelay s) && is_https (Core.d_uri d')). }
  intros m tr Hr. destruct m as [t|ssl t].
  - apply runs_ret. exists (MHttp t), tr. by rewrite app_nil_r.
  - destruct (s_nodelay s) eqn:Ed; cbn [negb].
    + eapply runs_bind; [apply (runs_ret _ (fun _ tr => tr = [])); done|]. intros _ tr' ->. apply runs_ret. exists (MHttps ssl t), tr. by rewrite !app_nil_r.
    + eapply runs_bind; [by apply (runs_lift _ (ENodelay t false)); [apply tcp_set_nodelay_log|]|].
      intros [] tr' ->. apply runs_ret. exists (MHttps ssl t), tr. by rewrite app_nil_r.
Qed.

Lemma tunnelled_runs scheme a auth hs :
  proxy = Some (PHttp auth a hs) /\ scheme = HTTP \/ proxy = Some (PHttps auth a hs) /\ scheme = HTTPS ->
  runs (via_http_proxy auth_bytes s d scheme a auth hs) (fun c trace =>
    exists proxy_uri, into_uri scheme (auth_bytes a) = Some proxy_uri /\
      if is_https (Core.d_uri d) then tunnelled s d proxy_uri (connect_headers auth hs) c trace
      else straight s d proxy_uri true c trace).
Proof.
  intros Hp. unfold via_http_proxy. eapply runs_bind; [apply (runs_option _ _ (fun u tr => into_uri scheme (auth_bytes a) = Some u /\ tr = [])); [done|]|].
  { intros E. by destruct Hp as [[-> ->]|[-> ->]]. }
  intros pu tr [Hu ->]. assert (first_hop d proxy pu) as Hf by (by destruct Hp as [[-> ->]|[-> ->]]). destruct (is_https (Core.d_uri d)).
  - pose proof (https_new_spec (s_http s) (s_tls s) d) as Hn. destruct (https_new (s_http s) (s_tls s) d) as [h d1]. destruct Hn as [-> Hd]. rewrite Hd.
    set (h := mkHttps _ _ _). assert (fitted h) as Hh by (split_and!; [done..|by exists false]).
    set (tun := match hs with Some hs => _ | None => _ end).
    assert (tun = mkTunnel (connect_headers auth hs) pu) as -> by (subst tun; by destruct auth, hs).
    eapply runs_bind; [by apply https_call_runs|]. intros m tr Hr.
    eapply runs_bind; [apply runs_lift; [apply tunnel_shake_log|]|].
    { intros o. split; [|done]. split_and!; [done..|]. by destruct Hp as [[-> _]|[-> _]]. }
    intros [] tr1 ->. eapply runs_bind; [apply host_runs; by left|].
    intros host tr2 [Hh' ->]. eapply runs_bind; [apply runs_lift; [apply tls_connect_log|by eapply asking_tls; [|left| |left]]|].
    intros ssl tr3 ->. apply runs_ret. exists pu. split; [done|]. by exists m, tr, host, ssl.
  - eapply runs_weaken; [by apply (straight_runs (dst_set_uri pu d))|intros c tr Hs; by exists pu|done..].
Qed.

(** A SOCKS handshake, with the event it is. *)
Definition socks_event (p : ProxyScheme) (remote_dns : bool) (dial : bytes -> Z -> option Tcp -> Event) : Prop :=
  match p with
  | PSocks4 a r => remote_dns = r /\ dial = ESocks4 a
  | PSocks5 a auth r => remote_dns = r /\ dial = (fun h p => ESocks5 a h p auth)
  | _ => False
  end.

Lemma socks_connect_runs p remote_dns dial :
  proxy = Some p -> socks_event p remote_dns dial ->
  let u := Core.d_uri d in
  let port := match uri_port u with Some p => p | None => if is_https u then 443 else 80 end in
  runs (socks_connect s p u (negb remote_dns)) (fun t trace =>
    exists host target lookup, uri_host u = Some host /\
      (if remote_dns then target = host /\ lookup = []
       else exists addrs, lookup = [EResolve (s_resolver s) u (Some addrs)] /\
         target = match addrs with a :: _ => IpFmt.fmt_ip (sa_ip a) | [] => host end) /\
      trace = lookup ++ [dial target port (Some t)]).
Proof.
  intros Hx Hp u port. unfold socks_connect. fold u port.
  eapply runs_bind; [apply host_runs; [by left|by right]|]. intros host tr [Hh ->].
  apply (runs_bind _ _ _ (fun target lookup => if remote_dns then target = host /\ lookup = []
       else exists addrs, lookup = [EResolve (s_resolver s) u (Some addrs)] /\
         target = match addrs with a :: _ => IpFmt.fmt_ip (sa_ip a) | [] => host end)).
  { destruct remote_dns; cbn [negb]; [by apply runs_ret|].
    eapply runs_bind; [apply runs_lift; [apply http_resolve_log|]|].
    { intros o. split; [|done]. split_and!; [done..|]. rewrite Hx. by destruct p as [| |a r|a auth r]; try done; destruct Hp as [<- _]. }
    intros l tr ->. apply runs_ret. by exists l. }
  intros target lookup Hl. destruct p as [| |a r|a auth r]; try done; destruct Hp as [-> ->].
  - eapply runs_weaken; [apply runs_socks; [apply socks4_connect_log|]| |done..]; [intros o; split; [by exists r|done]|].
    intros t tr ->. by exists host, target, lookup.
  - eapply runs_weaken; [apply runs_socks; [apply socks5_connect_log|]| |done..]; [intros o; split; [by exists r|done]|].
    intros t tr ->. by exists host, target, lookup.
Qed.

Lemma by_socks_runs p remote_dns dial :
  proxy = Some p -> socks_event p remote_dns dial -> runs (connect_socks s d p) (by_socks s d remote_dns dial).
Proof.
  intros Hx Hp. unfold connect_socks. apply (runs_bind _ _ _ (fun local tr => local = negb remote_dns /\ tr = [])).
  { destruct p as [| |a r|a auth r]; try done; destruct Hp as [-> _]; by apply runs_ret. }
  intros local tr [-> ->]. pose proof (socks_connect_runs p remote_dns dial Hx Hp) as Hs. cbv zeta in Hs. unfold by_socks.
  destruct (is_https (Core.d_uri d)) eqn:Eh.
  - pose proof (https_new_spec (s_http s) (s_tls s) d) as Hn. destruct (https_new (s_http s) (s_tls s) d) as [h d1]. destruct Hn as [-> Hd]. rewrite Hd.
    eapply runs_bind; [apply host_runs; by left|].
    intros host tr [Hh ->]. eapply runs_bind; [exact Hs|]. intros t tr1 (host' & target & lookup & Hh' & Hl & ->).
    assert (host' = host) as -> by congruence.
    eapply runs_bind; [apply runs_lift; [apply tls_connect_log|eapply asking_tls; [split_and!; [done..|by exists false]|by left|done|by left]]|].
    intros ssl tr2 ->. apply runs_ret. exists host, target, lookup, t. split; [done|]. split; [done|]. exists ssl. split; [done|].
    cbn [app]. by rewrite <- ?app_assoc.
  - eapply runs_bind; [exact Hs|]. intros t tr1 (host & target & lookup & Hh & Hl & ->). apply runs_ret.
    exists host, target, lookup, t. split; [done|]. split; [done|]. split; [done|]. by rewrite app_nil_r.
Qed.

End Routes.

(** Taking the proxy out of a destination changes nothing else of its way. *)
Lemma proxy_taken (d : DstT) p n :
  take_proxy_scheme (Core.d_network d) = (p, n) -> forall base, bound n base = bound (Core.d_network d) base.
Proof. intros Et base. unfold bound. destruct (Core.d_network d); by injection Et as <- <-. Qed.

Lemma connect_runs s (d : DstT) p n :
  take_proxy_scheme (Core.d_network d) = (p, n) ->
  let d1 := Core.mkDst (Core.d_uri d) (Core.d_alpn d) n in
  runs (unusable d p) (asked s d p)
    (match p with Some p => connect_via_proxy s d1 p | None => connect_with_maybe_proxy s d1 false end) (route s d).
Proof.
  intros Et d1. pose proof (proxy_taken d p n Et) as Hb.
  assert (Hst : forall v proxied c tr, straight s d1 v proxied c tr -> straight s d v proxied c tr) by (unfold straight; intros *; cbn; by setoid_rewrite Hb).
  assert (Ht : forall pu hs c tr, tunnelled s d1 pu hs c tr -> tunnelled s d pu hs c tr) by (unfold tunnelled; intros *; cbn; by rewrite Hb).
  assert (Hg : forall e, asked s d1 p e -> asked s d p e) by (intros []; cbn; try setoid_rewrite Hb; done).
  assert (Hf : forall e, unusable d1 p e -> unusable d p e) by done.
  unfold route. rewrite Et. cbn [fst]. destruct p as [[auth a hs|auth a hs|a r|a auth r]|]; cbn [Connector.connect_via_proxy];
    (eapply runs_weaken; [| |exact Hf|exact Hg]).
  - apply (tunnelled_runs s d1 _ HTTP a auth hs). by left.
  - intros c tr (pu & Hu & Hc). exists pu. split; [done|]. cbn in Hc. destruct (is_https (Core.d_uri d)); auto.
  - apply (tunnelled_runs s d1 _ HTTPS a auth hs). by right.
  - intros c tr (pu & Hu & Hc). exists pu. split; [done|]. cbn in Hc. destruct (is_https (Core.d_uri d)); auto.
  - by apply (by_socks_runs s d1 _ (PSocks4 a r) r (ESocks4 a)).
  - done.
  - by apply (by_socks_runs s d1 _ (PSocks5 a auth r) r (fun h p => ESocks5 a h p auth)).
  - done.
  - by apply (straight_runs s d1 None d1 false).
  - intros c tr Hs. by apply Hst.
Qed.

(** C8. Which way a connection takes.  For every destination and proxy a call of the
    connector returns, with a timeout exactly if the connect timeout elapses.  A
    connection it returns was made by exactly the steps of [route], each asked of the
    network once, in order and with success.  Without a
    proxy TCP is to the destination, bound to the interface and local addresses of the
    request, with TLS for its host, with the client's TLS settings and the ALPN of the
    request, if its scheme is https.  A plain destination behind an HTTP or HTTPS proxy
    is reached by such a connection to the proxy, marked as one.  An https destination
    gets a tunnel: such a connection to the proxy, a CONNECT for the destination with
    the proxy's credentials and headers that the proxy accepted, and over it TLS for
    the destination's host.  Through SOCKS the proxy is asked for the host by name, or
    with local resolution by the first address that the client's resolver found, and TLS
    is for the name.  An error comes after steps that belong to this way, never around
    the proxy ([asked]): of these all but the last succeeded and the last one failed,
    or all succeeded and the URI of the destination or of its proxy cannot be used. *)
Theorem connect_route s (d : DstT) w :
  let proxy := (take_proxy_scheme (Core.d_network d)).1 in
  match s_timeout s ≫= fun t => elapses t w with
  | Some w' => service_call s d w = (RErr ETimedOut, w')
  | None =>
      match service_call s d w with
      | (RVal c, w') => exists trace, history w' = history w ++ trace /\ route s d c trace
      | (RErr e, w') => exists trace, history w' = history w ++ trace /\ stopped (unusable d proxy) (asked s d proxy) e trace
      | _ => False
      end
  end.
Proof.
  unfold Connector.service_call, dst_take_proxy_scheme. destruct (take_proxy_scheme (Core.d_network d)) as [p n] eqn:Et. cbn [fst].
  assert (Hgo : forall m : PM BoxError W ConnT, runs (unusable d p) (asked s d p) m (route s d) ->
    match s_timeout s ≫= fun t => elapses t w with
    | Some w' => with_timeout (s_timeout s) m w = (RErr ETimedOut, w')
    | None =>
        match with_timeout (s_timeout s) m w with
        | (RVal c, w') => exists trace, history w' = history w ++ trace /\ route s d c trace
        | (RErr e, w') => exists trace, history w' = history w ++ trace /\ stopped (unusable d p) (asked s d p) e trace
        | _ => False
        end
    end).
  { intros m Hm. specialize (Hm w). unfold with_timeout. destruct (s_timeout s) as [t|]; cbn; [destruct (elapses t w); [done|]|];
      destruct (m w) as [[c| |e| |] w']; naive_solver. }
  pose proof (connect_runs s d p n Et) as Hc. by destruct p; apply Hgo.
Qed.

(** ** What a connection through a tunnel says *)

(** A connection to an https destination through an HTTPS proxy reports what the
    proxy negotiated: with a proxy that chose HTTP/2 it counts as an HTTP/2
    connection whatever the destination chose, and its certificate is the proxy's;
    through an HTTP proxy it has no certificate at all. *)
Theorem tunnel_reports_proxy selected certificate info (s sp : Ssl) (t : Tcp) :
  let via_https := mkConn (BTunnel s (MHttps sp t)) false true in
  let via_http := mkConn (BTunnel s (MHttp t)) false true in
  let reported c x := XTls x ∈ extras (connected selected certificate info c) in
  (selected sp = Some (bs "h2") -> is_negotiated_h2 (connected selected certificate info via_https) = true) /\
  (forall x, reported via_https x <-> certificate sp = Some x) /\ (forall x, ~ reported via_http x).
Proof.
  cbv zeta. unfold connected, with_proxy, with_extra. cbn [tls_info inner is_proxy box_tls_info maybe_tls_info box_connected maybe_connected].
  assert (forall x c, XTls x ∉ extras (ssl_connected selected s (ssl_connected selected c (tcp_connected info t)))) as Hn.
  { intros x c. unfold ssl_connected, tcp_connected. repeat case_match; cbn; set_solver. }
  assert (forall x, XTls x ∉ extras (ssl_connected selected s (tcp_connected info t))) as Hn1.
  { intros x. unfold ssl_connected, tcp_connected. repeat case_match; cbn; set_solver. }
  split_and!.
  - intros E. unfold ssl_connected. rewrite E, (bool_decide_true (Some (bs "h2") = Some (bs "h2"))) by done.
    destruct (certificate sp), (bool_decide (selected s = Some (bs "h2"))); done.
  - intros x. specialize (Hn x sp). destruct (certificate sp) as [y|]; cbn [extras] in *; [|set_solver].
    rewrite elem_of_app, list_elem_of_singleton. naive_solver.
  - intros x. apply Hn1.
Qed.

(** ** Replacing the TLS settings *)

(** Exchanging the TLS settings of a connector is building it with them: layers,
    timeout, resolver and all other settings stay. *)
Theorem set_tls_rebuilds layers (b : ConnectorBuilder) tls :
  HttpConnector.enforce_http (cb_http b) = false ->
  set_tls_connector auth_bytes tls (connector_build auth_bytes layers b) =
  connector_build auth_bytes layers
    (mkConnectorBuilder (cb_http b) tls (cb_verbose b) (cb_timeout b) (cb_nodelay b) (cb_tls_info b) (cb_resolver b)).
Proof.
  intros He. destruct b as [http tls0 v t n i r]. cbn in He. assert (HttpConnector.enforce_http_ false http = http) as Eh.
  { destruct http. cbn in He. by subst. }
  destruct layers as [layers|]; [|done]. unfold set_tls_connector, connector_build, connector_builder, cb_set_socks_resolver, cb_set_verbose, cb_set_timeout.
  cbn [cb_http cb_tls cb_verbose cb_timeout cb_nodelay cb_tls_info cb_resolver s_http s_tls s_verbose s_timeout s_nodelay s_tls_info s_resolver default].
  by rewrite Eh.
Qed.
End ConnectorProps.

(** ** The properties at concrete inputs *)

Module RefConnector.
Import RefHttp RefUrl RefClient RefCore.

(** Every connect and handshake succeeds and is remembered; a stream is a number. *)
Abbreviation Net := (list (Event UriParts nat (bytes * option AlpnProtos) unit unit)).
Definition fine {A} (a : A) (ev : option A -> Event UriParts nat (bytes * option AlpnProtos) unit unit) (w : Net) : result A unit * Net :=
  (Ok a, w ++ [ev (Some a)]).
#[export] Instance ref_conn_api : ConnApi (Uri := UriParts) Net := {|
  Tcp := nat; Ssl := bytes * option AlpnProtos; TlsConnector := unit; Resolver := unit; IoErr := unit;
  http_call := fun cfg u w => fine (length w) (EDial cfg u) w;
  tls_connect := fun c al u h over => fine (h, al) (ETls c al u h over);
  tunnel_shake := fun t u over => fine tt (ETunnel t u over);
  socks4_connect := fun a h p w => fine (length w) (ESocks4 a h p) w;
  socks5_connect := fun a h p auth w => fine (length w) (ESocks5 a h p auth) w;
  http_resolve := fun r u => fine [] (EResolve r u);
  tcp_set_nodelay := fun t b => fine tt (ENodelay t b);
  elapses := fun _ _ => None; gai := tt
|}.
#[export] Program Instance ref_conn_laws : ConnLaws (W := Net) := {| history := fun w => w |}.
Solve All Obligations with done.

Definition as_text : Authority (ProxyCrates := ref_crates) -> bytes := fun a => a.
Definition service : ConnectorService (W := Net) := mkService HttpConnector.new_config tt false None false true tt.
Definition secure : UriParts := mkUriParts (Some HTTPS) (Some (bs "a.b")) (Some (bs "/")).
Definition ref_dst : Core.Dst (Uri := UriParts) (NetworkScheme := NetworkScheme) :=
  Core.mkDst secure None (Scheme None (None, None) (Some (PHttps None (bs "p.q") None))).

Definition proxy_at : UriParts := mkUriParts (Some HTTPS) (Some (bs "p.q")) (Some (bs "/")).
Definition to_proxy : MaybeHttpsStream nat (bytes * option AlpnProtos) := MHttps (bs "p.q", None) 0%nat.
Definition through : Conn nat (bytes * option AlpnProtos) := mkConn (BTunnel (bs "a.b", None) to_proxy) false true.
Definition steps : Net :=
  [EDial HttpConnector.new_config proxy_at (Some 0%nat); ETls tt None proxy_at (bs "p.q") (WTcp 0%nat) (Some (bs "p.q", None));
   ETunnel (mkTunnel Tunnel.Empty proxy_at) secure (maybe_wire to_proxy) (Some tt);
   ETls tt None secure (bs "a.b") (maybe_wire to_proxy) (Some (bs "a.b", None))].

(** TLS for the destination, inside a tunnel, inside TLS for the proxy. *)
Lemma connect_route_witness : service_call as_text service ref_dst [] = (RVal through, steps) /\ route as_text service ref_dst through steps.
Proof.
  assert (service_call as_text service ref_dst [] = (RVal through, steps)) as E by reflexivity.
  split; [exact E|]. pose proof (connect_route as_text service ref_dst []) as Hr. rewrite E in Hr.
  destruct Hr as (tr & Et & Hr). cbn [history ref_conn_laws app] in Et. by subst tr.
Defined.

Lemma tunnel_reports_proxy_witness :
  is_negotiated_h2 (connected (fun x : bytes * option AlpnProtos => Some x.1) (fun _ => None) (fun _ : nat => None)
    (mkConn (BTunnel (bs "http/1.1", None) (MHttps (bs "h2", None) 0%nat)) false true)) = true.
Proof.
  exact (proj1 (tunnel_reports_proxy (W := Net) (fun x => Some x.1) (fun _ => None) (fun _ => None) (bs "http/1.1", None) (bs "h2", None) 0%nat) eq_refl).
Defined.

Definition ref_builder : ConnectorBuilder (W := Net) := connector_builder HttpConnector.new_config (tt : TlsConnector (W := Net)) false true.

Lemma set_tls_rebuilds_witness :
  set_tls_connector as_text (tt : TlsConnector (W := Net)) (connector_build as_text (Some []) ref_builder) = connector_build as_text (Some []) ref_builder.
Proof. exact (set_tls_rebuilds as_text (Some []) ref_builder (tt : TlsConnector (W := Net)) eq_refl). Defined.
End RefConnector.
