(* ===== verification/ResponseBody.v ===== *)
(** * Responses of the client (src/src/client/response.rs, decoder.rs, body.rs)

    The body of a response is the core's body within the timeouts of the request
    ([response]), decompressed by what the headers say ([Decoder]).  A poll happens
    at a time [now]; a [Sleep] of tokio is the time at which it is over.  The
    decompressors, the peekable stream they read and http-body's trait are
    interfaces.  A stream's or body's [Some(Err(e))] is [RErr e]. *)

From S2P Require Import Prelude Http Dispatcher Proxy Net Connector ClientError.
Import ClientError.

Definition map_err {E F T} (f : E -> F) (r : poll_res E T) : poll_res F T :=
  match r with RVal x => RVal x | RPending => RPending | RErr e => RErr (f e) | RPanic => RPanic | RFuel => RFuel end.

Module ResponseBody.
Section ResponseBody.
Context `{HttpCrate} {Url : Type}.
Abbreviation BoxErr := (BoxError Url).
Abbreviation Err_ := (Error Url).
Abbreviation Frame := (BodyFrame bytes HeaderMap).

(** [Body] of http-body, with errors that convert into [BoxError]. *)
Class HttpBody (B : Type) := {
  hb_poll_frame : Z -> B -> poll_res BoxErr (option Frame) * B;
  hb_size_hint : B -> option Z;       (* [SizeHint::exact] *)
  hb_is_end_stream : B -> bool
}.

(** [error::body], boxed. *)
Definition body_error (e : BoxErr) : BoxErr := BError (body e).

(** ** Timeouts (src/src/client/body.rs) *)

Section Timeouts.
Context {B : Type} {hb : HttpBody B}.

Record TotalTimeoutBody := mkTotal { tt_inner : B; tt_timeout : Z }.
Record ReadTimeoutBody := mkRead { rt_inner : B; rt_sleep : option Z; rt_timeout : Z }.

Definition total_timeout (b : B) (timeout : Z) : TotalTimeoutBody := mkTotal b timeout.
Definition with_read_timeout (b : B) (timeout : Z) : ReadTimeoutBody := mkRead b None timeout.

Definition total_poll_frame (now : Z) (b : TotalTimeoutBody) : poll_res BoxErr (option Frame) * TotalTimeoutBody :=
  if tt_timeout b <=? now then (RErr (body_error BTimedOut), b)
  else
    let '(r, i) := hb_poll_frame now (tt_inner b) in
    (map_err body_error r, mkTotal i (tt_timeout b)).

(** The sleep starts with the first poll after a frame. *)
Definition read_poll_frame (now : Z) (b : ReadTimeoutBody) : poll_res BoxErr (option Frame) * ReadTimeoutBody :=
  let sleep := match rt_sleep b with Some s => s | None => now + rt_timeout b end in
  if sleep <=? now then (RErr (body_error BTimedOut), mkRead (rt_inner b) (Some sleep) (rt_timeout b))
  else
    let '(r, i) := hb_poll_frame now (rt_inner b) in
    match r with
    | RPending => (RPending, mkRead i (Some sleep) (rt_timeout b))
    | r => (map_err body_error r, mkRead i None (rt_timeout b))
    end.

#[export] Instance total_body : HttpBody TotalTimeoutBody := {|
  hb_poll_frame := total_poll_frame;
  hb_size_hint b := hb_size_hint (tt_inner b);
  hb_is_end_stream b := hb_is_end_stream (tt_inner b)
|}.
#[export] Instance read_body : HttpBody ReadTimeoutBody := {|
  hb_poll_frame := read_poll_frame;
  hb_size_hint b := hb_size_hint (rt_inner b);
  hb_is_end_stream b := hb_is_end_stream (rt_inner b)
|}.

(** [DataStream::poll_next]: the data frames. *)
Fixpoint data_poll_next (fuel : nat) (now : Z) (b : B) : poll_res BoxErr (option bytes) * B :=
  match fuel with
  | O => (RFuel, b)
  | Datatypes.S fuel =>
      match hb_poll_frame now b with
      | (RVal (Some (DataFrame x)), b) => (RVal (Some x), b)
      | (RVal (Some _), b) => data_poll_next fuel now b
      | (RVal None, b) => (RVal None, b)
      | (RPending, b) => (RPending, b)
      | (RErr e, b) => (RErr e, b)
      | (RPanic, b) => (RPanic, b)
      | (RFuel, b) => (RFuel, b)
      end
  end.
End Timeouts.
Arguments TotalTimeoutBody : clear implicits.
Arguments ReadTimeoutBody : clear implicits.

(** [ResponseBody]: what is in the box. *)
Section Boxed.
Context {Bs : Type} {hb : HttpBody Bs}.

Inductive ResponseBody :=
| RbBoth (b : TotalTimeoutBody (ReadTimeoutBody Bs))
| RbTotal (b : TotalTimeoutBody Bs)
| RbRead (b : ReadTimeoutBody Bs)
| RbPlain (b : Bs)
| RbEmpty.

Definition boxed (b : Bs) : ResponseBody := RbPlain b.

Definition response (b : Bs) (deadline read_timeout : option Z) : ResponseBody :=
  match deadline, read_timeout with
  | Some total, Some read => RbBoth (total_timeout (with_read_timeout b read) total)
  | Some total, None => RbTotal (total_timeout b total)
  | None, Some read => RbRead (with_read_timeout b read)
  | None, None => RbPlain b
  end.

(** [empty] of decoder.rs *)
Definition empty : ResponseBody := RbEmpty.

Definition boxed_poll_frame (now : Z) (b : ResponseBody) : poll_res BoxErr (option Frame) * ResponseBody :=
  match b with
  | RbBoth b => let '(r, b) := hb_poll_frame now b in (r, RbBoth b)
  | RbTotal b => let '(r, b) := hb_poll_frame now b in (r, RbTotal b)
  | RbRead b => let '(r, b) := hb_poll_frame now b in (r, RbRead b)
  | RbPlain b => let '(r, b) := hb_poll_frame now b in (r, RbPlain b)
  | RbEmpty => (RVal None, RbEmpty)
  end.

#[export] Instance boxed_body : HttpBody ResponseBody := {|
  hb_poll_frame := boxed_poll_frame;
  hb_size_hint b :=
    match b with
    | RbBoth b => hb_size_hint b | RbTotal b => hb_size_hint b | RbRead b => hb_size_hint b
    | RbPlain b => hb_size_hint b | RbEmpty => Some 0
    end;
  hb_is_end_stream b :=
    match b with
    | RbBoth b => hb_is_end_stream b | RbTotal b => hb_is_end_stream b | RbRead b => hb_is_end_stream b
    | RbPlain b => hb_is_end_stream b | RbEmpty => true
    end
|}.

(** [IoStream::poll_next] *)
Fixpoint io_poll_next (fuel : nat) (now : Z) (b : ResponseBody) : poll_res (IoErr Url) (option bytes) * ResponseBody :=
  match fuel with
  | O => (RFuel, b)
  | Datatypes.S fuel =>
      match hb_poll_frame now b with
      | (RVal (Some (DataFrame buf)), b) => (RVal (Some buf), b)
      | (RVal (Some _), b) => io_poll_next fuel now b
      | (RVal None, b) => (RVal None, b)
      | (RPending, b) => (RPending, b)
      | (RErr err, b) => (RErr (into_io err), b)
      | (RPanic, b) => (RPanic, b)
      | (RFuel, b) => (RFuel, b)
      end
  end.
End Boxed.
Arguments ResponseBody : clear implicits.

(** ** Which encodings (src/src/client/decoder.rs) *)

Inductive DecoderType := TGzip | TBrotli | TZstd | TDeflate.

(** A flag per encoding: the features the crate is built with, and the settings of a
    client, which has those of its features only. *)
Record Accepts := mkAccepts { a_gzip : bool; a_brotli : bool; a_zstd : bool; a_deflate : bool }.
Definition accepts_none : Accepts := mkAccepts false false false false.
Definition accepts_default : Accepts := mkAccepts true true true true.

Section Features.
Context (feature : Accepts).

Definition is_gzip (a : Accepts) : bool := a_gzip feature.
Definition is_brotli (a : Accepts) : bool := a_brotli feature.
Definition is_zstd (a : Accepts) : bool := a_zstd feature.
Definition is_deflate (a : Accepts) : bool := a_deflate feature.

Definition as_str (a : Accepts) : option string :=
  match is_gzip a, is_brotli a, is_zstd a, is_deflate a with
  | true, true, true, true => Some "gzip, br, zstd, deflate"
  | true, true, false, true => Some "gzip, br, deflate"
  | true, true, true, false => Some "gzip, br, zstd"
  | true, true, false, false => Some "gzip, br"
  | true, false, true, true => Some "gzip, zstd, deflate"
  | true, false, false, true => Some "gzip, deflate"
  | false, true, true, true => Some "br, zstd, deflate"
  | false, true, false, true => Some "br, deflate"
  | true, false, true, false => Some "gzip, zstd"
  | true, false, false, false => Some "gzip"
  | false, true, true, false => Some "br, zstd"
  | false, true, false, false => Some "br"
  | false, false, true, true => Some "zstd, deflate"
  | false, false, true, false => Some "zstd"
  | false, false, false, true => Some "deflate"
  | false, false, false, false => None
  end%string.

Definition detect_encoding (encoding : bytes) (h : HeaderMap) : bool * HeaderMap :=
  let encoded :=
    existsb (fun enc => bool_decide (enc = encoding)) (hm_get_all CONTENT_ENCODING h) ||
    existsb (fun enc => bool_decide (enc = encoding)) (hm_get_all TRANSFER_ENCODING h) in
  let encoded :=
    if encoded then
      match hm_get CONTENT_LENGTH h with Some l => negb (bool_decide (l = bs "0")) | None => true end
    else false in
  if encoded then (true, hm_remove CONTENT_LENGTH (hm_remove CONTENT_ENCODING h)) else (false, h).

(** ** The decoder *)

Section Decoder.
Context {Bs : Type} {hb : HttpBody Bs}.
Abbreviation RBody := (ResponseBody Bs).
Abbreviation IoE := (IoErr Url).

(** futures' [Peekable<IoStream>], and a decompressor of async-compression over it
    behind tokio-util's reader and frames; [codec_stream] and [codec_set_stream] are
    the chain of [get_mut]. *)
Class Codecs (P D : Type) := {
  pk_new : RBody -> P;
  pk_poll_peek : nat -> Z -> P -> poll_res IoE (option bytes) * P;
  pk_poll_next : nat -> Z -> P -> poll_res IoE (option bytes) * P;
  codec_new : DecoderType -> bool -> P -> D;     (* [multiple_members] *)
  codec_poll_next : nat -> Z -> D -> poll_res IoE (option bytes) * D;
  codec_stream : D -> P;
  codec_set_stream : P -> D -> D
}.
Context {P D : Type} {cc : Codecs P D}.

Inductive Inner :=
| PlainText (b : RBody)
| Gzip (d : D)
| Brotli (d : D)
| Zstd (d : D)
| Deflate (d : D)
| Pending (p : P) (ty : DecoderType).
Record Decoder := mkDecoder { inner : Inner }.

Definition plain_text (b : RBody) : Decoder := mkDecoder (PlainText b).
Definition gzip (b : RBody) : Decoder := mkDecoder (Pending (pk_new b) TGzip).
Definition brotli (b : RBody) : Decoder := mkDecoder (Pending (pk_new b) TBrotli).
Definition zstd (b : RBody) : Decoder := mkDecoder (Pending (pk_new b) TZstd).
Definition deflate (b : RBody) : Decoder := mkDecoder (Pending (pk_new b) TDeflate).

(** One block of [detect]: the feature, the setting and the headers. *)
Definition try_encoding (on : bool) (encoding : string) (make : RBody -> Decoder) (b : RBody)
    (next : HeaderMap -> Decoder * HeaderMap) (h : HeaderMap) : Decoder * HeaderMap :=
  if on then
    match detect_encoding (bs encoding) h with
    | (true, h) => (make b, h)
    | (false, h) => next h
    end
  else next h.

Definition detect (b : RBody) (accepts : Accepts) : HeaderMap -> Decoder * HeaderMap :=
  try_encoding (a_gzip feature && a_gzip accepts) "gzip" gzip b (
  try_encoding (a_brotli feature && a_brotli accepts) "br" brotli b (
  try_encoding (a_zstd feature && a_zstd accepts) "zstd" zstd b (
  try_encoding (a_deflate feature && a_deflate accepts) "deflate" deflate b (fun h => (plain_text b, h))))).

(** [Future for Pending]: whether there is anything to decompress. *)
Definition pending_poll (fuel : nat) (now : Z) (p : P) (ty : DecoderType) : poll_res IoE Inner * P :=
  match pk_poll_peek fuel now p with
  | (RVal None, p) => (RVal (PlainText empty), p)
  | (RVal (Some _), p) =>
      (RVal match ty with
            | TBrotli => Brotli (codec_new TBrotli false p)
            | TZstd => Zstd (codec_new TZstd true p)
            | TGzip => Gzip (codec_new TGzip false p)
            | TDeflate => Deflate (codec_new TDeflate false p)
            end, pk_new empty)
  | (RErr _, p) =>
      match pk_poll_next fuel now p with
      | (RErr e, p) => (RErr e, p)
      | (RVal _, p) => (RPanic, p)       (* [expect], [unwrap_err] *)
      | (RPending, p) => (RPending, p)
      | (RPanic, p) => (RPanic, p)
      | (RFuel, p) => (RFuel, p)
      end
  | (RPending, p) => (RPending, p)
  | (RPanic, p) => (RPanic, p)
  | (RFuel, p) => (RFuel, p)
  end.

Fixpoint poll_inner_should_be_empty (fuel : nat) (now : Z) (p : P) : poll_res Err_ (option Frame) * P :=
  match fuel with
  | O => (RFuel, p)
  | Datatypes.S n =>
      match pk_poll_next fuel now p with
      | (RVal (Some []), p) => poll_inner_should_be_empty n now p
      | (RVal (Some _), p) => (RErr (decode (BText "there are extra bytes after body has been decompressed")), p)
      | (RVal None, p) => (RVal None, p)
      | (RErr e, p) => (RErr (decode_io e), p)
      | (RPending, p) => (RPending, p)
      | (RPanic, p) => (RPanic, p)
      | (RFuel, p) => (RFuel, p)
      end
  end.

(** The arm of a decompressor, the same for all four. *)
Definition codec_poll_frame (fuel : nat) (now : Z) (d : D) : poll_res Err_ (option Frame) * D :=
  match codec_poll_next fuel now d with
  | (RVal (Some x), d) => (RVal (Some (DataFrame x)), d)
  | (RErr e, d) => (RErr (decode_io e), d)
  | (RVal None, d) =>
      let '(r, p) := poll_inner_should_be_empty fuel now (codec_stream d) in (r, codec_set_stream p d)
  | (RPending, d) => (RPending, d)
  | (RPanic, d) => (RPanic, d)
  | (RFuel, d) => (RFuel, d)
  end.

(** [poll_frame] when there is a value. *)
Definition ready_poll_frame (fuel : nat) (now : Z) (i : Inner) : poll_res Err_ (option Frame) * Inner :=
  match i with
  | PlainText b => let '(r, b) := hb_poll_frame now b in (map_err decode r, PlainText b)
  | Gzip d => let '(r, d) := codec_poll_frame fuel now d in (r, Gzip d)
  | Brotli d => let '(r, d) := codec_poll_frame fuel now d in (r, Brotli d)
  | Zstd d => let '(r, d) := codec_poll_frame fuel now d in (r, Zstd d)
  | Deflate d => let '(r, d) := codec_poll_frame fuel now d in (r, Deflate d)
  | Pending p ty => (RPanic, Pending p ty)
  end.

Definition decoder_poll_frame (fuel : nat) (now : Z) (d : Decoder) : poll_res Err_ (option Frame) * Decoder :=
  match inner d with
  | Pending p ty =>
      match pending_poll fuel now p ty with
      | (RVal i, _) => let '(r, i) := ready_poll_frame fuel now i in (r, mkDecoder i)
      | (RErr e, p) => (RErr (decode_io e), mkDecoder (Pending p ty))
      | (RPending, p) => (RPending, mkDecoder (Pending p ty))
      | (RPanic, p) => (RPanic, mkDecoder (Pending p ty))
      | (RFuel, p) => (RFuel, mkDecoder (Pending p ty))
      end
  | i => let '(r, i) := ready_poll_frame fuel now i in (r, mkDecoder i)
  end.

Definition decoder_size_hint (d : Decoder) : option Z :=
  match inner d with PlainText b => hb_size_hint b | _ => None end.

(** [Response::chunk]: a poll of its future. *)
Fixpoint chunk_poll (fuel : nat) (now : Z) (d : Decoder) : poll_res Err_ (option bytes) * Decoder :=
  match fuel with
  | O => (RFuel, d)
  | Datatypes.S n =>
      match decoder_poll_frame fuel now d with
      | (RVal (Some (DataFrame buf)), d) => (RVal (Some buf), d)
      | (RVal (Some _), d) => chunk_poll n now d
      | (RVal None, d) => (RVal None, d)
      | (RPending, d) => (RPending, d)
      | (RErr e, d) => (RErr e, d)
      | (RPanic, d) => (RPanic, d)
      | (RFuel, d) => (RFuel, d)
      end
  end.

(** ** [Response] (src/src/client/response.rs) *)

Section Response.
Context {Ext : Type} `{UrlCrate Url}.

Record Parts := mkParts { p_status : StatusCode; p_version : Version; p_headers : HeaderMap; p_extensions : Ext }.
Record Response := mkResponse { r_parts : Parts; r_body : Decoder; r_url : Url }.

Definition set_headers (h : HeaderMap) (p : Parts) : Parts := mkParts (p_status p) (p_version p) h (p_extensions p).
Definition set_extensions (e : Ext) (p : Parts) : Parts := mkParts (p_status p) (p_version p) (p_headers p) e.

Definition response_new (parts : Parts) (b : Bs) (url : Url) (accepts : Accepts) (total_timeout read_timeout : option Z) : Response :=
  let '(decoder, h) := detect (response b total_timeout read_timeout) accepts (p_headers parts) in
  mkResponse (set_headers h parts) decoder url.

Definition r_status (r : Response) : StatusCode := p_status (r_parts r).
Definition r_version (r : Response) : Version := p_version (r_parts r).
Definition r_headers (r : Response) : HeaderMap := p_headers (r_parts r).
Definition r_content_length (r : Response) : option Z := decoder_size_hint (r_body r).
Definition r_remote_addr (ext_http_info : Ext -> option Connector.HttpInfo) (r : Response) : option SocketAddr :=
  Connector.remote_addr <$> ext_http_info (p_extensions (r_parts r)).

Definition is_client_error (s : StatusCode) : bool := (400 <=? s) && (s <? 500).
Definition is_server_error (s : StatusCode) : bool := (500 <=? s) && (s <? 600).

(** Also [error_for_status_ref], on a reference. *)
Definition error_for_status (r : Response) : result Response Err_ :=
  if is_client_error (r_status r) || is_server_error (r_status r) then Err (status_code (r_url r) (r_status r)) else Ok r.

(** [text_with_charset] and [json], from the body that [bytes] collected; the mime,
    encoding_rs and serde_json crates are parameters. *)
Definition text_with_charset {Enc Str} (mime_charset : bytes -> option (option bytes)) (for_label : bytes -> option Enc) (utf_8 : Enc)
    (decode_text : Enc -> bytes -> Str) (default_encoding : bytes) (r : Response) (collected : result bytes Err_) : result Str Err_ :=
  let content_type :=
    match hm_get CONTENT_TYPE (r_headers r) with
    | Some value => match hv_to_str value with Some s => mime_charset s | None => None end
    | None => None
    end in
  let encoding_name := match content_type with Some (Some charset) => charset | _ => default_encoding end in
  let encoding := match for_label encoding_name with Some e => e | None => utf_8 end in
  match collected with Ok full => Ok (decode_text encoding full) | Err e => Err e end.

Definition json {T} (from_slice : bytes -> result T BoxErr) (collected : result bytes Err_) : result T Err_ :=
  match collected with
  | Ok full => match from_slice full with Ok x => Ok x | Err e => Err (decode e) end
  | Err e => Err e
  end.

(** [From<http::Response<T>>]; [ext_remove_url] takes the [ResponseUrl] out of the
    extensions.  [None]: the URL of the fallback does not parse, a panic. *)
Definition from_http (ext_remove_url : Ext -> option Url * Ext) (parts : Parts) (b : Bs) : option Response :=
  let '(decoder, h) := detect (boxed b) accepts_none (p_headers parts) in
  let '(url, ext) := ext_remove_url (p_extensions parts) in
  match match url with Some u => Ok u | None => url_parse (bs "http://no.url.provided.local") end with
  | Ok u => Some (mkResponse (set_extensions ext (set_headers h parts)) decoder u)
  | Err _ => None
  end.
End Response.
Arguments Parts : clear implicits.
Arguments Response : clear implicits.
End Decoder.
End Features.
End ResponseBody.
Arguments TotalTimeoutBody : clear implicits.
Arguments ReadTimeoutBody : clear implicits.
Arguments ResponseBody : clear implicits.
Arguments Inner : clear implicits.
Arguments Decoder : clear implicits.
End ResponseBody.
