(* ===== verification/ResponseProps.v ===== *)
(** * What the user gets of a response's body

    A body that ends is delivered whole, decompressed once if the headers say so and
    the client decompresses ([decoded_body]); the timeouts of a request hold for its
    body and are reported as timeouts ([body_timeouts]). *)

From S2P Require Import Prelude Http Models Dispatcher Proxy ClientError ResponseBody.
Import ClientError ResponseBody.

(** ** Laws of the interfaces *)

Section Laws.
Context `{HC : HttpCrate} {Url : Type}.

(** A body that ends: [hb_left] bounds the frames that are still to come. *)
Class HttpBodyLaws (B : Type) {hb : HttpBody (Url := Url) B} := {
  hb_left : B -> nat;
  hb_frame_ok now b :
    let '(r, b') := hb_poll_frame now b in
    r <> RPanic /\ r <> RFuel /\ (hb_left b' <= hb_left b)%nat /\
    (forall f, r = RVal (Some f) -> (hb_left b' < hb_left b)%nat)
}.

Lemma map_err_same {E F T} (f : E -> F) (r : poll_res E T) x :
  (map_err f r = RVal x <-> r = RVal x) /\ (map_err f r = RPending <-> r = RPending) /\
  (map_err f r = RPanic <-> r = RPanic) /\ (map_err f r = RFuel <-> r = RFuel).
Proof. destruct r; cbn; naive_solver. Qed.

#[export] Instance total_laws B {hb : HttpBody B} {hl : HttpBodyLaws B} : HttpBodyLaws (TotalTimeoutBody B).
Proof.
  refine {| hb_left b := hb_left (tt_inner b) |}. intros now [i t]. cbn. unfold total_poll_frame. cbn [tt_inner tt_timeout].
  destruct (t <=? now); [by repeat split|]. pose proof (hb_frame_ok now i) as Hf. destruct (hb_poll_frame now i) as [r i']. cbn.
  destruct r as [x| |e| |]; cbn; destruct Hf as (? & ? & ? & Hs); by repeat split.
Defined.

#[export] Instance read_laws B {hb : HttpBody B} {hl : HttpBodyLaws B} : HttpBodyLaws (ReadTimeoutBody B).
Proof.
  refine {| hb_left b := hb_left (rt_inner b) |}. intros now [i s t]. cbn. unfold read_poll_frame. cbn [rt_inner rt_timeout rt_sleep].
  destruct (_ <=? now); [by repeat split|]. pose proof (hb_frame_ok now i) as Hf. destruct (hb_poll_frame now i) as [r i']. cbn.
  destruct r as [x| |e| |]; cbn; destruct Hf as (? & ? & ? & Hs); by repeat split.
Defined.

#[export] Instance boxed_laws B {hb : HttpBody B} {hl : HttpBodyLaws B} : HttpBodyLaws (ResponseBody B).
Proof.
  refine {| hb_left b := match b with RbBoth b => hb_left b | RbTotal b => hb_left b | RbRead b => hb_left b | RbPlain b => hb_left b | RbEmpty => O end |}.
  intros now [b|b|b|b|]; [..|by repeat split]; pose proof (hb_frame_ok now b) as Hf;
    cbn [hb_poll_frame boxed_body boxed_poll_frame] in *.
  all: match goal with |- context [let (_, _) := let (_, _) := ?t in _ in _] => by destruct t end.
Defined.

Lemma left_response B {hb : HttpBody B} {hl : HttpBodyLaws B} (b : B) dl rd : hb_left (response b dl rd) = hb_left b.
Proof. by destruct dl, rd. Qed.

(** ** What a body has given *)

Section Gives.
Context {B : Type} {hb : HttpBody (Url := Url) B}.

(** The data frames over polls that did not fail. *)
Inductive gives : B -> list bytes -> B -> Prop :=
| gv_nil b : gives b [] b
| gv_frame b now f b1 l b2 :
    hb_poll_frame now b = (RVal (Some f), b1) -> gives b1 l b2 ->
    gives b (match f with DataFrame x => x :: l | _ => l end) b2
| gv_pending b now b1 l b2 : hb_poll_frame now b = (RPending, b1) -> gives b1 l b2 -> gives b l b2.

Lemma gives_app b1 l1 b2 l2 b3 : gives b1 l1 b2 -> gives b2 l2 b3 -> gives b1 (l1 ++ l2) b3.
Proof.
  induction 1 as [|b now f b1 l b2 E _ IH|b now b1 l b2 E _ IH]; intros H3; [done|..].
  - replace (_ ++ l2) with (match f with DataFrame x => x :: (l ++ l2) | _ => l ++ l2 end) by by destruct f.
    eapply gv_frame; eauto.
  - eapply gv_pending; eauto.
Qed.

Lemma gives_step b l b1 now f b2 :
  gives b l b1 -> hb_poll_frame now b1 = (RVal (Some f), b2) -> gives b (l ++ match f with DataFrame x => [x] | _ => [] end) b2.
Proof. intros Hg E. eapply gives_app; [done|]. pose proof (gv_frame _ _ _ _ [] _ E (gv_nil _)) as H1. by destruct f. Qed.

Lemma gives_wait b l b1 now b2 : gives b l b1 -> hb_poll_frame now b1 = (RPending, b2) -> gives b l b2.
Proof. intros Hg E. rewrite <- (app_nil_r l). eapply gives_app; [done|]. eapply gv_pending; [done|constructor]. Qed.

Definition ended (b : B) : Prop := exists now, (hb_poll_frame now b).1 = RVal None.
End Gives.

(** ** The interface of the decompressors *)

Context {Bs : Type} {hb : HttpBody (Url := Url) Bs} {P D : Type} {cc : Codecs (Url := Url) (Bs := Bs) P D}.

Definition item_of (r : poll_res (IoErr Url) (option bytes)) : option (result bytes (IoErr Url)) :=
  match r with RVal (Some x) => Some (Ok x) | RErr e => Some (Err e) | _ => None end.
Definition of_item (i : result bytes (IoErr Url)) : poll_res (IoErr Url) (option bytes) :=
  match i with Ok x => RVal (Some x) | Err e => RErr e end.

(** A decompressor reads its stream until it has enough, and stops at [RPending] and
    at an error. *)
Inductive pulls (fuel : nat) (now : Z) : P -> list bytes -> poll_res (IoErr Url) unit -> P -> Prop :=
| pl_stop p : pulls fuel now p [] (RVal tt) p
| pl_data p x p1 l r p2 : pk_poll_next fuel now p = (RVal (Some x), p1) -> pulls fuel now p1 l r p2 -> pulls fuel now p (x :: l) r p2
| pl_end p p1 l r p2 : pk_poll_next fuel now p = (RVal None, p1) -> pulls fuel now p1 l r p2 -> pulls fuel now p l r p2
| pl_pending p p1 : pk_poll_next fuel now p = (RPending, p1) -> pulls fuel now p [] RPending p1
| pl_err p e p1 : pk_poll_next fuel now p = (RErr e, p1) -> pulls fuel now p [] (RErr e) p1
| pl_panic p p1 : pk_poll_next fuel now p = (RPanic, p1) -> pulls fuel now p [] RPanic p1
| pl_fuel p p1 : pk_poll_next fuel now p = (RFuel, p1) -> pulls fuel now p [] RFuel p1.

Definition nonempty (l : list bytes) : list bytes := List.filter (fun x => match x with [] => false | _ => true end) l.
(** An error that a decompressor makes is none of the client's. *)
Definition format_error (e : IoErr Url) : Prop := match e.2 with Some (BError _) => False | _ => True end.

(** What chunks are the compression of: of one member (a gzip member, a zstd frame),
    with what follows it in the last chunk unused, or, for a decompressor of several,
    of one member after the other and of nothing else. *)
Definition unpacks (member : bytes -> option bytes) (several : bool) (chunks : list bytes) (out : bytes) : Prop :=
  exists packed outs rest,
    concat chunks = concat packed ++ rest /\ Forall2 (fun m o => member m = Some o) packed outs /\ out = concat outs /\
    if several then packed <> [] /\ rest = []
    else length packed = 1%nat /\ (rest = [] \/ exists l x, nonempty chunks = l ++ [x] /\ rest `suffix_of` x).

(** The laws.  A decompressor makes an error of its own only if what it took begins no
    compressed text, or, at the end of the stream, is none. *)
Class CodecsLaws := {
  (* the peekable stream: the item that was peeked, the stream, whether it ended *)
  pk_view : P -> option (result bytes (IoErr Url)) * ResponseBody Bs * bool;
  pk_new_view b : pk_view (pk_new b) = (None, b, false);
  pk_next_ok fuel now p :
    let '(r, p') := pk_poll_next fuel now p in
    match pk_view p with
    | (Some i, s, done) => r = of_item i /\ pk_view p' = (None, s, done)
    | (None, s, true) => r = RVal None /\ pk_view p' = (None, s, true)
    | (None, s, false) =>
        let '(q, s') := io_poll_next fuel now s in
        r = q /\ pk_view p' = (None, s', match q with RVal None => true | _ => false end)
    end;
  pk_peek_ok fuel now p :
    let '(r, p') := pk_poll_peek fuel now p in
    match pk_view p with
    | (Some i, s, done) => r = of_item i /\ pk_view p' = (Some i, s, done)
    | (None, s, true) => r = RVal None /\ pk_view p' = (None, s, true)
    | (None, s, false) =>
        let '(q, s') := io_poll_next fuel now s in
        r = q /\ pk_view p' = (item_of q, s', match q with RVal None => true | _ => false end)
    end;
  (* the formats: what one complete member is the compression of *)
  unpack : DecoderType -> bytes -> option bytes;
  codec_type : D -> DecoderType;
  codec_several : D -> bool;            (* [multiple_members] *)
  codec_taken : D -> list bytes;        (* from the stream *)
  codec_given : D -> bytes;
  codec_failed : D -> bool;
  codec_new_ok ty m p :
    codec_type (codec_new ty m p) = ty /\ codec_several (codec_new ty m p) = m /\ codec_taken (codec_new ty m p) = [] /\ codec_given (codec_new ty m p) = [] /\
    codec_failed (codec_new ty m p) = false /\ codec_stream (codec_new ty m p) = p;
  codec_set_ok p d :
    codec_stream (codec_set_stream p d) = p /\ codec_type (codec_set_stream p d) = codec_type d /\ codec_several (codec_set_stream p d) = codec_several d /\
    codec_taken (codec_set_stream p d) = codec_taken d /\ codec_given (codec_set_stream p d) = codec_given d /\
    codec_failed (codec_set_stream p d) = codec_failed d;
  codec_poll_ok fuel now d :
    let '(r, d') := codec_poll_next fuel now d in
    codec_type d' = codec_type d /\ codec_several d' = codec_several d /\
    exists got stop,
      pulls fuel now (codec_stream d) got stop (codec_stream d') /\ codec_taken d' = codec_taken d ++ got /\
      match r with
      | RVal (Some x) =>
          (stop = RVal tt \/ stop = RPending) /\ codec_failed d' = codec_failed d /\ codec_given d' = codec_given d ++ x
      | RVal None =>
          stop = RVal tt /\ codec_failed d' = codec_failed d /\ codec_given d' = codec_given d /\
          (codec_failed d = false -> unpacks (unpack (codec_type d)) (codec_several d) (codec_taken d') (codec_given d))
      | RPending => stop = RPending /\ codec_failed d' = codec_failed d /\ codec_given d' = codec_given d
      | RErr e =>
          stop = RErr e \/
          (stop = RVal tt \/ stop = RPending) /\ format_error e /\
          (codec_failed d = false -> forall more out,
             ((pk_view (codec_stream d')).2 = true -> more = []) ->
             ~ unpacks (unpack (codec_type d)) (codec_several d) (codec_taken d' ++ more) out)
      | RPanic => stop = RPanic
      | RFuel => stop = RFuel
      end
}.
End Laws.
Arguments CodecsLaws {HC Url Bs hb P D cc}.

(** ** The stream under a decompressor *)

Section Decoded.
Context `{HC : HttpCrate} {HL : HttpLaws} {Url : Type} {Bs : Type} {hb : HttpBody (Url := Url) Bs} {hl : HttpBodyLaws Bs}.
Context {P D : Type} {cc : Codecs (Url := Url) (Bs := Bs) P D} {cl : CodecsLaws}.
Implicit Types (b s : ResponseBody Bs) (p : P) (d : Decoder Bs P D).

(** The body is waited for. *)
Definition waits (now : Z) b : Prop := exists l s, gives b l s /\ (hb_poll_frame now s).1 = RPending.
(** The body failed with [x]. *)
Definition fails (now : Z) b (x : BoxError Url) : Prop := exists l s, gives b l s /\ (hb_poll_frame now s).1 = RErr x.

Lemma io_next_ok fuel now b :
  (hb_left b < fuel)%nat ->
  let '(r, b') := io_poll_next fuel now b in
  (hb_left b' <= hb_left b)%nat /\
  match r with
  | RVal (Some x) => gives b [x] b' /\ (hb_left b' < hb_left b)%nat
  | RVal None => exists s, gives b [] s /\ ended s
  | RPending => gives b [] b' /\ exists s, gives b [] s /\ (hb_poll_frame now s).1 = RPending
  | RErr e => exists x, e = into_io x /\ exists s, gives b [] s /\ (hb_poll_frame now s).1 = RErr x
  | RPanic | RFuel => False
  end.
Proof.
  revert b. induction fuel as [|fuel IH]; intros b Hf; [lia|]. cbn [io_poll_next].
  pose proof (hb_frame_ok now b) as Ho. destruct (hb_poll_frame now b) as [r b1] eqn:E. destruct Ho as (Hp & Hq & Hle & Hlt).
  destruct r as [[f|]| |e| |]; try done.
  - specialize (Hlt f eq_refl). pose proof (gives_step b [] b now f b1 (gv_nil b) E) as Hg. cbn in Hg.
    assert (Hrest : forall (Hn : gives b [] b1), let '(r, b') := io_poll_next fuel now b1 in
      (hb_left b' <= hb_left b)%nat /\
      match r with
      | RVal (Some x) => gives b [x] b' /\ (hb_left b' < hb_left b)%nat
      | RVal None => exists s, gives b [] s /\ ended s
      | RPending => gives b [] b' /\ exists s, gives b [] s /\ (hb_poll_frame now s).1 = RPending
      | RErr e => exists x, e = into_io x /\ exists s, gives b [] s /\ (hb_poll_frame now s).1 = RErr x
      | RPanic | RFuel => False
      end).
    { intros Hn. specialize (IH b1 ltac:(lia)). destruct (io_poll_next fuel now b1) as [r b2]. destruct IH as [Hl IH]. split; [lia|].
      destruct r as [[x|]| |e| |]; try done.
      - destruct IH as [Hx ?]. split; [by apply (gives_app _ _ _ _ _ Hn Hx)|lia].
      - destruct IH as (s & Hs & He). exists s. split; [by apply (gives_app _ _ _ _ _ Hn Hs)|done].
      - destruct IH as [IH (s & Hs & He)]. split; [by apply (gives_app _ _ _ _ _ Hn IH)|]. exists s. split; [by apply (gives_app _ _ _ _ _ Hn Hs)|done].
      - destruct IH as (x & -> & s & Hs & He). exists x. split; [done|]. exists s. split; [by apply (gives_app _ _ _ _ _ Hn Hs)|done]. }
    destruct f as [x|t|]; [done|exact (Hrest Hg)..].
  - split; [done|]. exists b. split; [constructor|]. exists now. by rewrite E.
  - split; [done|]. split; [by eapply gives_wait; [constructor|]|]. exists b. split; [constructor|]. by rewrite E.
  - split; [done|]. exists e. split; [done|]. exists b. split; [constructor|]. by rewrite E.
Qed.

(** Where a peekable stream over [b0] is, when it has handed out [l]. *)
Definition pk_at b0 (l : list bytes) p : Prop :=
  match pk_view p with
  | (None, s, false) => gives b0 l s
  | (Some (Ok x), s, false) => gives b0 (l ++ [x]) s
  | (None, _, true) => exists s, gives b0 l s /\ ended s
  | _ => False
  end.
Lemma pk_at_gives b0 l p : pk_at b0 l p -> exists more s, gives b0 (l ++ more) s /\ ((pk_view p).2 = true -> more = [] /\ ended s).
Proof.
  unfold pk_at. destruct (pk_view p) as [[[[x|]|] s] [|]]; cbn; try done.
  - intros Hg. by exists [x], s.
  - intros (s1 & Hg & He). exists [], s1. by rewrite app_nil_r.
  - intros Hg. exists [], s. by rewrite app_nil_r.
Qed.
Definition pk_left p : nat :=
  let '(peeked, s, _) := pk_view p in (hb_left s + match peeked with Some _ => 1 | None => 0 end)%nat.

Lemma pk_next_at fuel now b0 l p :
  pk_at b0 l p -> (pk_left p < fuel)%nat ->
  let '(r, p') := pk_poll_next fuel now p in
  (pk_left p' <= pk_left p)%nat /\
  match r with
  | RVal (Some x) => pk_at b0 (l ++ [x]) p' /\ (pk_left p' < pk_left p)%nat
  | RVal None => pk_at b0 l p' /\ exists s, gives b0 l s /\ ended s
  | RPending => pk_at b0 l p' /\ waits now b0
  | RErr e => exists x, e = into_io x /\ fails now b0 x
  | RPanic | RFuel => False
  end.
Proof.
  unfold pk_at, pk_left. intros Ha Hf. pose proof (pk_next_ok fuel now p) as Hn. destruct (pk_poll_next fuel now p) as [r p'].
  destruct (pk_view p) as [[[[x|e]|] s] [|]]; try done; cbn in Hn.
  - destruct Hn as [-> ->]. cbn. split; [lia|]. split; [done|lia].
  - destruct Hn as [-> ->]. by split; [lia|].
  - pose proof (io_next_ok fuel now s ltac:(lia)) as Hi. destruct (io_poll_next fuel now s) as [q s'].
    destruct Hn as [-> ->]. destruct Hi as [Hl Hi]. split; [lia|]. destruct q as [[x|]| |e| |]; try done.
    + destruct Hi as [Hg ?]. split; [by eapply gives_app|lia].
    + destruct Hi as (s1 & Hg & He). assert (H1 : exists s, gives b0 l s /\ ended s).
      { exists s1. split; [|done]. rewrite <- (app_nil_r l). by eapply gives_app. }
      by split.
    + destruct Hi as [Hg (s1 & Hg1 & Hw)]. split; [rewrite <- (app_nil_r l); by eapply gives_app|]. exists (l ++ []), s1. split; [by eapply gives_app|done].
    + destruct Hi as (x & -> & s1 & Hg & He). exists x. split; [done|]. exists l, s1. split; [|done]. rewrite <- (app_nil_r l). by eapply gives_app.
Qed.

Lemma pk_peek_at fuel now b0 p :
  pk_at b0 [] p -> (pk_left p < fuel)%nat ->
  let '(r, p') := pk_poll_peek fuel now p in
  match r with
  | RVal (Some _) => pk_at b0 [] p' /\ (pk_left p' <= pk_left p)%nat
  | RPending => pk_at b0 [] p' /\ (pk_left p' <= pk_left p)%nat /\ waits now b0
  | RVal None => exists s, gives b0 [] s /\ ended s
  | RErr e => (exists x, e = into_io x /\ fails now b0 x) /\ exists p'', pk_poll_next fuel now p' = (RErr e, p'')
  | RPanic | RFuel => False
  end.
Proof.
  unfold pk_at, pk_left. intros Ha Hf. pose proof (pk_peek_ok fuel now p) as Hn. destruct (pk_poll_peek fuel now p) as [r p'].
  destruct (pk_view p) as [[[[x|e]|] s] [|]]; try done; cbn in Hn.
  - destruct Hn as [-> ->]. cbn. by split; [|lia].
  - by destruct Hn as [-> _].
  - pose proof (io_next_ok fuel now s ltac:(lia)) as Hi. destruct (io_poll_next fuel now s) as [q s'].
    destruct Hn as [-> Hv]. destruct Hi as [Hl Hi]. destruct q as [[x|]| |e| |]; try done; rewrite ?Hv; cbn -[hb_left].
    + destruct Hi as [Hg ?]. split; [by apply (gives_app _ _ _ _ _ Ha Hg)|lia].
    + destruct Hi as (s1 & Hg & He). exists s1. split; [by apply (gives_app _ _ _ _ _ Ha Hg)|done].
    + destruct Hi as [Hg (s1 & Hg1 & Hw)]. split; [by apply (gives_app _ _ _ _ _ Ha Hg)|]. split; [lia|]. exists [], s1. split; [by apply (gives_app _ _ _ _ _ Ha Hg1)|done].
    + destruct Hi as (x & -> & s1 & Hg & He). split; [exists x; split; [done|]; exists [], s1; split; [|done]; by apply (gives_app _ _ _ _ _ Ha Hg)|].
      pose proof (pk_next_ok fuel now p') as Hn. rewrite Hv in Hn. cbn in Hn. destruct (pk_poll_next fuel now p') as [r p'']. destruct Hn as [-> _]. by exists p''.
Qed.

Lemma pulls_at fuel now b0 p got stop p' :
  pulls fuel now p got stop p' -> forall l, pk_at b0 l p -> (pk_left p < fuel)%nat ->
  match stop with
  | RVal _ => pk_at b0 (l ++ got) p' /\ (pk_left p' <= pk_left p)%nat
  | RPending => pk_at b0 (l ++ got) p' /\ (pk_left p' <= pk_left p)%nat /\ waits now b0
  | RErr e => exists x, e = into_io x /\ fails now b0 x
  | RPanic | RFuel => False
  end.
Proof.
  induction 1 as [p|p x p1 got r p2 E _ IH|p p1 got r p2 E _ IH|p p1 E|p e p1 E|p p1 E|p p1 E]; intros l Ha Hf.
  1: { by rewrite app_nil_r. }
  all: pose proof (pk_next_at fuel now b0 l p Ha Hf) as Hn; rewrite E in Hn; destruct Hn as [Hl Hn].
  - destruct Hn as [Hn ?]. specialize (IH (l ++ [x]) Hn ltac:(lia)). rewrite <- app_assoc in IH. cbn in IH.
    destruct r; try done; [destruct IH; split; [done|lia]|destruct IH as (? & ? & ?); split_and!; [done|lia|done]].
  - destruct Hn as [Hn _]. specialize (IH l Hn ltac:(lia)).
    destruct r; try done; [destruct IH; split; [done|lia]|destruct IH as (? & ? & ?); split_and!; [done|lia|done]].
  - rewrite app_nil_r. destruct Hn. by split_and!.
  - done.
  - done.
  - done.
Qed.

(** ** The decoder *)

Lemma concat_nonempty (l : list bytes) : concat (nonempty l) = concat l.
Proof. unfold nonempty. induction l as [|[|x t] l IH]; [done|exact IH|]. cbn [List.filter concat]. by rewrite IH. Qed.
Lemma nonempty_app (l1 l2 : list bytes) : nonempty (l1 ++ l2) = nonempty l1 ++ nonempty l2.
Proof. apply List.filter_app. Qed.

(** A body that gave [cs] is the compression of [out]: of one member, or for zstd of
    one frame or more. *)
Definition several (ty : DecoderType) : bool := match ty with TZstd => true | _ => false end.
Definition decompressed (ty : DecoderType) (cs : list bytes) (out : bytes) : Prop := unpacks (unpack ty) (several ty) cs out.

Lemma unpacks_nonempty member m cs cs' out : nonempty cs = nonempty cs' -> unpacks member m cs out -> unpacks member m cs' out.
Proof.
  intros E (packed & outs & rest & Hc & H). exists packed, outs, rest. by rewrite <- (concat_nonempty cs'), <- E, concat_nonempty.
Qed.

(** How an error of the body looks to the user. *)
Definition reported (x : BoxError Url) (e : Error Url) : Prop := e = decode x \/ e = decode_io (into_io x).
(** The body has data that begins no compressed text, or has ended and is none. *)
Definition spoiled b0 (ty : DecoderType) : Prop :=
  exists cs s, gives b0 cs s /\ forall more out, (ended s -> more = []) -> ~ decompressed ty (cs ++ more) out.
(** More data follows what was decompressed. *)
Definition surplus b0 (ty : DecoderType) (out : bytes) : Prop :=
  exists cs x more s, gives b0 (cs ++ x :: more) s /\ x <> [] /\ decompressed ty cs out.
(** The errors there are: the body's own, passed on; or, for compressed data only,
    decoding errors for good reasons. *)
Definition error_ok now b0 (ty : option DecoderType) (out : bytes) (e : Error Url) : Prop :=
  (exists x, fails now b0 x /\ e = match ty with None => decode x | Some _ => decode_io (into_io x) end) \/
  is_decode e = true /\ exists t, ty = Some t /\ (spoiled b0 t \/ surplus b0 t out).

Definition codec_at b0 ty out (c : D) : Prop :=
  codec_type c = ty /\ codec_several c = several ty /\ codec_failed c = false /\ codec_given c = out /\
  (pk_left (codec_stream c) <= hb_left b0)%nat /\
  exists cs, nonempty cs = nonempty (codec_taken c) /\ pk_at b0 cs (codec_stream c).

(** A poll of the decoder over [b0] that has given [out]; [at_end] and [at_out] say
    what holds at the end and of the state. *)
Definition outcome {T} now b0 ty (out : bytes) (at_end : Prop) (at_out : bytes -> T -> Prop)
    (o : poll_res (Error Url) (option (BodyFrame bytes HeaderMap)) * T) : Prop :=
  match o.1 with
  | RVal (Some f) => at_out (out ++ match f with DataFrame x => x | _ => [] end) o.2
  | RVal None => at_end
  | RPending => at_out out o.2 /\ waits now b0
  | RErr e => error_ok now b0 ty out e
  | RPanic | RFuel => False
  end.

Lemma should_be_empty_ok fuel now b0 ty out p cs :
  pk_at b0 cs p -> (forall cs', nonempty cs' = nonempty cs -> decompressed ty cs' out) -> (pk_left p < fuel)%nat ->
  let '(r, p') := poll_inner_should_be_empty fuel now p in
  match r with
  | RVal None => exists cs' s, nonempty cs' = nonempty cs /\ gives b0 cs' s /\ ended s
  | RPending => (pk_left p' <= pk_left p)%nat /\ waits now b0 /\ exists cs', nonempty cs' = nonempty cs /\ pk_at b0 cs' p'
  | RErr e => error_ok now b0 (Some ty) out e
  | _ => False
  end.
Proof.
  revert p cs. induction fuel as [|n IH]; intros p cs Ha Hd Hf; [lia|]. cbn [poll_inner_should_be_empty].
  pose proof (pk_next_at (S n) now b0 cs p Ha Hf) as Hn. destruct (pk_poll_next (S n) now p) as [r p1]. destruct Hn as [Hl Hn].
  destruct r as [[[|y x]|]| |e| |]; try done.
  - destruct Hn as [Hn ?]. specialize (IH p1 (cs ++ [[]]) Hn). rewrite nonempty_app in IH. cbn in IH. rewrite app_nil_r in IH. specialize (IH Hd ltac:(lia)).
    destruct (poll_inner_should_be_empty n now p1) as [[[?|]| |?| |] p2]; try done. destruct IH as (? & ? & ?). split_and!; [lia|done..].
  - right. split; [done|]. exists ty. split; [done|]. right. destruct Hn as [(more & s & Hg & _)%pk_at_gives _].
    rewrite <- app_assoc in Hg. exists cs, (y :: x), more, s. split_and!; [done..|]. by apply Hd.
  - destruct Hn as [_ (s & Hg & He)]. by exists cs, s.
  - destruct Hn. split_and!; [done..|]. by exists cs.
  - destruct Hn as (x & -> & Hx). left. by exists x.
Qed.

Lemma codec_poll_frame_ok fuel now b0 ty out c :
  codec_at b0 ty out c -> (S (hb_left b0) < fuel)%nat ->
  outcome now b0 (Some ty) out (exists cs s, gives b0 cs s /\ ended s /\ decompressed ty cs out) (codec_at b0 ty) (codec_poll_frame fuel now c).
Proof.
  intros (Ht & Hm & Hfl & Hg & Hle & cs & Hcs & Ha) Hf. unfold codec_poll_frame. pose proof (codec_poll_ok fuel now c) as Hp.
  destruct (codec_poll_next fuel now c) as [r c1]. destruct Hp as (Ht1 & Hm1 & got & stop & Hpl & Htk & Hr). rewrite Ht, Hm in Hr.
  pose proof (pulls_at _ _ b0 _ _ _ _ Hpl cs Ha ltac:(lia)) as Hat.
  assert (Hne : nonempty (cs ++ got) = nonempty (codec_taken c1)) by by rewrite Htk, !nonempty_app, Hcs.
  assert (Hat' : stop = RVal tt \/ stop = RPending -> pk_at b0 (cs ++ got) (codec_stream c1) /\ (pk_left (codec_stream c1) <= pk_left (codec_stream c))%nat)
    by (intros [-> | ->]; [done|]; by destruct Hat as (? & ? & _)).
  destruct r as [[x|]| |e| |]; cbn.
  - destruct Hr as (Hs & Hf1 & Hg1). destruct (Hat' Hs) as [H1 H2]. unfold outcome, codec_at. cbn [fst snd].
    split_and!; try congruence; [lia|]. by exists (cs ++ got).
  - destruct Hr as (-> & Hf1 & Hg1 & Hc). destruct Hat as [H1 H2]. specialize (Hc Hfl). rewrite Hg in Hc.
    pose proof (should_be_empty_ok fuel now b0 ty out (codec_stream c1) (cs ++ got) H1) as He.
    destruct (poll_inner_should_be_empty fuel now (codec_stream c1)) as [r p']. unfold outcome. cbn.
    assert (Hall : forall cs', nonempty cs' = nonempty (cs ++ got) -> decompressed ty cs' out).
    { intros cs' Hn. eapply unpacks_nonempty; [|exact Hc]. by rewrite Hn. }
    specialize (He Hall ltac:(lia)). destruct r as [[?|]| |e| |]; try done.
    + destruct He as (cs' & s & Hn & Hgs & Hend). exists cs', s. auto.
    + destruct He as (Hl2 & Hw & cs' & Hn & Hp'). destruct (codec_set_ok p' c1) as (S1 & S2 & S3 & S4 & S5 & S6). unfold codec_at. rewrite S1, S2, S3, S4, S5, S6.
      split; [|done]. split_and!; try congruence; [lia|]. exists cs'. by rewrite Hn.
  - destruct Hr as (-> & Hf1 & Hg1). destruct Hat as (H1 & H2 & Hw). unfold outcome, codec_at. cbn [fst snd].
    split; [|done]. split_and!; try congruence; [lia|]. by exists (cs ++ got).
  - unfold outcome. cbn. destruct Hr as [->|(Hs & Hfe & Hbad)].
    + destruct Hat as (x & -> & Hx). left. by exists x.
    + right. split; [by destruct e as [k [[]|]]|]. exists ty. split; [done|]. left. destruct (Hat' Hs) as [(more & s & Hgs & Hend)%pk_at_gives _].
      exists ((cs ++ got) ++ more), s. split; [done|]. intros more' out' Hm' Hd. apply (Hbad Hfl (more ++ more') out').
      { intros Hdone. destruct (Hend Hdone) as [-> He]. by rewrite (Hm' He). }
      eapply unpacks_nonempty; [|exact Hd]. by rewrite <- app_assoc, !(nonempty_app _ (more ++ more')), Hne.
  - by subst stop.
  - by subst stop.
Qed.

(** A decoder over [b0] that has given [out], for a plain body ([None]) or a
    compressed one. *)
Definition dec_at b0 (ty : option DecoderType) (out : bytes) (i : Inner Bs P D) : Prop :=
  match ty with
  | None => match i with PlainText b => exists cs, gives b0 cs b /\ out = concat cs | _ => False end
  | Some ty =>
      match i with
      | PlainText b => b = RbEmpty /\ out = [] /\ exists s, gives b0 [] s /\ ended s
      | Gzip c => ty = TGzip /\ codec_at b0 ty out c
      | Brotli c => ty = TBrotli /\ codec_at b0 ty out c
      | Zstd c => ty = TZstd /\ codec_at b0 ty out c
      | Deflate c => ty = TDeflate /\ codec_at b0 ty out c
      | Pending p ty' => ty' = ty /\ out = [] /\ pk_at b0 [] p /\ (pk_left p <= hb_left b0)%nat
      end
  end.

(** What the body was when the decoder says that it is over. *)
Definition whole b0 (ty : option DecoderType) (out : bytes) : Prop :=
  exists cs s, gives b0 cs s /\ ended s /\
    match ty with
    | None => out = concat cs
    | Some ty => cs = [] /\ out = [] \/ decompressed ty cs out
    end.

Lemma outcome_codec now b0 ty out (mk : D -> Inner Bs P D) o :
  (forall out' c, codec_at b0 ty out' c -> dec_at b0 (Some ty) out' (mk c)) ->
  outcome now b0 (Some ty) out (exists cs s, gives b0 cs s /\ ended s /\ decompressed ty cs out) (codec_at b0 ty) o ->
  outcome now b0 (Some ty) out (whole b0 (Some ty) out) (dec_at b0 (Some ty)) (let '(r, c) := o in (r, mk c)).
Proof.
  intros Hm. destruct o as [[[f|]| |e| |] c]; unfold outcome; cbn [fst snd]; [apply Hm| |by intros [? ?]; split; [apply Hm|]|done..].
  intros (cs & s & Hg & He & Hd). exists cs, s. auto.
Qed.

Lemma ready_ok fuel now b0 ty out i :
  dec_at b0 ty out i -> (forall p t, i <> Pending p t) -> (S (hb_left b0) < fuel)%nat ->
  outcome now b0 ty out (whole b0 ty out) (dec_at b0 ty) (ready_poll_frame fuel now i).
Proof.
  intros Hd Hn Hf. destruct ty as [ty|].
  - destruct i as [b|c|c|c|c|p t]; [|destruct Hd as [-> Hc]; eapply outcome_codec; [|by apply codec_poll_frame_ok]; intros; by split..|by destruct (Hn p t eq_refl)].
    destruct Hd as (-> & -> & s & Hg & He). unfold outcome, whole. cbn. exists [], s. auto.
  - destruct i as [b|c|c|c|c|p t]; try done. destruct Hd as (cs & Hg & ->). unfold outcome. cbn -[hb_poll_frame].
    pose proof (hb_frame_ok now b) as Ho. destruct (hb_poll_frame now b) as [r b1] eqn:E. destruct Ho as (Hp & Hq & _).
    destruct r as [[f|]| |e| |]; cbn; try done.
    + eexists. split; [by eapply gives_step|]. rewrite concat_app. f_equal. by destruct f; cbn; rewrite ?app_nil_r.
    + exists cs, b. split; [done|]. split; [|done]. exists now. by rewrite E.
    + split; [exists cs; split; [by eapply gives_wait|done]|]. exists cs, b. by rewrite E.
    + left. exists e. split; [|done]. exists cs, b. by rewrite E.
Qed.

Lemma pending_ok fuel now b0 ty p :
  pk_at b0 [] p -> (pk_left p <= hb_left b0)%nat -> (S (hb_left b0) < fuel)%nat ->
  match pending_poll fuel now p ty with
  | (RVal i, _) => dec_at b0 (Some ty) [] i /\ forall p t, i <> Pending p t
  | (RPending, p') => (pk_at b0 [] p' /\ (pk_left p' <= hb_left b0)%nat) /\ waits now b0
  | (RErr e, _) => exists x, e = into_io x /\ fails now b0 x
  | (RPanic, _) | (RFuel, _) => False
  end.
Proof.
  intros Ha Hl Hf. unfold pending_poll. pose proof (pk_peek_at fuel now b0 p Ha ltac:(lia)) as Hp.
  destruct (pk_poll_peek fuel now p) as [[[x|]| |e| |] p1]; try done.
  - destruct Hp as [Hp Hl1].
    assert (Hc : forall m, m = several ty -> codec_at b0 ty [] (codec_new ty m p1)).
    { intros m Hm. destruct (codec_new_ok ty m p1) as (C1 & C2 & C3 & C4 & C5 & C6). unfold codec_at. rewrite C1, C2, C3, C4, C5, C6.
      split_and!; try done; [lia|]. by exists []. }
    destruct ty; (split; [split; [done|by apply Hc]|done]).
  - destruct Hp as (? & ? & ?). split; [split; [done|lia]|done].
  - destruct Hp as [Hx [p'' ->]]. done.
Qed.

Lemma decoder_ok fuel now b0 ty out d :
  dec_at b0 ty out (inner d) -> (S (hb_left b0) < fuel)%nat ->
  outcome now b0 ty out (whole b0 ty out) (fun o d' => dec_at b0 ty o (inner d')) (decoder_poll_frame fuel now d).
Proof.
  intros Hd Hf. unfold decoder_poll_frame.
  assert (Hr : forall i, dec_at b0 ty out i -> (forall p t, i <> Pending p t) ->
    outcome now b0 ty out (whole b0 ty out) (fun o d' => dec_at b0 ty o (inner d')) (let '(r, i) := ready_poll_frame fuel now i in (r, mkDecoder i))).
  { intros i Hi Hn. pose proof (ready_ok fuel now b0 ty out i Hi Hn Hf) as Ho. unfold outcome in *. by destruct (ready_poll_frame fuel now i) as [[[f|]| |e| |] i']. }
  destruct (inner d) as [b|c|c|c|c|p t] eqn:Ei; [by apply Hr..|].
  destruct ty as [ty|]; [|done]. destruct Hd as (-> & -> & Ha & Hl). pose proof (pending_ok fuel now b0 ty p Ha Hl Hf) as Hp.
  destruct (pending_poll fuel now p ty) as [[i| |e| |] p1]; unfold outcome; cbn; try done.
  - apply Hr; apply Hp.
  - destruct Hp as [[? ?] ?]. by split.
  - left. destruct Hp as (x & -> & Hx). by exists x.
Qed.

(** ** From the headers to the body *)

(** What the headers and the settings ask for: the first of the encodings that is
    compiled in, turned on and named, unless the declared length is zero. *)
Definition coded (h : HeaderMap) (enc : string) : bool :=
  bool_decide (bs enc ∈ hm_get_all CONTENT_ENCODING h \/ bs enc ∈ hm_get_all TRANSFER_ENCODING h) &&
  negb (bool_decide (hm_get CONTENT_LENGTH h = Some (bs "0"))).
Definition encoding_of (feature accepts : Accepts) (h : HeaderMap) : option DecoderType :=
  snd <$> find (fun '(on, enc, _) => on && coded h enc)
    [(a_gzip feature && a_gzip accepts, "gzip", TGzip); (a_brotli feature && a_brotli accepts, "br", TBrotli);
     (a_zstd feature && a_zstd accepts, "zstd", TZstd); (a_deflate feature && a_deflate accepts, "deflate", TDeflate)]%string.

Lemma detect_encoding_spec enc h :
  detect_encoding (bs enc) h = (coded h enc, if coded h enc then hm_remove CONTENT_LENGTH (hm_remove CONTENT_ENCODING h) else h).
Proof.
  unfold detect_encoding, coded.
  assert (He : forall l, existsb (fun x => bool_decide (x = bs enc)) l = bool_decide (bs enc ∈ l)).
  { intros l. apply eq_true_iff_eq. rewrite existsb_exists, bool_decide_eq_true. split.
    - intros (x & Hx & E). apply bool_decide_eq_true in E as ->. by apply list_elem_of_In.
    - intros Hx. exists (bs enc). split; [by apply list_elem_of_In|]. by apply bool_decide_eq_true. }
  rewrite !He, <- bool_decide_or. destruct (bool_decide (_ \/ _)); [|done].
  destruct (hm_get CONTENT_LENGTH h) as [l|]; [|by rewrite bool_decide_false]. cbn [andb].
  rewrite (bool_decide_ext (Some l = Some (bs "0")) (l = bs "0")) by naive_solver. by destruct (bool_decide _).
Qed.

Lemma try_encoding_spec on enc ty rest b (next : HeaderMap -> Decoder Bs P D * HeaderMap) h :
  let after t := match t with Some ty => hm_remove CONTENT_LENGTH (hm_remove CONTENT_ENCODING h) | None => h end in
  let dec t := mkDecoder match t with Some ty => Pending (pk_new b) ty | None => PlainText b end in
  next h = (dec (snd <$> find (fun '(on, enc, _) => on && coded h enc) rest), after (snd <$> find (fun '(on, enc, _) => on && coded h enc) rest)) ->
  try_encoding on enc (fun b => mkDecoder (Pending (pk_new b) ty)) b next h =
  (dec (snd <$> find (fun '(on, enc, _) => on && coded h enc) ((on, enc, ty) :: rest)),
   after (snd <$> find (fun '(on, enc, _) => on && coded h enc) ((on, enc, ty) :: rest))).
Proof.
  intros after dec Hn. unfold try_encoding. cbn [find]. destruct on; [|done]. rewrite detect_encoding_spec. cbn [andb].
  by destruct (coded h enc).
Qed.

Lemma detect_spec feature b accepts h :
  detect feature b accepts h =
  (mkDecoder match encoding_of feature accepts h with Some ty => Pending (pk_new b) ty | None => PlainText b end,
   match encoding_of feature accepts h with Some _ => hm_remove CONTENT_LENGTH (hm_remove CONTENT_ENCODING h) | None => h end).
Proof. unfold detect, encoding_of. by repeat apply try_encoding_spec. Qed.

(** Polls of a decoder that did not fail, and the data they gave. *)
Inductive runs (fuel : nat) (d0 : Decoder Bs P D) : bytes -> Decoder Bs P D -> Prop :=
| rn_start : runs fuel d0 [] d0
| rn_frame now out d f d' :
    runs fuel d0 out d -> decoder_poll_frame fuel now d = (RVal (Some f), d') ->
    runs fuel d0 (out ++ match f with DataFrame x => x | _ => [] end) d'
| rn_pending now out d d' : runs fuel d0 out d -> decoder_poll_frame fuel now d = (RPending, d') -> runs fuel d0 out d'.

Lemma runs_at fuel b0 ty d0 out d :
  dec_at b0 ty [] (inner d0) -> (S (hb_left b0) < fuel)%nat -> runs fuel d0 out d -> dec_at b0 ty out (inner d).
Proof.
  intros H0 Hf. induction 1 as [|now out d f d' _ IH E|now out d d' _ IH E]; [done|..];
    pose proof (decoder_ok fuel now b0 ty out d IH Hf) as Ho; rewrite E in Ho; apply Ho.
Qed.

Section Response.
Context {Ext : Type}.
Implicit Types (parts : Parts (Ext := Ext)) (body : Bs).

(** C28. A response's body reaches the user whole and decoded once.  The headers choose
    the decoder, the first encoding that is compiled in, enabled and named by
    Content-Encoding or Transfer-Encoding, none if the declared length is 0; only
    then do Content-Encoding and Content-Length disappear, so that a response which
    names an encoding and declares the length 0 keeps both.  Whenever the end is
    reported the core's body has ended, and what was delivered is all of its data, or
    what its data is the compression of, nothing if it had none: for zstd of one
    frame after the other, up to the last byte; for gzip, brotli and deflate of one
    member, where bytes after it pass unnoticed only within its last chunk.  Before
    the end a plain body has delivered just what the core's body gave.  A poll is
    pending only if the core's body is.  An error is that of the core's body, passed
    on; or a decoding error, of a compressed body only, and then its data is spoiled
    or goes on after what was decompressed.  A poll returns and does not panic. *)
Theorem decoded_body feature parts body url accepts total read fuel now out d :
  (S (hb_left body) < fuel)%nat ->
  runs fuel (r_body (response_new feature parts body url accepts total read)) out d ->
  let ty := encoding_of feature accepts (p_headers parts) in
  r_headers (response_new feature parts body url accepts total read) =
    match ty with Some _ => hm_remove CONTENT_LENGTH (hm_remove CONTENT_ENCODING (p_headers parts)) | None => p_headers parts end /\
  match (decoder_poll_frame fuel now d).1 with
  | RVal (Some f) =>
      ty = None -> exists cs s, gives (response body total read) cs s /\ out ++ match f with DataFrame x => x | _ => [] end = concat cs
  | RVal None => whole (response body total read) ty out
  | RPending => waits now (response body total read)
  | RErr e => error_ok now (response body total read) ty out e
  | RPanic | RFuel => False
  end.
Proof.
  intros Hf. unfold response_new. rewrite detect_spec. cbn [r_body r_headers r_parts set_headers p_headers]. intros Hr. split; [done|].
  set (ty := encoding_of _ _ _) in *. set (b0 := response body total read) in *.
  assert (Hf0 : (S (hb_left b0) < fuel)%nat) by (unfold b0; by rewrite left_response).
  apply (runs_at fuel b0 ty) in Hr; [|clear Hr|done].
  - clearbody ty. pose proof (decoder_ok fuel now b0 ty out d Hr Hf0) as Ho. unfold outcome in Ho.
    destruct (decoder_poll_frame fuel now d) as [[[f|]| |e| |] d']; try done; cbn in *; [|apply Ho].
    intros ->. unfold dec_at in Ho. destruct (inner d') as [b|c|c|c|c|p t]; try done. destruct Ho as (cs & Hg & Hc). by exists cs, b.
  - destruct ty as [ty|]; cbn.
    + split; [done|]. split; [done|]. unfold pk_at, pk_left. rewrite pk_new_view. cbn. split; [constructor|]. by rewrite Nat.add_0_r.
    + exists []. split; [constructor|done].
Qed.
End Response.
End Decoded.

(** A client that was told not to decompress announces every encoding of its build
    all the same, and then leaves the responses as they come. *)
Lemma disabled_encoding_announced `{HC : HttpCrate} feature accepts (h : HeaderMap) :
  as_str feature accepts = as_str feature accepts_default /\ encoding_of feature accepts_none h = None.
Proof. split; [done|]. unfold encoding_of. cbn -[coded]. by rewrite !andb_false_r. Qed.

(** ** Timeouts *)

Section Timeouts.
Context `{HC : HttpCrate} {Url : Type} {Bs : Type} {hb : HttpBody (Url := Url) Bs}.
Context (body : Bs) (total read : option Z).

(** The response body around [i], with the sleep of the read timeout. *)
Definition wrapped (i : Bs) (sleep : option Z) : ResponseBody Bs :=
  match total, read with
  | Some t, Some r => RbBoth (mkTotal (mkRead i sleep r) t)
  | Some t, None => RbTotal (mkTotal i t)
  | None, Some r => RbRead (mkRead i sleep r)
  | None, None => RbPlain i
  end.

(** The life of a body: what it has given, and when the wait for the next frame
    began, if it did. *)
Inductive life : list bytes -> option Z -> ResponseBody Bs -> Prop :=
| lf_start : life [] None (response body total read)
| lf_frame l since x now f x' :
    life l since x -> hb_poll_frame now x = (RVal (Some f), x') ->
    life (l ++ match f with DataFrame y => [y] | _ => [] end) None x'
| lf_pending l since x now x' :
    life l since x -> hb_poll_frame now x = (RPending, x') -> life l (Some (default now since)) x'.

(** The request's deadline has passed, or the wait has lasted for the read timeout. *)
Definition late (since : option Z) (now : Z) : Prop :=
  (exists t, total = Some t /\ t <= now) \/ (exists r, read = Some r /\ default now since + r <= now).

(** However it is reported, it is a timeout. *)
Definition times_out (x : BoxError Url) : Prop := forall e, reported x e -> is_timeout e = true.

Lemma timed_out_reported : times_out (body_error BTimedOut) /\ times_out (body_error (body_error BTimedOut)).
Proof. split; intros e [->| ->]; done. Qed.

(** What a poll makes of the answer [q] of the core's body. *)
Definition passed_on (q r : poll_res (BoxError Url) (option (BodyFrame bytes HeaderMap))) : Prop :=
  match q with RErr e => exists e', r = RErr e' | _ => r = q end.

Lemma wrapped_poll i since now :
  let '(r, x') := hb_poll_frame now (wrapped i (match since, read with Some s, Some t => Some (s + t) | _, _ => None end)) in
  (late since now -> exists e, r = RErr e /\ times_out e) /\
  (~ late since now -> passed_on (hb_poll_frame now i).1 r /\
     (forall f, r = RVal (Some f) -> x' = wrapped (hb_poll_frame now i).2 None) /\
     (r = RPending -> x' = wrapped (hb_poll_frame now i).2 (match read with Some t => Some (default now since + t) | None => None end))).
Proof.
  destruct timed_out_reported as [T1 T2]. unfold wrapped, late.
  assert (Hs : forall t, match (match since with Some s => Some (s + t) | None => None end) with Some s => s | None => now + t end = default now since + t)
    by by destruct since.
  destruct total as [t|], read as [u|]; cbn -[Z.leb]; unfold total_poll_frame; cbn -[Z.leb]; unfold read_poll_frame; cbn -[Z.leb]; rewrite ?Hs;
    destruct (hb_poll_frame now i) as [[[f|]| |e| |] i']; cbn -[Z.leb];
    repeat match goal with |- context [?a <=? ?b] => destruct (Z.leb_spec a b) end; cbn;
    (split; [intros H1|intros H1; try (exfalso; apply H1; by eauto)]);
    try (by eexists); try (destruct H1 as [(? & [=] & ?)|(? & [=] & ?)]; simplify_eq; lia); naive_solver.
Qed.

Lemma body_life_inv l since x : life l since x ->
  exists i, gives body l i /\ x = wrapped i (match since, read with Some s, Some t => Some (s + t) | _, _ => None end).
Proof.
  induction 1 as [|l since x now f x' _ (i & Hg & ->) E|l since x now x' _ (i & Hg & ->) E].
  - exists body. split; [constructor|]. unfold wrapped. by destruct total, read.
  - pose proof (wrapped_poll i since now) as Hw. rewrite E in Hw. destruct Hw as [Hl Hn].
    assert (Hnl : ~ late since now) by (intros Hy; by destruct (Hl Hy) as (? & [=] & _)).
    destruct (Hn Hnl) as (Hp & Hf & _). rewrite (Hf f eq_refl). destruct (hb_poll_frame now i) as [q i'] eqn:Ei. cbn in *.
    exists i'. split; [|done]. unfold passed_on in Hp. destruct q; destruct_and?; try done; [|by destruct Hp]. simplify_eq. by eapply gives_step.
  - pose proof (wrapped_poll i since now) as Hw. rewrite E in Hw. destruct Hw as [Hl Hn].
    assert (Hnl : ~ late since now) by (intros Hy; by destruct (Hl Hy) as (? & [=] & _)).
    destruct (Hn Hnl) as (Hp & _ & Hx). rewrite (Hx eq_refl). destruct (hb_poll_frame now i) as [q i'] eqn:Ei. cbn in *.
    exists i'. split; [|by destruct read]. unfold passed_on in Hp. destruct q; try done; [|by destruct Hp]. by eapply gives_wait.
Qed.

(** C29. The timeouts of a request hold for its response's body.  Over any polls the
    body within them has given just the data of the core's body.  From the deadline
    on, and once a wait for a frame has lasted for the read timeout, counted from its
    first poll, every poll fails, and the error the user gets is a timeout, plain or
    through a decompressor; before that a poll answers as the core's body does. *)
Theorem body_timeouts l since x now :
  life l since x ->
  exists i, gives body l i /\
    let r := (hb_poll_frame now x).1 in
    (late since now -> exists e, r = RErr e /\ times_out e) /\
    (~ late since now -> passed_on (hb_poll_frame now i).1 r).
Proof.
  intros (i & Hg & ->)%body_life_inv. exists i. split; [done|]. pose proof (wrapped_poll i since now) as Hw.
  destruct (hb_poll_frame now (wrapped i _)) as [r x']. destruct Hw as [Hl Hn]. split; [done|]. intros H1. by apply Hn.
Qed.
End Timeouts.

(** ** An instance of the interfaces *)

Module RefResponse.
Import RefHttp.

(** A body that is a script, errors carry no URL. *)
Inductive Step := SFrame (f : BodyFrame bytes HeaderMap) | SPend | SFail (e : BoxError unit).
#[export] Instance script : HttpBody (Url := unit) (list Step) := {|
  hb_poll_frame _ l :=
    match l with
    | [] => (RVal None, [])
    | SFrame f :: l => (RVal (Some f), l)
    | SPend :: l => (RPending, l)
    | SFail e :: l => (RErr e, l)
    end;
  hb_size_hint _ := None;
  hb_is_end_stream l := bool_decide (length l = 0%nat)
|}.
#[export] Instance script_laws : HttpBodyLaws (Url := unit) (list Step).
Proof. refine {| hb_left := length |}. intros now [|[] l]; cbn; repeat split; (done || lia). Defined.

Abbreviation Body := (ResponseBody (list Step)).
Abbreviation Peek := (option (result bytes (IoErr unit)) * Body * bool)%type.

(** A member is a count and as many bytes. *)
Definition unpack_ref (l : bytes) : option bytes :=
  match l with n :: l => if len l =? n then Some l else None | [] => None end.
(** Members, one after the other. *)
Fixpoint unpack_all (k : nat) (l : bytes) : option (list (bytes * bytes)) :=
  match k, l with
  | _, [] => Some []
  | O, _ => None
  | Datatypes.S k, n :: l =>
      if len (ztake n l) =? n then r ← unpack_all k (zdrop n l); Some ((n :: ztake n l, ztake n l) :: r) else None
  end.
Definition all_members (taken : list bytes) : option (list (bytes * bytes)) := unpack_all (length (concat taken)) (concat taken).
Record Ref := mkRef {
  rf_type : DecoderType; rf_several : bool; rf_taken : list bytes; rf_given : bytes; rf_failed : bool; rf_stream : Peek
}.
Definition set_ref (taken : list bytes) (given : bytes) (failed : bool) (p : Peek) (d : Ref) : Ref :=
  mkRef (rf_type d) (rf_several d) taken given failed p.

Definition peek_next (fuel : nat) (now : Z) (p : Peek) : poll_res (IoErr unit) (option bytes) * Peek :=
  match p with
  | (Some i, s, done) => (of_item i, (None, s, done))
  | (None, s, true) => (RVal None, p)
  | (None, s, false) =>
      let '(q, s) := io_poll_next fuel now s in (q, (None, s, match q with RVal None => true | _ => false end))
  end.
Definition peek_peek (fuel : nat) (now : Z) (p : Peek) : poll_res (IoErr unit) (option bytes) * Peek :=
  match p with
  | (Some i, s, done) => (of_item i, p)
  | (None, s, true) => (RVal None, p)
  | (None, s, false) =>
      let '(q, s) := io_poll_next fuel now s in (q, (item_of q, s, match q with RVal None => true | _ => false end))
  end.

(** The one member is taken, with what follows it in its last chunk; it is given. *)
Definition ref_whole (taken : list bytes) : bool :=
  match concat taken with
  | [] => false
  | n :: l =>
      bool_decide (len (ztake n l) = n) &&
      match last (nonempty taken) with
      | Some x => (length (zdrop n l) <=? length x)%nat
      | None => false
      end
  end.
Definition ref_finished (d : Ref) : bool :=
  ref_whole (rf_taken d) && match concat (rf_taken d) with [] => false | n :: l => bool_decide (rf_given d = ztake n l) end.
(** All members, of which there are some, are taken and given. *)
Definition ref_all_finished (d : Ref) : bool :=
  match all_members (rf_taken d) with
  | Some ((_ :: _) as ms) => bool_decide (rf_given d = concat (snd <$> ms))
  | _ => false
  end.
Definition payload (taken : list bytes) : bytes :=
  match concat taken with n :: l => if n <=? len l then ztake n l else [] | [] => [] end.

Definition ref_poll (fuel : nat) (now : Z) (d : Ref) : poll_res (IoErr unit) (option bytes) * Ref :=
  if negb (rf_several d) && ref_finished d then (RVal None, d)
  else
    match peek_next fuel now (rf_stream d) with
    | (RVal (Some x), p) =>
        let taken := rf_taken d ++ [x] in
        let out := if rf_several d then [] else match rf_given d with [] => payload taken | _ => [] end in
        (RVal (Some out), set_ref taken (rf_given d ++ out) (rf_failed d) p d)
    | (RVal None, p) =>
        let bad := (RErr (IoError UnexpectedEof "", None), set_ref (rf_taken d) (rf_given d) true p d) in
        if rf_several d then
          if ref_all_finished d then (RVal None, set_ref (rf_taken d) (rf_given d) (rf_failed d) p d)
          else
            match all_members (rf_taken d), rf_given d with
            | Some ((_ :: _) as ms), [] =>
                (RVal (Some (concat (snd <$> ms))), set_ref (rf_taken d) (concat (snd <$> ms)) (rf_failed d) p d)
            | Some (_ :: _), _ => (RVal (Some []), set_ref (rf_taken d) (rf_given d ++ []) (rf_failed d) p d)
            | _, _ => bad
            end
        else if ref_whole (rf_taken d) then (RVal (Some []), set_ref (rf_taken d) (rf_given d ++ []) (rf_failed d) p d)
        else bad
    | (RErr e, p) => (RErr e, set_ref (rf_taken d) (rf_given d) true p d)
    | (RPending, p) => (RPending, set_ref (rf_taken d) (rf_given d) (rf_failed d) p d)
    | (RPanic, p) => (RPanic, set_ref (rf_taken d) (rf_given d) (rf_failed d) p d)
    | (RFuel, p) => (RFuel, set_ref (rf_taken d) (rf_given d) (rf_failed d) p d)
    end.

#[export] Instance ref_codecs : Codecs (Url := unit) (Bs := list Step) Peek Ref := {|
  pk_new b := (None, b, false);
  pk_poll_peek := peek_peek;
  pk_poll_next := peek_next;
  codec_new ty m p := mkRef ty m [] [] false p;
  codec_poll_next := ref_poll;
  codec_stream := rf_stream;
  codec_set_stream p d := set_ref (rf_taken d) (rf_given d) (rf_failed d) p d
|}.

Lemma suffix_of_last (x y : bytes) (l : list bytes) rest :
  concat (l ++ [x]) = y ++ rest -> (length rest <= length x)%nat -> rest `suffix_of` x.
Proof.
  rewrite concat_app. cbn. rewrite app_nil_r. intros E Hl.
  destruct (suffix_weak_total rest x (concat l ++ x)) as [|[k Hk]]; [by exists y|by exists (concat l)|done|].
  subst rest. rewrite length_app in Hl. destruct k; [done|cbn in Hl; lia].
Qed.

Lemma ref_finished_spec d : ref_finished d = true -> unpacks unpack_ref false (rf_taken d) (rf_given d).
Proof.
  unfold ref_finished, ref_whole. destruct (concat (rf_taken d)) as [|n l] eqn:E; [done|]. rewrite !andb_true_iff, !bool_decide_eq_true. intros [[Hn Hl] Hg].
  exists [n :: ztake n l], [ztake n l], (zdrop n l). rewrite E. cbn. split; [by rewrite app_nil_r, ztake_zdrop|].
  split; [constructor; [cbn [unpack_ref]; by rewrite Hn, Z.eqb_refl|constructor]|]. split; [by rewrite app_nil_r|]. split; [done|].
  destruct (last (nonempty (rf_taken d))) as [x|] eqn:Ex; [|done]. apply last_Some in Ex as [l' El]. right. exists l', x. split; [done|].
  apply (suffix_of_last _ (n :: ztake n l) l'); [|by apply Nat.leb_le]. rewrite <- El, concat_nonempty, E. cbn. by rewrite ztake_zdrop.
Qed.

Lemma unpack_ref_inv m o : unpack_ref m = Some o -> m = len o :: o.
Proof. destruct m as [|n l]; cbn; [done|]. destruct (Z.eqb_spec (len l) n) as [<-|]; [|done]. by intros [= <-]. Qed.

(** What is compressed is recognised. *)
Lemma ref_whole_complete taken out : unpacks unpack_ref false taken out -> ref_whole taken = true.
Proof.
  intros (packed & outs & rest & E & Hf & _ & Hl & Hr). destruct packed as [|m [|]]; try done. apply Forall2_cons_inv_l in Hf as (o & outs' & Hm & _ & _).
  apply unpack_ref_inv in Hm as ->. unfold ref_whole. cbn in E. rewrite app_nil_r in E. rewrite E, ztake_app_exact, zdrop_app_exact.
  rewrite bool_decide_true by done. cbn [andb].
  destruct (last (nonempty taken)) as [x|] eqn:Ex.
  - apply Nat.leb_le. destruct Hr as [->|(l & y & El & Hs)]; [cbn; lia|]. rewrite El, last_snoc in Ex. injection Ex as ->. by apply suffix_length.
  - apply last_None in Ex. rewrite <- (concat_nonempty taken), Ex in E. done.
Qed.

Lemma unpack_all_complete packed outs k :
  Forall2 (fun m o => unpack_ref m = Some o) packed outs -> (length (concat packed) <= k)%nat ->
  exists ms, unpack_all k (concat packed) = Some ms /\ length ms = length packed.
Proof.
  intros Hf. revert k. induction Hf as [|m o packed outs Hm _ IH]; intros k Hk; [exists []; by destruct k|].
  apply unpack_ref_inv in Hm as ->. cbn in Hk |- *. destruct k as [|k]; [lia|]. rewrite length_app in Hk. cbn.
  rewrite ztake_app_exact, zdrop_app_exact, Z.eqb_refl. destruct (IH k ltac:(lia)) as (ms & -> & Hl). cbn. eexists. split; [done|]. cbn. by rewrite Hl.
Qed.
Lemma all_members_complete taken out : unpacks unpack_ref true taken out -> exists m ms, all_members taken = Some (m :: ms).
Proof.
  intros (packed & outs & rest & E & Hf & _ & Hl & ->). rewrite app_nil_r in E. unfold all_members. rewrite E.
  destruct (unpack_all_complete packed outs _ Hf (le_n _)) as ([|m ms] & -> & Hs); [by destruct packed|]. by exists m, ms.
Qed.
Lemma peek_next_end fuel now p p' : peek_next fuel now p = (RVal None, p') -> p'.2 = true.
Proof.
  destruct p as [[[[x|e]|] s] [|]]; cbn; try done; [by intros [= <-]|]. by destruct (io_poll_next fuel now s) as [[[x|]| |e| |] s'] eqn:E; intros [= <-].
Qed.

Lemma unpack_all_spec k l ms : unpack_all k l = Some ms -> l = concat (fst <$> ms) /\ Forall2 (fun m o => unpack_ref m = Some o) (fst <$> ms) (snd <$> ms).
Proof.
  revert l ms. induction k as [|k IH]; intros [|n l] ms; cbn; try (intros [= <-]; by split; [|constructor]).
  destruct (Z.eqb_spec (len (ztake n l)) n) as [Hn|]; [|done]. destruct (unpack_all k (zdrop n l)) as [r|] eqn:Er; [|done]. cbn. intros [= <-].
  apply IH in Er as [Hl Hf]. cbn. split; [by rewrite <- Hl, ztake_zdrop|]. constructor; [|done]. cbn. by rewrite Hn, Z.eqb_refl.
Qed.

Lemma ref_all_finished_spec d : ref_all_finished d = true -> unpacks unpack_ref true (rf_taken d) (rf_given d).
Proof.
  unfold ref_all_finished, all_members. destruct (unpack_all _ _) as [[|m ms]|] eqn:E; try done. intros Hg%bool_decide_eq_true.
  apply unpack_all_spec in E as [Hc Hf]. exists (fst <$> m :: ms), (snd <$> m :: ms), []. rewrite app_nil_r. do 3 (split; [done|]). by split.
Qed.

#[export] Instance ref_laws : CodecsLaws.
Proof.
  refine {| pk_view := fun p : Peek => p; unpack _ := unpack_ref; codec_type := rf_type; codec_several := rf_several;
            codec_taken := rf_taken; codec_given := rf_given; codec_failed := rf_failed |}.
  - done.
  - intros fuel now [[[i|] s] [|]]; cbn; try done. by destruct (io_poll_next fuel now s).
  - intros fuel now [[[i|] s] [|]]; cbn; try done. by destruct (io_poll_next fuel now s).
  - done.
  - done.
  - intros fuel now d. cbn -[peek_next]. unfold ref_poll. destruct (negb (rf_several d) && ref_finished d) eqn:Ef.
    + apply andb_true_iff in Ef as [Em%negb_true_iff Ef]. do 2 (split; [done|]). exists [], (RVal tt). rewrite app_nil_r. split; [constructor|].
      repeat split; [done..|]. intros _. rewrite Em. by apply ref_finished_spec.
    + destruct (peek_next fuel now (rf_stream d)) as [[[x|]| |e| |] p] eqn:Ep.
      2: { assert (Hpl : pulls fuel now (rf_stream d) [] (RVal tt) p) by by eapply pl_end; [exact Ep|constructor].
           pose proof (peek_next_end _ _ _ _ Ep) as Hend.
           assert (Hbad : forall several, (forall out, ~ unpacks unpack_ref several (rf_taken d) out) -> rf_failed d = false -> forall more out,
             (p.2 = true -> more = []) -> ~ unpacks unpack_ref several (rf_taken d ++ more) out).
           { intros m Hn _ more out Hm. rewrite (Hm Hend), app_nil_r. apply Hn. }
           destruct (rf_several d) eqn:Em.
           - destruct (ref_all_finished d) eqn:Ea.
             { do 2 (split; [done|]). exists [], (RVal tt). rewrite app_nil_r. repeat split; [done..|]. intros _. exact (ref_all_finished_spec d Ea). }
             pose proof (all_members_complete (rf_taken d)) as Hall.
             destruct (all_members (rf_taken d)) as [[|m ms]|]; destruct (rf_given d) eqn:Eg; (split; [done|]); (split; [done|]);
               exists [], (RVal tt); (split; [done|]); (split; [symmetry; apply app_nil_r|]); cbn [codec_failed codec_given rf_given set_ref rf_failed];
               try (by split; [left|]).
             all: right; split; [by left|]; split; [done|]; apply Hbad; by intros out (? & ? & ?)%Hall.
           - pose proof (ref_whole_complete (rf_taken d)) as Hall. destruct (ref_whole (rf_taken d)); (split; [done|]); (split; [done|]);
               exists [], (RVal tt); (split; [done|]); (split; [symmetry; apply app_nil_r|]).
             + by split; [left|].
             + right. split; [by left|]. split; [done|]. apply Hbad. by intros out ?%Hall. }
      all: do 2 (split; [done|]).
      * exists [x], (RVal tt). split; [by eapply pl_data; [exact Ep|constructor]|]. split; [done|]. split; [by left|]. done.
      * exists [], RPending. rewrite app_nil_r. split; [by apply pl_pending|done].
      * exists [], (RErr e). rewrite app_nil_r. split; [by apply pl_err|]. split; [done|]. by left.
      * exists [], RPanic. rewrite app_nil_r. split; [by apply pl_panic|done].
      * exists [], RFuel. rewrite app_nil_r. split; [by apply pl_fuel|done].
Defined.

(** Two frames of zstd, the second in the same chunk as the end of the first. *)
Definition ex_headers : HeaderMap := [(bs "content-encoding", bs "zstd"); (bs "content-length", bs "5"); (bs "server", bs "x")].
Definition ex_parts : Parts (Ext := unit) := mkParts 200 HTTP_11 ex_headers tt.
Definition ex_script : list Step := [SPend; SFrame (DataFrame [2; 7]); SFrame (DataFrame [8; 1; 9]); SFrame (DataFrame [])].
Definition ex_decoder := r_body (response_new accepts_default ex_parts ex_script tt accepts_default (Some 100) (Some 10)).

Lemma ex_run : exists d, runs 9 ex_decoder [7; 8; 9] d /\ (decoder_poll_frame 9 3 d).1 = RVal None.
Proof.
  pose proof (rn_start 9 ex_decoder) as H0.
  eapply (rn_pending _ _ 1) in H0; [|vm_compute; reflexivity].
  do 4 (eapply (rn_frame _ _ 2) in H0; [|vm_compute; reflexivity]).
  eexists. split; [exact H0|]. vm_compute. reflexivity.
Qed.

Lemma decoded_body_witness :
  whole (response ex_script (Some 100) (Some 10)) (Some TZstd) [7; 8; 9] /\
  r_headers (response_new accepts_default ex_parts ex_script tt accepts_default (Some 100) (Some 10)) = [(bs "server", bs "x")].
Proof.
  destruct ex_run as (d & Hr & He). assert (Hf : (S (hb_left ex_script) < 9)%nat) by (vm_compute; lia).
  destruct (decoded_body accepts_default ex_parts ex_script tt accepts_default (Some 100) (Some 10) 9 3 [7; 8; 9] d Hf Hr) as [Hh Hw].
  rewrite He in Hw. split; [exact Hw|]. rewrite Hh. vm_compute. reflexivity.
Defined.

Lemma body_timeouts_witness :
  exists e, (hb_poll_frame 15 (wrapped (Some 100) (Some 10) [SFrame (DataFrame [2])] (Some 14))).1 = RErr e /\ times_out e.
Proof.
  destruct (body_timeouts [SPend; SFrame (DataFrame [2])] (Some 100) (Some 10) [] (Some 4)
    (wrapped (Some 100) (Some 10) [SFrame (DataFrame [2])] (Some 14)) 15) as (i & _ & Hl & _).
  - eapply (lf_pending _ _ _ _ None _ 4); [constructor|reflexivity].
  - apply Hl. right. exists 10. split; [done|]. cbn. lia.
Defined.
End RefResponse.
