(* ===== verification/SessionCache.v ===== *)
(** * The cache of TLS sessions (src/src/tls/conn/cache.rs)

    Sessions by authority, the oldest first, and an index from a session's id to its
    authority.  The linked-hash-set crate is an interface; a session is BoringSSL's,
    known by its id and its protocol version.  With the properties: as long as no two
    authorities issue sessions with the same id, both maps agree, the sessions of an
    authority are bounded, and a TLS 1.3 session is handed out once. *)

From S2P Require Import Prelude.

(** A set in the order of insertion, its elements told apart by their id. *)
Class LinkedSet (A L : Type) := {
  ls_new : L;
  ls_len : L -> Z;
  ls_pop_front : L -> option A * L;
  ls_insert : A -> L -> L;
  ls_front : L -> option A;
  ls_remove : bytes -> L -> L;
  ls_is_empty : L -> bool
}.

Class LinkedSetLaws (A L : Type) `{LinkedSet A L} (session_id : A -> bytes) := {
  ls_list : L -> list A;
  ls_nodup l : NoDup (session_id <$> ls_list l);
  ls_new_list : ls_list ls_new = [];
  ls_len_list l : ls_len l = len (ls_list l);
  ls_pop_list l : match ls_list l with
                  | [] => ls_pop_front l = (None, l)
                  | x :: r => exists l', ls_pop_front l = (Some x, l') /\ ls_list l' = r
                  end;
  (* an element that is there already moves to the end *)
  ls_insert_list x l : exists y, session_id y = session_id x /\
    ls_list (ls_insert x l) = filter (fun a => session_id a <> session_id x) (ls_list l) ++ [y];
  ls_front_list l : ls_front l = head (ls_list l);
  ls_remove_list i l : ls_list (ls_remove i l) = filter (fun a => session_id a <> i) (ls_list l);
  ls_is_empty_list l : ls_is_empty l = bool_decide (ls_list l = [])
}.

Module SessionCache.
Section SessionCache.
Context {SslSession : Type} (session_id : SslSession -> bytes) (is_tls13 : SslSession -> bool).
Context {L : Type} {LS : LinkedSet SslSession L} {Key : Type} `{Countable Key}.

Record SessionCache := mkCache {
  sessions : gmap Key L;
  reverse : gmap bytes Key;
  per_key_session_capacity : Z
}.

Definition with_capacity (n : Z) : SessionCache := mkCache ∅ ∅ n.

Definition insert (key : Key) (session : SslSession) (c : SessionCache) : SessionCache :=
  let l := default ls_new (sessions c !! key) in
  let '(l, rev) :=
    if per_key_session_capacity c <=? ls_len l then
      match ls_pop_front l with
      | (Some hash, l) => (l, delete (session_id hash) (reverse c))
      | (None, l) => (l, reverse c)
      end
    else (l, reverse c) in
  mkCache (<[key := ls_insert session l]> (sessions c)) (<[session_id session := key]> rev) (per_key_session_capacity c).

Definition remove (id : bytes) (c : SessionCache) : SessionCache :=
  match reverse c !! id with
  | None => c
  | Some key =>
      let rev := delete id (reverse c) in
      match sessions c !! key with
      | Some l =>
          let l := ls_remove id l in
          mkCache (if ls_is_empty l then delete key (sessions c) else <[key := l]> (sessions c)) rev (per_key_session_capacity c)
      | None => mkCache (sessions c) rev (per_key_session_capacity c)
      end
  end.

Definition get (key : Key) (c : SessionCache) : option SslSession * SessionCache :=
  match sessions c !! key with
  | None => (None, c)
  | Some l =>
      match ls_front l with
      | None => (None, c)
      | Some session => (Some session, if is_tls13 session then remove (session_id session) c else c)
      end
  end.

(** ** Both maps agree *)

Context {LL : LinkedSetLaws SslSession L session_id}.

Definition ids (l : L) : list bytes := session_id <$> ls_list l.
Definition holds (c : SessionCache) (key : Key) (id : bytes) : Prop := exists l, sessions c !! key = Some l /\ id ∈ ids l.

Record cache_ok (c : SessionCache) : Prop := {
  ok_index key id : holds c key id <-> reverse c !! id = Some key;
  ok_bound key l : sessions c !! key = Some l -> 0 < len (ls_list l) <= Z.max 1 (per_key_session_capacity c)
}.

Lemma ids_insert x l i : i ∈ ids (ls_insert x l) <-> i = session_id x \/ i ∈ ids l.
Proof.
  unfold ids. destruct (ls_insert_list x l) as (y & Hy & ->). rewrite fmap_app, elem_of_app. cbn. rewrite list_elem_of_singleton, Hy.
  rewrite !list_elem_of_fmap. setoid_rewrite list_elem_of_filter. split; [naive_solver|].
  intros [->|(a & -> & Ha)]; [by right|]. destruct (decide (session_id a = session_id x)); [by right|left; eauto].
Qed.

Lemma ids_remove j l i : i ∈ ids (ls_remove j l) <-> i <> j /\ i ∈ ids l.
Proof. unfold ids. rewrite ls_remove_list, !list_elem_of_fmap. setoid_rewrite list_elem_of_filter. naive_solver. Qed.

Lemma len_insert x l : 0 < len (ls_list (ls_insert x l)) <= len (ls_list l) + 1.
Proof.
  destruct (ls_insert_list x l) as (y & _ & ->). rewrite len_app. change (len [y]) with 1.
  pose proof (len_nonneg (filter (fun a => session_id a <> session_id x) (ls_list l))).
  pose proof (length_filter (fun a => session_id a <> session_id x) (ls_list l)). unfold len in *. lia.
Qed.

(** Room for one more: what [insert] does to the list of the key and to the index. *)
Lemma evict_spec c key : cache_ok c ->
  let l := default ls_new (sessions c !! key) in
  let '(l1, rev1) :=
    if per_key_session_capacity c <=? ls_len l then
      match ls_pop_front l with
      | (Some hash, l) => (l, delete (session_id hash) (reverse c))
      | (None, l) => (l, reverse c)
      end
    else (l, reverse c) in
  len (ls_list l1) + 1 <= Z.max 1 (per_key_session_capacity c) /\ (forall i, i ∈ ids l1 -> i ∈ ids l) /\
  forall k i, rev1 !! i = Some k <-> if decide (k = key) then i ∈ ids l1 else holds c k i.
Proof.
  intros [Hi Hb]. cbv zeta. set (l := default ls_new (sessions c !! key)).
  assert (forall i, i ∈ ids l <-> holds c key i) as Hl.
  { intros i. unfold holds. subst l. destruct (sessions c !! key) as [l|]; cbn; [naive_solver|].
    unfold ids. rewrite ls_new_list. split; [set_solver|naive_solver]. }
  assert (forall k i, reverse c !! i = Some k <-> if decide (k = key) then i ∈ ids l else holds c k i) as Hr.
  { intros k i. rewrite <- Hi. destruct (decide (k = key)) as [->|]; [by rewrite Hl|done]. }
  assert (len (ls_list l) <= Z.max 1 (per_key_session_capacity c)) as Hlen.
  { subst l. destruct (sessions c !! key) as [l|] eqn:E; cbn; [apply (Hb _ _ E)|]. rewrite ls_new_list. change (len []) with 0. lia. }
  rewrite ls_len_list. destruct (Z.leb_spec (per_key_session_capacity c) (len (ls_list l))); [|split; [lia|done]].
  pose proof (ls_pop_list l) as Hp. pose proof (ls_nodup l) as Hn. destruct (ls_list l) as [|x r] eqn:El.
  - rewrite Hp, El. change (len []) with 0 in *. split; [lia|done].
  - destruct Hp as (l' & -> & El'). rewrite El'. rewrite len_cons in *. split; [lia|].
    assert (forall i, i ∈ ids l <-> i = session_id x \/ i ∈ ids l') as Hx by (intros i; unfold ids; rewrite El, El'; cbn; set_solver).
    assert (session_id x ∉ ids l') as Hnx by (unfold ids; rewrite El'; cbn in Hn; by apply NoDup_cons in Hn as [? _]).
    split; [intros i; rewrite Hx; by right|]. intros k i. rewrite lookup_delete_Some, Hr.
    destruct (decide (k = key)) as [->|Hk]; [rewrite Hx; naive_solver|]. split; [by intros [_ ?]|]. intros Hh. split; [|done]. intros <-.
    apply Hk. apply Hi in Hh. assert (reverse c !! session_id x = Some key) as E by (apply Hi, Hl, Hx; by left). congruence.
Qed.

(** A session's id is not an id of another authority's session. *)
Definition fresh (c : SessionCache) (key : Key) (id : bytes) : Prop := forall k, holds c k id -> k = key.

Lemma insert_ok c key s : cache_ok c -> fresh c key (session_id s) -> cache_ok (insert key s c).
Proof.
  intros Hc Hf. pose proof (evict_spec c key Hc) as He. unfold insert. cbv zeta in *.
  destruct (if _ <=? _ then _ else _) as [l1 rev1]. destruct He as (Hlen & _ & Hr). split; cbn.
  - intros k i. unfold holds. cbn. destruct (decide (k = key)) as [->|Hk].
    + rewrite lookup_insert_eq. setoid_rewrite (inj_iff Some). split.
      * intros (l & <- & Hin). apply ids_insert in Hin as [->|Hin]; [by rewrite lookup_insert_eq|].
        destruct (decide (i = session_id s)) as [->|]; [by rewrite lookup_insert_eq|]. rewrite lookup_insert_ne by done. apply Hr. by rewrite decide_True.
      * intros E. eexists. split; [done|]. apply ids_insert. destruct (decide (i = session_id s)) as [->|]; [by left|right].
        rewrite lookup_insert_ne in E by done. apply Hr in E. by rewrite decide_True in E.
    + rewrite lookup_insert_ne by done. change (holds c k i <-> <[session_id s := key]> rev1 !! i = Some k).
      destruct (decide (i = session_id s)) as [->|].
      * rewrite lookup_insert_eq. split; [intros Hh; by apply Hf in Hh|congruence].
      * rewrite lookup_insert_ne by done. rewrite Hr. by rewrite decide_False.
  - intros k l. destruct (decide (k = key)) as [->|Hk]; [rewrite lookup_insert_eq|rewrite lookup_insert_ne by done].
    + intros [= <-]. pose proof (len_insert s l1). lia.
    + apply Hc.
Qed.

Lemma remove_holds c i k j : cache_ok c -> holds (remove i c) k j <-> j <> i /\ holds c k j.
Proof.
  intros [Hi Hb]. unfold remove. destruct (reverse c !! i) as [key|] eqn:E; cycle 1.
  { split; [|by intros [_ ?]]. intros Hh. split; [|done]. intros ->. apply Hi in Hh. congruence. }
  assert (holds c key i) as (l & El & Hin) by (by apply Hi). rewrite El. unfold holds. cbn.
  destruct (decide (k = key)) as [->|Hk].
  - rewrite El. setoid_rewrite (inj_iff Some). rewrite ls_is_empty_list. destruct (bool_decide_reflect (ls_list (ls_remove i l) = [])) as [Hn|Hn].
    + rewrite lookup_delete_eq. split; [naive_solver|]. intros (Hj & l' & <- & Hl). exfalso.
      assert (j ∈ ids (ls_remove i l)) as Hx by (by apply ids_remove). unfold ids in Hx. rewrite Hn in Hx. set_solver.
    + rewrite lookup_insert_eq. setoid_rewrite (inj_iff Some). split.
      * intros (l' & <- & Hx). apply ids_remove in Hx as [? ?]. naive_solver.
      * intros (Hj & l' & <- & Hl). eexists. split; [done|]. by apply ids_remove.
  - assert ((if ls_is_empty (ls_remove i l) then delete key (sessions c) else <[key:=ls_remove i l]> (sessions c)) !! k = sessions c !! k) as ->.
    { destruct (ls_is_empty _); [by apply lookup_delete_ne|by apply lookup_insert_ne]. }
    split; [|naive_solver]. intros Hh. split; [|done]. intros ->. apply Hk. assert (holds c k i) as Hx by done. apply Hi in Hx. congruence.
Qed.

Lemma remove_ok c i : cache_ok c -> cache_ok (remove i c).
Proof.
  intros Hc. split.
  - intros k j. rewrite remove_holds by done. destruct Hc as [Hi Hb]. unfold remove. destruct (reverse c !! i) as [key|] eqn:E.
    + assert (reverse (match sessions c !! key with
        | Some l => mkCache (if ls_is_empty (ls_remove i l) then delete key (sessions c) else <[key:=ls_remove i l]> (sessions c)) (delete i (reverse c)) (per_key_session_capacity c)
        | None => mkCache (sessions c) (delete i (reverse c)) (per_key_session_capacity c) end) = delete i (reverse c)) as -> by (by destruct (sessions c !! key)).
      rewrite lookup_delete_Some, Hi. naive_solver.
    + rewrite Hi. split; [by intros [_ ?]|]. intros Ej. split; [congruence|done].
  - intros k l. unfold remove. destruct (reverse c !! i) as [key|] eqn:E; [|apply Hc].
    destruct (sessions c !! key) as [l0|] eqn:El; cbn; [|apply Hc]. rewrite ls_is_empty_list.
    destruct (bool_decide_reflect (ls_list (ls_remove i l0) = [])) as [Hn|Hn].
    + intros Hd. apply lookup_delete_Some in Hd as [_ Hd]. by apply Hc in Hd.
    + intros Hd. apply lookup_insert_Some in Hd as [[-> <-]|[_ Hd]]; [|by apply Hc in Hd].
      pose proof (ok_bound c Hc _ _ El) as Hb. rewrite ls_remove_list in *.
      pose proof (length_filter (fun a => session_id a <> i) (ls_list l0)).
      destruct (filter (fun a => session_id a <> i) (ls_list l0)) as [|x r]; [done|]. unfold len in *. cbn [length] in *. lia.
Qed.

Lemma get_spec c key s c' : cache_ok c -> get key c = (Some s, c') ->
  holds c key (session_id s) /\ cache_ok c' /\ (forall k i, holds c' k i -> holds c k i) /\
  (is_tls13 s = true -> forall k, ~ holds c' k (session_id s)).
Proof.
  intros Hc. unfold get. destruct (sessions c !! key) as [l|] eqn:El; [|done]. rewrite ls_front_list.
  destruct (ls_list l) as [|x r] eqn:Er; [done|]. cbn. intros [= -> <-]. split; [exists l; split; [done|]; unfold ids; rewrite Er; cbn; set_solver|].
  destruct (is_tls13 s).
  - split; [by apply remove_ok|]. split; [intros k i Hh; by apply remove_holds in Hh as [_ ?]|].
    intros _ k Hh. by apply remove_holds in Hh as [? _].
  - done.
Qed.

(** ** Lives of a cache: handshakes of any authorities insert and get sessions *)

Inductive CacheOp := OpInsert (key : Key) (s : SslSession) | OpGet (key : Key) | OpRemove (id : bytes).
Definition apply_op (c : SessionCache) (o : CacheOp) : SessionCache :=
  match o with OpInsert key s => insert key s c | OpGet key => (get key c).2 | OpRemove id => remove id c end.
Definition run : list CacheOp -> SessionCache -> SessionCache := fun ops c => foldl apply_op c ops.

(** No two authorities issue sessions with the same id. *)
Definition ids_apart (ops : list CacheOp) : Prop := forall key1 s1 key2 s2,
  OpInsert key1 s1 ∈ ops -> OpInsert key2 s2 ∈ ops -> session_id s1 = session_id s2 -> key1 = key2.
Definition not_inserted (i : bytes) (ops : list CacheOp) : Prop := forall key s, OpInsert key s ∈ ops -> session_id s <> i.

Lemma get_ok c key : cache_ok c -> cache_ok (get key c).2 /\ forall k i, holds (get key c).2 k i -> holds c k i.
Proof.
  intros Hc. destruct (get key c) as [[s|] c'] eqn:E; [by apply get_spec in E as (_ & ? & ? & _)|].
  unfold get in E. destruct (sessions c !! key) as [l|]; [destruct (ls_front l)|]; by simplify_eq.
Qed.

Lemma insert_holds c key s k i : cache_ok c -> holds (insert key s c) k i -> i = session_id s \/ holds c k i.
Proof.
  intros Hc. pose proof (evict_spec c key Hc) as He. unfold insert. cbv zeta in *. destruct (if _ <=? _ then _ else _) as [l1 rev1].
  destruct He as (_ & Hsub & _). unfold holds. cbn. intros (l & E & Hin). apply lookup_insert_Some in E as [[<- <-]|[_ E]]; [|by right; exists l].
  apply ids_insert in Hin as [?|Hin]; [by left|right]. apply Hsub in Hin. destruct (sessions c !! key) as [l|]; [by exists l|].
  cbn in Hin. unfold ids in Hin. rewrite ls_new_list in Hin. set_solver.
Qed.

Lemma with_capacity_ok n : cache_ok (with_capacity n).
Proof. split; cbn; [|by intros]. intros k i. unfold holds. cbn. rewrite !lookup_empty. naive_solver. Qed.

Lemma op_capacity c o : per_key_session_capacity (apply_op c o) = per_key_session_capacity c.
Proof.
  assert (Hr : forall i, per_key_session_capacity (remove i c) = per_key_session_capacity c).
  { intros i. unfold remove. destruct (reverse c !! i) as [key|]; [|done]. by destruct (sessions c !! key). }
  destruct o as [key s|key|i]; cbn; [| |apply Hr].
  - unfold insert. cbv zeta. by destruct (if _ <=? _ then _ else _).
  - unfold get. destruct (sessions c !! key) as [l|]; [|done]. destruct (ls_front l) as [s|]; [|done]. cbn. by destruct (is_tls13 s).
Qed.
Lemma run_capacity ops c : per_key_session_capacity (run ops c) = per_key_session_capacity c.
Proof. revert c. induction ops as [|o ops IH]; intros c; [done|]. change (run (o :: ops) c) with (run ops (apply_op c o)). by rewrite IH, op_capacity. Qed.

(** Every session in the cache was inserted for its authority. *)
Definition issued (ops : list CacheOp) (c : SessionCache) : Prop := forall k i, holds c k i -> exists s, OpInsert k s ∈ ops /\ session_id s = i.

Lemma insert_holds_key c key s k i : cache_ok c -> holds (insert key s c) k i -> i = session_id s /\ k = key \/ holds c k i.
Proof.
  intros Hc Hh. destruct (decide (k = key)) as [->|Hk]; [destruct (insert_holds _ _ _ _ _ Hc Hh); [by left|by right]|].
  right. unfold insert in Hh. cbv zeta in Hh. destruct (if _ <=? _ then _ else _) as [l1 rev1]. unfold holds in *. cbn in Hh.
  by rewrite lookup_insert_ne in Hh by done.
Qed.

Lemma op_ok ops c o : ids_apart ops -> o ∈ ops -> cache_ok c -> issued ops c -> cache_ok (apply_op c o) /\ issued ops (apply_op c o).
Proof.
  intros Ha Ho Hc Hi. destruct o as [key s|key|i]; cbn.
  - split.
    + apply insert_ok; [done|]. intros k Hh. apply Hi in Hh as (s' & Hs' & E). by apply (Ha k s' key s).
    + intros k i Hh. apply insert_holds_key in Hh as [[-> ->]|Hh]; [by exists s|by apply Hi|done].
  - destruct (get_ok c key Hc) as [Hg Hh]. split; [done|]. intros k i Hx. by apply Hi, Hh.
  - split; [by apply remove_ok|]. intros k j Hh. apply remove_holds in Hh as [_ Hh]; [|done]. by apply Hi.
Qed.

Lemma run_ok all ops c :
  ids_apart all -> ops ⊆ all -> cache_ok c -> issued all c -> cache_ok (run ops c) /\ issued all (run ops c).
Proof.
  intros Ha. revert c. induction ops as [|o ops IH]; intros c Hs Hc Hi; [done|]. cbn.
  destruct (op_ok all c o Ha ltac:(set_solver) Hc Hi). apply IH; [set_solver|done|done].
Qed.

Lemma op_not_inserted i c o : not_inserted i [o] -> cache_ok c -> (forall k, ~ holds c k i) -> forall k, ~ holds (apply_op c o) k i.
Proof.
  intros Hn Hc Hh k Hk. destruct o as [key s|key|j]; cbn in Hk; apply (Hh k).
  - apply insert_holds in Hk as [->|?]; [|done..]. by destruct (Hn key s ltac:(set_solver)).
  - by apply get_ok in Hk.
  - by apply remove_holds in Hk as [_ ?].
Qed.

Lemma run_not_inserted all i ops c :
  ids_apart all -> ops ⊆ all -> not_inserted i ops -> cache_ok c -> issued all c -> (forall k, ~ holds c k i) -> forall k, ~ holds (run ops c) k i.
Proof.
  intros Ha. revert c. induction ops as [|o ops IH]; intros c Hs Hn Hc Hi Hh; [done|]. cbn.
  destruct (op_ok all c o Ha ltac:(set_solver) Hc Hi). apply IH; [set_solver| |done|done|].
  - intros key s Hin. apply (Hn key s). set_solver.
  - apply op_not_inserted; [|done..]. intros key s Hin. apply (Hn key s). set_solver.
Qed.

(** C35. The life of a session cache, any sequence of insertions, handouts and removals
    for any authorities, in which no two authorities issue sessions with the same id
    (the cache does not check that, and it is needed: see [shared_id_twice]).  The
    two maps describe the same sessions; an authority in the cache has at least one
    and at most capacity many, and one if the capacity is 0; a TLS 1.3 session that
    was handed out is not handed out again, to whatever authority, unless it is
    inserted anew. *)
Theorem sessions_handed_out_once n before key after :
  ids_apart (before ++ OpGet key :: after) ->
  let c := run before (with_capacity n) in
  (forall k id, holds c k id <-> reverse c !! id = Some k) /\
  (forall k l, sessions c !! k = Some l -> 0 < len (ls_list l) <= Z.max 1 n) /\
  forall s, (get key c).1 = Some s -> is_tls13 s = true -> not_inserted (session_id s) after ->
    forall key2 s2, (get key2 (run after (get key c).2)).1 = Some s2 -> session_id s2 <> session_id s.
Proof.
  intros Ha c. set (all := before ++ OpGet key :: after) in *.
  assert (Hi0 : issued all (with_capacity n)) by (intros k i (l & E & _); cbn in E; by rewrite lookup_empty in E).
  destruct (run_ok all before _ Ha ltac:(set_solver) (with_capacity_ok n) Hi0) as [Hc Hi]. fold c in Hc, Hi.
  assert (Hcap : per_key_session_capacity c = n) by apply run_capacity.
  split; [apply Hc|]. split; [intros k l E; pose proof (ok_bound c Hc k l E) as Hb; by rewrite Hcap in Hb|].
  intros s E H13 Hn key2 s2 E2 Heq. destruct (get key c) as [o c1] eqn:Eg. cbn in E, E2. subst o.
  pose proof (op_ok all c (OpGet key) Ha ltac:(set_solver) Hc Hi) as [_ Hi1]. cbn in Hi1. rewrite Eg in Hi1. cbn in Hi1.
  apply get_spec in Eg as (_ & Hc1 & _ & Hgone); [|done]. specialize (Hgone H13).
  pose proof (run_not_inserted all _ after c1 Ha ltac:(set_solver) Hn Hc1 Hi1 Hgone key2) as Hno.
  destruct (run_ok all after c1 Ha ltac:(set_solver) Hc1 Hi1) as [Hc2 _].
  destruct (get key2 (run after c1)) as [o c3] eqn:Eg2. cbn in E2. subst o. apply get_spec in Eg2 as (Hh & _); [|done]. by rewrite Heq in Hh.
Qed.
End SessionCache.

(** ** At a concrete input *)

Module RefSessions.
(** A session is its id and its version; a set is a list without duplicates. *)
Abbreviation sess := (bytes * bool)%type.
Definition drop_id (i : bytes) (l : list sess) : list sess := filter (fun a => a.1 <> i) l.
Lemma drop_nodup i l : NoDup l.*1 -> NoDup (drop_id i l).*1.
Proof.
  unfold drop_id. induction l as [|a l IH]; [done|]. intros Hc. cbn in Hc. apply NoDup_cons in Hc as [Ha Hn]. rewrite filter_cons. destruct (decide (a.1 <> i)); [|auto].
  rewrite fmap_cons. apply NoDup_cons. split; [|auto]. intros Hin. apply Ha. apply list_elem_of_fmap in Hin as (b & -> & Hb).
  apply list_elem_of_fmap. exists b. split; [done|]. by apply list_elem_of_filter in Hb as [_ ?].
Qed.

Lemma insert_nodup x l : NoDup l.*1 -> NoDup (drop_id x.1 l ++ [x]).*1.
Proof.
  intros Hn. rewrite fmap_app. apply NoDup_app. split; [by apply drop_nodup|]. split; [|apply NoDup_singleton].
  intros i Hi Hx. cbn in Hx. apply list_elem_of_singleton in Hx as ->. apply list_elem_of_fmap in Hi as (b & E & Hb).
  by apply list_elem_of_filter in Hb as [? _].
Qed.

Lemma tail_nodup (x : sess) l : NoDup (x :: l).*1 -> NoDup l.*1.
Proof. cbn. by intros [_ ?]%NoDup_cons. Qed.

Record ref_set := mkSet { elems : list sess; elems_nodup : NoDup elems.*1 }.

#[export] Instance ref_linked : LinkedSet sess ref_set := {|
  ls_new := mkSet [] (NoDup_nil_2 (A := bytes));
  ls_len := fun l => len (elems l);
  ls_pop_front := fun l =>
    match elems l as r return NoDup r.*1 -> option sess * ref_set with
    | [] => fun _ => (None, l)
    | x :: r => fun Hn => (Some x, mkSet r (tail_nodup x r Hn))
    end (elems_nodup l);
  ls_insert := fun x l => mkSet (drop_id x.1 (elems l) ++ [x]) (insert_nodup x _ (elems_nodup l));
  ls_front := fun l => head (elems l);
  ls_remove := fun i l => mkSet (drop_id i (elems l)) (drop_nodup i _ (elems_nodup l));
  ls_is_empty := fun l => bool_decide (elems l = [])
|}.

#[export] Program Instance ref_linked_laws : LinkedSetLaws sess ref_set fst := {| ls_list := elems |}.
Next Obligation. intros l. apply elems_nodup. Qed.
Next Obligation. done. Qed.
Next Obligation. done. Qed.
Next Obligation. intros [[|x r] Hn]; cbn; [done|]. by eexists. Qed.
Next Obligation. intros x l. by exists x. Qed.
Next Obligation. done. Qed.
Next Obligation. done. Qed.
Next Obligation. done. Qed.

Abbreviation cache := (SessionCache (L := ref_set) (Key := bytes)).
Abbreviation op := (CacheOp (SslSession := sess) (Key := bytes)).
Definition before : list op := [OpInsert (bs "a.b") (bs "id0", true); OpInsert (bs "a.b") (bs "id1", true)].
Abbreviation runs := (run (L := ref_set) (Key := bytes) fst snd).

(** Two sessions of an authority: the second handshake gets the second one. *)
Lemma sessions_handed_out_once_witness :
  let c := runs before (with_capacity 8) in
  (get fst snd (bs "a.b") c).1 = Some (bs "id0", true) /\
  (get fst snd (bs "a.b") (get fst snd (bs "a.b") c).2).1 = Some (bs "id1", true) /\ bs "id1" <> bs "id0".
Proof.
  assert (Ha : ids_apart (Key := bytes) fst (before ++ OpGet (bs "a.b") :: [])).
  { assert (Hk : forall k s, OpInsert k s ∈ before ++ [OpGet (bs "a.b")] -> k = bs "a.b") by
      (intros k s [[= -> _]|[[= -> _]|[[=]|[]%elem_of_nil]%elem_of_cons]%elem_of_cons]%elem_of_cons; reflexivity).
    intros k1 s1 k2 s2 H1 H2 _. by rewrite (Hk k1 s1 H1), (Hk k2 s2 H2). }
  destruct (sessions_handed_out_once (L := ref_set) fst snd 8 before (bs "a.b") [] Ha) as (_ & _ & Ho).
  split; [reflexivity|]. split; [reflexivity|].
  apply (Ho (bs "id0", true) eq_refl eq_refl ltac:(intros ? ? []%elem_of_nil) (bs "a.b") (bs "id1", true) eq_refl).
Defined.

(** Two authorities with a session of the same id: when the first one evicts it, the
    index loses the second one's, which is then handed out again and again. *)
Lemma shared_id_twice :
  let c := runs [OpInsert (bs "a.b") (bs "id0", true); OpInsert (bs "c.d") (bs "id0", true); OpInsert (bs "a.b") (bs "id1", true)] (with_capacity 1) in
  (get fst snd (bs "c.d") c).1 = Some (bs "id0", true) /\
  (get fst snd (bs "c.d") (get fst snd (bs "c.d") c).2).1 = Some (bs "id0", true).
Proof. split; reflexivity. Qed.
End RefSessions.
End SessionCache.
