(* ===== verification/H2.v ===== *)
(** * The streams of an HTTP/2 connection (src/src/core/proto/h2/mod.rs,
      src/src/core/body/incoming.rs: [Kind::H2])

    The http2 crate does the protocol.  What is on top of it: the headers that
    have no place in HTTP/2, the pipe that feeds a request body into a stream, the
    body of a response, and the byte stream after an accepted CONNECT. *)

From S2P Require Import Prelude Buf Http Decode Error Dispatcher Ping.

(** ** Handles of the http2 crate

    A stream is known by a number; [W] is the connection with all its streams, and
    the clock.  [RPanic] and [RFuel] are not results of these calls. *)

Inductive SendBuf (B : Type) := SbBuf (b : B) | SbCursor (c : bytes) | SbNone.
Arguments SbBuf {B} _.
Arguments SbCursor {B} _.
Arguments SbNone {B}.

Class H2Streams (W B H : Type) := {
  (* [SendStream] *)
  reserve_capacity : nat -> Z -> W -> W;
  capacity : nat -> W -> Z;
  poll_capacity : nat -> W -> poll_res Error.H2Error (option Z) * W;
  poll_reset : nat -> W -> poll_res Error.H2Error Z * W;
  send_data : nat -> SendBuf B -> bool -> W -> result unit Error.H2Error * W;
  send_trailers : nat -> H -> W -> result unit Error.H2Error * W;
  send_reset : nat -> Z -> W -> W;
  (* [RecvStream] *)
  poll_data : nat -> W -> poll_res Error.H2Error (option bytes) * W;
  poll_trailers : nat -> W -> poll_res Error.H2Error (option H) * W;
  recv_is_end_stream : nat -> W -> bool;
  release_capacity : nat -> Z -> W -> W
}.

Module H2.
Import Error.

(** ** Headers *)

Section Strip.
Context `{HttpCrate}.

Definition UPGRADE : HeaderName := bs "upgrade".
Definition CONNECTION_HEADERS : list HeaderName :=
  [bs "keep-alive"; bs "proxy-connection"; TRANSFER_ENCODING; UPGRADE].

(** [headers.remove(name)] for a text: one that is no header name is not there. *)
Definition remove_str (name : bytes) (headers : HeaderMap) : HeaderMap :=
  match hn_from_bytes name with Some k => hm_remove k headers | None => headers end.

(** [None] is the [unwrap] on the text of the [Connection] header. *)
Definition strip_connection_headers (headers : HeaderMap) (is_request : bool) : option HeaderMap :=
  let headers := foldl (fun hs k => hm_remove k hs) headers CONNECTION_HEADERS in
  let headers :=
    if is_request then
      match hm_get TE headers with
      | Some te_header => if bool_decide (te_header = bs "trailers") then headers else hm_remove TE headers
      | None => headers
      end
    else hm_remove TE headers in
  match hm_get CONNECTION headers with
  | Some header =>
      header_contents ← hv_to_str header;
      Some (foldl (fun hs name => remove_str (trim name) hs) (hm_remove CONNECTION headers)
              (split Headers.COMMA header_contents))
  | None => Some headers
  end.
End Strip.

(** ** [SendBuf] as a buffer *)

Section SendBufBuf.
Context `{BytesCrate} {B : Type} `{Buf B}.

#[global] Instance SendBuf_buf : Buf (SendBuf B) := {
  remaining s := match s with SbBuf b => remaining b | SbCursor c => remaining c | SbNone => 0 end;
  chunk s := match s with SbBuf b => chunk b | SbCursor c => chunk c | SbNone => [] end;
  advance n s := match s with
                 | SbBuf b => b ← advance n b; Some (SbBuf b)
                 | SbCursor c => c ← advance n c; Some (SbCursor c)
                 | SbNone => Some SbNone
                 end;
  chunks_vectored n s := match s with
                         | SbBuf b => chunks_vectored n b
                         | SbCursor c => chunks_vectored n c
                         | SbNone => []
                         end
}.
End SendBufBuf.

(** ** [PipeToSendStream] *)

Section Pipe.
Context `{HttpCrate} {W B : Type} {hs : H2Streams W B HeaderMap} {Bs : Type} {bd : Body Bs B HeaderMap}.

Record PipeToSendStream := mkPipe { body_tx : nat; data_done : bool; stream : Bs }.
Definition pipe_new (stream : Bs) (tx : nat) : PipeToSendStream := mkPipe tx false stream.
Definition set_stream (b : Bs) (p : PipeToSendStream) : PipeToSendStream := mkPipe (body_tx p) (data_done p) b.

Definition on_user_err (tx : nat) (err : Cause) (w : W) : Error * W :=
  let err := new_user_body err in (err, send_reset tx (h2_reason err) w).
Definition send_eos_frame (tx : nat) (w : W) : result unit Error * W :=
  match send_data tx SbNone true w with
  | (Ok _, w) => (Ok tt, w)
  | (Err e, w) => (Err (new_body_write (CauseH2 e)), w)
  end.

(** The inner loop: until there is capacity. *)
Fixpoint wait_capacity (fuel : nat) (tx : nat) (w : W) : poll_res Error unit * W :=
  match fuel with
  | O => (RFuel, w)
  | S fuel =>
      match poll_capacity tx w with
      | (RVal (Some n), w) => if n =? 0 then wait_capacity fuel tx w else (RVal tt, w)
      | (RVal None, w) => (RErr (new_body_write (CauseText "send stream capacity unexpectedly closed")), w)
      | (RErr e, w) => (RErr (new_body_write (CauseH2 e)), w)
      | (RPending, w) => (RPending, w)
      | (RPanic, w) => (RPanic, w)
      | (RFuel, w) => (RFuel, w)
      end
  end.

(** The head of the loop: there is capacity and the stream was not reset. *)
Definition pipe_ready (fuel : nat) (tx : nat) (w : W) : poll_res Error unit * W :=
  let w := reserve_capacity tx 1 w in
  if capacity tx w =? 0 then wait_capacity fuel tx w
  else
    match poll_reset tx w with
    | (RVal reason, w) => (RErr (new_body_write (CauseH2 (H2Reason reason))), w)
    | (RErr e, w) => (RErr (new_body_write (CauseH2 e)), w)
    | (RPending, w) => (RVal tt, w)
    | (RPanic, w) => (RPanic, w)
    | (RFuel, w) => (RFuel, w)
    end.

Fixpoint pipe_poll (fuel : nat) (p : PipeToSendStream) (w : W) : poll_res Error unit * PipeToSendStream * W :=
  match fuel with
  | O => (RFuel, p, w)
  | S fuel =>
      match pipe_ready fuel (body_tx p) w with
      | (RVal _, w) =>
          let '(r, b) := body_poll_frame (stream p) in
          let p := set_stream b p in
          match r with
          | RVal (Some (DataFrame chunk)) =>
              let is_eos := body_is_end_stream b in
              match send_data (body_tx p) (SbBuf chunk) is_eos w with
              | (Ok _, w) => if is_eos then (RVal tt, p, w) else pipe_poll fuel p w
              | (Err e, w) => (RErr (new_body_write (CauseH2 e)), p, w)
              end
          | RVal (Some (TrailersFrame t)) =>
              let w := reserve_capacity (body_tx p) 0 w in
              match send_trailers (body_tx p) t w with
              | (Ok _, w) => (RVal tt, p, w)
              | (Err e, w) => (RErr (new_body_write (CauseH2 e)), p, w)
              end
          | RVal (Some UnknownFrame) => pipe_poll fuel p w
          | RErr e => let '(err, w) := on_user_err (body_tx p) e w in (RErr err, p, w)
          | RVal None =>
              match send_eos_frame (body_tx p) w with
              | (Ok _, w) => (RVal tt, p, w)
              | (Err e, w) => (RErr e, p, w)
              end
          | RPending => (RPending, p, w)
          | RPanic => (RPanic, p, w)
          | RFuel => (RFuel, p, w)
          end
      | (RPending, w) => (RPending, p, w)
      | (RErr e, w) => (RErr e, p, w)
      | (RPanic, w) => (RPanic, p, w)
      | (RFuel, w) => (RFuel, p, w)
      end
  end.
End Pipe.

(** ** The response body and the upgraded stream *)

Section Recv.
Context `{HttpCrate} {W B : Type} {hs : H2Streams W B HeaderMap} {pe : Ping.Peer W}.

(** The connection, and the state that its recorders share with its ponger;
    [None] when pings are disabled.  A recorder is attached to it or disabled. *)
Record Net := mkNet { n_ping : option Ping.Shared; n_w : W }.
Abbreviation Recorder := bool.

Definition on_w {A} (f : W -> A * W) (st : Net) : A * Net := let '(a, w) := f (n_w st) in (a, mkNet (n_ping st) w).
Definition recorder_data (r : Recorder) (n : Z) (st : Net) : Net :=
  match r, n_ping st with
  | true, Some s => let '(s, w) := Ping.record_data n s (n_w st) in mkNet (Some s) w
  | _, _ => st
  end.
Definition recorder_non_data (r : Recorder) (st : Net) : Net :=
  match r, n_ping st with
  | true, Some s => let '(s, w) := Ping.record_non_data s (n_w st) in mkNet (Some s) w
  | _, _ => st
  end.
Definition recorder_for_stream (recv : nat) (r : Recorder) (st : Net) : Recorder :=
  if recv_is_end_stream recv (n_w st) then false else r.
Definition recorder_not_timed_out (r : Recorder) (st : Net) : result unit Error :=
  match Ping.ensure_not_timed_out (if r then n_ping st else None) with
  | Ok _ => Ok tt
  | Err _ => Err new_keep_alive_timed_out
  end.

(** [Kind::H2] of [Incoming] *)
Record H2Body := mkH2Body {
  hb_content_length : DecodedLength.DecodedLength; hb_data_done : bool; hb_ping : Recorder; hb_recv : nat
}.

Definition incoming_h2 (recv : nat) (content_length : DecodedLength.DecodedLength) (ping : Recorder) (st : Net) : H2Body :=
  mkH2Body (if negb (DecodedLength.is_exact content_length) && recv_is_end_stream recv (n_w st)
            then DecodedLength.ZERO else content_length) false ping recv.

Definition h2body_trailers (b : H2Body) (st : Net) : poll_res Error (option (Decode.Frame HeaderMap)) * H2Body * Net :=
  match on_w (poll_trailers (hb_recv b)) st with
  | (RVal t, st) => (RVal (Decode.FTrailers <$> t), b, recorder_non_data (hb_ping b) st)
  | (RErr e, st) => (RErr (new_h2 e), b, st)
  | (RPending, st) => (RPending, b, st)
  | (RPanic, st) => (RPanic, b, st)
  | (RFuel, st) => (RFuel, b, st)
  end.

Definition h2body_poll_frame (b : H2Body) (st : Net) : poll_res Error (option (Decode.Frame HeaderMap)) * H2Body * Net :=
  if negb (hb_data_done b) then
    match on_w (poll_data (hb_recv b)) st with
    | (RVal (Some bytes), st) =>
        let st := mkNet (n_ping st) (release_capacity (hb_recv b) (len bytes) (n_w st)) in
        let b := mkH2Body (DecodedLength.sub_if (len bytes) (hb_content_length b)) (hb_data_done b) (hb_ping b) (hb_recv b) in
        (RVal (Some (Decode.FData bytes)), b, recorder_data (hb_ping b) (len bytes) st)
    | (RErr e, st) =>
        (if bool_decide (h2_error_reason e = Some NO_ERROR) || bool_decide (h2_error_reason e = Some CANCEL)
         then RVal None else RErr (new_body (CauseH2 e)), b, st)
    | (RVal None, st) => h2body_trailers (mkH2Body (hb_content_length b) true (hb_ping b) (hb_recv b)) st
    | (RPending, st) => (RPending, b, st)
    | (RPanic, st) => (RPanic, b, st)
    | (RFuel, st) => (RFuel, b, st)
    end
  else h2body_trailers b st.

Definition h2body_is_end_stream (b : H2Body) (st : Net) : bool := recv_is_end_stream (hb_recv b) (n_w st).
Definition h2body_size_hint (b : H2Body) : option Z := DecodedLength.into_opt (hb_content_length b).

(** *** [H2Upgraded] *)

Record H2Upgraded := mkUpgraded { up_ping : Recorder; up_send_stream : nat; up_recv_stream : nat; up_buf : bytes }.
Definition set_up_buf (x : bytes) (u : H2Upgraded) : H2Upgraded := mkUpgraded (up_ping u) (up_send_stream u) (up_recv_stream u) x.

Definition h2_to_io_error (e : H2Error) : io_error :=
  match e with H2Io e => e | _ => IoError OtherError "http2" end.
Definition broken_pipe : io_error := IoError IoBrokenPipe "broken pipe".

(** The loop for the next data; [RVal None] is the end. *)
Fixpoint upgraded_fill (fuel : nat) (u : H2Upgraded) (st : Net) : poll_res io_error (option bytes) * Net :=
  match fuel with
  | O => (RFuel, st)
  | S fuel =>
      match on_w (poll_data (up_recv_stream u)) st with
      | (RVal None, st) => (RVal None, st)
      | (RVal (Some buf), st) =>
          if bool_decide (buf = []) && negb (recv_is_end_stream (up_recv_stream u) (n_w st)) then upgraded_fill fuel u st
          else (RVal (Some buf), recorder_data (up_ping u) (len buf) st)
      | (RErr e, st) =>
          (match h2_error_reason e with
           | Some r =>
               if (r =? NO_ERROR) || (r =? CANCEL) then RVal None
               else if r =? STREAM_CLOSED then RErr broken_pipe
               else RErr (h2_to_io_error e)
           | None => RErr (h2_to_io_error e)
           end, st)
      | (RPending, st) => (RPending, st)
      | (RPanic, st) => (RPanic, st)
      | (RFuel, st) => (RFuel, st)
      end
  end.

(** What is put into a buffer with [space] bytes left. *)
Definition upgraded_read (fuel : nat) (u : H2Upgraded) (space : Z) (st : Net) : poll_res io_error bytes * H2Upgraded * Net :=
  let '(r, st) := match up_buf u with
                  | [] => upgraded_fill fuel u st
                  | _ => (RVal (Some (up_buf u)), st)
                  end in
  match r with
  | RVal None => (RVal [], u, st)
  | RVal (Some buf) =>
      let cnt := Z.min (len buf) space in
      (RVal (ztake cnt buf), set_up_buf (zdrop cnt buf) u,
       mkNet (n_ping st) (release_capacity (up_recv_stream u) cnt (n_w st)))
  | RErr e => (RErr e, u, st)
  | RPending => (RPending, u, st)
  | RPanic => (RPanic, u, st)
  | RFuel => (RFuel, u, st)
  end.

(** [UpgradedSendStream::write] *)
Definition upgraded_send (tx : nat) (buf : bytes) (end_of_stream : bool) (w : W) : result unit io_error * W :=
  match send_data tx (SbCursor buf) end_of_stream w with
  | (Ok _, w) => (Ok tt, w)
  | (Err e, w) => (Err (h2_to_io_error e), w)
  end.

(** The error of a stream that does not take data; [quiet] tells which reasons
    are no error. *)
Definition reset_error {T} (tx : nat) (quiet : Z -> option T) (w : W) : poll_res io_error T * W :=
  match poll_reset tx w with
  | (RVal reason, w) =>
      (match quiet reason with
       | Some t => RVal t
       | None => if bool_decide (reason ∈ [NO_ERROR; CANCEL; STREAM_CLOSED]) then RErr broken_pipe
                 else RErr (h2_to_io_error (H2Reason reason))
       end, w)
  | (RErr e, w) => (RErr (h2_to_io_error e), w)
  | (RPending, w) => (RPending, w)
  | (RPanic, w) => (RPanic, w)
  | (RFuel, w) => (RFuel, w)
  end.

Definition upgraded_write (u : H2Upgraded) (buf : bytes) (w : W) : poll_res io_error Z * W :=
  let tx := up_send_stream u in
  match buf with
  | [] => (RVal 0, w)
  | _ =>
      match poll_capacity tx (reserve_capacity tx (len buf) w) with
      | (RVal None, w) => (RVal 0, w)
      | (RVal (Some cnt), w) =>
          if len buf <? cnt then (RPanic, w) (* [&buf[..cnt]] *)
          else match upgraded_send tx (ztake cnt buf) false w with
               | (Ok _, w) => (RVal cnt, w)
               | (Err _, w) => reset_error tx (fun _ => None) w
               end
      | (RErr _, w) => reset_error tx (fun _ => None) w
      | (RPending, w) => (RPending, w)
      | (RPanic, w) => (RPanic, w)
      | (RFuel, w) => (RFuel, w)
      end
  end.
Definition upgraded_flush : poll_res io_error unit := RVal tt.
Definition upgraded_shutdown (u : H2Upgraded) (w : W) : poll_res io_error unit * W :=
  match upgraded_send (up_send_stream u) [] true w with
  | (Ok _, w) => (RVal tt, w)
  | (Err _, w) => reset_error (up_send_stream u) (fun r => if r =? NO_ERROR then Some tt else None) w
  end.
End Recv.
End H2.
