(* ===== verification/H2Client.v ===== *)
(** * The HTTP/2 client task (src/src/core/proto/h2/client.rs)

    The task of a connection takes requests from its channel and opens a stream
    for each; what is left to do for a request, feeding its body and waiting for
    its response, goes to tasks of their own.  One more task drives the connection.
    The tasks share the connection, the state of its pings, the channels of the
    callers and two signals: the number of handles that keep the connection open
    ([conn_drop_ref]) and whether the connection's task is gone ([conn_eof]). *)

From S2P Require Import Prelude Buf Http Oneshot Decode Error Dispatch Dispatcher Ping H2.

Module H2Client.
Import Error Dispatch H2.

(** ** Configuration *)

Section Config.
Context {PseudoOrder SettingsOrder StreamDependency ExperimentalSettings Priorities : Type}.

Definition DEFAULT_CONN_WINDOW : Z := 1024 * 1024 * 5.
Definition DEFAULT_STREAM_WINDOW : Z := 1024 * 1024 * 2.
Definition DEFAULT_MAX_SEND_BUF_SIZE : Z := 1024 * 1024.
Definition DEFAULT_INITIAL_MAX_SEND_STREAMS : Z := 100.

Record Config := mkConfig {
  adaptive_window : bool;
  initial_stream_id : option Z;
  initial_conn_window_size : Z;
  initial_stream_window_size : Z;
  initial_max_send_streams : Z;
  max_frame_size : option Z;
  keep_alive_interval : option Z;
  keep_alive_timeout : Z;
  keep_alive_while_idle : bool;
  max_concurrent_reset_streams : option Z;
  max_send_buffer_size : Z;
  max_concurrent_streams : option Z;
  max_header_list_size : option Z;
  max_pending_accept_reset_streams : option Z;
  enable_push : option bool;
  header_table_size : option Z;
  enable_connect_protocol : option bool;
  no_rfc7540_priorities : option bool;
  headers_pseudo_order : option PseudoOrder;
  headers_stream_dependency : option StreamDependency;
  experimental_settings : option ExperimentalSettings;
  settings_order : option SettingsOrder;
  priorities : option Priorities
}.

Definition config_default : Config :=
  mkConfig false None DEFAULT_CONN_WINDOW DEFAULT_STREAM_WINDOW DEFAULT_INITIAL_MAX_SEND_STREAMS None None
    (Ping.from_secs 20) false None DEFAULT_MAX_SEND_BUF_SIZE None None None None None None None None None None None None.

(** The calls on the crate's builder, in order. *)
Inductive BuilderCall :=
| BInitialMaxSendStreams (n : Z) | BInitialWindowSize (n : Z) | BInitialConnectionWindowSize (n : Z) | BMaxSendBufferSize (n : Z)
| BInitialStreamId (n : Z) | BMaxPendingAcceptResetStreams (n : Z) | BMaxConcurrentResetStreams (n : Z) | BMaxConcurrentStreams (n : Z)
| BMaxHeaderListSize (n : Z) | BEnablePush (b : bool) | BMaxFrameSize (n : Z) | BHeaderTableSize (n : Z) | BEnableConnectProtocol (b : bool)
| BNoRfc7540Priorities (b : bool) | BSettingsOrder (o : SettingsOrder) | BExperimentalSettings (e : ExperimentalSettings)
| BHeadersStreamDependency (d : StreamDependency) | BHeadersPseudoOrder (o : PseudoOrder) | BPriorities (p : Priorities).

Definition call_if {A} (f : A -> BuilderCall) (o : option A) : list BuilderCall := option_list (f <$> o).
Definition new_builder (c : Config) : list BuilderCall :=
  [BInitialMaxSendStreams (initial_max_send_streams c); BInitialWindowSize (initial_stream_window_size c);
   BInitialConnectionWindowSize (initial_conn_window_size c); BMaxSendBufferSize (max_send_buffer_size c)] ++
  call_if BInitialStreamId (initial_stream_id c) ++
  call_if BMaxPendingAcceptResetStreams (max_pending_accept_reset_streams c) ++
  call_if BMaxConcurrentResetStreams (max_concurrent_reset_streams c) ++
  call_if BMaxConcurrentStreams (max_concurrent_streams c) ++
  call_if BMaxHeaderListSize (max_header_list_size c) ++
  call_if BEnablePush (enable_push c) ++
  call_if BMaxFrameSize (max_frame_size c) ++
  call_if BHeaderTableSize (header_table_size c) ++
  call_if BEnableConnectProtocol (enable_connect_protocol c) ++
  call_if BNoRfc7540Priorities (no_rfc7540_priorities c) ++
  call_if BSettingsOrder (settings_order c) ++
  call_if BExperimentalSettings (experimental_settings c) ++
  call_if BHeadersStreamDependency (headers_stream_dependency c) ++
  call_if BHeadersPseudoOrder (headers_pseudo_order c) ++
  call_if BPriorities (priorities c).

Definition new_ping_config (c : Config) : Ping.Config :=
  Ping.mkConfig (if adaptive_window c then Some (initial_stream_window_size c) else None)
    (keep_alive_interval c) (keep_alive_timeout c) (keep_alive_while_idle c).
End Config.

Section Client.
Context `{HttpCrate} {W B : Type} {hs : H2Streams W B HeaderMap} {pe : Ping.Peer W} {Bs : Type} {bd : Body Bs B HeaderMap}.
(** What of a request head the task does not look at. *)
Context {Hd : Type}.

Record Request := mkRequest { rq_method : Method; rq_headers : HeaderMap; rq_protocol : option bytes; rq_head : Hd; rq_body : Bs }.
(** A request as it is given to the http2 crate. *)
Record SentRequest := mkSentRequest { sr_method : Method; sr_headers : HeaderMap; sr_protocol : option bytes; sr_head : Hd }.

Record H2Response := mkH2Response { hr_status : StatusCode; hr_headers : HeaderMap; hr_recv : nat }.
Inductive RespBody := EmptyBody | StreamBody (b : H2Body).
Record Response := mkResponse { rs_status : StatusCode; rs_headers : HeaderMap; rs_body : RespBody; rs_upgrade : option H2Upgraded }.

(** [SendRequest], [ResponseFuture] and [Connection] of the http2 crate. *)
Class H2Crate := {
  h2_poll_ready : W -> poll_res H2Error unit * W;
  (* the stream, for the response and for the body *)
  h2_send_request : SentRequest -> bool -> W -> result nat H2Error * W;
  response_poll : nat -> W -> poll_res H2Error H2Response * W;
  conn_poll : W -> poll_res H2Error unit * W;
  set_target_window_size : Z -> W -> W;
  set_initial_window_size : Z -> W -> result unit H2Error * W
}.
Context {h2 : H2Crate}.

(** ** The response *)

Record ResponseFutMap := mkResponseFut { rf_fut : nat; rf_ping : option bool; rf_send_stream : option (option nat) }.

Definition response_fut_poll (f : ResponseFutMap) (st : Net (W := W)) : poll_res (Error * option Request) Response * ResponseFutMap * Net :=
  match on_w (response_poll (rf_fut f)) st with
  | (RPending, st) => (RPending, f, st)
  | (RPanic, st) => (RPanic, f, st)
  | (RFuel, st) => (RFuel, f, st)
  | (RVal res, st) =>
      match rf_ping f, rf_send_stream f with
      | Some ping, Some send_stream =>
          let f := mkResponseFut (rf_fut f) None None in
          let st := recorder_non_data ping st in
          let content_length := Headers.content_length_parse_all (hr_headers res) in
          match send_stream, hr_status res =? 200 with
          | Some tx, true =>
              if match content_length with Some len => negb (len =? 0) | None => false end then
                (RErr (new_h2 (H2Reason INTERNAL_ERROR), None), f, mkNet (n_ping st) (send_reset tx INTERNAL_ERROR (n_w st)))
              else (RVal (mkResponse (hr_status res) (hr_headers res) EmptyBody (Some (mkUpgraded ping tx (hr_recv res) []))), f, st)
          | _, _ =>
              let ping := recorder_for_stream (hr_recv res) ping st in
              (RVal (mkResponse (hr_status res) (hr_headers res)
                 (StreamBody (incoming_h2 (hr_recv res) (DecodedLength.from_opt content_length) ping st)) None), f, st)
          end
      | _, _ => (RPanic, f, st) (* polled after completion *)
      end
  | (RErr err, st) =>
      match rf_ping f, rf_send_stream f with
      | Some ping, Some _ =>
          (match recorder_not_timed_out ping st with
           | Err e => RErr (e, None)
           | Ok _ => RErr (new_h2 err, None)
           end, mkResponseFut (rf_fut f) None None, st)
      | _, _ => (RPanic, f, st)
      end
  end.

(** ** The tasks *)

(** [Conn], [ConnMapErr] and [ConnTask]; [ct_ponger]: the ponger's own state, when
    pings are enabled; [ct_cancel_tx]: it is still there. *)
Record ConnTask := mkConnTask {
  ct_ponger : option (option Ping.Bdp * option Ping.KeepAlive);
  ct_is_terminated : bool;
  ct_drop_rx_terminated : bool;
  ct_cancel_tx : bool
}.

(** [PipeMap]; [pm_open]: the handle and the recorder have not been taken. *)
Record PipeMap := mkPipeMap { pm_pipe : PipeToSendStream (Bs := Bs); pm_open : bool }.

Inductive H2ClientFuture :=
| FPipe (pipe : PipeMap)
| FSend (when_ : ResponseFutMap) (call_back : option Callback)
| FTask (task : ConnTask).

Record FutCtx := mkFutCtx {
  fc_is_connect : bool; fc_eos : bool; fc_fut : nat; fc_body_tx : nat; fc_body : Bs; fc_cb : Callback
}.

Context {CS : Type} {os : Oneshot (Answer Request Response) CS} {M : Type} {mp : Mpsc (Envelope Request) M} {G : Type} {wt : Want G}.

(** What the tasks share. *)
Record H2Sys := mkSys {
  sy_net : Net (W := W);
  sy_chans : CS;
  sy_queue : Shared (M := M) (G := G);
  sy_drop_refs : nat;
  sy_conn_eof : bool;
  sy_spawned : list H2ClientFuture
}.
Definition set_net x s := mkSys x (sy_chans s) (sy_queue s) (sy_drop_refs s) (sy_conn_eof s) (sy_spawned s).
Definition set_chans x s := mkSys (sy_net s) x (sy_queue s) (sy_drop_refs s) (sy_conn_eof s) (sy_spawned s).
Definition set_queue x s := mkSys (sy_net s) (sy_chans s) x (sy_drop_refs s) (sy_conn_eof s) (sy_spawned s).
Definition set_drop_refs x s := mkSys (sy_net s) (sy_chans s) (sy_queue s) x (sy_conn_eof s) (sy_spawned s).
Definition set_conn_eof x s := mkSys (sy_net s) (sy_chans s) (sy_queue s) (sy_drop_refs s) x (sy_spawned s).
Definition set_spawned x s := mkSys (sy_net s) (sy_chans s) (sy_queue s) (sy_drop_refs s) (sy_conn_eof s) x.
Definition execute_h2_future (f : H2ClientFuture) (s : H2Sys) : H2Sys := set_spawned (sy_spawned s ++ [f]) s.

Definition with_w {A} (f : W -> A * W) (s : H2Sys) : A * H2Sys :=
  let '(a, n) := on_w f (sy_net s) in (a, set_net n s).

(** *** [ConnTask] *)

(** [Conn::poll], or the connection itself; [is_idle]: no recorder of a stream is left. *)
Definition conn_fut_poll (is_idle : bool) (t : ConnTask) (s : H2Sys) : poll_res H2Error unit * ConnTask * H2Sys :=
  let set_ponger x := mkConnTask x (ct_is_terminated t) (ct_drop_rx_terminated t) (ct_cancel_tx t) in
  match ct_ponger t, n_ping (sy_net s) with
  | Some (bdp, ka), Some sh =>
      match Ping.poll is_idle (Ping.mkPonger bdp ka sh) (n_w (sy_net s)) with
      | None => (RPanic, t, s)
      | Some (r, p, w) =>
          let t := set_ponger (Some (Ping.p_bdp p, Ping.p_keep_alive p)) in
          let s := set_net (mkNet (Some (Ping.p_shared p)) w) s in
          match r with
          | Some (Ping.SizeUpdate wnd) =>
              let s := set_net (mkNet (n_ping (sy_net s)) (set_target_window_size wnd (n_w (sy_net s)))) s in
              match with_w (set_initial_window_size wnd) s with
              | (Ok _, s) => let '(r, s) := with_w conn_poll s in (r, t, s)
              | (Err e, s) => (RErr e, t, s)
              end
          | Some Ping.KeepAliveTimedOut => (RVal tt, t, s)
          | None => let '(r, s) := with_w conn_poll s in (r, t, s)
          end
      end
  | _, _ => let '(r, s) := with_w conn_poll s in (r, t, s)
  end.

(** [ConnMapErr::poll]: [Some true] when it is ready, [None] a panic. *)
Definition conn_map_err_poll (is_idle : bool) (t : ConnTask) (s : H2Sys) : option bool * ConnTask * H2Sys :=
  if ct_is_terminated t then (Some false, t, s)
  else
    let '(r, t, s) := conn_fut_poll is_idle t s in
    match r with
    | RVal _ | RErr _ => (Some true, mkConnTask (ct_ponger t) true (ct_drop_rx_terminated t) (ct_cancel_tx t), s)
    | RPending => (Some false, t, s)
    | _ => (None, t, s)
    end.

(** [ConnTask::poll]: [Some true] is ready. *)
Definition conn_task_poll (is_idle : bool) (t : ConnTask) (s : H2Sys) : option bool * ConnTask * H2Sys :=
  let '(r, t, s) := if negb (ct_is_terminated t) then conn_map_err_poll is_idle t s else (Some false, t, s) in
  match r with
  | Some true => (Some true, t, s)
  | Some false =>
      (* the channel of the handles carries no messages: it is ready when they are gone *)
      if negb (ct_drop_rx_terminated t) && (sy_drop_refs s =? 0)%nat then
        if ct_cancel_tx t then (Some false, mkConnTask (ct_ponger t) (ct_is_terminated t) true false, set_conn_eof true s)
        else (None, t, s) (* polled twice *)
      else (Some false, t, s)
  | None => (None, t, s)
  end.

(** *** The futures of the executor *)

Definition drop_ref (s : H2Sys) : H2Sys := set_drop_refs (pred (sy_drop_refs s)) s.

(** [PipeMap::poll]; the result is logged only. *)
Definition pipe_map_poll (fuel : nat) (p : PipeMap) (s : H2Sys) : poll_res Error unit * PipeMap * H2Sys :=
  let '(r, pipe, w) := pipe_poll fuel (pm_pipe p) (n_w (sy_net s)) in
  let s := set_net (mkNet (n_ping (sy_net s)) w) s in
  match r with
  | RVal _ | RErr _ => if pm_open p then (RVal tt, mkPipeMap pipe false, drop_ref s) else (RPanic, mkPipeMap pipe false, s)
  | r => (r, mkPipeMap pipe (pm_open p), s)
  end.

(** [SendWhen::poll] *)
Definition send_when (f : ResponseFutMap) (cb : option Callback) (s : H2Sys)
  : poll_res Error unit * ResponseFutMap * option Callback * H2Sys :=
  let '(r, f, n) := response_fut_poll f (sy_net s) in
  let s := set_net n s in
  match r with
  | RFuel => (RFuel, f, cb, s)
  | RPanic => (RPanic, f, cb, s)
  | _ =>
      match send_when_poll r cb (sy_chans s) with
      | Some (r, cb, cs) => (r, f, cb, set_chans cs s)
      | None => (RPanic, f, cb, s)
      end
  end.

(** [H2ClientFuture::poll] *)
Definition future_poll (fuel : nat) (is_idle : bool) (f : H2ClientFuture) (s : H2Sys) : poll_res Error unit * H2ClientFuture * H2Sys :=
  match f with
  | FPipe p => let '(r, p, s) := pipe_map_poll fuel p s in (r, FPipe p, s)
  | FSend f cb => let '(r, f, cb, s) := send_when f cb s in (r, FSend f cb, s)
  | FTask t =>
      let '(r, t, s) := conn_task_poll is_idle t s in
      (match r with Some true => RVal tt | Some false => RPending | None => RPanic end, FTask t, s)
  end.

(** The executor drops a future: one that is done, or any when it shuts down. *)
Definition future_drop (panicking : bool) (f : H2ClientFuture) (s : H2Sys) : H2Sys :=
  match f with
  | FPipe p => if pm_open p then drop_ref s else s
  | FSend _ (Some cb) => set_chans (callback_drop panicking cb (sy_chans s)) s
  | FSend _ None => s
  | FTask t => if ct_cancel_tx t then set_conn_eof true s else s
  end.

(** *** [ClientTask] *)

Record ClientTask := mkClientTask { t_ping : bool; t_fut_ctx : option FutCtx }.

Definition callback_send_s (cb : Callback) (val : result Response (TrySendError Request)) (s : H2Sys) : option H2Sys :=
  cs ← callback_send cb val (sy_chans s); Some (set_chans cs s).
Definition callback_drop_s (panicking : bool) (cb : Callback) (s : H2Sys) : H2Sys :=
  set_chans (callback_drop panicking cb (sy_chans s)) s.

(** [poll_pipe]: the body is polled once at once. *)
Definition poll_pipe (fuel : nat) (t : ClientTask) (f : FutCtx) (s : H2Sys) : poll_res Error unit * H2Sys :=
  let send send_stream s :=
    (RVal tt, execute_h2_future (FSend (mkResponseFut (fc_fut f) (Some (t_ping t)) (Some send_stream)) (Some (fc_cb f))) s) in
  if negb (fc_is_connect f) then
    if negb (fc_eos f) then
      let '(r, pipe, w) := pipe_poll fuel (pipe_new (fc_body f) (fc_body_tx f)) (n_w (sy_net s)) in
      let s := set_net (mkNet (n_ping (sy_net s)) w) s in
      match r with
      | RVal _ | RErr _ => send None s
      | RPending => send None (execute_h2_future (FPipe (mkPipeMap pipe true)) (set_drop_refs (S (sy_drop_refs s)) s))
      | RPanic => (RPanic, callback_drop_s true (fc_cb f) s)
      | RFuel => (RFuel, callback_drop_s true (fc_cb f) s)
      end
    else send None s
  else send (Some (fc_body_tx f)) s.

(** What becomes of a request taken from the channel: [RVal None] when it is dealt
    with, [RVal (Some f)] when its stream waits to be opened. *)
Definition start_request (fuel : nat) (t : ClientTask) (req : Request) (cb : Callback) (s : H2Sys)
  : poll_res Error (option FutCtx) * H2Sys :=
  let body := rq_body req in
  let refuse e s := match callback_send_s cb (Err (mkTrySendError e None)) s with Some s => (RVal None, s) | None => (RPanic, s) end in
  match strip_connection_headers (rq_headers req) true with
  | None => (RPanic, callback_drop_s true cb s)
  | Some headers =>
      let headers := match body_size_exact body with
                     | Some len =>
                         if negb (len =? 0) || Headers.method_has_defined_payload_semantics (rq_method req)
                         then Headers.set_content_length_if_missing headers len else headers
                     | None => headers
                     end in
      let is_connect := bool_decide (rq_method req = CONNECT) in
      let eos := body_is_end_stream body in
      if is_connect && match Headers.content_length_parse_all headers with Some len => negb (len =? 0) | None => false end
      then refuse new_user_invalid_connect s
      else
        match with_w (h2_send_request (mkSentRequest (rq_method req) headers (rq_protocol req) (rq_head req)) (negb is_connect && eos)) s with
        | (Err err, s) => refuse (new_h2 err) s
        | (Ok id, s) =>
            let f := mkFutCtx is_connect eos id id body cb in
            match with_w h2_poll_ready s with
            | (RPending, s) => (RVal (Some f), s)
            | (RVal _, s) => let '(r, s) := poll_pipe fuel t f s in
                             (match r with RVal _ => RVal None | RFuel => RFuel | _ => RPanic end, s)
            | (RErr err, s) => refuse (new_h2 err) s
            | (RPanic, s) => (RPanic, callback_drop_s true cb s)
            | (RFuel, s) => (RFuel, callback_drop_s true cb s)
            end
        end
  end.

(** The loop of [ClientTask::poll]; [senders]: a sending handle is left. *)
Fixpoint client_poll (fuel pipe_fuel : nat) (senders : bool) (t : ClientTask) (s : H2Sys)
  : poll_res Error Dispatcher.Dispatched * ClientTask * H2Sys :=
  match fuel with
  | O => (RFuel, t, s)
  | S fuel =>
      match with_w h2_poll_ready s with
      | (RPending, s) => (RPending, t, s)
      | (RPanic, s) => (RPanic, t, s)
      | (RFuel, s) => (RFuel, t, s)
      | (RErr err, s) =>
          (match recorder_not_timed_out (t_ping t) (sy_net s) with
           | Err e => RErr e
           | Ok _ => if bool_decide (h2_error_reason err = Some NO_ERROR) then RVal Dispatcher.Shutdown else RErr (new_h2 err)
           end, t, s)
      | (RVal _, s) =>
          match t_fut_ctx t with
          | Some f =>
              let t := mkClientTask (t_ping t) None in
              match poll_pipe pipe_fuel t f s with
              | (RVal _, s) => client_poll fuel pipe_fuel senders t s
              | (RFuel, s) => (RFuel, t, s)
              | (_, s) => (RPanic, t, s)
              end
          | None =>
              match poll_recv senders (sy_queue s) with
              | (None, q) => (RPanic, t, set_queue q s)
              | (Some (RVal (Some (req, cb))), q) =>
                  let s := set_queue q s in
                  match is_canceled cb (sy_chans s) with
                  | None => (RPanic, t, s)
                  | Some true => client_poll fuel pipe_fuel senders t (callback_drop_s false cb s)
                  | Some false =>
                      match start_request pipe_fuel t req cb s with
                      | (RVal None, s) => client_poll fuel pipe_fuel senders t s
                      | (RVal (Some f), s) => (RPending, mkClientTask (t_ping t) (Some f), s)
                      | (RFuel, s) => (RFuel, t, s)
                      | (_, s) => (RPanic, t, s)
                      end
                  end
              | (Some (RVal None), q) => (RVal Dispatcher.Shutdown, t, set_queue q s)
              | (Some _, q) =>
                  let s := set_queue q s in
                  if sy_conn_eof s then (RVal Dispatcher.Shutdown, t, s) else (RPending, t, s)
              end
          end
      end
  end.

(** The task ends: its receiver is dropped and then the request that waits. *)
Definition client_task_drop (panicking : bool) (t : ClientTask) (s : H2Sys) : option H2Sys :=
  '(q, cs) ← receiver_drop (sy_queue s) (sy_chans s);
  let s := drop_ref (set_queue q (set_chans cs s)) in
  Some (match t_fut_ctx t with Some f => callback_drop_s panicking (fc_cb f) s | None => s end).

(** *** [handshake], once the crate's handshake is done *)

Definition handshake {P S D X R} (config : Config (PseudoOrder := P) (SettingsOrder := S) (StreamDependency := D)
    (ExperimentalSettings := X) (Priorities := R)) (w : W) (queue : Shared (M := M) (G := G)) (cs : CS) : ClientTask * H2Sys :=
  let ping_config := new_ping_config config in
  let '(ponger, ping, w) :=
    if Ping.is_enabled ping_config then
      let '(p, w) := Ping.channel ping_config w in
      (Some (Ping.p_bdp p, Ping.p_keep_alive p), Some (Ping.p_shared p), w)
    else (None, None, w) in
  let s := mkSys (mkNet ping w) cs queue 1 false [] in
  (mkClientTask (bool_decide (is_Some ping)) None,
   execute_h2_future (FTask (mkConnTask ponger false false true)) s).
End Client.
End H2Client.
