(* ===== verification/H2Props.v ===== *)
(** * What HTTP/2 streams promise

    The headers that have no place in HTTP/2 are removed and no others; a request
    body is sent frame by frame, in order, with one end; what is read from an
    upgraded stream and from a response body is what the peer sent, and as much
    flow-control credit is given back as was read. *)

From S2P Require Import Prelude Buf Http Models Decode Error Dispatcher DispatcherFacts DispatcherProps Ping H2.
Import Error H2.

(** ** The interface *)

(** What was put into a stream. *)
Inductive StreamFrame (H : Type) := SfData (b : bytes) (eos : bool) | SfTrailers (h : H) | SfReset (reason : Z).
Arguments SfData {H} _ _.
Arguments SfTrailers {H} _.
Arguments SfReset {H} _.

(** What a stream answered that did not take more: not yet, never again, an error,
    or that the peer reset it. *)
Inductive Refusal := RfWait | RfClosed | RfFailed (e : H2Error) | RfReset (reason : Z).

(** What a poll for data said: some bytes, and whether nothing comes after them;
    the end; an error; nothing yet. *)
Inductive RecvEvent := ReData (b : bytes) (eos : bool) | ReEnd | ReFailed (e : H2Error) | RePending.
Definition recv_event (eos : bool) (r : poll_res H2Error (option bytes)) : list RecvEvent :=
  match r with
  | RVal (Some b) => [ReData b eos]
  | RVal None => [ReEnd]
  | RErr e => [ReFailed e]
  | RPending => [RePending]
  | RPanic | RFuel => []
  end.
Definition event_data (x : RecvEvent) : bytes := match x with ReData b _ => b | _ => [] end.

(** [SendBuf] keeps the contract of buffers. *)
Section SendBufLaws.
Context {BC : BytesCrate} {BCL : BytesCrateLaws} {B : Type} {HB : Buf B} {HBL : BufLaws B}.

#[export] Program Instance SendBuf_laws : BufLaws (SendBuf B) := {
  buf_wf s := match s with SbBuf b => buf_wf b | SbCursor c => buf_wf c | SbNone => True end;
  content s := match s with SbBuf b => content b | SbCursor c => content c | SbNone => [] end
}.
Next Obligation. intros [b|c|] Hb; cbn; [by apply remaining_content..|done]. Qed.
Next Obligation. intros [b|c|] Hb; cbn; [by apply chunk_content..|by exists []]. Qed.
Next Obligation. intros [b|c|] Hb; cbn; [by apply chunk_empty..|done]. Qed.
Next Obligation.
  intros [b|c|] n Hb Hn; cbn.
  - destruct (advance_content b n Hb Hn) as (b' & -> & Hw & Hc). by exists (SbBuf b').
  - destruct (advance_content c n Hb Hn) as (c' & -> & Hw & Hc). by exists (SbCursor c').
  - exists SbNone. split; [done|]. split; [done|]. by rewrite zdrop_ge by (cbn in Hn |- *; len_lia).
Qed.
Next Obligation. intros [b|c|] n Hb Hn; cbn; [by apply vectored_count..|len_lia]. Qed.
Next Obligation. intros [b|c|] n Hb Hn; cbn; [by apply vectored_content..|by exists []]. Qed.
Next Obligation. intros [b|c|] n Hb Hn; cbn; [by apply vectored_short..|done]. Qed.
Next Obligation. intros [b|c|] n Hb Hn; cbn; [by apply vectored_progress..|done]. Qed.
End SendBufLaws.

(** The http2 crate: the history of a stream, that is what was put into it, what it
    refused, what polls for its data said and how much credit was given back. *)
Class H2Laws (W B : Type) {BC : BytesCrate} {BCL : BytesCrateLaws} {HB : Buf B} {HBL : BufLaws B} {HC : HttpCrate}
    {hs : H2Streams W B HeaderMap} {pe : Ping.Peer W} := {
  sent_frames : nat -> W -> list (StreamFrame HeaderMap);
  refused : nat -> W -> list Refusal;
  recv_log : nat -> W -> list RecvEvent;
  released : nat -> W -> Z;
  (* a bound on reports of no capacity, and of no data, in a row *)
  max_spurious : nat;
  spurious : nat -> W -> nat;
  spurious_max id w : (spurious id w <= max_spurious)%nat;
  reserve_quiet id n w :
    sent_frames id (reserve_capacity id n w) = sent_frames id w /\ refused id (reserve_capacity id n w) = refused id w;
  poll_capacity_ok id w :
    let '(r, w') := poll_capacity id w in
    sent_frames id w' = sent_frames id w /\
    refused id w' = refused id w ++ match r with RVal None => [RfClosed] | RErr e => [RfFailed e] | RPending => [RfWait] | _ => [] end /\
    match r with RVal (Some n) => n = 0 -> (spurious id w' < spurious id w)%nat | RPanic | RFuel => False | _ => True end;
  (* not more than was asked for *)
  poll_capacity_most id n w k w' : 0 < n -> poll_capacity id (reserve_capacity id n w) = (RVal (Some k), w') -> 0 <= k <= n;
  poll_reset_ok id w :
    let '(r, w') := poll_reset id w in
    sent_frames id w' = sent_frames id w /\
    refused id w' = refused id w ++ match r with RVal reason => [RfReset reason] | RErr e => [RfFailed e] | _ => [] end /\
    r <> RPanic /\ r <> RFuel;
  send_data_ok id (b : SendBuf B) eos w :
    buf_wf b ->
    let '(r, w') := send_data id b eos w in
    sent_frames id w' = sent_frames id w ++ match r with Ok _ => [SfData (content b) eos] | Err _ => [] end /\
    refused id w' = refused id w ++ match r with Ok _ => [] | Err e => [RfFailed e] end;
  send_trailers_ok id t w :
    let '(r, w') := send_trailers id t w in
    sent_frames id w' = sent_frames id w ++ match r with Ok _ => [SfTrailers t] | Err _ => [] end /\
    refused id w' = refused id w ++ match r with Ok _ => [] | Err e => [RfFailed e] end;
  send_reset_ok id r w :
    sent_frames id (send_reset id r w) = sent_frames id w ++ [SfReset r] /\ refused id (send_reset id r w) = refused id w;
  poll_data_ok id w :
    let '(r, w') := poll_data id w in
    released id w' = released id w /\
    recv_log id w' = recv_log id w ++ recv_event (recv_is_end_stream id w') r /\
    match r with
    | RVal (Some b) => b = [] -> recv_is_end_stream id w' = true \/ (spurious id w' < spurious id w)%nat
    | RPanic | RFuel => False
    | _ => True
    end;
  poll_trailers_ok id w :
    let '(r, w') := poll_trailers id w in
    released id w' = released id w /\ recv_log id w' = recv_log id w /\ r <> RPanic /\ r <> RFuel;
  release_ok id n w : released id (release_capacity id n w) = released id w + n /\ recv_log id (release_capacity id n w) = recv_log id w;
  clock_quiet id w : recv_log id (Ping.instant_now w).2 = recv_log id w /\ released id (Ping.instant_now w).2 = released id w;
  ping_quiet id w : recv_log id (Ping.peer_send_ping w).2 = recv_log id w /\ released id (Ping.peer_send_ping w).2 = released id w
}.

(** ** Headers *)

Section Strip.
Context `{HttpLaws}.

(** The names a request may not carry over HTTP/2: the connection's own headers,
    [TE] unless it says [trailers], and what the first [Connection] header lists. *)
Definition named_by (v : HeaderValue) (k : HeaderName) : Prop :=
  exists part, part ∈ split Headers.COMMA v /\ hn_from_bytes (trim part) = Some k.
Definition banned (h : HeaderMap) (k : HeaderName) : Prop :=
  k ∈ CONNECTION :: CONNECTION_HEADERS \/
  k = TE /\ (exists te, hm_get TE h = Some te /\ te <> bs "trailers") \/
  exists v, hm_get CONNECTION h = Some v /\ named_by v k.

(** [h'] is [h] without the headers of [P]. *)
Definition without (P : HeaderName -> Prop) (h h' : HeaderMap) : Prop :=
  forall k, (P k -> hm_get_all k h' = []) /\ (~ P k -> hm_get_all k h' = hm_get_all k h).

Lemma without_remove k h : without (fun x => x = k) h (hm_remove k h).
Proof. intros x. split; [intros ->; apply get_all_remove_eq|by apply get_all_remove_ne]. Qed.

Lemma without_none h : without (fun _ => False) h h.
Proof. done. Qed.

Lemma without_trans (P Q R : HeaderName -> Prop) h h1 h2 :
  without P h h1 -> without Q h1 h2 -> (forall k, R k <-> P k \/ Q k) -> (forall k, Decision (Q k)) -> without R h h2.
Proof.
  intros H1 H2 HR HQ k. rewrite HR. destruct (H1 k) as [P1 P2], (H2 k) as [Q1 Q2]. split.
  - destruct (decide (Q k)) as [q|q]; [auto|]. intros [p|p]; [rewrite Q2 by done; auto|done].
  - intros Hn. rewrite Q2, P2; [done|naive_solver..].
Qed.

Lemma without_ext (P Q : HeaderName -> Prop) h h' : (forall k, P k <-> Q k) -> without P h h' -> without Q h h'.
Proof. intros HE Hw k. rewrite <- HE. apply Hw. Qed.

Lemma without_all l h : without (fun k => k ∈ l) h (foldl (fun hs k => hm_remove k hs) h l).
Proof.
  revert h. induction l as [|x l IH]; intros h; [by eapply without_ext; [|apply without_none]; set_solver|].
  cbn [foldl]. eapply without_trans; [apply without_remove|apply IH| |]; [intros k; rewrite elem_of_cons; done|solve_decision].
Qed.

#[local] Instance named_dec (l : list bytes) (k : HeaderName) :
  Decision (exists part, part ∈ l /\ hn_from_bytes (trim part) = Some k).
Proof.
  destruct (decide (Some k ∈ (hn_from_bytes ∘ trim) <$> l)) as [Hin|Hn]; [left|right].
  - apply list_elem_of_fmap in Hin as (y & Hy & Hl). by exists y.
  - intros (y & Hy & He). apply Hn, list_elem_of_fmap. by exists y.
Defined.

Lemma without_names l h :
  without (fun k => exists part, part ∈ l /\ hn_from_bytes (trim part) = Some k) h
    (foldl (fun hs name => remove_str (trim name) hs) h l).
Proof.
  revert h. induction l as [|x l IH]; intros h; [by eapply without_ext; [|apply without_none]; set_solver|].
  cbn [foldl]. unfold remove_str at 2. destruct (hn_from_bytes (trim x)) as [n|] eqn:En.
  - eapply without_trans; [apply (without_remove n)|apply IH|set_solver|apply _].
  - eapply without_ext; [|apply IH]. intros k. split; [set_solver|]. intros (y & [->|Hy]%elem_of_cons & He); [congruence|eauto].
Qed.

(** Removing other headers does not change the first value. *)
Lemma get_other (P : HeaderName -> Prop) h h' k : without P h h' -> ~ P k -> hm_get k h' = hm_get k h.
Proof. intros Hw Hn. unfold hm_get. by rewrite (proj2 (Hw k) Hn). Qed.

Lemma not_banned (k : HeaderName) (l : list HeaderName) : bool_decide (k ∈ l) = false -> k ∉ l.
Proof. apply bool_decide_eq_false. Qed.

Lemma strip_ok h :
  match strip_connection_headers h true with
  | Some h' => without (banned h) h h'
  | None => exists v, hm_get CONNECTION h = Some v /\ forallb visible_ascii v = false
  end.
Proof.
  unfold strip_connection_headers. set (h1 := foldl _ h CONNECTION_HEADERS).
  assert (H1 : without (fun k => k ∈ CONNECTION_HEADERS) h h1) by apply without_all.
  set (h2 := match hm_get TE h1 with Some _ => _ | None => _ end).
  assert (H2 : without (fun k => k = TE /\ exists te, hm_get TE h = Some te /\ te <> bs "trailers") h1 h2).
  { subst h2. rewrite (get_other _ _ _ TE H1) by (apply not_banned; reflexivity).
    destruct (hm_get TE h) as [te|]; [|eapply without_ext; [|apply without_none]; naive_solver].
    case_bool_decide; [eapply without_ext; [|apply without_none]|eapply without_ext; [|apply without_remove]]; cbn; naive_solver. }
  assert (H12 : without (fun k => k ∈ CONNECTION_HEADERS \/ k = TE /\ exists te, hm_get TE h = Some te /\ te <> bs "trailers") h h2).
  { eapply without_trans; [exact H1|exact H2|done|]. intros k.
    destruct (decide (k = TE)) as [->|]; [|right; naive_solver]. destruct (hm_get TE h) as [te|]; [|right; naive_solver].
    destruct (decide (te = bs "trailers")); [right|left]; naive_solver. }
  assert (Hc : hm_get CONNECTION h2 = hm_get CONNECTION h).
  { apply (get_other _ _ _ CONNECTION H12). intros [Hx|[Hx _]]; [by apply not_banned in Hx|done]. }
  rewrite Hc. destruct (hm_get CONNECTION h) as [v|] eqn:Ev; cbn [mbind option_bind].
  - destruct (forallb visible_ascii v) eqn:Et; [rewrite to_str_some by done|rewrite to_str_none by done; by exists v].
    pose proof (without_trans _ _ (fun k => k = CONNECTION \/ named_by v k) _ _ _ (without_remove CONNECTION h2)
      (without_names (split Headers.COMMA v) (hm_remove CONNECTION h2)) ltac:(done) ltac:(apply _)) as H3.
    eapply without_trans; [exact H12|exact H3| |unfold named_by; apply _].
    intros k. unfold banned. rewrite Ev, elem_of_cons. naive_solver.
  - intros k. destruct (decide (k = CONNECTION)) as [->|Hk].
    + assert (E : hm_get_all CONNECTION h2 = []) by (unfold hm_get in Hc; by destruct (hm_get_all CONNECTION h2)).
      rewrite E. split; [done|]. intros []. left. by left.
    + destruct (H12 k) as [Ha Hb]. unfold banned. rewrite Ev, elem_of_cons. split; [naive_solver|]. intros Hn. apply Hb. naive_solver.
Qed.

(** What a request's headers lose before they go into an HTTP/2 stream: exactly
    the connection's own headers, a [TE] that is not [trailers] and the headers that
    the first [Connection] header names; every other header keeps all its values.
    The one input on which it panics is a [Connection] value that is not text. *)
Theorem strip_exact h :
  match strip_connection_headers h true with
  | Some h' => without (banned h) h h'
  | None => exists v, hm_get CONNECTION h = Some v /\ forallb visible_ascii v = false
  end.
Proof. apply strip_ok. Qed.
End Strip.

(** ** Request bodies *)

Section Pipe.
Context {BC : BytesCrate} {BCL : BytesCrateLaws} {B : Type} {HB : Buf B} {HBL : BufLaws B} `{HC : HttpCrate}.
Context {W : Type} {hs : H2Streams W B HeaderMap} {pe : Ping.Peer W} {hl : H2Laws W B}.
Context {Bs : Type} {bd : Body Bs B HeaderMap} {bdl : BodyLaws Bs B}.
Implicit Types (p : PipeToSendStream (Bs := Bs)) (w : W) (b : Bs).

(** The data and unknown frames a body gives over some polls. *)
Inductive delivers : Bs -> list B -> Bs -> Prop :=
| dl_nil b : delivers b [] b
| dl_data b x b1 l b2 : body_poll_frame b = (RVal (Some (DataFrame x)), b1) -> delivers b1 l b2 -> delivers b (x :: l) b2
| dl_unknown b b1 l b2 : body_poll_frame b = (RVal (Some UnknownFrame), b1) -> delivers b1 l b2 -> delivers b l b2
| dl_pending b b1 l b2 : body_poll_frame b = (RPending, b1) -> delivers b1 l b2 -> delivers b l b2.

Lemma delivers_app b1 l1 b2 l2 b3 : delivers b1 l1 b2 -> delivers b2 l2 b3 -> delivers b1 (l1 ++ l2) b3.
Proof. induction 1; intros H3; cbn; eauto using delivers. Qed.

Definition data_frames (l : list B) : list (StreamFrame HeaderMap) := (fun x => SfData (content x) false) <$> l.

(** The one frame that ends the stream. *)
Definition last_frame b (f : StreamFrame HeaderMap) : Prop :=
  match body_poll_frame b with
  | (RVal (Some (DataFrame x)), b') => body_is_end_stream b' = true /\ f = SfData (content x) true
  | (RVal (Some (TrailersFrame t)), _) => f = SfTrailers t
  | (RVal None, _) => f = SfData [] true
  | _ => False
  end.

(** What the pipe reports when the stream takes no more. *)
Definition refusal_cause (f : Refusal) : option Cause :=
  match f with
  | RfWait => None
  | RfClosed => Some (CauseText "send stream capacity unexpectedly closed")
  | RfFailed e => Some (CauseH2 e)
  | RfReset reason => Some (CauseH2 (H2Reason reason))
  end.

(** What a poll of the pipe left behind, from [frames] that were in the stream and
    what it had refused before, [old]: the pipe waits for the body or for the stream;
    an error is the body's, and then the stream was reset with its reason, or what
    the stream itself answered. *)
Definition pipe_outcome b (frames : list (StreamFrame HeaderMap)) (old : list Refusal) (tx : nat)
    (o : poll_res Error unit * PipeToSendStream * W) : Prop :=
  let '(r, p', w') := o in
  body_tx p' = tx /\
  exists l b', delivers b l b' /\
  match r with
  | RPending =>
      sent_frames tx w' = frames ++ data_frames l /\
      (body_poll_frame b' = (RPending, stream p') /\ refused tx w' = old \/ stream p' = b' /\ refused tx w' = old ++ [RfWait])
  | RVal _ => exists f, last_frame b' f /\ sent_frames tx w' = frames ++ data_frames l ++ [f] /\ refused tx w' = old
  | RErr e =>
      (exists c, (body_poll_frame b').1 = RErr c /\ e = new_user_body c /\
         sent_frames tx w' = frames ++ data_frames l ++ [SfReset (h2_reason e)] /\ refused tx w' = old) \/
      (exists f c, refused tx w' = old ++ [f] /\ refusal_cause f = Some c /\ e = new_body_write c /\ sent_frames tx w' = frames ++ data_frames l)
  | RPanic | RFuel => False
  end.

(** Until the stream is ready nothing is sent; not to be ready is its answer. *)
Definition ready_outcome (tx : nat) w (o : poll_res Error unit * W) : Prop :=
  let '(r, w') := o in
  sent_frames tx w' = sent_frames tx w /\
  match r with
  | RVal _ => refused tx w' = refused tx w
  | RPending => refused tx w' = refused tx w ++ [RfWait]
  | RErr e => exists f c, refused tx w' = refused tx w ++ [f] /\ refusal_cause f = Some c /\ e = new_body_write c
  | RPanic | RFuel => False
  end.

Lemma wait_capacity_ok fuel tx w : (spurious tx w < fuel)%nat -> ready_outcome tx w (wait_capacity fuel tx w).
Proof.
  revert w. induction fuel as [|fuel IH]; intros w Hf; [lia|]. cbn [wait_capacity]. unfold ready_outcome.
  pose proof (poll_capacity_ok tx w) as Hp. destruct (poll_capacity tx w) as [[[n|]| |e| |] w1]; destruct Hp as (Hs & Hr & Hz); try done.
  - rewrite app_nil_r in Hr. destruct (Z.eqb_spec n 0) as [->|Hn]; [|done].
    specialize (IH w1 ltac:(specialize (Hz eq_refl); lia)). unfold ready_outcome in IH. rewrite <- Hs, <- Hr. exact IH.
  - split; [done|]. by eexists RfClosed, _.
  - split; [done|]. by eexists (RfFailed e), _.
Qed.

Lemma pipe_ready_ok fuel tx w : (max_spurious < fuel)%nat -> ready_outcome tx w (pipe_ready fuel tx w).
Proof.
  intros Hf. unfold pipe_ready. destruct (reserve_quiet tx 1 w) as [Hs Hr]. set (w1 := reserve_capacity tx 1 w) in *.
  unfold ready_outcome. rewrite <- Hs, <- Hr. destruct (capacity tx w1 =? 0).
  - apply wait_capacity_ok. pose proof (spurious_max tx w1). lia.
  - pose proof (poll_reset_ok tx w1) as Hp. destruct (poll_reset tx w1) as [[reason| |e| |] w2]; destruct Hp as (? & Hx & ? & ?); try done.
    + split; [done|]. by eexists (RfReset reason), _.
    + by rewrite app_nil_r in Hx.
    + split; [done|]. by eexists (RfFailed e), _.
Qed.

(** One frame more has gone before. *)
Lemma outcome_step b b1 l frames frames1 old tx o :
  delivers b l b1 -> frames1 = frames ++ data_frames l -> pipe_outcome b1 frames1 old tx o -> pipe_outcome b frames old tx o.
Proof.
  intros Hd ->. destruct o as [[r p'] w']. intros (Htx & l2 & b2 & Hd2 & Hr). split; [done|].
  exists (l ++ l2), b2. split; [by eapply delivers_app|]. unfold data_frames in *. rewrite fmap_app.
  destruct r as [[]| |e| |]; rewrite <- ?app_assoc in Hr; [|done| |done|done].
  - destruct Hr as (f & Hl & -> & Ho). exists f. by rewrite <- !app_assoc.
  - destruct Hr as [(c & Hc & He & -> & Ho)|(f & c & Ho & Hc & He & ->)]; [left; exists c|right; exists f, c]; by rewrite <- ?app_assoc.
Qed.

(** A write that the stream took or refused ends the poll. *)
Lemma outcome_refused b frames old tx p' w' e :
  body_tx p' = tx -> sent_frames tx w' = frames -> refused tx w' = old ++ [RfFailed e] ->
  pipe_outcome b frames old tx (RErr (new_body_write (CauseH2 e)), p', w').
Proof.
  intros Htx Hs Hr. split; [done|]. exists [], b. split; [constructor|]. right. eexists (RfFailed e), _. by rewrite app_nil_r.
Qed.
Lemma outcome_last b frames old tx p' w' f :
  body_tx p' = tx -> last_frame b f -> sent_frames tx w' = frames ++ [f] -> refused tx w' = old ->
  pipe_outcome b frames old tx (RVal tt, p', w').
Proof. intros Htx Hl Hs Hr. split; [done|]. exists [], b. split; [constructor|]. by exists f. Qed.

Lemma pipe_poll_ok fuel p w :
  body_ok (B := B) (stream p) -> (Z.to_nat (body_left (B := B) (stream p)) + S max_spurious < fuel)%nat ->
  pipe_outcome (stream p) (sent_frames (body_tx p) w) (refused (body_tx p) w) (body_tx p) (pipe_poll fuel p w).
Proof.
  revert p w. induction fuel as [|fuel IH]; intros [tx dd b] w Hb Hf; [lia|]. cbn [stream body_tx] in *. cbn [pipe_poll body_tx stream].
  pose proof (pipe_ready_ok fuel tx w ltac:(lia)) as Hr. destruct (pipe_ready fuel tx w) as [[u| |e| |] w1]; destruct Hr as (Hs & Hr); try done.
  2: { split; [done|]. exists [], b. split; [constructor|]. rewrite app_nil_r. split; [done|]. by right. }
  2: { destruct Hr as (f & c & Hr & Hc & ->). split; [done|]. exists [], b. split; [constructor|]. right. exists f, c. by rewrite app_nil_r. }
  pose proof (body_frame_ok (B := B) b Hb) as Hfr. pose proof (body_left_nonneg (B := B) b) as Hnn. rewrite <- Hs, <- Hr.
  destruct (body_poll_frame b) as [r b'] eqn:Ep. cbn [set_stream body_tx data_done].
  destruct r as [[[x|t|]|]| |e| |].
  - (* data *)
    destruct Hfr as (Hb' & Hx & Hl). pose proof (send_data_ok tx (SbBuf x) (body_is_end_stream b') w1 Hx) as Hsd.
    destruct (send_data tx (SbBuf x) (body_is_end_stream b') w1) as [[v|e] w2]; cbn [content SendBuf_laws] in Hsd;
      destruct Hsd as [Hsd Hrf]; rewrite ?app_nil_r in *; [|by apply outcome_refused].
    destruct (body_is_end_stream b') eqn:Ee.
    + eapply outcome_last; [done|unfold last_frame; by rewrite Ep|done..].
    + eapply (outcome_step _ b' [x] _ (sent_frames tx w2)); [by eapply dl_data; [exact Ep|constructor]|done|]. rewrite <- Hrf.
      apply (IH (mkPipe tx dd b')); [done|]. cbn [stream]. pose proof (body_left_nonneg (B := B) b'). pose proof (len_nonneg (content x)). lia.
  - (* trailers *)
    pose proof (send_trailers_ok tx t (reserve_capacity tx 0 w1)) as Ht. destruct (reserve_quiet tx 0 w1) as [Hq1 Hq2]. rewrite Hq1, Hq2 in Ht.
    destruct (send_trailers tx t (reserve_capacity tx 0 w1)) as [[v|e] w2]; destruct Ht as [Ht Hrf]; rewrite ?app_nil_r in *.
    + eapply outcome_last; [done|unfold last_frame; by rewrite Ep|done..].
    + by apply outcome_refused.
  - (* unknown *)
    destruct Hfr as (Hb' & Hl). eapply (outcome_step _ b' [] _ (sent_frames tx w1)); [by eapply dl_unknown; [exact Ep|constructor]|by rewrite app_nil_r|].
    apply (IH (mkPipe tx dd b')); [done|]. cbn [stream]. pose proof (body_left_nonneg (B := B) b'). lia.
  - (* the end *)
    unfold send_eos_frame. pose proof (send_data_ok tx SbNone true w1 I) as Hsd.
    destruct (send_data tx SbNone true w1) as [[v|e] w2]; destruct Hsd as [Hsd Hrf]; rewrite ?app_nil_r in *.
    + eapply outcome_last; [done|unfold last_frame; by rewrite Ep|done..].
    + by apply outcome_refused.
  - split; [done|]. exists [], b. split; [constructor|]. rewrite app_nil_r. split; [done|]. by left.
  - split; [done|]. exists [], b. split; [constructor|]. left. exists e. rewrite Ep. destruct (send_reset_ok tx (h2_reason (new_user_body e)) w1). done.
  - done.
  - done.
Qed.

Lemma delivers_ok b l b' : delivers b l b' -> body_ok (B := B) b -> body_ok (B := B) b'.
Proof.
  induction 1 as [|b x b1 l b2 E _ IH|b b1 l b2 E _ IH|b b1 l b2 E _ IH]; intros Hb; [done|..];
    pose proof (body_frame_ok (B := B) b Hb) as Hf; rewrite E in Hf; apply IH, Hf.
Qed.

(** The life of a pipe: polls that are pending, and whatever happens to the
    connection in between, as long as nobody else writes to the stream. *)
Inductive pipe_runs p0 w0 : PipeToSendStream (Bs := Bs) -> W -> Prop :=
| pr_start : pipe_runs p0 w0 p0 w0
| pr_poll fuel p w p' w' :
    pipe_runs p0 w0 p w -> (Z.to_nat (body_left (B := B) (stream p)) + S max_spurious < fuel)%nat ->
    pipe_poll fuel p w = (RPending, p', w') -> pipe_runs p0 w0 p' w'
| pr_env p w w' : pipe_runs p0 w0 p w -> sent_frames (body_tx p) w' = sent_frames (body_tx p) w -> pipe_runs p0 w0 p w'.

Lemma pipe_runs_inv p0 w0 p w :
  body_ok (B := B) (stream p0) -> pipe_runs p0 w0 p w ->
  body_tx p = body_tx p0 /\ exists l, delivers (stream p0) l (stream p) /\
    sent_frames (body_tx p0) w = sent_frames (body_tx p0) w0 ++ data_frames l.
Proof.
  intros Hb. induction 1 as [|fuel p w p' w' _ (Htx & l & Hd & Hs) Hf E|p w w' _ (Htx & l & Hd & Hs) E].
  - split; [done|]. exists []. split; [constructor|]. by rewrite app_nil_r.
  - pose proof (pipe_poll_ok fuel p w (delivers_ok _ _ _ Hd Hb) Hf) as Ho. rewrite E, Htx, Hs in Ho.
    apply (outcome_step _ _ _ _ _ _ _ _ Hd eq_refl) in Ho as (Htx' & l2 & b2 & Hd2 & Hs2 & Hw). split; [done|]. exists l2.
    split; [|done]. destruct Hw as [[Ew _]|[-> _]]; [|done]. rewrite <- (app_nil_r l2). eapply delivers_app; [done|]. eapply dl_pending; [done|constructor].
  - split; [done|]. exists l. split; [done|]. rewrite Htx in E. by rewrite E.
Qed.

(** C23. A request body goes into its HTTP/2 stream as the user gave it: over the
    whole life of the pipe, whatever the capacity does, the stream has got the data
    frames of the body in order, none with the end.  A pipe that is done added
    exactly one frame that ends the stream: the body's last data, its trailers or an
    empty frame.  One that failed because the body failed has reset the stream with
    that error's reason; any other failure is what the stream itself answered (closed,
    reset by the peer or an error), is reported as that and adds no frame.  One that
    waits was told to wait by the body or by the stream.  A poll with fuel for the
    frames that are left returns. *)
Theorem pipe_body_sent p0 w0 p w fuel :
  body_ok (B := B) (stream p0) -> pipe_runs p0 w0 p w ->
  (Z.to_nat (body_left (B := B) (stream p)) + S max_spurious < fuel)%nat ->
  pipe_outcome (stream p0) (sent_frames (body_tx p0) w0) (refused (body_tx p0) w) (body_tx p0) (pipe_poll fuel p w).
Proof.
  intros Hb Hr Hf. destruct (pipe_runs_inv _ _ _ _ Hb Hr) as (Htx & l & Hd & Hs).
  apply (outcome_step _ (stream p) l _ _ _ _ _ Hd Hs). rewrite <- Htx. apply pipe_poll_ok; [|done]. exact (delivers_ok _ _ _ Hd Hb).
Qed.
End Pipe.

(** ** Reading *)

Section Recv.
Context {BC : BytesCrate} {BCL : BytesCrateLaws} {B : Type} {HB : Buf B} {HBL : BufLaws B} `{HC : HttpCrate}.
Context {W : Type} {hs : H2Streams W B HeaderMap} {pe : Ping.Peer W} {hl : H2Laws W B}.
Implicit Types (st : Net (W := W)) (u : H2Upgraded) (w : W).

(** The bytes that were read from a stream. *)
Definition received (id : nat) w : bytes := concat (event_data <$> recv_log id w).

(** Nothing was read or given back. *)
Definition quiet (id : nat) w w' : Prop := recv_log id w' = recv_log id w /\ released id w' = released id w.

Lemma received_log id w w' l : recv_log id w' = recv_log id w ++ l -> received id w' = received id w ++ concat (event_data <$> l).
Proof. intros E. unfold received. by rewrite E, fmap_app, concat_app. Qed.
Lemma received_same id w w' : recv_log id w' = recv_log id w -> received id w' = received id w.
Proof. unfold received. by intros ->. Qed.

Lemma stream_quiet_trans id w1 w2 w3 : quiet id w1 w2 -> quiet id w2 w3 -> quiet id w1 w3.
Proof. unfold quiet. intuition congruence. Qed.

Lemma send_ping_quiet id s w : quiet id w (Ping.send_ping s w).2.
Proof.
  unfold Ping.send_ping. pose proof (ping_quiet id w) as Hp. destruct (Ping.peer_send_ping w) as [[] w1]; [|exact Hp].
  pose proof (clock_quiet id w1) as Hc. destruct (Ping.instant_now w1) as [now w2]. exact (stream_quiet_trans _ _ _ _ Hp Hc).
Qed.

Lemma last_read_quiet id s w : quiet id w (Ping.update_last_read_at s w).2.
Proof.
  unfold Ping.update_last_read_at. destruct (Ping.last_read_at s); [|done].
  pose proof (clock_quiet id w) as Hc. by destruct (Ping.instant_now w) as [now w2].
Qed.

Lemma record_data_quiet id n s w : quiet id w (Ping.record_data n s w).2.
Proof.
  unfold Ping.record_data. pose proof (last_read_quiet id s w) as H1. destruct (Ping.update_last_read_at s w) as [s1 w1].
  assert (H2 : quiet id w1 (Ping.ready_for_bdp s1 w1).2).
  { unfold Ping.ready_for_bdp. destruct (Ping.next_bdp_at s1); [|done]. pose proof (clock_quiet id w1) as Hc.
    destruct (Ping.instant_now w1) as [now w2]. by case_match. }
  destruct (Ping.ready_for_bdp s1 w1) as [[[] s2] w2]; cbn [negb snd] in *; [|exact (stream_quiet_trans _ _ _ _ H1 H2)].
  destruct (Ping.bytes_read s2); [|exact (stream_quiet_trans _ _ _ _ H1 H2)].
  destruct (negb _); [|exact (stream_quiet_trans _ _ _ _ H1 H2)].
  exact (stream_quiet_trans _ _ _ _ (stream_quiet_trans _ _ _ _ H1 H2) (send_ping_quiet id _ w2)).
Qed.

Lemma recorder_quiet id r n st : quiet id (n_w st) (n_w (recorder_data r n st)) /\ quiet id (n_w st) (n_w (recorder_non_data r st)).
Proof.
  unfold recorder_data, recorder_non_data, Ping.record_non_data. destruct r, (n_ping st) as [s|]; try done. split.
  - pose proof (record_data_quiet id n s (n_w st)) as Hq. by destruct (Ping.record_data n s (n_w st)).
  - pose proof (last_read_quiet id s (n_w st)) as Hq. by destruct (Ping.update_last_read_at s (n_w st)).
Qed.

(** The data frames of a response body are the data that the peer sent, and each
    gives back as much credit as it has bytes. *)
Definition frame_credit (b : H2Body) st (o : poll_res Error (option (Decode.Frame HeaderMap)) * H2Body * Net) : Prop :=
  let '(r, b', st') := o in
  let x := match r with RVal (Some (Decode.FData x)) => x | _ => [] end in
  hb_recv b' = hb_recv b /\
  received (hb_recv b) (n_w st') = received (hb_recv b) (n_w st) ++ x /\
  released (hb_recv b) (n_w st') = released (hb_recv b) (n_w st) + len x /\ r <> RPanic /\ r <> RFuel.

Lemma h2body_trailers_credit b st : frame_credit b st (h2body_trailers b st).
Proof.
  destruct st as [ping w]. unfold frame_credit, h2body_trailers, on_w. cbn [n_w n_ping]. pose proof (poll_trailers_ok (hb_recv b) w) as Ht.
  destruct (poll_trailers (hb_recv b) w) as [[t| |e| |] w1]; destruct Ht as (Hrel & Hrec & Hp & Hf); try done; cbn [n_w].
  2-3: by rewrite Hrel, (received_same _ _ _ Hrec), app_nil_r, Z.add_0_r.
  destruct (proj2 (recorder_quiet (hb_recv b) (hb_ping b) 0 (mkNet ping w1))) as [H1 ->]. cbn [n_w] in *.
  rewrite (received_same _ _ _ (eq_trans H1 Hrec)), Hrel. destruct t; cbn; by rewrite app_nil_r, Z.add_0_r.
Qed.

Lemma h2body_frame_credit (b : H2Body) st : frame_credit b st (h2body_poll_frame b st).
Proof.
  unfold h2body_poll_frame. destruct (hb_data_done b); cbn [negb]; [apply h2body_trailers_credit|].
  destruct st as [ping w]. unfold on_w. cbn [n_w n_ping]. pose proof (poll_data_ok (hb_recv b) w) as Hd.
  destruct (poll_data (hb_recv b) w) as [[[x|]| |e| |] w1]; destruct Hd as (Hrel & Hl & Hd); try done;
    pose proof (received_log _ _ _ _ Hl) as Hrec; cbn [recv_event fmap list_fmap event_data concat] in Hrec; rewrite ?app_nil_r in Hrec.
  - unfold frame_credit. cbn [hb_recv hb_ping n_w n_ping]. set (st1 := mkNet ping (release_capacity (hb_recv b) (len x) w1)).
    destruct (proj1 (recorder_quiet (hb_recv b) (hb_ping b) (len x) st1)) as [H1 ->]. cbn [n_w st1] in *.
    destruct (release_ok (hb_recv b) (len x) w1) as [-> H2]. by rewrite (received_same _ _ _ (eq_trans H1 H2)), Hrec, Hrel.
  - pose proof (h2body_trailers_credit (mkH2Body (hb_content_length b) true (hb_ping b) (hb_recv b)) (mkNet ping w1)) as Ht.
    unfold frame_credit in *. cbn [hb_recv n_w] in *. by rewrite <- Hrel, <- Hrec.
  - unfold frame_credit. cbn [n_w]. by rewrite Hrel, Hrec, app_nil_r, Z.add_0_r.
  - unfold frame_credit. cbn [n_w]. rewrite Hrel, Hrec. destruct (_ || _); by rewrite app_nil_r, Z.add_0_r.
Qed.

(** ** The upgraded stream *)

(** The error of a read. *)
Definition read_error (e : H2Error) : io_error :=
  if bool_decide (h2_error_reason e = Some STREAM_CLOSED) then broken_pipe else h2_to_io_error e.
Definition closed_by_peer (e : H2Error) : Prop := h2_error_reason e = Some NO_ERROR \/ h2_error_reason e = Some CANCEL.

(** What polls for data in a row amount to: frames without data are passed over
    unless they are the last; the end is the peer's. *)
Inductive fills : list RecvEvent -> poll_res io_error (option bytes) -> Prop :=
| fl_skip l r : fills l r -> fills (ReData [] false :: l) r
| fl_data b eos : b <> [] \/ eos = true -> fills [ReData b eos] (RVal (Some b))
| fl_end : fills [ReEnd] (RVal None)
| fl_closed e : closed_by_peer e -> fills [ReFailed e] (RVal None)
| fl_failed e : ~ closed_by_peer e -> fills [ReFailed e] (RErr (read_error e))
| fl_pending : fills [RePending] RPending.

(** A read into [space] bytes, from what was there: the result and what is left. *)
Definition take_part (space : Z) (got : poll_res io_error (option bytes)) : poll_res io_error bytes * bytes :=
  match got with
  | RVal (Some b) => (RVal (ztake (Z.min (len b) space) b), zdrop (Z.min (len b) space) b)
  | RVal None => (RVal [], [])
  | RErr e => (RErr e, [])
  | RPending => (RPending, [])
  | RPanic => (RPanic, [])
  | RFuel => (RFuel, [])
  end.

(** The answer to a write or to the end, after the stream would not take it. *)
Inductive refusal_error : Refusal -> io_error -> Prop :=
| rf_broken r : r ∈ [NO_ERROR; CANCEL; STREAM_CLOSED] -> refusal_error (RfReset r) broken_pipe
| rf_reason r : r ∉ [NO_ERROR; CANCEL; STREAM_CLOSED] -> refusal_error (RfReset r) (h2_to_io_error (H2Reason r))
| rf_failed e : refusal_error (RfFailed e) (h2_to_io_error e).

(** A write when the stream has said [cap] of its capacity: what is returned, what
    is put into the stream and what it refused. *)
Inductive wrote (cap : poll_res H2Error (option Z)) (buf : bytes) :
  poll_res io_error Z -> list (StreamFrame HeaderMap) -> list Refusal -> Prop :=
| wr_some n : cap = RVal (Some n) -> 0 <= n <= len buf -> wrote cap buf (RVal n) [SfData (ztake n buf) false] []
| wr_closed : wrote cap buf (RVal 0) [] [RfClosed]
| wr_wait : wrote cap buf RPending [] [RfWait]
| wr_asked e : wrote cap buf RPending [] [RfFailed e]
| wr_failed e f x : refusal_error f x -> wrote cap buf (RErr x) [] [RfFailed e; f].

(** The end of what is written: it is in the stream, or the stream refused it. *)
Inductive ended : poll_res io_error unit -> list (StreamFrame HeaderMap) -> list Refusal -> Prop :=
| en_sent : ended (RVal tt) [SfData [] true] []
| en_no_error e : ended (RVal tt) [] [RfFailed e; RfReset NO_ERROR]
| en_asked e : ended RPending [] [RfFailed e]
| en_failed e f x : f <> RfReset NO_ERROR -> refusal_error f x -> ended (RErr x) [] [RfFailed e; f].

Lemma upgraded_fill_ok fuel u st :
  (spurious (up_recv_stream u) (n_w st) < fuel)%nat ->
  let id := up_recv_stream u in
  let '(r, st') := upgraded_fill fuel u st in
  released id (n_w st') = released id (n_w st) /\
  exists l, recv_log id (n_w st') = recv_log id (n_w st) ++ l /\ fills l r.
Proof.
  set (id := up_recv_stream u). revert st. induction fuel as [|fuel IH]; intros [ping w] Hf; cbn [n_w] in Hf; [lia|].
  cbn [upgraded_fill]. unfold on_w. fold id. cbn [n_w n_ping]. pose proof (poll_data_ok id w) as Hd.
  destruct (poll_data id w) as [[[x|]| |e| |] w1]; destruct Hd as (Hrel & Hl & Hd); try done; cbn [n_w recv_event] in *.
  - case_bool_decide as Hx; cbn [andb]; [destruct (recv_is_end_stream id w1) eqn:Ee; cbn [negb]|].
    + destruct (proj1 (recorder_quiet id (up_ping u) (len x) (mkNet ping w1))) as [-> ->]. split; [done|]. eexists. split; [exact Hl|]. constructor. by right.
    + specialize (IH (mkNet ping w1)). cbn [n_w] in IH. specialize (IH ltac:(destruct (Hd Hx); [congruence|lia])).
      destruct (upgraded_fill fuel u (mkNet ping w1)) as [r st']. subst x. rewrite Hrel, Hl in IH. destruct IH as (Hr & l & Hl' & Hfl).
      split; [done|]. eexists. rewrite Hl', <- app_assoc. split; [done|]. by constructor.
    + destruct (proj1 (recorder_quiet id (up_ping u) (len x) (mkNet ping w1))) as [-> ->]. split; [done|]. eexists. split; [exact Hl|]. constructor. by left.
  - split; [done|]. eexists. split; [exact Hl|]. constructor.
  - split; [done|]. eexists. split; [exact Hl|]. constructor.
  - split; [done|]. eexists. split; [exact Hl|]. pose proof (fl_failed e) as Hfail. pose proof (fl_closed e) as Hcl. unfold read_error, closed_by_peer in *.
    destruct (h2_error_reason e) as [r|]; [|apply Hfail; naive_solver].
    destruct (Z.eqb_spec r NO_ERROR) as [->|]; [apply Hcl; naive_solver|]. destruct (Z.eqb_spec r CANCEL) as [->|]; [apply Hcl; naive_solver|].
    cbn [orb]. specialize (Hfail ltac:(naive_solver)). destruct (Z.eqb_spec r STREAM_CLOSED); [rewrite bool_decide_true in Hfail by congruence|
      rewrite bool_decide_false in Hfail by congruence]; done.
Qed.

(** The bytes that a row of polls brought. *)
Lemma fills_data l r : fills l r -> concat (event_data <$> l) = match r with RVal (Some b) => b | _ => [] end.
Proof. induction 1; cbn; rewrite ?app_nil_r; done. Qed.
Lemma fills_no_panic l r : fills l r -> r <> RPanic /\ r <> RFuel.
Proof. by induction 1. Qed.

Lemma reset_error_ok {T} id (q : Z -> option T) w :
  let '(r, w') := reset_error id q w in
  sent_frames id w' = sent_frames id w /\
  match r with
  | RVal t => exists reason, q reason = Some t /\ refused id w' = refused id w ++ [RfReset reason]
  | RPending => refused id w' = refused id w
  | RErr x => exists f, refused id w' = refused id w ++ [f] /\ refusal_error f x /\ (forall reason, f = RfReset reason -> q reason = None)
  | RPanic | RFuel => False
  end.
Proof.
  unfold reset_error. pose proof (poll_reset_ok id w) as Hr.
  destruct (poll_reset id w) as [[reason| |e| |] w1]; destruct Hr as (Hs & Hr & Hp & Hf); try done; rewrite ?app_nil_r in Hr.
  - destruct (q reason) eqn:Eq; [by split; [|exists reason]|]. case_bool_decide; (split; [done|]); exists (RfReset reason);
      (split; [done|]); (split; [by constructor|]); by intros ? [= <-].
  - done.
  - split; [done|]. exists (RfFailed e). split; [done|]. split; [constructor|done].
Qed.

Lemma h2_upgraded_read_ok fuel u space st :
  (max_spurious < fuel)%nat -> 0 <= space ->
  let '(r, u', st') := upgraded_read fuel u space st in
  let id := up_recv_stream u in
  let x := match r with RVal x => x | _ => [] end in
  len x <= space /\ r <> RPanic /\ r <> RFuel /\
  released id (n_w st') = released id (n_w st) + len x /\
  (exists fresh, received id (n_w st') = received id (n_w st) ++ fresh /\ up_buf u ++ fresh = x ++ up_buf u') /\
  exists got log, (r, up_buf u') = take_part space got /\ recv_log id (n_w st') = recv_log id (n_w st) ++ log /\
    match up_buf u with [] => fills log got | rest => log = [] /\ got = RVal (Some rest) end.
Proof.
  intros Hf Hs. unfold upgraded_read. set (id := up_recv_stream u).
  assert (Hg : let '(got, st1) := match up_buf u with [] => upgraded_fill fuel u st | _ => (RVal (Some (up_buf u)), st) end in
    got <> RPanic /\ got <> RFuel /\ released id (n_w st1) = released id (n_w st) /\
    exists log, recv_log id (n_w st1) = recv_log id (n_w st) ++ log /\
      up_buf u ++ concat (event_data <$> log) = match got with RVal (Some x) => x | _ => [] end /\
      match up_buf u with [] => fills log got | rest => log = [] /\ got = RVal (Some rest) end).
  { destruct (up_buf u) as [|x l] eqn:Eu.
    - pose proof (upgraded_fill_ok fuel u st ltac:(pose proof (spurious_max (up_recv_stream u) (n_w st)); lia)) as Hl.
      destruct (upgraded_fill fuel u st) as [got st1]. destruct Hl as (Hrel & log & Hlog & Hfl). destruct (fills_no_panic _ _ Hfl).
      do 3 (split; [done|]). exists log. split; [done|]. split; [exact (fills_data _ _ Hfl)|done].
    - do 3 (split; [done|]). exists []. by rewrite !app_nil_r. }
  destruct (match up_buf u with [] => _ | _ => _ end) as [got st1]. destruct Hg as (Hp & Hq & Hrel & log & Hlog & Hb & Hfl).
  pose proof (received_log _ _ _ _ Hlog) as Hrec.
  destruct got as [[x|]| |e| |]; try done.
  2-4: assert (E : up_buf u = []) by (by destruct (up_buf u); [|destruct Hfl as [_ [=]]]); rewrite E in *;
    (split; [exact Hs|]); do 2 (split; [done|]); (split; [by rewrite Hrel, Z.add_0_r|]);
    (split; [eexists; split; [exact Hrec|exact Hb]|]); eexists _, log; by split; [|split; [exact Hlog|exact Hfl]].
  cbn [n_w up_buf set_up_buf]. pose proof (len_nonneg x) as Hlx. destruct (release_ok id (Z.min (len x) space) (n_w st1)) as [-> Hsame].
    rewrite len_ztake by lia. split; [lia|]. do 2 (split; [done|]). split; [lia|].
    rewrite (received_same _ _ _ Hsame), Hsame. split; [eexists; split; [exact Hrec|]; by rewrite Hb, ztake_zdrop|]. by exists (RVal (Some x)), log.
Qed.

(** A write of some bytes. *)
Lemma upgraded_write_ok u c buf w :
  let '(r, w') := upgraded_write u (c :: buf) w in
  let tx := up_send_stream u in
  exists fs rf, wrote (poll_capacity tx (reserve_capacity tx (len (c :: buf)) w)).1 (c :: buf) r fs rf /\
    sent_frames tx w' = sent_frames tx w ++ fs /\ refused tx w' = refused tx w ++ rf.
Proof.
  unfold upgraded_write. set (tx := up_send_stream u). set (data := c :: buf).
  pose proof (poll_capacity_ok tx (reserve_capacity tx (len data) w)) as Hc.
  pose proof (poll_capacity_most tx (len data) w) as Hm. destruct (reserve_quiet tx (len data) w) as [Hq1 Hq2]. rewrite Hq1, Hq2 in Hc.
  (* the question why, after an error [e] *)
  assert (Hask : forall cap e w2, sent_frames tx w2 = sent_frames tx w -> refused tx w2 = refused tx w ++ [RfFailed e] ->
    let '(r, w') := reset_error tx (fun _ => @None Z) w2 in
    exists fs rf, wrote cap data r fs rf /\ sent_frames tx w' = sent_frames tx w ++ fs /\ refused tx w' = refused tx w ++ rf).
  { intros cap e w2 Hs2 Hr2. pose proof (reset_error_ok tx (fun _ => @None Z) w2) as Hr. destruct (reset_error tx (fun _ => None) w2) as [r w3].
    rewrite Hs2, Hr2 in Hr. destruct Hr as [Hs3 Hr]. exists []. rewrite app_nil_r. destruct r as [n| |x| |]; [by destruct Hr as (? & ? & _)| | |done..].
    - eexists. split; [apply wr_asked|done].
    - destruct Hr as (f & Hr & He & _). eexists. split; [by eapply wr_failed|]. by rewrite Hr, <- app_assoc. }
  destruct (poll_capacity tx (reserve_capacity tx (len data) w)) as [[[n|]| |e| |] w1]; destruct Hc as (Hsf & Hrf & Hc); try done; rewrite ?app_nil_r in Hrf; cbn [fst].
  - specialize (Hm n w1 ltac:(subst data; len_lia) eq_refl). rewrite (proj2 (Z.ltb_ge (len data) n)) by lia. unfold upgraded_send.
    pose proof (send_data_ok tx (SbCursor (ztake n data)) false w1 (slice_wf _)) as Hd. cbn [content SendBuf_laws] in Hd. rewrite slice_content, Hsf, Hrf in Hd.
    destruct (send_data tx (SbCursor (ztake n data)) false w1) as [[] w2]; destruct Hd as [Hd1 Hd2].
    + eexists _, _. split; [by apply (wr_some _ _ n)|done].
    + rewrite app_nil_r in Hd1. by apply (Hask _ e w2).
  - exists [], [RfClosed]. rewrite app_nil_r. split; [constructor|done].
  - exists [], [RfWait]. rewrite app_nil_r. split; [constructor|done].
  - by apply (Hask _ e w1).
Qed.

Lemma upgraded_shutdown_ok u w :
  let '(r, w') := upgraded_shutdown u w in
  let tx := up_send_stream u in
  exists fs rf, ended r fs rf /\ sent_frames tx w' = sent_frames tx w ++ fs /\ refused tx w' = refused tx w ++ rf.
Proof.
  unfold upgraded_shutdown, upgraded_send. set (tx := up_send_stream u).
  pose proof (send_data_ok tx (SbCursor []) true w (slice_wf _)) as Hd. cbn [content SendBuf_laws] in Hd. rewrite slice_content in Hd.
  destruct (send_data tx (SbCursor []) true w) as [[] w2]; destruct Hd as [Hd1 Hd2]; [eexists _, _; split; [constructor|done]|].
  set (q := fun r => if r =? NO_ERROR then Some tt else None). pose proof (reset_error_ok tx q w2) as Hr.
  destruct (reset_error tx q w2) as [r w3]. rewrite Hd1, Hd2, app_nil_r in Hr. destruct Hr as [Hs3 Hr]. exists []. rewrite app_nil_r.
  destruct r as [[]| |x| |]; try done.
  - destruct Hr as (reason & Hq & Hr). unfold q in Hq. destruct (Z.eqb_spec reason NO_ERROR) as [Er|]; [rewrite Er in Hr|done].
    eexists. split; [apply en_no_error|]. by rewrite Hr, <- app_assoc.
  - eexists. split; [apply en_asked|done].
  - destruct Hr as (f & Hr & He & Hq). eexists. split; [eapply en_failed; [|exact He]; intros ->; by specialize (Hq _ eq_refl)|]. by rewrite Hr, <- app_assoc.
Qed.

(** C34. After an accepted CONNECT the HTTP/2 stream is a faithful byte stream.  A read
    gives, within the space there is, the next of the bytes that the peer sent and
    that are not read yet, keeps the rest for later reads and gives back as much
    credit as it read.  Bytes kept from before are given without asking the stream;
    otherwise frames without data are passed over, so that a read of nothing into some
    space means that the peer's side has ended (its last frame, the end, or a reset
    that says no error or cancelled); waiting and errors are the stream's.  A write of
    some bytes puts the prefix for which there is capacity into the stream and reports
    its length, or puts nothing and reports why: no capacity yet, closed, or the error
    that [poll_reset] tells after a failure.  The end puts one empty last frame into
    the stream, or the stream refused it, and then the answer is that of [poll_reset],
    where only the reason no error is a success.  Nothing panics. *)
Theorem upgraded_faithful u st fuel space buf w :
  (max_spurious < fuel)%nat -> 0 <= space ->
  (let '(r, u', st') := upgraded_read fuel u space st in
   let id := up_recv_stream u in
   let x := match r with RVal x => x | _ => [] end in
   len x <= space /\ r <> RPanic /\ r <> RFuel /\
   released id (n_w st') = released id (n_w st) + len x /\
   (exists fresh, received id (n_w st') = received id (n_w st) ++ fresh /\ up_buf u ++ fresh = x ++ up_buf u') /\
   exists got log, (r, up_buf u') = take_part space got /\ recv_log id (n_w st') = recv_log id (n_w st) ++ log /\
     match up_buf u with [] => fills log got | rest => log = [] /\ got = RVal (Some rest) end) /\
  (let '(r, w') := upgraded_write u buf w in
   let tx := up_send_stream u in
   match buf with
   | [] => r = RVal 0 /\ w' = w
   | _ => exists fs rf, wrote (poll_capacity tx (reserve_capacity tx (len buf) w)).1 buf r fs rf /\
       sent_frames tx w' = sent_frames tx w ++ fs /\ refused tx w' = refused tx w ++ rf
   end) /\
  (let '(r, w') := upgraded_shutdown u w in
   let tx := up_send_stream u in
   exists fs rf, ended r fs rf /\ sent_frames tx w' = sent_frames tx w ++ fs /\ refused tx w' = refused tx w ++ rf).
Proof.
  intros Hf Hs. split; [|split; [destruct buf; [done|apply upgraded_write_ok]|apply upgraded_shutdown_ok]].
  exact (h2_upgraded_read_ok fuel u space st Hf Hs).
Qed.
End Recv.

(** ** Witnesses *)

Module RefH2.
Import RefBytes RefHttp.

(** A peer that takes everything and has sent some bytes on each stream. *)
Record Net2 := mkNet2 {
  r_sent : nat -> list (StreamFrame HeaderMap); r_reserved : nat -> Z; r_in : nat -> bytes; r_log : nat -> list RecvEvent;
  r_released : nat -> Z; r_waits : nat -> nat; r_next : nat
}.
Definition upd {A} (id : nat) (x : A) (g : nat -> A) : nat -> A := fun i => if decide (i = id) then x else g i.
Definition push (id : nat) (x : StreamFrame HeaderMap) (w : Net2) : Net2 :=
  mkNet2 (upd id (r_sent w id ++ [x]) (r_sent w)) (r_reserved w) (r_in w) (r_log w) (r_released w) (r_waits w) (r_next w).
Definition refuse (id : nat) (w : Net2) : Net2 :=
  mkNet2 (r_sent w) (r_reserved w) (r_in w) (r_log w) (r_released w) (upd id (S (r_waits w id)) (r_waits w)) (r_next w).
Definition buf_bytes (b : SendBuf bytes) : bytes := match b with SbBuf b | SbCursor b => b | SbNone => [] end.

#[export] Instance ref_streams : H2Streams Net2 bytes HeaderMap := {
  reserve_capacity id n w := mkNet2 (r_sent w) (upd id n (r_reserved w)) (r_in w) (r_log w) (r_released w) (r_waits w) (r_next w);
  capacity id w := r_reserved w id;
  poll_capacity id w := if 0 <? r_reserved w id then (RVal (Some (r_reserved w id)), w) else (RPending, refuse id w);
  poll_reset id w := (RPending, w);
  send_data id b eos w := (Ok tt, push id (SfData (buf_bytes b) eos) w);
  send_trailers id t w := (Ok tt, push id (SfTrailers t) w);
  send_reset id r w := push id (SfReset r) w;
  poll_data id w :=
    let log e := upd id (r_log w id ++ [e]) (r_log w) in
    match r_in w id with
    | [] => (RVal None, mkNet2 (r_sent w) (r_reserved w) (r_in w) (log ReEnd) (r_released w) (r_waits w) (r_next w))
    | x => (RVal (Some x), mkNet2 (r_sent w) (r_reserved w) (upd id [] (r_in w)) (log (ReData x true)) (r_released w) (r_waits w) (r_next w))
    end;
  poll_trailers id w := (RVal None, w);
  recv_is_end_stream id w := match r_in w id with [] => true | _ => false end;
  release_capacity id n w := mkNet2 (r_sent w) (r_reserved w) (r_in w) (r_log w) (upd id (r_released w id + n) (r_released w)) (r_waits w) (r_next w)
}.
#[export] Instance ref_peer : Ping.Peer Net2 :=
  {| Ping.instant_now w := (0, w); Ping.peer_send_ping w := (true, w); Ping.poll_pong w := (Ping.PongPending, w) |}.

Lemma upd_eq {A} id (x : A) g : upd id x g id = x.
Proof. unfold upd. by rewrite decide_True. Qed.

#[export] Program Instance ref_h2_laws : H2Laws Net2 bytes := {
  sent_frames id w := r_sent w id; refused id w := replicate (r_waits w id) RfWait; recv_log id w := r_log w id; released id w := r_released w id;
  max_spurious := 0; spurious _ _ := 0%nat
}.
Next Obligation. done. Qed.
Next Obligation. done. Qed.
Next Obligation.
  intros id w. cbn. destruct (Z.ltb_spec 0 (r_reserved w id)); cbn; [by rewrite app_nil_r; split_and!; [done..|lia]|].
  by rewrite upd_eq, replicate_S_end.
Qed.
Next Obligation. intros id n w k w' Hn. cbn. rewrite upd_eq. destruct (Z.ltb_spec 0 n); [|lia]. intros [= <- _]. lia. Qed.
Next Obligation. intros id w. cbn. by rewrite app_nil_r. Qed.
Next Obligation. intros id [b|c|] eos w _; cbn; by rewrite upd_eq, app_nil_r. Qed.
Next Obligation. intros id t w. cbn. by rewrite upd_eq, app_nil_r. Qed.
Next Obligation. intros id r w. cbn. by rewrite upd_eq. Qed.
Next Obligation. intros id w. cbn. destruct (r_in w id) eqn:E; cbn; rewrite !upd_eq; done. Qed.
Next Obligation. done. Qed.
Next Obligation. intros id n w. cbn. by rewrite upd_eq. Qed.
Next Obligation. done. Qed.
Next Obligation. done. Qed.

Definition w0 : Net2 := mkNet2 (fun _ => []) (fun _ => 0) (fun _ => bs "pong") (fun _ => []) (fun _ => 0) (fun _ => 0%nat) 1.

(** A body of two pieces, the second with the end of the stream. *)
Definition pipe0 : PipeToSendStream (Bs := RefTask.Pieces) := pipe_new [Some (bs "he"); Some (bs "llo")] 7.

Lemma pipe_body_sent_witness :
  pipe_outcome (B := bytes) (stream pipe0) [] [] 7 (pipe_poll (B := bytes) 100 pipe0 w0) /\
  r_sent (pipe_poll (B := bytes) 100 pipe0 w0).2 7%nat = [SfData (bs "he") false; SfData (bs "llo") true].
Proof.
  assert (Hf : (Z.to_nat (RefTask.pieces_left (stream pipe0)) + 1 < 100)%nat) by (apply Nat.ltb_lt; vm_compute; reflexivity).
  split; [exact (pipe_body_sent (B := bytes) pipe0 w0 pipe0 w0 100 I (pr_start _ _) Hf)|reflexivity].
Defined.

(** A read of a part, a write, and the end. *)
Lemma upgraded_faithful_witness :
  let u := mkUpgraded false 7 7 [] in
  (let '(r, u', _) := upgraded_read (B := bytes) 2 u 2 (mkNet None w0) in
   exists x, r = RVal x /\ x = bs "po" /\ up_buf u' = bs "ng" /\ len x <= 2) /\
  (let '(r, w') := upgraded_write (B := bytes) u (bs "ping") w0 in
   r = RVal 4 /\ exists fs rf, wrote (RVal (Some 4)) (bs "ping") r fs rf /\ r_sent w' 7%nat = fs) /\
  (let '(r, w') := upgraded_shutdown (B := bytes) u w0 in
   r = RVal tt /\ exists fs rf, ended r fs rf /\ r_sent w' 7%nat = fs).
Proof.
  pose proof (upgraded_faithful (B := bytes) (mkUpgraded false 7 7 []) (mkNet None w0) 2 2 (bs "ping") w0) as Hu.
  destruct Hu as (Hr & (fs & rf & Hw & Hws & _) & (fs' & rf' & He & Hes & _)); [apply Nat.ltb_lt; reflexivity|done|]. cbv zeta. split_and!.
  - destruct (upgraded_read (B := bytes) 2 _ 2 (mkNet None w0)) as [[r u'] st'] eqn:E. vm_compute in E. injection E as <- <- _.
    eexists; split; [reflexivity|]. split; [reflexivity|]. split; [reflexivity|apply Hr].
  - split; [reflexivity|]. by exists fs, rf.
  - split; [reflexivity|]. by exists fs', rf'.
Defined.

(** [Keep-Alive] and what [Connection] names go, the rest stays. *)
Definition sample_headers : HeaderMap :=
  hm_insert (bs "accept") (bs "a") (hm_insert (bs "keep-alive") (bs "b") (hm_insert (bs "x-hop") (bs "c") (hm_insert CONNECTION (bs "close, x-hop") hm_new))).
Lemma strip_exact_witness :
  match strip_connection_headers sample_headers true with
  | Some h => hm_get_all (bs "keep-alive") h = [] /\ hm_get_all (bs "x-hop") h = [] /\ hm_get_all (bs "accept") h = [bs "a"]
  | None => False
  end.
Proof.
  pose proof (strip_exact sample_headers) as Hs. destruct (strip_connection_headers sample_headers true) as [h|] eqn:E; [|by vm_compute in E].
  split; [apply Hs; left; apply (bool_decide_unpack _); vm_compute; exact I|]. split.
  - apply Hs. right. right. exists (bs "close, x-hop"). split; [reflexivity|]. exists (bs " x-hop"). split; [right; left|reflexivity].
  - vm_compute in E. injection E as <-. reflexivity.
Defined.
End RefH2.
