(* ===== verification/H2ClientProps.v ===== *)
(** * What the HTTP/2 client task promises

    Callers, the client task, the tasks it spawns and the connection's task run
    interleaved ([h_step]).  Every accepted request is answered exactly once, none
    that was given to the connection comes back for a retry, and the signals between
    the tasks mean what they say. *)

From S2P Require Import Prelude Buf Http Models Oneshot Decode Error Dispatch DispatchProps Dispatcher DispatcherFacts DispatcherProps Ping H2 H2Props H2Client.
Import Error Dispatch H2 H2Client.

Section World.
Context `{HC : HttpCrate} {W B : Type} {hs : H2Streams W B HeaderMap} {pe : Ping.Peer W} {Bs : Type} {bd : Body Bs B HeaderMap}.
Context {Hd : Type} {h2 : H2Crate (W := W) (Hd := Hd)}.
Abbreviation Req := (Request (Bs := Bs) (Hd := Hd)).
Context {CS : Type} {os : Oneshot (Answer Req Response) CS} {osl : OneshotLaws (Answer Req Response) CS}.
Context {M : Type} {mp : Mpsc (Envelope Req) M} {mpl : MpscLaws (Envelope Req) M} {G : Type} {wt : Want G}.
Abbreviation Sys := (H2Sys (W := W) (Bs := Bs) (CS := CS) (M := M) (G := G)).
Abbreviation Task := (ClientTask (Bs := Bs)).
Implicit Types (s : Sys) (t : Task) (f : H2ClientFuture (Bs := Bs)).

(** ** The requests without an answer *)

Definition fut_chan f : option nat := match f with FSend _ (Some cb) => cb_chan cb | _ => None end.
Definition waiting (l : list (H2ClientFuture (Bs := Bs))) : list nat := omap fut_chan l.
Definition task_chan t : list nat := omap (fun c => cb_chan (fc_cb c)) (option_list (t_fut_ctx t)).
Definition queue_of s : list (Envelope Req) := mp_queue (sh_inner (sy_queue s)).

Definition is_open_pipe f : bool := match f with FPipe p => pm_open p | _ => false end.
Definition is_conn_task f : bool := match f with FTask _ => true | _ => false end.
Definition pipes (l : list (H2ClientFuture (Bs := Bs))) : nat := length (List.filter is_open_pipe l).
Definition tasks (l : list (H2ClientFuture (Bs := Bs))) : nat := length (List.filter is_conn_task l).

(** The connection's task still holds its end of the signal. *)
Definition can_signal f : bool := match f with FTask t => ct_cancel_tx t | _ => false end.

Definition future_ok f : Prop :=
  match f with
  | FPipe p => pm_open p = true
  | FSend r cb => (exists ch, cb = Some (Retry (Some ch))) /\ is_Some (rf_ping r) /\ is_Some (rf_send_stream r)
  | FTask t => ct_cancel_tx t = negb (ct_drop_rx_terminated t)
  end.

(** The invariant of what is shared; [held] are the requests of the client task. *)
Record sys_inv (held : list nat) (alive : nat) (started : list nat) s : Prop := {
  si_chans : chans_ok (held ++ waiting (sy_spawned s) ++ omap env_chan (queue_of s)) started (sy_chans s);
  si_futures : Forall future_ok (sy_spawned s);
  si_queue : Forall (fresh_env started) (queue_of s);
  si_refs : sy_drop_refs s = (alive + pipes (sy_spawned s))%nat;
  si_one : (tasks (sy_spawned s) <= 1)%nat;
  si_eof : sy_conn_eof s = true -> tasks (sy_spawned s) = 0%nat \/ sy_drop_refs s = 0%nat;
  si_told : sy_conn_eof s || existsb can_signal (sy_spawned s) = true
}.

Lemma waiting_app l1 l2 : waiting (l1 ++ l2) = waiting l1 ++ waiting l2.
Proof. apply omap_app. Qed.
Lemma pipes_app l1 l2 : pipes (l1 ++ l2) = (pipes l1 + pipes l2)%nat.
Proof. unfold pipes. by rewrite List.filter_app, length_app. Qed.
Lemma tasks_app l1 l2 : tasks (l1 ++ l2) = (tasks l1 + tasks l2)%nat.
Proof. unfold tasks. by rewrite List.filter_app, length_app. Qed.

(** Only the network changed. *)
Lemma sys_inv_net held alive started s n : sys_inv held alive started s -> sys_inv held alive started (set_net n s).
Proof. by intros []. Qed.

Lemma with_w_inv {A} held alive started (g : W -> A * W) s :
  sys_inv held alive started s -> sys_inv held alive started (with_w g s).2 /\ queue_of (with_w g s).2 = queue_of s.
Proof. intros Hi. unfold with_w, on_w. destruct (g _) as [a w]. split; [by apply sys_inv_net|done]. Qed.

(** A request of the client task is answered without handing it back. *)
Lemma answer_held ch held alive started s a :
  sys_inv (ch :: held) alive started s -> keeps_message a ->
  sys_inv held alive started (set_chans (tx_send ch a false (sy_chans s)).2 s).
Proof. intros [Hc Hf Hq Hr Ho He Hto] Ha. split; try done. by apply answer_ok. Qed.

Lemma drop_held ch held alive started s b :
  sys_inv (ch :: held) alive started s -> sys_inv held alive started (callback_drop_s b (Retry (Some ch)) s).
Proof. intros Hi. apply answer_held; [done|]. apply keeps_gone. Qed.

Lemma send_held ch held alive started s e :
  sys_inv (ch :: held) alive started s ->
  exists s', callback_send_s (Retry (Some ch)) (Err (mkTrySendError e None)) s = Some s' /\
    sys_inv held alive started s' /\ queue_of s' = queue_of s.
Proof. intros Hi. eexists. split; [reflexivity|]. split; [|done]. apply answer_held; [done|]. by intros x [= <-]. Qed.

(** A future is handed to the executor. *)
Lemma execute_send ch held started s r :
  sys_inv (ch :: held) 1 started s -> is_Some (rf_ping r) -> is_Some (rf_send_stream r) ->
  sys_inv held 1 started (execute_h2_future (FSend r (Some (Retry (Some ch)))) s).
Proof.
  intros [Hc Hf Hq Hr Ho He Hto] H1 H2. unfold execute_h2_future. split; cbn [sy_chans sy_spawned sy_drop_refs sy_conn_eof set_spawned]; try done.
  - rewrite waiting_app. eapply chans_ok_perm; [|exact Hc]. cbn. unfold queue_of. cbn [sy_queue set_spawned].
    rewrite <- (app_assoc (waiting _)). cbn. rewrite !(app_assoc held). apply Permutation_middle.
  - apply Forall_app. split; [done|]. repeat constructor; eauto.
  - by rewrite pipes_app, Hr, Nat.add_0_r.
  - by rewrite tasks_app, Nat.add_0_r.
  - rewrite tasks_app, Nat.add_0_r. exact He.
  - by rewrite existsb_app, orb_false_r.
Qed.

Lemma execute_pipe held started s p :
  sys_inv held 1 started s ->
  sys_inv held 1 started (execute_h2_future (FPipe (mkPipeMap p true)) (set_drop_refs (S (sy_drop_refs s)) s)).
Proof.
  intros [Hc Hf Hq Hr Ho He Hto]. unfold execute_h2_future. split; cbn [sy_chans sy_spawned sy_drop_refs sy_conn_eof set_spawned set_drop_refs]; try done.
  - rewrite waiting_app. cbn. by rewrite app_nil_r.
  - apply Forall_app. split; [done|]. by repeat constructor.
  - rewrite pipes_app, Hr. cbn. lia.
  - by rewrite tasks_app, Nat.add_0_r.
  - rewrite tasks_app, Nat.add_0_r. intros Hx. destruct (He Hx); [by left|lia].
  - by rewrite existsb_app, orb_false_r.
Qed.

(** ** The client task *)

Lemma poll_pipe_inv fuel t c ch held started s :
  fc_cb c = Retry (Some ch) -> sys_inv (ch :: held) 1 started s ->
  let '(r, s') := poll_pipe fuel t c s in
  sys_inv held 1 started s' /\ queue_of s' = queue_of s /\ r <> RPending /\ (forall e, r <> RErr e).
Proof.
  intros Ecb Hi. unfold poll_pipe. rewrite Ecb.
  assert (Hsend : forall x s1, queue_of s1 = queue_of s -> sys_inv (ch :: held) 1 started s1 ->
    let '(r, s') := (RVal (E := Error) tt, execute_h2_future (FSend (mkResponseFut (fc_fut c) (Some (t_ping t)) (Some x)) (Some (Retry (Some ch)))) s1) in
    sys_inv held 1 started s' /\ queue_of s' = queue_of s /\ r <> RPending /\ (forall e, r <> RErr e)).
  { intros x s1 Hq Hs. split; [by apply execute_send|]. done. }
  destruct (fc_is_connect c); cbn [negb]; [by apply Hsend|]. destruct (fc_eos c); cbn [negb]; [by apply Hsend|].
  destruct (pipe_poll fuel _ _) as [[r pipe] w]. set (s1 := set_net _ s).
  assert (H1 : sys_inv (ch :: held) 1 started s1) by by apply sys_inv_net.
  destruct r as [[]| |e| |]; [by apply Hsend| |by apply Hsend|by split; [apply drop_held|]..].
  apply Hsend; [done|]. by apply execute_pipe.
Qed.

Lemma refuse_inv ch held started s s1 e :
  queue_of s1 = queue_of s -> sys_inv (ch :: held) 1 started s1 ->
  let '(r, s') := (match callback_send_s (Retry (Some ch)) (Err (mkTrySendError e None)) s1 with
                   | Some s => (RVal (E := Error) (@None (FutCtx (Bs := Bs))), s) | None => (RPanic, s1) end) in
  r = RVal None /\ sys_inv held 1 started s' /\ queue_of s' = queue_of s.
Proof. intros Hq Hs. destruct (send_held _ _ _ _ _ e Hs) as (s' & -> & Hi & Hq'). by rewrite Hq'. Qed.

Lemma start_request_inv fuel t req ch started s :
  sys_inv [ch] 1 started s ->
  let '(r, s') := start_request fuel t req (Retry (Some ch)) s in
  queue_of s' = queue_of s /\
  match r with
  | RVal (Some c) => fc_cb c = Retry (Some ch) /\ sys_inv [ch] 1 started s'
  | _ => sys_inv [] 1 started s'
  end /\ r <> RPending /\ (forall e, r <> RErr e).
Proof.
  intros Hi. unfold start_request. destruct (strip_connection_headers (rq_headers req) true) as [hdrs|]; [|by split; [|split; [apply drop_held|]]].
  destruct (_ && _).
  { pose proof (refuse_inv ch [] started s s new_user_invalid_connect eq_refl Hi) as Hx. destruct (match callback_send_s _ _ s with Some _ => _ | None => _ end) as [r s'].
    by destruct Hx as (-> & ? & ?). }
  match goal with |- context [with_w ?g s] => destruct (with_w_inv _ _ _ g s Hi) as [H1 Q1]; destruct (with_w g s) as [[id|e] s1] end; cbn [snd] in *.
  2: { pose proof (refuse_inv ch [] started s s1 (new_h2 e) Q1 H1) as Hx. destruct (match callback_send_s _ _ s1 with Some _ => _ | None => _ end) as [r s'].
    by destruct Hx as (-> & ? & ?). }
  destruct (with_w_inv _ _ _ h2_poll_ready s1 H1) as [H2 Q2]. rewrite Q1 in Q2.
  destruct (with_w h2_poll_ready s1) as [[u| |e| |] s2]; cbn [snd] in *; [|by split| |by split; [|split; [apply drop_held|]]..].
  - set (c := mkFutCtx _ _ id id _ _). pose proof (poll_pipe_inv fuel t c ch [] started s2 eq_refl H2) as Hp.
    destruct (poll_pipe fuel t c s2) as [r s3]. destruct Hp as (H3 & Q3 & Hr1 & Hr2). rewrite Q3, Q2.
    destruct r; by split.
  - pose proof (refuse_inv ch [] started s s2 (new_h2 e) Q2 H2) as Hx. destruct (match callback_send_s _ _ s2 with Some _ => _ | None => _ end) as [r s'].
    by destruct Hx as (-> & ? & ?).
Qed.

(** The next request leaves the queue: its promise is now the task's to keep. *)
Lemma take_inv req cb l m g started s :
  queue_of s = Some (req, cb) :: l -> mp_queue m = l -> sys_inv [] 1 started s ->
  exists ch, cb = Retry (Some ch) /\ sys_inv [ch] 1 (ch :: started) (set_queue (mkShared m g) s).
Proof.
  intros Eq Em [Hc Hf Hq Hr Ho He Hto]. rewrite Eq in Hq, Hc. apply Forall_cons in Hq as [(req' & ch & [= -> ->] & Hns) Hq].
  exists ch. split; [done|]. cbn in Hc.
  assert (Hc' : chans_ok (ch :: waiting (sy_spawned s) ++ omap env_chan l) (ch :: started) (sy_chans s)).
  { apply start_ok. eapply chans_ok_perm; [|exact Hc]. by rewrite Permutation_middle. }
  split; cbn [sy_chans sy_spawned sy_drop_refs sy_conn_eof set_queue]; try done; unfold queue_of; cbn [sy_queue set_queue sh_inner]; rewrite Em; [exact Hc'|].
  rewrite Forall_forall in Hq |- *. intros e Hin. destruct (Hq e Hin) as (r' & ch' & -> & Hn'). exists r', ch'. split; [done|].
  rewrite elem_of_cons. intros [->|?]; [|done]. pose proof (co_nodup _ _ _ Hc') as Hnd. apply NoDup_cons in Hnd as [Hni _].
  apply Hni. apply elem_of_app. right. apply list_elem_of_omap. exists (Some (r', Retry (Some ch))). auto.
Qed.

Lemma same_queue_inv held started s q :
  mp_queue (sh_inner q) = queue_of s -> sys_inv held 1 started s -> sys_inv held 1 started (set_queue q s).
Proof. intros E [Hc Hf Hq Hr Ho He Hto]. split; cbn; try done; unfold queue_of; cbn; by rewrite E. Qed.

Definition task_ok t : Prop := forall c, t_fut_ctx t = Some c -> exists ch, fc_cb c = Retry (Some ch).

(** What a poll of the client task left of the queue and of the invariant. *)
Definition polled (started : list nat) s t' s' : Prop :=
  exists pre, queue_of s = pre ++ queue_of s' /\ task_ok t' /\ sys_inv (task_chan t') 1 (reverse (omap env_chan pre) ++ started) s'.

Lemma polled_here started s t' s' : queue_of s' = queue_of s -> task_ok t' -> sys_inv (task_chan t') 1 started s' -> polled started s t' s'.
Proof. intros Hq Ht Hi. exists []. by rewrite Hq. Qed.

Lemma polled_step ch e started s s1 t' s' :
  env_chan e = Some ch -> queue_of s = e :: queue_of s1 -> polled (ch :: started) s1 t' s' -> polled started s t' s'.
Proof.
  intros He Hq (pre & Hq1 & Ht & Hi). exists (e :: pre). rewrite Hq, Hq1. split; [done|]. split; [done|].
  cbn [omap list_omap]. rewrite He, reverse_cons, <- app_assoc. exact Hi.
Qed.

Lemma client_poll_inv fuel pf senders t s started :
  task_ok t -> sys_inv (task_chan t) 1 started s ->
  let '(r, t', s') := client_poll fuel pf senders t s in polled started s t' s'.
Proof.
  revert t s started. induction fuel as [|fuel IH]; intros t s started Ht Hi; [by apply polled_here|]. cbn [client_poll].
  destruct (with_w_inv _ _ _ h2_poll_ready s Hi) as [H1 Q1].
  destruct (with_w h2_poll_ready s) as [[u| |e| |] s1]; cbn [snd] in *; try (by apply polled_here).
  destruct (t_fut_ctx t) as [c|] eqn:Ec.
  - destruct (Ht c Ec) as [ch Ecb]. unfold task_chan in H1. rewrite Ec in H1. cbn in H1. rewrite Ecb in H1. cbn in H1.
    set (t1 := mkClientTask (t_ping t) None). pose proof (poll_pipe_inv pf t1 c ch [] started s1 Ecb H1) as Hp.
    destruct (poll_pipe pf t1 c s1) as [r s2]. destruct Hp as (H2 & Q2 & Hr1 & Hr2). rewrite Q1 in Q2.
    assert (Ht1 : task_ok t1) by done.
    destruct r as [u'| |e| |]; try done; try (by apply polled_here).
    specialize (IH t1 s2 started Ht1 H2). destruct (client_poll fuel pf senders t1 s2) as [[r t'] s'].
    destruct IH as (pre & Hq & Hrest). exists pre. by rewrite <- Q2.
  - unfold task_chan in H1. rewrite Ec in H1. cbn in H1. assert (Htc : task_chan t = []) by (unfold task_chan; by rewrite Ec).
    unfold poll_recv. destruct (queue_of s1) as [|e l] eqn:Eq.
    + destruct (recv_empty senders (sh_inner (sy_queue s1)) Eq) as [E1 E2].
      destruct (mp_recv senders (sh_inner (sy_queue s1))) as [o m']. cbn [fst snd] in *. subst o.
      assert (Hsame : forall g, sys_inv (task_chan t) 1 started (set_queue (mkShared m' g) s1) /\ queue_of (set_queue (mkShared m' g) s1) = queue_of s).
      { intros g. rewrite Htc. split; [apply same_queue_inv; [by rewrite Eq|done]|]. by rewrite <- Q1. }
      destruct (senders && _); [|by destruct (Hsame (sh_want (sy_queue s1))); apply polled_here].
      destruct (Hsame (want (sh_want (sy_queue s1)))). destruct (sy_conn_eof _); by apply polled_here.
    + destruct (recv_msg_head senders e l _ Eq) as [E1 E2].
      destruct (mp_recv senders (sh_inner (sy_queue s1))) as [o m']. cbn [fst snd] in *. subst o.
      pose proof (si_queue _ _ _ _ H1) as Hfq. rewrite Eq in Hfq. apply Forall_cons in Hfq as [(req & ch & -> & Hns) _].
      destruct (take_inv req (Retry (Some ch)) l m' (sh_want (sy_queue s1)) started s1 Eq E2 H1) as (ch' & [= <-] & H2).
      set (s2 := set_queue _ s1) in *. cbn [is_canceled].
      assert (Hstep : forall s3 r t' s', queue_of s3 = queue_of s2 -> polled (ch :: started) s3 t' s' ->
        let '(_, t', s') := (r : poll_res Error Dispatcher.Dispatched, t', s') in polled started s t' s').
      { intros s3 r t' s' Hq3 Hp. apply (polled_step ch (Some (req, Retry (Some ch))) started s s3); [done| |done]. rewrite Hq3, <- Q1. unfold s2, queue_of. cbn. by rewrite E2. }
      destruct (tx_is_closed ch (sy_chans s2)).
      * specialize (IH t (callback_drop_s false (Retry (Some ch)) s2) (ch :: started) Ht). rewrite Htc in IH. specialize (IH (drop_held _ _ _ _ _ _ H2)).
        destruct (client_poll fuel pf senders t _) as [[r t'] s']. by apply (Hstep (callback_drop_s false (Retry (Some ch)) s2)).
      * pose proof (start_request_inv pf t req ch (ch :: started) s2 H2) as Hst.
        destruct (start_request pf t req (Retry (Some ch)) s2) as [r s3]. destruct Hst as (Q3 & Hst & Hr1 & Hr2).
        destruct r as [[c|]| |x| |]; [| |done|by destruct (Hr2 x)| |].
        -- apply (Hstep s3 RPending); [done|]. destruct Hst as [Ecb H3]. apply polled_here; [done| |].
           ++ intros c' [= <-]. by exists ch.
           ++ unfold task_chan. cbn. rewrite Ecb. exact H3.
        -- specialize (IH t s3 (ch :: started) Ht). rewrite Htc in IH. specialize (IH Hst).
           destruct (client_poll fuel pf senders t s3) as [[r t'] s']. by apply (Hstep s3).
        -- apply (Hstep s3 RPanic); [done|]. apply polled_here; [done|done|]. by rewrite Htc.
        -- apply (Hstep s3 RFuel); [done|]. apply polled_here; [done|done|]. by rewrite Htc.
Qed.

(** ** The other tasks *)

(** After a poll the executor keeps the future or drops it. *)
Definition settle (r : poll_res Error unit) f (l1 l2 : list (H2ClientFuture (Bs := Bs))) s : Sys :=
  match r with
  | RPending => set_spawned (l1 ++ f :: l2) s
  | RPanic => future_drop true f (set_spawned (l1 ++ l2) s)
  | _ => future_drop false f (set_spawned (l1 ++ l2) s)
  end.

(** [f] gives way to [fs]; everything else of the spawned futures stays. *)
Lemma sys_inv_change held alive started s s' l1 f l2 fs :
  sys_inv held alive started s -> sy_spawned s = l1 ++ f :: l2 -> sy_spawned s' = l1 ++ fs ++ l2 -> sy_queue s' = sy_queue s ->
  Forall future_ok fs ->
  (forall rest, chans_ok (waiting [f] ++ rest) started (sy_chans s) -> chans_ok (waiting fs ++ rest) started (sy_chans s')) ->
  (sy_drop_refs s' + pipes [f] = sy_drop_refs s + pipes fs)%nat -> (tasks fs <= tasks [f])%nat ->
  (sy_conn_eof s' = true -> tasks (l1 ++ fs ++ l2) = 0%nat \/ sy_drop_refs s' = 0%nat) ->
  (sy_conn_eof s || existsb can_signal [f] = true -> sy_conn_eof s' || existsb can_signal fs = true) ->
  sys_inv held alive started s'.
Proof.
  intros [Hc Hf Hq Hr Ho He Hto] E E' Eq Hfs Hch Hrefs Htk Heof Htold.
  change (f :: l2) with ([f] ++ l2) in E. rewrite E, ?waiting_app, ?pipes_app, ?tasks_app in *.
  assert (Hp : forall g Q, held ++ (waiting l1 ++ waiting g ++ waiting l2) ++ Q ≡ₚ waiting g ++ (held ++ waiting l1 ++ waiting l2 ++ Q)).
  { intros g Q. rewrite <- !app_assoc, (Permutation_app_swap_app (waiting l1) (waiting g)). apply Permutation_app_swap_app. }
  split; rewrite ?E'; rewrite ?waiting_app, ?pipes_app, ?tasks_app in *; unfold queue_of in *; rewrite ?Eq.
  - eapply chans_ok_perm; [symmetry; apply Hp|]. apply Hch. by eapply chans_ok_perm; [apply Hp|].
  - apply Forall_app in Hf as [H1 H2]. apply Forall_app in H2 as [_ H2]. by rewrite !Forall_app.
  - done.
  - lia.
  - lia.
  - exact Heof.
  - rewrite !existsb_app in Hto |- *. cbn [existsb] in Hto, Htold. rewrite ?orb_false_r in *.
    destruct (sy_conn_eof s), (sy_conn_eof s'), (existsb can_signal l1), (existsb can_signal l2), (can_signal f), (existsb can_signal fs); naive_solver.
Qed.

(** Dropping a future keeps the invariant. *)
Lemma future_drop_inv b held alive started s l1 f l2 :
  sys_inv held alive started s -> sy_spawned s = l1 ++ f :: l2 -> sys_inv held alive started (future_drop b f (set_spawned (l1 ++ l2) s)).
Proof.
  intros Hi E. pose proof (si_futures _ _ _ _ Hi) as Hf. rewrite E in Hf. apply Forall_app in Hf as [_ [Hf _]%Forall_cons].
  pose proof (si_refs _ _ _ _ Hi) as Hr. pose proof (si_one _ _ _ _ Hi) as Ho. pose proof (si_eof _ _ _ _ Hi) as He.
  change (f :: l2) with ([f] ++ l2) in E. rewrite E, ?pipes_app, ?tasks_app in *.
  destruct f as [p|r cb|t]; cbn [future_ok future_drop] in *.
  - rewrite Hf. eapply (sys_inv_change _ _ _ _ _ l1 _ l2 [] Hi E); try done; cbn [sy_drop_refs set_spawned drop_ref set_drop_refs sy_conn_eof app].
    + unfold pipes in *. cbn in *. rewrite Hf in *. cbn in *. lia.
    + intros Hx. cbn in He. rewrite tasks_app. destruct (He Hx); [left|right]; lia.
  - destruct Hf as ((ch & ->) & _ & _). eapply (sys_inv_change _ _ _ _ _ l1 _ l2 [] Hi E); try done.
    + intros rest Hc. cbn in Hc |- *. apply answer_ok; [exact Hc|]. intros _. apply keeps_gone.
    + intros Hx. cbn in He. cbn. rewrite tasks_app. exact (He Hx).
  - assert (Hz : tasks (l1 ++ [] ++ l2) = 0%nat) by (cbn in Ho |- *; rewrite tasks_app; unfold tasks in *; cbn in *; lia).
    destruct (ct_cancel_tx t) eqn:Ect; eapply (sys_inv_change _ _ _ _ _ l1 _ l2 [] Hi E); try done; first [by left|by cbn; lia|by cbn; rewrite Ect].
Qed.

(** A response never hands the request back. *)
Lemma response_no_message r st e o r' st' : response_fut_poll r st = (RErr (e, o), r', st') -> o = @None Req.
Proof.
  unfold response_fut_poll. destruct (on_w _ st) as [[res| |err| |] st1]; [|done| |done|done].
  - destruct (rf_ping r) as [ping|], (rf_send_stream r) as [ss|]; try done. destruct ss as [tx|]; [destruct (hr_status res =? 200)|]; try done.
    destruct (match Headers.content_length_parse_all _ with Some _ => _ | None => _ end); [|done]. by intros [= <- <- _ _].
  - destruct (rf_ping r) as [ping|], (rf_send_stream r) as [ss|]; try done. destruct (recorder_not_timed_out ping st1); by intros [= <- <- _ _].
Qed.

Lemma response_pending r st r' st' : response_fut_poll (Bs := Bs) (Hd := Hd) r st = (RPending, r', st') -> r' = r.
Proof.
  unfold response_fut_poll. destruct (on_w _ st) as [[res| |err| |] st1]; [|congruence| |done|done].
  - destruct (rf_ping r) as [ping|], (rf_send_stream r) as [ss|]; try done. destruct ss as [tx|]; [destruct (hr_status res =? 200)|]; try done.
    by destruct (match Headers.content_length_parse_all _ with Some _ => _ | None => _ end).
  - destruct (rf_ping r) as [ping|], (rf_send_stream r) as [ss|]; try done. by destruct (recorder_not_timed_out ping st1).
Qed.

Lemma pipe_map_inv fuel held alive started s l1 p l2 :
  sys_inv held alive started s -> sy_spawned s = l1 ++ FPipe p :: l2 ->
  let '(r, p', s') := pipe_map_poll fuel p s in sys_inv held alive started (settle r (FPipe p') l1 l2 s').
Proof.
  intros Hi E. pose proof (si_futures _ _ _ _ Hi) as Hf. rewrite E in Hf. apply Forall_app in Hf as [_ [Hf _]%Forall_cons]. cbn in Hf.
  pose proof (future_drop_inv false _ _ _ _ l1 _ l2 Hi E) as Hdrop. cbn [future_drop] in Hdrop. rewrite Hf in Hdrop.
  unfold pipe_map_poll. destruct (pipe_poll fuel (pm_pipe p) _) as [[r pipe] w]. rewrite Hf. set (n := mkNet _ w).
  destruct r as [[]| |e| |]; cbn [settle future_drop pm_open]; try exact (sys_inv_net _ _ _ _ n Hdrop).
  eapply (sys_inv_change _ _ _ _ _ l1 _ l2 [FPipe (mkPipeMap pipe true)] Hi E); try done.
  - by repeat constructor.
  - cbn. unfold pipes. cbn. by rewrite Hf.
  - pose proof (si_eof _ _ _ _ Hi) as He. rewrite E in He. change (FPipe p :: l2) with ([FPipe p] ++ l2) in He. rewrite !tasks_app in *. exact He.
Qed.

Lemma send_when_inv held alive started s l1 r cb l2 :
  sys_inv held alive started s -> sy_spawned s = l1 ++ FSend r cb :: l2 ->
  let '(x, r', cb', s') := send_when r cb s in sys_inv held alive started (settle x (FSend r' cb') l1 l2 s').
Proof.
  intros Hi E. pose proof (si_futures _ _ _ _ Hi) as Hf. rewrite E in Hf. apply Forall_app in Hf as [_ [Hf _]%Forall_cons].
  destruct Hf as ((ch & ->) & Hp & Hs). pose proof (si_eof _ _ _ _ Hi) as He. rewrite E in He.
  change (FSend r (Some (Retry (Some ch))) :: l2) with ([FSend r (Some (Retry (Some ch)))] ++ l2) in He. rewrite !tasks_app in He. cbn in He.
  unfold send_when. destruct (response_fut_poll r (sy_net s)) as [[x r'] n] eqn:Er.
  assert (Hans : forall a, keeps_message a -> sys_inv held alive started
    (future_drop false (FSend r' None) (set_spawned (l1 ++ l2) (set_chans (tx_send ch a false (sy_chans (set_net n s))).2 (set_net n s))))).
  { intros a Ha. eapply (sys_inv_change _ _ _ _ _ l1 _ l2 [] Hi E); try done; [|intros Hx; rewrite !tasks_app; exact (He Hx)].
    intros rest Hc. cbn in Hc |- *. by apply answer_ok. }
  destruct x as [res| |[e o]| |]; cbn [send_when_poll mbind option_bind callback_send is_canceled].
  - by apply Hans.
  - destruct (tx_is_closed ch _); cbn [settle]; [by apply Hans, keeps_gone|].
    eapply (sys_inv_change _ _ _ _ _ l1 _ l2 [FSend r' _] Hi E); try done; [|intros Hx; rewrite !tasks_app; exact (He Hx)].
    apply response_pending in Er as ->. repeat constructor; eauto.
  - apply response_no_message in Er as ->. apply Hans. by intros ? [= <-].
  - apply (sys_inv_net _ _ _ _ n (future_drop_inv true _ _ _ _ l1 _ l2 Hi E)).
  - apply (sys_inv_net _ _ _ _ n (future_drop_inv false _ _ _ _ l1 _ l2 Hi E)).
Qed.

Lemma conn_fut_same is_idle (t : ConnTask) s :
  let '(r, t', s') := conn_fut_poll is_idle t s in
  (exists n, s' = set_net n s) /\ ct_cancel_tx t' = ct_cancel_tx t /\ ct_drop_rx_terminated t' = ct_drop_rx_terminated t.
Proof.
  assert (Hw : forall (g : W -> poll_res H2Error unit * W) s1, exists n, (with_w g s1).2 = set_net n s1).
  { intros g s1. unfold with_w, on_w. destruct (g _). eauto. }
  assert (Hc : forall (t1 : ConnTask) n, let '(r, t', s') := (let '(r, s2) := with_w conn_poll (set_net n s) in (r, t1, s2)) in
    (exists n, s' = set_net n s) /\ ct_cancel_tx t' = ct_cancel_tx t1 /\ ct_drop_rx_terminated t' = ct_drop_rx_terminated t1).
  { intros t1 n. destruct (Hw conn_poll (set_net n s)) as [n' En]. destruct (with_w conn_poll (set_net n s)) as [r s2]. cbn in En. subst s2. split; [by exists n'|done]. }
  unfold conn_fut_poll. destruct (ct_ponger t) as [[bdp ka]|]; [|by specialize (Hc t (sy_net s)); destruct s].
  destruct (n_ping (sy_net s)) as [sh|]; [|by specialize (Hc t (sy_net s)); destruct s].
  destruct (Ping.poll is_idle _ _) as [[[[[wnd|]|] p] w]|]; [|split; [by eexists|done]| |split; [by exists (sy_net s); destruct s|done]].
  - set (t1 := mkConnTask _ _ _ _). set (n := mkNet _ (set_target_window_size _ _)).
    unfold with_w at 1, on_w. destruct (set_initial_window_size wnd _) as [[] w2]; [exact (Hc t1 (mkNet _ w2))|]. split; [by eexists|done].
  - exact (Hc (mkConnTask _ _ _ _) (mkNet _ w)).
Qed.

Lemma settle_inv r held alive started s l1 f l2 :
  sys_inv held alive started (set_spawned (l1 ++ f :: l2) s) -> sys_inv held alive started (settle r f l1 l2 s).
Proof.
  intros Hi. destruct r; cbn [settle]; try exact Hi;
    match goal with |- sys_inv _ _ _ (future_drop ?b _ _) => exact (future_drop_inv b _ _ _ _ l1 f l2 Hi eq_refl) end.
Qed.

Lemma conn_task_inv is_idle held alive started s l1 (t : ConnTask) l2 :
  sys_inv held alive started s -> sy_spawned s = l1 ++ FTask t :: l2 ->
  let '(r, t', s') := conn_task_poll is_idle t s in sys_inv held alive started (set_spawned (l1 ++ FTask t' :: l2) s').
Proof.
  intros Hi E. pose proof (si_futures _ _ _ _ Hi) as Hf. rewrite E in Hf. apply Forall_app in Hf as [_ [Hf _]%Forall_cons]. cbn in Hf.
  pose proof (si_eof _ _ _ _ Hi) as He. rewrite E in He. change (FTask t :: l2) with ([FTask t] ++ l2) in He. rewrite !tasks_app in He.
  (* the flags and the network may change *)
  assert (Hch : forall (t' : ConnTask) n, ct_cancel_tx t' = ct_cancel_tx t -> ct_drop_rx_terminated t' = ct_drop_rx_terminated t ->
    sys_inv held alive started (set_spawned (l1 ++ FTask t' :: l2) (set_net n s))).
  { intros t' n H1 H2. eapply (sys_inv_change _ _ _ _ _ l1 _ l2 [FTask t'] Hi E); try done.
    - repeat constructor. cbn. congruence.
    - rewrite !tasks_app. exact He.
    - cbn. by rewrite H1. }
  assert (Hmap : let '(r, t', s') := (if negb (ct_is_terminated t) then conn_map_err_poll is_idle t s else (Some false, t, s)) in
    (exists n, s' = set_net n s) /\ ct_cancel_tx t' = ct_cancel_tx t /\ ct_drop_rx_terminated t' = ct_drop_rx_terminated t).
  { unfold conn_map_err_poll. destruct (ct_is_terminated t); [by split; [exists (sy_net s); destruct s|]|]. cbn [negb].
    pose proof (conn_fut_same is_idle t s) as Hs. destruct (conn_fut_poll is_idle t s) as [[r t'] s']. by destruct r. }
  unfold conn_task_poll. destruct (if negb _ then _ else _) as [[r t1] s1]. destruct Hmap as ([n ->] & Ec & Ed).
  destruct r as [[]|]; [by apply Hch| |by apply Hch]. cbn [sy_drop_refs set_net].
  destruct (ct_drop_rx_terminated t1) eqn:Edt; cbn [negb andb]; [by apply Hch; rewrite ?Edt|].
  destruct (Nat.eqb_spec (sy_drop_refs s) 0) as [Hz|Hz]; [|by apply Hch; rewrite ?Edt].
  rewrite Ec, Hf, <- Ed. cbn [negb]. eapply (sys_inv_change _ _ _ _ _ l1 _ l2 [FTask _] Hi E); try done; [by repeat constructor|]. by right.
Qed.

Lemma future_poll_inv fuel is_idle held alive started s l1 f l2 :
  sys_inv held alive started s -> sy_spawned s = l1 ++ f :: l2 ->
  let '(r, f', s') := future_poll fuel is_idle f s in sys_inv held alive started (settle r f' l1 l2 s').
Proof.
  intros Hi E. destruct f as [p|r cb|t]; cbn [future_poll].
  - pose proof (pipe_map_inv fuel _ _ _ _ _ _ _ Hi E) as Hp. by destruct (pipe_map_poll fuel p s) as [[r p'] s'].
  - pose proof (send_when_inv _ _ _ _ _ _ _ _ Hi E) as Hp. by destruct (send_when r cb s) as [[[x r'] cb'] s'].
  - pose proof (conn_task_inv is_idle _ _ _ _ _ _ _ Hi E) as Hp. destruct (conn_task_poll is_idle t s) as [[r t'] s']. by apply settle_inv.
Qed.

(** ** The world *)

Record H2World := mkWorld { hw_sys : Sys; hw_task : option Task; hw_started : list nat }.

(** The requests that a poll of the task took from the queue. *)
Definition taken s s' : list nat := reverse (omap env_chan (take (length (queue_of s) - length (queue_of s')) (queue_of s))).
Definition on_sys (g : Sys -> Sys) (w : H2World) : H2World := mkWorld (g (hw_sys w)) (hw_task w) (hw_started w).

Inductive h_step : H2World -> H2World -> Prop :=
| h_send w val r q cs :
    unbounded_try_send val (sy_queue (hw_sys w)) (sy_chans (hw_sys w)) = Some (r, q, cs) ->
    h_step w (on_sys (fun s => set_queue q (set_chans cs s)) w)
| h_poll w fuel pf senders t r t' s' :
    hw_task w = Some t -> client_poll fuel pf senders t (hw_sys w) = (r, t', s') -> r <> RFuel ->
    h_step w (mkWorld s' (Some t') (taken (hw_sys w) s' ++ hw_started w))
| h_drop w b t s' :
    hw_task w = Some t -> client_task_drop b t (hw_sys w) = Some s' -> h_step w (mkWorld s' None (hw_started w))
| h_future w fuel is_idle l1 f l2 r f' s' :
    sy_spawned (hw_sys w) = l1 ++ f :: l2 -> future_poll fuel is_idle f (hw_sys w) = (r, f', s') -> r <> RFuel ->
    h_step w (mkWorld (settle r f' l1 l2 s') (hw_task w) (hw_started w))
| h_drop_future w b l1 f l2 :
    sy_spawned (hw_sys w) = l1 ++ f :: l2 ->
    h_step w (on_sys (fun s => future_drop b f (set_spawned (l1 ++ l2) s)) w)
| h_network w n : h_step w (on_sys (set_net n) w)
| h_caller_gone w ch :
    is_Some (chan (sy_chans (hw_sys w)) ch) -> h_step w (on_sys (fun s => set_chans (rx_drop ch (sy_chans s)) s) w)
| h_caller_takes w ch :
    is_Some (chan (sy_chans (hw_sys w)) ch) -> rx_poll ch (sy_chans (hw_sys w)) <> RxPending ->
    h_step w (on_sys (fun s => set_chans (rx_take ch (sy_chans s)) s) w).

(** A connection begins with its handshake, on an empty queue. *)
Definition h_init (n : Net (W := W)) (ponger : option (option Ping.Bdp * option Ping.KeepAlive)) : H2World :=
  mkWorld (execute_h2_future (FTask (mkConnTask ponger false false true)) (mkSys n chans_none channel.2 1 false []))
    (Some (mkClientTask (bool_decide (is_Some (n_ping n))) None)) [].

(** This is the state [handshake] makes. *)
Lemma handshake_init {P S D X R} (config : Config (PseudoOrder := P) (SettingsOrder := S) (StreamDependency := D)
    (ExperimentalSettings := X) (Priorities := R)) (w0 : W) :
  let '(t, s) := handshake config w0 channel.2 chans_none in exists n ponger, mkWorld s (Some t) [] = h_init n ponger.
Proof.
  unfold handshake. destruct (Ping.is_enabled _).
  - destruct (Ping.channel (new_ping_config config) w0) as [p w1]. by eexists (mkNet (Some _) w1), (Some _).
  - by exists (mkNet None w0), None.
Qed.

Definition h_reach (w : H2World) : Prop := exists n ponger, rtc h_step (h_init n ponger) w.

Definition unanswered (w : H2World) : list nat :=
  (match hw_task w with Some t => task_chan t | None => [] end) ++ waiting (sy_spawned (hw_sys w)) ++ omap env_chan (queue_of (hw_sys w)).
Definition alive (w : H2World) : nat := match hw_task w with Some _ => 1 | None => 0 end.

Record h_inv (w : H2World) : Prop := {
  hi_sys : sys_inv (match hw_task w with Some t => task_chan t | None => [] end) (alive w) (hw_started w) (hw_sys w);
  hi_task t : hw_task w = Some t -> task_ok t;
  hi_gone : hw_task w = None -> queue_of (hw_sys w) = [] /\ mp_open (sh_inner (sy_queue (hw_sys w))) = false
}.

Lemma send_inv_h val w r q cs :
  h_inv w -> unbounded_try_send val (sy_queue (hw_sys w)) (sy_chans (hw_sys w)) = Some (r, q, cs) ->
  h_inv (on_sys (fun s => set_queue q (set_chans cs s)) w).
Proof.
  intros [[Hc Hf Hq Hr Ho He Hto] Ht Hg]. unfold unbounded_try_send.
  destruct (enqueue_ok val (sh_inner (sy_queue (hw_sys w))) _ _ _ Hc) as (r' & m' & cs' & E & Hcase).
  rewrite E. cbn [mbind option_bind]. intros [= <- <- <-].
  destruct Hcase as [(Hop & (ch & -> & Hns & Hc' & Em) & Hop')|(Hop & -> & Hc' & Em)].
  - split; [|done|intros Hn; destruct (Hg Hn); congruence]. unfold queue_of in *. split; cbn; try done; unfold queue_of; cbn; rewrite Em.
    + rewrite queued_app. eapply chans_ok_perm; [|exact Hc']. cbn. rewrite !app_assoc. apply Permutation_cons_append.
    + apply Forall_app. split; [done|]. constructor; [|constructor]. exists val, ch. auto.
  - unfold queue_of in *. split; [|done|].
    + split; cbn; try done; unfold queue_of; cbn; by rewrite Em.
    + intros Hn. destruct (Hg Hn) as [Hq0 _]. unfold queue_of. cbn. split; [by rewrite Em|].
      unfold enqueue in E. destruct (chan_new _) as [ch cs1].
      pose proof (send_closed (Some (val, Retry (Some ch))) _ Hop) as [E1 _]. pose proof (send_stays (Some (val, Retry (Some ch))) _ Hop) as E2.
      destruct (mp_send _ _) as [o m2]. cbn [fst snd] in *. subst o. cbn in E. injection E as <- <-. exact E2.
Qed.

Lemma task_drop_inv b t held started s :
  task_ok t -> sys_inv (task_chan t ++ held) 1 started s ->
  exists s', client_task_drop b t s = Some s' /\ sys_inv held 0 started s' /\
    queue_of s' = [] /\ mp_open (sh_inner (sy_queue s')) = false.
Proof.
  intros Ht [Hc Hf Hq Hr Ho He Hto]. unfold client_task_drop, receiver_drop.
  destruct (drop_queue (sh_inner (sy_queue s))) as (E1 & E2 & E3).
  destruct (mp_drop_rx (sh_inner (sy_queue s))) as [l m']. cbn [fst snd] in *. subst l.
  assert (Hc1 : chans_ok (omap env_chan (queue_of s) ++ task_chan t ++ held ++ waiting (sy_spawned s)) started (sy_chans s)).
  { eapply chans_ok_perm; [|exact Hc]. rewrite (Permutation_app_comm (omap _ _)). by rewrite <- !app_assoc. }
  destruct (envelopes_drop_ok _ _ _ _ Hq Hc1) as (cs' & Ed & Hc'). unfold queue_of in Ed. rewrite Ed. cbn [mbind option_bind].
  eexists. split; [reflexivity|].
  assert (Hfin : forall cs2, chans_ok (held ++ waiting (sy_spawned s)) started cs2 ->
    sys_inv held 0 started (set_chans cs2 (drop_ref (set_queue (mkShared m' (cancel (sh_want (sy_queue s)))) (set_chans cs' s))))).
  { intros cs2 H2. unfold queue_of in *. split; cbn; try done; unfold queue_of; cbn; rewrite ?E2; cbn; rewrite ?app_nil_r; try done.
    - by rewrite Hr.
    - intros Hx. destruct (He Hx); [by left|lia]. }
  destruct (t_fut_ctx t) as [c|] eqn:Ect.
  - destruct (Ht c Ect) as [ch Ecb]. rewrite Ecb. split; [|done]. apply Hfin. unfold task_chan in Hc'. rewrite Ect in Hc'. cbn in Hc'. rewrite Ecb in Hc'. cbn in Hc'.
    apply answer_ok; [exact Hc'|]. intros _. apply keeps_gone.
  - split; [|done]. apply (Hfin cs'). unfold task_chan in Hc'. rewrite Ect in Hc'. exact Hc'.
Qed.

Lemma future_drop_queue b f s : sy_queue (future_drop b f s) = sy_queue s.
Proof. destruct f as [p|r [cb|]|t]; cbn; try done; by case_match. Qed.

Lemma future_poll_queue fuel is_idle f s : sy_queue (future_poll fuel is_idle f s).2 = sy_queue s.
Proof.
  destruct f as [p|r cb|t]; cbn [future_poll].
  - unfold pipe_map_poll. destruct (pipe_poll fuel _ _) as [[x p'] w]. by destruct x, (pm_open p).
  - unfold send_when. destruct (response_fut_poll r _) as [[x r'] n]. destruct x as [?| |[]| |]; try done;
      (destruct (send_when_poll _ cb _) as [[[? ?] ?]|]; done).
  - unfold conn_task_poll, conn_map_err_poll. destruct (ct_is_terminated t); cbn [negb].
    + destruct (_ && _); [|done]. by destruct (ct_cancel_tx t).
    + pose proof (conn_fut_same is_idle t s) as Hs. destruct (conn_fut_poll is_idle t s) as [[x t'] s']. destruct Hs as ([n ->] & _).
      destruct x; cbn; try done. destruct (_ && _); [|done]. by destruct (ct_cancel_tx t').
Qed.

Lemma h_step_inv w w' : h_step w w' -> h_inv w -> h_inv w'.
Proof.
  intros Hs Hi. destruct Hs as
    [w val r q cs E|w fuel pf senders t r t' s' Et E _|w b t s' Et E|w fuel is_idle l1 f l2 r f' s' El E _|w b l1 f l2 El|w n|w ch [x Hx]|w ch [x Hx] _].
  - by eapply send_inv_h.
  - destruct Hi as [Hs Ht Hg]. unfold alive in Hs. rewrite Et in Hs.
    pose proof (client_poll_inv fuel pf senders t (hw_sys w) _ (Ht t Et) Hs) as Hp. rewrite E in Hp. destruct Hp as (pre & Hq & Ht' & Hs').
    split; cbn; [|by intros ? [= <-]|done]. unfold taken. rewrite Hq, length_app, Nat.add_sub, take_app_length. exact Hs'.
  - destruct Hi as [Hs Ht Hg]. unfold alive in Hs. rewrite Et, <- (app_nil_r (task_chan t)) in Hs.
    destruct (task_drop_inv b t [] _ _ (Ht t Et) Hs) as (s2 & E2 & H2 & H3). rewrite E in E2. injection E2 as <-. by split.
  - destruct Hi as [Hs Ht Hg]. pose proof (future_poll_inv fuel is_idle _ _ _ _ _ _ _ Hs El) as Hp. rewrite E in Hp.
    split; [exact Hp|done|]. cbn. intros Hn. pose proof (future_poll_queue fuel is_idle f (hw_sys w)) as Hq. rewrite E in Hq. cbn in Hq. unfold queue_of.
    assert (Hsq : sy_queue (settle r f' l1 l2 s') = sy_queue (hw_sys w)) by (rewrite <- Hq; destruct r; cbn [settle]; rewrite ?future_drop_queue; done).
    rewrite Hsq. by apply Hg.
  - destruct Hi as [Hs Ht Hg]. split; [by apply future_drop_inv|done|]. cbn [on_sys hw_sys hw_task]. unfold queue_of. by rewrite future_drop_queue.
  - destruct Hi as [Hs Ht Hg]. split; [by apply sys_inv_net|done|done].
  - destruct Hi as [[Hc Hf Hq Hr Ho He Hto] Ht Hg]. split; [|done|done]. split; cbn; try done.
    eapply receiver_ok; [exact Hc|exact Hx|apply drop_rx_eq; exact Hx| | |intros; by apply drop_rx_ne]; [easy|split; [by left|done]].
  - destruct Hi as [[Hc Hf Hq Hr Ho He Hto] Ht Hg]. split; [|done|done]. split; cbn; try done.
    eapply receiver_ok; [exact Hc|exact Hx|apply take_rx_eq; exact Hx| | |intros; by apply take_rx_ne]; [easy|split; [by right|done]].
Qed.

Lemma h_init_inv n ponger : h_inv (h_init n ponger).
Proof.
  split; [|by intros t [= <-]|done]. split; cbn; unfold queue_of; cbn; rewrite ?new_queue; cbn; try done.
  - split; [by apply NoDup_nil|intros ch; rewrite elem_of_nil; split; [done|]; intros (x & Hx & _)|intros ch x Hx|by intros ch x a ?%elem_of_nil|by intros ch ?%elem_of_nil|intros ch x Hx];
      by rewrite chan_none in Hx.
  - by repeat constructor.
Qed.

Lemma h_reach_inv w : h_reach w -> h_inv w.
Proof.
  intros (n & ponger & Hr). pose proof (h_init_inv n ponger) as Hi. induction Hr as [|w1 w2 w3 Hs _ IH]; [done|]. by apply IH, (h_step_inv w1).
Qed.
End World.

(** ** Totality *)

(** The calls on the connection do not panic. *)
Class H2CrateLaws `{HC : HttpCrate} {W Hd : Type} {h2 : H2Crate (W := W) (Hd := Hd)} := {
  poll_ready_total w : (h2_poll_ready w).1 <> RPanic /\ (h2_poll_ready w).1 <> RFuel
}.

Section Total.
Context {BC : BytesCrate} {BCL : BytesCrateLaws} {B : Type} {HB : Buf B} {HBL : BufLaws B} `{HL : HttpLaws}.
Context {W : Type} {hs : H2Streams W B HeaderMap} {pe : Ping.Peer W} {hl : H2Laws W B}.
Context {Bs : Type} {bd : Body Bs B HeaderMap} {bdl : BodyLaws Bs B} {Hd : Type} {h2 : H2Crate (W := W) (Hd := Hd)} {h2l : H2CrateLaws}.
Context {CS : Type} {os : Oneshot (Answer (Request (Bs := Bs) (Hd := Hd)) Response) CS}.
Context {M : Type} {mp : Mpsc (Envelope (Request (Bs := Bs) (Hd := Hd))) M} {mpl : MpscLaws (Envelope (Request (Bs := Bs) (Hd := Hd))) M}.
Context {G : Type} {wt : Want G}.
Implicit Types (s : H2Sys (W := W) (Bs := Bs) (CS := CS) (M := M) (G := G)) (t : ClientTask (Bs := Bs)).

(** The body ends, within the fuel. *)
Definition body_fits (pf : nat) (b : Bs) : Prop := body_ok (B := B) b /\ (Z.to_nat (body_left (B := B) b) + S max_spurious < pf)%nat.

(** A request that can be sent: its [Connection] header, if it has one, is text. *)
Definition request_ok (pf : nat) (r : Request (Bs := Bs) (Hd := Hd)) : Prop :=
  body_fits pf (rq_body r) /\ (forall v, hm_get CONNECTION (rq_headers r) = Some v -> forallb visible_ascii v = true).
Definition env_ok (pf : nat) (e : Envelope (Request (Bs := Bs) (Hd := Hd))) : Prop :=
  exists req ch, e = Some (req, Retry (Some ch)) /\ request_ok pf req.
Definition ctx_ok (pf : nat) t : Prop :=
  forall c, t_fut_ctx t = Some c -> (exists ch, fc_cb c = Retry (Some ch)) /\ body_fits pf (fc_body c).

Lemma with_w_queue {A} (g : W -> A * W) s : queue_of (with_w g s).2 = queue_of s.
Proof. unfold with_w, on_w. by destruct (g _). Qed.

Lemma poll_ready_s s : let '(r, s') := with_w h2_poll_ready s in r <> RPanic /\ r <> RFuel /\ queue_of s' = queue_of s.
Proof.
  pose proof (with_w_queue h2_poll_ready s) as Hq. pose proof (poll_ready_total (n_w (sy_net s))) as Hp. unfold with_w, on_w in *.
  destruct (h2_poll_ready (n_w (sy_net s))) as [r w]. by destruct Hp.
Qed.

Lemma poll_pipe_total pf t c s :
  body_fits pf (fc_body c) -> let '(r, s') := poll_pipe pf t c s in r = RVal tt /\ queue_of s' = queue_of s.
Proof.
  intros [Hb Hf]. unfold poll_pipe. destruct (fc_is_connect c); [done|]. destruct (fc_eos c); [done|]. cbn [negb].
  pose proof (pipe_poll_ok pf (pipe_new (fc_body c) (fc_body_tx c)) (n_w (sy_net s)) Hb Hf) as Ho.
  destruct (pipe_poll pf _ _) as [[r p'] w']. destruct Ho as (_ & l & b' & _ & Ho). by destruct r.
Qed.

Lemma start_request_total pf t req ch s :
  request_ok pf req ->
  let '(r, s') := start_request pf t req (Retry (Some ch)) s in
  queue_of s' = queue_of s /\ exists o, r = RVal o /\ forall c, o = Some c -> fc_cb c = Retry (Some ch) /\ fc_body c = rq_body req.
Proof.
  intros [Hb Hc]. unfold start_request. pose proof (strip_ok (rq_headers req)) as Hs.
  destruct (strip_connection_headers (rq_headers req) true) as [hdrs|].
  2: { destruct Hs as (v & Hv & Hx). rewrite (Hc v Hv) in Hx. done. }
  destruct (_ && _); [by split; [|exists None]|].
  match goal with |- context [with_w ?g s] => pose proof (with_w_queue g s) as Q1; destruct (with_w g s) as [[id|e] s1] end;
    cbn [snd] in Q1; [|by split; [|exists None]].
  pose proof (poll_ready_s s1) as Hp. destruct (with_w h2_poll_ready s1) as [r s2]. destruct Hp as (Hp & Hq & Q2). rewrite Q1 in Q2.
  destruct r as [u| |e| |]; try done.
  - set (c := mkFutCtx _ _ id id _ _). pose proof (poll_pipe_total pf t c s2 Hb) as Hx. destruct (poll_pipe pf t c s2) as [r s3].
    destruct Hx as [-> Q3]. split; [congruence|]. by exists None.
  - split; [done|]. eexists. split; [done|]. by intros c [= <-].
  - split; [done|]. by exists None.
Qed.

Lemma client_poll_total fuel pf senders t s :
  Forall (env_ok pf) (queue_of s) -> ctx_ok pf t -> (length (queue_of s) + S (length (option_list (t_fut_ctx t))) <= fuel)%nat ->
  let '(r, _, _) := client_poll fuel pf senders t s in r <> RPanic /\ r <> RFuel.
Proof.
  revert t s. induction fuel as [|fuel IH]; intros t s Hq Ht Hf; [lia|]. cbn [client_poll].
  pose proof (poll_ready_s s) as Hp. destruct (with_w h2_poll_ready s) as [r s1]. destruct Hp as (Hp & Hpf & Q1).
  destruct r as [u| |e| |]; try done; [|by destruct (recorder_not_timed_out _ _); [case_bool_decide|]].
  destruct (t_fut_ctx t) as [c|] eqn:Ec.
  - destruct (Ht c Ec) as [_ Hb]. pose proof (poll_pipe_total pf (mkClientTask (t_ping t) None) c s1 Hb) as Hx.
    destruct (poll_pipe pf (mkClientTask (t_ping t) None) c s1) as [r s2]. destruct Hx as [-> Q2].
    apply IH; rewrite ?Q2, ?Q1; cbn in *; [done|done|lia].
  - unfold poll_recv. destruct (queue_of s1) as [|e l] eqn:Eq.
    + destruct (recv_empty senders (sh_inner (sy_queue s1)) Eq) as [E1 E2]. destruct (mp_recv senders (sh_inner (sy_queue s1))) as [o m'].
      cbn [fst snd] in *. subst o. destruct (senders && _); [|done]. cbn [sy_conn_eof set_queue]. by destruct (sy_conn_eof s1).
    + destruct (recv_msg_head senders e l _ Eq) as [E1 E2]. destruct (mp_recv senders (sh_inner (sy_queue s1))) as [o m'].
      cbn [fst snd] in *. subst o. rewrite <- Q1 in Hq, Hf. apply Forall_cons in Hq as [(req & ch & -> & Hr) Hq]. cbn [is_canceled length] in *.
      set (s2 := set_queue _ s1). assert (Q2 : queue_of s2 = l) by exact E2.
      destruct (tx_is_closed ch (sy_chans s2)).
      * apply IH; unfold callback_drop_s; [change (Forall (env_ok pf) (queue_of s2)); by rewrite Q2|done|].
        change (length (queue_of s2) + S (length (option_list (t_fut_ctx t))) <= fuel)%nat. rewrite Q2, Ec. cbn in *. lia.
      * pose proof (start_request_total pf t req ch s2 Hr) as Hx. destruct (start_request pf t req (Retry (Some ch)) s2) as [r s3].
        destruct Hx as (Q3 & o & -> & Ho). destruct o as [c|]; [done|]. apply IH; rewrite ?Q3, ?Q2, ?Ec; cbn in *; [done|done|lia].
Qed.
End Total.

(** ** Theorems *)

Section Props.
Context `{HC : HttpCrate} {W B : Type} {hs : H2Streams W B HeaderMap} {pe : Ping.Peer W} {Bs : Type} {bd : Body Bs B HeaderMap}.
Context {Hd : Type} {h2 : H2Crate (W := W) (Hd := Hd)}.
Context {CS : Type} {os : Oneshot (Answer (Request (Bs := Bs) (Hd := Hd)) Response) CS} {osl : OneshotLaws (Answer (Request (Bs := Bs) (Hd := Hd)) Response) CS}.
Context {M : Type} {mp : Mpsc (Envelope (Request (Bs := Bs) (Hd := Hd))) M} {mpl : MpscLaws (Envelope (Request (Bs := Bs) (Hd := Hd))) M}.
Context {G : Type} {wt : Want G}.
Implicit Types w : H2World (W := W) (Bs := Bs) (CS := CS) (M := M) (G := G).

(** C22. On an HTTP/2 connection every accepted request is answered exactly once, however
    callers, the client task, the tasks of bodies and responses and the connection
    interleave, fail or are dropped: the promises without an answer are those whose
    request is queued, waits for its stream to open or has a task that awaits its
    response, each once; when these tasks have ended none is left.  A request that the
    task took from its queue never comes back for a retry. *)
Theorem h2_requests_answered w :
  h_reach w ->
  NoDup (unanswered w) /\
  (forall ch, rx_poll ch (sy_chans (hw_sys w)) = RxPending <-> ch ∈ unanswered w) /\
  (hw_task w = None -> waiting (sy_spawned (hw_sys w)) = [] -> forall ch, rx_poll ch (sy_chans (hw_sys w)) <> RxPending) /\
  (forall ch e, ch ∈ hw_started w -> rx_poll ch (sy_chans (hw_sys w)) = RxReady (AnsRetry (Err e)) -> tse_message e = None).
Proof.
  intros Hr. pose proof (h_reach_inv w Hr) as [[Hc _ _ _ _ _ _] _ Hg]. pose proof (chans_ok_pending _ _ _ Hc) as Hiff. fold (unanswered w) in Hc, Hiff.
  split; [apply Hc|]. split; [exact Hiff|]. split.
  - intros Hn Hw ch Hp. apply Hiff in Hp. unfold unanswered in Hp. rewrite Hn, Hw, (proj1 (Hg Hn)) in Hp. by apply not_elem_of_nil in Hp.
  - intros ch e Hin Hp. unfold rx_poll in Hp. destruct (chan _ ch) as [x|] eqn:Ex; [|done].
    destruct (sent x) as [a|] eqn:Ea; [|by destruct (tx_alive x)]. injection Hp as ->. exact (co_started _ _ _ Hc ch x _ Hin Ex Ea e eq_refl).
Qed.

(** The signals between the tasks of an HTTP/2 connection mean what they say: the
    handles that keep the connection open are the client task and the bodies that are
    still being sent; the client task is told that the connection is gone exactly when
    the connection's task has ended; and the connection's task is never polled into its
    [expect]: it still has its end of the signal when it is to give it up. *)
Theorem h2_signals w :
  h_reach w ->
  sy_drop_refs (hw_sys w) = (alive w + pipes (sy_spawned (hw_sys w)))%nat /\
  (forall t, hw_task w = Some t -> sy_conn_eof (hw_sys w) = true <-> tasks (sy_spawned (hw_sys w)) = 0%nat) /\
  (forall t is_idle, FTask t ∈ sy_spawned (hw_sys w) -> (conn_task_poll is_idle t (hw_sys w)).1.1 = None ->
     (conn_fut_poll is_idle t (hw_sys w)).1.1 = RPanic \/ (conn_fut_poll is_idle t (hw_sys w)).1.1 = RFuel).
Proof.
  intros Hr. pose proof (h_reach_inv w Hr) as [[_ Hf _ Hrefs Hone Heof Htold] _ _]. split; [exact Hrefs|]. split.
  - intros t Ht. unfold alive in Hrefs. rewrite Ht in Hrefs. split; [intros E; destruct (Heof E); lia|]. intros Hz.
    destruct (sy_conn_eof (hw_sys w)); [done|]. cbn in Htold. apply existsb_exists in Htold as (f & Hin & Hs). apply list_elem_of_In in Hin.
    destruct f as [?|?|t']; try done. exfalso. apply list_elem_of_split in Hin as (l1 & l2 & E). rewrite E, tasks_app in Hz. unfold tasks in Hz. cbn in Hz. lia.
  - intros t is_idle Hin. rewrite Forall_forall in Hf. specialize (Hf _ Hin). cbn in Hf.
    unfold conn_task_poll, conn_map_err_poll. destruct (ct_is_terminated t); cbn [negb].
    + destruct (ct_drop_rx_terminated t); cbn [negb andb] in *; [done|]. rewrite Hf. by destruct (_ =? _)%nat.
    + pose proof (conn_fut_same is_idle t (hw_sys w)) as Hs. destruct (conn_fut_poll is_idle t (hw_sys w)) as [[r t'] s']. destruct Hs as (_ & Ec & Ed).
      cbn. destruct r; cbn; auto; try done.
      destruct (ct_drop_rx_terminated t'); cbn [negb andb] in *; [done|]. rewrite Ec, Hf, <- Ed. by destruct (_ =? _)%nat.
Qed.
End Props.

Section PropsTotal.
Context {BC : BytesCrate} {BCL : BytesCrateLaws} {B : Type} {HB : Buf B} {HBL : BufLaws B} `{HL : HttpLaws}.
Context {W : Type} {hs : H2Streams W B HeaderMap} {pe : Ping.Peer W} {hl : H2Laws W B}.
Context {Bs : Type} {bd : Body Bs B HeaderMap} {bdl : BodyLaws Bs B} {Hd : Type} {h2 : H2Crate (W := W) (Hd := Hd)} {h2l : H2CrateLaws}.
Context {CS : Type} {os : Oneshot (Answer (Request (Bs := Bs) (Hd := Hd)) Response) CS} {osl : OneshotLaws (Answer (Request (Bs := Bs) (Hd := Hd)) Response) CS}.
Context {M : Type} {mp : Mpsc (Envelope (Request (Bs := Bs) (Hd := Hd))) M} {mpl : MpscLaws (Envelope (Request (Bs := Bs) (Hd := Hd))) M}.
Context {G : Type} {wt : Want G}.
Implicit Types w : H2World (W := W) (Bs := Bs) (CS := CS) (M := M) (G := G).

(** C33. A poll of the client task returns: with fuel for the requests that are queued
    and their bodies, neither its loop nor the body it polls runs on, and it panics
    on no request whose [Connection] header, if it has one, is text. *)
Theorem h2_poll_returns w t fuel pf senders :
  h_reach w -> hw_task w = Some t ->
  (forall req cb, Some (req, cb) ∈ queue_of (hw_sys w) -> request_ok pf req) ->
  (forall c, t_fut_ctx t = Some c -> body_fits pf (fc_body c)) ->
  (length (queue_of (hw_sys w)) + 2 <= fuel)%nat ->
  let '(r, _, _) := client_poll fuel pf senders t (hw_sys w) in r <> RPanic /\ r <> RFuel.
Proof.
  intros Hr Ht Hq Hc Hf. pose proof (h_reach_inv w Hr) as [[_ _ Hfq _ _ _ _] Htk _]. apply client_poll_total.
  - rewrite Forall_forall in Hfq |- *. intros e He. destruct (Hfq e He) as (req & ch & -> & _). exists req, ch. split; [done|]. by apply (Hq _ _ He).
  - intros c Ec. split; [by apply (Htk t Ht)|by apply Hc].
  - destruct (t_fut_ctx t); cbn; lia.
Qed.
End PropsTotal.

(** ** Witnesses *)

Module RefH2Client.
Import RefBytes RefHttp RefOneshot RefDispatch RefH2.

#[export] Instance ref_crate : H2Crate (W := Net2) (Hd := unit) := {
  h2_poll_ready w := (RVal tt, w);
  h2_send_request r eos w := (Ok (r_next w), mkNet2 (r_sent w) (r_reserved w) (r_in w) (r_log w) (r_released w) (r_waits w) (S (r_next w)));
  response_poll id w := (RVal (mkH2Response 200 hm_new id), w);
  conn_poll w := (RPending, w);
  set_target_window_size n w := w;
  set_initial_window_size n w := (Ok tt, w)
}.
#[export] Instance ref_crate_laws : H2CrateLaws (W := Net2) (Hd := unit).
Proof. split. done. Qed.

Abbreviation Rq := (Request (Bs := RefTask.Pieces) (Hd := unit)).
Abbreviation Chans := (gmap nat (Channel (Answer Rq Response))).
Abbreviation World := (H2World (W := Net2) (Bs := RefTask.Pieces) (CS := Chans) (M := Queue (Envelope Rq)) (G := WantState)).

Definition req : Rq := mkRequest POST (hm_insert CONNECTION (bs "close") hm_new) None tt [Some (bs "hi")].
Definition wd0 : World := h_init (mkNet None w0) None.
Definition chans1 : Chans := {[0%nat := mkChannel true true None]}.
Definition queue1 : Shared (M := Queue (Envelope Rq)) (G := WantState) := mkShared (mkQueue [Some (req, Retry (Some 0%nat))] true) WIdle.
Definition wd1 : World := on_sys (fun s => set_queue queue1 (set_chans chans1 s)) wd0.

Lemma reach_wd1 : h_reach (B := bytes) wd1.
Proof. exists (mkNet None w0), None. apply rtc_once. exact (h_send wd0 req (Ok 0%nat) queue1 chans1 eq_refl). Qed.

(** The task sends the request and leaves a task that awaits the response. *)
Definition task0 : ClientTask (Bs := RefTask.Pieces) := mkClientTask false None.
Definition polled1 := client_poll (B := bytes) 5 100 true task0 (hw_sys wd1).
Definition wd2 : World := mkWorld polled1.2 (Some polled1.1.2) (taken (hw_sys wd1) polled1.2 ++ []).

Lemma reach_wd2 : h_reach (B := bytes) wd2.
Proof.
  destruct reach_wd1 as (n & p & Hr). exists n, p. eapply rtc_r; [exact Hr|].
  refine (h_poll wd1 5 100 true task0 polled1.1.1 polled1.1.2 polled1.2 eq_refl _ _); [unfold polled1; by destruct (client_poll _ _ _ _ _) as [[]]|].
  assert (E : match polled1.1.1 with RFuel => false | _ => true end = true) by reflexivity. intros Hf. by rewrite Hf in E.
Qed.

Lemma h2_requests_answered_witness :
  unanswered wd2 = [0%nat] /\ waiting (sy_spawned (hw_sys wd2)) = [0%nat] /\ rx_poll 0%nat (sy_chans (hw_sys wd2)) = RxPending.
Proof.
  split; [reflexivity|]. split; [reflexivity|]. apply (proj1 (proj2 (h2_requests_answered (B := bytes) wd2 reach_wd2)) 0%nat). left.
Defined.

Lemma h2_signals_witness : sy_drop_refs (hw_sys wd2) = 1%nat /\ sy_conn_eof (hw_sys wd2) <> true.
Proof.
  destruct (h2_signals (B := bytes) wd2 reach_wd2) as (Hr & He & _). split; [exact Hr|]. intros E.
  apply (He polled1.1.2 eq_refl) in E. assert (Ht : Nat.eqb (tasks (sy_spawned (hw_sys wd2))) 0 = false) by reflexivity. by rewrite E in Ht.
Defined.

Lemma req_ok : request_ok (B := bytes) (W := Net2) (bdl := RefTask.ref_body_laws) 100 req.
Proof.
  split; [split; [exact I|]|].
  - change (Z.to_nat (RefTask.pieces_left (rq_body req)) + 1 < 100)%nat. apply Nat.ltb_lt. vm_compute. reflexivity.
  - intros v Hv. assert (Hx : hm_get CONNECTION (rq_headers req) = Some (bs "close")) by reflexivity. rewrite Hx in Hv. injection Hv as <-. reflexivity.
Qed.

Lemma h2_poll_returns_witness : let '(r, _, _) := client_poll (B := bytes) 5 100 true task0 (hw_sys wd1) in r <> RPanic.
Proof.
  pose proof (h2_poll_returns (B := bytes) wd1 task0 5 100 true reach_wd1 eq_refl) as Hp.
  destruct (client_poll (B := bytes) 5 100 true task0 (hw_sys wd1)) as [[r t] s]. apply Hp.
  - intros q cb [E|Hn]%elem_of_cons; [injection E as -> ->; exact req_ok|by apply not_elem_of_nil in Hn].
  - done.
  - apply Nat.leb_le. reflexivity.
Defined.
End RefH2Client.
