(* ===== verification/IdleTask.v ===== *)
(** * The eviction task of the pool (src/src/core/client/pool.rs)

    [IdleTask] clears expired connections at an interval until the pool is gone.
    Times are in milliseconds; [clock n] is the [n]-th reading of the clock, and the
    users of the pool act between the steps of the task ([others]); [None] is a pool
    that was dropped, which both the notifier and the weak pointer show. *)

From S2P Require Import Prelude Oneshot Pool PoolFacts PoolWorld PoolProps.
Import Pool.

Module IdleTask.
Section IdleTask.
Context {K : Type} `{Countable K} {T : Type} `{Poolable T} {L : Type} {lru : Lru K (list (Idle T)) L}.
Context (is_open : T -> bool) (clock : nat -> Z) (others : nat -> option (PoolInner K L) -> option (PoolInner K L)).
Abbreviation MPool := (option (PoolInner K L)).

(** [fut] is the sleep until [it_fut]. *)
Record IdleTask := mkIdleTask { it_duration : Z; it_deadline : Z; it_fut : Z }.

(** The task that [spawn_idle_interval] makes: ready at the first tick. *)
Definition task_new (dur : Z) (n : nat) : IdleTask := mkIdleTask dur (clock n) (clock (S n)).

(** The next deadline, and the readings of the clock it took. *)
Definition next_deadline (t : IdleTask) (n : nat) : Z * nat :=
  let deadline := it_deadline t + it_duration t in
  if deadline <? clock n - 5 then (clock (S n) + it_duration t, S (S n)) else (deadline, S n).

Fixpoint idle_poll (fuel n : nat) (t : IdleTask) (pool : MPool) : poll_res unit unit * IdleTask * MPool * nat :=
  match fuel with
  | O => (RFuel, t, pool, n)
  | S fuel =>
      match others n pool with
      | None => (RVal tt, t, None, n)
      | Some p =>
          if clock n <? it_fut t then (RPending, t, Some p, S n)
          else
            let '(deadline, n) := next_deadline t (S n) in
            let t := mkIdleTask (it_duration t) deadline deadline in
            match others n (Some p) with
            | None => (RVal tt, t, None, n)
            | Some p =>
                match clear_expired is_open (clock n) p with
                | None => (RPanic, t, Some p, n)
                | Some p => idle_poll fuel (S n) t (Some p)
                end
            end
      end
  end.

(** ** A poll returns *)

(** The pool over some steps of the task and of others, with [k] evictions, none
    of them before the time [from]. *)
Inductive evicted (from : Z) : nat -> MPool -> MPool -> Prop :=
| ev_refl p : evicted from 0 p p
| ev_others k p n p' : evicted from k (others n p) p' -> evicted from k p p'
| ev_clear k now p p1 p' :
    from <= now -> clear_expired is_open now p = Some p1 -> evicted from k (Some p1) p' -> evicted from (S k) (Some p) p'.

Hypothesis clock_mono : forall i j, (i <= j)%nat -> clock i <= clock j.
(** Nobody changes the pool's timeout. *)
Definition timed (dur : Z) (p : MPool) : Prop := match p with Some p => timeout p = Some dur | None => True end.
Context (dur : Z) (others_timed : forall n p, timed dur p -> timed dur (others n p)).

Lemma clear_expired_timed now p p' : clear_expired is_open now p = Some p' -> timeout p' = timeout p.
Proof. unfold clear_expired. by destruct (timeout p) eqn:E; cbn; intros [= <-]. Qed.

Lemma clear_expired_runs now p : timeout p = Some dur -> exists p', clear_expired is_open now p = Some p'.
Proof. unfold clear_expired. intros ->. cbn. eauto. Qed.

(** The next deadline is never far behind nor more than a period ahead. *)
Lemma next_deadline_spec t n :
  it_deadline t <= clock n -> 0 <= it_duration t ->
  let '(d, m) := next_deadline t n in (n < m <= n + 2)%nat /\ clock n - 5 <= d <= clock m + it_duration t /\ it_deadline t + it_duration t <= d.
Proof.
  intros Hd Hp. unfold next_deadline. pose proof (clock_mono n (S n) ltac:(lia)). pose proof (clock_mono (S n) (S (S n)) ltac:(lia)).
  destruct (Z.ltb_spec (it_deadline t + it_duration t) (clock n - 5)); lia.
Qed.

(** One turn of a task that is due: the task ends with the pool, or evicts and goes
    on with a deadline near. *)
Lemma idle_turn fuel n t pool :
  timed dur pool -> it_duration t = dur -> 0 <= dur -> it_deadline t = it_fut t ->
  match others n pool with
  | None => idle_poll (S fuel) n t pool = (RVal tt, t, None, n)
  | Some p =>
      if clock n <? it_fut t then idle_poll (S fuel) n t pool = (RPending, t, Some p, S n)
      else
        exists d m, (S n < m <= n + 3)%nat /\ clock n - 5 <= d <= clock m + dur /\ it_fut t + dur <= d /\
          match others m (Some p) with
          | None => idle_poll (S fuel) n t pool = (RVal tt, mkIdleTask dur d d, None, m)
          | Some q =>
              exists q', clear_expired is_open (clock m) q = Some q' /\ timed dur (Some q') /\
                idle_poll (S fuel) n t pool = idle_poll fuel (S m) (mkIdleTask dur d d) (Some q')
          end
  end.
Proof.
  intros Hp Hdur Hnn Hd. cbn [idle_poll]. apply others_timed with (n := n) in Hp.
  destruct (others n pool) as [p|]; [|done]. destruct (Z.ltb_spec (clock n) (it_fut t)) as [|Hdue]; [done|].
  pose proof (clock_mono n (S n) ltac:(lia)) as Hc.
  pose proof (next_deadline_spec t (S n) ltac:(lia) ltac:(lia)) as Hn. destruct (next_deadline t (S n)) as [d m]. rewrite Hdur in *.
  exists d, m. split; [lia|]. split; [lia|]. split; [lia|]. apply others_timed with (n := m) in Hp.
  destruct (others m (Some p)) as [q|]; [|done]. destruct (clear_expired_runs (clock m) q Hp) as [q' Hq]. exists q'.
  split; [done|]. split; [cbn; by rewrite (clear_expired_timed _ _ _ Hq)|]. by rewrite Hq.
Qed.

(** What a poll leaves: it ends only with the pool, and waits only with a wake-up
    ahead that is at most a period away. *)
Definition idle_outcome (n : nat) (due : bool) (pool : MPool) (o : poll_res unit unit * IdleTask * MPool * nat) : Prop :=
  let '(r, t, p, m) := o in
  match r with
  | RVal _ => p = None
  | RPending =>
      it_duration t = dur /\ it_deadline t = it_fut t /\ clock n < it_fut t /\
      exists k, evicted (clock n) k pool p /\ (due = true -> (0 < k)%nat /\ it_fut t <= clock m + dur)
  | _ => False
  end.

Lemma evicted_weaken from from' k p p' : from' <= from -> evicted from k p p' -> evicted from' k p p'.
Proof. intros Hle. induction 1; [constructor|by eapply ev_others|]. eapply ev_clear; [|done|done]. lia. Qed.

Lemma outcome_turn n m j p q q' o due :
  (n <= m)%nat -> others n p = Some q -> others m (Some q) = Some j -> clear_expired is_open (clock m) j = Some q' ->
  (o.1.1.1 = RPending -> it_fut o.1.1.2 <= clock o.2 + dur) ->
  idle_outcome (S m) due (Some q') o -> idle_outcome n true p o.
Proof.
  intros Hle E1 E2 Hc Hnear. destruct o as [[[r t] p'] m']. unfold idle_outcome. destruct r as [[]| |e| |]; try done.
  intros (Hdu & Hd & Hlt & k & He & _). pose proof (clock_mono n (S m) ltac:(lia)) as Hnm. split; [done|]. split; [done|]. split; [lia|]. exists (S k). split.
  - apply (ev_others _ _ _ n). rewrite E1. apply (ev_others _ _ _ m). rewrite E2. eapply ev_clear; [by apply clock_mono|done|].
    eapply evicted_weaken; [|exact He]. lia.
  - intros _. split; [lia|]. by apply Hnear.
Qed.

(** A poll in which at most two evictions are due; [settles] bounds the wake-up. *)
Lemma idle_two_turns fuel : forall turns n t pool,
  (turns < fuel)%nat -> timed dur pool -> it_duration t = dur -> 0 <= dur -> it_deadline t = it_fut t ->
  clock (n + 4 * turns) < it_fut t + Z.of_nat turns * dur ->
  let o := idle_poll fuel n t pool in
  idle_outcome n (negb (clock n <? it_fut t)) pool o /\
  (o.1.1.1 = RPending -> it_fut t <= clock n + dur -> it_fut o.1.1.2 <= clock o.2 + dur).
Proof.
  induction fuel as [|fuel IH]; intros turns n t pool Hf Hp Hdur Hnn Hd Hq; [lia|].
  pose proof (idle_turn fuel n t pool Hp Hdur Hnn Hd) as Ht. destruct (others n pool) as [p|] eqn:E1.
  2: { rewrite Ht. by split. }
  destruct (Z.ltb_spec (clock n) (it_fut t)) as [Hlt|Hdue].
  - rewrite Ht. cbn. split; [|intros _ ?; pose proof (clock_mono n (S n) ltac:(lia)); lia].
    split; [done|]. split; [done|]. split; [done|]. exists 0%nat. split; [|done]. apply (ev_others _ _ _ n). rewrite E1. constructor.
  - destruct Ht as (d & m & Hm & Hdm & Hfd & Hrest). destruct (others m (Some p)) as [q|] eqn:E2.
    2: { rewrite Hrest. by split. }
    destruct Hrest as (q' & Hc & Hq' & ->). destruct turns as [|turns]; [rewrite Nat.mul_0_r, Nat.add_0_r in Hq; lia|].
    rewrite Nat2Z.inj_succ, Z.mul_succ_l in Hq. pose proof (clock_mono (S m + 4 * turns) (n + 4 * S turns) ltac:(lia)) as Hmn.
    destruct (IH turns (S m) (mkIdleTask dur d d) (Some q') ltac:(lia) Hq' eq_refl Hnn eq_refl ltac:(cbn [it_fut]; lia)) as [Ho Hnear].
    cbn [it_fut] in *. pose proof (clock_mono m (S m) ltac:(lia)) as Hmm.
    assert (Hn : (idle_poll fuel (S m) (mkIdleTask dur d d) (Some q')).1.1.1 = RPending ->
      it_fut (idle_poll fuel (S m) (mkIdleTask dur d d) (Some q')).1.1.2 <= clock (idle_poll fuel (S m) (mkIdleTask dur d d) (Some q')).2 + dur)
      by (intros Hr; apply Hnear; [done|lia]).
    split; [|intros Hr _; by apply Hn]. by eapply (outcome_turn n m q pool p q'); [lia|..].
Qed.

(** A poll of the eviction task returns, if it takes less time than a period less
    five milliseconds: with the pool gone it ends; else it waits, with a wake-up that
    is still ahead, and if it was due it has evicted what was expired since the poll
    began, and wakes up again within a period. *)
Theorem idle_task_returns fuel n t pool :
  (2 < fuel)%nat -> timed dur pool -> it_duration t = dur -> it_deadline t = it_fut t -> clock (n + 8) < clock n + dur - 5 ->
  idle_outcome n (negb (clock n <? it_fut t)) pool (idle_poll fuel n t pool).
Proof.
  intros Hf Hp Hdur Hd Hq. pose proof (clock_mono n (n + 8) ltac:(lia)) as Hc.
  pose proof (idle_turn (pred fuel) n t pool Hp Hdur ltac:(lia) Hd) as Ht. replace (S (pred fuel)) with fuel in Ht by lia.
  destruct (others n pool) as [p|] eqn:E1; [|by rewrite Ht].
  destruct (Z.ltb_spec (clock n) (it_fut t)) as [Hlt|Hdue].
  - rewrite Ht. split; [done|]. split; [done|]. split; [done|]. exists 0%nat. split; [|done]. apply (ev_others _ _ _ n). rewrite E1. constructor.
  - destruct Ht as (d & m & Hm & Hdm & Hfd & Hrest). destruct (others m (Some p)) as [q|] eqn:E2; [|by rewrite Hrest].
    destruct Hrest as (q' & Hc' & Hq' & ->). pose proof (clock_mono (S m + 4 * 1) (n + 8) ltac:(lia)) as Hmn.
    destruct (idle_two_turns (pred fuel) 1 (S m) (mkIdleTask dur d d) (Some q') ltac:(lia) Hq' eq_refl ltac:(lia) eq_refl ltac:(cbn [it_fut]; lia)) as [Ho Hnear].
    pose proof (clock_mono m (S m) ltac:(lia)). eapply (outcome_turn n m q pool p q'); [lia|done|done|done| |exact Ho].
    intros Hr. apply Hnear; [done|cbn; lia].
Qed.

(** With an idle timeout of zero a poll never returns: every deadline has passed
    when it is set. *)
Theorem idle_task_spins fuel : forall n t p,
  dur = 0 -> (forall n p, timed dur p -> p <> None -> others n p <> None) -> timeout p = Some dur -> it_duration t = dur -> it_deadline t = it_fut t ->
  it_fut t <= clock n -> (idle_poll fuel n t (Some p)).1.1.1 = RFuel.
Proof.
  induction fuel as [|fuel IH]; intros n t p Hz Ha Hp Hdur Hd Hdue; [done|].
  pose proof (idle_turn fuel n t (Some p) Hp Hdur ltac:(lia) Hd) as Ht. pose proof (Ha n (Some p) Hp ltac:(done)) as Hn1.
  pose proof (others_timed n (Some p) Hp) as Hp1. destruct (others n (Some p)) as [p1|]; [|done].
  destruct (Z.ltb_spec (clock n) (it_fut t)); [lia|]. destruct Ht as (d & m & Hm & Hdm & Hfd & Hrest).
  pose proof (Ha m (Some p1) Hp1 ltac:(done)) as Hn2. destruct (others m (Some p1)) as [q|]; [|done].
  destruct Hrest as (q' & _ & Hq' & ->). pose proof (clock_mono m (S m) ltac:(lia)). apply IH; [done..|]. cbn. lia.
Qed.
End IdleTask.

(** ** Witnesses *)

Section Witnesses.
Import RefLru RefOneshot PoolClient Example.

Definition ticks (n : nat) : Z := 100 + Z.of_nat n.
Definition left_alone (_ : nat) (p : option P) : option P := p.

Lemma ticks_mono i j : (i <= j)%nat -> ticks i <= ticks j.
Proof. unfold ticks. lia. Qed.

(** At 100 the connection that has been idle since 5 is evicted, and the task
    sleeps until 190. *)
Lemma idle_task_returns_witness :
  idle_outcome up ticks left_alone 90 0 true (Some (w_pool w_idle)) (idle_poll up ticks left_alone 3 0 (mkIdleTask 90 100 100) (Some (w_pool w_idle))) /\
  it_fut (idle_poll up ticks left_alone 3 0 (mkIdleTask 90 100 100) (Some (w_pool w_idle))).1.1.2 = 190.
Proof.
  split; [|by vm_compute]. apply (idle_task_returns up ticks left_alone ticks_mono 90 (fun _ _ H => H) 3 0 (mkIdleTask 90 100 100) (Some (w_pool w_idle))).
  - lia.
  - reflexivity.
  - reflexivity.
  - reflexivity.
  - unfold ticks. cbn. lia.
Defined.

Lemma idle_task_spins_witness :
  (idle_poll up ticks left_alone 50 0 (mkIdleTask 0 100 100) (Some (mkInner ∅ (lru_new (Some 8)) 2 ∅ true true (Some 0) : P))).1.1.1 = RFuel.
Proof. apply (idle_task_spins up ticks left_alone ticks_mono 0 (fun _ _ H => H)); try reflexivity; by intros. Defined.
End Witnesses.
End IdleTask.
