(* ===== verification/WebSocket.v ===== *)
(** * WebSockets (src/src/client/websocket/)

    Messages and their conversions ([message.rs], [json.rs]), the builder of the
    handshake request and the checks of the response ([mod.rs]), and the stream of
    messages.  The tungstenite crate is an interface: the code of a close frame, the
    accept key of a nonce and the framed stream.  Error messages are kept without
    their arguments. *)

From S2P Require Import Prelude Buf Http Error Dispatcher Io Net Socks Tunnel Proxy Request Pending Multipart ClientError ReqBuilder ResponseBody.
Import Proxy Network ClientBody Redirect Pending.

(** ** The tungstenite crate *)

(** Close codes, frames and the accept key ([handshake::derive_accept_key]). *)
Class Tungstenite := {
  TsCode : Type;
  code_from_u16 : Z -> TsCode;
  code_into_u16 : TsCode -> Z;
  TsFrame : Type;
  derive_accept_key : bytes -> bytes
}.
Class TungsteniteLaws `{Tungstenite} := {
  code_roundtrip n : 0 <= n <= 65535 -> code_into_u16 (code_from_u16 n) = n
}.

(** [tungstenite::Message] *)
Inductive TsMessage `{Tungstenite} :=
| TsText (s : bytes)
| TsBinary (b : bytes)
| TsPing (b : bytes)
| TsPong (b : bytes)
| TsClose (f : option (TsCode * bytes))
| TsFrameMsg (f : TsFrame).

(** A [tokio_tungstenite::WebSocketStream]: as a stream of messages ([None]: pending)
    and as a sink. *)
Class WebSocketStream `{Tungstenite} (Str TsErr : Type) := {
  ts_poll_next : Str -> option (option (result TsMessage TsErr)) * Str;
  ts_poll_ready : Str -> poll_res TsErr unit * Str;
  ts_start_send : TsMessage -> Str -> result unit TsErr * Str;
  ts_poll_flush : Str -> poll_res TsErr unit * Str;
  ts_poll_close : Str -> poll_res TsErr unit * Str;
  (* [close]: queues the close frame and flushes *)
  ts_close : option (TsCode * bytes) -> Str -> poll_res TsErr unit * Str
}.

(** What else the handshake needs of the url and http crates. *)
Class UrlScheme (Url : Type) := { url_set_scheme : bytes -> Url -> result Url unit }.
Class ExtProtocol (Ext : Type) := { ext_insert_protocol : bytes -> Ext -> Ext; ext_protocol : Ext -> option bytes }.

Module WebSocket.

(** ** Messages (src/src/client/websocket/message.rs) *)

(** UTF-8 text as its bytes. *)
Record Utf8Bytes := mkUtf8 { utf8 : bytes }.
Definition from_static (s : string) : Utf8Bytes := mkUtf8 (bs s).
Definition from_bytes_unchecked (b : bytes) : Utf8Bytes := mkUtf8 b.
Definition utf8_as_str (u : Utf8Bytes) : bytes := utf8 u.
(** [TryFrom<Bytes>] and [TryFrom<Vec<u8>>]; [None] is the [Utf8Error]. *)
Definition utf8_try_from (b : bytes) : option Utf8Bytes := if is_utf8 b then Some (mkUtf8 b) else None.
Definition utf8_into_bytes (u : Utf8Bytes) : bytes := utf8 u.
Definition utf8_default : Utf8Bytes := mkUtf8 [].

Definition CloseCode : Type := Z.
Definition NORMAL : CloseCode := 1000.
Definition AWAY : CloseCode := 1001.
Definition PROTOCOL : CloseCode := 1002.
Definition UNSUPPORTED : CloseCode := 1003.
Definition STATUS : CloseCode := 1005.
Definition ABNORMAL : CloseCode := 1006.
Definition INVALID : CloseCode := 1007.
Definition POLICY : CloseCode := 1008.
Definition SIZE : CloseCode := 1009.
Definition EXTENSION : CloseCode := 1010.
Definition ERROR : CloseCode := 1011.
Definition RESTART : CloseCode := 1012.
Definition AGAIN : CloseCode := 1013.

Record CloseFrame := mkCloseFrame { cf_code : CloseCode; cf_reason : Utf8Bytes }.

Inductive Message :=
| MText (s : Utf8Bytes)
| MBinary (b : bytes)
| MPing (b : bytes)
| MPong (b : bytes)
| MClose (f : option CloseFrame).

Section Messages.
Context `{Tungstenite} {Url : Type}.

Definition into_tungstenite (m : Message) : TsMessage :=
  match m with
  | MText s => TsText (utf8 s)
  | MBinary b => TsBinary b
  | MPing b => TsPing b
  | MPong b => TsPong b
  | MClose (Some c) => TsClose (Some (code_from_u16 (cf_code c), utf8 (cf_reason c)))
  | MClose None => TsClose None
  end.

Definition from_tungstenite (m : TsMessage) : option Message :=
  match m with
  | TsText s => Some (MText (mkUtf8 s))
  | TsBinary b => Some (MBinary b)
  | TsPing b => Some (MPing b)
  | TsPong b => Some (MPong b)
  | TsClose (Some (code, reason)) => Some (MClose (Some (mkCloseFrame (code_into_u16 code) (mkUtf8 reason))))
  | TsClose None => Some (MClose None)
  | TsFrameMsg _ => None
  end.

Definition into_data (m : Message) : bytes :=
  match m with
  | MText s => utf8_into_bytes s
  | MBinary b | MPing b | MPong b => b
  | MClose None => []
  | MClose (Some f) => utf8_into_bytes (cf_reason f)
  end.

(** [From<std::str::Utf8Error>], [From<serde_json::Error>] *)
Definition decode_error (s : string) : ClientError.Error Url := ClientError.decode (ClientError.BText s).

Definition into_text (m : Message) : result Utf8Bytes (ClientError.Error Url) :=
  match m with
  | MText s => Ok s
  | MBinary b | MPing b | MPong b =>
      match utf8_try_from b with Some s => Ok s | None => Err (decode_error "invalid utf-8") end
  | MClose None => Ok utf8_default
  | MClose (Some f) => Ok (cf_reason f)
  end.

Definition to_text (m : Message) : result bytes (ClientError.Error Url) :=
  match m with
  | MText s => Ok (utf8_as_str s)
  | MBinary b | MPing b | MPong b => if is_utf8 b then Ok b else Err (decode_error "invalid utf-8")
  | MClose None => Ok []
  | MClose (Some f) => Ok (utf8 (cf_reason f))
  end.

(** ** JSON messages (src/src/client/websocket/json.rs)

    The serializer of serde_json on a value, and its parser. *)
Definition text_from_json (encoded : option bytes) : result Message (ClientError.Error Url) :=
  match encoded with Some s => Ok (MText (mkUtf8 s)) | None => Err (decode_error "serialize") end.
Definition binary_from_json (encoded : option bytes) : result Message (ClientError.Error Url) :=
  match encoded with Some s => Ok (MBinary s) | None => Err (decode_error "serialize") end.
Definition json {T} (from_slice : bytes -> option T) (m : Message) : result T (ClientError.Error Url) :=
  match m with
  | MText s => match from_slice (utf8 s) with Some x => Ok x | None => Err (decode_error "json") end
  | MBinary b => match from_slice b with Some x => Ok x | None => Err (decode_error "json") end
  | MPing _ | MPong _ | MClose _ => Err (decode_error "neither text nor binary")
  end.
End Messages.

(** ** The handshake (src/src/client/websocket/mod.rs) *)

Definition UPGRADE : HeaderName := bs "upgrade".
Definition SEC_WEBSOCKET_VERSION : HeaderName := bs "sec-websocket-version".
Definition SEC_WEBSOCKET_KEY : HeaderName := bs "sec-websocket-key".
Definition SEC_WEBSOCKET_ACCEPT : HeaderName := bs "sec-websocket-accept".
Definition SEC_WEBSOCKET_PROTOCOL : HeaderName := bs "sec-websocket-protocol".

(** tungstenite's configuration, the fields that the builder sets. *)
Record WebSocketConfig := mkConfig {
  max_frame_size_ : option Z;
  read_buffer_size_ : Z;
  write_buffer_size_ : Z;
  max_write_buffer_size_ : Z;
  max_message_size_ : option Z;
  accept_unmasked_frames_ : bool
}.

(** [[&str]::join] *)
Fixpoint join (sep : bytes) (l : list bytes) : bytes :=
  match l with
  | [] => []
  | [s] => s
  | s :: l => s ++ sep ++ join sep l
  end.

(** [str::contains] *)
Fixpoint contains (needle s : bytes) : bool :=
  bool_decide (needle `prefix_of` s) || match s with [] => false | _ :: s => contains needle s end.

Section Headers.
Context `{HttpCrate}.
Definition header_eq (h : HeaderMap) (k : HeaderName) (value : bytes) : bool :=
  match hm_get k h with Some v => eq_ignore_ascii_case v value | None => false end.
Definition header_contains (h : HeaderMap) (k : HeaderName) (value : bytes) : bool :=
  match hm_get k h with
  | Some v => if is_utf8 v then contains value (ascii_lower <$> v) else false
  | None => false
  end.
End Headers.

Section Builder.
Context `{HttpCrate} {HX : HttpExtend} `{ProxyCrates} {Url : Type} `{UrlCrate Url} {UQ : UrlQuery Url} {US : UrlScheme Url}.
Context {S : Type} {sb : Dispatcher.Body S bytes HeaderMap} {PErr Uri Ext : Type} {EC : RequestConfig.ExtensionsCrate Ext} {EP : ExtProtocol Ext} {DU : Dst Uri}.
Context `{Tungstenite} (hv_from_str : bytes -> option HeaderValue) (no_ext : Ext).
Abbreviation RBuilder := (ReqBuilder.RequestBuilder (S := S) (Url := Url) (Ext := Ext) (PErr := PErr)).
Abbreviation RRequest := (ReqBuilder.Request (S := S) (Url := Url) (Ext := Ext) (PErr := PErr)).
Abbreviation ClientT := (ClientRef (Url := Url) (PErr := PErr)).

(** The errors of requests and those of the rest of the client are one type of the
    source. *)
Inductive WsError := EReq (e : ReqError (Url := Url) (PErr := PErr)) | EClient (e : ClientError.Error Url).
Definition upgrade_error (s : string) : WsError := EClient (ClientError.upgrade (ClientError.BText s)).

Record WebSocketRequestBuilder := mkBuilder {
  wb_inner : RBuilder;
  wb_accept_key : option bytes;
  wb_protocols : option (list bytes);
  wb_config : WebSocketConfig
}.

Definition ws_new (config : WebSocketConfig) (b : RBuilder) : WebSocketRequestBuilder := mkBuilder b None None config.
Definition accept_key (key : bytes) (b : WebSocketRequestBuilder) : WebSocketRequestBuilder :=
  mkBuilder (wb_inner b) (Some key) (wb_protocols b) (wb_config b).
Definition protocols (ps : list bytes) (b : WebSocketRequestBuilder) : WebSocketRequestBuilder :=
  mkBuilder (wb_inner b) (wb_accept_key b) (Some ps) (wb_config b).

Definition on_config (f : WebSocketConfig -> WebSocketConfig) (b : WebSocketRequestBuilder) : WebSocketRequestBuilder :=
  mkBuilder (wb_inner b) (wb_accept_key b) (wb_protocols b) (f (wb_config b)).
Definition max_frame_size (n : Z) := on_config (fun c => mkConfig (Some n) (read_buffer_size_ c) (write_buffer_size_ c) (max_write_buffer_size_ c) (max_message_size_ c) (accept_unmasked_frames_ c)).
Definition read_buffer_size (n : Z) := on_config (fun c => mkConfig (max_frame_size_ c) n (write_buffer_size_ c) (max_write_buffer_size_ c) (max_message_size_ c) (accept_unmasked_frames_ c)).
Definition write_buffer_size (n : Z) := on_config (fun c => mkConfig (max_frame_size_ c) (read_buffer_size_ c) n (max_write_buffer_size_ c) (max_message_size_ c) (accept_unmasked_frames_ c)).
Definition max_write_buffer_size (n : Z) := on_config (fun c => mkConfig (max_frame_size_ c) (read_buffer_size_ c) (write_buffer_size_ c) n (max_message_size_ c) (accept_unmasked_frames_ c)).
Definition max_message_size (n : Z) := on_config (fun c => mkConfig (max_frame_size_ c) (read_buffer_size_ c) (write_buffer_size_ c) (max_write_buffer_size_ c) (Some n) (accept_unmasked_frames_ c)).
Definition accept_unmasked_frames (x : bool) := on_config (fun c => mkConfig (max_frame_size_ c) (read_buffer_size_ c) (write_buffer_size_ c) (max_write_buffer_size_ c) (max_message_size_ c) x).

(** The methods that go to the request builder. *)
Definition on_inner (f : RBuilder -> RBuilder) (b : WebSocketRequestBuilder) : WebSocketRequestBuilder :=
  mkBuilder (f (wb_inner b)) (wb_accept_key b) (wb_protocols b) (wb_config b).
(** The same for a method that may panic. *)
Definition on_inner_opt (f : RBuilder -> option RBuilder) (b : WebSocketRequestBuilder) : option WebSocketRequestBuilder :=
  i ← f (wb_inner b); Some (mkBuilder i (wb_accept_key b) (wb_protocols b) (wb_config b)).
Definition use_http2 := on_inner (ReqBuilder.version HTTP_2).
Definition ws_header k v := on_inner (ReqBuilder.header k v).
Definition ws_header_append k v := on_inner (ReqBuilder.header_append k v).
Definition ws_headers (hs : HeaderMap) := on_inner_opt (ReqBuilder.headers hs).
Definition ws_headers_order (o : list HeaderName) := on_inner (ReqBuilder.headers_order o).
Definition ws_auth v := on_inner (ReqBuilder.auth v).
Definition ws_basic_auth u p := on_inner (ReqBuilder.basic_auth u p).
Definition ws_bearer_auth (token : bytes) := on_inner (ReqBuilder.bearer_auth hv_from_str token).
Definition ws_query (serialize : Url -> Url * bool) := on_inner (ReqBuilder.query serialize).
Definition ws_proxy {DUrl : Dst Url} (p : result (Proxy (Url := Url)) ProxyError) := on_inner_opt (ReqBuilder.proxy p).
Definition ws_local_address (a : option IpAddr) := on_inner (ReqBuilder.local_address a).
Definition ws_local_addresses (v4 v6 : option bytes) := on_inner (ReqBuilder.local_addresses v4 v6).
Definition ws_interface (i : bytes) := on_inner (ReqBuilder.interface i).

(** What [send] keeps for the response. *)
Record Handshake := mkHandshake {
  hs_accept_key : option bytes;
  hs_protocols : option (list bytes);
  hs_config : WebSocketConfig;
  hs_version : Version
}.

(** The scheme of the request that carries the handshake. *)
Definition http_scheme (u : Url) : option bytes :=
  if bool_decide (url_scheme u = bs "ws") then Some (bs "http")
  else if bool_decide (url_scheme u = bs "wss") then Some (bs "https")
  else None.

(** The headers, method and version by the version of the request; [generated] is the
    key that tungstenite makes up. *)
Definition prepare_version (b : WebSocketRequestBuilder) (generated : bytes) (v : Version) (r : RRequest)
  : result (option bytes * RRequest) WsError :=
  match v with
  | HTTP_10 | HTTP_11 =>
      let nonce := default generated (wb_accept_key b) in
      let h := hm_insert UPGRADE (bs "websocket") (ReqBuilder.q_headers r) in
      let h := hm_insert CONNECTION (bs "upgrade") h in
      match hv_from_str nonce with
      | None => Err (EClient (ClientError.builder (ClientError.BText "invalid header value")))
      | Some key =>
          let h := hm_insert SEC_WEBSOCKET_KEY key h in
          Ok (Some nonce, ReqBuilder.set_version (Some HTTP_11) (ReqBuilder.set_method GET (ReqBuilder.set_headers h r)))
      end
  | HTTP_2 =>
      let r := ReqBuilder.set_version (Some HTTP_2) (ReqBuilder.set_method CONNECT r) in
      Ok (None, ReqBuilder.set_extensions (ext_insert_protocol (bs "websocket") (ReqBuilder.q_extensions r)) r)
  | _ => Err (upgrade_error "unsupported version")
  end.

Definition prepare_protocols (ps : option (list bytes)) (r : RRequest) : result RRequest WsError :=
  match ps with
  | None | Some [] => Ok r
  | Some ps =>
      match hv_from_str (join (bs ", ") ps) with
      | None => Err (EClient (ClientError.builder (ClientError.BText "invalid header value")))
      | Some v => Ok (ReqBuilder.set_headers (hm_insert SEC_WEBSOCKET_PROTOCOL v (ReqBuilder.q_headers r)) r)
      end
  end.

(** [send] up to the call of [execute]. *)
Definition prepare (generated : bytes) (b : WebSocketRequestBuilder) : result (ClientT * RRequest * Handshake) WsError :=
  match ReqBuilder.b_request (wb_inner b) with
  | Err e => Err (EReq e)
  | Ok r =>
      let url := ReqBuilder.q_url r in
      match http_scheme url with
      | None => Err (EReq (url_bad_scheme url))
      | Some scheme =>
          match url_set_scheme scheme url with
          | Err _ => Err (EReq (url_bad_scheme url))
          | Ok url =>
              let r := ReqBuilder.set_url url r in
              let version := default HTTP_11 (ReqBuilder.q_version r) in
              let r := ReqBuilder.set_headers (hm_insert SEC_WEBSOCKET_VERSION (bs "13") (ReqBuilder.q_headers r)) r in
              match prepare_version b generated version r with
              | Err e => Err e
              | Ok (key, r) =>
                  match prepare_protocols (wb_protocols b) r with
                  | Err e => Err e
                  | Ok r => Ok (ReqBuilder.b_client (wb_inner b), r, mkHandshake key (wb_protocols b) (wb_config b) version)
                  end
              end
          end
      end
  end.

Section Send.
Context (uri_parse : bytes -> option Uri) (uri_root : Uri) (uri_is_http : Uri -> bool).
Context {W Fut : Type} {HW : World (S := S) (Url := Url) (Uri := Uri) (Ext := Ext) W Fut}.

(** [send]: the pending request and what its response will be checked against. *)
Definition ws_send (generated : bytes) (b : WebSocketRequestBuilder) (w : W)
  : option (result (Pending (Url := Url) (PErr := PErr) (Ext := Ext) (Fut := Fut) * Handshake) WsError * W) :=
  match prepare generated b with
  | Err e => Some (Err e, w)
  | Ok (c, r, hs) =>
      q ← execute_request uri_parse uri_root uri_is_http no_ext c (ReqBuilder.pieces r) w;
      let '(p, w) := q in Some (Ok (p, hs), w)
  end.
End Send.

(** ** The response *)

(** What the checks look at; its text and its upgrade are taken when they are asked
    for. *)
Record WsInner (Up : Type) := mkWsInner {
  wi_status : StatusCode;
  wi_version : Version;
  wi_headers : HeaderMap;
  wi_text : result bytes WsError;
  wi_upgrade : result Up WsError
}.
Record WebSocketResponse (Up : Type) := mkWsResponse { wr_inner : WsInner Up; wr_handshake : Handshake }.

(** The checks by the version of the request. *)
Definition check_version {Up} (r : WebSocketResponse Up) : result unit WsError :=
  let i := wr_inner _ r in
  match hs_version (wr_handshake _ r) with
  | HTTP_10 | HTTP_11 =>
      if negb (wi_status _ i =? 101) then
        match wi_text _ i with Ok _ => Err (upgrade_error "unexpected status code") | Err e => Err e end
      else if negb (header_contains (wi_headers _ i) CONNECTION (bs "upgrade")) then Err (upgrade_error "missing connection header")
      else if negb (header_eq (wi_headers _ i) UPGRADE (bs "websocket")) then Err (upgrade_error "invalid upgrade header")
      else
        match hs_accept_key (wr_handshake _ r), hm_get SEC_WEBSOCKET_ACCEPT (wi_headers _ i) with
        | Some nonce, Some v =>
            match hv_to_str v with
            | Some s => if bool_decide (s = derive_accept_key nonce) then Ok tt else Err (upgrade_error "invalid accept key")
            | None => Err (upgrade_error "invalid accept key")
            end
        | _, _ => Err (upgrade_error "missing accept key")
        end
  | HTTP_2 => if negb (wi_status _ i =? 200) then Err (upgrade_error "unexpected status code") else Ok tt
  | _ => Err (upgrade_error "unsupported version")
  end.

Definition check_protocol (requested : option (list bytes)) (protocol : option HeaderValue) : result unit WsError :=
  match match requested with None | Some [] => true | _ => false end, protocol with
  | true, None => Ok tt
  | false, None => Err (upgrade_error "missing protocol")
  | false, Some p =>
      match requested, hv_to_str p with
      | Some ps, Some p => if bool_decide (p ∈ ps) then Ok tt else Err (upgrade_error "invalid protocol")
      | _, _ => Err (upgrade_error "invalid protocol")
      end
  | true, Some _ => Err (upgrade_error "invalid protocol")
  end.

(** The socket: the framed stream over the upgraded connection, made by [from_raw]
    with the configuration of the builder, and the protocol. *)
Record WebSocket (Str : Type) := mkWebSocket { ws_inner : Str; ws_protocol : option HeaderValue }.

Definition into_websocket {Up Str} (from_raw : Up -> WebSocketConfig -> Str) (r : WebSocketResponse Up) : result (WebSocket Str) WsError :=
  let i := wr_inner _ r in
  match wi_version _ i with
  | HTTP_10 | HTTP_11 | HTTP_2 =>
      match check_version r with
      | Err e => Err e
      | Ok _ =>
          let protocol := hm_get SEC_WEBSOCKET_PROTOCOL (wi_headers _ i) in
          match check_protocol (hs_protocols (wr_handshake _ r)) protocol with
          | Err e => Err e
          | Ok _ =>
              match wi_upgrade _ i with
              | Err e => Err e
              | Ok up => Ok (mkWebSocket _ (from_raw up (hs_config (wr_handshake _ r))) protocol)
              end
          end
      end
  | _ => Err (upgrade_error "unexpected version")
  end.

(** ** The stream of messages *)

Section Stream.
Context {Str TsErr : Type} {WS : WebSocketStream Str TsErr} (ts_error : TsErr -> ClientError.BoxError Url).
Abbreviation SocketT := (WebSocket Str).
Definition set_inner (i : Str) (s : SocketT) : SocketT := mkWebSocket _ i (ws_protocol _ s).

(** [From<tungstenite::Error>] *)
Definition from_ts_error (e : TsErr) : ClientError.Error Url := ClientError.new ClientError.Upgrade (Some (ts_error e)).

(** [poll_next], also [recv]: an item that is an error is [RErr]. *)
Fixpoint poll_next (fuel : nat) (s : SocketT) : poll_res (ClientError.Error Url) (option Message) * SocketT :=
  match fuel with
  | O => (RFuel, s)
  | Datatypes.S fuel =>
      match ts_poll_next (ws_inner _ s) with
      | (None, i) => (RPending, set_inner i s)
      | (Some (Some (Ok m)), i) =>
          match from_tungstenite m with
          | Some m => (RVal (Some m), set_inner i s)
          | None => poll_next fuel (set_inner i s)
          end
      | (Some (Some (Err e)), i) => (RErr (ClientError.body (ts_error e)), set_inner i s)
      | (Some None, i) => (RVal None, set_inner i s)
      end
  end.

Definition sink (f : Str -> poll_res TsErr unit * Str) (s : SocketT) : poll_res (ClientError.Error Url) unit * SocketT :=
  let '(r, i) := f (ws_inner _ s) in (map_err from_ts_error r, set_inner i s).
Definition poll_ready := sink ts_poll_ready.
Definition poll_flush := sink ts_poll_flush.
Definition poll_close := sink ts_poll_close.
Definition start_send (m : Message) (s : SocketT) : result unit (ClientError.Error Url) * SocketT :=
  let '(r, i) := ts_start_send (into_tungstenite m) (ws_inner _ s) in
  (match r with Ok x => Ok x | Err e => Err (from_ts_error e) end, set_inner i s).

(** [send]: a [Sink] is made ready, takes the item and is flushed; a poll from the
    start. *)
Definition send_message (m : Message) (s : SocketT) : poll_res (ClientError.Error Url) unit * SocketT :=
  match poll_ready s with
  | (RVal _, s) => match start_send m s with (Ok _, s) => poll_flush s | (Err e, s) => (RErr e, s) end
  | r => r
  end.

Definition close (code : CloseCode) (reason : option Utf8Bytes) (s : SocketT) : poll_res (ClientError.Error Url) unit * SocketT :=
  sink (ts_close (Some (code_from_u16 code, utf8 (default (from_static "Goodbye") reason)))) s.
End Stream.
End Builder.
End WebSocket.
