(* ===== verification/WebSocketProps.v ===== *)
(** * Properties of WebSockets

    The request of a handshake and the responses that are accepted for it, down to
    the request that the core client gets; messages, which survive the conversion to
    tungstenite and back, and are received in order. *)

From S2P Require Import Prelude Buf Http Error Models Dispatcher Io Net Socks Tunnel Proxy ProxyProps Request Pending PendingFacts PendingProps Multipart ClientError ReqBuilder ReqBuilderProps ResponseBody WebSocket.
Import Proxy Network ClientBody InnerRequest Redirect Pending WebSocket.

(** ** Headers that reach the core client *)

Section Kept.
Context `{HL : HttpLaws}.

(** A header with one value keeps it, sorted or not. *)
Lemma sort_headers_single order h k v : hm_get_all k h = [v] -> hm_get_all k (sort_headers order h) = [v].
Proof.
  intros Hk. unfold sort_headers. case_match; [done|]. pose proof (take_ordered_get order h hm_new k) as Ht.
  destruct (take_ordered order h hm_new) as [rest sorted]. destruct Ht as [Hr Hs]. rewrite drain_into_get, Hs, get_all_new.
  rewrite (named_values _ None _ k (into_iter_iter rest) (into_iter_names rest)), <- iter_get_all, Hr, Hk by done.
  by case_decide.
Qed.

Lemma add_default_headers_kept ds h k : hm_get_all k h <> [] -> hm_get_all k (add_default_headers ds h) = hm_get_all k h.
Proof.
  unfold add_default_headers. generalize (hm_keys ds). intros ns. revert h. induction ns as [|n ns IH]; intros h Hk; cbn [foldl]; [done|].
  assert (hm_get_all k (if contains_key n h then h else foldl (fun h v => hm_append n v h) h (hm_get_all n ds)) = hm_get_all k h) as E.
  { unfold contains_key. destruct (hm_get_all n h) eqn:En; [|done]. rewrite get_all_appends, decide_False by congruence. by rewrite app_nil_r. }
  rewrite IH; by rewrite E.
Qed.

Context {PC : ProxyCrates} {HX : HttpExtend} {Url : Type} {UC : UrlCrate Url}.

(** No proxy of the client adds [k] to requests. *)
Definition no_extra (k : HeaderName) (ps : list (Proxy (Url := Url))) : Prop :=
  forall p m, p ∈ ps -> http_headers p = Some m -> contains_key k m = false.

Lemma auth_from_kept {D} {DD : Dst D} {HXL : HttpExtendLaws} ps (dst : D) h h' k :
  no_extra k ps -> k <> PROXY_AUTHORIZATION -> auth_from ps dst h = Some h' -> hm_get_all k h' = hm_get_all k h.
Proof.
  induction ps as [|p ps IH]; intros Hn Hk E; cbn in E; [by simplify_eq|].
  destruct (is_match p dst) as [[]|]; cbn in E; [|apply IH; [|done..]|done].
  - destruct (http_basic_auth p dst) as [a|]; [|done]; cbn in E. simplify_eq.
    assert (hm_get_all k (match a with Some v => hm_insert PROXY_AUTHORIZATION v h | None => h end) = hm_get_all k h) as Ea
      by (destruct a; [by apply get_all_insert_ne|done]).
    destruct (http_headers p) as [m|] eqn:Em; [|done]. rewrite get_all_extend, (Hn p m) by (done || left). done.
  - intros q m Hq. apply Hn. by right.
Qed.

Context {S : Type} {sb : Dispatcher.Body S bytes HeaderMap} {PErr Uri Ext : Type} {EC : RequestConfig.ExtensionsCrate Ext} {DU : Dst Uri} {HXL : HttpExtendLaws}.
Context (uri_parse : bytes -> option Uri) (uri_root : Uri) (uri_is_http : Uri -> bool) (no_ext : Ext).
Context {W Fut : Type} {HW : World (Url := Url) (S := S) (Uri := Uri) (Ext := Ext) W Fut} {WL : WorldLaws W Fut}.

Definition client_header (k : HeaderName) : Prop := k ∈ [COOKIE; ACCEPT_ENCODING; PROXY_AUTHORIZATION; CONTENT_LENGTH].

Lemma cookie_kept u (w : W) h k : k <> COOKIE -> hm_get_all k (add_cookie_header u w h) = hm_get_all k h.
Proof. intros Hk. unfold add_cookie_header. destruct (cookies u w) as [vs|]; [|done]. by rewrite get_all_appends, decide_False, app_nil_r. Qed.

Lemma accept_encoding_kept a h k : k <> ACCEPT_ENCODING -> hm_get_all k (add_accept_encoding_header a h) = hm_get_all k h.
Proof. intros Hk. unfold add_accept_encoding_header. destruct a; [|done]. case_match; [by apply get_all_insert_ne|done]. Qed.

(** A header of the request with one value, which is none of those that the client
    sets, is in the request that the core client gets. *)
Lemma execute_keeps_header (c : ClientRef (Url := Url) (PErr := PErr)) (r : Request (S := S) (Url := Url) (Ext := Ext) (PErr := PErr)) w p w' k v :
  execute_request uri_parse uri_root uri_is_http no_ext c r w = Some (PRequest p, w') ->
  hm_get_all k (rq_headers r) = [v] -> ~ client_header k -> no_extra k (c_proxies c) ->
  exists req, sent w' = sent w ++ [req] /\ ir_method req = rq_method r /\ ir_version req = rq_version r /\
    ir_extensions req = rq_extensions r /\ try_uri uri_parse (rq_url r) = Some (ir_uri req) /\ hm_get_all k (ir_headers req) = [v].
Proof.
  intros E Hv Hc Hn.
  destruct (execute_request_spec uri_parse uri_root no_ext uri_is_http c r w p w' E) as (_ & _ & _ & _ & _ & _ & _ & _ & _ & _ & _ & uri & body & Huri & _ & Hs).
  eexists. split; [exact Hs|]. cbn. split_and!; try done.
  assert (k <> COOKIE /\ k <> ACCEPT_ENCODING /\ k <> PROXY_AUTHORIZATION /\ k <> CONTENT_LENGTH) as (Hk1 & Hk2 & Hk3 & Hk4)
    by (unfold client_header in Hc; set_solver).
  assert (hm_get_all k (p_headers p) = [v]) as Hp.
  { revert E. unfold execute_request. do 2 (case_match; [done|]). rewrite Huri. destruct (match rq_body r with Some b => _ | None => _ end) as [reuse body'].
    destruct (proxy_auth uri_is_http c uri _) as [h|] eqn:Ea; [|done]; cbn [mbind option_bind].
    destruct (network_scheme c uri _) as [ns|]; [|done]; cbn [mbind option_bind]. rewrite build_request_eq.
    destruct (hy_request _ w). intros E. simplify_eq/=. set (h0 := add_default_headers (c_headers c) (rq_headers r)) in *.
    set (h1 := if c_cookie_store c && negb (contains_key COOKIE h0) then add_cookie_header (rq_url r) w h0 else h0) in *.
    assert (hm_get_all k h0 = [v]) as E0 by (unfold h0; rewrite add_default_headers_kept; congruence).
    assert (hm_get_all k h1 = [v]) as E1 by (unfold h1; destruct (c_cookie_store c && _); [rewrite cookie_kept; done|done]).
    assert (forall (b : bool) a, hm_get_all k (if b then add_accept_encoding_header a h1 else h1) = [v]) as E2
      by (intros [] a; [by rewrite accept_encoding_kept|done]).
    set (h2 := if rq_allow_compression r then _ else _) in Ea. assert (hm_get_all k h2 = [v]) as E3 by apply E2. clearbody h2.
    revert Ea. unfold proxy_auth. destruct (negb (c_proxies_maybe_http_auth c)); [intros Ea; by simplify_eq|].
    destruct (negb (uri_is_http uri)); [intros Ea; by simplify_eq|]. destruct (contains_key _ h2); [intros Ea; by simplify_eq|]. intros Ea. by rewrite (auth_from_kept _ _ _ _ k Hn Hk3 Ea). }
  unfold final_headers. assert (hm_get_all k (set_content_length_if_missing (rq_method r) body (p_headers p)) = [v]) as Hf.
  { unfold set_content_length_if_missing. repeat case_match; try done. by rewrite get_all_insert_ne. }
  destruct (p_headers_order p); [by apply sort_headers_single|done].
Qed.
End Kept.

(** ** The handshake *)

Lemma contains_spec needle s : contains needle s = true <-> exists pre post, s = pre ++ needle ++ post.
Proof.
  induction s as [|x s IH]; cbn [contains]; rewrite orb_true_iff, bool_decide_eq_true.
  - split; [intros [[post E]|]; [by exists [], post|done]|]. intros (pre & post & E). left.
    symmetry in E. apply app_eq_nil in E as [-> E]. by exists post.
  - rewrite IH. split.
    + intros [[post ->]|(pre & post & ->)]; [by exists [], post|by exists (x :: pre), post].
    + intros ([|y pre] & post & E); cbn in E; [left; by exists post|]. injection E as <- E. right. by exists pre, post.
Qed.

Section Handshake.
Context `{HL : HttpLaws} {HX : HttpExtend} {HXL : HttpExtendLaws} {PC : ProxyCrates} {Url : Type} {UC : UrlCrate Url} {UQ : UrlQuery Url} {US : UrlScheme Url}.
Context {S : Type} {sb : Dispatcher.Body S bytes HeaderMap} {PErr Uri Ext : Type} {EC : RequestConfig.ExtensionsCrate Ext} {EP : ExtProtocol Ext} {DU : Dst Uri}.
Context {TG : Tungstenite} (hv_from_str : bytes -> option HeaderValue) (no_ext : Ext).
Abbreviation BuilderT := (WebSocketRequestBuilder (S := S) (Url := Url) (Ext := Ext) (PErr := PErr)).
Abbreviation RRequest := (ReqBuilder.Request (S := S) (Url := Url) (Ext := Ext) (PErr := PErr)).
Abbreviation prepare := (prepare hv_from_str).

(** A header value made of a string has its bytes; a URL gets the scheme it is given,
    and a protocol extension is the one that was inserted. *)
Context (from_str_same : forall s v, hv_from_str s = Some v -> v = s).
Context (set_scheme_scheme : forall s u u', url_set_scheme s u = Ok u' -> url_scheme u' = s).
Context (insert_protocol : forall p e, ext_protocol (ext_insert_protocol p e) = Some p).

(** The values of the headers that a handshake sets, over HTTP/1 with a [nonce]. *)
Definition handshake_values (nonce : option bytes) (ps : option (list bytes)) : list (HeaderName * HeaderValue) :=
  [(SEC_WEBSOCKET_VERSION, bs "13")] ++
  match nonce with
  | Some n => [(UPGRADE, bs "websocket"); (CONNECTION, bs "upgrade"); (SEC_WEBSOCKET_KEY, n)]
  | None => []
  end ++
  match ps with Some (p :: ps) => [(SEC_WEBSOCKET_PROTOCOL, join (bs ", ") (p :: ps))] | _ => [] end.

Definition prepared (b : BuilderT) (generated : bytes) (r q : RRequest) (hs : Handshake) : Prop :=
  let nonce := default generated (wb_accept_key b) in
  hs_protocols hs = wb_protocols b /\ hs_config hs = wb_config b /\
  Some (url_scheme (ReqBuilder.q_url q)) = http_scheme (ReqBuilder.q_url r) /\
  (forall k v, (k, v) ∈ handshake_values (hs_accept_key hs) (wb_protocols b) -> hm_get_all k (ReqBuilder.q_headers q) = [v]) /\
  (hs_version hs = HTTP_2 /\ hs_accept_key hs = None /\ ReqBuilder.q_version q = Some HTTP_2 /\ ReqBuilder.q_method q = CONNECT /\
     ext_protocol (ReqBuilder.q_extensions q) = Some (bs "websocket") \/
   (hs_version hs = HTTP_10 \/ hs_version hs = HTTP_11) /\ hs_accept_key hs = Some nonce /\
     ReqBuilder.q_version q = Some HTTP_11 /\ ReqBuilder.q_method q = GET).

Lemma prepare_version_spec (b : BuilderT) generated v (r : RRequest) key (r' : RRequest) :
  prepare_version hv_from_str b generated v r = Ok (key, r') ->
  ReqBuilder.q_url r' = ReqBuilder.q_url r /\
  (v = HTTP_2 /\ key = None /\ ReqBuilder.q_version r' = Some HTTP_2 /\ ReqBuilder.q_method r' = CONNECT /\
     ext_protocol (ReqBuilder.q_extensions r') = Some (bs "websocket") /\ ReqBuilder.q_headers r' = ReqBuilder.q_headers r \/
   (v = HTTP_10 \/ v = HTTP_11) /\ key = Some (default generated (wb_accept_key b)) /\
     ReqBuilder.q_version r' = Some HTTP_11 /\ ReqBuilder.q_method r' = GET /\
     ReqBuilder.q_headers r' = hm_insert SEC_WEBSOCKET_KEY (default generated (wb_accept_key b))
       (hm_insert CONNECTION (bs "upgrade") (hm_insert UPGRADE (bs "websocket") (ReqBuilder.q_headers r)))).
Proof.
  unfold prepare_version. destruct v; try done.
  1, 2: destruct (hv_from_str _) as [k|] eqn:E; [|done]; apply from_str_same in E as ->; intros [= <- <-]; cbn; (split; [done|]); right; auto.
  intros [= <- <-]. cbn. split; [done|]. left. auto 10 using insert_protocol.
Qed.

Lemma prepare_protocols_spec ps (r r' : RRequest) :
  prepare_protocols hv_from_str ps r = Ok r' ->
  r' = match ps with
       | Some (p :: ps) => ReqBuilder.set_headers (hm_insert SEC_WEBSOCKET_PROTOCOL (join (bs ", ") (p :: ps)) (ReqBuilder.q_headers r)) r
       | _ => r
       end.
Proof.
  unfold prepare_protocols. destruct ps as [[|p ps]|]; try (by intros [= <-]).
  destruct (hv_from_str _) as [v|] eqn:E; [|done]. apply from_str_same in E as ->. by intros [= <-].
Qed.

Lemma prepare_spec generated (b : BuilderT) c (q : RRequest) hs :
  prepare generated b = Ok (c, q, hs) ->
  c = ReqBuilder.b_client (wb_inner b) /\ exists r, ReqBuilder.b_request (wb_inner b) = Ok r /\ prepared b generated r q hs.
Proof.
  unfold WebSocket.prepare. destruct (ReqBuilder.b_request (wb_inner b)) as [r|e] eqn:Er; [|done].
  destruct (http_scheme (ReqBuilder.q_url r)) as [scheme|] eqn:Es; [|done].
  destruct (url_set_scheme scheme (ReqBuilder.q_url r)) as [u|[]] eqn:Eu; [|done]. apply set_scheme_scheme in Eu.
  destruct (prepare_version _ _ _ _ _) as [[key r1]|e] eqn:Ev; [|done]. apply prepare_version_spec in Ev as [Hu Hv]. cbn in Hu.
  destruct (prepare_protocols _ _ _) as [r2|e] eqn:Ep; [|done]. apply prepare_protocols_spec in Ep as ->. intros [= <- <- <-].
  split; [done|]. exists r. split; [done|]. unfold prepared. cbn [hs_protocols hs_config hs_accept_key hs_version].
  split; [done|]. split; [done|].
  split; [rewrite Es; destruct (wb_protocols b) as [[|]|]; cbn; by rewrite Hu, Eu|]. split.
  - assert (forall k v, (k, v) ∈ handshake_values key None -> hm_get_all k (ReqBuilder.q_headers r1) = [v] /\ k <> SEC_WEBSOCKET_PROTOCOL) as Hkv.
    { intros k v. unfold handshake_values. rewrite app_nil_r.
      destruct Hv as [(_ & -> & _ & _ & _ & ->)|(_ & -> & _ & _ & ->)]; cbn [ReqBuilder.set_headers ReqBuilder.q_headers app];
        rewrite ?elem_of_cons, elem_of_nil, !get_all_insert; intros Hin; repeat destruct Hin as [[= -> ->]|Hin]; by rewrite ?decide_True by done. }
    intros k v. unfold handshake_values. rewrite app_assoc. intros [Hin|Hin]%elem_of_app.
    + destruct (Hkv k v) as [E Hne]; [by unfold handshake_values; rewrite app_nil_r|].
      destruct (wb_protocols b) as [[|]|]; [done| |done]. cbn. by rewrite get_all_insert_ne.
    + destruct (wb_protocols b) as [[|p ps]|]; [by apply elem_of_nil in Hin| |by apply elem_of_nil in Hin].
      apply list_elem_of_singleton in Hin as [= -> ->]. cbn [ReqBuilder.set_headers ReqBuilder.q_headers]. by rewrite get_all_insert_eq.
  - destruct Hv as [(Hv & -> & Hq & Hm & He & _)|(Hv & -> & Hq & Hm & _)]; [left|right]; destruct (wb_protocols b) as [[|]|]; auto 10.
Qed.

(** ** The response *)

Context {Up : Type}.
Abbreviation InnerT := (WsInner (Url := Url) (PErr := PErr) Up).

(** What RFC 6455 asks of the answer to a request with the key [key] over HTTP/1.1,
    or with no key over HTTP/2, for the protocols [ps]. *)
Definition conforms (key : option bytes) (ps : option (list bytes)) (i : InnerT) : Prop :=
  (wi_version _ i = HTTP_10 \/ wi_version _ i = HTTP_11 \/ wi_version _ i = HTTP_2) /\
  match key with
  | Some key =>
      wi_status _ i = 101 /\
      (exists v pre post, hm_get CONNECTION (wi_headers _ i) = Some v /\ is_utf8 v = true /\ ascii_lower <$> v = pre ++ bs "upgrade" ++ post) /\
      (exists v, hm_get UPGRADE (wi_headers _ i) = Some v /\ ascii_lower <$> v = bs "websocket") /\
      (exists v, hm_get SEC_WEBSOCKET_ACCEPT (wi_headers _ i) = Some v /\ forallb visible_ascii v = true /\ v = derive_accept_key key)
  | None => wi_status _ i = 200
  end /\
  match hm_get SEC_WEBSOCKET_PROTOCOL (wi_headers _ i) with
  | Some v => forallb visible_ascii v = true /\ exists l, ps = Some l /\ v ∈ l
  | None => ps = None \/ ps = Some []
  end.

Lemma check_protocol_ok ps v :
  check_protocol (Url := Url) (PErr := PErr) ps v = Ok tt <->
  match v with
  | Some v => forallb visible_ascii v = true /\ exists l, ps = Some l /\ v ∈ l
  | None => ps = None \/ ps = Some []
  end.
Proof.
  unfold check_protocol. destruct ps as [[|p ps]|], v as [v|].
  - split; [done|]. intros (_ & l & [= <-] & Hin). by apply elem_of_nil in Hin.
  - split; [by right|done].
  - destruct (forallb visible_ascii v) eqn:Ev; [rewrite (to_str_some v Ev)|rewrite (to_str_none v Ev)].
    + case_bool_decide; split; try done; [intros _; split; [done|by eexists]|]. by intros (_ & l & [= <-] & Hin).
    + by split; [|intros []].
  - split; [done|by intros [|]].
  - split; [done|]. by intros (_ & l & ? & _).
  - split; [by left|done].
Qed.

Lemma header_eq_spec h k v : header_eq h k v = true <-> exists x, hm_get k h = Some x /\ ascii_lower <$> x = ascii_lower <$> v.
Proof. unfold header_eq, eq_ignore_ascii_case. destruct (hm_get k h); [rewrite bool_decide_eq_true|]; naive_solver. Qed.

Lemma header_contains_spec h k v :
  header_contains h k v = true <-> exists x pre post, hm_get k h = Some x /\ is_utf8 x = true /\ ascii_lower <$> x = pre ++ v ++ post.
Proof.
  unfold header_contains. destruct (hm_get k h) as [x|]; [|naive_solver]. destruct (is_utf8 x) eqn:E; [rewrite contains_spec|]; naive_solver.
Qed.

Lemma accept_ok key (v : HeaderValue) :
  match hv_to_str v with
  | Some s => if bool_decide (s = derive_accept_key key) then Ok tt else Err (upgrade_error (Url := Url) (PErr := PErr) "invalid accept key")
  | None => Err (upgrade_error "invalid accept key")
  end = Ok tt <-> forallb visible_ascii v = true /\ v = derive_accept_key key.
Proof.
  destruct (forallb visible_ascii v) eqn:Ev; [rewrite (to_str_some v Ev); case_bool_decide|rewrite (to_str_none v Ev)]; naive_solver.
Qed.

(** The checks by version, for a handshake that [send] made. *)
Lemma check_version_ok (i : InnerT) (hs : Handshake) key :
  hs_accept_key hs = key -> (key = None /\ hs_version hs = HTTP_2 \/ is_Some key /\ (hs_version hs = HTTP_10 \/ hs_version hs = HTTP_11)) ->
  check_version (mkWsResponse _ i hs) = Ok tt <->
  match key with
  | Some key =>
      wi_status _ i = 101 /\
      (exists v pre post, hm_get CONNECTION (wi_headers _ i) = Some v /\ is_utf8 v = true /\ ascii_lower <$> v = pre ++ bs "upgrade" ++ post) /\
      (exists v, hm_get UPGRADE (wi_headers _ i) = Some v /\ ascii_lower <$> v = bs "websocket") /\
      (exists v, hm_get SEC_WEBSOCKET_ACCEPT (wi_headers _ i) = Some v /\ forallb visible_ascii v = true /\ v = derive_accept_key key)
  | None => wi_status _ i = 200
  end.
Proof.
  intros Hk Hv. unfold check_version. cbn [wr_inner wr_handshake]. rewrite Hk. destruct Hv as [[-> ->]|[[k ->] Hv]].
  { destruct (Z.eqb_spec (wi_status _ i) 200); cbn; naive_solver. }
  transitivity (wi_status _ i = 101 /\ header_contains (wi_headers _ i) CONNECTION (bs "upgrade") = true /\
      header_eq (wi_headers _ i) UPGRADE (bs "websocket") = true /\
      match hm_get SEC_WEBSOCKET_ACCEPT (wi_headers _ i) with Some v => forallb visible_ascii v = true /\ v = derive_accept_key k | None => False end).
  2: { rewrite header_contains_spec, header_eq_spec. destruct (hm_get SEC_WEBSOCKET_ACCEPT _); naive_solver. }
  destruct Hv as [-> | ->]; (destruct (Z.eqb_spec (wi_status _ i) 101) as [Hst|Hst]; cbn [negb]; [|destruct (wi_text _ i); naive_solver];
    destruct (header_contains _ _ _); cbn [negb]; [|naive_solver]; destruct (header_eq _ _ _); cbn [negb]; [|naive_solver];
    destruct (hm_get SEC_WEBSOCKET_ACCEPT _); [rewrite accept_ok|]; naive_solver).
Qed.

(** Acceptance: exactly the conforming answers, whose connection was upgraded. *)
Lemma into_websocket_ok {Str} (from_raw : Up -> WebSocketConfig -> Str) generated (b : BuilderT) (r q : RRequest) hs (i : InnerT) s :
  prepared b generated r q hs ->
  into_websocket from_raw (mkWsResponse _ i hs) = Ok s <->
  conforms (hs_accept_key hs) (wb_protocols b) i /\
  exists up, wi_upgrade _ i = Ok up /\ s = mkWebSocket _ (from_raw up (wb_config b)) (hm_get SEC_WEBSOCKET_PROTOCOL (wi_headers _ i)).
Proof.
  intros (Hp & Hc & _ & _ & Hk). unfold into_websocket, conforms. cbn [wr_inner wr_handshake]. rewrite Hp, Hc.
  pose proof (check_version_ok i hs (hs_accept_key hs) eq_refl ltac:(naive_solver)) as Hv.
  pose proof (check_protocol_ok (wb_protocols b) (hm_get SEC_WEBSOCKET_PROTOCOL (wi_headers _ i))) as Hcp.
  rewrite <- Hcp, <- Hv. clear Hcp Hv Hk.
  set (cv := check_version _). set (cp := check_protocol _ _).
  assert (forall T (x : T), match wi_version Up i with HTTP_10 | HTTP_11 | HTTP_2 => Some x | _ => None end =
      if bool_decide (wi_version _ i = HTTP_10 \/ wi_version _ i = HTTP_11 \/ wi_version _ i = HTTP_2) then Some x else None) as Hver.
  { intros. case_bool_decide; destruct (wi_version _ i); naive_solver. }
  specialize (Hver unit tt). destruct cv as [[]|e], cp as [[]|e'], (wi_upgrade _ i) as [up|e'']; destruct (wi_version _ i); case_bool_decide; naive_solver.
Qed.

(** ** From the builder to the socket *)

Context (uri_parse : bytes -> option Uri) (uri_root : Uri) (uri_is_http : Uri -> bool).
Context {W Fut : Type} {HW : World (Url := Url) (S := S) (Uri := Uri) (Ext := Ext) W Fut} {WL : WorldLaws W Fut}.

Definition handshake_names : list HeaderName := [SEC_WEBSOCKET_VERSION; UPGRADE; CONNECTION; SEC_WEBSOCKET_KEY; SEC_WEBSOCKET_PROTOCOL].

(** The headers of a handshake are in the request that the core client gets. *)
Lemma handshake_sent (c : ClientRef (Url := Url) (PErr := PErr)) (q : RRequest) (w : W) p w' vs :
  execute_request uri_parse uri_root uri_is_http no_ext c (ReqBuilder.pieces q) w = Some (PRequest p, w') ->
  (forall k v, (k, v) ∈ vs -> hm_get_all k (ReqBuilder.q_headers q) = [v]) -> vs <> [] ->
  (forall k v, (k, v) ∈ vs -> k ∈ handshake_names) -> (forall k, k ∈ handshake_names -> no_extra k (c_proxies c)) ->
  exists req, sent w' = sent w ++ [req] /\ ir_method req = ReqBuilder.q_method q /\ ir_version req = ReqBuilder.q_version q /\
    ir_extensions req = ReqBuilder.q_extensions q /\ try_uri uri_parse (ReqBuilder.q_url q) = Some (ir_uri req) /\
    forall k v, (k, v) ∈ vs -> hm_get_all k (ir_headers req) = [v].
Proof.
  intros E Hq Hne Hn Hx.
  assert (forall k v, (k, v) ∈ vs -> exists req, sent w' = sent w ++ [req] /\ ir_method req = ReqBuilder.q_method q /\
    ir_version req = ReqBuilder.q_version q /\ ir_extensions req = ReqBuilder.q_extensions q /\
    try_uri uri_parse (ReqBuilder.q_url q) = Some (ir_uri req) /\ hm_get_all k (ir_headers req) = [v]) as Hk.
  { intros k v Hin. pose proof (Hn k v Hin) as Hk.
    apply (execute_keeps_header uri_parse uri_root uri_is_http no_ext c (ReqBuilder.pieces q) w p w' k v E); [by apply Hq| |by apply Hx].
    unfold client_header, handshake_names in *. intros Hc.
    repeat (apply elem_of_cons in Hk as [->|Hk]; [by vm_compute in Hc; set_solver|]). by apply elem_of_nil in Hk. }
  destruct vs as [|[k v] vs]; [done|]. destruct (Hk k v) as (req & Hs & Hrest); [left|]. exists req. split; [done|].
  destruct Hrest as (Hm & Hv & He & Hu & _). split_and!; try done. intros k' v' Hin.
  destruct (Hk k' v' Hin) as (req' & Hs' & _ & _ & _ & _ & Hkv). rewrite Hs in Hs'. by simplify_eq.
Qed.

(** The key of a request's handshake; over HTTP/2 there is none. *)
Definition request_key (req : InnerRequest (S := S) (Uri := Uri) (Ext := Ext) (NetworkScheme := NetworkScheme)) : option bytes :=
  match ir_version req with Some HTTP_2 => None | _ => hm_get SEC_WEBSOCKET_KEY (ir_headers req) end.

(** C17. A WebSocket handshake, end to end.  The request that the core client gets goes to
    the [http] or [https] URL of the [ws] or [wss] one, with the version header and
    the protocols asked for: over HTTP/1.1 a [GET] with the upgrade headers and one
    key, over HTTP/2 a [CONNECT] with the protocol [websocket].  A response makes a
    socket exactly if its connection is upgraded and it is a proper answer to that
    very request: status, upgrade headers, the accept key that is derived from the
    key that was sent, and a protocol exactly if some were asked for, one of them.
    The socket has the protocol of the response. *)
Theorem handshake_end_to_end generated (b : BuilderT) (w : W) p hs w' :
  ws_send hv_from_str no_ext uri_parse uri_root uri_is_http generated b w = Some (Ok (PRequest p, hs), w') ->
  (forall k, k ∈ handshake_names -> no_extra k (c_proxies (ReqBuilder.b_client (wb_inner b)))) ->
  exists r url req, ReqBuilder.b_request (wb_inner b) = Ok r /\ sent w' = sent w ++ [req] /\
    try_uri uri_parse url = Some (ir_uri req) /\ Some (url_scheme url) = http_scheme (ReqBuilder.q_url r) /\
    hm_get_all SEC_WEBSOCKET_VERSION (ir_headers req) = [bs "13"] /\
    match wb_protocols b with
    | Some (x :: l) => hm_get_all SEC_WEBSOCKET_PROTOCOL (ir_headers req) = [join (bs ", ") (x :: l)]
    | _ => True
    end /\
    match request_key req with
    | Some key =>
        key = default generated (wb_accept_key b) /\ ir_version req = Some HTTP_11 /\ ir_method req = GET /\
        hm_get_all SEC_WEBSOCKET_KEY (ir_headers req) = [key] /\
        hm_get_all CONNECTION (ir_headers req) = [bs "upgrade"] /\ hm_get_all UPGRADE (ir_headers req) = [bs "websocket"]
    | None => ir_version req = Some HTTP_2 /\ ir_method req = CONNECT /\ ext_protocol (ir_extensions req) = Some (bs "websocket")
    end /\
    forall Str (from_raw : Up -> WebSocketConfig -> Str) (i : InnerT) s,
      into_websocket from_raw (mkWsResponse _ i hs) = Ok s <->
      conforms (request_key req) (wb_protocols b) i /\
      exists up, wi_upgrade _ i = Ok up /\ s = mkWebSocket _ (from_raw up (wb_config b)) (hm_get SEC_WEBSOCKET_PROTOCOL (wi_headers _ i)).
Proof.
  intros E Hx. unfold ws_send in E. destruct (WebSocket.prepare _ _ _) as [[[c q] hs']|e] eqn:Ep; [|done].
  destruct (execute_request _ _ _ _ _ _ _) as [[p' w1]|] eqn:Ee; [|done]. cbn in E. simplify_eq.
  apply prepare_spec in Ep as (-> & r & Hr & Hp). exists r, (ReqBuilder.q_url q).
  pose proof Hp as (_ & _ & Hsch & Hvs & Hk).
  destruct (handshake_sent _ q w p w' (handshake_values (hs_accept_key hs) (wb_protocols b)) Ee Hvs) as (req & Hs & Hm & Hv & He & Hu & Hreq);
    [done| |done|].
  { unfold handshake_names. intros k v Hin. unfold handshake_values in Hin. destruct (hs_accept_key hs), (wb_protocols b) as [[|]|]; cbn in Hin;
      repeat (apply elem_of_cons in Hin as [[= -> _]|Hin]; [set_solver|]); by apply elem_of_nil in Hin. }
  exists req. split; [done|]. split; [done|]. split; [done|]. split; [done|]. split; [apply Hreq; left|]. split.
  { destruct (wb_protocols b) as [[|x l]|] eqn:El; [done| |done]. apply Hreq. unfold handshake_values. set_solver. }
  assert (request_key req = hs_accept_key hs) as Hrk.
  { unfold request_key. rewrite Hv. destruct Hk as [(_ & -> & -> & _)|(_ & Hh & -> & _)]; [done|]. rewrite Hh.
    unfold hm_get. rewrite (Hreq SEC_WEBSOCKET_KEY (default generated (wb_accept_key b))); [done|]. rewrite Hh. unfold handshake_values. set_solver. }
  rewrite Hrk. split; [|intros; by apply (into_websocket_ok from_raw generated b r q)].
  destruct Hk as [(_ & Hh & Hqv & Hqm & Hqe)|(_ & Hh & Hqv & Hqm)]; rewrite Hh in *; [by rewrite Hv, Hm, He|].
  rewrite Hv, Hm. split_and!; try done; apply Hreq; unfold handshake_values; set_solver.
Qed.
End Handshake.

(** ** Messages *)

Section Messages.
Context `{TL : TungsteniteLaws}.

(** A message whose close code is a [u16]. *)
Definition wf_message (m : Message) : Prop :=
  match m with MClose (Some f) => 0 <= cf_code f <= 65535 | _ => True end.

(** A message survives the conversion to tungstenite and back. *)
Lemma message_roundtrip m : wf_message m -> from_tungstenite (into_tungstenite m) = Some m.
Proof. destruct m as [[s]|b|b|b|[[c [s]]|]]; cbn; try done. intros Hc. by rewrite code_roundtrip. Qed.

Lemma messages_roundtrip ms : Forall wf_message ms -> omap from_tungstenite (into_tungstenite <$> ms) = ms.
Proof. induction 1 as [|m ms Hm Hms IH]; [done|]. csimpl. rewrite message_roundtrip by done. by rewrite IH. Qed.

Context {Url Str TsErr : Type} {WS : WebSocketStream Str TsErr} (ts_error : TsErr -> ClientError.BoxError Url).
Abbreviation poll_next := (poll_next ts_error).

(** The stream of tungstenite gives the messages [l], with pauses in between. *)
Inductive ts_gives : Str -> list TsMessage -> Str -> Prop :=
| gives_nil s : ts_gives s [] s
| gives_pending s s1 l s' : ts_poll_next s = (None, s1) -> ts_gives s1 l s' -> ts_gives s l s'
| gives_message s m s1 l s' : ts_poll_next s = (Some (Some (Ok m)), s1) -> ts_gives s1 l s' -> ts_gives s (m :: l) s'.

(** A user who polls the socket again and again gets the messages [l]. *)
Inductive ws_gives : WebSocket Str -> list Message -> WebSocket Str -> Prop :=
| wgives_nil s : ws_gives s [] s
| wgives_pending n s s1 l s' : poll_next n s = (RPending, s1) -> ws_gives s1 l s' -> ws_gives s l s'
| wgives_message n s m s1 l s' : poll_next n s = (RVal (Some m), s1) -> ws_gives s1 l s' -> ws_gives s (m :: l) s'.

(** A raw frame is passed over by the poll that meets it. *)
Lemma ws_gives_skip s s1 (m : TsMessage) pr l s' :
  ts_poll_next s = (Some (Some (Ok m)), s1) -> from_tungstenite m = None -> ws_gives (mkWebSocket _ s1 pr) l s' ->
  l = [] /\ s' = mkWebSocket _ s1 pr \/ ws_gives (mkWebSocket _ s pr) l s'.
Proof.
  intros E Hm Hg. inversion Hg as [?|n ? s2 ? ? Hn Hr|n ? x s2 ? ? Hn Hr]; simplify_eq; [by left|right..].
  - apply (wgives_pending (S n) _ s2); [cbn; by rewrite E, Hm|done].
  - apply (wgives_message (S n) _ x s2); [cbn; by rewrite E, Hm|done].
Qed.

(** How the stream of tungstenite ends, and what the user sees of it. *)
Definition ts_end (e : option TsErr) : option (result TsMessage TsErr) := Err <$> e.
Definition ws_end (e : option TsErr) : poll_res (ClientError.Error Url) (option Message) :=
  match e with Some e => RErr (ClientError.body (ts_error e)) | None => RVal None end.

Lemma gives_in_order s l s' : ts_gives s l s' -> forall e s3 pr,
  ts_poll_next s' = (Some (ts_end e), s3) ->
  exists t n, ws_gives (mkWebSocket _ s pr) (omap from_tungstenite l) t /\ poll_next n t = (ws_end e, mkWebSocket _ s3 pr).
Proof.
  induction 1 as [s|s s1 l s' E _ IH|s m s1 l s' E _ IH]; intros e s3 pr Hend.
  - exists (mkWebSocket _ s pr), 1%nat. split; [constructor|]. cbn. rewrite Hend. by destruct e.
  - destruct (IH e s3 pr Hend) as (t & n & Ht & Hn). exists t, n. split; [|done].
    apply (wgives_pending 1 _ (mkWebSocket _ s1 pr)); [cbn; by rewrite E|done].
  - destruct (IH e s3 pr Hend) as (t & n & Ht & Hn). csimpl. destruct (from_tungstenite m) as [x|] eqn:Em.
    + exists t, n. split; [|done]. apply (wgives_message 1 _ x (mkWebSocket _ s1 pr)); [cbn; by rewrite E, Em|done].
    + destruct (ws_gives_skip s s1 m pr _ t E Em Ht) as [[-> ->]|Hg]; [|by exists t, n].
      exists (mkWebSocket _ s pr), (S n). split; [constructor|]. cbn. by rewrite E, Em.
Qed.

Definition is_frame (m : TsMessage) : bool := match m with TsFrameMsg _ => true | _ => false end.

Lemma omap_no_frames (l : list TsMessage) : omap from_tungstenite l = omap from_tungstenite (filter (fun m => is_frame m = false) l).
Proof.
  induction l as [|m l IH]; [done|]. rewrite filter_cons. destruct m as [| | | |[[]|]|]; cbn; by rewrite IH.
Qed.

(** C19. Messages sent are messages received.  If tungstenite's stream gives what the
    other side passed to [start_send], with any pauses and raw frames in between, and
    then ends or fails, a user who polls the socket gets exactly those messages, in
    order, and then the end, or the failure as an error of the body. *)
Theorem messages_in_order s (l : list TsMessage) s' e s3 pr ms :
  ts_gives s l s' -> ts_poll_next s' = (Some (ts_end e), s3) ->
  filter (fun m => is_frame m = false) l = into_tungstenite <$> ms -> Forall wf_message ms ->
  exists t n, ws_gives (mkWebSocket _ s pr) ms t /\ poll_next n t = (ws_end e, mkWebSocket _ s3 pr).
Proof.
  intros Hg He Hl Hms. destruct (gives_in_order s l s' Hg e s3 pr He) as (t & n & Ht & Hn).
  rewrite omap_no_frames, Hl, messages_roundtrip in Ht by done. by exists t, n.
Qed.

(** The text of a message is its data, and there is one exactly if that is UTF-8; the
    text of text messages and close frames is taken on trust. *)
Lemma to_text_spec (m : Message) :
  to_text (Url := Url) m = Ok (into_data m) \/
  (exists b, m = MBinary b \/ m = MPing b \/ m = MPong b) /\ is_utf8 (into_data m) = false /\ to_text (Url := Url) m = Err (decode_error "invalid utf-8").
Proof.
  destruct m as [[s]|b|b|b|[[c [s]]|]]; cbn; try (by left); destruct (is_utf8 b) eqn:E; naive_solver.
Qed.

Lemma into_text_to_text (m : Message) :
  to_text (Url := Url) m = match into_text (Url := Url) m with Ok s => Ok (utf8 s) | Err e => Err e end.
Proof. destruct m as [[s]|b|b|b|[[c [s]]|]]; cbn; try done; unfold utf8_try_from; by destruct (is_utf8 b). Qed.
End Messages.

(** ** The properties at concrete inputs *)

Module RefWs.
Import RefHttp RefUrl RefClient.

Abbreviation EXT := (option (option Z) * option bytes)%type.
Abbreviation REQ := (InnerRequest (S := Empty_set) (Uri := url) (Ext := EXT) (NetworkScheme := NetworkScheme)).
#[export] Instance ws_ext : RequestConfig.ExtensionsCrate EXT := {|
  RequestConfig.ext_get_timeout := fst; RequestConfig.ext_insert_timeout := fun t e => (Some t, e.2)
|}.
#[export] Instance ws_ext_protocol : ExtProtocol EXT := {| ext_insert_protocol := fun p e => (e.1, Some p); ext_protocol := snd |}.
#[export] Instance ws_scheme : UrlScheme url := {|
  url_set_scheme := fun s u => Ok (mkUrl s (u_user u) (u_pass u) (u_host u) (u_port u) (u_path u))
|}.
#[export] Instance ws_world : World (S := Empty_set) (Url := url) (Uri := url) (Ext := EXT) (list REQ) unit := {|
  hy_request := fun r w => (tt, w ++ [r]); hy_poll := fun _ w => (RPending, tt, w);
  set_cookies := fun _ _ w => w; cookies := fun _ _ => None; now := fun _ => 0
|}.
#[export] Program Instance ws_world_laws : WorldLaws (S := Empty_set) (Url := url) (Uri := url) (Ext := EXT) (list REQ) unit := {| sent := fun w => w |}.
Solve All Obligations with done.

(** Values of the added map replace those of their names. *)
Definition others (more h : entries) : entries := filter (fun kv => e_get kv.1 more = []) h.
#[export] Instance ws_extend : HttpExtend := {| hm_extend := fun h more => others more h ++ more |}.
Lemma e_get_cons k k' v' (h : entries) : e_get k ((k', v') :: h) = (if decide (k' = k) then [v'] else []) ++ e_get k h.
Proof. unfold e_get. rewrite filter_cons. cbn [fst]. by destruct (decide (k' = k)). Qed.
Lemma e_get_filter (more : entries) k (h : entries) :
  e_get k (others more h) = if decide (e_get k more = []) then e_get k h else [].
Proof.
  induction h as [|[k' v'] h IH]; [by case_decide|]. unfold others. rewrite filter_cons. cbn [fst]. fold (others more h).
  destruct (decide (e_get k' more = [])) as [E|E]; rewrite ?e_get_cons, IH; destruct (decide (k' = k)) as [->|]; try done.
  - by rewrite !decide_True.
  - by rewrite !decide_False.
Qed.
#[export] Instance ws_extend_laws : HttpExtendLaws.
Proof.
  constructor. intros k h more. unfold contains_key. change (e_get k (others more h ++ more) = if match e_get k more with [] => false | _ => true end then e_get k more else e_get k h).
  rewrite RefHttp.e_get_app, e_get_filter.
  destruct (e_get k more) eqn:E; [by rewrite decide_True, app_nil_r|by rewrite decide_False].
Qed.

#[export] Instance ws_tungstenite : Tungstenite := {|
  TsCode := Z; code_from_u16 := id; code_into_u16 := id; TsFrame := unit; derive_accept_key := fun k => reverse k
|}.
#[export] Instance ws_tungstenite_laws : TungsteniteLaws.
Proof. by constructor. Qed.

Definition config : WebSocketConfig := mkConfig None 0 0 0 None false.
Definition inner : ReqBuilder.RequestBuilder (S := Empty_set) (Url := url) (Ext := EXT) (PErr := unit) :=
  ReqBuilder.mkRequestBuilder (RefClient.client [] false) (Ok (ReqBuilder.request_new (None, None) false GET (parse_or "wss://a.b/chat"))).
Definition sample : WebSocketRequestBuilder := protocols [bs "chat"; bs "superchat"] (ws_new config inner).
Abbreviation sent_sample := (ws_send Some (None, None) to_uri start_url plain (bs "dGhl") sample []).

(** A server that answers [sample]. *)
Definition good_answer : WsInner (Url := url) (PErr := unit) bool :=
  mkWsInner _ 101 HTTP_11
    [(CONNECTION, bs "Keep-Alive, Upgrade"); (UPGRADE, bs "WebSocket"); (SEC_WEBSOCKET_ACCEPT, bs "lhGd"); (SEC_WEBSOCKET_PROTOCOL, bs "chat")]
    (Ok []) (Ok true).

Lemma handshake_end_to_end_witness :
  exists p hs w', sent_sample = Some (Ok (PRequest p, hs), w') /\
    into_websocket (fun up c => (up, c)) (mkWsResponse _ good_answer hs) = Ok (mkWebSocket _ (true, config) (Some (bs "chat"))).
Proof.
  assert (match sent_sample with Some (Ok (PRequest _, _), _) => true | _ => false end = true) as Hs by (vm_compute; reflexivity).
  destruct sent_sample as [[[[[p|e] hs]|e] w']|] eqn:E; [|discriminate Hs..]. exists p, hs, w'. split; [reflexivity|].
  destruct (handshake_end_to_end (Up := bool) Some (None, None) ltac:(by intros s v [= ->]) ltac:(by intros s u u' [= <-]) ltac:(reflexivity)
    to_uri start_url plain (bs "dGhl") sample [] p hs w' E) as (r & url & req & Hr & Hw & _ & _ & _ & _ & Hk & Hacc).
  { intros k _ q m Hq. inversion Hq. }
  apply Hacc. assert (request_key req = Some (bs "dGhl")) as ->.
  { assert (match sent_sample with Some (Ok _, [r]) => request_key r | _ => None end = Some (bs "dGhl")) as Hc by (vm_compute; reflexivity).
    assert (w' = [req]) as Hw' by exact Hw. rewrite E, Hw' in Hc. exact Hc. }
  split; [|exists true; split; reflexivity]. split; [right; left; reflexivity|]. split.
  - split; [reflexivity|]. split; [exists (bs "Keep-Alive, Upgrade"), (bs "keep-alive, "), []; split; [reflexivity|split; reflexivity]|].
    split; [exists (bs "WebSocket"); split; reflexivity|]. exists (bs "lhGd"). split; [reflexivity|split; reflexivity].
  - split; [reflexivity|]. exists [bs "chat"; bs "superchat"]. split; [reflexivity|left].
Defined.

(** A stream that gives a list; [None] is a pause. *)
#[export] Instance list_stream : WebSocketStream (list (option TsMessage)) unit := {|
  ts_poll_next := fun l => match l with [] => (Some None, []) | None :: l => (None, l) | Some m :: l => (Some (Some (Ok m)), l) end;
  ts_poll_ready := fun l => (RVal tt, l);
  ts_start_send := fun m l => (Ok tt, l ++ [Some m]);
  ts_poll_flush := fun l => (RVal tt, l);
  ts_poll_close := fun l => (RVal tt, l);
  ts_close := fun f l => (RVal tt, l ++ [Some (TsClose f)])
|}.

Definition ms_sample : list Message := [MText (from_static "hi"); MClose (Some (mkCloseFrame NORMAL (from_static "bye")))].
Definition raw : TsMessage := @TsFrameMsg ws_tungstenite tt.
Definition stream_sample : list (option TsMessage) :=
  [Some (TsText (bs "hi")); None; Some (raw); Some (TsClose (Some (1000, bs "bye"))); Some (raw)].

Lemma messages_in_order_witness :
  exists t n, ws_gives (Url := url) (fun _ => ClientError.BTimedOut) (mkWebSocket _ stream_sample None) ms_sample t /\
    poll_next (Url := url) (fun _ => ClientError.BTimedOut) n t = (RVal None, mkWebSocket _ [] None).
Proof.
  apply (messages_in_order (fun _ => ClientError.BTimedOut) stream_sample
    [TsText (bs "hi"); raw; @TsClose ws_tungstenite (Some (1000, bs "bye")); raw] [] None [] None ms_sample).
  - eapply gives_message; [reflexivity|]. eapply gives_pending; [reflexivity|]. do 3 (eapply gives_message; [reflexivity|]). constructor.
  - reflexivity.
  - reflexivity.
  - repeat constructor; cbn; unfold NORMAL; lia.
Defined.
End RefWs.
