(* ===== verification/Upgrade.v ===== *)
(** * Upgraded connections (src/src/core/upgrade.rs, src/src/core/common/io/rewind.rs)

    After an upgrade the transport is handed over together with the bytes that were
    read and not used: [Rewind] gives these first, and is a transport again.
    [Pending] and [OnUpgrade] are the two ends of the oneshot channel on which this
    happens. *)

From S2P Require Import Prelude Buf WriteBuf Oneshot Decode Error Io IoFacts.
Import Error.

Module Upgrade.

(** ** [Rewind] *)

Record Rewind (T : Type) := mkRewind { pre : option bytes; rw_inner : T }.
Arguments mkRewind {T} _ _.
Arguments pre {T} _.
Arguments rw_inner {T} _.

Section Rewind.
Context {T : Type} `{Transport T}.

Definition new_buffered (io : T) (buf : bytes) : Rewind T := mkRewind (Some buf) io.
Definition rewind_into_inner (r : Rewind T) : T * bytes := (rw_inner r, default [] (pre r)).

(** [poll_read] into a buffer with room for [n] bytes. *)
Definition rewind_poll_read (n : Z) (r : Rewind T) : poll_res io_error bytes * Rewind T :=
  let through := let '(x, t) := poll_read n (rw_inner r) in (x, mkRewind None t) in
  match pre r with
  | Some prefix =>
      if bool_decide (prefix = []) then through
      else
        let copy_len := Z.min (len prefix) n in
        let rest := zdrop copy_len prefix in
        (RVal (ztake copy_len prefix), mkRewind (if bool_decide (rest = []) then None else Some rest) (rw_inner r))
  | None => through
  end.

(** The methods that go to the transport. *)
Definition rewind_on {A} (f : T -> A * T) (r : Rewind T) : A * Rewind T :=
  let '(x, t) := f (rw_inner r) in (x, mkRewind (pre r) t).

#[export] Instance rewind_transport : Transport (Rewind T) := {|
  poll_read := rewind_poll_read;
  poll_write := fun b => rewind_on (poll_write b);
  io_poll_flush := rewind_on io_poll_flush;
  io_poll_shutdown := rewind_on io_poll_shutdown;
  is_write_vectored := fun r => is_write_vectored (rw_inner r);
  poll_write_vectored := fun l => rewind_on (poll_write_vectored l)
|}.
End Rewind.

(** ** [Upgraded] *)

(** The transport is a trait object in the source; its type is [T] here. *)
Record Upgraded (T : Type) := mkUpgraded { up_io : Rewind T }.
Arguments mkUpgraded {T} _.
Arguments up_io {T} _.

Section Upgraded.
Context {T : Type} `{Transport T}.

Definition upgraded_new (io : T) (read_buf : bytes) : Upgraded T := mkUpgraded (new_buffered io read_buf).

(** [downcast]; [is_type]: the trait object is of the type that is asked for. *)
Definition downcast (is_type : bool) (u : Upgraded T) : result (T * bytes) (Upgraded T) :=
  let '(io, buf) := rewind_into_inner (up_io u) in
  if is_type then Ok (io, buf) else Err (mkUpgraded (new_buffered io buf)).

Definition upgraded_on {A} (f : Rewind T -> A * Rewind T) (u : Upgraded T) : A * Upgraded T :=
  let '(x, r) := f (up_io u) in (x, mkUpgraded r).

#[export] Instance upgraded_transport : Transport (Upgraded T) := {|
  poll_read := fun n => upgraded_on (poll_read n);
  poll_write := fun b => upgraded_on (poll_write b);
  io_poll_flush := upgraded_on io_poll_flush;
  io_poll_shutdown := upgraded_on io_poll_shutdown;
  is_write_vectored := fun u => is_write_vectored (up_io u);
  poll_write_vectored := fun l => upgraded_on (poll_write_vectored l)
|}.
End Upgraded.

(** ** [Pending] and [OnUpgrade] *)

Definition new_user_no_upgrade : Error := new (KUser NoUpgrade).
Definition new_user_manual_upgrade : Error := new (KUser ManualUpgrade).
Definition upgrade_expected : Error := with_cause (CauseText "upgrade expected but not completed") new_canceled.

Section Channel.
Context {U US : Type} {os : Oneshot (result U Error) US}.

(** The sending end by its channel; the receiving end, if there is an upgrade. *)
Record Pending := mkPending { pd_tx : nat }.
Record OnUpgrade := mkOnUpgrade { ou_rx : option nat }.

Definition pending (s : US) : Pending * OnUpgrade * US :=
  let '(ch, s) := chan_new s in (mkPending ch, mkOnUpgrade (Some ch), s).
Definition fulfill (p : Pending) (u : U) (s : US) : US := (tx_send (pd_tx p) (Ok u) false s).2.
Definition manual (p : Pending) (s : US) : US := (tx_send (pd_tx p) (Err new_user_manual_upgrade) false s).2.
Definition pending_drop (p : Pending) (s : US) : US := tx_drop (pd_tx p) s.

Definition on_upgrade_none : OnUpgrade := mkOnUpgrade None.
Definition on_upgrade_is_none (o : OnUpgrade) : bool := match ou_rx o with None => true | Some _ => false end.

(** [OnUpgrade::poll]; a receiver that completed before panics. *)
Definition on_upgrade_poll (o : OnUpgrade) (s : US) : poll_res Error U * US :=
  match ou_rx o with
  | None => (RErr new_user_no_upgrade, s)
  | Some ch =>
      if tx_is_closed ch s then (RPanic, s)
      else
        match rx_poll ch s with
        | RxPending => (RPending, s)
        | RxReady (Ok u) => (RVal u, rx_take ch s)
        | RxReady (Err e) => (RErr e, rx_take ch s)
        | RxCanceled => (RErr upgrade_expected, rx_take ch s)
        end
  end.

(** [on]: the handle in the extensions of a message. *)
Definition on (ext : option OnUpgrade) : OnUpgrade := match ext with Some o => o | None => on_upgrade_none end.
End Channel.

(** ** A rewound transport is a transport *)

Section Laws.
Context {T : Type} {HT : Transport T} {TL : TransportLaws T}.

(** What is left to read: the buffered bytes, then the transport's. *)
Definition rewound (r : Rewind T) : bytes := default [] (pre r) ++ input (rw_inner r).

#[export] Program Instance rewind_laws : TransportLaws (Rewind T) := {|
  tr_wf := fun r => tr_wf (rw_inner r); input := rewound; output := fun r => output (rw_inner r)
|}.
Next Obligation.
  intros n [p t] Ht Hn. cbn in Ht |- *. unfold rewind_poll_read, rewound. cbn [pre rw_inner].
  assert (match (let '(x, t') := poll_read n t in (x, mkRewind None t')) with
    | (RVal b, r') => tr_wf (rw_inner r') /\ input t = b ++ default [] (pre r') ++ input (rw_inner r') /\
        output (rw_inner r') = output t /\ len b <= n /\ (b = [] -> input t = [])
    | (RPending, r') | (RErr _, r') => tr_wf (rw_inner r') /\ default [] (pre r') ++ input (rw_inner r') = input t /\ output (rw_inner r') = output t
    | _ => False end) as Hthrough.
  { pose proof (poll_read_ok n t Ht Hn) as Hr. destruct (poll_read n t) as [[b| |e| |] t']; cbn; done. }
  destruct p as [p|]; [|exact Hthrough]. case_bool_decide as Hp; [subst p; exact Hthrough|]. cbn [rw_inner pre default].
  split; [done|]. split; [|split; [done|split]].
  - assert (default [] (if bool_decide (zdrop (Z.min (len p) n) p = []) then None else Some (zdrop (Z.min (len p) n) p)) =
      zdrop (Z.min (len p) n) p) as -> by (case_bool_decide as E; [by rewrite E|done]).
    by rewrite app_assoc, ztake_zdrop.
  - rewrite len_ztake by (pose proof (len_nonneg p); lia). lia.
  - intros E%(f_equal len). rewrite len_ztake in E by (pose proof (len_nonneg p); lia). destruct Hp. apply len_zero.
    rewrite len_nil in E. pose proof (len_nonneg p). lia.
Qed.
Next Obligation.
  intros b [p t] Ht. cbn in Ht |- *. unfold rewind_on, rewound. cbn [pre rw_inner]. pose proof (poll_write_ok b t Ht) as Hr.
  destruct (poll_write b t) as [[n| |e| |] t']; cbn; try done; destruct Hr as (? & -> & ?); done.
Qed.
Next Obligation.
  intros b [p t] Ht. cbn in Ht |- *. unfold rewind_on, rewound. cbn [pre rw_inner]. pose proof (poll_write_vectored_ok b t Ht) as Hr.
  destruct (poll_write_vectored b t) as [[n| |e| |] t']; cbn; try done; destruct Hr as (? & -> & ?); done.
Qed.
Next Obligation.
  intros [p t] Ht. cbn in Ht |- *. unfold rewind_on, rewound. cbn [pre rw_inner]. pose proof (poll_flush_ok t Ht) as Hr.
  destruct (io_poll_flush t) as [[n| |e| |] t']; cbn; try done; destruct Hr as (? & -> & ?); done.
Qed.
Next Obligation.
  intros [p t] Ht. cbn in Ht |- *. unfold rewind_on, rewound. cbn [pre rw_inner]. pose proof (poll_shutdown_ok t Ht) as Hr.
  destruct (io_poll_shutdown t) as [[n| |e| |] t']; cbn; try done; destruct Hr as (? & -> & ?); done.
Qed.
End Laws.
End Upgrade.
