(* ===== verification/Handles.v ===== *)
(** * Connections and their handles (src/src/core/client/conn/, src/src/core/config/)

    A handshake makes of a transport a connection, which is polled by a task of its
    own, and a handle to send requests on it, for HTTP/1 and HTTP/2.  The settings of
    both are made by builders. *)

From S2P Require Import Prelude Buf Http WriteBuf Oneshot Decode Error Io Role Conn Incoming Dispatch Dispatcher Ping H2 H2Client Upgrade ClientError.
From coqutil Require Import Datatypes.RecordSetters.
Import Error TriangleBracketNotations.

(** ** Sending requests *)

Module SendRequest.
Import Dispatch.
Section SendRequest.
Context {T U CS : Type} {os : Oneshot (Answer T U) CS} {M : Type} {mp : Mpsc (Envelope T) M} {G : Type} {wt : Want G}.

(** The future of a request: what [try_send] gave, until it completes. *)
Inductive SendFuture := FSent (ch : nat) | FRefused (req : T) | FDone.

Definition of_sent (r : result nat T) : SendFuture := match r with Ok ch => FSent ch | Err req => FRefused req end.

(** HTTP/1 *)
Definition h1_poll_ready (sh : Shared (M := M) (G := G)) : poll_res Error unit := poll_ready_sender (sh_want sh).
Definition h1_is_ready (sh : Shared (M := M) (G := G)) : bool := is_ready_sender (sh_want sh).
Definition h1_try_send_request (req : T) (s : Sender) (sh : Shared (M := M) (G := G)) (cs : CS) : option (SendFuture * Sender * Shared * CS) :=
  '(r, s, sh, cs) ← try_send req s sh cs; Some (of_sent r, s, sh, cs).

(** HTTP/2 *)
Definition h2_is_closed (sh : Shared (M := M) (G := G)) : bool := unbounded_is_closed (sh_want sh).
Definition h2_is_ready (sh : Shared (M := M) (G := G)) : bool := unbounded_is_ready (sh_want sh).
Definition h2_poll_ready (sh : Shared (M := M) (G := G)) : poll_res Error unit :=
  if h2_is_closed sh then RErr new_closed else RVal tt.
Definition h2_try_send_request (req : T) (sh : Shared (M := M) (G := G)) (cs : CS) : option (SendFuture * Shared * CS) :=
  '(r, sh, cs) ← unbounded_try_send req sh cs; Some (of_sent r, sh, cs).

Definition not_ready (req : T) : TrySendError T :=
  mkTrySendError (with_cause (CauseText "connection was not ready") new_canceled) (Some req).

(** Polling it, for both.  [rx.await] on a channel whose sender is gone without an
    answer is the [panic!]; an answer of the other kind of callback, which the types
    of the source exclude, is read as an error without the message. *)
Definition send_future_poll (f : SendFuture) (cs : CS) : poll_res (TrySendError T) U * SendFuture * CS :=
  match f with
  | FSent ch =>
      match rx_poll ch cs with
      | RxPending => (RPending, f, cs)
      | RxReady a =>
          let r := match a with
                   | AnsRetry (Ok res) | AnsNoRetry (Ok res) => RVal res
                   | AnsRetry (Err e) => RErr e
                   | AnsNoRetry (Err e) => RErr (mkTrySendError e None)
                   end in
          (r, FDone, rx_take ch cs)
      | RxCanceled => (RPanic, f, cs)
      end
  | FRefused req => (RErr (not_ready req), FDone, cs)
  | FDone => (RPanic, f, cs)
  end.
End SendRequest.
End SendRequest.

(** ** HTTP/1 connections *)

Module Http1.
Import Role Conn Incoming Dispatch Dispatcher Upgrade.

(** The settings of httparse's parser. *)
Class HpSettings `{Httparse} := {
  hp_allow_spaces : bool -> hp_config -> hp_config;
  hp_ignore_invalid : bool -> hp_config -> hp_config;
  hp_allow_multiline : bool -> hp_config -> hp_config
}.

Section Config.
Context `{Httparse} {HS : HpSettings}.

Record Http1Config := mkHttp1Config {
  h09_responses : bool;
  h1_parser_config : hp_config;
  h1_writev : option bool;
  h1_title_case_headers : bool;
  h1_preserve_header_case : bool;
  h1_max_headers : option Z;
  h1_read_buf_exact_size : option Z;
  h1_max_buf_size : option Z
}.
Definition http1_config_default : Http1Config := mkHttp1Config false hp_default_config None false false None None None.

Definition http09_responses (x : bool) (c : Http1Config) : Http1Config :=
  mkHttp1Config x (h1_parser_config c) (h1_writev c) (h1_title_case_headers c) (h1_preserve_header_case c) (h1_max_headers c) (h1_read_buf_exact_size c) (h1_max_buf_size c).
Definition writev (x : option bool) (c : Http1Config) : Http1Config :=
  mkHttp1Config (h09_responses c) (h1_parser_config c) x (h1_title_case_headers c) (h1_preserve_header_case c) (h1_max_headers c) (h1_read_buf_exact_size c) (h1_max_buf_size c).
Definition title_case_headers (x : bool) (c : Http1Config) : Http1Config :=
  mkHttp1Config (h09_responses c) (h1_parser_config c) (h1_writev c) x (h1_preserve_header_case c) (h1_max_headers c) (h1_read_buf_exact_size c) (h1_max_buf_size c).
Definition preserve_header_case (x : bool) (c : Http1Config) : Http1Config :=
  mkHttp1Config (h09_responses c) (h1_parser_config c) (h1_writev c) (h1_title_case_headers c) x (h1_max_headers c) (h1_read_buf_exact_size c) (h1_max_buf_size c).
Definition max_headers (n : Z) (c : Http1Config) : Http1Config :=
  mkHttp1Config (h09_responses c) (h1_parser_config c) (h1_writev c) (h1_title_case_headers c) (h1_preserve_header_case c) (Some n) (h1_read_buf_exact_size c) (h1_max_buf_size c).
Definition read_buf_exact_size (sz : option Z) (c : Http1Config) : Http1Config :=
  mkHttp1Config (h09_responses c) (h1_parser_config c) (h1_writev c) (h1_title_case_headers c) (h1_preserve_header_case c) (h1_max_headers c) sz None.
(** [None] is the panic of the assertion. *)
Definition max_buf_size (max : Z) (c : Http1Config) : option Http1Config :=
  if MINIMUM_MAX_BUFFER_SIZE <=? max then
    Some (mkHttp1Config (h09_responses c) (h1_parser_config c) (h1_writev c) (h1_title_case_headers c) (h1_preserve_header_case c) (h1_max_headers c) None (Some max))
  else None.
Definition on_parser (f : hp_config -> hp_config) (c : Http1Config) : Http1Config :=
  mkHttp1Config (h09_responses c) (f (h1_parser_config c)) (h1_writev c) (h1_title_case_headers c) (h1_preserve_header_case c) (h1_max_headers c) (h1_read_buf_exact_size c) (h1_max_buf_size c).
Definition allow_spaces_after_header_name_in_responses (x : bool) := on_parser (hp_allow_spaces x).
Definition ignore_invalid_headers_in_responses (x : bool) := on_parser (hp_ignore_invalid x).
Definition allow_obsolete_multiline_headers_in_responses (x : bool) := on_parser (hp_allow_multiline x).
End Config.

Section Connection.
Context {BC : BytesCrate} {AL : Alloc} {HC : HttpCrate} {HP : Httparse}.
Context {T : Type} {HT : Transport T} {B : Type} {HB : Buf B} {Uri : Type} (uri_display : Uri -> bytes).
Context {FS : Type} {fm : FMpsc (result bytes Error) FS} {OS : Type} {os : Oneshot HeaderMap OS}.
Context {Bs : Type} {bd : Dispatcher.Body Bs B HeaderMap}.
Abbreviation Req := (MessageHead (RequestLine (Uri := Uri)) * Bs)%type.
Abbreviation Resp := (MessageHead StatusCode * Incoming * option Z)%type.
Context {CS : Type} {cso : Oneshot (Answer Req Resp) CS} {M : Type} {mp : Mpsc (Envelope Req) M} {G : Type} {wt : Want G}.
Abbreviation CD := (ClientD (CS := CS) (M := M) (G := G)).
Abbreviation ConnT := (Conn (T := T) (B := B)).
Abbreviation DispatcherT := (Dispatcher.Dispatcher (T := T) (B := B) (FS := FS) (OS := OS) (Bs := Bs) (D := CD)).

(** *** The handshake *)

(** The settings on a new connection; [None] is the assertion of [set_max_buf_size]. *)
Definition configure (opts : Http1Config) (c : ConnT) : option ConnT :=
  let c := conn_set_h1_parser_config (h1_parser_config opts) c in
  let c := match h1_writev opts with
           | Some true => conn_set_write_strategy_queue c
           | Some false => conn_set_write_strategy_flatten c
           | None => c
           end in
  let c := if h1_title_case_headers opts then conn_set_title_case_headers c else c in
  let c := if h1_preserve_header_case opts then conn_set_preserve_header_case c else c in
  let c := match h1_max_headers opts with Some n => conn_set_http1_max_headers n c | None => c end in
  let c := if h09_responses opts then conn_set_h09_responses c else c in
  let c := match h1_read_buf_exact_size opts with Some sz => conn_set_read_buf_exact_size sz c | None => c end in
  match h1_max_buf_size opts with Some max => conn_set_max_buf_size max c | None => Some c end.

(** [handshake]: the sender of the handle and the connection, with the stores of the
    channels that exist. *)
Definition handshake (opts : Http1Config) (io : T) (cs : CS) (bodies : BStore (FS := FS) (OS := OS)) (upgrades : Z)
  : option (Sender * DispatcherT) :=
  let '(tx, shared) := channel in
  conn ← configure opts (conn_new io);
  Some (tx, dispatcher_new (mkClientD client_new shared cs true) conn bodies upgrades).

(** *** [Connection] and [UpgradeableConnection] *)

Context {US : Type} {uso : Oneshot (result (Upgraded T) Error) US}.

(** The task of a connection, the channels of the upgrade handles that it made so
    far, in order, and their store.  When the connection is given up for an upgrade,
    what it shared with the callers is left. *)
Inductive Task := Running (d : DispatcherT) | Gone (sh : Shared (M := M) (G := G)) (cs : CS).
Record Connection := mkConnection { cn_task : Task; cn_handles : list nat; cn_store : US }.

(** The channels of the handles that a poll made. *)
Fixpoint make_handles (n : nat) (l : list nat) (s : US) : list nat * US :=
  match n with O => (l, s) | S n => let '(p, _, s) := pending s in make_handles n (l ++ [pd_tx p]) s end.

Definition poll_dispatcher (fuel : nat) (d : DispatcherT) (c : Connection) : poll_res Error Dispatched * DispatcherT * list nat * US :=
  let '(r, d') := Dispatcher.poll uri_display fuel d in
  let '(hs, s) := make_handles (Z.to_nat (upgrades d' - upgrades d)) (cn_handles c) (cn_store c) in
  (r, d', hs, s).

Definition pending_of (hs : list nat) (tx : Z) : Pending := mkPending (default 0%nat (hs !! Z.to_nat tx)).

(** [Connection::poll], without support for upgrades *)
Definition connection_poll (fuel : nat) (c : Connection) : poll_res Error unit * Connection :=
  match cn_task c with
  | Gone _ _ => (RPanic, c)
  | Running d =>
      let '(r, d, hs, s) := poll_dispatcher fuel d c in
      match r with
      | RVal Shutdown => (RVal tt, mkConnection (Running d) hs s)
      | RVal (Upgrade tx) => (RVal tt, mkConnection (Running d) hs (manual (pending_of hs tx) s))
      | RErr e => (RErr e, mkConnection (Running d) hs s)
      | RPending => (RPending, mkConnection (Running d) hs s)
      | RPanic => (RPanic, mkConnection (Running d) hs s)
      | RFuel => (RFuel, mkConnection (Running d) hs s)
      end
  end.

(** [UpgradeableConnection::poll]; giving up the dispatcher drops the client's end
    of the request channel ([None]: a panic there). *)
Definition upgradeable_poll (fuel : nat) (c : Connection) : poll_res Error unit * Connection :=
  match cn_task c with
  | Gone _ _ => (RPanic, c)
  | Running d =>
      let '(r, d, hs, s) := poll_dispatcher fuel d c in
      match r with
      | RVal Shutdown => (RVal tt, mkConnection (Running d) hs s)
      | RVal (Upgrade tx) =>
          let '(io, read_buf, k) := dispatcher_into_inner d in
          match client_drop false (cd_client k) (cd_shared k) (cd_chans k) with
          | None => (RPanic, mkConnection (Running d) hs s)
          | Some (sh, cs) =>
              (RVal tt, mkConnection (Gone sh cs) hs (fulfill (pending_of hs tx) (upgraded_new io read_buf) s))
          end
      | RErr e => (RErr e, mkConnection (Running d) hs s)
      | RPending => (RPending, mkConnection (Running d) hs s)
      | RPanic => (RPanic, mkConnection (Running d) hs s)
      | RFuel => (RFuel, mkConnection (Running d) hs s)
      end
  end.

(** [upgrade::on] for a response: its handle's receiving end. *)
Definition response_on (hs : list nat) (upgrade : option Z) : OnUpgrade :=
  on (h ← upgrade; ch ← hs !! Z.to_nat h; Some (mkOnUpgrade (Some ch))).

(** [Response::upgrade] of the client (src/src/client/upgrade.rs), a poll of it *)
Definition response_upgrade {Url} (core_error : Error -> ClientError.BoxError Url) (o : OnUpgrade) (s : US)
  : poll_res (ClientError.Error Url) (Upgraded T) * US :=
  let '(r, s) := on_upgrade_poll o s in
  (match r with
   | RVal u => RVal u
   | RErr e => RErr (ClientError.upgrade (core_error e))
   | RPending => RPending
   | RPanic => RPanic
   | RFuel => RFuel
   end, s).
End Connection.
End Http1.

(** ** HTTP/2 connections *)

Module Http2.
Import Dispatch Dispatcher H2 H2Client.

Section Config.
Context {PseudoOrder SettingsOrder StreamDependency ExperimentalSettings Priorities : Type}.
Abbreviation Cfg := (H2Client.Config (PseudoOrder := PseudoOrder) (SettingsOrder := SettingsOrder) (StreamDependency := StreamDependency)
  (ExperimentalSettings := ExperimentalSettings) (Priorities := Priorities)).

(** The window that the specification starts with. *)
Definition SPEC_WINDOW_SIZE : Z := 65535.

(** The methods of [Http2ConfigBuilder]. *)
Definition h2_initial_stream_window_size (sz : option Z) (c : Cfg) : Cfg :=
  match sz with Some sz => c <| H2Client.adaptive_window := false |> <| H2Client.initial_stream_window_size := sz |> | None => c end.
Definition h2_initial_connection_window_size (sz : option Z) (c : Cfg) : Cfg :=
  match sz with Some sz => c <| H2Client.adaptive_window := false |> <| H2Client.initial_conn_window_size := sz |> | None => c end.
Definition h2_initial_max_send_streams (initial : option Z) (c : Cfg) : Cfg :=
  match initial with Some n => c <| H2Client.initial_max_send_streams := n |> | None => c end.
Definition h2_initial_stream_id (id : option Z) (c : Cfg) : Cfg := c <| H2Client.initial_stream_id := id |>.
Definition h2_adaptive_window (enabled : bool) (c : Cfg) : Cfg :=
  let c := c <| H2Client.adaptive_window := enabled |> in
  if enabled then c <| H2Client.initial_conn_window_size := SPEC_WINDOW_SIZE |> <| H2Client.initial_stream_window_size := SPEC_WINDOW_SIZE |> else c.
Definition h2_max_frame_size (sz : option Z) (c : Cfg) : Cfg := c <| H2Client.max_frame_size := sz |>.
Definition h2_max_header_list_size (max : Z) (c : Cfg) : Cfg := c <| H2Client.max_header_list_size := (Some max) |>.
Definition h2_header_table_size (size : option Z) (c : Cfg) : Cfg := c <| H2Client.header_table_size := size |>.
Definition h2_max_concurrent_streams (max : option Z) (c : Cfg) : Cfg := c <| H2Client.max_concurrent_streams := max |>.
Definition h2_enable_push (opt : bool) (c : Cfg) : Cfg := c <| H2Client.enable_push := (Some opt) |>.
Definition h2_enable_connect_protocol (opt : bool) (c : Cfg) : Cfg := c <| H2Client.enable_connect_protocol := (Some opt) |>.
Definition h2_no_rfc7540_priorities (opt : bool) (c : Cfg) : Cfg := c <| H2Client.no_rfc7540_priorities := (Some opt) |>.
Definition h2_max_concurrent_reset_streams (max : Z) (c : Cfg) : Cfg := c <| H2Client.max_concurrent_reset_streams := (Some max) |>.
(** [None] is the panic of the assertion. *)
Definition h2_max_send_buf_size (max : Z) (c : Cfg) : option Cfg :=
  if max <=? 4294967295 then Some (c <| H2Client.max_send_buffer_size := max |>) else None.
Definition h2_max_pending_accept_reset_streams (max : option Z) (c : Cfg) : Cfg := c <| H2Client.max_pending_accept_reset_streams := max |>.
Definition h2_headers_stream_dependency (d : option StreamDependency) (c : Cfg) : Cfg := c <| H2Client.headers_stream_dependency := d |>.
Definition h2_headers_pseudo_order (o : option PseudoOrder) (c : Cfg) : Cfg := c <| H2Client.headers_pseudo_order := o |>.
Definition h2_experimental_settings (e : option ExperimentalSettings) (c : Cfg) : Cfg := c <| H2Client.experimental_settings := e |>.
Definition h2_settings_order (o : option SettingsOrder) (c : Cfg) : Cfg := c <| H2Client.settings_order := o |>.
Definition h2_priorities (p : option Priorities) (c : Cfg) : Cfg := c <| H2Client.priorities := p |>.
End Config.

Section Connection.
Context {HC : HttpCrate} {W B : Type} {hs : H2Streams W B HeaderMap} {pe : Ping.Peer W} {Bs : Type} {bd : Dispatcher.Body Bs B HeaderMap} {Hd : Type}.
Context {h2 : H2Crate (W := W) (Hd := Hd)}.
Abbreviation Req := (H2Client.Request (Bs := Bs) (Hd := Hd)).
Context {CS : Type} {cso : Oneshot (Answer Req H2Client.Response) CS} {M : Type} {mp : Mpsc (Envelope Req) M} {G : Type} {wt : Want G}.
Abbreviation Sys := (H2Sys (W := W) (Bs := Bs) (CS := CS) (M := M) (G := G)).

(** [Connection::poll]; an upgrade is [unreachable!]. *)
Definition h2_connection_poll (fuel pipe_fuel : nat) (senders : bool) (t : ClientTask (Bs := Bs)) (s : Sys)
  : poll_res Error unit * ClientTask * Sys :=
  let '(r, t, s) := client_poll fuel pipe_fuel senders t s in
  (match r with
   | RVal Shutdown => RVal tt
   | RVal (Dispatcher.Upgrade _) => RPanic
   | RErr e => RErr e
   | RPending => RPending
   | RPanic => RPanic
   | RFuel => RFuel
   end, t, s).

(** [handshake]: [crate] is what the handshake of the http2 crate gave on the
    transport with the calls of [new_builder]. *)
Definition h2_handshake {P S D X R} (config : Config (PseudoOrder := P) (SettingsOrder := S) (StreamDependency := D)
    (ExperimentalSettings := X) (Priorities := R)) (crate_handshake : list BuilderCall -> result W H2Error) (cs : CS)
  : result (ClientTask (Bs := Bs) * Sys) Error :=
  let '(_, shared) := channel in
  match crate_handshake (new_builder config) with
  | Err e => Err (new_h2 e)
  | Ok w => Ok (H2Client.handshake config w shared cs)
  end.
End Connection.
End Http2.
