(* ===== verification/HandlesProps.v ===== *)
(** * Properties of connection handles and upgrades

    A caller whose request was accepted gets an answer; a configuration from the
    builders is one the connections accept; an upgrade hands the transport over with
    every byte that was not used. *)

From S2P Require Import Prelude Buf Http Models HeaderWrite WriteBuf Encode EncodeProps Decode DecodeFacts DecodeProps Oneshot Error RefHttparse Io IoFacts IoProps Role RoleFacts RoleProps Conn ConnFacts ConnOps ConnFlow ConnProps Incoming Dispatch DispatchProps Dispatcher DispatcherFacts DispatcherProps Ping PingProps H2 H2Client H2Props H2ClientProps Upgrade Handles.
Import Error.

(** ** Answers *)

Section Promises.
Context {T U CS : Type} {os : Oneshot (Dispatch.Answer T U) CS} {osl : OneshotLaws (Dispatch.Answer T U) CS}.

(** Where the channels are in order, polling the future of a request whose caller
    still waits does not panic, and is pending exactly while the request is without
    an answer. *)
Lemma promise_poll out started (cs : CS) ch x :
  chans_ok out started cs -> chan cs ch = Some x -> rx_alive x = true ->
  let r := (SendRequest.send_future_poll (T := T) (U := U) (SendRequest.FSent ch) cs).1.1 in
  r <> RPanic /\ r <> RFuel /\ (r = RPending <-> ch ∈ out).
Proof.
  intros Hc Hx Hr. pose proof (chans_ok_pending out started cs Hc ch) as Hp. cbn. revert Hp. unfold rx_poll. rewrite Hx.
  destruct (Oneshot.sent x) as [a|] eqn:Es.
  - destruct a as [[]|[]]; cbn; intros <-; done.
  - destruct (co_answered _ _ _ Hc ch x Hx Hr) as [-> | [? ?]]; [intros <-; done|congruence].
Qed.
End Promises.

(** ** What a connection has not read *)

Section Suffix.
Context {BC : BytesCrate} {BCL : BytesCrateLaws} {AL : Alloc} {ALL : AllocLaws} `{HttpLaws} `{HttparseLaws}.
Context {T : Type} `{TransportLaws T} {B : Type} {HB : Buf B} {HBL : BufLaws B}.
Context {Uri : Type} (uri_display : Uri -> bytes).
Implicit Types c : Conn.Conn (T:=T) (B:=B).
Import Conn Role.

Lemma flow_suffix n c c' : flow n c c' -> incoming (conn_io c') `suffix_of` incoming (conn_io c).
Proof. by intros (_ & _ & _ & _ & ?). Qed.

Lemma conn_step_suffix c c' : conn_wf c -> conn_step uri_display c c' -> incoming (conn_io c') `suffix_of` incoming (conn_io c).
Proof.
  intros Hc Hstep. pose proof Hc as (_ & Hrw & _). destruct Hstep as
    [fuel r c' Hg Hf E|fuel r c' Hg Hf E|r c' _ E|fuel c' Hg Hf E|head body c' Hg Hv Hb Hr E
    |x c' Hg _ Hx Hne Hr E|x c' Hg _ Hx Hne Hr E|tr e c' Ew _ Hr E|r c' Hg Hr E|fuel r c' Hf E|r c' E
    | | |r c' E|r c' E|tx|r c' E];
    try (apply enough_read in Hf as (Hf1 & Hf2 & Hf3)); try done.
  - pose proof (poll_read_head_flow fuel c Hc Hg Hf2) as Hfl. rewrite E in Hfl. by eapply flow_suffix.
  - pose proof (poll_read_body_flow fuel c Hc Hg) as Hfl. rewrite E in Hfl. by eapply flow_suffix.
  - pose proof (poll_read_keep_alive_flow c Hrw) as Hfl. rewrite E in Hfl. by eapply flow_suffix.
  - by eapply flow_suffix, (poll_drain_flow fuel).
  - eapply flow_suffix, (write_head_flow uri_display head body
      (match client_encode uri_display (final_head head c) body (title_case_headers (state c)) [] with Some (out, _, _) => len out | None => 0 end)); [|  |exact E].
    + repeat case_match; try lia. apply len_nonneg.
    + intros out e m ->. lia.
  - by eapply flow_suffix, (write_body_flow x).
  - by eapply flow_suffix, (write_body_and_end_flow x).
  - by eapply flow_suffix, (write_trailers_flow tr c c' e).
  - by eapply flow_suffix, (end_body_flow c r).
  - pose proof (poll_flush_flow fuel c Hc Hf3) as Hfl. rewrite E in Hfl. by eapply flow_suffix.
  - unfold poll_shutdown in E. destruct Hrw as [Ht _]. pose proof (poll_shutdown_ok (io (conn_io c)) Ht) as Hok.
    destruct (io_poll_shutdown (io (conn_io c))) as [r' t]. injection E as <- <-. unfold incoming. cbn.
    destruct r'; try done; destruct Hok as (_ & -> & _); done.
  - unfold take_error in E. by destruct (error (state c)); injection E as <- <-.
  - by injection E as <- <-.
  - by injection E as <- <-.
Qed.
End Suffix.

(** ** Upgrades *)

Section Upgrades.
Context {T : Type} {HT : Transport T} {TL : TransportLaws T}.
Import Upgrade.

(** Reads of an upgraded connection, of whatever sizes; what they gave. *)
Inductive reads : Upgraded T -> bytes -> Upgraded T -> Prop :=
| reads_nil u : reads u [] u
| reads_some u n b u1 data u' : 0 < n -> poll_read n u = (RVal b, u1) -> reads u1 data u' -> reads u (b ++ data) u'
| reads_none u n r u1 data u' : 0 < n -> poll_read n u = (r, u1) -> (r = RPending \/ exists e, r = RErr e) -> reads u1 data u' -> reads u data u'.

Lemma upgraded_read_ok n (u : Upgraded T) :
  tr_wf (up_io u) -> 0 < n ->
  match poll_read n u with
  | (RVal b, u') => tr_wf (up_io u') /\ rewound (up_io u) = b ++ rewound (up_io u') /\ (b = [] -> rewound (up_io u) = [])
  | (RPending, u') | (RErr _, u') => tr_wf (up_io u') /\ rewound (up_io u') = rewound (up_io u)
  | _ => False
  end.
Proof.
  intros Hw Hn. cbn. unfold upgraded_on. pose proof (poll_read_ok n (up_io u) Hw Hn) as Hr. cbn in Hr.
  destruct (rewind_poll_read n (up_io u)) as [[b| |e| |] r]; cbn; try done.
  - by destruct Hr as (? & ? & _ & _ & ?).
  - by destruct Hr as (? & ? & _).
  - by destruct Hr as (? & ? & _).
Qed.

Lemma reads_ok u data u' : reads u data u' -> tr_wf (up_io u) -> tr_wf (up_io u') /\ rewound (up_io u) = data ++ rewound (up_io u').
Proof.
  induction 1 as [u|u n b u1 data u' Hn E _ IH|u n r u1 data u' Hn E Hr _ IH]; intros Hw; [done|..];
    pose proof (upgraded_read_ok n u Hw Hn) as Hok; rewrite E in Hok.
  - destruct Hok as (Hw1 & -> & _). destruct (IH Hw1) as [Hw' ->]. by rewrite app_assoc.
  - destruct Hr as [-> | [e ->]]; destruct Hok as (Hw1 & <-); by apply IH.
Qed.

Context {US : Type} {uso : Oneshot (result (Upgraded T) Error) US} {usl : OneshotLaws (result (Upgraded T) Error) US}.

(** What the two ends of an upgrade see. *)
Lemma fulfilled ch (u : Upgraded T) (s : US) x :
  chan s ch = Some x -> rx_alive x = true -> (on_upgrade_poll (mkOnUpgrade (Some ch)) (fulfill (mkPending ch) u s)).1 = RVal u.
Proof.
  intros Hx Hr. unfold on_upgrade_poll, fulfill, tx_is_closed, rx_poll. cbn.
  destruct (send_res s ch (Ok u) false x Hx) as [_ ->]. by rewrite Hr.
Qed.

Lemma refused ch (s : US) x :
  chan s ch = Some x -> rx_alive x = true -> (on_upgrade_poll (mkOnUpgrade (Some ch)) (manual (mkPending ch) s)).1 = RErr new_user_manual_upgrade.
Proof.
  intros Hx Hr. unfold on_upgrade_poll, manual, tx_is_closed, rx_poll. cbn.
  destruct (send_res s ch (Err new_user_manual_upgrade) false x Hx) as [_ ->]. by rewrite Hr.
Qed.
End Upgrades.

Section Handover.
Import Upgrade.
Context {BC : BytesCrate} {BCL : BytesCrateLaws} {AL : Alloc} {ALL : AllocLaws} `{HttpLaws} `{HttparseLaws}.
Context {T : Type} {HT : Transport T} {TL : TransportLaws T} {B : Type} {HB : Buf B} {HBL : BufLaws B}.
Context {Uri : Type} (uri_display : Uri -> bytes).
Context {FS : Type} {fm : FMpsc (result bytes Error) FS} {fml : FMpscLaws (result bytes Error) FS}.
Context {OS : Type} {os : Oneshot HeaderMap OS}.
Context {Bs : Type} {bd : Dispatcher.Body Bs B HeaderMap} {bdl : BodyLaws Bs B}.
Abbreviation UReq := (Role.MessageHead (Role.RequestLine (Uri := Uri)) * Bs)%type.
Abbreviation UResp := (Role.MessageHead StatusCode * Incoming.Incoming * option Z)%type.
Context {CS : Type} {cso : Oneshot (Dispatch.Answer UReq UResp) CS} {csl : OneshotLaws (Dispatch.Answer UReq UResp) CS}.
Context {M : Type} {mp : Mpsc (Dispatch.Envelope UReq) M} {mpl : MpscLaws (Dispatch.Envelope UReq) M} {G : Type} {wt : Want G}.
Abbreviation UCD := (Dispatcher.ClientD (CS := CS) (M := M) (G := G)).
Abbreviation UDispatcher := (Dispatcher.Dispatcher (T := T) (B := B) (FS := FS) (OS := OS) (Bs := Bs) (D := UCD)).
Context {US : Type} {uso : Oneshot (result (Upgrade.Upgraded T) Error) US} {usl : OneshotLaws (result (Upgrade.Upgraded T) Error) US}.
Context (req_left : UReq -> Z) (req_left_nonneg : forall r, 0 <= req_left r).
#[local] Instance handles_laws : DispatchLaws uri_display UCD := client_laws uri_display req_left req_left_nonneg.

Lemma steps_suffix c c' :
  conn_wf c -> rtc (conn_step (B := B) uri_display) c c' -> incoming (Conn.conn_io c') `suffix_of` incoming (Conn.conn_io c).
Proof.
  intros Hc Hr. revert Hc. induction Hr as [|c1 c2 c3 Hs _ IH]; intros Hc; [done|].
  transitivity (incoming (Conn.conn_io c2)); [|by apply (conn_step_suffix uri_display)]. apply IH. by apply (conn_step_ok uri_display c1).
Qed.

(** Any poll of a task keeps it in order and its requests in a reachable world. *)
Lemma poll_reach (d : UDispatcher) s started fuel :
  disp_wf uri_display d -> (poll_fuel uri_display d <= fuel)%nat -> d_reach (world_of s started (Dispatcher.dispatch d)) ->
  let d' := (Dispatcher.poll uri_display fuel d).2 in
  disp_wf uri_display d' /\ incoming (Conn.conn_io (Dispatcher.conn d')) `suffix_of` incoming (Conn.conn_io (Dispatcher.conn d)) /\
  exists st', d_reach (world_of s st' (Dispatcher.dispatch d')).
Proof.
  intros Hd Hf Hr. pose proof (poll_catch_returns uri_display fuel true d Hd Hf) as (_ & _ & Hg).
  split; [apply Hg|]. split; [apply steps_suffix; [apply Hd|apply Hg]|].
  destruct (client_steps_world s started _ _ (gd_dispatch _ _ _ Hg)) as [st' Hst]. exists st'. unfold d_reach in *. by etransitivity.
Qed.

(** C15. An upgrade hands the connection over without loss.  When the task of an
    upgradeable connection ends with an upgrade, having read the bytes [incoming d]
    that it had before up to [incoming d'], the poll does not panic and the caller that
    waits for the upgrade gets a transport: the one of the connection, with in front of
    it what the connection had read and not used.  These bytes are there at once, and
    what is read, in reads of any sizes, with whatever waits and errors between, is
    exactly [incoming d'] so far: nothing is lost, repeated or reordered, and an empty
    read means that all of it was read.  What is written goes to that transport.  Every
    other request on the connection has been answered. *)
Theorem upgrade_handed_over (d d' : UDispatcher) s started fuel tx (hs hs' : list nat) (us us' : US) ch x :
  disp_wf uri_display d -> (poll_fuel uri_display d <= fuel)%nat -> d_reach (world_of s started (Dispatcher.dispatch d)) ->
  Dispatcher.poll uri_display fuel d = (RVal (Dispatcher.Upgrade tx), d') ->
  Http1.make_handles (Z.to_nat (Dispatcher.upgrades d' - Dispatcher.upgrades d)) hs us = (hs', us') ->
  hs' !! Z.to_nat tx = Some ch -> chan us' ch = Some x -> rx_alive x = true ->
  let unused := incoming (Conn.conn_io (Dispatcher.conn d')) in
  exists c' (u : Upgrade.Upgraded T) sh (cs : CS),
    Http1.upgradeable_poll uri_display fuel (Http1.mkConnection (Http1.Running d) hs us) = (RVal tt, c') /\
    Http1.cn_task c' = Http1.Gone sh cs /\ (forall r, rx_poll r cs <> RxPending) /\
    (Upgrade.on_upgrade_poll (Http1.response_on hs' (Some tx)) (Http1.cn_store c')).1 = RVal u /\
    unused `suffix_of` incoming (Conn.conn_io (Dispatcher.conn d)) /\
    (forall n, read_buf (Conn.conn_io (Dispatcher.conn d')) <> [] ->
      (poll_read n u).1 = RVal (ztake n (read_buf (Conn.conn_io (Dispatcher.conn d'))))) /\
    (forall data u', reads u data u' -> (exists unread, unused = data ++ unread) /\
      forall n u'', 0 < n -> poll_read n u' = (RVal [], u'') -> unused = data) /\
    (forall b, (poll_write b u).1 = (poll_write b (io (Conn.conn_io (Dispatcher.conn d')))).1 /\
      Upgrade.rw_inner (Upgrade.up_io (poll_write b u).2) = (poll_write b (io (Conn.conn_io (Dispatcher.conn d')))).2).
Proof.
  intros Hd Hf Hr Ep Eh Ehs Hch Hrx. cbv zeta. destruct (poll_reach d s started fuel Hd Hf Hr) as (Hd' & Hsuf & st' & Hr').
  rewrite Ep in Hd', Hsuf, Hr'. cbn [snd] in Hd', Hsuf, Hr'.
  destruct (drop_inv false _ _ (d_reach_inv _ Hr') eq_refl) as (sh & cs & Ec & Hi). cbn in Ec.
  unfold Http1.upgradeable_poll, Http1.poll_dispatcher. cbn [Http1.cn_task Http1.cn_handles Http1.cn_store]. rewrite Ep, Eh. cbn. rewrite Ec.
  unfold Http1.pending_of. rewrite Ehs. cbn.
  eexists _, (Upgrade.upgraded_new (io (Conn.conn_io (Dispatcher.conn d'))) (read_buf (Conn.conn_io (Dispatcher.conn d')))), sh, cs.
  split; [done|]. split; [done|]. split; [|split; [|split; [|split; [|split]]]].
  - intros r Hp. apply (chans_ok_pending _ _ _ (di_chans _ Hi)) in Hp. destruct (di_gone _ Hi eq_refl) as [Hq _].
    unfold outstanding, held, queued in Hp. cbn in Hp, Hq. rewrite Hq in Hp. by apply elem_of_nil in Hp.
  - unfold Http1.response_on. cbn. rewrite Ehs. cbn. by eapply fulfilled.
  - exact Hsuf.
  - intros n Hne. cbn. unfold Upgrade.upgraded_on, Upgrade.rewind_poll_read. cbn. rewrite bool_decide_false by done. cbn.
    unfold ztake. do 3 f_equal. lia.
  - intros data u' Hrd. assert (tr_wf (Upgrade.up_io (Upgrade.upgraded_new (io (Conn.conn_io (Dispatcher.conn d'))) (read_buf (Conn.conn_io (Dispatcher.conn d')))))) as Hw.
    { cbn. destruct Hd' as [(_ & (Ht & _) & _) _ _ _ _ _]. exact Ht. }
    destruct (reads_ok _ _ _ Hrd Hw) as [Hw' E]. change (incoming (Conn.conn_io (Dispatcher.conn d')) = data ++ Upgrade.rewound (Upgrade.up_io u')) in E.
    split; [by eexists|]. intros n u'' Hn Ee. pose proof (upgraded_read_ok n u' Hw' Hn) as Hok. cbn [poll_read upgraded_transport rewind_transport] in Hok. rewrite Ee in Hok.
    destruct Hok as (_ & _ & Hz). by rewrite E, (Hz eq_refl), app_nil_r.
  - intros b. cbn. unfold Upgrade.upgraded_on, Upgrade.rewind_on. cbn. by destruct (poll_write b _).
Qed.
End Handover.

(** ** Promises *)

Section Both.
Context {T U CS : Type} {os : Oneshot (Dispatch.Answer T U) CS} {osl : OneshotLaws (Dispatch.Answer T U) CS}.
Context {M : Type} {mp : Mpsc (Dispatch.Envelope T) M} {mpl : MpscLaws (Dispatch.Envelope T) M} {G : Type} {wt : Want G} {wtl : WantLaws G}.
Import Dispatch SendRequest.

(** C16. A caller that waits gets an answer.  On an HTTP/1 connection, in every
    interleaving of callers and task: a request that is refused comes back to its
    caller at once, with an error that carries it; one that is accepted has a future
    that never panics while its caller keeps it, and is pending exactly while the
    request is queued or with the connection.  A handle that says it is ready
    refuses a request only if the connection is closed. *)
Theorem promises_kept (w : DWorld (CS := CS) (M := M) (G := G)) :
  d_reach w ->
  (forall ch x, chan (dw_chans w) ch = Some x -> rx_alive x = true ->
     let r := (send_future_poll (T := T) (U := U) (FSent ch) (dw_chans w)).1.1 in
     r <> RPanic /\ r <> RFuel /\ (r = RPending <-> ch ∈ outstanding w)) /\
  forall req, exists f s sh cs,
    h1_try_send_request req (dw_sender w) (dw_shared w) (dw_chans w) = Some (f, s, sh, cs) /\
    match f with
    | FSent ch => ch ∈ outstanding (mkDWorld s (dw_client w) sh cs (dw_started w))
    | FRefused r => r = req /\ (send_future_poll (U := U) f cs).1.1 = RErr (not_ready req) /\ tse_message (not_ready req) = Some req
    | FDone => False
    end /\
    (h1_is_ready (dw_shared w) = true -> mp_open (sh_inner (dw_shared w)) = true -> exists ch, f = FSent ch).
Proof.
  intros Hr. pose proof (d_reach_inv w Hr) as Hi. pose proof (di_chans w Hi) as Hc. split.
  { intros ch x Hx Ha. by apply (promise_poll _ (dw_started w) _ ch x). }
  intros req. unfold h1_try_send_request, try_send. destruct (can_send (dw_sender w) (sh_want (dw_shared w))) as [[ok s'] g] eqn:Ecs.
  assert (h1_is_ready (dw_shared w) = true -> ok = true) as Hready.
  { unfold h1_is_ready, is_ready_sender. intros Hw. unfold can_send in Ecs. destruct (give_wanting (sh_want (dw_shared w))) as (Eg & _).
    destruct (give (sh_want (dw_shared w))) as [b g']. cbn in Eg. rewrite Eg, Hw in Ecs. cbn in Ecs. congruence. }
  destruct ok; cbn [negb].
  - destruct (enqueue_ok req (sh_inner (dw_shared w)) _ _ _ Hc) as (r & m' & cs' & -> & Hcase). cbn [mbind option_bind].
    destruct Hcase as [(Ho & (ch & -> & _ & _ & Em) & _)|(Ho & -> & _ & _)]; eexists _, _, _, _; (split; [reflexivity|]); cbn.
    + split; [|by eexists]. rewrite outstanding_mk, Em, queued_app, app_assoc. apply elem_of_app. right. cbn. left.
    + split; [done|]. congruence.
  - cbn. eexists _, _, _, _. split; [reflexivity|]. cbn. split; [done|]. intros Hw. by specialize (Hready Hw).
Qed.
End Both.

Section H2Promises.
Context {HC : HttpCrate} {W B : Type} {hs : H2Streams W B HeaderMap} {pe : Ping.Peer W} {Bs : Type} {bd : Dispatcher.Body Bs B HeaderMap}.
Context {Hd : Type} {h2 : H2Client.H2Crate (W := W) (Hd := Hd)}.
Abbreviation HReq := (H2Client.Request (Bs := Bs) (Hd := Hd)).
Context {CS : Type} {os : Oneshot (Dispatch.Answer HReq H2Client.Response) CS} {osl : OneshotLaws (Dispatch.Answer HReq H2Client.Response) CS}.
Context {M : Type} {mp : Mpsc (Dispatch.Envelope HReq) M} {mpl : MpscLaws (Dispatch.Envelope HReq) M} {G : Type} {wt : Want G}.

(** The same for HTTP/2. *)
Theorem h2_promises_kept (w : H2World (W := W) (Bs := Bs) (CS := CS) (M := M) (G := G)) ch x :
  h_reach (B := B) w -> chan (H2Client.sy_chans (hw_sys w)) ch = Some x -> rx_alive x = true ->
  let r := (SendRequest.send_future_poll (T := HReq) (U := H2Client.Response) (SendRequest.FSent ch) (H2Client.sy_chans (hw_sys w))).1.1 in
  r <> RPanic /\ r <> RFuel.
Proof.
  intros Hr Hx Ha. pose proof (hi_sys w (h_reach_inv w Hr)) as Hs.
  destruct (promise_poll _ _ _ ch x (si_chans _ _ _ _ Hs) Hx Ha) as (? & ? & _). done.
Qed.

(** The task of an HTTP/2 connection never ends with an upgrade, so [unreachable!]
    is not reached: a poll panics only if the task does. *)
Lemma client_poll_no_upgrade fuel pf senders t (s : H2Client.H2Sys (W := W) (Bs := Bs) (CS := CS) (M := M) (G := G)) tx :
  (H2Client.client_poll (B := B) fuel pf senders t s).1.1 <> RVal (Dispatcher.Upgrade tx).
Proof.
  revert t s. induction fuel as [|fuel IH]; intros t s; [done|]. cbn [H2Client.client_poll]. repeat (case_match; try done; try apply IH).
Qed.

Lemma h2_connection_poll_panics fuel pf senders t (s : H2Client.H2Sys (W := W) (Bs := Bs) (CS := CS) (M := M) (G := G)) :
  (Http2.h2_connection_poll (B := B) fuel pf senders t s).1.1 = RPanic <-> (H2Client.client_poll (B := B) fuel pf senders t s).1.1 = RPanic.
Proof.
  unfold Http2.h2_connection_poll. pose proof (fun tx => client_poll_no_upgrade fuel pf senders t s tx) as Hn.
  destruct (H2Client.client_poll fuel pf senders t s) as [[[[|tx]| |e| |] t'] s']; cbn in *; try done. by destruct (Hn tx).
Qed.
End H2Promises.

(** ** Configurations *)

Section Http1Config.
Context {BC : BytesCrate} {BCL : BytesCrateLaws} {AL : Alloc} {ALL : AllocLaws} `{HttpLaws} `{HttparseLaws} {HS : Http1.HpSettings}.
Context {T : Type} {HT : Transport T} {TL : TransportLaws T} {B : Type} {HB : Buf B} {HBL : BufLaws B}.
Context {Uri : Type} (uri_display : Uri -> bytes).
Context {FS : Type} {fm : FMpsc (result bytes Error) FS} {fml : FMpscLaws (result bytes Error) FS}.
Context {OS : Type} {os : Oneshot HeaderMap OS}.
Context {Bs : Type} {bd : Dispatcher.Body Bs B HeaderMap} {bdl : BodyLaws Bs B}.
Abbreviation KReq := (Role.MessageHead (Role.RequestLine (Uri := Uri)) * Bs)%type.
Abbreviation KResp := (Role.MessageHead StatusCode * Incoming.Incoming * option Z)%type.
Context {CS : Type} {cso : Oneshot (Dispatch.Answer KReq KResp) CS} {csl : OneshotLaws (Dispatch.Answer KReq KResp) CS}.
Context {M : Type} {mp : Mpsc (Dispatch.Envelope KReq) M} {mpl : MpscLaws (Dispatch.Envelope KReq) M} {G : Type} {wt : Want G}.
Context (req_left : KReq -> Z) (req_left_nonneg : forall r, 0 <= req_left r).
#[local] Instance config_laws : DispatchLaws uri_display (Dispatcher.ClientD (CS := CS) (M := M) (G := G)) := client_laws uri_display req_left req_left_nonneg.
Import Http1.

(** One call of a method of the builder; a panic ends the building. *)
Inductive config_step (c : Http1Config) : Http1Config -> Prop :=
| cfg_09 x : config_step c (http09_responses x c)
| cfg_writev x : config_step c (writev x c)
| cfg_title x : config_step c (title_case_headers x c)
| cfg_case x : config_step c (preserve_header_case x c)
| cfg_max_headers n : config_step c (max_headers n c)
| cfg_exact sz : config_step c (read_buf_exact_size sz c)
| cfg_max_buf n c' : max_buf_size n c = Some c' -> config_step c c'
| cfg_parser f : config_step c (on_parser f c).

Definition config_ok (c : Http1Config) : Prop :=
  (h1_read_buf_exact_size c = None \/ h1_max_buf_size c = None) /\ forall n, h1_max_buf_size c = Some n -> MINIMUM_MAX_BUFFER_SIZE <= n.

Lemma config_step_ok c c' : config_step c c' -> config_ok c -> config_ok c'.
Proof.
  intros Hs [Hx Hm]. destruct Hs as [x|x|x|x|n|sz|n c' E|f]; try done.
  - split; [by right|done].
  - unfold max_buf_size in E. destruct (Z.leb_spec MINIMUM_MAX_BUFFER_SIZE n); [|done]. injection E as <-. split; [by left|]. by intros ? [= <-].
Qed.

(** A connection on [t] that was not used yet. *)
Record unused (t : T) (c : Conn.Conn (T := T) (B := B)) : Prop := {
  un_wf : conn_wf c;
  un_input : incoming (Conn.conn_io c) = input t;
  un_bufs : bufs (queue (write_buf (Conn.conn_io c))) = [];
  un_flush : flush_pipeline (Conn.conn_io c) = false /\ 0 < WriteBuf.max_buf_size (write_buf (Conn.conn_io c));
  un_foot : foot (write_buf (Conn.conn_io c)) = 0;
  un_writing : Conn.writing (Conn.state c) = Conn.WInit
}.

Lemma unused_new t : tr_wf t -> unused t (Conn.conn_new t).
Proof. intros Ht. split; try done. by apply conn_new_wf. Qed.

Lemma unused_strategy t c strat : unused t c -> unused t (Conn.with_io (fun b => set_write_buf (set_strategy strat (write_buf b)) b) c).
Proof.
  intros [Hw Hi Hb Hf Hfo Hwr]. split; try done. destruct Hw as (Hs & Hr & (Hh & Hq & Hl & _) & Hsc). split; [done|]. split; [done|]. split; [|done].
  by split_and!.
Qed.

Lemma unused_max t c max : MINIMUM_MAX_BUFFER_SIZE <= max -> unused t c ->
  exists c', Conn.conn_set_max_buf_size max c = Some c' /\ unused t c' /\ Conn.state c' = Conn.state c /\ strategy_max (read_buf_strategy (Conn.conn_io c')) = max.
Proof.
  intros Hm [Hw Hi Hb Hf Hfo Hwr]. unfold Conn.conn_set_max_buf_size, buffered_set_max_buf_size. rewrite (proj2 (Z.leb_le _ _) Hm). cbn.
  eexists. split; [done|]. split; [|done]. split; try done. split; [apply Hf|]. cbn. unfold MINIMUM_MAX_BUFFER_SIZE, INIT_BUFFER_SIZE in Hm. lia.
Qed.

(** The settings of a configuration, all but the last. *)
Lemma configure_ok opts t c :
  config_ok opts -> unused t c -> Conn.title_case_headers (Conn.state c) = false -> Conn.h1_max_headers (Conn.state c) = None ->
  strategy_max (read_buf_strategy (Conn.conn_io c)) = DEFAULT_MAX_BUFFER_SIZE ->
  exists c', configure opts c = Some c' /\ unused t c' /\
    Conn.title_case_headers (Conn.state c') = h1_title_case_headers opts /\ Conn.h1_max_headers (Conn.state c') = h1_max_headers opts /\
    strategy_max (read_buf_strategy (Conn.conn_io c')) =
      match h1_max_buf_size opts, h1_read_buf_exact_size opts with
      | Some max, _ => max | None, Some sz => sz | None, None => DEFAULT_MAX_BUFFER_SIZE end.
Proof.
  intros [_ Hm] Hu Htc Hmh Hst. destruct opts as [o9 pc wv tc ph mh ex mb]. unfold configure. cbn in *.
  set (c1 := Conn.conn_set_h1_parser_config pc c).
  set (c2 := match wv with Some true => _ | Some false => _ | None => c1 end).
  assert (unused t c2 /\ Conn.state c2 = Conn.state c1 /\ read_buf_strategy (Conn.conn_io c2) = read_buf_strategy (Conn.conn_io c)) as (Hu2 & Es2 & Er2).
  { assert (unused t c1) as Hu1 by (destruct Hu as [? ? ? ? ? ?]; by split). subst c2. destruct wv as [[]|]; [..|done]; (split; [by apply unused_strategy|done]). }
  set (c3 := if tc then _ else c2).
  set (c4 := if ph then _ else c3). set (c5 := match mh with Some n => _ | None => c4 end). set (c6 := if o9 then _ else c5).
  assert (unused t c6 /\ Conn.title_case_headers (Conn.state c6) = tc /\ Conn.h1_max_headers (Conn.state c6) = mh /\
    read_buf_strategy (Conn.conn_io c6) = read_buf_strategy (Conn.conn_io c)) as (Hu6 & Et6 & Em6 & Er6).
  { subst c6 c5 c4 c3. destruct Hu2 as [? ? ? ? ? ?]. destruct tc, ph, mh, o9; cbn in *; rewrite ?Es2; (split; [by split|done]). }
  set (c7 := match ex with Some sz => _ | None => c6 end).
  assert (unused t c7 /\ Conn.state c7 = Conn.state c6 /\
    strategy_max (read_buf_strategy (Conn.conn_io c7)) = match ex with Some sz => sz | None => DEFAULT_MAX_BUFFER_SIZE end) as (Hu7 & Es7 & Er7).
  { subst c7. destruct Hu6 as [? ? ? ? ? ?]. destruct ex; cbn; [done|]. by rewrite Er6. }
  destruct mb as [max|].
  - destruct (unused_max t c7 max (Hm max eq_refl) Hu7) as (c8 & -> & Hu8 & Es8 & Er8). exists c8. rewrite Es8, Es7. done.
  - exists c7. rewrite Es7. done.
Qed.

(** A configuration from the builder never makes the handshake panic: it gives a
    connection with its settings in the state that a poll needs, and a sender whose
    channel is new. *)
Theorem handshake_ready opts (t : T) s n :
  rtc config_step http1_config_default opts -> tr_wf t -> bodies_ok s ->
  exists tx d, handshake (B := B) (Bs := Bs) (G := G) opts t chans_none s n = Some (tx, d) /\ disp_wf uri_display d /\
    d_reach (world_of tx [] (Dispatcher.dispatch d)) /\
    incoming (Conn.conn_io (Dispatcher.conn d)) = input t /\
    Conn.title_case_headers (Conn.state (Dispatcher.conn d)) = h1_title_case_headers opts /\
    Conn.h1_max_headers (Conn.state (Dispatcher.conn d)) = h1_max_headers opts /\
    strategy_max (read_buf_strategy (Conn.conn_io (Dispatcher.conn d))) =
      match h1_max_buf_size opts, h1_read_buf_exact_size opts with
      | Some max, _ => max
      | None, Some sz => sz
      | None, None => DEFAULT_MAX_BUFFER_SIZE
      end.
Proof.
  intros Hr Ht Hs. assert (config_ok opts) as Hok.
  { assert (config_ok http1_config_default) as Hd by (split; [by left|done]). induction Hr as [|c1 c2 c3 Hst _ IH]; [done|]. by eapply IH, config_step_ok. }
  destruct (configure_ok opts t (Conn.conn_new t) Hok (unused_new t Ht) eq_refl eq_refl eq_refl) as (c & Ec & [Hw Hi Hb Hf Hfo Hwr] & Htc & Hmh & Hst).
  unfold handshake. cbn. rewrite Ec. cbn. eexists _, _. split; [done|]. split; [|split; [apply rtc_refl|done]].
  split; cbn; try done.
  - split; [done|]. cbn. rewrite new_queue. constructor.
  - unfold load. cbn. rewrite Hfo. unfold client_left, reserve, Conn.can_write_body. cbn. rewrite new_queue, Hwr. by apply Z.leb_le.
Qed.
End Http1Config.

(** ** A connection that is upgraded *)

Module RefHandles.
Import RefBytes RefAlloc RefHttp RefHttparse Pipe RefOneshot RefDispatch Dispatcher RefTask Role Conn.

Definition upgrade_request : Q := (mkHead HTTP_11 (mkRequestLine GET (bs "/")) hm_new (mkExtensions None None), []).
Definition upgrade_queue : Queue (Dispatch.Envelope Q) := mkQueue [Some (upgrade_request, Dispatch.Retry (Some 0%nat))] true.
Definition upgrade_side : ClientD (CS := Chans) (M := Queue (Dispatch.Envelope Q)) (G := WantState) :=
  mkClientD Dispatch.client_new (Dispatch.mkShared upgrade_queue WIdle) chans true.
Definition switching : pipe := mkPipe (bs "HTTP/1.1 101 S" ++ CRLF ++ CRLF ++ bs "abc") [] 2.
Definition upgrade_task := dispatcher_new (T := pipe) (B := bytes) (Bs := Pieces) upgrade_side (conn_new switching) store 0.
Abbreviation Upgrades := (gmap nat (Channel (result (Upgrade.Upgraded pipe) Error))).

Lemma upgrade_request_fits : request_fits (B := bytes) (bdl := ref_body_laws) show 1000 upgrade_request.
Proof.
  split; [by eexists|]. split; [exact I|]. exists 500. split; [done|]. split; [by apply Z.leb_le|].
  intros s title out e m. unfold enforce_version, fix_keep_alive, wants_keep_alive.
  destruct (version s), (keep_alive s), title; vm_compute; intros E; injection E as <- _ _; discriminate.
Qed.

#[local] Instance upgrade_laws : DispatchLaws (B := bytes) (bdl := ref_body_laws) show (ClientD (CS := Chans) (M := Queue (Dispatch.Envelope Q)) (G := WantState)) :=
  client_laws show room_for room_for_nonneg.

Lemma upgrade_task_wf : disp_wf show upgrade_task.
Proof.
  apply dispatcher_new_wf; [exact I| |done|by apply Z.leb_le].
  split; [done|]. constructor; [|constructor]. exists upgrade_request, 0%nat. split; [done|exact upgrade_request_fits].
Qed.

Lemma upgrade_reach : d_reach (world_of (Dispatch.mkSender true) [] upgrade_side).
Proof.
  apply rtc_once.
  exact (d_try_send d_init upgrade_request (Ok 0%nat) (Dispatch.mkSender true) (Dispatch.mkShared upgrade_queue WIdle) chans eq_refl).
Qed.

(** The task when the request was queued, and when the answer came. *)
Definition waiting := (Dispatcher.poll show 3000 upgrade_task).2.
Definition upgrading := (Dispatcher.poll show 3000 waiting).2.

Lemma waiting_wf : disp_wf show waiting /\ exists st, d_reach (world_of (Dispatch.mkSender true) st (dispatch waiting)).
Proof.
  assert ((poll_fuel show upgrade_task <= 3000)%nat) as Hf by (apply Nat.leb_le; vm_compute; reflexivity).
  destruct (poll_reach show room_for room_for_nonneg upgrade_task _ [] 3000 upgrade_task_wf Hf upgrade_reach) as (Hw & _ & Hr).
  split; [exact Hw|exact Hr].
Qed.

Lemma waiting_upgrades : Dispatcher.poll show 3000 waiting = (RVal (Dispatcher.Upgrade 0), upgrading).
Proof.
  transitivity ((Dispatcher.poll show 3000 waiting).1, upgrading); [apply surjective_pairing|].
  apply (f_equal (fun r => (r, upgrading))). vm_compute. reflexivity.
Qed.

Lemma upgrade_handed_over_witness :
  exists u, forall data u', reads u data u' -> exists unread, incoming (conn_io (Dispatcher.conn upgrading)) = data ++ unread.
Proof.
  destruct waiting_wf as [Hw [st Hr]].
  assert ((poll_fuel show waiting <= 3000)%nat) as Hf by (apply Nat.leb_le; vm_compute; reflexivity).
  assert (Http1.make_handles (T := pipe) (Z.to_nat (upgrades upgrading - upgrades waiting)) [] (∅ : Upgrades) = ([0%nat], {[0%nat := mkChannel true true None]})) as Eh
    by (vm_compute; reflexivity).
  assert (chan ({[0%nat := mkChannel true true None]} : Upgrades) 0%nat = Some (mkChannel true true None)) as Ec by (vm_compute; reflexivity).
  destruct (upgrade_handed_over show room_for room_for_nonneg waiting upgrading _ st 3000 0 [] _ (∅ : Upgrades) _ 0%nat _
    Hw Hf Hr waiting_upgrades Eh eq_refl Ec eq_refl) as (c' & u & sh & cs & _ & _ & _ & _ & _ & _ & Hd & _).
  exists u. intros data u' Hu. apply (Hd data u' Hu).
Defined.

Lemma promises_kept_witness : exists f s sh cs,
  SendRequest.h1_try_send_request (T := Q) (U := R) upgrade_request (Dispatch.mkSender true) (Dispatch.mkShared upgrade_queue WIdle) chans = Some (f, s, sh, cs).
Proof.
  destruct (proj2 (promises_kept (T := Q) (U := R) _ upgrade_reach) upgrade_request) as (f & s & sh & cs & E & _).
  exists f, s, sh, cs. exact E.
Defined.

Lemma handshake_ready_witness : exists tx d,
  Http1.handshake (B := bytes) (Bs := Pieces) (CS := Chans) (M := Queue (Dispatch.Envelope Q)) (G := WantState)
    (Http1.title_case_headers true Http1.http1_config_default) switching chans_none store 0 = Some (tx, d) /\
  title_case_headers (state (Dispatcher.conn d)) = true.
Proof.
  destruct (handshake_ready (B := bytes) (Bs := Pieces) (CS := Chans) (M := Queue (Dispatch.Envelope Q)) (G := WantState) show room_for room_for_nonneg
    (Http1.title_case_headers true Http1.http1_config_default) switching store 0 (rtc_once _ _ (cfg_title _ true)))
    as (tx & d & E & _ & _ & _ & Ht & _); [exact I|done|]. exists tx, d. split; [exact E|exact Ht].
Defined.
End RefHandles.
