(* ===== verification/TlsProps.v ===== *)
(** * Properties of the TLS settings and handshakes

    The connector that a builder makes verifies what it was told to verify, and so does
    every handshake that it starts; a session is offered again only by the connector
    that got it and to the authority that it is from; log files are shared by path. *)

From S2P Require Import Prelude Http ClientError SessionCache Multipart Tls.
From coqutil Require Import Datatypes.RecordSetters.
Import TriangleBracketNotations.

(** ** Paths of key logs *)

Module PathFacts.
Import KeyLog.

(** Where a path leads to from a directory, if no directory is a symbolic link: the
    names below the root. *)
Definition walk_step (dir : list bytes) (c : Component) : list bytes :=
  match c with
  | RootDir => []
  | CurDir => dir
  | ParentDir => take (pred (length dir)) dir
  | Normal c => dir ++ [c]
  end.
Definition walk (dir : list bytes) (p : Path) : list bytes := foldl walk_step dir p.

(** The path stays below the directory that it starts in. *)
Fixpoint stays (depth : nat) (p : Path) : bool :=
  match p with
  | [] => true
  | RootDir :: _ => true
  | CurDir :: p => stays depth p
  | Normal _ :: p => stays (S depth) p
  | ParentDir :: p => match depth with O => false | S d => stays d p end
  end.

Definition names (l : list bytes) : Path := Normal <$> l.

Lemma pop_names l : pop (names l) = names (take (pred (length l)) l).
Proof.
  destruct l as [|c l _] using rev_ind; [done|]. unfold pop, names. rewrite fmap_app. cbn [fmap list_fmap].
  rewrite reverse_snoc, reverse_involutive, length_app, Nat.add_comm. cbn. by rewrite take_app_length.
Qed.

Lemma pop_root l : pop (RootDir :: names l) = RootDir :: names (take (pred (length l)) l).
Proof.
  destruct l as [|c l _] using rev_ind; [done|]. unfold pop, names. rewrite fmap_app, app_comm_cons. cbn [fmap list_fmap].
  rewrite reverse_snoc, reverse_involutive, length_app, Nat.add_comm. cbn. by rewrite take_app_length.
Qed.

Lemma walk_root l dir : walk dir (RootDir :: names l) = l.
Proof. unfold walk. cbn. rewrite <- (app_nil_l l) at 2. generalize (@nil bytes). induction l as [|c l IH]; intros d; cbn; [by rewrite app_nil_r|]. rewrite IH. by rewrite <- app_assoc. Qed.
Lemma walk_names l dir : walk dir (names l) = dir ++ l.
Proof. revert dir. induction l as [|c l IH]; intros d; cbn; [by rewrite app_nil_r|]. unfold walk, names in IH. unfold walk. cbn. rewrite IH. by rewrite <- app_assoc. Qed.

(** From the root on: the names that are left. *)
Lemma normalize_root p l : exists l', foldl normalize_component (RootDir :: names l) p = RootDir :: names l' /\ l' = walk l p.
Proof.
  revert l. induction p as [|c p IH]; intros l; [by exists l|]. destruct c as [| | |c]; cbn [foldl normalize_component push walk].
  - apply (IH []).
  - apply IH.
  - rewrite pop_root. apply IH.
  - change ((RootDir :: names l) ++ [Normal c]) with (RootDir :: (names l ++ names [c])). unfold names at 1 2. rewrite <- fmap_app. apply IH.
Qed.

Lemma take_pred_app (dir l : list bytes) : l <> [] -> take (pred (length (dir ++ l))) (dir ++ l) = dir ++ take (pred (length l)) l.
Proof.
  destruct l as [|c l _] using rev_ind; [done|]. intros _. rewrite app_assoc, !length_app, !(Nat.add_comm _ (length [c])). cbn.
  by rewrite (take_app_length l), <- length_app, take_app_length.
Qed.

(** Below the directory of the start. *)
Lemma normalize_below p l dir : stays (length l) p = true ->
  walk dir (foldl normalize_component (names l) p) = walk (dir ++ l) p.
Proof.
  revert l. induction p as [|c p IH]; intros l Hs; [cbn; apply walk_names|]. destruct c as [| | |c]; cbn [foldl normalize_component push walk stays] in *.
  - destruct (normalize_root p []) as (l' & E & El'). change ([RootDir]) with (RootDir :: names []). rewrite E, walk_root. cbn. exact El'.
  - by apply IH.
  - destruct (length l) as [|d] eqn:El; [done|]. rewrite pop_names, IH.
    + unfold walk. cbn. rewrite take_pred_app; [done|]. by destruct l.
    + rewrite length_take, El. by replace (pred (S d) `min` S d)%nat with d by lia.
  - change (names l ++ [Normal c]) with (names l ++ names [c]). unfold names. rewrite <- fmap_app. fold (names (l ++ [c])). rewrite IH.
    + cbn. by rewrite app_assoc.
    + by rewrite length_app, Nat.add_comm.
Qed.

Section Shared.
Context {Handle F : Type} {KF : KeyLogFs Handle F}.

(** What other threads do in between: open logs, and change the file system. *)
Inductive log_step : gmap Path Handle * F -> gmap Path Handle * F -> Prop :=
| log_open path m f r m' f' : open_entry path m f = (r, m', f') -> log_step (m, f) (m', f')
| log_other m f f' : log_step (m, f) (m, f').

Lemma open_entry_keeps path m f r m' f' q (h : Handle) : open_entry path m f = (r, m', f') -> m !! q = Some h -> m' !! q = Some h.
Proof.
  unfold open_entry. intros E Hq. destruct (m !! path) as [h'|] eqn:Ep; [by injection E as <- <- <-|].
  destruct (handle_new path f) as [[h'|e] f1]; injection E as <- <- <-; [|done].
  rewrite lookup_insert_ne; [done|]. by intros ->; rewrite Hq in Ep.
Qed.

(** A log is opened once for all the ways to spell its path, whatever other threads
    open in between; the path that is opened is the one that was named, if the name
    does not climb above the directory that it starts in. *)
Theorem key_log_shared p p2 m f (h : Handle) m1 f1 w :
  open_handle (File p) m f = (Ok h, m1, f1) -> rtc log_step (m1, f1) w -> normalize_path p2 = normalize_path p ->
  open_handle (File p2) w.1 w.2 = (Ok h, w.1, w.2) /\ forall dir, stays 0 p2 = true -> walk dir (normalize_path p2) = walk dir p2.
Proof.
  intros E Hr En. split; [|intros dir Hs; exact (normalize_below p2 [] dir Hs) || (pose proof (normalize_below p2 [] dir Hs) as Hb; by rewrite app_nil_r in Hb)].
  assert (m1 !! normalize_path p = Some h) as Hm.
  { unfold open_handle, open_entry in E. cbn in E. destruct (m !! normalize_path p) as [h'|] eqn:Em; [by injection E as -> <- <-|].
    destruct (handle_new (normalize_path p) f) as [[h'|e] f']; [|done]. injection E as -> <- <-. by rewrite lookup_insert_eq. }
  unfold open_handle. cbn. rewrite En.
  assert (w.1 !! normalize_path p = Some h) as ->; [|done].
  revert Hm. remember (m1, f1) as w1 eqn:Ew1. change m1 with (m1, f1).1. rewrite <- Ew1. clear E Ew1 m1 f1.
  induction Hr as [|x y z Hs _ IH]; [done|]. intros Hm. apply IH. destruct Hs as [path m' f' r m2 f2 Eo|]; cbn in *; [by eapply open_entry_keeps|done].
Qed.

(** A relative path that climbs is opened elsewhere: "../keys" is taken for "keys". *)
Lemma climbing_path_moved : walk [bs "home"; bs "me"] (normalize_path [ParentDir; Normal (bs "keys")]) <> walk [bs "home"; bs "me"] [ParentDir; Normal (bs "keys")].
Proof. vm_compute. discriminate. Qed.
End Shared.
End PathFacts.

(** ** Stores *)

Section Stores.
Context {BT : Tls.BoringTypes} {BO : Tls.Boring} {Url : Type}.
Import Tls.

(** What a list of certificates for pinning becomes: the ones that do not parse are
    left out without an error, so that a list in which none parses gives the empty
    store. *)
Lemma unparsed_pins_dropped (certs : list CertificateInput) b :
  Forall (fun i => exists e, with_parser (Url := Url) from_der i = Err e) certs -> store_new = Ok b ->
  from_der_certs (Url := Url) certs = Ok (store_build b).
Proof.
  intros Hf Hn. unfold from_der_certs, parse_certs_from_iter. rewrite Hn. cbn.
  assert (filter_map_certs certs (from_der (Url := Url)) = []) as ->; [|done].
  induction Hf as [|i l [e He] _ IH]; [done|]. unfold filter_map_certs in *. cbn. by rewrite He.
Qed.
End Stores.

(** ** Connectors *)

Section Connectors.
Context {BT : Tls.BoringTypes} {BO : Tls.Boring} {Url : Type}.
Context {L : Type} {LS : LinkedSet Tls.SslSession L} {LL : LinkedSetLaws Tls.SslSession L Tls.session_id}.
Context {F : Type} {KF : KeyLog.KeyLogFs Tls.KeyLogHandle F}.
Import Tls.
Abbreviation World := (TlsWorld (L := L) (F := F)).

(** The calls that decide whom a connector trusts, who it says it is and which
    versions and protocols it speaks. *)
Definition decides (c : SslCall) : bool :=
  match c with
  | SetCertStore _ | SetDefaultVerifyPaths | SetVerify _ | SetCertificate _ | SetPrivateKey _ | AddExtraChainCert _
  | SetAlpnProtos _ | SetMinProtoVersion _ | SetMaxProtoVersion _ => true
  | _ => false
  end.
Definition trust_calls (s : option X509Store) : SslCall := match s with Some s => SetCertStore s | None => SetDefaultVerifyPaths end.
Definition identity_calls (i : option Identity) : list SslCall :=
  match i with Some i => [SetCertificate (id_cert i); SetPrivateKey (id_pkey i)] ++ (AddExtraChainCert <$> id_chain i) | None => [] end.
Definition decided (t : TlsConnectorBuilder) : list SslCall :=
  [trust_calls (tb_cert_store t); SetVerify (tb_cert_verification t)] ++ identity_calls (tb_identity t) ++
  [SetAlpnProtos (alpn_bytes (alpn_protos (tb_config t))); SetMinProtoVersion (min_tls_version (tb_config t)); SetMaxProtoVersion (max_tls_version (tb_config t))].
Definition deciding (l : list SslCall) : list SslCall := filter (fun c => decides c = true) l.

Lemma try_ok {A B E} (m : result A E) (k : A -> result B E) b : try_bind m k = Ok b -> exists a, m = Ok a /\ k a = Ok b.
Proof. destruct m as [a|e]; [by exists a|done]. Qed.

Lemma ssl_call_ok c b b' : ssl_call (Url := Url) c b = Ok b' -> b' = b ++ [c].
Proof. unfold ssl_call. destruct (ssl_refuses b c); congruence. Qed.

Lemma ssl_calls_ok l b b' : ssl_calls (Url := Url) l b = Ok b' -> b' = b ++ l.
Proof.
  unfold ssl_calls. revert b. induction l as [|c l IH]; intros b; cbn; [intros [= <-]; by rewrite app_nil_r|].
  destruct (ssl_call c b) as [b1|e] eqn:E.
  - apply ssl_call_ok in E as ->. intros Hb. apply IH in Hb as ->. by rewrite <- app_assoc.
  - intros Hb. exfalso. clear -Hb. induction l; cbn in *; [done|auto].
Qed.

Lemma call_opt_ok {A} (o : option A) f b b' : (forall a, decides (f a) = false) -> call_opt (Url := Url) o f b = Ok b' -> deciding b' = deciding b.
Proof.
  intros Hf. destruct o as [a|]; cbn; [|congruence]. intros ->%ssl_call_ok. unfold deciding. rewrite filter_app. cbn.
  rewrite decide_False by (by rewrite Hf). apply app_nil_r.
Qed.
Lemma call_if_ok cond c b : decides c = false -> deciding (call_if cond c b) = deciding b.
Proof. intros Hc. destruct cond; [|done]. unfold deciding. cbn. rewrite filter_app. cbn. rewrite decide_False by (by rewrite Hc). apply app_nil_r. Qed.
Lemma call_some_ok {A} (o : option A) f b : (forall a, decides (f a) = false) -> deciding (call_some o f b) = deciding b.
Proof. intros Hf. destruct o as [a|]; [|done]. unfold deciding. cbn. rewrite filter_app. cbn. rewrite decide_False by (by rewrite Hf). apply app_nil_r. Qed.

Lemma deciding_all l : Forall (fun c => decides c = true) l -> deciding l = l.
Proof. unfold deciding. induction 1 as [|c l Hc _ IH]; [done|]. by rewrite filter_cons_True, IH. Qed.
Lemma decided_all t : Forall (fun c => decides c = true) (decided t).
Proof.
  unfold decided. apply Forall_app. split; [repeat constructor; by destruct (tb_cert_store t)|]. apply Forall_app. split; [|repeat constructor].
  destruct (tb_identity t) as [i|]; [|constructor]. cbn. repeat constructor. by apply Forall_fmap, Forall_true.
Qed.

Lemma ext_identity_ok i b b' : ext_identity (Url := Url) i b = Ok b' -> b' = b ++ identity_calls i.
Proof.
  destruct i as [i|]; cbn; [|intros [= <-]; by rewrite app_nil_r]. unfold add_to_tls. intros Hb.
  apply try_ok in Hb as (b1 & ->%ssl_call_ok & Hb). apply try_ok in Hb as (b2 & ->%ssl_call_ok & ->%ssl_calls_ok).
  by rewrite <- !app_assoc.
Qed.

Lemma algs_undecided l : deciding (AddCertCompressionAlg <$> l) = [].
Proof. unfold deciding. induction l as [|a l IH]; [done|]. by rewrite fmap_cons, filter_cons_False. Qed.

Lemma build_ssl_decided t b : build_ssl (Url := Url) t = Ok b -> deciding b = decided t.
Proof.
  unfold build_ssl. intros Hb. apply try_ok in Hb as (b0 & H0 & Hb). assert (b0 = []) as -> by (destruct no_default_verify_builder; congruence). clear H0.
  apply try_ok in Hb as (b1 & H1 & Hb). assert (b1 = [trust_calls (tb_cert_store t)]) as ->.
  { unfold ext_cert_store in H1. destruct (tb_cert_store t); cbn in *; [congruence|]. by apply ssl_call_ok in H1. }
  apply try_ok in Hb as (b2 & [= <-] & Hb). apply try_ok in Hb as (b3 & ->%ext_identity_ok & Hb).
  apply try_ok in Hb as (b4 & ->%ssl_call_ok & Hb). apply try_ok in Hb as (b5 & ->%ssl_call_ok & Hb). apply try_ok in Hb as (b6 & ->%ssl_call_ok & Hb).
  match type of Hb with context [call_if _ EnableOcspStapling ?b] => replace b with (decided t) in Hb by (unfold decided; by rewrite <- !app_assoc) end.
  cbv zeta in Hb. apply try_ok in Hb as (b7 & H7 & Hb). apply call_opt_ok in H7; [|done]. rewrite !call_some_ok, !call_if_ok in H7 by done.
  apply try_ok in Hb as (b8 & H8 & Hb). apply call_opt_ok in H8; [|done]. apply try_ok in Hb as (b9 & H9 & Hb). apply call_opt_ok in H9; [|done].
  apply try_ok in Hb as (b10 & H10 & Hb). apply call_opt_ok in H10; [|done]. apply try_ok in Hb as (b11 & H11 & Hb). apply ssl_calls_ok in H11.
  apply try_ok in Hb as (b12 & H12 & [= <-]). apply call_opt_ok in H12; [|done]. rewrite !call_some_ok in * by done.
  rewrite H12, H11. unfold deciding at 1. rewrite filter_app. fold (deciding b10). rewrite H10, H9, H8, H7, (deciding_all _ (decided_all t)).
  fold (deciding (AddCertCompressionAlg <$> default [] (cert_compression_algorithm (tb_config t)))). rewrite algs_undecided. apply app_nil_r.
Qed.

(** What [build] makes. *)
Lemma build_tls_spec t (w w' : World) c : build_tls (Url := Url) t w = (Ok c, w') ->
  deciding (ti_ssl c) = decided t /\ ti_callback c = build_settings t /\ ti_skip_session_ticket c = psk_skip_session_ticket (tb_config t) /\
  match ti_cache c with
  | Some i => tw_caches w !! i = None /\ tw_caches w' = <[i := SessionCache.with_capacity 8]> (tw_caches w)
  | None => tw_caches w' = tw_caches w
  end.
Proof.
  unfold build_tls. intros E. destruct (build_ssl t) as [b|] eqn:Eb; [|done]. apply build_ssl_decided in Eb.
  assert (forall (w0 w1 : World) b' c', deciding b' = decided t -> tw_caches w0 = tw_caches w -> with_connector_and_settings b' (build_settings t) w0 = (c', w1) ->
    deciding (ti_ssl c') = decided t /\ ti_callback c' = build_settings t /\ ti_skip_session_ticket c' = psk_skip_session_ticket (tb_config t) /\
    match ti_cache c' with
    | Some i => tw_caches w !! i = None /\ tw_caches w1 = <[i := SessionCache.with_capacity 8]> (tw_caches w)
    | None => tw_caches w1 = tw_caches w
    end) as Hw.
  { intros [caches kl fs rn] w1 b' c' Hb Hc Ew. cbn in Hc. subst caches. unfold with_connector_and_settings in Ew. destruct (hs_session_cache (build_settings t)); injection Ew as <- <-; cbn.
    - split; [unfold deciding; rewrite filter_app; fold (deciding b'); rewrite Hb; apply app_nil_r|]. split; [reflexivity|]. split; [reflexivity|]. split; [|reflexivity].
      apply not_elem_of_dom, is_fresh.
    - done. }
  destruct (tb_keylog_policy t) as [policy|].
  - destruct (KeyLog.open_handle policy (tw_keylog w) (tw_fs w)) as [[[h|e] m] f]; [|done].
    destruct (with_connector_and_settings (b ++ [SetKeylogCallback h]) (build_settings t) _) as [c' w1] eqn:Ew. injection E as <- <-.
    eapply Hw; [|..|exact Ew]; [|done]. unfold deciding. rewrite filter_app. fold (deciding b). rewrite Eb. apply app_nil_r.
  - destruct (with_connector_and_settings b (build_settings t) w) as [c' w1] eqn:Ew. injection E as <- <-. by eapply Hw.
Qed.

(** *** Handshakes *)

Definition checks (c : ConfCall) : bool := match c with UseServerNameIndication _ | VerifyHostname _ | IntoSsl _ => true | _ => false end.
Definition checking (l : list ConfCall) : list ConfCall := filter (fun c => checks c = true) l.

Lemma conf_call_ok ssl c l l' : conf_call ssl c l = Ok l' -> l' = l ++ [c].
Proof. unfold conf_call. destruct (conf_refuses ssl l c); congruence. Qed.

(** The calls of a handshake, in three parts. *)
Lemma inner_connect_calls t alpn authority host (w w' : World) l : inner_connect t alpn authority host w = (Ok l, w') ->
  exists quiet offered last s,
    l = [UseServerNameIndication (hs_tls_sni (ti_callback t)); VerifyHostname (hs_verify_hostname (ti_callback t))] ++ quiet ++ offered ++
        (SetExData <$> option_list authority) ++ [IntoSsl host] ++ last /\
    Forall (fun c => exists b, c = EnableEchGrease b \/ c = ConfAesHwOverride b \/ c = AlpsUseNewCodepoint b \/ exists a, c = AddApplicationSettings a) quiet /\
    (offered = [] /\ s = None \/ exists x, s = Some x /\ (offered = [SetSession x] \/ offered = [SetSession x; ConfNoTicket])) /\
    last = (SslAlpnProtos <$> option_list (alpn_bytes <$> alpn)) /\
    exists rng, match authority with
    | Some key => cached_session t key (w <| tw_random := rng |>) = (s, w')
    | None => s = None /\ w' = w <| tw_random := rng |>
    end.
Proof.
  unfold inner_connect. destruct (configure_refuses (ti_ssl t)); [done|]. unfold handshake_callback.
  set (base := [] ++ [_; _; _]).
  destruct (if hs_random_aes_hw_override (ti_callback t) then _ else _) as [l1 rng] eqn:El1.
  assert (exists q, l1 = base ++ q /\ Forall (fun c => exists b, c = ConfAesHwOverride b) q) as (q1 & -> & Hq1).
  { destruct (hs_random_aes_hw_override (ti_callback t)); [|injection El1 as <- _; exists []; by rewrite app_nil_r].
    destruct (fast_random (tw_random w)) as [r x]. injection El1 as <- _. eexists. split; [done|]. repeat constructor. by eexists. }
  destruct (conf_alps _ _ _ _) as [l2|e] eqn:El2; [|done].
  assert (exists q, l2 = base ++ q1 ++ q /\ Forall (fun c => exists b, c = AlpsUseNewCodepoint b \/ exists a, c = AddApplicationSettings a) q) as (q2 & -> & Hq2).
  { unfold conf_alps in El2. destruct (hs_alps_protos (ti_callback t)) as [a|]; [|injection El2 as <-; exists []; by rewrite app_nil_r].
    apply try_ok in El2 as (l3 & ->%conf_call_ok & E). injection E as <-. destruct (hs_alps_use_new_codepoint (ti_callback t)); rewrite <- ?app_assoc; eexists; (split; [done|]).
    - repeat constructor; exists true; [right; by eexists|by left].
    - repeat constructor. exists true. right. by eexists. }
  set (w1 := w <| tw_random := rng |>).
  destruct (match authority with Some key => cached_session t key w1 | None => (None, w1) end) as [s w2] eqn:Es.
  intros E. injection E as E ->. apply try_ok in E as (l3 & E3 & E). apply try_ok in E as (l4 & E4 & E). apply try_ok in E as (l5 & ->%conf_call_ok & E).
  assert (exists off, l3 = (base ++ q1 ++ q2) ++ off /\ (off = [] /\ s = None \/ exists x, s = Some x /\ (off = [SetSession x] \/ off = [SetSession x; ConfNoTicket]))) as (off & -> & Hoff).
  { unfold offer_session in E3. destruct s as [x|]; [|injection E3 as <-; exists []; rewrite app_nil_r; split; [done|by left]].
    apply try_ok in E3 as (l6 & ->%conf_call_ok & E3). destruct (ti_skip_session_ticket t).
    - apply conf_call_ok in E3 as ->. eexists. rewrite <- app_assoc. split; [done|]. right. exists x. split; [done|by right].
    - injection E3 as <-. eexists. split; [done|]. right. exists x. split; [done|by left]. }
  assert (l4 = ((base ++ q1 ++ q2) ++ off) ++ (SetExData <$> option_list authority)) as ->.
  { destruct authority as [key|]; cbn; [destruct ex_index; [done|]|]; injection E4 as <-; [done|by rewrite app_nil_r]. }
  assert (l = ((((base ++ q1 ++ q2) ++ off) ++ (SetExData <$> option_list authority)) ++ [IntoSsl host]) ++ (SslAlpnProtos <$> option_list (alpn_bytes <$> alpn))) as ->.
  { destruct alpn as [p|]; cbn; [by apply conf_call_ok in E|]. injection E as <-. by rewrite app_nil_r. }
  exists ([EnableEchGrease (hs_enable_ech_grease (ti_callback t))] ++ q1 ++ q2), off, (SslAlpnProtos <$> option_list (alpn_bytes <$> alpn)), s.
  split; [subst base; by rewrite <- !app_assoc|]. split; [|split; [done|split; [done|]]].
  - apply Forall_app. split; [repeat constructor; eexists; by left|]. apply Forall_app.
    split; [apply (Forall_impl _ _ _ Hq1)|apply (Forall_impl _ _ _ Hq2)]; intros c; cbn; [intros [b ->]; exists b; auto|intros (b & [->|Ha]); exists b; auto].
  - exists rng. destruct authority as [key|]; [done|]. by injection Es as <- <-.
Qed.

Lemma checking_quiet q : Forall (fun c => checks c = false) q -> checking q = [].
Proof. unfold checking. induction 1 as [|c q Hc _ IH]; [done|]. by rewrite filter_cons_False by (by rewrite Hc). Qed.

(** What a handshake checks, and the key that its sessions get. *)
Lemma inner_connect_checks t alpn authority host (w w' : World) l : inner_connect t alpn authority host w = (Ok l, w') ->
  checking l = [UseServerNameIndication (hs_tls_sni (ti_callback t)); VerifyHostname (hs_verify_hostname (ti_callback t)); IntoSsl host] /\
  handshake_key l = authority.
Proof.
  intros (quiet & offered & last & s & -> & Hq & Ho & -> & _)%inner_connect_calls.
  assert (Forall (fun c => checks c = false /\ forall k, c <> SetExData k) quiet) as Hq'.
  { apply (Forall_impl _ _ _ Hq). intros c (b & [->|[->|[->|[a ->]]]]); done. }
  assert (Forall (fun c => checks c = false /\ forall k, c <> SetExData k) offered) as Ho'.
  { destruct Ho as [[-> _]|(x & _ & [->| ->])]; repeat constructor; done. }
  split.
  - unfold checking. rewrite !filter_app. fold (checking quiet) (checking offered).
    rewrite (checking_quiet quiet), (checking_quiet offered); [|apply (Forall_impl _ _ _ Ho'); naive_solver|apply (Forall_impl _ _ _ Hq'); naive_solver].
    by destruct authority, alpn.
  - assert (forall q k, Forall (fun c => checks c = false /\ forall k, c <> SetExData k) q ->
      foldl (fun k c => match c with SetExData key => Some key | _ => k end) k q = k) as Hfold.
    { intros q k Hf. revert k. induction Hf as [|c q [_ Hc] _ IH]; intros k; [done|]. cbn. rewrite IH. destruct c; try done. by destruct (Hc key). }
    unfold handshake_key. rewrite !foldl_app. rewrite (Hfold offered), (Hfold quiet) by done. by destruct authority, alpn.
Qed.

(** TLS as configured.  If a builder makes a connector, the calls that decide
    whom it trusts, whether it verifies, who it says it is and which versions and
    protocols it speaks are exactly those of the builder's settings, each once; and
    every handshake of the connector, to any host at any time, sends the server name
    and checks the host name as the settings say, for the host that was asked for. *)
Theorem tls_as_configured t (w w1 : World) c :
  build_tls (Url := Url) t w = (Ok c, w1) ->
  deciding (ti_ssl c) = decided t /\
  forall alpn authority host (w2 w3 : World) l, inner_connect c alpn authority host w2 = (Ok l, w3) ->
    checking l = [UseServerNameIndication (tb_tls_sni t); VerifyHostname (tb_verify_hostname t); IntoSsl host].
Proof.
  intros (Hd & Hs & _)%build_tls_spec. split; [done|]. intros alpn authority host w2 w3 l Hc. apply inner_connect_checks in Hc as [-> _]. by rewrite Hs.
Qed.

(** *** Sessions *)

Abbreviation CacheT := (SessionCache.SessionCache (L := L) (Key := bytes)).
Abbreviation cholds := (SessionCache.holds (L := L) (Key := bytes) session_id).

Lemma get_held (key : bytes) (c : CacheT) s : (SessionCache.get session_id is_tls13 key c).1 = Some s -> cholds c key (session_id s).
Proof.
  unfold SessionCache.get. destruct (SessionCache.sessions c !! key) as [l|] eqn:El; [|done]. destruct (ls_front l) as [x|] eqn:Ef; [|done]. intros [= ->].
  exists l. split; [done|]. unfold SessionCache.ids. rewrite ls_front_list in Ef. destruct (ls_list l); [done|]. injection Ef as ->. left.
Qed.

Lemma get_shrinks (key : bytes) (c : CacheT) k i : cholds (SessionCache.get session_id is_tls13 key c).2 k i -> cholds c k i.
Proof.
  unfold SessionCache.get. destruct (SessionCache.sessions c !! key) as [l|]; [|done]. destruct (ls_front l) as [x|]; [|done]. cbn.
  destruct (is_tls13 x); [|done]. unfold SessionCache.remove. destruct (SessionCache.reverse c !! session_id x) as [k0|]; [|done].
  destruct (SessionCache.sessions c !! k0) as [l0|] eqn:E0; [|done]. intros (l1 & E1 & Hi). cbn in E1.
  destruct (ls_is_empty (ls_remove (session_id x) l0)).
  - apply lookup_delete_Some in E1 as [_ E1]. by exists l1.
  - apply lookup_insert_Some in E1 as [[<- <-]|[_ E1]]; [|by exists l1]. exists l0. split; [done|]. apply (SessionCache.ids_remove session_id is_tls13) in Hi as [_ Hi]. exact Hi.
Qed.

Lemma insert_held (key : bytes) (s : SslSession) (c : CacheT) k i : cholds (SessionCache.insert session_id key s c) k i -> k = key /\ i = session_id s \/ cholds c k i.
Proof.
  unfold SessionCache.insert. set (l := default ls_new (SessionCache.sessions c !! key)).
  assert (forall j, j ∈ SessionCache.ids session_id l -> cholds c key j) as Hl.
  { intros j Hj. subst l. destruct (SessionCache.sessions c !! key) as [l|] eqn:El; [by exists l|]. unfold SessionCache.ids in Hj. cbn in Hj. rewrite ls_new_list in Hj. by apply elem_of_nil in Hj. }
  destruct (if _ <=? _ then _ else _) as [l1 rev] eqn:E1.
  assert (forall j, j ∈ SessionCache.ids session_id l1 -> j ∈ SessionCache.ids session_id l) as Hsub.
  { destruct (_ <=? _); [|by injection E1 as <- _]. pose proof (ls_pop_list l) as Hp. unfold SessionCache.ids. destruct (ls_list l) as [|x r] eqn:El.
    - rewrite Hp in E1. injection E1 as <- _. by rewrite El.
    - destruct Hp as (l' & Ep & <-). rewrite Ep in E1. injection E1 as <- _. intros j Hj. by right. }
  intros (l2 & E2 & Hi). cbn in E2. apply lookup_insert_Some in E2 as [[<- <-]|[_ E2]]; [|right; by exists l2].
  apply (SessionCache.ids_insert session_id is_tls13) in Hi as [->|Hi]; [by left|]. right. auto.
Qed.

(** The caches after a step hold no more than the ones before. *)
Definition sub_caches (m' m : gmap nat CacheT) : Prop :=
  (forall i, is_Some (m' !! i) <-> is_Some (m !! i)) /\ forall i c', m' !! i = Some c' -> exists c, m !! i = Some c /\ forall k x, cholds c' k x -> cholds c k x.
Lemma sub_caches_refl m : sub_caches m m.
Proof. split; [done|]. intros i c E. by exists c. Qed.

Lemma cached_session_sub t (key : bytes) (w : World) : let '(s, w') := cached_session t key w in
  sub_caches (tw_caches w') (tw_caches w) /\
  forall x, s = Some x -> exists i c, ti_cache t = Some i /\ tw_caches w !! i = Some c /\ cholds c key (session_id x).
Proof.
  unfold cached_session. destruct (ti_cache t) as [i|]; [|by split; [apply sub_caches_refl|]].
  destruct (tw_caches w !! i) as [c|] eqn:Ei; [|by split; [apply sub_caches_refl|]].
  destruct (SessionCache.get session_id is_tls13 key c) as [s c'] eqn:Eg. split.
  - split.
    + intros j. destruct w as [m kl f r]. cbn in *. destruct (decide (i = j)) as [<-|Hne]; [rewrite lookup_insert_eq, Ei; by split; eexists|by rewrite lookup_insert_ne].
    + intros j cj. destruct w as [m kl f r]. cbn in *. intros [[<- <-]|[_ E]]%lookup_insert_Some; [|by exists cj]. exists c. split; [done|].
      intros k x Hh. apply (get_shrinks key). by rewrite Eg.
  - intros x ->. exists i, c. split; [done|]. split; [done|]. apply get_held. by rewrite Eg.
Qed.

Lemma inner_connect_sub t alpn authority host (w w' : World) r : inner_connect t alpn authority host w = (r, w') -> sub_caches (tw_caches w') (tw_caches w).
Proof.
  unfold inner_connect. destruct (configure_refuses (ti_ssl t)); [intros [= _ <-]; apply sub_caches_refl|].
  destruct (handshake_callback _ _ _ _) as [[l|e] rng]; [|intros [= _ <-]; apply sub_caches_refl].
  destruct authority as [key|]; [|intros [= _ <-]; apply sub_caches_refl].
  pose proof (cached_session_sub t key (w <| tw_random := rng |>)) as Hs. destruct (cached_session t key _) as [s w2]. intros [= _ <-]. apply Hs.
Qed.

(** *** The life of the connectors of a program *)

(** The connectors that were made and, with their key, the sessions that servers gave
    to a handshake of one of them. *)
Record Life := mkLife { lf_world : World; lf_made : list TlsConnector; lf_sessions : list (TlsConnector * bytes * SslSession) }.

Inductive life_step (x : Life) : Life -> Prop :=
| life_build t r w : build_tls (Url := Url) t (lf_world x) = (r, w) ->
    life_step x (mkLife w (match r with Ok c => c :: lf_made x | Err _ => lf_made x end) (lf_sessions x))
| life_connect c alpn authority host r w :
    c ∈ lf_made x -> inner_connect c alpn authority host (lf_world x) = (r, w) -> life_step x (mkLife w (lf_made x) (lf_sessions x))
| life_session c alpn authority host (w0 : World) l w1 s :
    c ∈ lf_made x -> inner_connect c alpn authority host w0 = (Ok l, w1) ->
    life_step x (mkLife (new_session c l s (lf_world x)) (lf_made x)
      (match authority with Some key => (c, key, s) :: lf_sessions x | None => lf_sessions x end))
| life_other m f r : life_step x (mkLife (mkTlsWorld (tw_caches (lf_world x)) m f r) (lf_made x) (lf_sessions x)).

Record life_ok (x : Life) : Prop := {
  lo_cache c i : c ∈ lf_made x -> ti_cache c = Some i -> is_Some (tw_caches (lf_world x) !! i);
  lo_own c c' i : c ∈ lf_made x -> c' ∈ lf_made x -> ti_cache c = Some i -> ti_cache c' = Some i -> c = c';
  lo_from i m key id : tw_caches (lf_world x) !! i = Some m -> cholds m key id ->
    exists c s, (c, key, s) ∈ lf_sessions x /\ c ∈ lf_made x /\ ti_cache c = Some i /\ session_id s = id
}.

Lemma life_ok_sub x w : life_ok x -> sub_caches (tw_caches w) (tw_caches (lf_world x)) -> life_ok (mkLife w (lf_made x) (lf_sessions x)).
Proof.
  intros [Hc Ho Hf] [Hd Hs]. split; cbn.
  - intros c i Hm Hi. apply Hd. by eapply Hc.
  - done.
  - intros i m key id Hm Hh. destruct (Hs i m Hm) as (m0 & Hm0 & Hsub). by apply (Hf i m0), Hsub.
Qed.

Lemma life_ok_build x t r w : build_tls (Url := Url) t (lf_world x) = (r, w) -> life_ok x ->
  life_ok (mkLife w (match r with Ok c => c :: lf_made x | Err _ => lf_made x end) (lf_sessions x)).
Proof.
  intros Eb Hx. destruct r as [c|e].
  2:{ apply life_ok_sub; [done|]. unfold build_tls in Eb. destruct (build_ssl t); [|injection Eb as _ <-; apply sub_caches_refl].
      destruct (tb_keylog_policy t); [|by destruct (with_connector_and_settings _ _ _)].
      destruct (KeyLog.open_handle _ _ _) as [[[h|e'] m] f]; [by destruct (with_connector_and_settings _ _ _)|]. injection Eb as _ <-. apply sub_caches_refl. }
  apply build_tls_spec in Eb as (_ & _ & _ & Hcache). destruct Hx as [Hc Ho Hf]. destruct (ti_cache c) as [i|] eqn:Ei.
  - destruct Hcache as [Hn Ew]. assert (forall c', c' ∈ lf_made x -> ti_cache c' = Some i -> False) as Hno.
    { intros c' Hm Hi. destruct (Hc c' i Hm Hi) as [m Em]. congruence. }
    split; cbn; rewrite ?Ew.
    + intros c' j [->|Hm]%elem_of_cons Hj; apply lookup_insert_is_Some; [left; congruence|].
      destruct (decide (i = j)); [by left|]. right. split; [done|]. by eapply Hc.
    + intros c1 c2 j [->|H1]%elem_of_cons [->|H2]%elem_of_cons E1 E2; [done|..|by eapply Ho].
      * exfalso. eapply Hno; [done|congruence].
      * exfalso. eapply Hno; [exact H1|congruence].
    + intros j m key id [[<- <-]|[_ Em]]%lookup_insert_Some Hh.
      * destruct Hh as (l & El & _). exfalso. exact (lookup_empty_Some _ _ El).
      * destruct (Hf j m key id Em Hh) as (c' & s & ? & ? & ? & ?). exists c', s. split; [done|]. split; [by right|done].
  - split; cbn; rewrite ?Hcache.
    + intros c' j [->|Hm]%elem_of_cons Hj; [congruence|by eapply Hc].
    + intros c1 c2 j [->|H1]%elem_of_cons [->|H2]%elem_of_cons E1 E2; [done|congruence|congruence|by eapply Ho].
    + intros j m key id Em Hh. destruct (Hf j m key id Em Hh) as (c' & s & ? & ? & ? & ?). exists c', s. split; [done|]. split; [by right|done].
Qed.

Lemma life_ok_session x c authority l s : c ∈ lf_made x -> handshake_key l = authority -> life_ok x ->
  life_ok (mkLife (new_session c l s (lf_world x)) (lf_made x) (match authority with Some key => (c, key, s) :: lf_sessions x | None => lf_sessions x end)).
Proof.
  intros Hm Hk [Hc Ho Hf]. unfold new_session.
  assert (forall i m key id, tw_caches (lf_world x) !! i = Some m -> cholds m key id -> exists c' s',
    (c', key, s') ∈ (match authority with Some key => (c, key, s) :: lf_sessions x | None => lf_sessions x end) /\ c' ∈ lf_made x /\ ti_cache c' = Some i /\ session_id s' = id) as Hf'.
  { intros i m key id Em Hh. destruct (Hf i m key id Em Hh) as (c' & s' & ? & ?). exists c', s'. split; [|done]. destruct authority; [by right|done]. }
  destruct (ti_cache c) as [i|] eqn:Ei; [|by split]. destruct ex_index; [by split|]. rewrite Hk. destruct authority as [key|]; [|by split].
  destruct (lf_world x) as [m kl f r] eqn:Ew. split; cbn in *.
  - intros c' j Hm' Hj. rewrite lookup_alter_is_Some. by eapply Hc.
  - done.
  - intros j m' k id. destruct (decide (i = j)) as [<-|Hne]; [|rewrite lookup_alter_ne by done; by apply Hf'].
    rewrite lookup_alter_eq. intros (m0 & Em0 & ->)%fmap_Some Hh. apply insert_held in Hh as [[-> ->]|Hh]; [|by apply (Hf' i m0)].
    exists c, s. split; [left|done].
Qed.

Lemma life_step_ok x y : life_step x y -> life_ok x -> life_ok y.
Proof.
  intros [t r w E|c alpn authority host r w Hm E|c alpn authority host w0 l w1 s Hm E|m f r] Hx.
  - by apply life_ok_build with t.
  - apply life_ok_sub; [done|]. by eapply inner_connect_sub.
  - apply inner_connect_checks in E as [_ Hk]. by apply life_ok_session.
  - by apply life_ok_sub; [|apply sub_caches_refl].
Qed.

(** C18. Sessions stay with their peer.  However connectors are made and used, if a
    handshake offers a session, a server gave that session to an earlier handshake of
    the same connector, hence with the same trust and the same checks, and for the
    authority that the new connection is to. *)
Theorem sessions_stay_with_peer kl f r x c alpn authority host l w s :
  rtc life_step (mkLife (mkTlsWorld ∅ kl f r) [] []) x -> c ∈ lf_made x ->
  inner_connect c alpn authority host (lf_world x) = (Ok l, w) -> SetSession s ∈ l ->
  exists key s0, authority = Some key /\ (c, key, s0) ∈ lf_sessions x /\ session_id s0 = session_id s.
Proof.
  intros Hr Hm Ec Hs. assert (life_ok x) as Hx.
  { assert (life_ok (mkLife (mkTlsWorld ∅ kl f r) [] [])) as H0 by (split; cbn; [set_solver|set_solver|intros i m key id E; by rewrite lookup_empty in E]).
    induction Hr as [|x1 x2 x3 Hst _ IH]; [done|]. by apply IH, (life_step_ok x1). }
  apply inner_connect_calls in Ec as (quiet & offered & last & s' & -> & Hq & Ho & -> & rng & Ea).
  assert (s' = Some s) as ->.
  { rewrite !elem_of_app in Hs. destruct Hs as [Hs|[Hs|[Hs|[Hs|[Hs|Hs]]]]].
    - rewrite !elem_of_cons, elem_of_nil in Hs. by destruct Hs as [?|[?|?]].
    - rewrite Forall_forall in Hq. destruct (Hq _ Hs) as (b & [?|[?|[?|[a ?]]]]); done.
    - destruct Ho as [[-> _]|(y & -> & [-> | ->])]; [by apply elem_of_nil in Hs|by apply list_elem_of_singleton in Hs as [= ->]|].
      apply elem_of_cons in Hs as [[= ->]|Hs]; [done|]. by apply list_elem_of_singleton in Hs.
    - destruct authority; cbn in Hs; rewrite ?list_elem_of_singleton, ?elem_of_nil in Hs; done.
    - rewrite list_elem_of_singleton in Hs. done.
    - destruct alpn; cbn in Hs; rewrite ?list_elem_of_singleton, ?elem_of_nil in Hs; done. }
  destruct authority as [key|]; [|by destruct Ea].
  pose proof (cached_session_sub c key ((lf_world x) <| tw_random := rng |>)) as Hcs. rewrite Ea in Hcs. destruct Hcs as [_ Hcs].
  destruct (Hcs s eq_refl) as (i & m & Ei & Em & Hh). destruct (lo_from x Hx i m key (session_id s)) as (c' & s0 & Hin & Hm' & Ei' & Hid); [by destruct (lf_world x)|done|].
  rewrite <- (lo_own x Hx c' c i Hm' Hm Ei' Ei). by exists key, s0.
Qed.
End Connectors.

(** ** At a concrete input *)

Module RefTls.
Import Tls SessionCache.RefSessions.

(** A crate that refuses nothing: certificates are their bytes, stores lists of them. *)
#[global] Instance ref_boring_types : BoringTypes := {|
  X509 := bytes; PKey := bytes; X509Store := list bytes; X509StoreBuilder := list bytes; SslSession := bytes * bool; ErrorStack := unit;
  CertCompressionAlgorithm := Z; ExtensionType := Z; KeyLogHandle := nat
|}.
#[global] Instance ref_boring : Boring := {|
  x509_from_der := fun b => if bool_decide (b = []) then Err tt else Ok b;
  x509_from_pem := fun b => Ok b;
  x509_stack_from_pem := fun b => Ok [b];
  private_key_from_pem := fun b => Ok b;
  pkcs12_parse := fun b _ => Ok (b, b, None);
  store_new := Ok [];
  store_add_cert := fun c s => (None, s ++ [c]);
  store_set_default_paths := fun s => (None, s);
  store_build := fun s => s;
  no_default_verify_builder := None;
  ssl_refuses := fun _ _ => None;
  configure_refuses := fun _ => None;
  conf_refuses := fun _ _ _ => None;
  ex_index := None;
  session_id := fst;
  is_tls13 := snd;
  es_debug := fun _ => EmptyString
|}.
#[global] Instance ref_keylog : KeyLog.KeyLogFs nat nat := {| KeyLog.keylog_var := fun _ => None; KeyLog.handle_new := fun _ n => (Ok n, S n) |}.
Abbreviation RefWorld := (TlsWorld (L := ref_set) (F := nat)).

Definition world0 : RefWorld := mkTlsWorld ∅ ∅ 0%nat 1.
Definition resuming : TlsConfig := tc_pre_shared_key true tls_config_default.
Definition setting : TlsConnectorBuilder := tb_set_verify_hostname false (tls_builder resuming).
Abbreviation made := (build_tls (Url := unit) setting world0).
Abbreviation connector := (mkTlsConnector
  [SetDefaultVerifyPaths; SetVerify true; SetAlpnProtos (alpn_bytes ALL); SetMinProtoVersion None; SetMaxProtoVersion None; SetSessionCacheClient; SetNewSessionCallback]
  (Some 0%nat) (build_settings setting) false).

Lemma made_ok : made = (Ok connector, made.2).
Proof. vm_compute. reflexivity. Qed.

Lemma tls_as_configured_witness :
  deciding (ti_ssl connector) = decided setting /\
  checking [UseServerNameIndication true; VerifyHostname false; EnableEchGrease false; SetExData (bs "a.b"); IntoSsl (bs "a.b")] =
    [UseServerNameIndication true; VerifyHostname false; IntoSsl (bs "a.b")].
Proof.
  destruct (tls_as_configured (Url := unit) setting world0 _ connector made_ok) as [Hd Hc]. split; [exact Hd|].
  assert (inner_connect connector None (Some (bs "a.b")) (bs "a.b") made.2 =
    (Ok [UseServerNameIndication true; VerifyHostname false; EnableEchGrease false; SetExData (bs "a.b"); IntoSsl (bs "a.b")],
     (inner_connect connector None (Some (bs "a.b")) (bs "a.b") made.2).2)) as E by (vm_compute; reflexivity).
  exact (Hc _ _ _ _ _ _ E).
Defined.

(** A session is kept after one handshake and offered at the next. *)
Abbreviation first := (inner_connect connector None (Some (bs "a.b")) (bs "a.b") made.2).
Abbreviation calls := [UseServerNameIndication true; VerifyHostname false; EnableEchGrease false; SetExData (bs "a.b"); IntoSsl (bs "a.b")].
Abbreviation kept := (new_session connector calls (bs "id", true) made.2).
Abbreviation second := (inner_connect connector None (Some (bs "a.b")) (bs "a.b") kept).

Lemma sessions_stay_with_peer_witness :
  exists s0, (connector, bs "a.b", s0) ∈ [(connector, bs "a.b", (bs "id", true))] /\ session_id s0 = bs "id".
Proof.
  assert (first = (Ok calls, first.2)) as E1 by (vm_compute; reflexivity).
  assert (rtc (life_step (Url := unit) (L := ref_set) (F := nat)) (mkLife world0 [] []) (mkLife kept [connector] [(connector, bs "a.b", (bs "id", true))])) as Hr.
  { apply (rtc_l _ _ (mkLife made.2 [connector] [])); [exact (life_build (mkLife world0 [] []) setting _ _ made_ok)|]. apply rtc_once.
    exact (life_session (Url := unit) (mkLife made.2 [connector] []) connector None (Some (bs "a.b")) (bs "a.b") _ calls _ (bs "id", true) (list_elem_of_here _ _) E1). }
  assert (second = (Ok [UseServerNameIndication true; VerifyHostname false; EnableEchGrease false; SetSession (bs "id", true); SetExData (bs "a.b"); IntoSsl (bs "a.b")], second.2))
    as E2 by (vm_compute; reflexivity).
  destruct (sessions_stay_with_peer ∅ 0%nat 1 _ connector None (Some (bs "a.b")) (bs "a.b") _ _ ((bs "id", true) : @SslSession ref_boring_types) Hr (list_elem_of_here _ _) E2)
    as (key & s0 & Hk & Hin & Hid); [by apply list_elem_of_In; cbn; auto|].
  injection Hk as <-. exists s0. split; [exact Hin|exact Hid].
Defined.
End RefTls.
