(* ===== verification/Dns.v ===== *)
(** * Resolving names (src/src/dns/)

    The addresses of a host: those that the user gave for it, or else what a resolver
    says (the system's, hickory-dns or the user's own, an interface).  With the
    properties: the user's addresses win, and resolving for a SOCKS proxy gives the
    addresses that the TCP connector would dial. *)

From S2P Require Import Prelude Http Net CoreClient HttpConnect.

Module Dns.
Section Dns.
Context {W : Type} {Resolver E : Type} (lookup_name : Resolver -> bytes -> W -> result (list SocketAddr) E * W).

(** What implements the trait [Resolve]: a resolver, or one with overrides
    ([DnsResolverWithOverrides]). *)
Inductive Resolve :=
| Base (r : Resolver)
| DnsResolverWithOverrides (dns_resolver : Resolve) (overrides : gmap bytes (list SocketAddr)).

Fixpoint resolve (r : Resolve) (name : bytes) : W -> result (list SocketAddr) E * W :=
  match r with
  | Base r => lookup_name r name
  | DnsResolverWithOverrides r overrides =>
      match overrides !! name with
      | Some dest => fun w => (Ok dest, w)
      | None => resolve r name
      end
  end.

Context {Uri : Type} {UC : UriCrate Uri} (no_host : E).

(** [DynResolver::http_resolve] *)
Definition http_resolve (r : Resolve) (target : Uri) (w : W) : result (list SocketAddr) E * W :=
  match up_authority (uri_parts target) with
  | None => (Err no_host, w)
  | Some auth =>
      let scheme := up_scheme (uri_parts target) in
      let port := match uri_port target with
                  | Some p => p
                  | None =>
                      if bool_decide (scheme = Some (bs "https")) then 443
                      else if bool_decide (scheme ∈ Some <$> [bs "socks4"; bs "socks4h"; bs "socks5"; bs "socks5h"]) then 1080 else 80
                  end in
      let explicit_port := bool_decide (is_Some (uri_port target)) in
      match resolve r (auth_host auth) w with
      | (Err e, w) => (Err e, w)
      | (Ok addrs, w) =>
          (Ok ((fun addr => if explicit_port || (sa_port addr =? 0) then mkSocketAddr (sa_ip addr) port else addr) <$> addrs), w)
      end
  end.

(** ** Properties *)

(** A name that the user gave addresses for is never looked up; other names are looked
    up as without the overrides. *)
Lemma override_wins r o name w :
  resolve (DnsResolverWithOverrides r o) name w = match o !! name with Some dest => (Ok dest, w) | None => resolve r name w end.
Proof. cbn. by destruct (o !! name). Qed.

Context {api : SocketApi W}.
Import HttpConnector.

(** The SOCKS code resolves a target as the TCP connector does: where the connector
    asks its resolver, both see the same addresses with the same ports, fail together
    and leave the same world. *)
Theorem resolves_alike r (target : Uri) w config scheme auth :
  enforce_http config = false -> up_scheme (uri_parts target) = Some scheme -> scheme ∈ [HTTP; HTTPS] -> up_authority (uri_parts target) = Some auth ->
  trim_end 93 (trim_start 91 (auth_host auth)) = auth_host auth -> (forall port, try_parse (auth_host auth) port = None) ->
  match http_resolve r target w, call_start (resolve r) config target w with
  | (Ok addrs, w1), (Ok c, w2) => w1 = w2 /\ c = connecting_tcp_new addrs config w1
  | (Err e, w1), (Err e', w2) => w1 = w2 /\ e' = dns_error e
  | _, _ => False
  end.
Proof.
  intros Hc Hs Hin Ha Ht Hp. unfold http_resolve, call_start, get_host_port. rewrite Ha, Hc, Hs. cbn. rewrite Ht, Hp.
  assert (uri_port target = auth_port auth) as -> by (unfold uri_port; by rewrite Ha).
  destruct (resolve r (auth_host auth) w) as [[addrs|e] w1]; [|done]. split; [done|]. f_equal.
  apply list_fmap_ext. intros i [ip p] _. unfold set_port. cbn. destruct (auth_port auth) as [q|]; cbn; [done|].
  rewrite !list_elem_of_cons in Hin || rewrite !elem_of_cons in Hin. destruct Hin as [-> |[-> |Hn]]; [done|done|by apply elem_of_nil in Hn].
Qed.
End Dns.

(** A port in an override is dialled if the URL names none, and not the port of the
    scheme. *)
Module RefDns.
Definition addr : SocketAddr := mkSocketAddr (V4 [127; 0; 0; 1]) 8080.
Lemma override_port_used {W E Uri : Type} {UC : UriCrate Uri} (lookup_name : unit -> bytes -> W -> result (list SocketAddr) E * W) (no_host : E) (target : Uri) w auth :
  up_authority (uri_parts target) = Some auth -> auth_port auth = None -> auth_host auth = bs "a.b" ->
  (http_resolve lookup_name no_host (DnsResolverWithOverrides (Base tt) {[bs "a.b" := [addr]]}) target w).1 = Ok [addr].
Proof. intros Ha Hp Hh. unfold http_resolve, uri_port. rewrite Ha. cbn. by rewrite Hp, Hh. Qed.
End RefDns.
End Dns.
