(* ===== verification/ClientBuilder.v ===== *)
(** * Building and changing a client (src/src/client/client.rs, src/src/client/emulation.rs)

    [ClientBuilder] collects the configuration of a client, [build] makes of it the
    connector with its TLS settings and resolver, the core client with its pool
    (src/src/core/client/mod.rs) and the [ClientRef] that requests look at.  A client can
    be changed while it is used: [update] copies the [ClientRef], [apply] puts the
    changed copy in place.  The features cookies, hickory-dns, socks and those of the
    compressions are on. *)

From S2P Require Import Prelude Buf Http Decode Io Net Socks Tunnel Proxy Request Pending CoreClient Ping Pool H2Client Handles HttpConnect Connector ReqBuilder ResponseBody ClientError SessionCache Tls Dns.
From coqutil Require Import Datatypes.RecordSetters.
Import TriangleBracketNotations.
Import Proxy Network Redirect.

Definition USER_AGENT : HeaderName := bs "user-agent".

Module ClientBuilder.
Import ResponseBody.

Section ClientBuilder.
Context `{HttpCrate} {HX : HttpExtend} `{ProxyCrates} {Url : Type} `{UrlCrate Url} {PErr : Type} `{Httparse}.
Context {Uri : Type} {UC : UriCrate Uri} {W : Type} {CA : Connector.ConnApi (Uri := Uri) W}.
Context {BT : Tls.BoringTypes} {BO : Tls.Boring} {L : Type} {LS : LinkedSet Tls.SslSession L} {F : Type} {KF : KeyLog.KeyLogFs Tls.KeyLogHandle F}.
Context {PO SO SD ES PR : Type}.
Abbreviation Http2Config := (H2Client.Config (PseudoOrder := PO) (SettingsOrder := SO) (StreamDependency := SD) (ExperimentalSettings := ES) (Priorities := PR)).
Abbreviation ProxyT := (Proxy (Url := Url)).
Abbreviation LayerT := (Connector.Layer (Uri := Uri) (W := W)).
Abbreviation CErr := (ClientError.Error Url).
Abbreviation TlsWorldT := (Tls.TlsWorld (L := L) (F := F)).

(** Cookie stores, of which a jar is one; name resolvers, of which the system's and
    hickory-dns' are two; the default store of certificates. *)
Context {CookieStore : Type} (jar_default : CookieStore).
Context {NameResolver : Type} (gai_resolver : NameResolver) {Strategy : Type} (hickory_new : option Strategy -> result NameResolver CErr).
Context (cert_store_default : Tls.X509Store).
(** The text of an authority; connectors and resolvers as the connector's interface
    has them. *)
Context (auth_bytes : Authority -> bytes).
Context (of_tls : Tls.TlsConnector -> Connector.TlsConnector) (of_resolver : Dns.Resolve (Resolver := NameResolver) -> Connector.Resolver).

(** ** The builder of the core client (src/src/core/client/mod.rs) *)

Record Builder := mkBuilder_ {
  client_config : Core.Config;
  h1_builder : Http1.Http1Config;
  h2_builder : Http2Config;
  h2_timer : bool;
  pool_config : Pool.Config;
  pool_timer : bool
}.
Definition builder_new : Builder :=
  mkBuilder_ (Core.mkConfig true true Pool.Auto) Http1.http1_config_default H2Client.config_default false
    (Pool.mkConfig (Some (Ping.from_secs 90)) usize_max None) false.
Definition b_pool_idle_timeout (x : option Z) (b : Builder) : Builder :=
  b <| pool_config := Pool.mkConfig x (Pool.cfg_max_idle_per_host (pool_config b)) (Pool.cfg_max_pool_size (pool_config b)) |>.
Definition b_pool_max_idle_per_host (x : Z) (b : Builder) : Builder :=
  b <| pool_config := Pool.mkConfig (Pool.cfg_idle_timeout (pool_config b)) x (Pool.cfg_max_pool_size (pool_config b)) |>.
Definition b_pool_max_size (x : option Z) (b : Builder) : Builder :=
  b <| pool_config := Pool.mkConfig (Pool.cfg_idle_timeout (pool_config b)) (Pool.cfg_max_idle_per_host (pool_config b)) x |>.
Definition b_http2_only (x : bool) (b : Builder) : Builder :=
  b <| client_config := Core.mkConfig (Core.retry_canceled_requests (client_config b)) (Core.cfg_set_host (client_config b)) (if x then Pool.Http2 else Pool.Auto) |>.
Definition b_http2_timer (b : Builder) : Builder := b <| h2_timer := true |>.
Definition b_http1_config (x : Http1.Http1Config) (b : Builder) : Builder := b <| h1_builder := x |>.
Definition b_http2_config (x : Http2Config) (b : Builder) : Builder := b <| h2_builder := x |>.
Definition b_pool_timer (b : Builder) : Builder := b <| pool_timer := true |>.
Definition b_retry_canceled_requests (x : bool) (b : Builder) : Builder :=
  b <| client_config := Core.mkConfig x (Core.cfg_set_host (client_config b)) (Core.cfg_ver (client_config b)) |>.
Definition b_set_host (x : bool) (b : Builder) : Builder :=
  b <| client_config := Core.mkConfig (Core.retry_canceled_requests (client_config b)) x (Core.cfg_ver (client_config b)) |>.

(** The core client; clones share the pool, which is known by a number. *)
Record HyperClient := mkHyper {
  hy_config : Core.Config;
  hy_h1_builder : Http1.Http1Config;
  hy_h2_builder : Http2Config;
  hy_connector : Connector.ConnectorT (W := W) (Uri := Uri);
  hy_pool : nat
}.
(** The pools that exist: what each was made with. *)
Abbreviation Pools := (list (Pool.Config * bool)).
Definition b_build (connector : Connector.ConnectorT) (b : Builder) (pools : Pools) : HyperClient * Pools :=
  (mkHyper (client_config b) (h1_builder b) (h2_builder b) connector (length pools), pools ++ [(pool_config b, pool_timer b)]).
Definition set_http1_config (x : Http1.Http1Config) (h : HyperClient) : HyperClient := h <| hy_h1_builder := x |>.
Definition set_http2_config (x : Http2Config) (h : HyperClient) : HyperClient := h <| hy_h2_builder := x |>.

(** ** Emulation (emulation.rs) *)

Record EmulationProvider := mkEmulation {
  em_tls_config : option Tls.TlsConfig;
  em_http1_config : option Http1.Http1Config;
  em_http2_config : option Http2Config;
  em_default_headers : option HeaderMap;
  em_headers_order : option (list HeaderName)
}.
Definition emulation_default : EmulationProvider := mkEmulation None None None None None.
Definition e_tls_config (x : option Tls.TlsConfig) (e : EmulationProvider) : EmulationProvider := e <| em_tls_config := x |>.
Definition e_http1_config (x : option Http1.Http1Config) (e : EmulationProvider) : EmulationProvider := e <| em_http1_config := x |>.
Definition e_http2_config (x : option Http2Config) (e : EmulationProvider) : EmulationProvider := e <| em_http2_config := x |>.
Definition e_default_headers (x : option HeaderMap) (e : EmulationProvider) : EmulationProvider := e <| em_default_headers := x |>.
Definition e_headers_order (x : list HeaderName) (e : EmulationProvider) : EmulationProvider := e <| em_headers_order := Some x |>.

(** ** [Config] *)

Record Config := mkConfig {
  headers : HeaderMap;
  headers_order : option (list HeaderName);
  accepts : Accepts;
  connect_timeout : option Z;
  connection_verbose : bool;
  pool_idle_timeout : option Z;
  pool_max_idle_per_host : Z;
  pool_max_size : option Z;
  tcp_keepalive : option Z;
  tcp_keepalive_interval : option Z;
  tcp_keepalive_retries : option Z;
  proxies : list ProxyT;
  auto_sys_proxy : bool;
  redirect_policy : Policy Url PErr;
  referer : bool;
  timeout : option Z;
  read_timeout : option Z;
  network_scheme : NetworkSchemeBuilder;
  nodelay : bool;
  cookie_store : option CookieStore;
  hickory_dns : bool;
  cfg_error : option CErr;
  dns_overrides : gmap bytes (list SocketAddr);
  dns_resolver : option NameResolver;
  dns_strategy : option Strategy;
  https_only : bool;
  http1_config : Http1.Http1Config;
  http2_config : Http2Config;
  http2_max_retry_count : Z;
  connector_layers : option (list LayerT);
  builder : Builder;
  alpn_protos : option Tls.AlpnProtos;
  keylog_policy : option KeyLog.KeyLogPolicy;
  tls_info : bool;
  tls_sni : bool;
  verify_hostname : bool;
  identity : option Tls.Identity;
  cert_store : option Tls.X509Store;
  cert_verification : bool;
  min_tls_version : option Tls.TlsVersion;
  max_tls_version : option Tls.TlsVersion;
  tls_config : Tls.TlsConfig
}.

(** [ClientBuilder::new] *)
Definition builder_config : Config := {|
  headers := hm_new; headers_order := None; accepts := accepts_default; connect_timeout := None; connection_verbose := false;
  pool_idle_timeout := Some (Ping.from_secs 90); pool_max_idle_per_host := usize_max; pool_max_size := None; tcp_keepalive := None;
  tcp_keepalive_interval := None; tcp_keepalive_retries := None; proxies := []; auto_sys_proxy := true;
  redirect_policy := NoRedirect; referer := true; timeout := None; read_timeout := None; network_scheme := builder_default;
  nodelay := true; cookie_store := None; hickory_dns := true; cfg_error := None; dns_overrides := ∅; dns_resolver := None;
  dns_strategy := None; https_only := false; http1_config := Http1.http1_config_default; http2_config := H2Client.config_default;
  http2_max_retry_count := 2; connector_layers := None; builder := builder_new; alpn_protos := None; keylog_policy := None;
  tls_info := false; tls_sni := true; verify_hostname := true; identity := None; cert_store := None; cert_verification := true;
  min_tls_version := None; max_tls_version := None; tls_config := Tls.tls_config_default
|}.

(** ** The methods of [ClientBuilder] *)

Definition cb_headers_order (x : list HeaderName) (c : Config) : Config := c <| headers_order := Some x |>.
Definition cb_cookie_provider (x : CookieStore) (c : Config) : Config := c <| cookie_store := Some x |>.
Definition cb_gzip (x : bool) (c : Config) : Config :=
  c <| accepts := mkAccepts x (a_brotli (accepts c)) (a_zstd (accepts c)) (a_deflate (accepts c)) |>.
Definition cb_brotli (x : bool) (c : Config) : Config :=
  c <| accepts := mkAccepts (a_gzip (accepts c)) x (a_zstd (accepts c)) (a_deflate (accepts c)) |>.
Definition cb_zstd (x : bool) (c : Config) : Config :=
  c <| accepts := mkAccepts (a_gzip (accepts c)) (a_brotli (accepts c)) x (a_deflate (accepts c)) |>.
Definition cb_deflate (x : bool) (c : Config) : Config :=
  c <| accepts := mkAccepts (a_gzip (accepts c)) (a_brotli (accepts c)) (a_zstd (accepts c)) x |>.
Definition cb_redirect (x : Policy Url PErr) (c : Config) : Config := c <| redirect_policy := x |>.
Definition cb_referer (x : bool) (c : Config) : Config := c <| referer := x |>.
Definition cb_no_proxy (c : Config) : Config := c <| proxies := [] |> <| auto_sys_proxy := false |>.
Definition cb_timeout (x : Z) (c : Config) : Config := c <| timeout := Some x |>.
Definition cb_read_timeout (x : Z) (c : Config) : Config := c <| read_timeout := Some x |>.
Definition cb_connect_timeout (x : Z) (c : Config) : Config := c <| connect_timeout := Some x |>.
Definition cb_connection_verbose (x : bool) (c : Config) : Config := c <| connection_verbose := x |>.
Definition cb_pool_idle_timeout (x : option Z) (c : Config) : Config := c <| pool_idle_timeout := x |>.
Definition cb_pool_max_idle_per_host (x : Z) (c : Config) : Config := c <| pool_max_idle_per_host := x |>.
Definition cb_no_keepalive (c : Config) : Config := c <| pool_max_idle_per_host := 0 |> <| tcp_keepalive := None |>.
Definition cb_http1_only (c : Config) : Config := c <| alpn_protos := Some Tls.HTTP1 |>.
Definition cb_http2_only (c : Config) : Config := c <| alpn_protos := Some Tls.HTTP2 |>.
Definition cb_http2_max_retry_count (x : Z) (c : Config) : Config := c <| http2_max_retry_count := x |>.
Definition cb_tcp_nodelay (x : bool) (c : Config) : Config := c <| nodelay := x |>.
Definition cb_local_address (x : option IpAddr) (c : Config) : Config := c <| network_scheme := nb_set_address x (network_scheme c) |>.
Definition cb_local_addresses (v4 v6 : option bytes) (c : Config) : Config := c <| network_scheme := nb_set_addresses v4 v6 (network_scheme c) |>.
Definition cb_interface (x : bytes) (c : Config) : Config := c <| network_scheme := nb_set_interface x (network_scheme c) |>.
Definition cb_tcp_keepalive (x : option Z) (c : Config) : Config := c <| tcp_keepalive := x |>.
Definition cb_tcp_keepalive_interval (x : option Z) (c : Config) : Config := c <| tcp_keepalive_interval := x |>.
Definition cb_tcp_keepalive_retries (x : option Z) (c : Config) : Config := c <| tcp_keepalive_retries := x |>.
Definition cb_identity (x : Tls.Identity) (c : Config) : Config := c <| identity := Some x |>.
Definition cb_cert_verification (x : bool) (c : Config) : Config := c <| cert_verification := x |>.
Definition cb_cert_store (x : Tls.X509Store) (c : Config) : Config := c <| cert_store := Some x |>.
Definition cb_tls_sni (x : bool) (c : Config) : Config := c <| tls_sni := x |>.
Definition cb_keylog (x : KeyLog.KeyLogPolicy) (c : Config) : Config := c <| keylog_policy := Some x |>.
Definition cb_verify_hostname (x : bool) (c : Config) : Config := c <| verify_hostname := x |>.
Definition cb_min_tls_version (x : Tls.TlsVersion) (c : Config) : Config := c <| min_tls_version := Some x |>.
Definition cb_max_tls_version (x : Tls.TlsVersion) (c : Config) : Config := c <| max_tls_version := Some x |>.
Definition cb_tls_info (x : bool) (c : Config) : Config := c <| tls_info := x |>.
Definition cb_https_only (x : bool) (c : Config) : Config := c <| https_only := x |>.
Definition cb_hickory_dns_strategy (x : Strategy) (c : Config) : Config := c <| dns_strategy := Some x |>.
Definition cb_no_hickory_dns (c : Config) : Config := c <| hickory_dns := false |>.
Definition cb_dns_resolver (x : NameResolver) (c : Config) : Config := c <| dns_resolver := Some x |>.

(** A value that is no header value leaves an error for [build]. *)
Definition cb_user_agent (value : result HeaderValue CErr) (c : Config) : Config :=
  match value with Ok v => c <| headers := hm_insert USER_AGENT v (headers c) |> | Err e => c <| cfg_error := Some e |> end.
(** [None] is a panic of [replace_headers]. *)
Definition cb_default_headers (h : HeaderMap) (c : Config) : option Config :=
  h ← replace_headers (headers c) h; Some (c <| headers := h |>).
Definition cb_cookie_store (enable : bool) (c : Config) : Config :=
  if enable then cb_cookie_provider jar_default c else c <| cookie_store := None |>.
Definition cb_no_gzip : Config -> Config := cb_gzip false.
Definition cb_no_brotli : Config -> Config := cb_brotli false.
Definition cb_no_zstd : Config -> Config := cb_zstd false.
Definition cb_no_deflate : Config -> Config := cb_deflate false.
(** [NonZeroUsize::new] *)
Definition cb_pool_max_size (max : Z) (c : Config) : Config := c <| pool_max_size := if max =? 0 then None else Some max |>.
Definition cb_proxy (p : result ProxyT CErr) (c : Config) : Config :=
  match p with
  | Ok p => c <| proxies := proxies c ++ [p] |> <| auto_sys_proxy := false |>
  | Err e => c <| cfg_error := Some e |>
  end.
Definition cb_emulation (e : EmulationProvider) (c : Config) : Config :=
  let c := match em_default_headers e with Some h => c <| headers := h |> | None => c end in
  let c := match em_headers_order e with Some o => c <| headers_order := Some o |> | None => c end in
  let c := match em_http1_config e with Some x => c <| http1_config := x |> | None => c end in
  let c := match em_http2_config e with Some x => c <| http2_config := x |> | None => c end in
  match em_tls_config e with Some x => c <| tls_config := x |> | None => c end.
Definition cb_ssl_pinning (certs : list Tls.CertificateInput) (c : Config) : Config :=
  match Tls.from_der_certs certs with Ok s => c <| cert_store := Some s |> | Err e => c <| cfg_error := Some e |> end.
Definition cb_resolve_to_addrs (domain : bytes) (addrs : list SocketAddr) (c : Config) : Config :=
  c <| dns_overrides := <[domain := addrs]> (dns_overrides c) |>.
Definition cb_resolve (domain : bytes) (addr : SocketAddr) : Config -> Config := cb_resolve_to_addrs domain [addr].
Definition cb_connector_layer (l : LayerT) (c : Config) : Config :=
  c <| connector_layers := Some (default [] (connector_layers c) ++ [l]) |>.

(** ** [ClientRef] *)

Record ClientRef := mkClientRef_ {
  r_accepts : Accepts;
  r_cookie_store : option CookieStore;
  r_headers : HeaderMap;
  r_headers_order : option (list HeaderName);
  r_hyper : HyperClient;
  r_redirect : Policy Url PErr;
  r_referer : bool;
  r_total_timeout : option Z;
  r_read_timeout : option Z;
  r_https_only : bool;
  r_http2_max_retry_count : Z;
  r_proxies : list ProxyT;
  r_proxies_maybe_http_auth : bool;
  r_network_scheme : NetworkSchemeBuilder;
  r_alpn_protos : option Tls.AlpnProtos;
  r_keylog : option KeyLog.KeyLogPolicy;
  r_tls_sni : bool;
  r_verify_hostname : bool;
  r_identity : option Tls.Identity;
  r_cert_store : option Tls.X509Store;
  r_cert_verification : bool;
  r_min_tls_version : option Tls.TlsVersion;
  r_max_tls_version : option Tls.TlsVersion
}.

(** What requests see of it (Pending.v); [features] are the compressions of the build. *)
Definition request_view (features : Accepts) (r : ClientRef) : Pending.ClientRef (Url := Url) (PErr := PErr) :=
  Pending.mkClientRef (bs <$> as_str features (r_accepts r)) (bool_decide (is_Some (r_cookie_store r))) (r_headers r) (r_headers_order r)
    (r_redirect r) (r_referer r) (r_total_timeout r) (r_read_timeout r) (r_https_only r) (r_http2_max_retry_count r)
    (r_proxies r) (r_proxies_maybe_http_auth r) (r_network_scheme r).

(** ** [build] *)

Record World := mkWorld { w_tls : TlsWorldT; w_pools : Pools }.

(** The TLS settings with the client's own on top. *)
Definition override_tls (alpn : option Tls.AlpnProtos) (min max : option Tls.TlsVersion) (t : Tls.TlsConfig) : Tls.TlsConfig :=
  let t := match alpn with Some p => t <| Tls.alpn_protos := p |> | None => t end in
  let t := match min with Some v => t <| Tls.min_tls_version := Some v |> | None => t end in
  match max with Some v => t <| Tls.max_tls_version := Some v |> | None => t end.

Definition build_resolver (c : Config) : result (Dns.Resolve (Resolver := NameResolver)) CErr :=
  r ←? (match dns_resolver c with
        | Some r => Ok r
        | None => if hickory_dns c then hickory_new (dns_strategy c) else Ok gai_resolver
        end);
  Ok (if bool_decide (dns_overrides c = ∅) then Dns.Base r else Dns.DnsResolverWithOverrides (Dns.Base r) (dns_overrides c)).

Definition build_tls_builder (c : Config) : Tls.TlsConnectorBuilder :=
  Tls.tb_set_verify_hostname (verify_hostname c)
  (Tls.tb_set_tls_sni (tls_sni c)
  (Tls.tb_set_cert_verification (cert_verification c)
  (Tls.tb_set_cert_store (Some (default cert_store_default (cert_store c)))
  (Tls.tb_set_identity (identity c)
  (Tls.tb_set_keylog (keylog_policy c)
  (Tls.tls_builder (override_tls (alpn_protos c) (min_tls_version c) (max_tls_version c) (tls_config c)))))))).

Definition build_connector (c : Config) (tls : Tls.TlsConnector) (resolver : Dns.Resolve) : Connector.ConnectorT :=
  let http := HttpConnector.set_connect_timeout (connect_timeout c) HttpConnector.new_config in
  Connector.connector_build auth_bytes (connector_layers c)
    (Connector.cb_set_socks_resolver (Some (of_resolver resolver))
    (Connector.cb_set_verbose (connection_verbose c)
    (Connector.cb_set_keepalive_retries (tcp_keepalive_retries c)
    (Connector.cb_set_keepalive_interval (tcp_keepalive_interval c)
    (Connector.cb_set_keepalive (tcp_keepalive c)
    (Connector.cb_set_timeout (connect_timeout c)
    (Connector.connector_builder http (of_tls tls) (nodelay c) (tls_info c)))))))).

Definition build_core (c : Config) : Builder :=
  b_pool_max_size (pool_max_size c)
  (b_pool_max_idle_per_host (pool_max_idle_per_host c)
  (b_pool_idle_timeout (pool_idle_timeout c)
  (b_pool_timer
  (b_http2_timer
  (b_http2_only (bool_decide (alpn_protos c = Some Tls.HTTP2))
  (b_http2_config (http2_config c)
  (b_http1_config (http1_config c) (builder c)))))))).

(** [system] is [Proxy::system()]. *)
Definition build (system : ProxyT) (c : Config) (w : World) : result ClientRef CErr * World :=
  match cfg_error c with
  | Some e => (Err e, w)
  | None =>
      let ps := if auto_sys_proxy c then proxies c ++ [system] else proxies c in
      match build_resolver c with
      | Err e => (Err e, w)
      | Ok resolver =>
          let '(r, tw) := Tls.build_tls (build_tls_builder c) (w_tls w) in
          match r with
          | Err e => (Err e, w <| w_tls := tw |>)
          | Ok tls =>
              let '(hyper, pools) := b_build (build_connector c tls resolver) (build_core c) (w_pools w) in
              (Ok {| r_accepts := accepts c; r_cookie_store := cookie_store c; r_headers := headers c; r_headers_order := headers_order c;
                     r_hyper := hyper; r_redirect := redirect_policy c; r_referer := referer c; r_total_timeout := timeout c;
                     r_read_timeout := read_timeout c; r_https_only := https_only c; r_http2_max_retry_count := http2_max_retry_count c;
                     r_proxies := ps; r_proxies_maybe_http_auth := existsb maybe_has_http_auth ps; r_network_scheme := network_scheme c;
                     r_alpn_protos := alpn_protos c; r_keylog := keylog_policy c; r_tls_sni := tls_sni c; r_verify_hostname := verify_hostname c;
                     r_identity := identity c; r_cert_store := cert_store c; r_cert_verification := cert_verification c;
                     r_min_tls_version := min_tls_version c; r_max_tls_version := max_tls_version c |},
               mkWorld tw pools)
          end
      end
  end.

(** ** [ClientUpdate] *)

Record ClientUpdate := mkUpdate { u_current : ClientRef; u_emulation : option EmulationProvider }.
(** [Client::update] of a client whose [ClientRef] is [r] *)
Definition update (r : ClientRef) : ClientUpdate := mkUpdate r None.
Definition on_current (f : ClientRef -> ClientRef) (u : ClientUpdate) : ClientUpdate := u <| u_current := f (u_current u) |>.
Definition u_headers (f : HeaderMap -> HeaderMap) : ClientUpdate -> ClientUpdate := on_current (fun r => r <| r_headers := f (r_headers r) |>).
Definition u_headers_order (o : list HeaderName) : ClientUpdate -> ClientUpdate := on_current (fun r => r <| r_headers_order := Some o |>).
Definition u_cookie_provider (s : CookieStore) : ClientUpdate -> ClientUpdate := on_current (fun r => r <| r_cookie_store := Some s |>).
Definition u_local_address (a : option IpAddr) : ClientUpdate -> ClientUpdate :=
  on_current (fun r => r <| r_network_scheme := nb_set_address a (r_network_scheme r) |>).
Definition u_local_addresses (v4 v6 : option bytes) : ClientUpdate -> ClientUpdate :=
  on_current (fun r => r <| r_network_scheme := nb_set_addresses v4 v6 (r_network_scheme r) |>).
Definition u_interface (i : bytes) : ClientUpdate -> ClientUpdate :=
  on_current (fun r => r <| r_network_scheme := nb_set_interface i (r_network_scheme r) |>).
Definition u_proxies (ps : list ProxyT) : ClientUpdate -> ClientUpdate :=
  on_current (fun r => r <| r_proxies_maybe_http_auth := existsb maybe_has_http_auth ps |> <| r_proxies := ps |>).
Definition u_unset_proxies : ClientUpdate -> ClientUpdate := on_current (fun r => r <| r_proxies := [] |> <| r_proxies_maybe_http_auth := false |>).
Definition u_emulation_ (e : EmulationProvider) (u : ClientUpdate) : ClientUpdate := u <| u_emulation := Some e |>.

Definition apply_tls_builder (r : ClientRef) (t : Tls.TlsConfig) : Tls.TlsConnectorBuilder :=
  Tls.tb_set_verify_hostname (r_verify_hostname r)
  (Tls.tb_set_tls_sni (r_tls_sni r)
  (Tls.tb_set_cert_verification (r_cert_verification r)
  (Tls.tb_set_cert_store (r_cert_store r)
  (Tls.tb_set_identity (r_identity r)
  (Tls.tb_set_keylog (r_keylog r)
  (Tls.tls_builder (override_tls (r_alpn_protos r) (r_min_tls_version r) (r_max_tls_version r) t))))))).

(** The changed copy; [apply] stores it if there is no error. *)
Definition apply_emulation (e : EmulationProvider) (r : ClientRef) (w : World) : result ClientRef CErr * World :=
  let r := match em_default_headers e with Some h => r <| r_headers := h |> | None => r end in
  let r := match em_headers_order e with Some o => r <| r_headers_order := Some o |> | None => r end in
  let r := match em_http1_config e with Some x => r <| r_hyper := set_http1_config x (r_hyper r) |> | None => r end in
  let r := match em_http2_config e with Some x => r <| r_hyper := set_http2_config x (r_hyper r) |> | None => r end in
  match em_tls_config e with
  | None => (Ok r, w)
  | Some t =>
      let '(res, tw) := Tls.build_tls (apply_tls_builder r t) (w_tls w) in
      let w := w <| w_tls := tw |> in
      match res with
      | Err e => (Err e, w)
      | Ok tls => (Ok (r <| r_hyper := (r_hyper r) <| hy_connector := Connector.set_tls_connector auth_bytes (of_tls tls) (hy_connector (r_hyper r)) |> |>), w)
      end
  end.
(** The result and the [ClientRef] of the client afterwards, [stored] being the one
    that it has when [apply] is called. *)
Definition apply (u : ClientUpdate) (stored : ClientRef) (w : World) : result unit CErr * ClientRef * World :=
  match u_emulation u with
  | None => (Ok tt, u_current u, w)
  | Some e =>
      match apply_emulation e (u_current u) w with
      | (Ok r, w) => (Ok tt, r, w)
      | (Err e, w) => (Err e, stored, w)
      end
  end.
(** [Client::cloned]: a client of its own with the same settings and the same pool. *)
Definition cloned (r : ClientRef) : ClientRef := r.
End ClientBuilder.
End ClientBuilder.
