(* ===== verification/ClientBuilderProps.v ===== *)
(** * Properties of building and changing a client

    The settings that the user gave are the ones that requests and connections have,
    also after the client was changed while it was in use. *)

From S2P Require Import Prelude Buf Http Models Decode RefHttparse Io Net Socks Tunnel Proxy ProxyProps Request Pending PendingProps CoreClient CoreClientProps Ping Pool H2Client Handles HttpConnect Connector ConnectorProps ReqBuilder ResponseBody ClientError SessionCache Multipart Tls TlsProps Dns ClientBuilder.
From coqutil Require Import Datatypes.RecordSetters.
Import TriangleBracketNotations.
Import Proxy Network Redirect ResponseBody ClientBuilder.

Section Client.
Context `{HttpCrate} {HX : HttpExtend} `{ProxyCrates} {Url : Type} `{UrlCrate Url} {PErr : Type} `{Httparse}.
Context {Uri : Type} {UC : UriCrate Uri} {W : Type} {CA : Connector.ConnApi (Uri := Uri) W}.
Context {BT : Tls.BoringTypes} {BO : Tls.Boring} {L : Type} {LS : LinkedSet Tls.SslSession L} {F : Type} {KF : KeyLog.KeyLogFs Tls.KeyLogHandle F}.
Context {LL : LinkedSetLaws Tls.SslSession L Tls.session_id}.
Context {PO SO SD ES PR CookieStore NameResolver Strategy : Type} (jar_default : CookieStore) (gai_resolver : NameResolver).
Context (hickory_new : option Strategy -> result NameResolver (ClientError.Error Url)) (cert_store_default : Tls.X509Store) (auth_bytes : Authority -> bytes).
Context (of_tls : Tls.TlsConnector -> Connector.TlsConnector) (of_resolver : Dns.Resolve (Resolver := NameResolver) -> Connector.Resolver).
Abbreviation ConfigT := (Config (Url := Url) (PErr := PErr) (W := W) (CA := CA) (PO := PO) (SO := SO) (SD := SD) (ES := ES) (PR := PR)
  (CookieStore := CookieStore) (NameResolver := NameResolver) (Strategy := Strategy)).
Abbreviation RefT := (ClientRef (Url := Url) (PErr := PErr) (W := W) (CA := CA) (PO := PO) (SO := SO) (SD := SD) (ES := ES) (PR := PR) (CookieStore := CookieStore)).
Abbreviation UpdateT := (ClientUpdate (Url := Url) (PErr := PErr) (W := W) (CA := CA) (PO := PO) (SO := SO) (SD := SD) (ES := ES) (PR := PR) (CookieStore := CookieStore)).
Abbreviation WorldT := (World (L := L) (F := F)).
Abbreviation build_ := (build gai_resolver hickory_new cert_store_default auth_bytes of_tls of_resolver).
Abbreviation apply_ := (apply auth_bytes of_tls).

(** ** A client in use *)

(** What can be done to an update before it is applied. *)
Inductive change : UpdateT -> UpdateT -> Prop :=
| ch_headers f u : change u (u_headers f u)
| ch_headers_order o u : change u (u_headers_order o u)
| ch_cookie_provider s u : change u (u_cookie_provider s u)
| ch_local_address a u : change u (u_local_address a u)
| ch_local_addresses v4 v6 u : change u (u_local_addresses v4 v6 u)
| ch_interface i u : change u (u_interface i u)
| ch_proxies ps u : change u (u_proxies ps u)
| ch_unset_proxies u : change u (u_unset_proxies u)
| ch_emulation e u : change u (u_emulation_ e u).

(** The client, the updates that were begun, and the world. *)
Record Cell := mkCell { ce_stored : RefT; ce_updates : list UpdateT; ce_world : WorldT }.

Inductive client_step (x : Cell) : Cell -> Prop :=
| cl_update : client_step x (mkCell (ce_stored x) (update (ce_stored x) :: ce_updates x) (ce_world x))
| cl_change u u' us us' : ce_updates x = us ++ u :: us' -> change u u' -> client_step x (mkCell (ce_stored x) (us ++ u' :: us') (ce_world x))
| cl_apply u us us' r stored w : ce_updates x = us ++ u :: us' -> apply_ u (ce_stored x) (ce_world x) = (r, stored, w) -> client_step x (mkCell stored (us ++ us') w)
| cl_other w : client_step x (mkCell (ce_stored x) (ce_updates x) w).

(** ** What updates keep *)

(** The connector that a configuration asks for, with its TLS part open. *)
Definition connector_of (c : ConfigT) (resolver : Dns.Resolve) (tls : Connector.TlsConnector) : Connector.ConnectorT :=
  Connector.connector_build auth_bytes (connector_layers c)
    (Connector.cb_set_socks_resolver (Some (of_resolver resolver))
    (Connector.cb_set_verbose (connection_verbose c)
    (Connector.cb_set_keepalive_retries (tcp_keepalive_retries c)
    (Connector.cb_set_keepalive_interval (tcp_keepalive_interval c)
    (Connector.cb_set_keepalive (tcp_keepalive c)
    (Connector.cb_set_timeout (connect_timeout c)
    (Connector.connector_builder (HttpConnector.set_connect_timeout (connect_timeout c) HttpConnector.new_config) tls (nodelay c) (tls_info c)))))))).

(** Replacing the TLS part of such a connector gives such a connector. *)
Lemma set_tls_connector_of c resolver tls tls' :
  Connector.set_tls_connector auth_bytes tls' (connector_of c resolver tls) = connector_of c resolver tls'.
Proof. unfold connector_of, Connector.set_tls_connector, Connector.connector_build. destruct (connector_layers c); reflexivity. Qed.

(** The resolver that a configuration asks for: the user's own, or hickory-dns if it
    was asked for, or the system's; and the user's addresses win over it. *)
Definition resolves_as (c : ConfigT) (resolver : Dns.Resolve (Resolver := NameResolver)) : Prop :=
  exists base,
    match dns_resolver c with
    | Some r => base = r
    | None => if hickory_dns c then hickory_new (dns_strategy c) = Ok base else base = gai_resolver
    end /\
    forall (DW E : Type) (lookup : NameResolver -> bytes -> DW -> result (list SocketAddr) E * DW) name w,
      Dns.resolve lookup resolver name w = match dns_overrides c !! name with Some dest => (Ok dest, w) | None => lookup base name w end.

Lemma build_resolver_as c resolver : build_resolver gai_resolver hickory_new c = Ok resolver -> resolves_as c resolver.
Proof.
  unfold build_resolver, resolves_as. intros E.
  set (r := match dns_resolver c with Some _ => _ | None => _ end) in E.
  assert (forall base, r = Ok base -> match dns_resolver c with Some r => base = r | None => if hickory_dns c then hickory_new (dns_strategy c) = Ok base else base = gai_resolver end) as Hr.
  { intros base. subst r. destruct (dns_resolver c); [by intros [= ->]|]. destruct (hickory_dns c); [done|by intros [= ->]]. }
  clearbody r. destruct r as [base|e]; [|done]. exists base. split; [by apply Hr|]. cbn in E. injection E as <-. intros DW E lookup name w.
  case_bool_decide as Hd; [by rewrite Hd, lookup_empty|]. cbn. by destruct (dns_overrides c !! name).
Qed.

(** A TLS builder with the settings of a configuration. *)
Record tls_of (c : ConfigT) (t : Tls.TlsConnectorBuilder) : Prop := {
  to_verification : Tls.tb_cert_verification t = cert_verification c;
  to_sni : Tls.tb_tls_sni t = tls_sni c;
  to_hostname : Tls.tb_verify_hostname t = verify_hostname c;
  to_identity : Tls.tb_identity t = identity c;
  to_keylog : Tls.tb_keylog_policy t = keylog_policy c;
  to_store s : cert_store c = Some s -> Tls.tb_cert_store t = Some s;
  to_alpn p : alpn_protos c = Some p -> Tls.alpn_protos (Tls.tb_config t) = p;
  to_min v : min_tls_version c = Some v -> Tls.min_tls_version (Tls.tb_config t) = Some v;
  to_max v : max_tls_version c = Some v -> Tls.max_tls_version (Tls.tb_config t) = Some v
}.

(** A [ClientRef] that still has the settings of the configuration. *)
Record settled (c : ConfigT) (resolver : Dns.Resolve) (pool : nat) (r : RefT) : Prop := {
  se_alpn : r_alpn_protos r = alpn_protos c;
  se_keylog : r_keylog r = keylog_policy c;
  se_sni : r_tls_sni r = tls_sni c;
  se_hostname : r_verify_hostname r = verify_hostname c;
  se_identity : r_identity r = identity c;
  se_store : r_cert_store r = cert_store c;
  se_verification : r_cert_verification r = cert_verification c;
  se_min : r_min_tls_version r = min_tls_version c;
  se_max : r_max_tls_version r = max_tls_version c;
  se_https_only : r_https_only r = https_only c;
  se_retries : r_http2_max_retry_count r = http2_max_retry_count c;
  se_redirect : r_redirect r = redirect_policy c;
  se_timeouts : r_total_timeout r = timeout c /\ r_read_timeout r = read_timeout c;
  se_flag : r_proxies_maybe_http_auth r = existsb maybe_has_http_auth (r_proxies r);
  se_core : hy_config (r_hyper r) = client_config (build_core c) /\ hy_pool (r_hyper r) = pool;
  se_connector : exists t tls (w0 w1 : Tls.TlsWorld (L := L) (F := F)), tls_of c t /\ Tls.build_tls (Url := Url) t w0 = (Ok tls, w1) /\
    hy_connector (r_hyper r) = connector_of c resolver (of_tls tls)
}.

Lemma override_of alpn min max t :
  (forall p, alpn = Some p -> Tls.alpn_protos (override_tls alpn min max t) = p) /\
  (forall v, min = Some v -> Tls.min_tls_version (override_tls alpn min max t) = Some v) /\
  (forall v, max = Some v -> Tls.max_tls_version (override_tls alpn min max t) = Some v).
Proof. destruct alpn, min, max; split_and!; intros ? [= <-]; reflexivity. Qed.

Lemma build_settled system (c : ConfigT) (w : WorldT) r w1 : build_ system c w = (Ok r, w1) ->
  exists resolver, build_resolver gai_resolver hickory_new c = Ok resolver /\ settled c resolver (length (w_pools w)) r.
Proof.
  unfold build. destruct (cfg_error c); [done|]. destruct (build_resolver gai_resolver hickory_new c) as [resolver|]; [|done].
  destruct (Tls.build_tls (build_tls_builder cert_store_default c) (w_tls w)) as [[tls|e] tw] eqn:Et; [|done]. cbn. intros [= <- <-].
  exists resolver. split; [done|]. split; cbn; try done. exists (build_tls_builder cert_store_default c), tls, (w_tls w), tw. split; [|done].
  destruct (override_of (alpn_protos c) (min_tls_version c) (max_tls_version c) (tls_config c)) as (Ha & Hi & Hx). split; try done.
  intros s Hs. cbn. by rewrite Hs.
Qed.

Lemma change_settled c resolver pool u u' : change u u' -> settled c resolver pool (u_current u) -> settled c resolver pool (u_current u').
Proof. intros Hc [? ? ? ? ? ? ? ? ? ? ? ? ? Hf ? ?]. destruct Hc, u as [r em]; destruct r; split; try done. Qed.

Lemma apply_emulation_settled c resolver pool e r (w w' : WorldT) r' :
  apply_emulation auth_bytes of_tls e r w = (Ok r', w') -> settled c resolver pool r -> settled c resolver pool r'.
Proof.
  intros E Hs. unfold apply_emulation in E.
  set (r1 := match em_default_headers e with Some h => r <| r_headers := h |> | None => r end) in E.
  set (r2 := match em_headers_order e with Some o => r1 <| r_headers_order := Some o |> | None => r1 end) in E.
  set (r3 := match em_http1_config e with Some x => r2 <| r_hyper := set_http1_config x (r_hyper r2) |> | None => r2 end) in E.
  set (r4 := match em_http2_config e with Some x => r3 <| r_hyper := set_http2_config x (r_hyper r3) |> | None => r3 end) in E.
  assert (settled c resolver pool r4) as H4.
  { assert (settled c resolver pool r1) as H1' by (subst r1; destruct (em_default_headers e); [destruct Hs, r; by split|done]).
    assert (settled c resolver pool r2) as H2' by (subst r2; destruct (em_headers_order e); [destruct H1', r1; by split|done]).
    assert (settled c resolver pool r3) as H3' by (subst r3; destruct (em_http1_config e); [destruct H2', r2 as [? ? ? ? []]; by split|done]).
    subst r4; destruct (em_http2_config e); [destruct H3', r3 as [? ? ? ? []]; by split|done]. }
  clearbody r4. clear r1 r2 r3. destruct (em_tls_config e) as [t|]; [|by injection E as <- _].
  destruct (Tls.build_tls (apply_tls_builder r4 t) (w_tls w)) as [[tls|e'] tw] eqn:Et; [|done]. injection E as <- _.
  destruct H4 as [Ha Hk Hsn Hh Hi Hst Hv Hmi Hma ? ? ? ? ? Hco (t0 & tls0 & w0 & w1 & _ & _ & Ec)].
  assert (tls_of c (apply_tls_builder r4 t)) as Hto.
  { destruct (override_of (r_alpn_protos r4) (r_min_tls_version r4) (r_max_tls_version r4) t) as (Hoa & Hoi & Hox).
    split; cbn; try done; rewrite <- ?Hst, <- ?Ha, <- ?Hmi, <- ?Hma; done. }
  destruct r4 as [? ? ? ? [] ? ? ? ? ? ? ? ? ? ? ? ? ? ? ? ? ? ?]. cbn in *. split; try done; cbn.
  eexists _, tls, _, _. split; [exact Hto|]. split; [exact Et|]. by rewrite Ec, set_tls_connector_of.
Qed.

Record cell_ok (c : ConfigT) (resolver : Dns.Resolve) (pool : nat) (x : Cell) : Prop := {
  co_stored : settled c resolver pool (ce_stored x);
  co_updates : Forall (fun u => settled c resolver pool (u_current u)) (ce_updates x)
}.

Lemma client_step_ok c resolver pool x y : client_step x y -> cell_ok c resolver pool x -> cell_ok c resolver pool y.
Proof.
  intros Hs [Hst Hus]. destruct Hs as [|u u' us us' E Hc|u us us' r stored w E Ea|w].
  - split; [done|]. by constructor.
  - split; [done|]. cbn. rewrite E in Hus. apply Forall_app in Hus as [H1' H2']. apply Forall_cons in H2' as [Hu H2'].
    apply Forall_app. split; [done|]. constructor; [by eapply change_settled|done].
  - rewrite E in Hus. apply Forall_app in Hus as [H1' H2']. apply Forall_cons in H2' as [Hu H2']. split; [|cbn; by apply Forall_app].
    cbn. unfold apply in Ea. destruct (u_emulation u) as [e|]; [|by injection Ea as _ <- _].
    destruct (apply_emulation auth_bytes of_tls e (u_current u) (ce_world x)) as [[r'|e'] w'] eqn:Ee; injection Ea as _ <- _; [|done].
    by eapply apply_emulation_settled.
  - done.
Qed.

Lemma reach_settled system (c : ConfigT) (w : WorldT) r w1 x : build_ system c w = (Ok r, w1) -> rtc client_step (mkCell r [] w1) x ->
  exists resolver, resolves_as c resolver /\ settled c resolver (length (w_pools w)) (ce_stored x).
Proof.
  intros (resolver & Hb%build_resolver_as & Hr)%build_settled Hs. exists resolver. split; [done|].
  assert (cell_ok c resolver (length (w_pools w)) (mkCell r [] w1)) as H0' by (by split).
  assert (cell_ok c resolver (length (w_pools w)) x) as [? _]; [|done]. clear Hr.
  induction Hs as [|y z v Hy _ IH]; [done|]. by apply IH, (client_step_ok _ _ _ y).
Qed.




(** An update that fails changes nothing. *)
Lemma apply_error (u : UpdateT) stored (w w' : WorldT) e stored' : apply_ u stored w = (Err e, stored', w') -> stored' = stored.
Proof.
  unfold apply. destruct (u_emulation u) as [em|]; [|done]. destruct (apply_emulation auth_bytes of_tls em (u_current u) w) as [[r|e'] w1]; [done|]. by intros [= _ <- _].
Qed.

(** Of two updates that were begun together the one that is applied last wins whole:
    the changes of the other are lost. *)
Lemma update_lost (r : RefT) f o (w : WorldT) :
  let '(_, r1, w1) := apply_ (u_headers f (update r)) r w in
  let '(_, r2, _) := apply_ (u_headers_order o (update r)) r1 w1 in
  r_headers r1 = f (r_headers r) /\ r_headers r2 = r_headers r.
Proof. destruct r. done. Qed.

(** Without a store of the user's, a client trusts the default store, until an emulation
    with TLS settings is applied to it: from then on it trusts the system's paths. *)
Lemma emulation_changes_trust (c : ConfigT) (r : RefT) t : cert_store c = None -> r_cert_store r = None ->
  trust_calls (Tls.tb_cert_store (build_tls_builder cert_store_default c)) = Tls.SetCertStore cert_store_default /\
  trust_calls (Tls.tb_cert_store (apply_tls_builder r t)) = Tls.SetDefaultVerifyPaths.
Proof. intros Hc Hr. cbn. by rewrite Hc, Hr. Qed.

(** ** The builder's calls *)

(** A call of a method of the builder that returns; with [off], also the calls that
    turn a check off. *)
Inductive builder_step (off : bool) (c : ConfigT) : ConfigT -> Prop :=
| scb_headers_order x : builder_step off c (cb_headers_order x c)
| scb_cookie_provider x : builder_step off c (cb_cookie_provider x c)
| scb_gzip x : builder_step off c (cb_gzip x c)
| scb_brotli x : builder_step off c (cb_brotli x c)
| scb_zstd x : builder_step off c (cb_zstd x c)
| scb_deflate x : builder_step off c (cb_deflate x c)
| scb_redirect x : builder_step off c (cb_redirect x c)
| scb_referer x : builder_step off c (cb_referer x c)
| scb_no_proxy : builder_step off c (cb_no_proxy c)
| scb_timeout x : builder_step off c (cb_timeout x c)
| scb_read_timeout x : builder_step off c (cb_read_timeout x c)
| scb_connect_timeout x : builder_step off c (cb_connect_timeout x c)
| scb_connection_verbose x : builder_step off c (cb_connection_verbose x c)
| scb_pool_idle_timeout x : builder_step off c (cb_pool_idle_timeout x c)
| scb_pool_max_idle_per_host x : builder_step off c (cb_pool_max_idle_per_host x c)
| scb_no_keepalive : builder_step off c (cb_no_keepalive c)
| scb_http1_only : builder_step off c (cb_http1_only c)
| scb_http2_only : builder_step off c (cb_http2_only c)
| scb_http2_max_retry_count x : builder_step off c (cb_http2_max_retry_count x c)
| scb_tcp_nodelay x : builder_step off c (cb_tcp_nodelay x c)
| scb_local_address x : builder_step off c (cb_local_address x c)
| scb_local_addresses v4 v6 : builder_step off c (cb_local_addresses v4 v6 c)
| scb_interface x : builder_step off c (cb_interface x c)
| scb_tcp_keepalive x : builder_step off c (cb_tcp_keepalive x c)
| scb_tcp_keepalive_interval x : builder_step off c (cb_tcp_keepalive_interval x c)
| scb_tcp_keepalive_retries x : builder_step off c (cb_tcp_keepalive_retries x c)
| scb_identity x : builder_step off c (cb_identity x c)
| scb_cert_verification x : off = true \/ x = true -> builder_step off c (cb_cert_verification x c)
| scb_cert_store x : builder_step off c (cb_cert_store x c)
| scb_tls_sni x : off = true \/ x = true -> builder_step off c (cb_tls_sni x c)
| scb_keylog x : builder_step off c (cb_keylog x c)
| scb_verify_hostname x : off = true \/ x = true -> builder_step off c (cb_verify_hostname x c)
| scb_min_tls_version x : builder_step off c (cb_min_tls_version x c)
| scb_max_tls_version x : builder_step off c (cb_max_tls_version x c)
| scb_tls_info x : builder_step off c (cb_tls_info x c)
| scb_https_only x : builder_step off c (cb_https_only x c)
| scb_hickory_dns_strategy x : builder_step off c (cb_hickory_dns_strategy x c)
| scb_no_hickory_dns : builder_step off c (cb_no_hickory_dns c)
| scb_dns_resolver x : builder_step off c (cb_dns_resolver x c)
| scb_user_agent v : builder_step off c (cb_user_agent v c)
| scb_default_headers h c' : cb_default_headers h c = Some c' -> builder_step off c c'
| scb_cookie_store b : builder_step off c (cb_cookie_store jar_default b c)
| scb_pool_max_size n : builder_step off c (cb_pool_max_size n c)
| scb_proxy p : builder_step off c (cb_proxy p c)
| scb_emulation e : builder_step off c (cb_emulation e c)
| scb_ssl_pinning l : builder_step off c (cb_ssl_pinning l c)
| scb_resolve d a : builder_step off c (cb_resolve d a c)
| scb_resolve_to_addrs d l : builder_step off c (cb_resolve_to_addrs d l c)
| scb_connector_layer l : builder_step off c (cb_connector_layer l c).

Lemma builder_step_keeps off c c' : builder_step off c c' ->
  (is_Some (cfg_error c) -> is_Some (cfg_error c')) /\
  (off = false -> cert_verification c = true /\ verify_hostname c = true /\ tls_sni c = true ->
    cert_verification c' = true /\ verify_hostname c' = true /\ tls_sni c' = true).
Proof.
  intros Hs. destruct Hs; try (split; [done|done]); try (match goal with Hx : off = true \/ _ = true |- _ => split; [done|intros -> (? & ? & ?); destruct Hx as [?| ->]; [done|by split_and!]] end);
    unfold cb_user_agent, cb_default_headers, cb_cookie_store, cb_proxy, cb_emulation, cb_ssl_pinning in *.
  all: try match goal with Hx : (_ ← ?h; _) = Some _ |- _ => destruct h; [cbn in Hx; injection Hx as <-|done] end.
  all: repeat case_match; split; done.
Qed.

(** A call that fails makes [build] fail, whatever is called after it, and nothing is
    made; and a client verifies certificates and host names and sends the server name
    unless the user turned that off. *)
Theorem builder_safe off c1 c : rtc (builder_step off) c1 c ->
  (is_Some (cfg_error c1) -> forall system (w : WorldT), exists e, build_ system c w = (Err e, w)) /\
  (off = false -> c1 = builder_config -> cert_verification c = true /\ verify_hostname c = true /\ tls_sni c = true).
Proof.
  intros Hr. assert ((is_Some (cfg_error c1) -> is_Some (cfg_error c)) /\
    (off = false -> cert_verification c1 = true /\ verify_hostname c1 = true /\ tls_sni c1 = true -> cert_verification c = true /\ verify_hostname c = true /\ tls_sni c = true)) as [He Hv].
  { induction Hr as [|c1 c2 c3 Hs _ [IHe IHv]]; [done|]. apply builder_step_keeps in Hs as [? ?]. split; auto. }
  split.
  - intros [e Ee]%He system w. exists e. unfold build. by rewrite Ee.
  - intros Ho ->. by apply Hv.
Qed.

(** ** Proxies *)

Context {DU : Dst Uri} (features : Accepts) (uri_is_http : Uri -> bool).

(** A proxy that the flag does not count has no credentials for any destination. *)
Lemma no_http_auth (p : Proxy (Url := Url)) (dst : Uri) : maybe_has_http_auth p = false -> (exists b, is_match p dst = Some b) /\ http_basic_auth p dst = Some None.
Proof.
  unfold maybe_has_http_auth, is_match, http_basic_auth. destruct (p_intercept p) as [s|s|s|m|cu]; intros Hm; try done; (split; [by eexists|]); [..|done|];
    apply bool_decide_eq_false in Hm; f_equal; by apply eq_None_not_Some.
Qed.

Lemma auth_from_none (ps : list (Proxy (Url := Url))) (dst : Uri) h :
  existsb maybe_has_http_auth ps = false -> Forall (fun p => http_headers p = None) ps -> Pending.auth_from ps dst h = Some h.
Proof.
  intros He Hh. induction Hh as [|p ps Hp _ IH]; [done|]. cbn in He. apply orb_false_iff in He as [Hm He]. cbn.
  destruct (no_http_auth p dst Hm) as [[b ->] Ha]. cbn. destruct b; [|by apply IH]. by rewrite Ha; cbn; rewrite Hp.
Qed.

(** C20. The shortcut for proxy credentials is exact.  In every client, however it was
    built and changed, the flag that lets a request skip the proxies changes nothing:
    the headers of a request are those that looking at all the proxies gives, if no
    proxy has headers of its own. *)
Theorem proxy_auth_exact system (c : ConfigT) (w : WorldT) r w1 x (dst : Uri) h :
  build_ system c w = (Ok r, w1) -> rtc client_step (mkCell r [] w1) x -> Forall (fun p => http_headers p = None) (r_proxies (ce_stored x)) ->
  Pending.proxy_auth uri_is_http (request_view features (ce_stored x)) dst h =
  if uri_is_http dst && negb (contains_key PROXY_AUTHORIZATION h) then Pending.auth_from (r_proxies (ce_stored x)) dst h else Some h.
Proof.
  intros Hb Hr Hh. destruct (reach_settled system c w r w1 x Hb Hr) as (resolver & _ & Hs). unfold Pending.proxy_auth, request_view.
  cbn [Pending.c_proxies_maybe_http_auth Pending.c_proxies]. rewrite (se_flag _ _ _ _ Hs).
  destruct (existsb maybe_has_http_auth (r_proxies (ce_stored x))) eqn:He; cbn [negb].
  - destruct (uri_is_http dst), (contains_key PROXY_AUTHORIZATION h); done.
  - rewrite auth_from_none by done. by destruct (uri_is_http dst && _).
Qed.

(** With headers of its own but without credentials, a proxy's headers are not sent,
    although looking at the proxy gives them. *)
Lemma proxy_headers_need_auth (p : Proxy (Url := Url)) more (r : RefT) (dst : Uri) h :
  http_headers p = Some more -> maybe_has_http_auth p = false -> is_match p dst = Some true ->
  r_proxies r = [p] -> r_proxies_maybe_http_auth r = existsb maybe_has_http_auth (r_proxies r) ->
  Pending.proxy_auth uri_is_http (request_view features r) dst h = Some h /\ Pending.auth_from (r_proxies r) dst h = Some (hm_extend h more).
Proof.
  intros Hh Hm Hi Hp Hf. unfold Pending.proxy_auth. cbn. rewrite Hf, Hp. cbn. rewrite Hm, Hi. cbn. destruct (no_http_auth p dst Hm) as [_ ->]. cbn. by rewrite Hh.
Qed.
End Client.

(** ** At a concrete input *)

Module RefClientBuilder.
Import RefHttp RefHttparse RefUrl RefClient RefCore RefConnector RefTls SessionCache.RefSessions.

#[export] Instance ref_dst_uri : Dst UriParts := {| dst_scheme := fun u => default [] (up_scheme u); dst_host := fun u => default [] (up_authority u); dst_port := fun _ => None |}.
Abbreviation WorldR := (World (L := ref_set) (F := nat)).
Abbreviation RefConfig := (Config (Url := url) (PErr := unit) (Uri := UriParts) (W := Net) (PO := unit) (SO := unit) (SD := unit) (ES := unit) (PR := unit)
  (CookieStore := unit) (NameResolver := unit) (Strategy := unit)).
Definition start : WorldR := ClientBuilder.mkWorld RefTls.world0 [].
Definition no_hickory (_ : option unit) : result unit (ClientError.Error url) := Ok tt.
Definition no_store : Tls.X509Store (BoringTypes := ref_boring_types) := [].
Definition to_unit (_ : Tls.TlsConnector) : Connector.TlsConnector (ConnApi := ref_conn_api) := tt.
Definition to_resolver (_ : Dns.Resolve (Resolver := unit)) : Connector.Resolver (ConnApi := ref_conn_api) := tt.
Abbreviation ref_build := (build (F := nat) (L := ref_set) tt no_hickory no_store as_text to_unit to_resolver (proxy_new (IHttps (PHttp None (bs "p") None)))).

(** A client without verification that is given other TLS settings while it is in use. *)
Definition config : RefConfig := cb_cert_verification false builder_config.
Abbreviation emulated := (u_emulation_ (e_tls_config (Some RefTls.resuming) emulation_default)).
Definition get_ref {A E W} (r : result A E * W) (H : match r.1 with Ok _ => true | Err _ => false end = true) : A :=
  match r as r return match r.1 with Ok _ => true | Err _ => false end = true -> A with
  | (Ok a, _) => fun _ => a
  | (Err _, _) => fun H => match Bool.diff_false_true H with end
  end H.
Lemma get_ref_ok {A E W} (r : result A E * W) H : r = (Ok (get_ref r H), r.2).
Proof. by destruct r as [[a|e] w]. Qed.
Definition built := get_ref (ref_build config start) eq_refl.
Definition built_world := (ref_build config start).2.
Definition updated := (apply as_text to_unit (emulated (update built)) built built_world).

Lemma built_ok : ref_build config start = (Ok built, built_world).
Proof. apply get_ref_ok. Qed.

Lemma updated_reach : rtc (client_step as_text to_unit) (mkCell built [] built_world) (mkCell updated.1.2 [] updated.2).
Proof.
  apply (rtc_l _ _ (mkCell built [update built] built_world)); [apply cl_update|].
  apply (rtc_l _ _ (mkCell built [emulated (update built)] built_world)).
  - exact (cl_change as_text to_unit (mkCell built [update built] built_world) (update built) (emulated (update built)) [] [] eq_refl (ch_emulation _ _)).
  - apply rtc_once. apply (cl_apply as_text to_unit (mkCell built [emulated (update built)] built_world) (emulated (update built)) [] [] updated.1.1); [done|].
    cbn [ce_stored ce_world]. fold updated. by destruct updated as [[r st] w].
Qed.


Lemma proxy_auth_exact_witness :
  Pending.proxy_auth (fun _ => true) (request_view accepts_default updated.1.2) secure hm_new = Some hm_new.
Proof.
  rewrite (proxy_auth_exact tt no_hickory no_store as_text to_unit to_resolver accepts_default (fun _ => true) _ config start built built_world _ secure hm_new built_ok updated_reach).
  - vm_compute. reflexivity.
  - cbn [ce_stored]. assert (r_proxies updated.1.2 = [proxy_new (IHttps (PHttp None (bs "p") None))]) as -> by reflexivity. by repeat constructor.
Defined.

Lemma builder_safe_witness : cert_verification (cb_http2_only builder_config : RefConfig) = true.
Proof.
  assert (rtc (builder_step (BT := ref_boring_types) tt false) (builder_config : RefConfig) (cb_http2_only builder_config)) as Hr by exact (rtc_once _ _ (scb_http2_only tt false builder_config)).
  exact (proj1 (proj2 (builder_safe (L := ref_set) (F := nat) tt tt no_hickory no_store as_text to_unit to_resolver false _ _ Hr) eq_refl eq_refl)).
Defined.
End RefClientBuilder.
