(* ===== verification/Cookie.v ===== *)
(** * Cookies (src/src/cookie.rs)

    Cookies, their builder and the jar.  The cookie crate, which reads and makes single
    cookies, and the cookie_store crate, which keeps them, are interfaces.  With the
    properties: what a jar gives for a request are the valid header values of the
    cookies that its store has for the URL, and a header that is no cookie changes
    nothing. *)

From S2P Require Import Prelude Http Proxy.

Module Cookie.

Inductive SameSite := Strict | Lax | NoneSite.
Inductive Expiration := DateTime (t : Z) | Session.
#[global] Instance SameSite_eqdec : EqDecision SameSite.
Proof. solve_decision. Defined.

(** A cookie of the cookie crate; spans of time, which may be negative, in
    nanoseconds. *)
Class CookieCrate := {
  RawCookie : Type;
  raw_new : bytes -> bytes -> RawCookie;
  (* of a string *)
  raw_parse : bytes -> option RawCookie;
  raw_name : RawCookie -> bytes;
  raw_value : RawCookie -> bytes;
  raw_http_only : RawCookie -> option bool;
  raw_secure : RawCookie -> option bool;
  raw_same_site : RawCookie -> option SameSite;
  raw_path : RawCookie -> option bytes;
  raw_domain : RawCookie -> option bytes;
  raw_max_age : RawCookie -> option Z;
  raw_expires : RawCookie -> option Expiration;
  set_http_only : bool -> RawCookie -> RawCookie;
  set_secure : bool -> RawCookie -> RawCookie;
  set_same_site : SameSite -> RawCookie -> RawCookie;
  set_path : bytes -> RawCookie -> RawCookie;
  set_domain : bytes -> RawCookie -> RawCookie;
  set_max_age : Z -> RawCookie -> RawCookie;
  set_expires : Expiration -> RawCookie -> RawCookie
}.

(** A store of the cookie_store crate. *)
Class StoreCrate `{CookieCrate} (Url St : Type) := {
  store_default : St;
  store_response_cookies : list RawCookie -> Url -> St -> St;
  insert_raw : RawCookie -> Url -> St -> St;
  store_remove : bytes -> bytes -> bytes -> St -> St;
  store_clear : St -> St;
  get_request_values : Url -> St -> list (bytes * bytes)
}.

Section Cookie.
Context {CC : CookieCrate} `{HttpCrate} (is_utf8 : bytes -> bool).

(** ** [Cookie] and [CookieBuilder] *)

Definition Cookie := RawCookie.
Definition parse (value : HeaderValue) : option Cookie := if is_utf8 value then raw_parse value else None.
Definition new (name value : bytes) : Cookie := raw_new name value.
Definition name (c : Cookie) : bytes := raw_name c.
Definition value (c : Cookie) : bytes := raw_value c.
Definition http_only (c : Cookie) : bool := default false (raw_http_only c).
Definition secure (c : Cookie) : bool := default false (raw_secure c).
Definition same_site_lax (c : Cookie) : bool := bool_decide (raw_same_site c = Some Lax).
Definition same_site_strict (c : Cookie) : bool := bool_decide (raw_same_site c = Some Strict).
Definition path (c : Cookie) : option bytes := raw_path c.
Definition domain (c : Cookie) : option bytes := raw_domain c.
(** A negative span is no [std::time::Duration]. *)
Definition max_age (c : Cookie) : option Z := d ← raw_max_age c; if 0 <=? d then Some d else None.
Definition expires (c : Cookie) : option Z := match raw_expires c with Some (DateTime t) => Some t | _ => None end.

Definition CookieBuilder := RawCookie.
Definition builder (name value : bytes) : CookieBuilder := raw_new name value.
Definition b_http_only (x : bool) (b : CookieBuilder) : CookieBuilder := set_http_only x b.
Definition b_secure (x : bool) (b : CookieBuilder) : CookieBuilder := set_secure x b.
Definition b_same_site (x : SameSite) (b : CookieBuilder) : CookieBuilder := set_same_site x b.
Definition b_path (x : bytes) (b : CookieBuilder) : CookieBuilder := set_path x b.
Definition b_domain (x : bytes) (b : CookieBuilder) : CookieBuilder := set_domain x b.
Definition b_max_age (x : Z) (b : CookieBuilder) : CookieBuilder := set_max_age x b.
Definition b_expires (x : Expiration) (b : CookieBuilder) : CookieBuilder := set_expires x b.
Definition build (b : CookieBuilder) : Cookie := b.

Definition SET_COOKIE : HeaderName := bs "set-cookie".
Definition extract_response_cookie_headers (h : HeaderMap) : list HeaderValue := hm_get_all SET_COOKIE h.
Definition extract_response_cookies (h : HeaderMap) : list (option Cookie) := parse <$> hm_get_all SET_COOKIE h.

(** ** [Jar] *)

Context {Url St : Type} {UCr : UrlCrate Url} {SC : StoreCrate Url St} (url_path : Url -> bytes).

Definition Jar := St.
Definition jar_default : Jar := store_default.
Definition add_cookie_str (cookie : bytes) (u : Url) (j : Jar) : Jar := store_response_cookies (option_list (raw_parse cookie)) u j.
Definition add_cookie (c : Cookie) (u : Url) (j : Jar) : Jar := insert_raw c u j.
Definition remove (n : bytes) (u : Url) (j : Jar) : Jar :=
  match url_host_str u with Some d => store_remove d (url_path u) n j | None => j end.
Definition clear (j : Jar) : Jar := store_clear j.
Definition set_cookies (hs : list HeaderValue) (u : Url) (j : Jar) : Jar := store_response_cookies (omap parse hs) u j.

(** The loop of [cookies]. *)
Fixpoint cookie_values (l : list (bytes * bytes)) : list HeaderValue :=
  match l with
  | [] => []
  | (n, v) :: l => match hv_from_bytes (n ++ bs "=" ++ v) with Some c => c :: cookie_values l | None => cookie_values l end
  end.
Definition cookies (u : Url) (j : Jar) : option (list HeaderValue) :=
  match cookie_values (get_request_values u j) with [] => None | l => Some l end.

(** ** Properties *)

(** What a jar gives are, in the store's order, the header values "name=value" of the
    cookies for the URL, without those that are none; nothing if there are none. *)
Lemma jar_values u j :
  default [] (cookies u j) = omap (fun nv => hv_from_bytes (nv.1 ++ bs "=" ++ nv.2)) (get_request_values u j) /\ cookies u j <> Some [].
Proof.
  unfold cookies. assert (forall l, cookie_values l = omap (fun nv => hv_from_bytes (nv.1 ++ bs "=" ++ nv.2)) l) as ->.
  { intros l. induction l as [|[n v] l IH]; [done|]. cbn. rewrite IH. done. }
  destruct (omap _ _); done.
Qed.

(** A Set-Cookie value that is no cookie changes nothing, wherever it is. *)
Lemma bad_cookie_ignored before bad after u j : parse bad = None -> set_cookies (before ++ bad :: after) u j = set_cookies (before ++ after) u j.
Proof. intros Hb. unfold set_cookies. rewrite !omap_app. cbn. by rewrite Hb. Qed.
End Cookie.
End Cookie.
