(* ===== verification/RtIo.v ===== *)
(** * Read buffers and the adapters to tokio's I/O traits
    (src/src/core/rt/io.rs, src/src/core/rt/tokio.rs, src/src/core/common/io/compat.rs)

    The rest of the library has a transport that is asked for at most [n] bytes and
    yields some ([poll_read] of [Transport]).  In the program a reader is given a
    buffer of memory that need not be initialised, and moves two cursors in it, with
    unsafe code in the adapters between the core's traits and tokio's.  Here is that
    memory: a cell holds a byte or is uninitialised, and reading an uninitialised
    cell is undefined behaviour, a result of its own.  The theorems show that readers
    on such memory are the transports of the other files. *)

From S2P Require Import Prelude Buf WriteBuf Oneshot Decode Error Io IoFacts IoProps Upgrade.

Module RtIo.

(** ** Memory *)

(** [MaybeUninit<u8>] *)
Definition cell := option byte.

Inductive mem (A : Type) : Type :=
| MVal (a : A)
| MPanic
| MUndefined.
Arguments MVal {A} _.
Arguments MPanic {A}.
Arguments MUndefined {A}.

Definition mbind {A B} (m : mem A) (k : A -> mem B) : mem B :=
  match m with MVal a => k a | MPanic => MPanic | MUndefined => MUndefined end.
Declare Scope mem_scope.
Delimit Scope mem_scope with mem.
Notation "'let!' x := m 'in' k" := (mbind m (fun x => k))
  (at level 10, x pattern at level 0, m at level 100, k at level 200) : mem_scope.
Open Scope mem_scope.

(** The cells as bytes, if all are initialised. *)
Definition assume_init_all (l : list cell) : mem bytes := match mapM id l with Some b => MVal b | None => MUndefined end.

(** ** [ReadBuf] *)

Record ReadBuf := mkReadBuf { raw : list cell; rb_filled : Z; rb_init : Z }.

Definition rb_new (b : bytes) : ReadBuf := mkReadBuf (Some <$> b) 0 (len b).
Definition uninit (l : list cell) : ReadBuf := mkReadBuf l 0 0.
Definition filled (b : ReadBuf) : mem bytes :=
  if len (raw b) <? rb_filled b then MPanic else assume_init_all (ztake (rb_filled b) (raw b)).
Definition set_init (n : Z) (b : ReadBuf) : ReadBuf := mkReadBuf (raw b) (rb_filled b) (Z.max (rb_init b) n).
Definition set_filled (n : Z) (b : ReadBuf) : ReadBuf := mkReadBuf (raw b) (Z.max (rb_filled b) n) (rb_init b).
Definition capacity (b : ReadBuf) : Z := len (raw b).
Definition rb_remaining (b : ReadBuf) : Z := wsub (capacity b) (rb_filled b).

(** ** [ReadBufCursor]: a reference to the buffer *)

Definition as_mut (b : ReadBuf) : mem (list cell) :=
  if len (raw b) <? rb_filled b then MPanic else MVal (zdrop (rb_filled b) (raw b)).
(** The memory after the cells that [as_mut] lent were written. *)
Definition written (b : ReadBuf) (l : list cell) : ReadBuf := mkReadBuf (ztake (rb_filled b) (raw b) ++ l) (rb_filled b) (rb_init b).
Definition advance (n : Z) (b : ReadBuf) : mem ReadBuf :=
  match checked_add (rb_filled b) n with
  | None => MPanic
  | Some f => MVal (mkReadBuf (raw b) f (Z.max f (rb_init b)))
  end.
Definition put_slice (src : bytes) (b : ReadBuf) : mem ReadBuf :=
  if rb_remaining b <? len src then MPanic
  else
    let e := wadd (rb_filled b) (len src) in
    if (e <? rb_filled b) || (len (raw b) <? e) then MPanic
    else
      MVal (mkReadBuf (ztake (rb_filled b) (raw b) ++ (Some <$> src) ++ zdrop e (raw b)) e
        (if rb_init b <? e then e else rb_init b)).

(** [Read]: a poll on a buffer. *)
Class CoreRead (IO : Type) := {
  core_poll_read : IO -> ReadBuf -> mem (poll_res io_error unit * IO * ReadBuf)
}.

(** ** tokio's [ReadBuf] and [AsyncRead]

    [tb_inner] is the memory, [tb_set_inner] the buffer after its memory was written
    through [inner_mut] or [unfilled_mut]. *)
Class TokioBuf (TB : Type) := {
  tb_uninit : list cell -> TB;
  tb_inner : TB -> list cell;
  tb_filled : TB -> Z;
  tb_initialized : TB -> Z;
  tb_set_inner : list cell -> TB -> TB;
  tb_assume_init : Z -> TB -> TB;
  tb_set_filled : Z -> TB -> mem TB
}.
Definition view {TB} `{TokioBuf TB} (t : TB) : ReadBuf := mkReadBuf (tb_inner t) (tb_filled t) (tb_initialized t).

(** As documented: [assume_init n] asserts that the first [n] unfilled bytes are
    initialised and does nothing if that is known; [set_filled] panics if the filled
    region would become larger than the initialised one. *)
Class TokioBufLaws (TB : Type) `{TokioBuf TB} := {
  tb_uninit_view l : view (tb_uninit l) = mkReadBuf l 0 0;
  tb_set_inner_view l t : view (tb_set_inner l t) = mkReadBuf l (tb_filled t) (tb_initialized t);
  tb_assume_init_view n t :
    view (tb_assume_init n t) = mkReadBuf (tb_inner t) (tb_filled t) (Z.max (tb_initialized t) (tb_filled t + n));
  tb_set_filled_panics n t : tb_initialized t < n -> tb_set_filled n t = MPanic;
  tb_set_filled_view n t :
    n <= tb_initialized t -> exists t', tb_set_filled n t = MVal t' /\ view t' = mkReadBuf (tb_inner t) n (tb_initialized t)
}.

Class AsyncRead (TB IO : Type) := {
  tokio_poll_read : IO -> TB -> mem (poll_res io_error unit * IO * TB)
}.

(** ** The adapters *)

Record TokioIo (IO : Type) := mkTokioIo { io_inner : IO }.
Arguments mkTokioIo {IO} _.
Arguments io_inner {IO} _.
Record Compat (IO : Type) := mkCompat { compat_inner : IO }.
Arguments mkCompat {IO} _.
Arguments compat_inner {IO} _.

Section Adapters.
Context {TB : Type} {HB : TokioBuf TB} {IO : Type}.

(** [Read for TokioIo] *)
Definition tokio_io_poll_read {HR : AsyncRead TB IO} (io : TokioIo IO) (buf : ReadBuf)
    : mem (poll_res io_error unit * TokioIo IO * ReadBuf) :=
  let! l := as_mut buf in
  let! (r, io', tbuf) := tokio_poll_read (io_inner io) (tb_uninit l) in
  let buf := written buf (tb_inner tbuf) in
  match r with
  | RVal _ => let! buf := advance (tb_filled tbuf) buf in MVal (RVal tt, mkTokioIo io', buf)
  | other => MVal (other, mkTokioIo io', buf)
  end.
#[export] Instance tokio_io_read {HR : AsyncRead TB IO} : CoreRead (TokioIo IO) := {| core_poll_read := tokio_io_poll_read |}.

(** [AsyncRead for TokioIo] *)
Definition tokio_io_async_poll_read {HR : CoreRead IO} (io : TokioIo IO) (tbuf : TB)
    : mem (poll_res io_error unit * TokioIo IO * TB) :=
  let f := tb_filled tbuf in
  let! (r, io', buf) := core_poll_read (io_inner io) (uninit (zdrop f (tb_inner tbuf))) in
  let tbuf := tb_set_inner (ztake f (tb_inner tbuf) ++ raw buf) tbuf in
  match r with
  | RVal _ =>
      let! sub := filled buf in
      let sub_filled := len sub in
      let n_filled := wadd f sub_filled in
      let n_init := sub_filled in
      let! tbuf := tb_set_filled n_filled (tb_assume_init n_init tbuf) in
      MVal (RVal tt, mkTokioIo io', tbuf)
  | other => MVal (other, mkTokioIo io', tbuf)
  end.
#[export] Instance tokio_io_async_read {HR : CoreRead IO} : AsyncRead TB (TokioIo IO) := {| tokio_poll_read := tokio_io_async_poll_read |}.

(** [AsyncRead for Compat] *)
Definition compat_poll_read {HR : CoreRead IO} (io : Compat IO) (tbuf : TB)
    : mem (poll_res io_error unit * Compat IO * TB) :=
  let init := tb_initialized tbuf in
  let f := tb_filled tbuf in
  let! (r, io', buf) := core_poll_read (compat_inner io) (set_filled f (set_init init (uninit (tb_inner tbuf)))) in
  let tbuf := tb_set_inner (raw buf) tbuf in
  match r with
  | RVal _ =>
      let new_init := rb_init buf in
      let new_filled := rb_filled buf in
      let n_init := wsub new_init init in
      let! tbuf := tb_set_filled new_filled (tb_assume_init n_init tbuf) in
      MVal (RVal tt, mkCompat io', tbuf)
  | other => MVal (other, mkCompat io', tbuf)
  end.
#[export] Instance compat_async_read {HR : CoreRead IO} : AsyncRead TB (Compat IO) := {| tokio_poll_read := compat_poll_read |}.

(** [Read for Rewind], on the memory. *)
Definition rewind_mem_poll_read {HR : CoreRead IO} (r : Upgrade.Rewind IO) (buf : ReadBuf)
    : mem (poll_res io_error unit * Upgrade.Rewind IO * ReadBuf) :=
  let through :=
    let! (x, io, buf) := core_poll_read (Upgrade.rw_inner r) buf in MVal (x, Upgrade.mkRewind None io, buf) in
  match Upgrade.pre r with
  | Some prefix =>
      if bool_decide (prefix = []) then through
      else
        let copy_len := Z.min (len prefix) (rb_remaining buf) in
        let! buf := put_slice (ztake copy_len prefix) buf in
        let rest := zdrop copy_len prefix in
        MVal (RVal tt, Upgrade.mkRewind (if bool_decide (rest = []) then None else Some rest) (Upgrade.rw_inner r), buf)
  | None => through
  end.
#[export] Instance rewind_read {HR : CoreRead IO} : CoreRead (Upgrade.Rewind IO) := {| core_poll_read := rewind_mem_poll_read |}.

(** A poll of [read]: into a slice of initialised bytes; yields how many and the slice. *)
Definition read_poll {HR : CoreRead IO} (io : IO) (b : bytes) : mem (poll_res io_error Z * IO * list cell) :=
  let! (r, io, buf) := core_poll_read io (rb_new b) in
  match r with
  | RVal _ => let! l := filled buf in MVal (RVal (len l), io, raw buf)
  | RPending => MVal (RPending, io, raw buf)
  | RErr e => MVal (RErr e, io, raw buf)
  | RPanic => MPanic
  | RFuel => MVal (RFuel, io, raw buf)
  end.
End Adapters.
End RtIo.

(** ** What the readers promise

    [fills b d b']: the buffer [b'] is [b] with the bytes [d] appended to what was
    filled; memory that was initialised stays so.  A reader reads as [sem] if every
    poll of it on a well-formed buffer fills in what [sem] yields for the room there
    is. *)
Module RtIoProps.
Import RtIo.

(** ** Initialised memory *)

Definition keep (c c' : cell) : Prop := is_Some c -> is_Some c'.
Definition inited (n : Z) (l : list cell) : Prop := Forall is_Some (ztake n l).

Lemma inited_keep n l l' : Forall2 keep l l' -> inited n l -> inited n l'.
Proof.
  intros K H. unfold inited, ztake, len in *. rewrite <- (Forall2_length _ _ _ K).
  apply (Forall2_take _ _ _ (Z.to_nat (n `min` Z.of_nat (length l)))) in K.
  revert H. induction K; intros H'; inversion H'; constructor; auto.
Qed.
Lemma inited_max a b l : inited a l -> inited b l -> inited (Z.max a b) l.
Proof. intros. by destruct (Z.max_spec a b) as [[_ ->]|[_ ->]]. Qed.
Lemma inited_app f n l l' : 0 <= f <= len l -> 0 <= n -> inited f l -> inited n l' -> inited (f + n) (ztake f l ++ l').
Proof.
  intros Hf Hn H H'. unfold inited. rewrite ztake_app_ge by (rewrite len_ztake; lia). rewrite len_ztake by lia.
  apply Forall_app. split; [done|]. by replace (f + n - f `min` len l) with n by lia.
Qed.
Lemma inited_le m n l : 0 <= m <= n -> inited n l -> inited m l.
Proof.
  intros Hm H. unfold inited in *. rewrite <- (Z.sub_add m n), Z.add_comm in H. rewrite <- ztake_plus in H by lia.
  by apply Forall_app in H as [H _].
Qed.
Lemma inited_bytes (d : bytes) l : inited (len d) ((Some <$> d) ++ l).
Proof.
  unfold inited. rewrite ztake_app_le by (unfold len; rewrite length_fmap; lia).
  rewrite ztake_ge by (unfold len; rewrite length_fmap; lia). apply Forall_fmap, Forall_true. by eexists.
Qed.
Lemma len_some (d : bytes) : len (Some <$> d) = len d.
Proof. unfold len. by rewrite length_fmap. Qed.
Lemma keep_refl l : Forall2 keep l l.
Proof. apply Forall_Forall2_diag, Forall_true. by intros ? ?. Qed.
Lemma keep_len l l' : Forall2 keep l l' -> len l' = len l.
Proof. intros K. unfold len. by rewrite (Forall2_length _ _ _ K). Qed.

(** ** Buffers *)

(** What the safety comments rely on: the filled part is initialised. *)
Definition valid (b : ReadBuf) : Prop :=
  0 <= rb_filled b <= rb_init b /\ rb_init b <= len (raw b) /\ len (raw b) <= usize_max /\ inited (rb_init b) (raw b).

Record fills (b : ReadBuf) (d : bytes) (b' : ReadBuf) : Prop := {
  fills_valid : valid b';
  fills_count : rb_filled b' = rb_filled b + len d;
  fills_bytes : ztake (rb_filled b') (raw b') = ztake (rb_filled b) (raw b) ++ (Some <$> d);
  fills_keep : Forall2 keep (raw b) (raw b');
  fills_init : rb_init b <= rb_init b'
}.

(** Like [fills]; and no more is counted as initialised than a cursor can tell. *)
Definition fills_exactly (b : ReadBuf) (d : bytes) (b' : ReadBuf) : Prop :=
  fills b d b' /\ rb_init b' = Z.max (rb_init b) (rb_filled b').

Lemma remaining_valid b : valid b -> rb_remaining b = len (raw b) - rb_filled b.
Proof. unfold valid, usize_max. intros. unfold rb_remaining, capacity. rewrite wsub_small; lia. Qed.

Lemma filled_bytes b d : rb_filled b <= len (raw b) -> ztake (rb_filled b) (raw b) = Some <$> d -> filled b = MVal d.
Proof.
  intros H E. unfold filled. rewrite (proj2 (Z.ltb_ge _ _)), E by lia. unfold assume_init_all.
  replace (mapM id (Some <$> d)) with (Some d); [done|]. clear. induction d as [|x d IH]; [done|]. cbn in *. by rewrite <- IH.
Qed.

Lemma uninit_valid l : len l <= usize_max -> valid (uninit l).
Proof. intros. split_and!; cbn; try lia; [apply len_nonneg|]. unfold inited. by rewrite ztake_0. Qed.
Lemma new_valid d : len d <= usize_max -> valid (rb_new d).
Proof.
  intros. pose proof (len_nonneg d). split_and!; cbn; rewrite ?len_some; try lia.
  rewrite <- (app_nil_r (Some <$> d)). apply inited_bytes.
Qed.

(** Filling the unfilled part of a buffer fills the buffer. *)
Lemma fills_behind b l i d r :
  valid b -> l = zdrop (rb_filled b) (raw b) -> fills (mkReadBuf l 0 i) d r ->
  fills_exactly b d (mkReadBuf (ztake (rb_filled b) (raw b) ++ raw r) (rb_filled b + len d) (Z.max (rb_init b) (rb_filled b + len d))).
Proof.
  intros (Hf & Hi & Hm & Hb) -> [(Vf & Vi & _ & Vb) Fc Fb Fk _]. cbn [raw rb_filled rb_init] in *. pose proof (len_nonneg d).
  assert (Hl : len (raw r) = len (raw b) - rb_filled b) by (rewrite (keep_len _ _ Fk), len_zdrop; lia).
  assert (Ht : len (ztake (rb_filled b) (raw b)) = rb_filled b) by (rewrite len_ztake; lia).
  assert (K : Forall2 keep (raw b) (ztake (rb_filled b) (raw b) ++ raw r)).
  { rewrite <- (ztake_zdrop (rb_filled b) (raw b)) at 1. apply Forall2_app; [apply keep_refl|done]. }
  split; [|cbn; lia]. constructor; cbn [raw rb_filled rb_init]; try lia; try done.
  - split_and!; cbn [raw rb_filled rb_init]; rewrite ?len_app; try lia. apply inited_max; [by apply (inited_keep _ (raw b))|].
    apply inited_app; [lia..| |apply (inited_le _ (rb_init r)); [lia|done]]. apply (inited_le _ (rb_init b)); [lia|done].
  - rewrite ztake_app_ge, Ht by lia. replace (rb_filled b + len d - rb_filled b) with (rb_filled r) by lia. by rewrite Fb, ztake_0.
Qed.

Lemma put_slice_fills b d : valid b -> len d <= rb_remaining b -> exists b', put_slice d b = MVal b' /\ fills_exactly b d b'.
Proof.
  intros V Hd. pose proof V as (Hf & Hi & Hm & Hb). pose proof (len_nonneg d). rewrite remaining_valid in Hd by done.
  unfold put_slice. rewrite remaining_valid by done. unfold usize_max in Hm. rewrite wadd_small by lia.
  rewrite !(proj2 (Z.ltb_ge _ _)) by lia. cbn [orb]. eexists. split; [reflexivity|].
  assert (Ht : len (ztake (rb_filled b) (raw b)) = rb_filled b) by (rewrite len_ztake; lia).
  epose proof (fills_behind b _ 0 d (mkReadBuf ((Some <$> d) ++ zdrop (rb_filled b + len d) (raw b)) (len d) (len d)) V eq_refl) as F.
  cbn [raw] in F. replace (if rb_init b <? rb_filled b + len d then rb_filled b + len d else rb_init b)
    with (Z.max (rb_init b) (rb_filled b + len d)) by (destruct (Z.ltb_spec (rb_init b) (rb_filled b + len d)); lia).
  apply F. constructor; cbn [raw rb_filled rb_init]; rewrite ?ztake_0; try lia.
  - split_and!; cbn [raw rb_filled rb_init]; rewrite ?len_app, ?len_some, ?len_zdrop; unfold usize_max; try lia. apply inited_bytes.
  - rewrite <- (len_some d), ztake_app_exact. done.
  - rewrite <- (ztake_zdrop (len d) (zdrop (rb_filled b) (raw b))). rewrite zdrop_zdrop by lia. apply Forall2_app; [|apply keep_refl].
    apply Forall2_same_length_lookup. split.
    + apply Nat2Z.inj. change (len (ztake (len d) (zdrop (rb_filled b) (raw b))) = len (Some <$> d)).
      rewrite len_some, len_ztake, len_zdrop by lia. lia.
    + intros i c c' _ Hc' _. rewrite list_lookup_fmap in Hc'. destruct (d !! i); simplify_eq/=. by eexists.
Qed.
(** ** Readers *)

Definition source (IO : Type) := Z -> IO -> poll_res io_error bytes * IO.

(** A poll on the buffer [b] came out as [expected] says; [Fills] is what it may do
    to the buffer.  A poll that is pending or fails may have written to memory. *)
Definition reads {B IO} (Fills : B -> bytes -> B -> Prop) (expected : poll_res io_error bytes * IO) (b : B)
    (res : mem (poll_res io_error unit * IO * B)) : Prop :=
  match expected with
  | (RVal d, io') => exists b', res = MVal (RVal tt, io', b') /\ Fills b d b'
  | (RPending, io') => exists b', res = MVal (RPending, io', b') /\ Fills b [] b'
  | (RErr e, io') => exists b', res = MVal (RErr e, io', b') /\ Fills b [] b'
  | (RPanic, _) => res = MPanic
  | (RFuel, _) => False
  end.

Class CoreReader (IO : Type) {HR : CoreRead IO} (sem : source IO) : Prop :=
  core_reads io b : valid b -> reads fills_exactly (sem (rb_remaining b) io) b (core_poll_read io b).

Definition fills_view {TB} {HB : TokioBuf TB} (t : TB) (d : bytes) (t' : TB) : Prop := fills (view t) d (view t').
Class AsyncReader (TB IO : Type) {HB : TokioBuf TB} {HR : AsyncRead TB IO} (sem : source IO) : Prop :=
  async_reads io t : valid (view t) -> reads fills_view (sem (rb_remaining (view t)) io) t (tokio_poll_read io t).

(** A source behind a wrapper. *)
Definition wrapped {IO W : Type} (wrap : IO -> W) (unwrap : W -> IO) (sem : source IO) : source W :=
  fun n w => let '(r, io) := sem n (unwrap w) in (r, wrap io).

Section Adapters.
Context {TB : Type} {HB : TokioBuf TB} {BL : TokioBufLaws TB} {IO : Type}.

Lemma view_fields (t : TB) r f i : view t = mkReadBuf r f i -> tb_inner t = r /\ tb_filled t = f /\ tb_initialized t = i.
Proof. unfold view. by intros [= -> -> ->]. Qed.

(** The memory written behind the filled part, when nothing was filled. *)
Lemma fills_nothing b l i r :
  valid b -> l = zdrop (rb_filled b) (raw b) -> fills (mkReadBuf l 0 i) [] r ->
  fills_exactly b [] (mkReadBuf (ztake (rb_filled b) (raw b) ++ raw r) (rb_filled b) (rb_init b)).
Proof.
  intros V E F. pose proof (fills_behind _ _ _ _ _ V E F) as F'. change (len (@nil byte)) with 0 in F'. rewrite Z.add_0_r in F'.
  destruct V as ((_ & ?) & _). by rewrite Z.max_l in F' by lia.
Qed.

Lemma rest_remaining b : valid b -> rb_remaining (uninit (zdrop (rb_filled b) (raw b))) = rb_remaining b.
Proof.
  intros V. pose proof V as (? & ? & ? & _). rewrite (remaining_valid b) by done. unfold rb_remaining, capacity, uninit. cbn [raw rb_filled].
  rewrite len_zdrop by lia. unfold usize_max in *. rewrite wsub_small; lia.
Qed.
Lemma rest_valid b : valid b -> valid (uninit (zdrop (rb_filled b) (raw b))).
Proof. intros (? & ? & ? & _). apply uninit_valid. rewrite len_zdrop by lia. lia. Qed.

Lemma tokio_io_reads {HR : AsyncRead TB IO} sem : AsyncReader TB IO sem -> CoreReader (TokioIo IO) (wrapped mkTokioIo io_inner sem).
Proof.
  intros A [io] b V. cbn. unfold tokio_io_poll_read, as_mut, wrapped. cbn [io_inner]. pose proof V as (Hf & Hi & Hm & _).
  rewrite (proj2 (Z.ltb_ge _ _)) by lia. cbn [mbind].
  pose proof (tb_uninit_view (zdrop (rb_filled b) (raw b))) as Hu. fold (uninit (zdrop (rb_filled b) (raw b))) in Hu.
  specialize (A io (tb_uninit (zdrop (rb_filled b) (raw b)))). unfold fills_view in A. rewrite Hu, rest_remaining in A by done.
  specialize (A (rest_valid b V)). unfold reads in *. destruct (sem (rb_remaining b) io) as [[d| |e| |] io'];
    [..|by rewrite A|done]; destruct A as (t' & -> & F); cbn [mbind]; rewrite Hu in F.
  - pose proof (fills_behind _ _ _ _ _ V eq_refl F) as F'. pose proof F' as [[(? & ? & _) _ _ _ _] _].
    pose proof (fills_count _ _ _ F) as Ec. cbn [rb_filled uninit view] in *. pose proof (fills_keep _ _ _ F) as Fk. apply keep_len in Fk.
    cbn [raw uninit view] in *. rewrite len_zdrop in Fk by lia. pose proof (fills_valid _ _ _ F) as (? & ? & _). cbn [raw rb_filled rb_init view] in *.
    unfold advance, checked_add, written. cbn [raw rb_filled rb_init]. unfold usize_max in *. rewrite Ec, Z.add_0_l, (proj2 (Z.leb_le _ _)) by lia. cbn [mbind].
    eexists. split; [reflexivity|]. by rewrite Z.max_comm.
  - eexists. split; [reflexivity|]. exact (fills_nothing _ _ _ _ V eq_refl F).
  - eexists. split; [reflexivity|]. exact (fills_nothing _ _ _ _ V eq_refl F).
Qed.

Lemma tokio_io_async_reads {HR : CoreRead IO} sem : CoreReader IO sem -> AsyncReader TB (TokioIo IO) (wrapped mkTokioIo io_inner sem).
Proof.
  intros C [io] t V. cbn. unfold tokio_io_async_poll_read, wrapped. cbn [io_inner]. pose proof V as (Hf & Hi & Hm & _).
  specialize (C io _ (rest_valid _ V)). rewrite rest_remaining in C by done. unfold reads in *. cbn [raw rb_filled rb_init view] in *.
  destruct (sem (rb_remaining (view t)) io) as [[d| |e| |] io']; [..|by rewrite C|done]; destruct C as (b' & -> & F & _); cbn [mbind];
    pose proof (tb_set_inner_view (ztake (tb_filled t) (tb_inner t) ++ raw b') t) as Hs.
  - pose proof (fills_behind _ _ _ _ _ V eq_refl F) as [F' _]. pose proof F' as [(? & ? & ? & _) _ _ _ _]. cbn [raw rb_filled rb_init view] in *.
    pose proof F as [(? & ? & _) Fc Fb _ _]. cbn [raw rb_filled rb_init uninit] in *. rewrite ztake_0 in Fb. rewrite (filled_bytes b' d) by (done || lia).
    cbn [mbind]. pose proof (len_nonneg d). unfold usize_max in *. rewrite wadd_small by lia.
    apply view_fields in Hs as (Hs1 & Hs2 & Hs3). epose proof (tb_assume_init_view _ _) as Ha. rewrite Hs1, Hs2, Hs3 in Ha.
    apply view_fields in Ha as (Ha1 & Ha2 & Ha3). edestruct tb_set_filled_view as (t' & -> & Ht'); [rewrite Ha3; apply Z.le_max_r|].
    cbn [mbind]. eexists. split; [reflexivity|]. unfold fills_view. by rewrite Ht', Ha1, Ha3.
  - eexists. split; [reflexivity|]. unfold fills_view. rewrite Hs. exact (proj1 (fills_nothing _ _ _ _ V eq_refl F)).
  - eexists. split; [reflexivity|]. unfold fills_view. rewrite Hs. exact (proj1 (fills_nothing _ _ _ _ V eq_refl F)).
Qed.

(** [Compat] panics exactly if the read passes the end of memory that was initialised
    and not filled. *)
Definition compat_panics (t : TB) (d : bytes) : bool :=
  bool_decide (tb_filled t < tb_initialized t < tb_filled t + len d).
Definition compat_expected (sem : source IO) (io : Compat IO) (t : TB) : poll_res io_error bytes * Compat IO :=
  match wrapped mkCompat compat_inner sem (rb_remaining (view t)) io with
  | (RVal d, io') => if compat_panics t d then (RPanic, io') else (RVal d, io')
  | other => other
  end.

Lemma compat_reads {HR : CoreRead IO} sem io t : CoreReader IO sem -> valid (view t) ->
  reads fills_view (compat_expected sem io t) t (compat_poll_read io t).
Proof.
  intros C V. destruct io as [io]. unfold compat_poll_read, compat_expected, wrapped. cbn [compat_inner]. pose proof V as (Hf & Hi & Hm & _).
  assert (E : set_filled (tb_filled t) (set_init (tb_initialized t) (uninit (tb_inner t))) = view t).
  { unfold set_filled, set_init, uninit, view. cbn in *. f_equal; lia. }
  rewrite E. specialize (C io _ V). unfold reads in C.
  destruct (sem (rb_remaining (view t)) io) as [[d| |e| |] io']; [..|by cbn; rewrite C|done]; destruct C as (b' & -> & F & Fi); cbn [mbind];
    pose proof (tb_set_inner_view (raw b') t) as Hs; pose proof F as [(? & ? & Hm' & _) Fc _ _ _]; cbn [raw rb_filled rb_init view] in *; unfold usize_max in *.
  - apply view_fields in Hs as (Hs1 & Hs2 & Hs3). epose proof (tb_assume_init_view _ _) as Ha. rewrite Hs1, Hs2, Hs3 in Ha.
    apply view_fields in Ha as (Ha1 & Ha2 & Ha3). rewrite wsub_small in * by lia. unfold compat_panics. case_bool_decide as Hp; cbn.
    + rewrite tb_set_filled_panics; [done|]. rewrite Ha3. lia.
    + edestruct tb_set_filled_view as (t' & -> & Ht'); [rewrite Ha3|].
      2: { cbn [mbind]. eexists. split; [reflexivity|]. unfold fills_view. rewrite Ht', Ha1, Ha3.
           replace (Z.max _ _) with (rb_init b') by lia. by destruct b'. }
      lia.
  - cbn. change (len (@nil byte)) with 0 in Fc. eexists. split; [reflexivity|]. unfold fills_view. rewrite Hs.
    replace (tb_filled t) with (rb_filled b') by lia. replace (tb_initialized t) with (rb_init b') by lia. by destruct b'.
  - cbn. change (len (@nil byte)) with 0 in Fc. eexists. split; [reflexivity|]. unfold fills_view. rewrite Hs.
    replace (tb_filled t) with (rb_filled b') by lia. replace (tb_initialized t) with (rb_init b') by lia. by destruct b'.
Qed.
End Adapters.

(** ** The readers of the core *)

Section Core.
Context {IO : Type} {HR : CoreRead IO}.

Lemma rewind_reads {HT : Transport IO} : CoreReader IO poll_read -> CoreReader (Upgrade.Rewind IO) Upgrade.rewind_poll_read.
Proof.
  intros C [p io] b V. cbn. unfold rewind_mem_poll_read, Upgrade.rewind_poll_read. cbn [Upgrade.pre Upgrade.rw_inner].
  assert (T : reads fills_exactly (let '(x, t) := poll_read (rb_remaining b) io in (x, Upgrade.mkRewind None t)) b
      (mbind (core_poll_read io b) (fun '(x, io, buf) => MVal (x, Upgrade.mkRewind None io, buf)))).
  { specialize (C io b V). unfold reads in *. destruct (poll_read _ _) as [[d| |e| |] io']; [..|by rewrite C|done];
      destruct C as (b' & -> & F); by exists b'. }
  destruct p as [p|]; [|done]. case_bool_decide as Ep; [done|].
  pose proof (len_nonneg p). pose proof V as (? & ? & ? & _). pose proof (remaining_valid b V).
  destruct (put_slice_fills b (ztake (len p `min` rb_remaining b) p) V) as (b' & -> & F); [rewrite len_ztake; lia|]. by exists b'.
Qed.

(** [read]: how many bytes came, and they are at the front of the slice, which is
    initialised memory still. *)
Lemma read_poll_reads sem io b : CoreReader IO sem -> len b <= usize_max ->
  match sem (len b) io with
  | (RVal d, io') => exists rest, len (d ++ rest) = len b /\ read_poll io b = MVal (RVal (len d), io', Some <$> d ++ rest)
  | (RPending, io') => exists b', len b' = len b /\ read_poll io b = MVal (RPending, io', Some <$> b')
  | (RErr e, io') => exists b', len b' = len b /\ read_poll io b = MVal (RErr e, io', Some <$> b')
  | (RPanic, _) => read_poll io b = MPanic
  | (RFuel, _) => False
  end.
Proof.
  intros C Hb. pose proof (new_valid b Hb) as V. specialize (C io _ V). pose proof (len_nonneg b). rewrite remaining_valid in C by done.
  cbn [raw rb_filled rb_new] in C. rewrite len_some, Z.sub_0_r in C. unfold read_poll.
  assert (A : forall d b', fills (rb_new b) d b' -> exists c, len c = len b /\ raw b' = Some <$> c).
  { intros d b' [_ _ _ K _]. cbn in K. pose proof (keep_len _ _ K) as L. rewrite len_some in L.
    assert (I : inited (len b) (raw b')).
    { apply (inited_keep _ (Some <$> b)); [done|]. rewrite <- (app_nil_r (Some <$> b)). apply inited_bytes. }
    unfold inited in I. rewrite ztake_ge in I by lia. clear - I L. revert I L. generalize (len b). generalize (raw b') as l.
    induction l as [|c l IH]; intros n I L; [by exists []|]. inversion I as [|? ? [x ->] I']; subst.
    destruct (IH _ I' eq_refl) as (c & E & ->). exists (x :: c). split; [|done]. rewrite !len_cons. lia. }
  unfold reads in C. destruct (sem (len b) io) as [[d| |e| |] io']; [..|by rewrite C|done]; destruct C as (b' & -> & F & _); cbn [mbind].
  - destruct (A _ _ F) as (c & Ec & Er). destruct F as [(? & ? & _) Fc Fb _ _]. cbn [rb_filled rb_new raw] in *. rewrite ztake_0 in Fb.
    rewrite (filled_bytes b' d) by (done || lia). cbn [mbind]. exists (zdrop (len d) c).
    assert (d = ztake (len d) c) as Ed.
    { apply (inj (fmap Some)). cbn [app] in Fb. rewrite <- Fb, Fc, Er. unfold ztake. by rewrite len_some, fmap_take. }
    assert (d ++ zdrop (len d) c = c) as -> by (rewrite Ed at 1; by rewrite ztake_zdrop). split; [done|]. by rewrite Er.
  - destruct (A _ _ F) as (c & Ec & Er). exists c. split; [done|]. by rewrite Er.
  - destruct (A _ _ F) as (c & Ec & Er). exists c. split; [done|]. by rewrite Er.
Qed.
End Core.

(** C30. The unsafe code between buffers of memory and the transports of the program
    is safe and loses nothing.  Let a reader of the core fill memory as its transport
    reads, and a reader of tokio as some source does.  Then, on every well-formed
    buffer, whatever of it is filled or initialised: the core's reader behind
    [TokioIo] serves tokio as the same source, and tokio's serves the core; a rewound
    reader is the rewound transport; none of them reads uninitialised memory, moves
    or overwrites what was filled or counts memory as filled that was not written,
    also when a poll is pending or fails.  Behind [Compat] this holds too, except
    that a poll panics exactly if the bytes read end beyond memory that was
    initialised and not filled. *)
Theorem io_adapters_transparent {TB : Type} {HB : TokioBuf TB} {BL : TokioBufLaws TB} {IO TIO : Type}
    {HR : CoreRead IO} {HT : Transport IO} {HA : AsyncRead TB TIO} (sem : source TIO) :
  CoreReader IO poll_read -> AsyncReader TB TIO sem ->
  AsyncReader TB (TokioIo IO) (wrapped mkTokioIo io_inner poll_read) /\
  CoreReader (TokioIo TIO) (wrapped mkTokioIo io_inner sem) /\
  CoreReader (Upgrade.Rewind IO) Upgrade.rewind_poll_read /\
  (forall io t, valid (view t) -> reads fills_view (compat_expected poll_read io t) t (compat_poll_read io t)).
Proof.
  intros C A. split; [by apply tokio_io_async_reads|]. split; [by apply tokio_io_reads|].
  split; [by apply rewind_reads|]. intros. by apply compat_reads.
Qed.

(** ** The properties at concrete inputs *)

Module RefRtIo.
Import Pipe.

(** tokio's buffer as its documentation has it. *)
#[export] Instance ref_tokio_buf : TokioBuf ReadBuf := {|
  tb_uninit := uninit; tb_inner := raw; tb_filled := rb_filled; tb_initialized := rb_init;
  tb_set_inner := fun l t => mkReadBuf l (rb_filled t) (rb_init t);
  tb_assume_init := fun n t => mkReadBuf (raw t) (rb_filled t) (Z.max (rb_init t) (rb_filled t + n));
  tb_set_filled := fun n t => if rb_init t <? n then MPanic else MVal (mkReadBuf (raw t) n (rb_init t))
|}.
#[export] Instance ref_tokio_buf_laws : TokioBufLaws ReadBuf.
Proof.
  constructor; try done; cbn; intros n t H.
  - by rewrite (proj2 (Z.ltb_lt _ _)).
  - rewrite (proj2 (Z.ltb_ge _ _)) by lia. by eexists.
Qed.

(** The pipe of [IoProps], reading into memory. *)
#[export] Instance pipe_read : CoreRead pipe := {|
  core_poll_read := fun p b =>
    match poll_read (rb_remaining b) p with
    | (RVal d, p) => let! b := put_slice d b in MVal (RVal tt, p, b)
    | (_, p) => MVal (RPending, p, b)
    end
|}.
Lemma pipe_reader : CoreReader pipe poll_read.
Proof.
  intros p b V. unfold reads. cbn. pose proof V as (? & ? & ? & ?). destruct (p_turn p =? 2).
  - eexists. split; [done|]. split; [|lia]. constructor; try done; [change (len (@nil byte)) with 0; lia| |apply keep_refl]. by rewrite app_nil_r.
  - destruct (put_slice_fills b (ztake (rb_remaining b) (p_in p)) V) as (b' & -> & F); [rewrite len_ztake; rewrite remaining_valid by done; lia|].
    by eexists.
Qed.

(** A buffer of four cells with one byte filled and two initialised. *)
Definition ex_buf : ReadBuf := mkReadBuf [Some 72; Some 0; None; None] 1 2.
Definition ex_io : pipe := mkPipe (bs "TTP") [] 0.

Lemma io_adapters_transparent_witness :
  valid ex_buf /\
  (exists t, tokio_io_async_poll_read (mkTokioIo ex_io) ex_buf = MVal (RVal tt, mkTokioIo (mkPipe [] [] 1), t) /\ filled t = MVal (bs "HTTP")) /\
  compat_poll_read (mkCompat ex_io) ex_buf = MPanic.
Proof.
  assert (valid ex_buf) as V.
  { split_and!; try (vm_compute; congruence). unfold inited. change (ztake (rb_init ex_buf) (raw ex_buf)) with [Some 72; Some 0].
    repeat constructor; by eexists. }
  pose proof (io_adapters_transparent (TB := ReadBuf) (TIO := TokioIo pipe) (wrapped mkTokioIo io_inner poll_read) pipe_reader
    (tokio_io_async_reads poll_read pipe_reader)) as (HA & _ & _ & HC).
  split; [done|]. split.
  - destruct (HA (mkTokioIo ex_io) ex_buf V) as (t & E & F). exists t. split; [exact E|].
    destruct F as [(? & ? & _) Fc Fb _ _]. apply filled_bytes; [cbn in *; lia|exact Fb].
  - exact (HC (mkCompat ex_io) ex_buf V).
Defined.
End RefRtIo.
End RtIoProps.
