(* ===== verification/Futures.v ===== *)
(** * The small futures and shared values of the core
    (src/src/core/common/lazy.rs, src/src/core/service/oneshot.rs,
    src/src/core/client/connect/mod.rs and capture.rs, src/src/core/ext/h1_reason_phrase.rs)

    [Lazy] starts the connection of a request when it is first polled, [Oneshot] is
    one call of a connector.  What they run is code of their users: an action on a
    world [W], which also moves between two polls.  What a connector tells of a
    connection ([Connected]) is shared by its copies: the extras are values, the
    poison pill is a flag in the heap, and a watch channel brings it to whoever
    captures the connection of a request. *)

From S2P Require Import Prelude.

(** ** [Lazy] *)

Module Lazy.
Section Lazy.
Context {W F R E T : Type} (call : F -> W -> R * W) (fut_poll : R -> W -> poll_res E T * R * W).

Inductive Inner := Init (func : F) | Fut (fut : R) | Empty.

Definition lazy (func : F) : Inner := Init func.
Definition started (l : Inner) : bool := match l with Init _ => false | Fut _ | Empty => true end.
Definition lazy_poll (l : Inner) (w : W) : poll_res E T * Inner * W :=
  match l with
  | Fut fut => let '(r, fut, w) := fut_poll fut w in (r, Fut fut, w)
  | Init func =>
      let '(fut, w) := call func w in
      let '(r, fut, w) := fut_poll fut w in (r, Fut fut, w)
  | Empty => (RPanic, Empty, w)
  end.

(** The results of polls, the world moving before each. *)
Fixpoint lazy_polls (moves : list (W -> W)) (l : Inner) (w : W) : list (poll_res E T) * Inner * W :=
  match moves with
  | [] => ([], l, w)
  | f :: moves =>
      let '(r, l, w) := lazy_poll l (f w) in
      let '(rs, l, w) := lazy_polls moves l w in (r :: rs, l, w)
  end.
Fixpoint fut_polls (moves : list (W -> W)) (r : R) (w : W) : list (poll_res E T) * R * W :=
  match moves with
  | [] => ([], r, w)
  | f :: moves =>
      let '(x, r, w) := fut_poll r (f w) in
      let '(xs, r, w) := fut_polls moves r w in (x :: xs, r, w)
  end.

Lemma fut_polls_lazy moves r w :
  lazy_polls moves (Fut r) w = let '(xs, r, w) := fut_polls moves r w in (xs, Fut r, w).
Proof.
  revert r w. induction moves as [|f moves IH]; intros r w; [done|]. cbn. destruct (fut_poll r (f w)) as [[x r'] w'].
  rewrite IH. by destruct (fut_polls moves r' w') as [[? ?] ?].
Qed.

(** The first poll calls the function, once; from then on, and with that poll, the
    future is polled as it would be by itself.  No poll panics for the state. *)
Lemma lazy_calls_once func f moves w :
  let '(r, w1) := call func (f w) in
  lazy_polls (f :: moves) (lazy func) w = let '(xs, r, w) := fut_polls (id :: moves) r w1 in (xs, Fut r, w).
Proof.
  destruct (call func (f w)) as [r w1] eqn:Ec. cbn. rewrite Ec. unfold id. destruct (fut_poll r w1) as [[x r'] w'].
  rewrite fut_polls_lazy. by destruct (fut_polls moves r' w') as [[? ?] ?].
Qed.
Lemma lazy_started moves func w : started (lazy_polls moves (lazy func) w).1.2 = negb (bool_decide (moves = [])).
Proof.
  destruct moves as [|f moves]; [done|]. pose proof (lazy_calls_once func f moves w) as H. destruct (call func (f w)) as [r w1].
  rewrite H. by destruct (fut_polls (id :: moves) r w1) as [[? ?] ?].
Qed.
End Lazy.
End Lazy.

(** ** [Oneshot] *)

Module OneshotService.
Section Oneshot.
Context {W Svc Req Fut E T : Type}.
Context (svc_poll_ready : Svc -> W -> poll_res E unit * Svc * W) (svc_call : Req -> Svc -> W -> Fut * W) (fut_poll : Fut -> W -> poll_res E T * Fut * W).

Inductive Oneshot := NotReady (svc : Svc) (req : option Req) | Called (fut : Fut) | Done.
Definition new (svc : Svc) (req : Req) : Oneshot := NotReady svc (Some req).

(** A turn of the loop for each state but the last. *)
Fixpoint oneshot_loop (fuel : nat) (o : Oneshot) (w : W) : poll_res E T * Oneshot * W :=
  match fuel with
  | O => (RFuel, o, w)
  | S fuel =>
      match o with
      | NotReady svc req =>
          let '(r, svc, w) := svc_poll_ready svc w in
          match r with
          | RVal _ =>
              match req with
              | Some req => let '(fut, w) := svc_call req svc w in oneshot_loop fuel (Called fut) w
              | None => (RPanic, NotReady svc None, w)
              end
          | RPending => (RPending, NotReady svc req, w)
          | RErr e => (RErr e, NotReady svc req, w)
          | RPanic => (RPanic, NotReady svc req, w)
          | RFuel => (RFuel, NotReady svc req, w)
          end
      | Called fut =>
          let '(r, fut, w) := fut_poll fut w in
          match r with RVal res => (RVal res, Done, w) | other => (other, Called fut, w) end
      | Done => (RPanic, Done, w)
      end
  end.
Definition oneshot_poll : Oneshot -> W -> poll_res E T * Oneshot * W := oneshot_loop 2.

(** The calls of the service so far, in the world. *)
Context (calls : W -> list Req).
Context (ready_calls : forall s w, calls (svc_poll_ready s w).2 = calls w) (call_calls : forall q s w, calls (svc_call q s w).2 = calls w ++ [q]).
Context (fut_calls : forall f w, calls (fut_poll f w).2 = calls w).
Context (ready_returns : forall s w, (svc_poll_ready s w).1.1 <> RPanic /\ (svc_poll_ready s w).1.1 <> RFuel).
Context (fut_returns : forall f w, (fut_poll f w).1.1 <> RPanic /\ (fut_poll f w).1.1 <> RFuel).

(** The calls that were made for [req] when the future is in state [o]. *)
Definition made (req : Req) (o : Oneshot) : option (list Req) :=
  match o with NotReady _ (Some q) => Some [] | NotReady _ None => None | Called _ | Done => Some [req] end.
Definition holds (req : Req) (o : Oneshot) : Prop := match o with NotReady _ q => q = Some req | _ => True end.

Lemma oneshot_poll_step req o w base :
  holds req o -> o <> Done -> Some (calls w) = (app base) <$> made req o ->
  let '(r, o', w') := oneshot_poll o w in
  holds req o' /\ r <> RPanic /\ r <> RFuel /\ Some (calls w') = (app base) <$> made req o' /\ ((exists x, r = RVal x) <-> o' = Done).
Proof.
  assert (HC : forall f w, Some (calls w) = Some (base ++ [req]) ->
    let '(r, o', w') := (let '(r, fut, w') := fut_poll f w in match r with RVal res => (RVal res, Done, w') | other => (other, Called fut, w') end) in
    holds req o' /\ r <> RPanic /\ r <> RFuel /\ Some (calls w') = (app base) <$> made req o' /\ ((exists x, r = RVal x) <-> o' = Done)).
  { intros f w0 H. pose proof (fut_calls f w0) as Hc. pose proof (fut_returns f w0) as [? ?].
    destruct (fut_poll f w0) as [[r f'] w']; cbn in *. rewrite <- Hc in H.
    destruct r; cbn; rewrite ?H; try done; split_and!; try done; naive_solver. }
  intros Ho Hd Hw. unfold oneshot_poll. cbn [oneshot_loop]. destruct o as [s q|f|]; [|by apply HC|done].
  cbn in Ho. subst q. pose proof (ready_calls s w) as Hc. pose proof (ready_returns s w) as [? ?].
  destruct (svc_poll_ready s w) as [[r s'] w']; cbn in *. destruct r; cbn; try done.
  - pose proof (call_calls req s' w') as Hc'. destruct (svc_call req s' w') as [f w'']. cbn in *. apply HC. rewrite Hc', Hc. simplify_eq.
    by rewrite Hw, app_nil_r.
  - rewrite Hc. split_and!; try done; naive_solver.
  - rewrite Hc. split_and!; try done; naive_solver.
Qed.

(** Polls until the future is complete, the world moving before each without calling
    the service for this future. *)
Fixpoint polls (moves : list (W -> W)) (o : Oneshot) (w : W) : list (poll_res E T) * Oneshot * W :=
  match moves with
  | [] => ([], o, w)
  | f :: moves =>
      match o with
      | Done => ([], o, w)
      | _ =>
          let '(r, o, w) := oneshot_poll o (f w) in
          let '(rs, o, w) := polls moves o w in (r :: rs, o, w)
      end
  end.

Lemma polls_made req moves o w base :
  Forall (fun f => forall w, calls (f w) = calls w) moves -> holds req o -> Some (calls w) = (app base) <$> made req o ->
  let '(rs, o', w') := polls moves o w in
  Forall (fun r => r <> RPanic /\ r <> RFuel) rs /\ Some (calls w') = (app base) <$> made req o' /\ holds req o'.
Proof.
  intros Hm. revert o w. induction Hm as [|f moves Hf Hm IH]; intros o w Ho Hw; [done|]. cbn [polls].
  assert (Some (calls (f w)) = (app base) <$> made req o) as Hw' by by rewrite Hf.
  destruct o as [s q|fu|] eqn:Eo; [| |by split].
  all: rewrite <- Eo in *; pose proof (oneshot_poll_step req o (f w) base Ho ltac:(by subst) Hw') as Hs;
    destruct (oneshot_poll o (f w)) as [[r o'] w']; destruct Hs as (Ho' & ? & ? & Hw'' & _);
    specialize (IH o' w' Ho' Hw''); destruct (polls moves o' w') as [[rs o''] w'']; destruct IH as (? & ? & ?); split_and!; try done;
    by constructor.
Qed.

(** However it is polled, the service is called at most once, with the request, and
    has been called exactly if the future is past its first state; no poll panics. *)
Lemma oneshot_calls_once svc req moves w :
  Forall (fun f => forall w, calls (f w) = calls w) moves ->
  let '(rs, o, w') := polls moves (new svc req) w in
  Forall (fun r => r <> RPanic /\ r <> RFuel) rs /\
  calls w' = calls w ++ (match o with NotReady _ _ => [] | _ => [req] end).
Proof.
  intros Hm. pose proof (polls_made req moves (new svc req) w (calls w) Hm eq_refl) as H. cbn in H.
  rewrite app_nil_r in H. specialize (H eq_refl). destruct (polls moves (new svc req) w) as [[rs o] w'].
  destruct H as (? & Hc & Ho). split; [done|]. destruct o as [s q| |]; cbn in *; subst; simplify_eq/=; done.
Qed.
End Oneshot.
End OneshotService.

(** ** [Connected] *)

Module Connected.

(** *** The extras

    [insert] is [Extensions::insert] of the http crate, with the type of the value. *)
Section Extra.
Context {X Ext : Type} (insert : X -> Ext -> Ext).

Inductive ExtraInner := ExtraEnvelope (x : X) | ExtraChain (prev : ExtraInner) (x : X).

Fixpoint set (e : ExtraInner) (res : Ext) : Ext :=
  match e with ExtraEnvelope x => insert x res | ExtraChain prev x => insert x (set prev res) end.
Fixpoint clone_box (e : ExtraInner) : ExtraInner :=
  match e with ExtraEnvelope x => ExtraEnvelope x | ExtraChain prev x => ExtraChain (clone_box prev) x end.
Definition extra (x : X) (e : option ExtraInner) : option ExtraInner :=
  match e with Some prev => Some (ExtraChain prev x) | None => Some (ExtraEnvelope x) end.
Definition get_extras (e : option ExtraInner) (extensions : Ext) : Ext :=
  match e with Some e => set e extensions | None => extensions end.

(** The extras are inserted in the order in which they were given, so the last of a
    type is the one that stays; this is the list of extras of the connector's model. *)
Lemma extras_in_order xs ext : get_extras (foldl (fun e x => extra x e) None xs) ext = foldl (fun res x => insert x res) ext xs.
Proof.
  induction xs as [|x xs IH] using rev_ind; [done|]. rewrite !foldl_app. cbn. rewrite <- IH.
  by destruct (foldl (fun e x => extra x e) None xs).
Qed.
Lemma clone_same e : clone_box e = e.
Proof. induction e as [|e IH x]; cbn; [done|by rewrite IH]. Qed.
End Extra.

(** *** The poison pill: the address of a flag in the heap *)

Abbreviation Heap := (list bool).
Definition PoisonPill := nat.
Definition healthy (h : Heap) : PoisonPill * Heap := (length h, h ++ [false]).
Definition poison (p : PoisonPill) (h : Heap) : Heap := <[p := true]> h.
Definition poisoned (p : PoisonPill) (h : Heap) : bool := default false (h !! p).

(** What is done with connections: a new one, a copy of the [n]th, its poisoning. *)
Inductive op := New | Copy (n : nat) | Poison (n : nat).
Definition state : Type := list PoisonPill * Heap.
Definition run (s : state) (o : op) : state :=
  let '(pills, h) := s in
  match o with
  | New => let '(p, h) := healthy h in (pills ++ [p], h)
  | Copy n => match pills !! n with Some p => (pills ++ [p], h) | None => s end
  | Poison n => match pills !! n with Some p => (pills, poison p h) | None => s end
  end.

(** The connection a handle is of: the number of the handle it was copied from. *)
Definition origin (s : list nat * list nat) (o : op) : list nat * list nat :=
  let '(roots, bad) := s in
  match o with
  | New => (roots ++ [length roots], bad)
  | Copy n => match roots !! n with Some r => (roots ++ [r], bad) | None => s end
  | Poison n => match roots !! n with Some r => (roots, r :: bad) | None => s end
  end.

Record agree (s : state) (g : list nat * list nat) : Prop := {
  agree_len : length s.1 = length g.1;
  agree_heap : forall n p, s.1 !! n = Some p -> (p < length s.2)%nat;
  agree_root : forall n r, g.1 !! n = Some r -> (r < length g.1)%nat;
  agree_bad : forall r, r ∈ g.2 -> (r < length g.1)%nat;
  agree_same : forall m n p q r r', s.1 !! m = Some p -> s.1 !! n = Some q -> g.1 !! m = Some r -> g.1 !! n = Some r' -> (p = q <-> r = r');
  agree_poisoned : forall n p r, s.1 !! n = Some p -> g.1 !! n = Some r -> (poisoned p s.2 = true <-> r ∈ g.2)
}.

Lemma lookup_snoc {A} (l : list A) x n y : (l ++ [x]) !! n = Some y <-> l !! n = Some y \/ (n = length l /\ y = x).
Proof.
  rewrite lookup_app. destruct (l !! n) eqn:El; [apply lookup_lt_Some in El; naive_solver lia|].
  apply lookup_ge_None in El. destruct (decide (n = length l)) as [->|]; [rewrite Nat.sub_diag; naive_solver|].
  rewrite lookup_ge_None_2 by (cbn; lia). naive_solver.
Qed.

Lemma poisoned_insert p q h : (p < length h)%nat -> poisoned q (poison p h) = bool_decide (q = p) || poisoned q h.
Proof.
  unfold poisoned, poison, PoisonPill in *. intros Hp. case_bool_decide as Eq; [subst q; by rewrite list_lookup_insert, decide_True|].
  by rewrite list_lookup_insert_ne by done.
Qed.

Lemma agree_step s g o : agree s g -> agree (run s o) (origin g o).
Proof.
  destruct s as [pills h], g as [roots bad]. intros [L H R B S P]. cbn in *. destruct o as [|n|n]; cbn.
  - constructor; cbn; rewrite ?length_app; cbn; try lia.
    + intros n p [Hp|[_ ->]]%lookup_snoc; [apply H in Hp|]; lia.
    + intros n r [Hr|[_ ->]]%lookup_snoc; [apply R in Hr|]; lia.
    + intros r Hr%B. lia.
    + intros m n p q r r' [Hp|[-> ->]]%lookup_snoc [Hq|[-> ->]]%lookup_snoc [Hr|[? ->]]%lookup_snoc [Hr'|[? ->]]%lookup_snoc; subst;
        repeat match goal with X : _ !! _ = Some _ |- _ => pose proof (lookup_lt_Some _ _ _ X); revert X end; intros;
        try lia; try by eauto.
      * split; [intros ->; naive_solver lia|]. intros ->. apply R in Hr. lia.
      * split; [intros <-; naive_solver lia|]. intros <-. apply R in Hr'. lia.
    + intros n p r [Hp|[-> ->]]%lookup_snoc [Hr|[En ->]]%lookup_snoc;
        repeat match goal with X : _ !! _ = Some _ |- _ => pose proof (lookup_lt_Some _ _ _ X); revert X end; intros; try lia.
      * unfold poisoned. rewrite lookup_app_l by (by eapply H). by eapply P.
      * unfold poisoned. rewrite lookup_app_r, Nat.sub_diag by lia. cbn. split; [done|]. intros Hb%B. lia.
  - destruct (pills !! n) as [p0|] eqn:Ep; destruct (roots !! n) as [r0|] eqn:Er;
      [|apply lookup_lt_Some in Ep; apply lookup_ge_None in Er; lia|apply lookup_lt_Some in Er; apply lookup_ge_None in Ep; lia|done].
    constructor; cbn; rewrite ?length_app; cbn; try lia.
    + intros m p [Hp|[_ ->]]%lookup_snoc; by eapply H.
    + intros m r [Hr|[_ ->]]%lookup_snoc; [apply R in Hr; lia|apply R in Er; lia].
    + intros r Hr%B. lia.
    + intros m k p q r r' [Hp|[-> ->]]%lookup_snoc [Hq|[-> ->]]%lookup_snoc [Hr|[? ->]]%lookup_snoc [Hr'|[? ->]]%lookup_snoc; subst;
        repeat match goal with X : _ !! _ = Some _ |- _ => pose proof (lookup_lt_Some _ _ _ X); revert X end; intros; try lia; by eauto.
    + intros m p r [Hp|[-> ->]]%lookup_snoc [Hr|[? ->]]%lookup_snoc;
        repeat match goal with X : _ !! _ = Some _ |- _ => pose proof (lookup_lt_Some _ _ _ X); revert X end; intros; try lia; by eauto.
  - destruct (pills !! n) as [p0|] eqn:Ep; destruct (roots !! n) as [r0|] eqn:Er;
      [|apply lookup_lt_Some in Ep; apply lookup_ge_None in Er; lia|apply lookup_lt_Some in Er; apply lookup_ge_None in Ep; lia|done].
    constructor; cbn; try done.
    + intros m p Hp. unfold poison. rewrite length_insert. by eapply H.
    + intros r [->|Hr]%elem_of_cons; [by eapply R|by apply B].
    + intros m p r Hp Hr. rewrite poisoned_insert by (by eapply H). rewrite orb_true_iff, bool_decide_eq_true, elem_of_cons.
      rewrite (S m n p p0 r r0 Hp Ep Hr Er), (P m p r Hp Hr). done.
Qed.

(** A handle of a connection is seen as poisoned exactly if some handle of the same
    connection was poisoned, whichever copies are made and when. *)
Lemma poison_shared ops n p r :
  let s := foldl run ([], []) ops in
  let g := foldl origin ([], []) ops in
  s.1 !! n = Some p -> g.1 !! n = Some r -> (poisoned p s.2 = true <-> r ∈ g.2).
Proof.
  intros s g. assert (agree s g) as A; [|intros; by eapply agree_poisoned].
  subst s g. assert (agree ([], []) ([], [])) as A0 by (constructor; cbn; try done; set_solver).
  revert A0. generalize (@nil PoisonPill, @nil bool) as s. generalize (@nil nat, @nil nat) as g.
  induction ops as [|o ops IH]; intros g s A; [done|]. cbn. by apply IH, agree_step.
Qed.
End Connected.

(** ** Capturing the connection of a request *)

Module Capture.

(** tokio's watch channel with one receiver, as the pair of its ends; what is seen of
    it is the value, whether the receiver has not seen it yet, and whether a sender
    is left. *)
Class Watch (V C : Type) := {
  watch_channel : V -> C;
  borrow : C -> V;
  changed : C -> poll_res unit unit * C;
  send_replace : V -> C -> C;
  drop_senders : C -> C
}.
Class WatchLaws (V C : Type) `{Watch V C} := {
  unseen : C -> bool;
  alive : C -> bool;
  watch_channel_ok v : borrow (watch_channel v) = v /\ unseen (watch_channel v) = false /\ alive (watch_channel v) = true;
  send_replace_ok v c : borrow (send_replace v c) = v /\ unseen (send_replace v c) = true /\ alive (send_replace v c) = alive c;
  drop_senders_ok c : borrow (drop_senders c) = borrow c /\ unseen (drop_senders c) = unseen c /\ alive (drop_senders c) = false;
  changed_ok c :
    borrow (changed c).2 = borrow c /\ alive (changed c).2 = alive c /\ unseen (changed c).2 = false /\
    (changed c).1 = if unseen c then RVal tt else if alive c then RPending else RErr tt
}.

Section Capture.
Context {Conn C : Type} {HW : Watch (option Conn) C}.

Definition capture_new : C := watch_channel None.
Definition capture_set (connected : Conn) (c : C) : C := send_replace (Some connected) c.
Definition connection_metadata (c : C) : option Conn := borrow c.
(** A poll of [wait_for_connection_metadata]; [waiting]: not the first. *)
Definition wait_poll (waiting : bool) (c : C) : poll_res unit (option Conn) * C :=
  if negb waiting && bool_decide (is_Some (borrow c)) then (RVal (borrow c), c)
  else
    let '(r, c) := changed c in
    match r with
    | RVal _ | RErr _ => (RVal (borrow c), c)
    | RPending => (RPending, c)
    | RPanic => (RPanic, c)
    | RFuel => (RFuel, c)
    end.

(** What happens while one waits: connections are told, the request ends, and polls,
    which are over with the first that is not pending. *)
Inductive event := Connect (c : Conn) | Drop | Poll.
Definition happen (s : bool * C) (e : event) : bool * C :=
  let '(waiting, c) := s in
  match e with
  | Connect x => (waiting, capture_set x c)
  | Drop => (waiting, drop_senders c)
  | Poll => match wait_poll waiting c with (RPending, c) => (true, c) | _ => (waiting, c) end
  end.
Definition told (e : event) : option Conn := match e with Connect c => Some c | _ => None end.
Definition dropped (e : event) : bool := match e with Drop => true | _ => false end.

Context {WL : WatchLaws (option Conn) C}.
Definition wait_inv (evs : list event) (s : bool * C) : Prop :=
  borrow s.2 = last (omap told evs) /\ (is_Some (borrow s.2) <-> unseen s.2 = true) /\ alive s.2 = negb (existsb dropped evs).

Lemma wait_poll_result evs s : wait_inv evs s ->
  (wait_poll s.1 s.2).1 =
    match last (omap told evs) with Some c => RVal (Some c) | None => if existsb dropped evs then RVal None else RPending end.
Proof.
  destruct s as [waiting c]. intros (Hb & Hu & Ha). cbn in *. unfold wait_poll. rewrite Hb in *.
  destruct (changed_ok c) as (Cb & _ & _ & Cr). destruct (changed c) as [r c']. cbn in *. rewrite Cb, Hb in *. subst r. rewrite Ha.
  destruct (last (omap told evs)) as [x|].
  - rewrite bool_decide_true by done. rewrite (proj1 Hu) by done. by destruct waiting.
  - rewrite bool_decide_false by (by intros [? ?]). rewrite andb_false_r. destruct (unseen c); [by destruct (proj2 Hu)|].
    by destruct (existsb dropped evs).
Qed.

Lemma happen_inv evs s e : wait_inv evs s -> wait_inv (evs ++ [e]) (happen s e).
Proof.
  intros I. pose proof (wait_poll_result _ _ I) as R. destruct s as [waiting c], I as (Hb & Hu & Ha). unfold wait_inv in *.
  rewrite omap_app, existsb_app. destruct e as [x| |]; cbn in *.
  - destruct (send_replace_ok (Some x) c) as (Sb & Su & Sa). unfold capture_set. rewrite Sb, Su, Sa, last_snoc, orb_false_r. naive_solver.
  - destruct (drop_senders_ok c) as (Sb & Su & Sa). rewrite Sb, Su, Sa, app_nil_r, orb_true_r. naive_solver.
  - rewrite app_nil_r, orb_false_r. destruct (wait_poll waiting c) as [r c'] eqn:Ew. cbn in R.
    destruct r; try done. unfold wait_poll in Ew. destruct (changed_ok c) as (Cb & Ca & Cu & Cr).
    destruct (negb waiting && _); [done|]. destruct (changed c) as [r0 c0]; cbn in *. subst r0.
    destruct (unseen c) eqn:Eu; [done|]. destruct (alive c); [|done]. injection Ew as ->. cbn. by rewrite Cb, Cu, Ca.
Qed.

(** A wait ends with the connection that was told last; it ends with nothing as soon
    as the request is over without a connection, and waits otherwise. *)
Lemma capture_result evs :
  let s := foldl happen (false, capture_new) evs in
  (wait_poll s.1 s.2).1 =
    match last (omap told evs) with Some c => RVal (Some c) | None => if existsb dropped evs then RVal None else RPending end.
Proof.
  apply wait_poll_result. induction evs as [|e evs IH] using rev_ind.
  - destruct (watch_channel_ok (C := C) (None (A := Conn))) as (Hb & Hu & Ha). unfold wait_inv, capture_new. cbn. rewrite Hb, Hu, Ha.
    split_and!; try done.
  - rewrite foldl_app. by apply happen_inv.
Qed.
End Capture.

(** tokio's channel as its documentation has it; a request that ends unconnected. *)
Module RefWatch.
Record chan (V : Type) := mkChan { c_value : V; c_unseen : bool; c_alive : bool }.
Arguments mkChan {V} _ _ _.
Arguments c_value {V} _.
Arguments c_unseen {V} _.
Arguments c_alive {V} _.
#[export] Instance ref_watch V : Watch V (chan V) := {|
  watch_channel := fun v => mkChan v false true; borrow := c_value;
  changed := fun c =>
    (if c_unseen c then RVal tt else if c_alive c then RPending else RErr tt, mkChan (c_value c) false (c_alive c));
  send_replace := fun v c => mkChan v true (c_alive c);
  drop_senders := fun c => mkChan (c_value c) (c_unseen c) false
|}.
#[export] Program Instance ref_watch_laws V : WatchLaws V (chan V) := {| unseen := c_unseen; alive := c_alive |}.
Solve All Obligations with done.

Lemma wait_ends_with_nothing :
  let s := foldl happen (false, capture_new (C := chan (option nat))) [Poll; Drop] in (wait_poll s.1 s.2).1 = RVal None.
Proof. apply (capture_result (C := chan (option nat)) [Poll; Drop]). Qed.
End RefWatch.
End Capture.

(** ** Reason phrases *)

Module ReasonPhrase.
Definition is_vchar (b : byte) : bool := (0x21 <=? b) && (b <=? 0x7E).
Definition is_obs_text (b : byte) : bool := (0x80 <=? b) && (b <=? 0xFF).
Definition is_valid_byte (b : byte) : bool := (b =? 9) || (b =? 32) || is_vchar b || is_obs_text b.
Fixpoint find_invalid_byte (l : bytes) : option byte :=
  match l with
  | [] => None
  | b :: l => if is_valid_byte b then find_invalid_byte l else Some b
  end.
(** [try_from]; the error is the byte it carries. *)
Definition try_from (reason : bytes) : result bytes byte :=
  match find_invalid_byte reason with Some bad_byte => Err bad_byte | None => Ok reason end.

(** [from_static]; [None] is a panic. *)
Definition from_static (reason : bytes) : option bytes :=
  match find_invalid_byte reason with Some _ => None | None => Some reason end.

Lemma is_valid_byte_spec b : wf_byte b -> is_valid_byte b = negb ((b <? 32) && negb (b =? 9) || (b =? 127)).
Proof. unfold wf_byte, is_valid_byte, is_vchar, is_obs_text. intros. repeat (split_match || case_match); zbool; lia. Qed.

Definition plain (b : byte) : Prop := 32 <= b /\ b <> 127 \/ b = 9.

(** A phrase is accepted, unchanged, exactly if it has no control characters but
    tabs; the error names the first. *)
Lemma try_from_exact reason : wf_bytes reason ->
  match try_from reason with
  | Ok r => r = reason /\ Forall plain reason
  | Err b => exists good rest, reason = good ++ b :: rest /\ Forall plain good /\ ~ plain b
  end.
Proof.
  intros W. unfold try_from. assert (H : match find_invalid_byte reason with
    | None => Forall plain reason
    | Some b => exists good rest, reason = good ++ b :: rest /\ Forall plain good /\ ~ plain b
    end); [|by destruct (find_invalid_byte reason)].
  induction W as [|b l Wb W IH]; [by constructor|]. cbn. rewrite is_valid_byte_spec by done.
  destruct ((b <? 32) && negb (b =? 9) || (b =? 127)) eqn:Ev; cbn.
  - exists [], l. split_and!; [done|constructor|unfold plain; lia].
  - assert (plain b) as Hb by (unfold plain; lia).
    destruct (find_invalid_byte l) as [x|]; [|by constructor].
    destruct IH as (good & rest & -> & ? & ?). exists (b :: good), rest. split_and!; try done. by constructor.
Qed.
End ReasonPhrase.
